(* ===== verification/_CoqProject ===== *)
-Q . S2P
Prelude.v
RepoName.v
Authz.v
Roles.v
Inventory.v
Retention.v
RetentionFacts.v
RetentionSpec.v
Meta.v
Group.v
GroupSpec.v
Memory.v
MemoryInv.v
MemorySpec.v
Digest.v
Sweep.v
SweepSpec.v
Evict.v
Headroom.v
EvictSpec.v
EvictSafe.v
Touch.v
TouchSpec.v
Identity.v
IdentityInv.v
IdentitySpec.v
Guard.v
GuardSpec.v
Limiter.v
LimiterSpec.v
Sha2.v
Verify.v
VerifySpec.v
BlobStore.v
BlobStoreSpec.v
GoStrings.v
Artifact.v
Http.v
Uploads.v
Manifests.v
RegistryInv.v
RegistrySafe.v
RegistrySpec.v
RegistryExact.v
Base64.v
HostPattern.v
Effects.v
Upstream.v
UpstreamSpec.v
Backoff.v
Fill.v
FillSpec.v
LeaseSpec.v
FillStream.v
FillQuiet.v
RepoConfig.v
ProxyServe.v
Crypto.v
Secretbox.v
SecretboxSpec.v
Files.v
FsStore.v
FsStoreSpec.v
FsStoreSafe.v
Keyfile.v
Password.v
Login.v
LoginSpec.v
Bootstrap.v
Tokens.v
AuthApi.v
AuthApiSpec.v
Routes.v
RoutesSpec.v
