(* ===== verification/Prelude.v ===== *)
(** * Trove: a verification development for a self-hosted OCI registry

    Trove stores container images and other OCI artifacts in hosted
    repositories, caches upstream registries in proxy repositories, and serves
    both through groups. Decision code (who may do what, what a retention policy
    deletes, which member of a group answers) runs over a metadata store and a
    content-addressed blob store; HTTP handlers receive and serve content on top
    of them; a proxy client fetches what is missing from upstream registries;
    garbage collection and cache eviction reclaim space behind all of these.
    This library models those parts as executable definitions and proves the
    properties they are trusted for.

    ** The parts and their files

    - [Prelude]: results of fallible Go code and their notation, int64
      arithmetic, sorting by a key, Go's string operations, shared lemmas.
    - [RepoName] models src/internal/reponame: the name grammar, as a regular
      expression with a derivative matcher, and name splitting.
    - [Authz] and [Roles] model src/internal/authz: verbs, scopes, bindings,
      [Decide], the filters listings compile from bindings, built-in and custom
      roles, and the check against locking the last administrator out.
    - [Inventory], [Retention], [RetentionFacts] and [RetentionSpec] model
      src/internal/policy: the validated snapshot of a repository, rule
      compilation, precedence and conflicts, and the plan of deletions.
    - [Meta] holds the rows and options of src/internal/meta; [Memory] is the
      in-memory store of src/internal/meta/memory (memory.go, gc.go, cached.go),
      one definition per method, the store as a record of finite maps.
      [MemoryInv] proves its invariant step by step, [MemorySpec] states what
      the operations do.
    - [Group] and [GroupSpec] model src/internal/repo (name splitting, group
      resolution, member visibility, routing rules) and
      src/internal/groupserve, whose stores and members are the class
      [GroupReads] and the record [Members].
    - [Digest] models the digests and typed references of src/internal/blob.
    - [Sweep] and [SweepSpec] model src/internal/gc/sweep.go over the store of
      [Memory] and a set of stored bytes.
    - [Evict], [Headroom], [EvictSpec] and [EvictSafe] model
      src/internal/cache/evict.go and orphan.go; [Touch] and [TouchSpec] model
      touch.go and schedule.go, the batcher and the scheduler as event-driven
      state machines.
    - [Identity] is the other half of the in-memory store: subjects, groups,
      credentials, sessions, role bindings and events (identity.go and its
      neighbours), with its invariant in [IdentityInv] and the behaviour of the
      operations in [IdentitySpec]. [Guard] and [GuardSpec] model
      subject.go of src/internal/authn and the guard of src/internal/server
      (bindings.go, authz_middleware.go, visibility.go) that resolve a caller
      and decide; [Limiter] and [LimiterSpec] the attempt limiter.
    - [Sha2] is SHA-256 and SHA-512 as the digests use them; [Verify] and
      [VerifySpec] model the verifying reader of src/internal/blob,
      [BlobStore] and [BlobStoreSpec] its in-memory driver with upload sessions.
    - [GoStrings] holds the string and path functions of Go the handlers use;
      [Artifact] models src/internal/artifact; [Http], [Uploads] and [Manifests]
      model the handlers of src/internal/registry as functions from requests to
      responses over the two stores. [RegistryInv] is the invariant of both
      stores together, [RegistrySafe] its preservation by every request,
      [RegistrySpec] and [RegistryExact] the answers a client gets.
    - [HostPattern] models src/internal/hostpattern and the redirect policy;
      [Effects] is the small program type (a tree of named effects) in which
      client code is written; [Upstream] and [UpstreamSpec] model the upstream
      client of src/internal/proxy and what it may request and send;
      [Backoff] the waits after a refusal; [Fill] the cache fill, the leases,
      the negative cache and request coalescing. [FillSpec] proves fills safe
      under interference, [LeaseSpec] that tag answers are current,
      [FillStream] that a fill passes the bytes through unchanged, [FillQuiet]
      that a refusing upstream is left alone.
    - [RepoConfig] models the configuration of proxy repositories and the
      presets; [ProxyServe] models src/internal/proxyserve and the table of
      clients a server keeps.
    - [Base64] is Go's encoding/base64; [Crypto] is AES-256-GCM and HMAC;
      [Secretbox] and [SecretboxSpec] model src/internal/secretbox: keys,
      keyrings, sealing and keyed digests.
    - [Files] is a file system with names, inodes, handles, failures of every
      call and loss of power; [FsStore], [FsStoreSpec] and [FsStoreSafe] model
      the driver src/internal/blob/fs over it, [Keyfile] the keyfile of
      src/internal/secretbox/keyring.go.
    - [Password], [Login], [LoginSpec] and [Bootstrap] model password.go,
      login.go, robot.go and bootstrap.go of src/internal/authn; [Tokens] models
      src/internal/authn/token; [AuthApi] and [AuthApiSpec] model the handlers
      of src/internal/server that establish who is asking (basic_auth.go,
      api_token.go, api_v2.go, api_auth_password.go, api_auth_explain.go).
    - [Routes] and [RoutesSpec] model the route table: router.go, oci_routes.go
      and routes_guard.go of src/internal/server, every registration and
      buildRouter of src/internal/cli/serve.go.

    ** Conventions

    A Go string is a byte [string]; a time is an integer of nanoseconds with 0
    for the zero time; a map is a [gmap] and a map of maps is read with [get2];
    an integer that can overflow goes through [int64]. A method takes the
    cancellation of its context as a bool and returns a [result] with a typed
    error: which error, and which field it names, is kept, its rendering as text
    is not. Logging has no effect and is left out. Where Go iterates a map or
    sorts unstably the model takes one order, and the theorems that depend on it
    say so. The regular-expression engine of retention rules is a parameter.

    Programs that talk to an upstream are trees of effects: [obeys] says that a
    specification admits every effect a program may perform, whatever answers
    it gets, [along] says the same where both depend on what has happened so
    far, and [exec] runs one against a concrete handler. What a component
    promises its client is a class or a record of laws ([GroupReads],
    [ClientLaws]), discharged by the component's own theorems.

    Code that runs beside other users of the stores (the collector, the
    evictor) threads a world and a clock of actions; before its n-th action an
    arbitrary environment changes the world, so a theorem over all environments
    covers every interleaving of atomic store calls.

    ** Bounds and fuel

    The inventory's cycle walk and breadth-first cascade run with fuel computed
    from the snapshot, proved to be enough. The loops of the collector and the
    evictor over batches are not bounded by the code: their fuel is a parameter,
    safety holds for every amount, and completeness is proved for more fuel than
    rows. The headroom of a cache budget is computed in binary64 as the Standard
    Library specifies it, and bounded for every budget.

    ** What the theorems show

    - Names, scopes, roles, decisions: exact acceptance, agreement of the
      whole-name and per-segment readings, the union semantics of bindings, and
      the agreement of listings with decisions.
    - Retention: no plan deletes protected content, plans account for every
      manifest, precedence and conflicts are as documented, rule order does not
      matter.
    - Store: every reachable state is well formed; deletions remove exactly what
      they should; pagination is complete; statistics are order independent.
    - Groups: reads implement the first-visible-answer contract, and a member a
      subject cannot read has no influence.
    - Garbage collection and eviction: safety under any interleaving,
      completeness without interference, coldest rows first, shared bytes kept.
    - Identity and the guard: deleted names leave nothing to inherit, a request
      is admitted exactly when its caller's bindings permit it, errors refuse.
    - Blobs and the registry: stored content has its digest, an upload that is
      not committed is never served, and a pushed manifest is read back byte for
      byte.
    - Proxies: an upstream sees only configured hosts and its own credentials, a
      bounded number of requests, and none while it asks to be left alone; what
      is stored and served has the digest it is stored under.
    - Files: what is named after a digest has that digest at every instant and
      after a loss of power; new content is durable when acknowledged; a durable
      keyfile is replaced as a whole.
    - Secrets and logins: what is sealed opens exactly under its key and
      context; passwords, robot secrets and tokens admit exactly whom they
      should; a first boot that is cut off is completed by the next.
    - Routes: a handler runs only behind the guard or from the frozen public
      list, and each distribution path names one handler, name and permission.

    ** Not modelled

    The SQL stores and their migrations (text run by external engines), the
    object-storage driver, the stored credentials of upstreams, the batching of
    pull statistics, the administrative JSON API, configuration loading and most
    of the command line, the event bus and the delivery of events, and
    vulnerability scanning. The manifest lists every part with its status. *)
From stdpp Require Export gmap strings list sorting fin_maps.
From Stdlib Require Export Ascii ZArith Lia.

(** ** Results of fallible Go code

    A Go function that returns [(T, error)] is a function into [result E T];
    [E] is the inductive type of the typed errors that function can build. *)
Inductive result (E A : Type) : Type :=
| Ok (a : A)
| Err (e : E).
Arguments Ok {E A} a.
Arguments Err {E A} e.

Definition result_bind {E A B} (r : result E A) (k : A → result E B) : result E B :=
  match r with
  | Ok a => k a
  | Err e => Err e
  end.

Definition result_map_err {E F A} (f : E → F) (r : result E A) : result F A :=
  match r with
  | Ok a => Ok a
  | Err e => Err (f e)
  end.

Definition is_ok {E A} (r : result E A) : bool :=
  match r with Ok _ => true | Err _ => false end.

Declare Scope trove_scope.
Delimit Scope trove_scope with trove.
Notation "'let!' x ':=' r 'in' k" := (result_bind r (λ x, k))
  (at level 10, x name, r at level 100, k at level 200) : trove_scope.
Notation "'check!' r 'in' k" := (result_bind r (λ _, k))
  (at level 10, r at level 100, k at level 200) : trove_scope.
Open Scope trove_scope.

(** Folding a fallible function over a list, left to right, stopping at the
    first error: the shape of a Go [for] loop with an early [return err]. *)
Fixpoint foldM {E A S} (f : S → A → result E S) (s : S) (l : list A) : result E S :=
  match l with
  | [] => Ok s
  | a :: l => let! s' := f s a in foldM f s' l
  end.

(** ** Tactics of the development *)
Ltac inv_result :=
  repeat match goal with
  | H : Ok _ = Ok _ |- _ => injection H as H; subst
  | H : Err _ = Err _ |- _ => injection H as H; subst
  | H : Ok _ = Err _ |- _ => discriminate H
  | H : Err _ = Ok _ |- _ => discriminate H
  | H : result_bind ?r _ = Ok _ |- _ => destruct r eqn:?; simpl in H
  | H : result_bind ?r _ = Err _ |- _ => destruct r eqn:?; simpl in H
  end.

(** Case analysis on the boolean or decidable guards of an early return. *)
Ltac split_guards :=
  repeat match goal with
  | H : context [if ?b then _ else _] |- _ => destruct b eqn:?; try discriminate H
  | |- context [if ?b then _ else _] => destruct b eqn:?
  end.

(** ** int64 arithmetic *)
Definition int64 (z : Z) : Z := ((z + 2 ^ 63) mod 2 ^ 64 - 2 ^ 63)%Z.
Definition add64 (a b : Z) : Z := int64 (a + b).
Definition int64_range (z : Z) : Prop := (- 2 ^ 63 ≤ z < 2 ^ 63)%Z.

Lemma int64_small z : int64_range z → int64 z = z.
Proof. unfold int64, int64_range. intros. rewrite Z.mod_small; lia. Qed.

Lemma int64_bounds z : int64_range (int64 z).
Proof.
  unfold int64, int64_range.
  pose proof (Z.mod_pos_bound (z + 2 ^ 63) (2 ^ 64)). lia.
Qed.

(** ** Lists *)
Lemma nodup_key_inj {A B} (key : A → B) (l : list A) x y :
  NoDup (key <$> l) → x ∈ l → y ∈ l → key x = key y → x = y.
Proof.
  induction l as [|z l IH]; [by intros _ ?%not_elem_of_nil|].
  csimpl. rewrite NoDup_cons, !elem_of_cons. intros [Hn Hnd] [->|Hx] [->|Hy] Hk; auto.
  - destruct Hn. rewrite Hk. by apply list_elem_of_fmap_2.
  - destruct Hn. rewrite <-Hk. by apply list_elem_of_fmap_2.
Qed.

Lemma NoDup_fmap_filter {A B} (f : A → B) (P : A → Prop) `{!∀ x, Decision (P x)} (l : list A) :
  NoDup (f <$> l) → NoDup (f <$> filter P l).
Proof. intros Hnd. eapply sublist_NoDup; [exact Hnd|]. apply (fmap_sublist f), sublist_filter. Qed.

Lemma ex_snoc {A} (P : A → Prop) (l : list A) x :
  (∃ y, y ∈ l ++ [x] ∧ P y) ↔ (∃ y, y ∈ l ∧ P y) ∨ P x.
Proof. setoid_rewrite elem_of_app. setoid_rewrite list_elem_of_singleton. naive_solver. Qed.

Lemma filter_none {A} (P : A → Prop) `{!∀ x, Decision (P x)} (l : list A) :
  (∀ x, x ∈ l → ¬ P x) → filter P l = [].
Proof.
  induction l as [|x l IH]; intros Hn; [done|]. rewrite filter_cons_False by (apply Hn; by left).
  apply IH. intros y Hy. apply Hn. by right.
Qed.

Lemma filter_key_eq {A} (key : A → string) (l : list A) x :
  NoDup (key <$> l) → x ∈ l → filter (λ y, key y = key x) l = [x].
Proof.
  induction l as [|y l IH]; intros Hnd Hx; [by apply not_elem_of_nil in Hx|].
  apply NoDup_cons in Hnd as [Hy Hnd]. apply elem_of_cons in Hx as [->|Hx].
  - rewrite filter_cons_True by done. f_equal. apply filter_none. intros z Hz He.
    apply Hy. rewrite <-He. by apply list_elem_of_fmap_2.
  - rewrite filter_cons_False; [by apply IH|]. intros He. apply Hy. rewrite He. by apply list_elem_of_fmap_2.
Qed.

(** A Go loop that appends the images of the elements a guard accepts. *)
Lemma foldl_append_if {A B} (p : A → bool) (f : A → B) acc l :
  foldl (λ out x, if p x then out ++ [f x] else out) acc l =
  acc ++ (f <$> filter (λ x, p x = true) l).
Proof.
  revert acc. induction l as [|x l IH]; intros acc; [by rewrite app_nil_r|].
  cbn [foldl]. rewrite IH, filter_cons. destruct (p x); [|done].
  rewrite decide_True by done. csimpl. by rewrite <-(assoc_L (++)).
Qed.

Lemma foldl_ext {A B} (f g : A → B → A) (l : list B) a :
  (∀ a b, f a b = g a b) → foldl f a l = foldl g a l.
Proof. intros H. revert a. induction l as [|x l IH]; intros a; simpl; [done|]. by rewrite H, IH. Qed.

Lemma existsb_elem {A} (p : A → bool) (l : list A) :
  existsb p l = true ↔ ∃ x, x ∈ l ∧ p x = true.
Proof. rewrite existsb_exists. by setoid_rewrite list_elem_of_In. Qed.

Lemma foldM_unit_ok {E A} (f : A → result E unit) (l : list A) :
  foldM (λ _ a, f a) tt l = Ok tt ↔ Forall (λ a, f a = Ok tt) l.
Proof.
  induction l as [|a l IH]; simpl; [by split; auto|].
  rewrite Forall_cons, <-IH. destruct (f a) as [[]|]; simpl; naive_solver.
Qed.

(** Invariants of a fallible fold, on success and on failure. *)
Lemma foldM_inv {E A S} (P : S → Prop) (f : S → A → result E S) s l s' :
  (∀ s a s', P s → f s a = Ok s' → P s') → P s → foldM f s l = Ok s' → P s'.
Proof.
  intros Hstep. revert s. induction l as [|a l IH]; intros s Hs H; simpl in H; inv_result; eauto.
Qed.

Lemma foldM_err_inv {E A S} (P : E → Prop) (f : S → A → result E S) s l e :
  (∀ s a e, f s a = Err e → P e) → foldM f s l = Err e → P e.
Proof.
  intros Hf. revert s. induction l as [|a l IH]; intros s H; simpl in H; [done|].
  destruct (f s a) eqn:Ha; simpl in H; [eauto|]. simplify_eq. eauto.
Qed.

(** ** Sorting by a key

    [sort.Slice], [slices.Sort] and [slices.SortFunc] of the source, with the
    comparison the call site passes. The model sorts stably; the code's
    theorems only use that the result is a sorted permutation. *)
Section sort_on.
Context {A B : Type} (R : relation B) `{!RelDecision R} (key : A → B).

Definition on_key : relation A := λ a b, R (key a) (key b).

#[export] Instance on_key_dec : RelDecision on_key := λ a b, decide (R (key a) (key b)).

Definition sort_on (l : list A) : list A := merge_sort on_key l.

#[export] Instance on_key_trans `{!Transitive R} : Transitive on_key.
Proof. intros a b c. unfold on_key. apply transitivity. Qed.

#[export] Instance on_key_total `{!Total R} : Total on_key.
Proof. intros a b. unfold on_key. apply total, _. Qed.

Lemma sort_on_perm l : sort_on l ≡ₚ l.
Proof. apply merge_sort_Permutation. Qed.

Lemma sort_on_elem x l : x ∈ sort_on l ↔ x ∈ l.
Proof. by rewrite sort_on_perm. Qed.

Lemma sort_on_length l : length (sort_on l) = length l.
Proof. by rewrite sort_on_perm. Qed.

Lemma sort_on_sorted `{!Transitive R, !Total R} l : StronglySorted on_key (sort_on l).
Proof. apply StronglySorted_merge_sort; apply _. Qed.

(** Two lists with the same elements and pairwise distinct keys sort to the
    same list: what makes a result independent of iteration order. *)
Lemma sort_on_perm_eq `{!Transitive R, !Total R, !AntiSymm (=) R} l1 l2 :
  l1 ≡ₚ l2 → NoDup (key <$> l1) → sort_on l1 = sort_on l2.
Proof.
  intros Hp Hnd.
  apply (StronglySorted_unique_strong on_key); [|apply sort_on_sorted..|by rewrite !sort_on_perm].
  intros x1 x2 H1 H2 H12 H21. rewrite sort_on_elem in H1. rewrite sort_on_elem in H2.
  rewrite <-Hp in H2.
  apply (nodup_key_inj key l1); [done..|]. by apply (anti_symm R).
Qed.
End sort_on.
Arguments on_key {_ _} R key _ _ /.

(** [slices.Sort] on strings. *)
Definition sort_strings (l : list string) : list string := sort_on String.le id l.

Lemma sort_strings_perm l : sort_strings l ≡ₚ l.
Proof. apply sort_on_perm. Qed.

Lemma sort_strings_elem x l : x ∈ sort_strings l ↔ x ∈ l.
Proof. by rewrite sort_strings_perm. Qed.

Lemma sort_strings_eq l1 l2 : l1 ≡ₚ l2 → sort_strings l1 = sort_strings l2.
Proof.
  intros Hp. apply (StronglySorted_unique (on_key String.le id)).
  - apply sort_on_sorted; apply _.
  - apply sort_on_sorted; apply _.
  - unfold sort_strings. by rewrite !sort_on_perm.
Qed.

(** ** Strings

    Go strings are byte strings; so is [string]. The operations below are the
    ones of package strings the source calls. *)
Definition HasPrefix (s prefix : string) : bool := String.prefix prefix s.

Definition HasSuffix (s suffix : string) : bool :=
  (String.length suffix <=? String.length s) &&
  String.eqb (String.substring (String.length s - String.length suffix) (String.length suffix) s) suffix.

(** [strings.CutSuffix]. *)
Definition CutSuffix (s suffix : string) : string * bool :=
  if HasSuffix s suffix
  then (String.substring 0 (String.length s - String.length suffix) s, true)
  else (s, false).

(** [strings.Cut] at a one-byte separator. *)
Fixpoint Cut (s : string) (sep : ascii) : string * string * bool :=
  match s with
  | EmptyString => ("", "", false)
  | String c s' =>
      if Ascii.eqb c sep then ("", s', true)
      else let '(before, after, found) := Cut s' sep in (String c before, after, found)
  end.

(** [strings.Contains] of a one-byte needle. *)
Fixpoint ContainsByte (s : string) (c : ascii) : bool :=
  match s with
  | EmptyString => false
  | String c' s' => Ascii.eqb c' c || ContainsByte s' c
  end.

(** [a < b] on strings. *)
Definition str_lt (a b : string) : bool := String.ltb a b.

Lemma str_app_cons (c : ascii) (a b : string) : String c a +:+ b = String c (a +:+ b).
Proof. done. Qed.

Lemma str_app_assoc (a b c : string) : (a +:+ b) +:+ c = a +:+ (b +:+ c).
Proof. induction a as [|x a IH]; [done|]. rewrite !str_app_cons. by f_equal. Qed.

Lemma str_app_nil_r (a : string) : a +:+ "" = a.
Proof. induction a as [|x a IH]; [done|]. rewrite str_app_cons. by f_equal. Qed.

Lemma str_length_app (a b : string) :
  String.length (a +:+ b) = String.length a + String.length b.
Proof. induction a as [|x a IH]; [done|]. rewrite str_app_cons. simpl. by f_equal. Qed.

Lemma HasPrefix_iff s p : HasPrefix s p = true ↔ ∃ t, s = p +:+ t.
Proof.
  unfold HasPrefix. revert s. induction p as [|c p IH]; intros s.
  - split; [|by destruct s]. intros _. by exists s.
  - destruct s as [|c' s]; simpl.
    { split; [done|]. intros [t Ht]. discriminate Ht. }
    destruct (ascii_dec c c') as [->|Hne].
    + rewrite IH. split; intros [t Ht]; exists t; [by subst|by injection Ht].
    + split; [done|]. intros [t Ht]. injection Ht as ??. congruence.
Qed.

Lemma substring_full s : String.substring 0 (String.length s) s = s.
Proof. induction s as [|c s IH]; simpl; [done|by f_equal]. Qed.

Lemma substring_app_l a b : String.substring 0 (String.length a) (a +:+ b) = a.
Proof.
  induction a as [|c a IH]; [by destruct b|].
  rewrite str_app_cons. simpl. by f_equal.
Qed.

Lemma substring_app_r a b : String.substring (String.length a) (String.length b) (a +:+ b) = b.
Proof.
  induction a as [|c a IH]; [apply substring_full|]. exact IH.
Qed.

Lemma substring_split n s :
  n ≤ String.length s →
  s = String.substring 0 n s +:+ String.substring n (String.length s - n) s.
Proof.
  revert s. induction n as [|n IH]; intros [|c s]; simpl; intros; try lia; try done.
  - by rewrite substring_full.
  - rewrite str_app_cons. f_equal. apply IH. lia.
Qed.

Lemma HasSuffix_app p suf : HasSuffix (p +:+ suf) suf = true.
Proof.
  unfold HasSuffix. rewrite str_length_app.
  replace (_ + _ - _) with (String.length p) by lia.
  rewrite substring_app_r, String.eqb_refl, andb_true_r. apply Nat.leb_le. lia.
Qed.

Lemma HasSuffix_iff s suf : HasSuffix s suf = true ↔ ∃ p, s = p +:+ suf.
Proof.
  split; [|intros [p ->]; apply HasSuffix_app].
  unfold HasSuffix. rewrite andb_true_iff, Nat.leb_le, String.eqb_eq.
  intros [Hlen Heq]. eexists.
  rewrite (substring_split (String.length s - String.length suf) s) at 1 by lia.
  replace (_ - (_ - _)) with (String.length suf) by lia. by rewrite Heq.
Qed.

(** [CutSuffix] finds the suffix exactly when the string ends in it, and then
    returns what precedes it. *)
Lemma CutSuffix_iff s suf p : CutSuffix s suf = (p, true) ↔ s = p +:+ suf.
Proof.
  unfold CutSuffix. split.
  - destruct (HasSuffix s suf) eqn:H; intros [= <-].
    apply HasSuffix_iff in H as [q ->]. rewrite str_length_app.
    replace (_ + _ - _) with (String.length q) by lia. by rewrite substring_app_l.
  - intros ->. rewrite HasSuffix_app, str_length_app.
    replace (_ + _ - _) with (String.length p) by lia. by rewrite substring_app_l.
Qed.

Lemma str_app_inj_r a b c : a +:+ c = b +:+ c → a = b.
Proof.
  intros H. pose proof (proj2 (CutSuffix_iff _ c a) eq_refl) as Ha.
  rewrite H, (proj2 (CutSuffix_iff _ c b) eq_refl) in Ha. congruence.
Qed.

Lemma CutSuffix_cases s suf :
  (∃ p, CutSuffix s suf = (p, true) ∧ s = p +:+ suf) ∨
  (CutSuffix s suf = (s, false) ∧ ∀ p, s ≠ p +:+ suf).
Proof.
  destruct (HasSuffix s suf) eqn:H.
  - apply HasSuffix_iff in H as [p ->]. left. exists p. by rewrite CutSuffix_iff.
  - right. unfold CutSuffix. rewrite H. split; [done|].
    intros p ->. by rewrite HasSuffix_app in H.
Qed.
