(* ===== verification/RepoName.v ===== *)
(** * The repository-name grammar (src/internal/reponame/reponame.go)

    [Validate] is the one gate every repository name passes. The distribution
    grammar is a regular expression in the source; [re] and [re_match] are the
    part of package regexp that expression uses (classes, concatenation,
    alternation, repetition, anchored match), with the denotation [re_in] they
    are proved against. The file then shows what the grammar excludes and how it
    relates to [Segments] and [Prefix]. *)
From S2P Require Import Prelude.

(** ** Regular expressions *)
Inductive re : Type :=
| RNone                       (* matches nothing *)
| REps                        (* the empty string *)
| RClass (p : ascii → bool)   (* one byte of a class *)
| RCat (r1 r2 : re)
| RAlt (r1 r2 : re)
| RStar (r : re).

(** The language of an expression. *)
Inductive re_in : re → string → Prop :=
| in_eps : re_in REps ""
| in_class p c : p c = true → re_in (RClass p) (String c "")
| in_cat r1 r2 s1 s2 : re_in r1 s1 → re_in r2 s2 → re_in (RCat r1 r2) (s1 +:+ s2)
| in_alt_l r1 r2 s : re_in r1 s → re_in (RAlt r1 r2) s
| in_alt_r r1 r2 s : re_in r2 s → re_in (RAlt r1 r2) s
| in_star_nil r : re_in (RStar r) ""
| in_star_cons r s1 s2 : re_in r s1 → re_in (RStar r) s2 → re_in (RStar r) (s1 +:+ s2).

Create HintDb regex.
#[export] Hint Constructors re_in : regex.

Fixpoint nullable (r : re) : bool :=
  match r with
  | RNone | RClass _ => false
  | REps | RStar _ => true
  | RCat r1 r2 => nullable r1 && nullable r2
  | RAlt r1 r2 => nullable r1 || nullable r2
  end.

(** Concatenation and alternation that drop the trivial operands, so a
    derivative stays small when it is evaluated. *)
Definition rcat (r1 r2 : re) : re :=
  match r1, r2 with
  | RNone, _ | _, RNone => RNone
  | REps, r => r
  | _, _ => RCat r1 r2
  end.
Definition ralt (r1 r2 : re) : re :=
  match r1, r2 with
  | RNone, r => r
  | r, RNone => r
  | _, _ => RAlt r1 r2
  end.

(** The Brzozowski derivative by one byte. *)
Fixpoint deriv (c : ascii) (r : re) : re :=
  match r with
  | RNone | REps => RNone
  | RClass p => if p c then REps else RNone
  | RCat r1 r2 =>
      if nullable r1 then ralt (rcat (deriv c r1) r2) (deriv c r2)
      else rcat (deriv c r1) r2
  | RAlt r1 r2 => ralt (deriv c r1) (deriv c r2)
  | RStar r1 => rcat (deriv c r1) (RStar r1)
  end.

(** [Regexp.MatchString] of an expression anchored at both ends. *)
Fixpoint re_match (r : re) (s : string) : bool :=
  match s with
  | EmptyString => nullable r
  | String c s' => re_match (deriv c r) s'
  end.

Definition rplus (r : re) : re := RCat r (RStar r).
Definition rbyte (c : ascii) : re := RClass (Ascii.eqb c).

Lemma re_in_rcat r1 r2 s : re_in (rcat r1 r2) s ↔ re_in (RCat r1 r2) s.
Proof.
  assert (∀ r t, re_in r t → re_in (RCat REps r) t) as Heps
    by (intros r t ?; change t with ("" +:+ t); auto with regex).
  destruct r1, r2; simpl; split; auto; inv 1;
    repeat match goal with
    | H : re_in RNone _ |- _ => inv H
    | H : re_in REps _ |- _ => inv H
    end; auto with regex.
Qed.

Lemma re_in_ralt r1 r2 s : re_in (ralt r1 r2) s ↔ re_in r1 s ∨ re_in r2 s.
Proof.
  destruct r1, r2; simpl; split; try (intros [H|H]); auto with regex;
    try (by inv H); try (intros H; inv H; auto with regex; fail).
Qed.

Lemma nullable_in r : nullable r = true ↔ re_in r "".
Proof.
  induction r; simpl; split; intros H; try discriminate; try (by inv H); auto with regex.
  - apply andb_true_iff in H as [H1 H2].
    change (re_in (RCat r1 r2) ("" +:+ "")). apply in_cat; [by apply IHr1|by apply IHr2].
  - inv H. apply andb_true_iff.
    destruct s1; [|done]. destruct s2; [|done]. split; [by apply IHr1|by apply IHr2].
  - apply orb_true_iff in H as [H|H]; [apply in_alt_l|apply in_alt_r]; [by apply IHr1|by apply IHr2].
  - apply orb_true_iff. inv H; [left; by apply IHr1|right; by apply IHr2].
Qed.

Lemma re_in_cat_inv r1 r2 s :
  re_in (RCat r1 r2) s → ∃ s1 s2, s = s1 +:+ s2 ∧ re_in r1 s1 ∧ re_in r2 s2.
Proof. inv 1; eauto. Qed.

Lemma re_in_star_head r c s :
  re_in (RStar r) (String c s) → ∃ s1 s2, s = s1 +:+ s2 ∧ re_in r (String c s1) ∧ re_in (RStar r) s2.
Proof.
  intros H. remember (RStar r) as r' eqn:Er. remember (String c s) as s' eqn:Es.
  revert r c s Er Es. induction H; intros; simplify_eq.
  destruct s1 as [|c' s1]; [by eauto|].
  rewrite str_app_cons in Es. simplify_eq. eauto 6.
Qed.

Lemma deriv_in c r s : re_in (deriv c r) s ↔ re_in r (String c s).
Proof.
  revert s. induction r as [| |p|r1 IH1 r2 IH2|r1 IH1 r2 IH2|r IH]; intros s; simpl.
  - split; inv 1.
  - split; inv 1.
  - destruct (p c) eqn:Hp; split; inv 1; auto with regex; congruence.
  - assert (re_in (rcat (deriv c r1) r2) s ↔
      ∃ s1 s2, s = s1 +:+ s2 ∧ re_in r1 (String c s1) ∧ re_in r2 s2) as Hc.
    { rewrite re_in_rcat. split.
      - inv 1. do 2 eexists. split; [done|]. split; [by apply IH1|done].
      - intros (s1 & s2 & -> & ? & ?). apply in_cat; [by apply IH1|done]. }
    assert (re_in (RCat r1 r2) (String c s) ↔
      (∃ s1 s2, s = s1 +:+ s2 ∧ re_in r1 (String c s1) ∧ re_in r2 s2) ∨
      (nullable r1 = true ∧ re_in r2 (String c s))) as Hr.
    { split.
      - intros (s1 & s2 & Heq & Hs1 & Hs2)%re_in_cat_inv.
        destruct s1 as [|c' s1]; [right; split; [by apply nullable_in|by rewrite Heq]|].
        rewrite str_app_cons in Heq. simplify_eq. eauto 6.
      - intros [(s1 & s2 & -> & ? & ?)|[Hn ?]].
        + rewrite <-str_app_cons. auto with regex.
        + apply nullable_in in Hn. change (String c s) with ("" +:+ String c s). auto with regex. }
    destruct (nullable r1) eqn:Hn.
    + rewrite re_in_ralt, Hc, Hr, IH2. split; [intros [?|?]|intros [?|[_ ?]]]; auto.
    + rewrite Hc, Hr. split; [auto|intros [?|[? _]]; done].
  - rewrite re_in_ralt, IH1, IH2. split; [intros []; auto with regex|inv 1; auto].
  - rewrite re_in_rcat. split.
    + inv 1. rewrite <-str_app_cons. apply in_star_cons; [by apply IH|done].
    + intros (s1 & s2 & -> & ? & ?)%re_in_star_head. apply in_cat; [by apply IH|done].
Qed.

(** The matcher decides the language. *)
Lemma re_match_in r s : re_match r s = true ↔ re_in r s.
Proof.
  revert r. induction s as [|c s IH]; intros r; simpl; [apply nullable_in|].
  by rewrite IH, deriv_in.
Qed.

(** ** The grammar of reponame.go *)
Definition MaxLength : nat := 255.

Definition in_range (lo hi c : ascii) : bool :=
  (N_of_ascii lo <=? N_of_ascii c)%N && (N_of_ascii c <=? N_of_ascii hi)%N.

(** [[a-z0-9]]. *)
Definition alnum (c : ascii) : bool := in_range "a" "z" c || in_range "0" "9" c.

(** [(?:[._]|__|[-]+)]. *)
Definition separator : re :=
  RAlt (RClass (λ c, Ascii.eqb "." c || Ascii.eqb "_" c))
    (RAlt (RCat (rbyte "_") (rbyte "_")) (rplus (rbyte "-"))).

(** [[a-z0-9]+(?:(?:[._]|__|[-]+)[a-z0-9]+)*]. *)
Definition component : re :=
  RCat (rplus (RClass alnum)) (RStar (RCat separator (rplus (RClass alnum)))).

(** The whole expression: a component, then slash-separated components. *)
Definition pattern : re := RCat component (RStar (RCat (rbyte "/") component)).

(** Why a name was refused; the source carries the same distinction as text. *)
Inductive InvalidReason : Type :=
| NameEmpty
| NameTooLong
| NameNotLower
| NameGrammar
| NameNotOneSegment
| NameReserved.

Record InvalidError : Type := Invalid { ie_name : string; ie_reason : InvalidReason }.

(** [strings.ToLower], on ASCII letters. *)
Definition lower_byte (c : ascii) : ascii :=
  if in_range "A" "Z" c then ascii_of_N (N_of_ascii c + 32) else c.
Fixpoint ToLower (s : string) : string :=
  match s with
  | EmptyString => EmptyString
  | String c s' => String (lower_byte c) (ToLower s')
  end.

Definition Validate (name : string) : result InvalidError unit :=
  if String.eqb name "" then Err (Invalid name NameEmpty)
  else if MaxLength <? String.length name then Err (Invalid name NameTooLong)
  else if negb (String.eqb (ToLower name) name) then Err (Invalid name NameNotLower)
  else if negb (re_match pattern name) then Err (Invalid name NameGrammar)
  else Ok tt.

Definition Valid (name : string) : bool := is_ok (Validate name).

(** [strings.Split(name, "/")]. *)
Fixpoint SplitByte (s : string) (sep : ascii) : list string :=
  match s with
  | EmptyString => [""]
  | String c s' =>
      if Ascii.eqb c sep then "" :: SplitByte s' sep
      else match SplitByte s' sep with
           | [] => [String c ""]
           | w :: ws => String c w :: ws
           end
  end.

Definition Segments (name : string) : list string := SplitByte name "/".

Definition Prefix (name : string) : string :=
  let '(first, _, found) := Cut name "/" in
  if found then first else name.

(** ** What the grammar accepts *)

(** The bytes an expression can consume. *)
Fixpoint re_bytes (r : re) (c : ascii) : bool :=
  match r with
  | RNone | REps => false
  | RClass p => p c
  | RCat r1 r2 | RAlt r1 r2 => re_bytes r1 c || re_bytes r2 c
  | RStar r1 => re_bytes r1 c
  end.

Lemma ContainsByte_app a b c : ContainsByte (a +:+ b) c = ContainsByte a c || ContainsByte b c.
Proof. induction a as [|x a IH]; [done|]. rewrite str_app_cons. simpl. by rewrite IH, orb_assoc. Qed.

Lemma re_in_bytes r s c : re_in r s → ContainsByte s c = true → re_bytes r c = true.
Proof.
  induction 1; simpl; rewrite ?ContainsByte_app, ?orb_true_iff; try tauto; try discriminate.
  intros [Heq|?]; [|done]. apply Ascii.eqb_eq in Heq. by subst.
Qed.

Lemma re_in_no_byte r s c : re_bytes r c = false → re_in r s → ContainsByte s c = false.
Proof.
  intros Hr Hs. destruct (ContainsByte s c) eqn:Hc; [|done].
  by rewrite (re_in_bytes _ _ _ Hs Hc) in Hr.
Qed.

(** The tail of a slash-joined path. *)
Definition slashed (ws : list string) : string := foldr (λ w t, String "/" (w +:+ t)) "" ws.

Lemma SplitByte_app_sep sep a b :
  ContainsByte a sep = false → SplitByte (a +:+ String sep b) sep = a :: SplitByte b sep.
Proof.
  induction a as [|c a IH]; intros Ha; [simpl; by rewrite Ascii.eqb_refl|].
  rewrite str_app_cons. simpl in *. apply orb_false_iff in Ha as [-> Ha]. by rewrite IH.
Qed.

Lemma SplitByte_none sep a : ContainsByte a sep = false → SplitByte a sep = [a].
Proof.
  induction a as [|c a IH]; intros Ha; [done|].
  simpl in *. apply orb_false_iff in Ha as [-> Ha]. by rewrite IH.
Qed.

(** Splitting at a byte inverts joining with it, both ways. *)
Fixpoint strings_Join (ws : list string) (sep : ascii) : string :=
  match ws with
  | [] => ""
  | [w] => w
  | w :: ws => w +:+ String sep (strings_Join ws sep)
  end.

Lemma SplitByte_nonempty s sep : SplitByte s sep ≠ [].
Proof. destruct s as [|c s]; cbn [SplitByte]; [done|]. destruct (Ascii.eqb c sep), (SplitByte s sep); done. Qed.

Lemma Join_SplitByte s sep : strings_Join (SplitByte s sep) sep = s.
Proof.
  induction s as [|c s IH]; [done|]. cbn [SplitByte]. destruct (Ascii.eqb_spec c sep) as [->|Hne].
  - pose proof (SplitByte_nonempty s sep). destruct (SplitByte s sep); [done|]. rewrite <- IH. done.
  - destruct (SplitByte s sep) as [|w [|w' ws]]; cbn [strings_Join] in *; rewrite <- IH; done.
Qed.

Lemma SplitByte_clean s sep : Forall (λ w, ContainsByte w sep = false) (SplitByte s sep).
Proof.
  induction s as [|c s IH]; [by repeat constructor|]. cbn [SplitByte].
  destruct (Ascii.eqb c sep) eqn:Hc; [by constructor|].
  destruct (SplitByte s sep) as [|w ws]; [constructor; [cbn; by rewrite Hc|done]|].
  apply Forall_cons in IH as [Hw Hws]. constructor; [|done]. cbn [ContainsByte]. by rewrite Hc, Hw.
Qed.

Lemma SplitByte_Join w ws sep :
  Forall (λ w, ContainsByte w sep = false) (w :: ws) → SplitByte (strings_Join (w :: ws) sep) sep = w :: ws.
Proof.
  revert w. induction ws as [|w' ws IH]; intros w [Hw Hws]%Forall_cons; [by apply SplitByte_none|].
  change (strings_Join (w :: w' :: ws) sep) with (w +:+ String sep (strings_Join (w' :: ws) sep)).
  rewrite SplitByte_app_sep by done. by rewrite IH.
Qed.

Lemma SplitByte_slashed w ws :
  Forall (λ w, ContainsByte w "/" = false) (w :: ws) → SplitByte (w +:+ slashed ws) "/" = w :: ws.
Proof.
  revert w. induction ws as [|w' ws IH]; intros w Hw; inv Hw as [|?? Hw1 Hws]; simpl.
  - rewrite str_app_nil_r. by apply SplitByte_none.
  - rewrite SplitByte_app_sep by done. by rewrite IH.
Qed.

Lemma SplitByte_join s : ∃ w ws, SplitByte s "/" = w :: ws ∧ s = w +:+ slashed ws.
Proof.
  induction s as [|c s (w & ws & Hs & Heq)]; [by exists "", []|]. simpl.
  destruct (Ascii.eqb_spec c "/") as [->|Hne].
  - exists "", (w :: ws). split; [by rewrite Hs|]. simpl. by rewrite Heq at 1.
  - rewrite Hs. exists (String c w), ws. split; [done|]. by rewrite str_app_cons, <-Heq.
Qed.

Lemma re_in_slashed t :
  re_in (RStar (RCat (rbyte "/") component)) t ↔ ∃ ws, t = slashed ws ∧ Forall (re_in component) ws.
Proof.
  split.
  - intros H. remember (RStar _) as r eqn:Er. induction H; simplify_eq.
    + by exists [].
    + destruct IHre_in2 as (ws & -> & Hws); [done|].
      apply re_in_cat_inv in H as (s & w & -> & Hs & Hw). inv Hs as [|p c Hp| | | | |].
      apply Ascii.eqb_eq in Hp as <-.
      exists (w :: ws). split; [|by constructor]. done.
  - intros (ws & -> & Hws). induction Hws as [|w ws Hw Hws IH]; [auto with regex|].
    simpl. replace (String "/" (w +:+ slashed ws)) with (("/" +:+ w) +:+ slashed ws) by done.
    apply in_star_cons; [|done]. apply in_cat; [by apply in_class|done].
Qed.

Lemma component_no_slash w : re_in component w → ContainsByte w "/" = false.
Proof. by apply re_in_no_byte. Qed.

(** A path matches the expression exactly when every segment is a component. *)
Lemma pattern_segments s : re_in pattern s ↔ Forall (re_in component) (Segments s).
Proof.
  split.
  - intros (w & t & -> & Hw & (ws & -> & Hws)%re_in_slashed)%re_in_cat_inv.
    unfold Segments. rewrite SplitByte_slashed; [by constructor|].
    constructor; [by apply component_no_slash|].
    eapply Forall_impl; [done|]. apply component_no_slash.
  - unfold Segments. destruct (SplitByte_join s) as (w & ws & -> & ->).
    inv 1. apply in_cat; [done|]. apply re_in_slashed. eauto.
Qed.

Lemma lower_byte_fix c : in_range "A" "Z" c = false → lower_byte c = c.
Proof. unfold lower_byte. by intros ->. Qed.

Lemma ToLower_fix s : (∀ c, ContainsByte s c = true → in_range "A" "Z" c = false) → ToLower s = s.
Proof.
  induction s as [|c s IH]; intros H; [done|]. simpl. f_equal.
  - apply lower_byte_fix, H. simpl. by rewrite Ascii.eqb_refl.
  - apply IH. intros c' Hc'. apply H. simpl. by rewrite Hc', orb_true_r.
Qed.

Lemma pattern_bytes_not_upper c : re_bytes pattern c = true → in_range "A" "Z" c = false.
Proof. destruct c as [[] [] [] [] [] [] [] []]; vm_compute; done. Qed.

(** The first three guards of [Validate] add nothing but the length bound. *)
Lemma Valid_iff_pattern name :
  Valid name = true ↔ String.length name ≤ MaxLength ∧ re_in pattern name.
Proof.
  unfold Valid, Validate. rewrite <-re_match_in.
  destruct (String.eqb_spec name "") as [->|Hne].
  { split; [done|]. intros [_ H]. by vm_compute in H. }
  destruct (Nat.ltb_spec MaxLength (String.length name)); [split; [done|lia]|].
  destruct (String.eqb_spec (ToLower name) name) as [_|Hl]; simpl.
  - destruct (re_match pattern name) eqn:Hm; simpl; [split; [lia|done]|split; [done|by intros [_ ?]]].
  - split; [done|]. intros [_ Hm]. destruct Hl. apply ToLower_fix. intros c Hc.
    apply pattern_bytes_not_upper. by eapply re_in_bytes; [apply re_match_in|].
Qed.

Lemma Valid_pattern name : Valid name = true → re_in pattern name.
Proof. intros H. by apply Valid_iff_pattern in H as [_ H]. Qed.

Lemma Valid_no_star name : Valid name = true → ContainsByte name "*" = false.
Proof. intros H%Valid_pattern. by apply (re_in_no_byte pattern). Qed.

Lemma Valid_nonempty name : Valid name = true → name ≠ "".
Proof. by intros H ->. Qed.

Lemma Validate_ok name : Validate name = Ok tt ↔ Valid name = true.
Proof. unfold Valid. by destruct (Validate name) as [[]|]. Qed.

Lemma Cut_none s c : ContainsByte s c = false → Cut s c = (s, "", false).
Proof.
  induction s as [|x s IH]; simpl; [done|]. intros [Hx Hs]%orb_false_iff.
  by rewrite Hx, IH.
Qed.

Lemma Cut_app a b c : ContainsByte a c = false → Cut (a +:+ String c b) c = (a, b, true).
Proof.
  induction a as [|x a IH]; intros Ha.
  - change (Cut (String c b) c = ("", b, true)). simpl. by rewrite Ascii.eqb_refl.
  - rewrite str_app_cons. simpl in *. apply orb_false_iff in Ha as [-> Ha]. by rewrite IH.
Qed.

(** The routing prefix is the first segment. *)
Lemma Prefix_Segments name w ws : Segments name = w :: ws → Prefix name = w.
Proof.
  unfold Segments, Prefix. revert w ws. induction name as [|c s IH]; simpl; intros w ws.
  - by intros [= <- _].
  - destruct (Ascii.eqb c "/"); [by intros [= <- _]|].
    destruct (SplitByte_join s) as (w' & ws' & Hs & _). specialize (IH _ _ Hs).
    rewrite Hs. intros [= <- _].
    destruct (Cut s "/") as [[before after] found]. destruct found; by rewrite IH.
Qed.

Lemma SplitByte_app a b :
  SplitByte (a +:+ String "/" b) "/" = SplitByte a "/" ++ SplitByte b "/".
Proof.
  induction a as [|c a IH]; [done|]. rewrite str_app_cons. simpl. rewrite IH.
  destruct (Ascii.eqb c "/"); [done|]. by destruct (SplitByte_join a) as (w & ws & -> & _).
Qed.

Lemma slashed_app ws1 ws2 : slashed (ws1 ++ ws2) = slashed ws1 +:+ slashed ws2.
Proof.
  induction ws1 as [|w ws1 IH]; [done|]. simpl. rewrite IH. by rewrite str_app_cons, str_app_assoc.
Qed.

(** [n] lies strictly under [p], as strings and as segment lists. *)
Lemma strictly_under_iff p n :
  Valid n = true →
  HasPrefix n (p +:+ "/") && (String.length p + 1 <? String.length n) = true ↔
  ∃ rest, rest ≠ [] ∧ Segments n = Segments p ++ rest.
Proof.
  intros Hv. rewrite andb_true_iff, HasPrefix_iff, Nat.ltb_lt. unfold Segments. split.
  - intros [[t ->] Hlen]. rewrite str_app_assoc.
    exists (SplitByte t "/"). split.
    + by destruct (SplitByte_join t) as (w & ws & -> & _).
    + apply SplitByte_app.
  - intros (rest & Hne & Heq).
    apply Valid_pattern, pattern_segments in Hv. unfold Segments in Hv. rewrite Heq in Hv.
    destruct rest as [|r rest]; [done|].
    apply Forall_app in Hv as [_ Hr]. inv Hr as [|? ? Hr1 _].
    assert (r ≠ "") as Hrne by (apply re_match_in in Hr1; by intros ->).
    destruct (SplitByte_join n) as (w & ws & Hn & ->).
    destruct (SplitByte_join p) as (w' & ws' & Hp & ->).
    rewrite Heq, Hp in Hn. simplify_eq/=. rewrite slashed_app.
    split.
    + exists (r +:+ slashed rest). by rewrite !str_app_assoc.
    + rewrite !str_length_app. simpl. rewrite str_length_app.
      destruct r; simpl; [done|lia].
Qed.

(** ** Properties *)

(** [Validate] accepts exactly the names of at most 255 bytes whose
    slash-separated segments ([Segments]) are all path components of the
    distribution grammar: the anchored whole-name expression and the
    per-segment reading are the same language, and the checks in front of the
    expression (empty, case) change no verdict. *)
Theorem Validate_accepts_segments name :
  Valid name = true ↔
  String.length name ≤ MaxLength ∧ Forall (λ w, re_match component w = true) (Segments name).
Proof.
  rewrite Valid_iff_pattern, pattern_segments.
  split; intros [? Hf]; (split; [done|]); eapply Forall_impl; try done;
    intros w; apply re_match_in.
Qed.

(** No traversal gets through: no segment of an accepted name is empty,
    ".", or "..", the name contains no wildcard, no backslash and no NUL, and
    its routing prefix is its first segment. *)
Theorem Valid_no_traversal name (H : Valid name = true) :
  Forall (λ w, w ≠ "" ∧ w ≠ "." ∧ w ≠ "..") (Segments name) ∧
  ContainsByte name "*" = false ∧ ContainsByte name "\" = false ∧
  ContainsByte name Ascii.zero = false ∧
  head (Segments name) = Some (Prefix name).
Proof.
  apply Valid_pattern in H. split_and!; try by apply (re_in_no_byte pattern).
  - apply pattern_segments in H. eapply Forall_impl; [done|].
    intros w Hw%re_match_in. split_and!; by intros ->.
  - unfold Segments. destruct (SplitByte_join name) as (w & ws & Hs & _).
    rewrite Hs. simpl. f_equal. symmetry. by eapply Prefix_Segments.
Qed.

Lemma Valid_no_traversal_witness :
  Valid "team-a/api.v2" = true ∧ head (Segments "team-a/api.v2") = Some (Prefix "team-a/api.v2").
Proof.
  split; [vm_compute; reflexivity|].
  refine (proj2 (proj2 (proj2 (proj2 (Valid_no_traversal "team-a/api.v2" _))))).
  vm_compute; reflexivity.
Defined.

(** The length bound is stricter than the expression. *)
Example length_bound_is_strict :
  let name := foldr String "" (replicate 256 "a"%char) in
  re_match pattern name = true ∧ Validate name = Err (Invalid name NameTooLong).
Proof. vm_compute. done. Qed.
