(* ===== verification/Authz.v ===== *)
(** * Authorization: verbs, scopes, bindings, the decision
    (src/internal/authz: verbs.go, scope.go, binding.go, decide.go, scope_sql.go)

    A [Verb] and a [Scope] are Go string types, so any string can inhabit them
    by conversion; the definitions below are total over strings, as the code
    is. [Decide] is the decision; [Filters] of [VisibleScopes] is what a
    permission-filtered listing is built from. The theorems show that the
    decision is the additive union the package documents, and that deciding and
    listing answer the same question. *)
From S2P Require Import Prelude RepoName.

(** ** Verbs (verbs.go) *)
Definition RepoList := "repo:list".
Definition RepoRead := "repo:read".
Definition RepoWrite := "repo:write".
Definition TagDelete := "tag:delete".
Definition ManifestDelete := "manifest:delete".
Definition ReferrerRead := "referrer:read".
Definition RepoCreate := "repo:create".
Definition RepoConfigure := "repo:configure".
Definition RepoDelete := "repo:delete".
Definition ScanRead := "scan:read".
Definition ScanTrigger := "scan:trigger".
Definition PolicyRead := "policy:read".
Definition PolicyWrite := "policy:write".
Definition PolicyApply := "policy:apply".
Definition GateOverride := "gate:override".
Definition ProxyRead := "proxy:read".
Definition ProxyWrite := "proxy:write".
Definition ProxyCredentials := "proxy:credentials".
Definition QuotaRead := "quota:read".
Definition QuotaWrite := "quota:write".
Definition WebhookRead := "webhook:read".
Definition WebhookWrite := "webhook:write".
Definition SearchRead := "search:read".
Definition UserRead := "user:read".
Definition UserWrite := "user:write".
Definition RoleRead := "role:read".
Definition RoleWrite := "role:write".
Definition AuditRead := "audit:read".
Definition GCRunVerb := "gc:run".
Definition SystemMaintenance := "system:maintenance".

(** The closed vocabulary, in ADR order. *)
Definition verbs : list string :=
  [RepoList; RepoRead; RepoWrite; TagDelete; ManifestDelete; ReferrerRead;
   RepoCreate; RepoConfigure; RepoDelete;
   ScanRead; ScanTrigger;
   PolicyRead; PolicyWrite; PolicyApply; GateOverride;
   ProxyRead; ProxyWrite; ProxyCredentials;
   QuotaRead; QuotaWrite; WebhookRead; WebhookWrite; SearchRead;
   UserRead; UserWrite; RoleRead; RoleWrite; AuditRead; GCRunVerb; SystemMaintenance].

Definition verbSet : gset string := list_to_set verbs.

Definition Verb_Valid (v : string) : bool := bool_decide (v ∈ verbSet).

Definition AllVerbs : list string := sort_strings verbs.

(** [UnknownVerbError]: the rejected text. *)
Inductive UnknownVerbError : Type := UnknownVerb (verb : string).

Definition ParseVerb (s : string) : result UnknownVerbError string :=
  if Verb_Valid s then Ok s else Err (UnknownVerb s).

(** [ParseVerbs] collects every unknown value before it fails. *)
Definition ParseVerbs (values : list string) : result UnknownVerbError (list string) :=
  let '(out, unknown) :=
    foldl (λ '(out, unknown) value,
      match ParseVerb value with
      | Ok v => (out ++ [v], unknown)
      | Err _ => (out, unknown ++ [value])
      end) ([], []) values in
  match unknown with
  | [] => Ok out
  | _ :: _ => Err (UnknownVerb (String.concat ", " unknown))
  end.

(** ** Scopes (scope.go) *)
Definition SystemScope := "system".
Definition AllRepositories := "*".
Definition wildcardSuffix := "/*".

Inductive ScopeReason : Type :=
| ScopeEmpty
| ScopePrefix (e : InvalidError)
| ScopeName (e : InvalidError)
| ScopeReserved.

Record InvalidScopeError : Type := InvalidScope { ise_scope : string; ise_reason : ScopeReason }.

Definition checkNotReserved (scope name : string) : result InvalidScopeError unit :=
  if negb (String.eqb (Prefix name) SystemScope) then Ok tt
  else Err (InvalidScope scope ScopeReserved).

Definition ParseScope (s : string) : result InvalidScopeError string :=
  if String.eqb s "" then Err (InvalidScope s ScopeEmpty)
  else if String.eqb s SystemScope then Ok SystemScope
  else if String.eqb s AllRepositories then Ok AllRepositories
  else
    let '(prefix, found) := CutSuffix s wildcardSuffix in
    if found then
      check! result_map_err (λ e, InvalidScope s (ScopePrefix e)) (Validate prefix) in
      check! checkNotReserved s prefix in
      Ok s
    else
      check! result_map_err (λ e, InvalidScope s (ScopeName e)) (Validate s) in
      check! checkNotReserved s s in
      Ok s.

Definition Scope_Validate (s : string) : result InvalidScopeError unit :=
  check! ParseScope s in Ok tt.

(** [resourceKind]: the zero value is the invalid resource. *)
Inductive resourceKind : Type := resourceInvalid | resourceSystem | resourceRepository.

Record Resource : Type := mkResource { r_kind : resourceKind; r_name : string }.

Definition System : Resource := mkResource resourceSystem "".

Definition Repository (name : string) : result InvalidError Resource :=
  check! Validate name in Ok (mkResource resourceRepository name).

Definition Resource_String (r : Resource) : string :=
  match r_kind r with
  | resourceSystem => "system"
  | resourceRepository => "repository " +:+ r_name r
  | resourceInvalid => "invalid resource"
  end.

Definition Scope_Matches (s : string) (r : Resource) : bool :=
  if negb (is_ok (Scope_Validate s)) then false
  else match r_kind r with
  | resourceSystem => String.eqb s SystemScope
  | resourceRepository =>
      if String.eqb s SystemScope then false
      else if String.eqb s AllRepositories then true
      else
        let '(prefix, found) := CutSuffix s wildcardSuffix in
        if found then
          HasPrefix (r_name r) (prefix +:+ "/") &&
          (String.length prefix + 1 <? String.length (r_name r))
        else String.eqb s (r_name r)
  | resourceInvalid => false
  end.

(** ** Bindings (binding.go) *)
Record Binding : Type := mkBinding {
  b_id : string;
  b_role : string;
  b_scope : string;
  b_verbs : list string;
  b_viaGroup : string;
}.

Inductive BindingError : Type :=
| BindingNoRole
| BindingScope (e : InvalidScopeError)
| BindingVerb (e : UnknownVerbError).

Definition Binding_Validate (b : Binding) : result BindingError unit :=
  if String.eqb (b_role b) "" then Err BindingNoRole
  else
    check! result_map_err BindingScope (Scope_Validate (b_scope b)) in
    foldM (λ _ verb, if Verb_Valid verb then Ok tt else Err (BindingVerb (UnknownVerb verb)))
      tt (b_verbs b).

Definition Binding_Grants (b : Binding) (verb : string) : bool :=
  existsb (λ candidate, String.eqb candidate verb) (b_verbs b).

Definition Binding_Allows (b : Binding) (verb : string) (resource : Resource) : bool :=
  Binding_Grants b verb && Scope_Matches (b_scope b) resource.

Definition SortBindings (bindings : list Binding) : list Binding :=
  sort_on String.le b_id bindings.

(** ** The decision (decide.go) *)
Record Decision_t : Type := mkDecision {
  d_allowed : bool;
  d_verb : string;
  d_resource : Resource;
  d_matched : list Binding;
}.

Definition Decide (bindings : list Binding) (verb : string) (resource : Resource) : Decision_t :=
  if negb (Verb_Valid verb) then mkDecision false verb resource []
  else
    let '(allowed, matched) :=
      foldl (λ '(allowed, matched) binding,
        if Binding_Allows binding verb resource then (true, matched ++ [binding])
        else (allowed, matched)) (false, []) bindings in
    mkDecision allowed verb resource (SortBindings matched).

Definition Allows (bindings : list Binding) (verb : string) (resource : Resource) : bool :=
  d_allowed (Decide bindings verb resource).

(** One matched binding as [Decision.String] renders it. *)
Definition render_matched (b : Binding) : string :=
  b_id b +:+ " (role " +:+ b_role b +:+ " at " +:+ b_scope b +:+
  (if String.eqb (b_viaGroup b) "" then "" else " via group " +:+ b_viaGroup b) +:+ ")".

Definition Decision_String (d : Decision_t) : string :=
  (if d_allowed d then "allowed " else "denied ") +:+
  d_verb d +:+ " on " +:+ Resource_String (d_resource d) +:+
  (if negb (d_allowed d) then ": no binding grants it"
   else " by " +:+ String.concat ", " (render_matched <$> d_matched d)).

(** ** Scopes compiled for the query layer (scope_sql.go) *)
Record Filter : Type := mkFilter { f_all : bool; f_exact : string; f_prefix : string }.

Definition Filter_Matches (f : Filter) (name : string) : bool :=
  if f_all f then true
  else if negb (String.eqb (f_exact f) "") then String.eqb name (f_exact f)
  else if negb (String.eqb (f_prefix f) "") then
    HasPrefix name (f_prefix f) && (String.length (f_prefix f) <? String.length name)
  else false.

Definition Scope_Filter (s : string) : Filter * bool :=
  if negb (is_ok (Scope_Validate s)) then (mkFilter false "" "", false)
  else if String.eqb s SystemScope then (mkFilter false "" "", false)
  else if String.eqb s AllRepositories then (mkFilter true "" "", true)
  else
    let '(prefix, found) := CutSuffix s wildcardSuffix in
    if found then (mkFilter false "" (prefix +:+ "/"), true)
    else (mkFilter false s "", true).

Definition Filters (scopes : list string) : list Filter :=
  foldl (λ out scope,
    let '(filter, ok) := Scope_Filter scope in
    if ok then out ++ [filter] else out) [] scopes.

Definition VisibleScopes (bindings : list Binding) (verb : string) : list string :=
  foldl (λ out binding,
    if Binding_Grants binding verb then out ++ [b_scope binding] else out) [] bindings.

(** ** Lemmas *)
Lemma Verb_Valid_iff v : Verb_Valid v = true ↔ v ∈ verbs.
Proof. unfold Verb_Valid, verbSet. by rewrite bool_decide_eq_true, elem_of_list_to_set. Qed.

(** The vocabulary never has to be unfolded in a proof, only evaluated. *)
#[global] Opaque verbs verbSet Verb_Valid.

Lemma Binding_Grants_iff b v : Binding_Grants b v = true ↔ v ∈ b_verbs b.
Proof.
  unfold Binding_Grants. rewrite existsb_elem. setoid_rewrite String.eqb_eq. naive_solver.
Qed.

Lemma Decide_matched_perm bs v r :
  Verb_Valid v = true → d_matched (Decide bs v r) ≡ₚ filter (λ b, Binding_Allows b v r = true) bs.
Proof.
  intros Hv. unfold Decide. rewrite Hv. simpl.
  set (f := λ '(allowed, matched) b, _).
  assert (∀ a m, (foldl f (a, m) bs).2 = m ++ filter (λ b, Binding_Allows b v r = true) bs) as H.
  { induction bs as [|b bs IH]; intros a m; simpl; [by rewrite app_nil_r|].
    rewrite filter_cons. destruct (Binding_Allows b v r); rewrite IH; [|done].
    rewrite decide_True by done. by rewrite <-(assoc_L (++)). }
  specialize (H false []). destruct (foldl f (false, []) bs) as [a m]. simpl in *. subst m.
  apply sort_on_perm.
Qed.

Lemma Decide_allowed bs v r :
  d_allowed (Decide bs v r) = Verb_Valid v && existsb (λ b, Binding_Allows b v r) bs.
Proof.
  unfold Decide. destruct (Verb_Valid v); [|done]. simpl.
  set (f := λ '(allowed, matched) b, _).
  assert (∀ a m, (foldl f (a, m) bs).1 = a || existsb (λ b, Binding_Allows b v r) bs) as H.
  { induction bs as [|b bs IH]; intros a m; simpl; [by rewrite orb_false_r|].
    destruct (Binding_Allows b v r); rewrite IH; [by rewrite orb_true_r|done]. }
  specialize (H false []). by destruct (foldl f (false, []) bs).
Qed.

Lemma Allows_iff bs v r :
  Allows bs v r = true ↔ Verb_Valid v = true ∧ ∃ b, b ∈ bs ∧ Binding_Allows b v r = true.
Proof. unfold Allows. by rewrite Decide_allowed, andb_true_iff, existsb_elem. Qed.

Lemma Filters_eq scopes :
  Filters scopes = (λ s, (Scope_Filter s).1) <$> filter (λ s, (Scope_Filter s).2 = true) scopes.
Proof.
  rewrite <-(app_nil_l (_ <$> _)), <-(foldl_append_if (λ s, (Scope_Filter s).2)).
  unfold Filters. apply foldl_ext. intros acc s. by destruct (Scope_Filter s).
Qed.

Lemma VisibleScopes_elem bs v s :
  s ∈ VisibleScopes bs v ↔ ∃ b, b ∈ bs ∧ Binding_Grants b v = true ∧ b_scope b = s.
Proof.
  unfold VisibleScopes. rewrite (foldl_append_if (λ b, Binding_Grants b v)). simpl.
  rewrite list_elem_of_fmap. setoid_rewrite list_elem_of_filter. naive_solver.
Qed.

(** A scope and its compiled filter select the same names. *)
Lemma Scope_Filter_agrees s name :
  Scope_Matches s (mkResource resourceRepository name) =
  (Scope_Filter s).2 && Filter_Matches (Scope_Filter s).1 name.
Proof.
  unfold Scope_Matches, Scope_Filter.
  destruct (Scope_Validate s) as [u|e] eqn:Hs; simpl; [|done].
  destruct (String.eqb s SystemScope); [done|].
  destruct (String.eqb s AllRepositories); [done|].
  destruct (CutSuffix s wildcardSuffix) as [prefix []]; unfold Filter_Matches; simpl.
  - destruct prefix as [|c p]; [done|]. simpl. by rewrite str_length_app.
  - destruct (String.eqb_spec s "") as [->|]; [done|]. simpl. by rewrite String.eqb_sym.
Qed.

Lemma Allows_Filters bs v name :
  Verb_Valid v = true →
  Allows bs v (mkResource resourceRepository name) = existsb (λ f, Filter_Matches f name) (Filters (VisibleScopes bs v)).
Proof.
  intros Hv. apply Bool.eq_iff_eq_true.
  rewrite Allows_iff, existsb_elem, Filters_eq. unfold Binding_Allows.
  setoid_rewrite andb_true_iff. setoid_rewrite list_elem_of_fmap.
  setoid_rewrite list_elem_of_filter. setoid_rewrite VisibleScopes_elem.
  setoid_rewrite Scope_Filter_agrees. setoid_rewrite andb_true_iff. split.
  - intros (_ & b & Hb & Hg & Hf & Hm). eauto 12.
  - intros (f & (s & -> & Hf & b & Hb & Hg & <-) & Hm). eauto 8.
Qed.

(** Which strings are scopes, and that parsing never rewrites them. *)
Definition scope_form (s : string) : Prop :=
  s = SystemScope ∨ s = AllRepositories ∨
  (∃ p, s = p +:+ wildcardSuffix ∧ Valid p = true ∧ Prefix p ≠ SystemScope) ∨
  (Valid s = true ∧ Prefix s ≠ SystemScope).

Lemma checkNotReserved_ok s n : checkNotReserved s n = Ok tt ↔ Prefix n ≠ SystemScope.
Proof. unfold checkNotReserved. destruct (String.eqb_spec (Prefix n) SystemScope); naive_solver. Qed.

Lemma Valid_not_wildcard p : Valid (p +:+ wildcardSuffix) = false.
Proof.
  destruct (Valid _) eqn:H; [|done]. apply Valid_no_star in H.
  by rewrite ContainsByte_app, orb_true_r in H.
Qed.

(** The two repository forms of the grammar share their validation. *)
Lemma parse_named_iff {F} (f : InvalidError → ScopeReason) (s n : string) (k : result InvalidScopeError F) x :
  (check! result_map_err (λ e, InvalidScope s (f e)) (Validate n) in
   check! checkNotReserved s n in k) = Ok x ↔
  Valid n = true ∧ Prefix n ≠ SystemScope ∧ k = Ok x.
Proof.
  rewrite <-Validate_ok, <-(checkNotReserved_ok s).
  destruct (Validate n) as [[]|e]; simpl; [|naive_solver].
  destruct (checkNotReserved s n) as [[]|e]; simpl; naive_solver.
Qed.

Lemma ParseScope_iff s t : ParseScope s = Ok t ↔ t = s ∧ scope_form s.
Proof.
  unfold ParseScope, scope_form.
  destruct (String.eqb_spec s "") as [->|Hne].
  { split; [done|]. intros [_ [?|[?|[(p & Hp & _)|[? _]]]]]; try done.
    by destruct p. }
  destruct (String.eqb_spec s SystemScope) as [->|Hns]; [naive_solver|].
  destruct (String.eqb_spec s AllRepositories) as [->|Hna]; [naive_solver|].
  destruct (CutSuffix_cases s wildcardSuffix) as [(p & -> & ->)|[-> Hnp]]; rewrite parse_named_iff.
  - rewrite Valid_not_wildcard. split; [naive_solver|].
    intros (-> & [?|[?|[(q & <-%str_app_inj_r & ?)|[? _]]]]); naive_solver.
  - split; [naive_solver|]. intros (-> & [?|[?|[(q & ? & _)|[? ?]]]]); naive_solver.
Qed.

Lemma Scope_Validate_iff s : is_ok (Scope_Validate s) = true ↔ scope_form s.
Proof.
  unfold Scope_Validate. destruct (ParseScope s) as [t|e] eqn:H; simpl.
  - apply ParseScope_iff in H as [_ H]. done.
  - split; [done|]. intros Hf. assert (ParseScope s = Ok s) by by apply ParseScope_iff. congruence.
Qed.

(** ** Properties *)

(** [Decide] is the documented union: a request is allowed exactly when the
    verb is in the vocabulary and some binding carries it at a scope that
    covers the resource; the decision reports what was asked, and its matched
    bindings are exactly the granting ones, ordered by id. *)
Theorem Decide_union bs v r :
  let d := Decide bs v r in
  (d_allowed d = true ↔
     v ∈ verbs ∧ ∃ b, b ∈ bs ∧ v ∈ b_verbs b ∧ Scope_Matches (b_scope b) r = true) ∧
  d_verb d = v ∧ d_resource d = r ∧
  (∀ b, b ∈ d_matched d ↔ v ∈ verbs ∧ b ∈ bs ∧ Binding_Allows b v r = true) ∧
  StronglySorted (λ x y, String.le (b_id x) (b_id y)) (d_matched d).
Proof.
  simpl. split_and!.
  - change (Allows bs v r = true ↔ v ∈ verbs ∧ ∃ b, b ∈ bs ∧ v ∈ b_verbs b ∧ Scope_Matches (b_scope b) r = true).
    rewrite Allows_iff, Verb_Valid_iff. unfold Binding_Allows.
    setoid_rewrite andb_true_iff. by setoid_rewrite Binding_Grants_iff.
  - unfold Decide. destruct (negb _); [done|]. by destruct (foldl _ _ _).
  - unfold Decide. destruct (negb _); [done|]. by destruct (foldl _ _ _).
  - intros b. rewrite <-Verb_Valid_iff. destruct (Verb_Valid v) eqn:Hv.
    + rewrite Decide_matched_perm by done. rewrite list_elem_of_filter.
      split; [intros [? ?]; auto|intros (_ & ? & ?); auto].
    + unfold Decide. rewrite Hv. simpl. rewrite elem_of_nil.
      split; [intros []|intros [? _]; discriminate].
  - unfold Decide. destruct (negb _); [constructor|].
    destruct (foldl _ _ _) as [a m]. apply (sort_on_sorted String.le b_id m).
Qed.

(** Access is additive: order and repetition of bindings never matter and
    adding bindings never takes an access away. *)
Theorem Allows_additive bs1 bs2 v r :
  ((∀ b, b ∈ bs1 → b ∈ bs2) → Allows bs1 v r = true → Allows bs2 v r = true) ∧
  Allows (bs1 ++ bs2) v r = Allows bs1 v r || Allows bs2 v r.
Proof.
  split.
  - rewrite !Allows_iff. intros Hsub (Hv & b & Hb & Ha). split; [exact Hv|]. exists b. auto.
  - unfold Allows. rewrite !Decide_allowed, existsb_app. by destruct (Verb_Valid v).
Qed.

(** The listing and the decision agree: a repository appears under the
    filters compiled from a subject's bindings for a verb exactly when the
    decision function allows that verb on it. *)
Theorem listing_agrees_with_Decide bs v name r
  (Hv : Verb_Valid v = true) (Hr : Repository name = Ok r) :
  Allows bs v r = existsb (λ f, Filter_Matches f name) (Filters (VisibleScopes bs v)).
Proof.
  unfold Repository in Hr. destruct (Validate name); simpl in Hr; [injection Hr as <-|discriminate Hr].
  by apply Allows_Filters.
Qed.

Lemma listing_agrees_with_Decide_witness :
  let b := mkBinding "b1" "developer" "team-a/*" [RepoList; RepoRead] "" in
  let r := mkResource resourceRepository "team-a/api" in
  Allows [b] RepoList r = existsb (λ f, Filter_Matches f "team-a/api") (Filters (VisibleScopes [b] RepoList))
  ∧ Allows [b] RepoList r = true.
Proof.
  split; [|vm_compute; reflexivity].
  apply listing_agrees_with_Decide; vm_compute; reflexivity.
Defined.

(** The scope grammar is total and means what it says. Parsing returns its
    input or a typed error and accepts exactly the four forms; the system scope
    and the repository scopes are disjoint for every string; ["*"] covers every
    repository; ["p/*"] covers exactly the repositories whose segments strictly
    extend those of [p]; anything else covers only itself. *)
Theorem Scope_grammar_meaning s name :
  (∀ t, ParseScope s = Ok t ↔ t = s ∧ scope_form s) ∧
  (Scope_Matches s System = true ↔ s = SystemScope) ∧
  Scope_Matches SystemScope (mkResource resourceRepository name) = false ∧
  Scope_Matches AllRepositories (mkResource resourceRepository name) = true ∧
  (∀ p, s = p +:+ wildcardSuffix → scope_form s → Valid name = true →
     (Scope_Matches s (mkResource resourceRepository name) = true ↔
      ∃ rest, rest ≠ [] ∧ Segments name = Segments p ++ rest)) ∧
  (Valid s = true → Prefix s ≠ SystemScope →
     (Scope_Matches s (mkResource resourceRepository name) = true ↔ name = s)).
Proof.
  split_and!.
  - intros t. apply ParseScope_iff.
  - unfold Scope_Matches. destruct (is_ok (Scope_Validate s)) eqn:Hs; simpl; [apply String.eqb_eq|].
    split; [done|]. intros ->. by vm_compute in Hs.
  - by vm_compute.
  - by vm_compute.
  - intros p Hsp Hf Hn. unfold Scope_Matches. rewrite (proj2 (Scope_Validate_iff s) Hf). simpl.
    rewrite <-strictly_under_iff by done. subst s.
    destruct (String.eqb_spec (p +:+ wildcardSuffix) SystemScope) as [He|_].
    { apply (f_equal (λ x, ContainsByte x "*")) in He. by rewrite ContainsByte_app, orb_true_r in He. }
    destruct (String.eqb_spec (p +:+ wildcardSuffix) AllRepositories) as [He|_].
    { apply (f_equal (λ x, ContainsByte x "/")) in He. by rewrite ContainsByte_app, orb_true_r in He. }
    by rewrite (proj2 (CutSuffix_iff _ wildcardSuffix p) eq_refl).
  - intros Hv Hp. unfold Scope_Matches.
    rewrite (proj2 (Scope_Validate_iff s)) by (unfold scope_form; auto). simpl.
    destruct (String.eqb_spec s SystemScope) as [->|_]; [done|].
    destruct (String.eqb_spec s AllRepositories) as [->|_]; [done|].
    destruct (CutSuffix_cases s wildcardSuffix) as [(p & -> & ->)|[-> _]].
    { by rewrite Valid_not_wildcard in Hv. }
    rewrite String.eqb_eq. naive_solver.
Qed.
