(* ===== verification/Roles.v ===== *)
(** * Roles and self-lockout prevention
    (src/internal/authz: roles.go, lockout.go)

    Built-in and custom roles, and the check that refuses a change after which
    nobody could administer roles. *)
From S2P Require Import Prelude RepoName Authz.

(** ** Roles (roles.go) *)
Record Role : Type := mkRole { role_name : string; role_builtin : bool; role_verbs : list string }.

Definition RoleAdmin := "admin".
Definition RoleOperator := "operator".
Definition RolePublisher := "publisher".
Definition RoleDeveloper := "developer".
Definition RoleAuditor := "auditor".
Definition RoleAnonymousReader := "anonymous-reader".

Definition verbsExcept (prefixes : list string) : list string :=
  foldl (λ out verb,
    let excluded := existsb (HasPrefix verb) prefixes in
    if negb excluded then out ++ [verb] else out) [] AllVerbs.

Definition readVerbs : list string :=
  foldl (λ out verb, if HasSuffix verb ":read" then out ++ [verb] else out) [RepoList] AllVerbs.

Definition sortVerbs (vs : list string) : list string := sort_strings vs.

Definition builtinRoles : gmap string Role :=
  let roles :=
    [mkRole RoleAdmin false AllVerbs;
     mkRole RoleOperator false (verbsExcept ["user:"; "role:"]);
     mkRole RolePublisher false
       [RepoList; RepoRead; RepoWrite; TagDelete; ReferrerRead; ScanRead; SearchRead];
     mkRole RoleDeveloper false [RepoList; RepoRead; ReferrerRead; ScanRead; SearchRead];
     mkRole RoleAuditor false readVerbs;
     mkRole RoleAnonymousReader false [RepoList; RepoRead; ReferrerRead]] in
  foldl (λ out role,
    <[role_name role := mkRole (role_name role) true (sortVerbs (role_verbs role))]> out) ∅ roles.

Definition BuiltinRoles : list Role :=
  let names := sort_strings (map_to_list builtinRoles).*1 in
  omap (λ name, builtinRoles !! name) names.

Definition BuiltinRole (name : string) : option Role := builtinRoles !! name.

Definition IsBuiltin (name : string) : bool := bool_decide (is_Some (builtinRoles !! name)).

Definition Role_Grants (r : Role) (verb : string) : bool :=
  existsb (λ candidate, String.eqb candidate verb) (role_verbs r).

Inductive RoleError : Type :=
| RoleNoName
| RoleVerb (e : UnknownVerbError).

Definition Role_Validate (r : Role) : result RoleError unit :=
  if String.eqb (role_name r) "" then Err RoleNoName
  else foldM (λ _ verb, if Verb_Valid verb then Ok tt else Err (RoleVerb (UnknownVerb verb)))
         tt (role_verbs r).

(** The loop of [dedupeVerbs]: keep a verb that differs from the last kept. *)
Definition dedupe_step (out : list string) (verb : string) : list string :=
  if bool_decide (last out = Some verb) then out else out ++ [verb].

Definition dedupeVerbs (vs : list string) : list string :=
  match sortVerbs vs with
  | [] => []
  | v :: rest => foldl dedupe_step [v] rest
  end.

Definition NewRole (name : string) (vs : list string) : result RoleError Role :=
  let! parsed := result_map_err RoleVerb (ParseVerbs vs) in
  let role := mkRole name false (dedupeVerbs parsed) in
  check! Role_Validate role in
  Ok role.

(** ** Self-lockout (lockout.go) *)
Inductive LockoutError : Type := ErrLastAdmin.

Definition AdminGrant (bindings : list Binding) : bool := Allows bindings RoleWrite System.

Definition EnsureAdminRemains (after : list (list Binding)) : result LockoutError unit :=
  if existsb AdminGrant after then Ok tt else Err ErrLastAdmin.

Definition without (bindings : list Binding) (drop : Binding → bool) : list Binding :=
  foldl (λ out b, if negb (drop b) then out ++ [b] else out) [] bindings.

Definition WithoutBinding (bindings : list Binding) (id : string) : list Binding :=
  without bindings (λ b, String.eqb (b_id b) id).

Definition WithoutRole (bindings : list Binding) (role : string) : list Binding :=
  without bindings (λ b, String.eqb (b_role b) role).

Definition WithoutGroup (bindings : list Binding) (group : string) : list Binding :=
  without bindings (λ b, String.eqb (b_viaGroup b) group).

(** ** Lemmas *)
Lemma dedupe_spec (out rest : list string) x :
  StronglySorted String.le (out ++ rest) → NoDup out → out ≠ [] →
  let res := foldl dedupe_step out rest in
  StronglySorted String.le res ∧ NoDup res ∧ (x ∈ res ↔ x ∈ out ∨ x ∈ rest).
Proof.
  revert out. induction rest as [|v rest IH]; intros out Hs Hnd Hne; simpl.
  { rewrite app_nil_r in Hs. split_and!; [done..|]. rewrite elem_of_nil. tauto. }
  rewrite elem_of_cons. unfold dedupe_step at 2 4 6. unfold dedupe_step at 1. case_bool_decide as Hl.
  - apply last_Some in Hl as [out' ->].
    destruct (IH (out' ++ [v])) as (? & ? & ->); [|done|done|].
    + apply StronglySorted_app in Hs as (Hs1 & Hs2 & (_ & Hs3)%StronglySorted_cons).
      apply StronglySorted_app. split_and!; [|done..]. intros x1 x2 H1 H2. apply Hs1; [done|]. by right.
    + split_and!; [done..|]. set_solver.
  - destruct (IH (out ++ [v])) as (? & ? & ->).
    + by rewrite <-(assoc_L (++)).
    + apply NoDup_app. split_and!; [done| |apply NoDup_singleton].
      intros y Hy ->%list_elem_of_singleton. apply Hl.
      destruct (last out) as [z|] eqn:Hz; [|by apply last_None in Hz].
      apply last_Some in Hz as [out' ->]. f_equal.
      apply (anti_symm String.le).
      * eapply StronglySorted_app_1_elem_of; [exact Hs| |by left]. apply elem_of_app. right. by left.
      * apply StronglySorted_app_1_l in Hs. apply elem_of_app in Hy as [Hy|Hy%list_elem_of_singleton]; [|by subst].
        eapply StronglySorted_app_1_elem_of; [exact Hs|done|by left].
    + by destruct out.
    + split_and!; [done..|]. set_solver.
Qed.

Lemma dedupeVerbs_spec vs :
  StronglySorted String.le (dedupeVerbs vs) ∧ NoDup (dedupeVerbs vs) ∧
  ∀ x, x ∈ dedupeVerbs vs ↔ x ∈ vs.
Proof.
  unfold dedupeVerbs, sortVerbs. pose proof (sort_on_sorted String.le id vs) as Hs.
  pose proof (λ x, sort_strings_elem x vs) as He. unfold sort_strings in *.
  destruct (sort_on String.le id vs) as [|v rest].
  { split_and!; [constructor..|]. intros x. by rewrite <-He. }
  assert (∀ x, let res := foldl dedupe_step [v] rest in
    StronglySorted String.le res ∧ NoDup res ∧ (x ∈ res ↔ x ∈ [v] ∨ x ∈ rest)) as H
    by (intros x; apply dedupe_spec; [done|apply NoDup_singleton|done]).
  split_and!; [apply (H "")..|]. intros x. destruct (H x) as (_ & _ & ->). rewrite <-He. set_solver.
Qed.

Lemma ParseVerbs_spec vs :
  ParseVerbs vs =
    let bad := filter (λ v, Verb_Valid v = false) vs in
    match bad with
    | [] => Ok vs
    | _ :: _ => Err (UnknownVerb (String.concat ", " bad))
    end.
Proof.
  unfold ParseVerbs. set (f := λ '(out, unknown) value, _).
  assert (∀ o u, foldl f (o, u) vs =
    (o ++ filter (λ v, Verb_Valid v = true) vs, u ++ filter (λ v, Verb_Valid v = false) vs)) as H.
  { induction vs as [|v vs IH]; intros o u; simpl; [by rewrite !app_nil_r|].
    rewrite !filter_cons. unfold ParseVerb. destruct (Verb_Valid v); simpl; rewrite IH;
      by rewrite <-?(assoc_L (++)). }
  rewrite H. simpl. destruct (filter (λ v, Verb_Valid v = false) vs) eqn:Hb; [|done].
  f_equal. clear H f. induction vs as [|v vs IH]; [done|]. rewrite filter_cons in *.
  destruct (Verb_Valid v); simpl in *; [f_equal; by apply IH|done].
Qed.

Lemma Role_Validate_ok r :
  Role_Validate r = Ok tt ↔ role_name r ≠ "" ∧ Forall (λ v, Verb_Valid v = true) (role_verbs r).
Proof.
  unfold Role_Validate. destruct (String.eqb_spec (role_name r) ""); [naive_solver|].
  rewrite (foldM_unit_ok (λ verb, if Verb_Valid verb then _ else _)).
  assert (∀ v, (if Verb_Valid v then Ok tt else Err (RoleVerb (UnknownVerb v))) = Ok tt ↔ Verb_Valid v = true)
    as He by (intros v; by destruct (Verb_Valid v)).
  rewrite (Forall_iff _ _ _ He). naive_solver.
Qed.

Lemma AdminGrant_iff bs :
  AdminGrant bs = true ↔ ∃ b, b ∈ bs ∧ RoleWrite ∈ b_verbs b ∧ b_scope b = SystemScope.
Proof.
  unfold AdminGrant. rewrite Allows_iff. unfold Binding_Allows.
  setoid_rewrite andb_true_iff. setoid_rewrite Binding_Grants_iff.
  assert (∀ s, Scope_Matches s System = true ↔ s = SystemScope) as Hm.
  { intros s. unfold Scope_Matches. destruct (is_ok (Scope_Validate s)) eqn:Hs; simpl; [apply String.eqb_eq|].
    split; [done|]. intros ->. by vm_compute in Hs. }
  setoid_rewrite Hm. split; [by intros [_ ?]|]. intros ?. split; [by vm_compute|done].
Qed.

Lemma EnsureAdminRemains_iff after :
  EnsureAdminRemains after = Ok tt ↔
  ∃ bs b, bs ∈ after ∧ b ∈ bs ∧ RoleWrite ∈ b_verbs b ∧ b_scope b = SystemScope.
Proof.
  transitivity (existsb AdminGrant after = true).
  { unfold EnsureAdminRemains. by destruct (existsb AdminGrant after). }
  rewrite existsb_elem. setoid_rewrite AdminGrant_iff.
  split; [intros (bs & ? & b & ?); eauto|intros (bs & b & ? & ?); eauto].
Qed.

Lemma without_elem bs drop b : b ∈ without bs drop ↔ b ∈ bs ∧ drop b = false.
Proof.
  unfold without. rewrite (foldl_append_if (λ b, negb (drop b)) id). simpl.
  rewrite list_fmap_id, list_elem_of_filter. by rewrite negb_true_iff, (and_comm (drop b = _)).
Qed.

(** Removing bindings from every subject leaves an administrator exactly when
    some surviving binding grants role administration at the system scope. *)
Lemma admin_remains_without drop subjects :
  EnsureAdminRemains ((λ bs, without bs drop) <$> subjects) = Ok tt ↔
  ∃ bs b, bs ∈ subjects ∧ b ∈ bs ∧ RoleWrite ∈ b_verbs b ∧ b_scope b = SystemScope ∧ drop b = false.
Proof.
  rewrite EnsureAdminRemains_iff. setoid_rewrite list_elem_of_fmap. split.
  - intros (bs & b & (bs' & -> & Hbs) & Hb & ? & ?). apply without_elem in Hb as [??]. eauto 8.
  - intros (bs & b & Hbs & Hb & ? & ? & ?). exists (without bs drop), b.
    split_and!; [eauto|by apply without_elem|done..].
Qed.

(** ** Properties *)

(** A custom role is canonical or refused with the whole list of typos:
    [NewRole] succeeds exactly on a named role whose verbs are all in the
    vocabulary, the stored verbs are the given ones sorted and without
    repeats, and a failure names every unknown verb in the order written. *)
Theorem NewRole_canonical name vs :
  match NewRole name vs with
  | Ok r =>
      name ≠ "" ∧ Forall (λ v, v ∈ verbs) vs ∧ role_name r = name ∧ role_builtin r = false ∧
      StronglySorted String.le (role_verbs r) ∧ NoDup (role_verbs r) ∧
      ∀ v, v ∈ role_verbs r ↔ v ∈ vs
  | Err (RoleVerb (UnknownVerb text)) =>
      let bad := filter (λ v, v ∉ verbs) vs in bad ≠ [] ∧ text = String.concat ", " bad
  | Err RoleNoName => name = "" ∧ Forall (λ v, v ∈ verbs) vs
  end.
Proof.
  unfold NewRole. rewrite ParseVerbs_spec. simpl.
  assert (∀ v, Verb_Valid v = false ↔ v ∉ verbs) as Hn.
  { intros v. rewrite <-Verb_Valid_iff. by rewrite not_true_iff_false. }
  rewrite (list_filter_iff _ (λ v, v ∉ verbs) vs Hn).
  destruct (filter (λ v, v ∉ verbs) vs) as [|b bad] eqn:Hb; simpl; [|done].
  assert (Forall (λ v, v ∈ verbs) vs) as Hall.
  { apply Forall_forall. intros v Hv. destruct (decide (v ∈ verbs)); [done|].
    assert (v ∈ filter (λ v, v ∉ verbs) vs) as Hi by by apply list_elem_of_filter.
    rewrite Hb in Hi. by apply elem_of_nil in Hi. }
  destruct (dedupeVerbs_spec vs) as (Hs & Hnd & He).
  destruct (Role_Validate (mkRole name false (dedupeVerbs vs))) as [[]|e] eqn:Hv; simpl.
  - apply Role_Validate_ok in Hv as [? _]. done.
  - destruct (String.eqb_spec name "") as [->|Hne].
    + unfold Role_Validate in Hv. simpl in Hv. by simplify_eq.
    + assert (Role_Validate (mkRole name false (dedupeVerbs vs)) = Ok tt); [|congruence].
      apply Role_Validate_ok. split; [done|]. apply Forall_forall. intros v Hv'%He.
      apply Verb_Valid_iff. by apply (Forall_forall (λ v, v ∈ verbs) vs).
Qed.

(** The built-in roles mean what their names say: every one passes the
    custom-role check and is marked built-in; admin holds the whole vocabulary,
    operator holds everything except user and role administration, auditor
    holds exactly the read verbs, and neither developer nor the anonymous
    reader holds anything auditor does not. *)
Theorem builtin_roles_meaning :
  Forall (λ r, Role_Validate r = Ok tt ∧ role_builtin r = true ∧
               BuiltinRole (role_name r) = Some r) BuiltinRoles ∧
  role_name <$> BuiltinRoles =
    [RoleAdmin; RoleAnonymousReader; RoleAuditor; RoleDeveloper; RoleOperator; RolePublisher] ∧
  ∀ v, v ∈ verbs →
    (∀ r, BuiltinRole RoleAdmin = Some r → Role_Grants r v = true) ∧
    (∀ r, BuiltinRole RoleOperator = Some r →
       Role_Grants r v = negb (HasPrefix v "user:" || HasPrefix v "role:")) ∧
    (∀ r, BuiltinRole RoleAuditor = Some r →
       Role_Grants r v = HasSuffix v ":read" || String.eqb v RepoList) ∧
    (∀ r r', BuiltinRole RoleAuditor = Some r →
       BuiltinRole RoleDeveloper = Some r' ∨ BuiltinRole RoleAnonymousReader = Some r' →
       Role_Grants r' v = true → Role_Grants r v = true).
Proof.
  split_and!; [|vm_compute; reflexivity|].
  - apply Forall_forall. intros r Hr. vm_compute in Hr.
    repeat (apply elem_of_cons in Hr as [Hr|Hr];
      [subst r; split_and!; vm_compute; reflexivity|]).
    by apply not_elem_of_nil in Hr.
  - intros v Hv. vm_compute in Hv.
    repeat (apply elem_of_cons in Hv as [Hv|Hv];
      [subst v; split_and!; [intros r Hr|intros r Hr|intros r Hr|intros r r' Hr [Hr'|Hr']];
       vm_compute in Hr; simplify_eq; try (vm_compute in Hr'; simplify_eq);
       vm_compute; reflexivity || done|]).
    by apply not_elem_of_nil in Hv.
Qed.

(** Self-lockout prevention is exact: the check passes exactly when some
    remaining subject holds role:write through a binding at the system scope,
    and the simulated deletions of a binding, a role or a group membership drop
    precisely the bindings that carry that id, role or group. *)
Theorem lockout_exact subjects x :
  let admin_left keep :=
    ∃ bs b, bs ∈ subjects ∧ b ∈ bs ∧ RoleWrite ∈ b_verbs b ∧ b_scope b = SystemScope ∧ keep b in
  (EnsureAdminRemains subjects = Ok tt ↔ admin_left (λ _, True)) ∧
  (EnsureAdminRemains ((λ bs, WithoutBinding bs x) <$> subjects) = Ok tt ↔ admin_left (λ b, b_id b ≠ x)) ∧
  (EnsureAdminRemains ((λ bs, WithoutRole bs x) <$> subjects) = Ok tt ↔ admin_left (λ b, b_role b ≠ x)) ∧
  (EnsureAdminRemains ((λ bs, WithoutGroup bs x) <$> subjects) = Ok tt ↔ admin_left (λ b, b_viaGroup b ≠ x)).
Proof.
  simpl. split_and!.
  - rewrite EnsureAdminRemains_iff. naive_solver.
  - unfold WithoutBinding. rewrite admin_remains_without. by setoid_rewrite String.eqb_neq.
  - unfold WithoutRole. rewrite admin_remains_without. by setoid_rewrite String.eqb_neq.
  - unfold WithoutGroup. rewrite admin_remains_without. by setoid_rewrite String.eqb_neq.
Qed.
