(* ===== verification/Inventory.v ===== *)
(** * Retention inventory (src/internal/policy/inventory.go)

    One repository's manifests as of a single read, with the selectable set
    every retention rule is confined to. Times are nanoseconds as [Z], with [0]
    for Go's zero [time.Time]. [NewInventory] is a fallible constructor;
    [walk] (the subject-cycle check) and [ReferrerSubtree] (a breadth-first
    search) are loops with no structural argument, so they take fuel, and the
    theorems show that the fuel the constructor gives them is never used up. *)
From S2P Require Import Prelude.

(** ** Data *)
Record Tag : Type := mkTag { t_name : string; t_protected : bool; t_immutable : bool }.

Record Manifest : Type := mkManifest {
  m_digest : string;
  m_tags : list Tag;
  m_pushedAt : Z;
  m_lastPulledAt : Z;
  m_pullCount : Z;
  m_size : Z;
  m_children : list string;
  m_subject : string;
}.

Definition TagNames (m : Manifest) : list string := sort_strings (t_name <$> m_tags m).

(** [TagStatus] (retention.go) is a string type with three known values. *)
Definition AnyTags := "".
Definition Tagged := "tagged".
Definition Untagged := "untagged".

Definition Status (m : Manifest) : string :=
  match m_tags m with [] => Untagged | _ :: _ => Tagged end.

Inductive ExclusionReason : Type :=
| ExcludedProtectedTag
| ExcludedImmutableTag
| ExcludedIndexChild
| ExcludedLiveSubject.

#[export] Instance ExclusionReason_eq_dec : EqDecision ExclusionReason.
Proof. solve_decision. Defined.

Record Exclusion : Type := mkExclusion {
  ex_digest : string; ex_reason : ExclusionReason; ex_detail : string;
}.

(** What [NewInventory] refuses. [InvFuel] is not a Go error: it is the walk
    running out of the model's fuel, and is proved impossible. *)
Inductive InventoryReason : Type :=
| InvNoRepository
| InvNoDigest
| InvDuplicate
| InvNoPushTime
| InvNegativeSize
| InvNegativePulls
| InvOwnSubject
| InvEmptyTag
| InvTagTwice (tag : string)
| InvTagOwned (tag owner : string)
| InvEmptyChild
| InvOwnChild
| InvSubjectCycle (path : list string)
| InvFuel.

Record InventoryError : Type := inventoryErr { inve_digest : string; inve_reason : InventoryReason }.

Record Inventory : Type := mkInventory {
  inv_repository : string;
  inv_manifests : list Manifest;
  inv_selectable : list Manifest;
  inv_exclusions : list Exclusion;
  inv_byDigest : gmap string Manifest;
  inv_excludedBy : gmap string (list Exclusion);
  inv_referrers : gmap string (list string);
  inv_indexParents : gmap string (list string);
}.

(** ** validateManifest *)
Definition validateTag (digest : string) (st : gset string * gmap string string) (tag : Tag)
    : result InventoryError (gset string * gmap string string) :=
  let '(tagsHere, tagOwner) := st in
  if String.eqb (t_name tag) "" then Err (inventoryErr digest InvEmptyTag)
  else if bool_decide (t_name tag ∈ tagsHere) then Err (inventoryErr digest (InvTagTwice (t_name tag)))
  else match tagOwner !! t_name tag with
  | Some owner => Err (inventoryErr digest (InvTagOwned (t_name tag) owner))
  | None => Ok ({[t_name tag]} ∪ tagsHere, <[t_name tag := digest]> tagOwner)
  end.

(** [slices.Compact]: drop an element equal to its predecessor. *)
Fixpoint compact (l : list string) : list string :=
  match l with
  | [] => []
  | x :: l' =>
      match l' with
      | [] => [x]
      | y :: _ => if String.eqb x y then compact l' else x :: compact l'
      end
  end.

Definition validateChild (digest child : string) : result InventoryError unit :=
  if String.eqb child "" then Err (inventoryErr digest InvEmptyChild)
  else if String.eqb child digest then Err (inventoryErr digest InvOwnChild)
  else Ok tt.

Definition validateManifest (m : Manifest) (seen : gmap string Manifest) (tagOwner : gmap string string)
    : result InventoryError (Manifest * gmap string string) :=
  if String.eqb (m_digest m) "" then Err (inventoryErr "" InvNoDigest)
  else if bool_decide (is_Some (seen !! m_digest m)) then Err (inventoryErr (m_digest m) InvDuplicate)
  else if (m_pushedAt m =? 0)%Z then Err (inventoryErr (m_digest m) InvNoPushTime)
  else if (m_size m <? 0)%Z then Err (inventoryErr (m_digest m) InvNegativeSize)
  else if (m_pullCount m <? 0)%Z then Err (inventoryErr (m_digest m) InvNegativePulls)
  else if String.eqb (m_subject m) (m_digest m) then Err (inventoryErr (m_digest m) InvOwnSubject)
  else
    let tags := sort_on String.le t_name (m_tags m) in
    let! st := foldM (validateTag (m_digest m)) (∅, tagOwner) tags in
    let children := compact (sort_strings (m_children m)) in
    check! foldM (λ _ child, validateChild (m_digest m) child) tt children in
    Ok (mkManifest (m_digest m) tags (m_pushedAt m) (m_lastPulledAt m) (m_pullCount m)
          (m_size m) children (m_subject m), st.2).

(** ** buildEdges *)

(** [edges[key] = append(edges[key], value)]. *)
Definition push_edge (key value : string) (edges : gmap string (list string)) : gmap string (list string) :=
  <[key := default [] (edges !! key) ++ [value]]> edges.

Definition edge_step (byDigest : gmap string Manifest)
    (st : gmap string (list string) * gmap string (list string)) (m : Manifest)
    : gmap string (list string) * gmap string (list string) :=
  let '(referrers, indexParents) := st in
  let referrers :=
    if negb (String.eqb (m_subject m) "") && bool_decide (is_Some (byDigest !! m_subject m))
    then push_edge (m_subject m) (m_digest m) referrers else referrers in
  let indexParents :=
    foldl (λ parents child,
      if bool_decide (is_Some (byDigest !! child)) then push_edge child (m_digest m) parents
      else parents) indexParents (m_children m) in
  (referrers, indexParents).

Definition collect_edges (byDigest : gmap string Manifest) (manifests : list Manifest)
    : gmap string (list string) * gmap string (list string) :=
  let '(referrers, indexParents) := foldl (edge_step byDigest) (∅, ∅) manifests in
  (sort_strings <$> referrers, sort_strings <$> indexParents).

(** The colours of the cycle walk; a digest absent from the map is unvisited. *)
Inductive colour : Type := onPath | settled.

Inductive walk_result : Type :=
| WalkCycle (at_ : string) (path : list string)
| WalkDone (state : gmap string colour) (path : list string)
| WalkFuel.

(** The inner [for] of the walk. *)
Fixpoint walk (fuel : nat) (byDigest : gmap string Manifest) (state : gmap string colour)
    (path : list string) (current : string) : walk_result :=
  match fuel with
  | O => WalkFuel
  | S fuel =>
      match state !! current with
      | Some onPath => WalkCycle current path
      | Some settled => WalkDone state path
      | None =>
          let state := <[current := onPath]> state in
          let path := path ++ [current] in
          match byDigest !! current with
          | None => WalkDone state path
          | Some next =>
              if String.eqb (m_subject next) "" then WalkDone state path
              else walk fuel byDigest state path (m_subject next)
          end
      end
  end.

(** One iteration of the outer [for]: walk from an unvisited manifest and
    settle the path it left. *)
Definition walk_from (fuel : nat) (byDigest : gmap string Manifest) (state : gmap string colour) (start : Manifest)
    : result InventoryError (gmap string colour) :=
  match state !! m_digest start with
  | Some _ => Ok state
  | None =>
      match walk fuel byDigest state [] (m_digest start) with
      | WalkCycle at_ path => Err (inventoryErr at_ (InvSubjectCycle path))
      | WalkDone state path => Ok (foldl (λ st node, <[node := settled]> st) state path)
      | WalkFuel => Err (inventoryErr (m_digest start) InvFuel)
      end
  end.

(** A walk visits each live manifest at most once and then at most one digest
    that is not in the snapshot. *)
Definition walk_fuel (manifests : list Manifest) : nat := length manifests + 2.

Definition buildEdges (byDigest : gmap string Manifest) (manifests : list Manifest)
    : result InventoryError (gmap string (list string) * gmap string (list string)) :=
  let edges := collect_edges byDigest manifests in
  check! foldM (walk_from (walk_fuel manifests) byDigest) ∅ manifests in
  Ok edges.

(** ** buildSelectable *)
Definition tag_exclusions (digest : string) (tag : Tag) : list Exclusion :=
  (if t_protected tag then [mkExclusion digest ExcludedProtectedTag (t_name tag)] else []) ++
  (if t_immutable tag then [mkExclusion digest ExcludedImmutableTag (t_name tag)] else []).

Definition exclusion_reasons (byDigest : gmap string Manifest) (indexParents : gmap string (list string))
    (m : Manifest) : list Exclusion :=
  foldl (λ reasons tag, reasons ++ tag_exclusions (m_digest m) tag) [] (m_tags m) ++
  (match default [] (indexParents !! m_digest m) with
   | [] => []
   | parents => [mkExclusion (m_digest m) ExcludedIndexChild (String.concat ", " parents)]
   end) ++
  (if negb (String.eqb (m_subject m) "") && bool_decide (is_Some (byDigest !! m_subject m))
   then [mkExclusion (m_digest m) ExcludedLiveSubject (m_subject m)] else []).

Definition buildSelectable (byDigest : gmap string Manifest) (indexParents : gmap string (list string))
    (manifests : list Manifest) : list Manifest * list Exclusion * gmap string (list Exclusion) :=
  foldl (λ '(selectable, exclusions, excludedBy) m,
    match exclusion_reasons byDigest indexParents m with
    | [] => (selectable ++ [m], exclusions, excludedBy)
    | reasons => (selectable, exclusions ++ reasons, <[m_digest m := reasons]> excludedBy)
    end) ([], [], ∅) manifests.

(** ** NewInventory *)
Definition add_manifest (st : gmap string Manifest * list Manifest * gmap string string) (m : Manifest)
    : result InventoryError (gmap string Manifest * list Manifest * gmap string string) :=
  let '(byDigest, manifests, tagOwner) := st in
  let! validated := validateManifest m byDigest tagOwner in
  let clone := validated.1 in
  Ok (<[m_digest clone := clone]> byDigest, manifests ++ [clone], validated.2).

Definition NewInventory (repository : string) (manifests : list Manifest) : result InventoryError Inventory :=
  if String.eqb repository "" then Err (inventoryErr "" InvNoRepository)
  else
    let! st := foldM add_manifest (∅, [], ∅) manifests in
    let byDigest := st.1.1 in
    let sorted := sort_on String.le m_digest st.1.2 in
    let! edges := buildEdges byDigest sorted in
    let '(selectable, exclusions, excludedBy) := buildSelectable byDigest edges.2 sorted in
    Ok (mkInventory repository sorted selectable exclusions byDigest excludedBy edges.1 edges.2).

(** ** Queries *)
Definition Lookup (inv : Inventory) (digest : string) : option Manifest := inv_byDigest inv !! digest.
Definition ExclusionsFor (inv : Inventory) (digest : string) : list Exclusion :=
  default [] (inv_excludedBy inv !! digest).
Definition IndexParents (inv : Inventory) (digest : string) : list string :=
  default [] (inv_indexParents inv !! digest).
Definition Referrers (inv : Inventory) (digest : string) : list string :=
  default [] (inv_referrers inv !! digest).

(** The breadth-first loop of [ReferrerSubtree]: [None] is the model's fuel
    running out. *)
Definition bfs_visit (st : gset string * list string * list string) (referrer : string)
    : gset string * list string * list string :=
  let '(seen, out, queue) := st in
  if bool_decide (referrer ∈ seen) then st
  else ({[referrer]} ∪ seen, out ++ [referrer], queue ++ [referrer]).

Fixpoint bfs (fuel : nat) (inv : Inventory) (seen : gset string) (out queue : list string) : option (list string) :=
  match queue with
  | [] => Some out
  | current :: queue =>
      match fuel with
      | O => None
      | S fuel =>
          let '(seen, out, queue) := foldl bfs_visit (seen, out, queue) (Referrers inv current) in
          bfs fuel inv seen out queue
      end
  end.

(** Every dequeued digest is the root or a distinct manifest of the snapshot. *)
Definition bfs_fuel (inv : Inventory) : nat := length (inv_manifests inv) + 2.

Definition ReferrerSubtree (inv : Inventory) (digest : string) : list string :=
  default [] (sort_strings <$> bfs (bfs_fuel inv) inv {[digest]} [] [digest]).

(** ** Well-formedness of a built inventory *)

(** [d] attaches to [s]. *)
Definition attaches (byDigest : gmap string Manifest) (d s : string) : Prop :=
  ∃ m, byDigest !! d = Some m ∧ m_subject m = s ∧ s ≠ "".

(** [d] is live: it is in the snapshot. *)
Definition live (byDigest : gmap string Manifest) (d : string) : Prop := is_Some (byDigest !! d).

Record inventory_wf (inv : Inventory) : Prop := {
  wf_nodup : NoDup (m_digest <$> inv_manifests inv);
  wf_sorted : StronglySorted (on_key String.le m_digest) (inv_manifests inv);
  wf_lookup d m : inv_byDigest inv !! d = Some m ↔ m ∈ inv_manifests inv ∧ m_digest m = d;
  wf_digest m : m ∈ inv_manifests inv → m_digest m ≠ "";
  wf_referrers s d :
    d ∈ Referrers inv s ↔ live (inv_byDigest inv) s ∧ attaches (inv_byDigest inv) d s;
  wf_parents c p :
    p ∈ IndexParents inv c ↔
    live (inv_byDigest inv) c ∧ ∃ m, inv_byDigest inv !! p = Some m ∧ c ∈ m_children m;
  wf_selectable :
    inv_selectable inv =
    filter (λ m, exclusion_reasons (inv_byDigest inv) (inv_indexParents inv) m = []) (inv_manifests inv);
  wf_exclusions d :
    ExclusionsFor inv d =
    default [] (exclusion_reasons (inv_byDigest inv) (inv_indexParents inv) <$> inv_byDigest inv !! d);
  wf_acyclic d : live (inv_byDigest inv) d → sn (attaches (inv_byDigest inv)) d;
}.

(** *** The validation loop *)
Definition add_inv (st : gmap string Manifest * list Manifest * gmap string string) : Prop :=
  let '(byDigest, manifests, _) := st in
  NoDup (m_digest <$> manifests) ∧
  (∀ d m, byDigest !! d = Some m ↔ m ∈ manifests ∧ m_digest m = d) ∧
  ∀ m, m ∈ manifests → m_digest m ≠ "".

Lemma validateManifest_digest m seen owner clone owner' :
  validateManifest m seen owner = Ok (clone, owner') →
  m_digest clone = m_digest m ∧ m_digest m ≠ "" ∧ seen !! m_digest m = None.
Proof.
  unfold validateManifest. destruct (String.eqb_spec (m_digest m) ""); [done|].
  case_bool_decide as Hs; [done|]. intros H. split_guards. inv_result. simplify_eq/=.
  split_and!; [done..|]. by apply eq_None_not_Some.
Qed.

Lemma add_manifest_inv st m st' : add_inv st → add_manifest st m = Ok st' → add_inv st'.
Proof.
  destruct st as [[byDigest manifests] owner]. intros (Hnd & Hl & Hne) H. unfold add_manifest in H.
  inv_result. destruct a as [clone owner'].
  apply validateManifest_digest in Heqr as (Hd & Hde & Hseen). simpl in *.
  assert (m_digest clone ∉ m_digest <$> manifests) as Hfresh.
  { intros (m' & Hm' & Hin)%list_elem_of_fmap. rewrite Hd in Hm'.
    assert (byDigest !! m_digest m = Some m') by by apply Hl. congruence. }
  split_and!.
  - rewrite fmap_app. apply NoDup_app. split_and!; [done| |apply NoDup_singleton].
    intros d Hd' ->%list_elem_of_singleton. done.
  - intros d m'. rewrite lookup_insert, elem_of_app, list_elem_of_singleton. case_decide as E.
    + subst d. split; [intros [= <-]; auto|]. intros [[Hin| ->] E]; [|done].
      destruct Hfresh. rewrite <-E. by apply list_elem_of_fmap_2.
    + rewrite Hl. naive_solver.
  - intros m' [Hm'|Hm'%list_elem_of_singleton]%elem_of_app; [by apply Hne|]. subst m'. by rewrite Hd.
Qed.

(** *** The edge loops *)
Lemma push_edge_lookup key value edges k x :
  x ∈ default [] (push_edge key value edges !! k) ↔ (k = key ∧ x = value) ∨ x ∈ default [] (edges !! k).
Proof.
  unfold push_edge. rewrite lookup_insert. case_decide as E; simpl.
  - subst. rewrite elem_of_app, list_elem_of_singleton. naive_solver.
  - naive_solver.
Qed.

Lemma push_children_lookup (byDigest : gmap string Manifest) p children parents c x :
  x ∈ default [] (foldl (λ parents child,
      if bool_decide (is_Some (byDigest !! child)) then push_edge child p parents else parents)
      parents children !! c) ↔
  (live byDigest c ∧ c ∈ children ∧ x = p) ∨ x ∈ default [] (parents !! c).
Proof.
  revert parents. induction children as [|ch children IH]; intros parents; simpl.
  { rewrite elem_of_nil. naive_solver. }
  rewrite IH, elem_of_cons. case_bool_decide as Hl; [rewrite push_edge_lookup|];
    unfold live in *; naive_solver.
Qed.

Lemma edge_steps_lookup byDigest ms refs parents k x :
  let st := foldl (edge_step byDigest) (refs, parents) ms in
  (x ∈ default [] (st.1 !! k) ↔
     (live byDigest k ∧ k ≠ "" ∧ ∃ m, m ∈ ms ∧ m_digest m = x ∧ m_subject m = k) ∨ x ∈ default [] (refs !! k)) ∧
  (x ∈ default [] (st.2 !! k) ↔
     (live byDigest k ∧ ∃ m, m ∈ ms ∧ m_digest m = x ∧ k ∈ m_children m) ∨ x ∈ default [] (parents !! k)).
Proof.
  revert refs parents. induction ms as [|m ms IH]; intros refs parents; simpl.
  { setoid_rewrite elem_of_nil. naive_solver. }
  destruct (IH (edge_step byDigest (refs, parents) m).1 (edge_step byDigest (refs, parents) m).2)
    as [H1 H2]. rewrite <-surjective_pairing in H1, H2. rewrite H1, H2. clear IH H1 H2. simpl.
  setoid_rewrite elem_of_cons. split.
  - destruct (String.eqb_spec (m_subject m) ""); simpl; [naive_solver|].
    case_bool_decide as Hl; [rewrite push_edge_lookup|]; unfold live in *; naive_solver.
  - rewrite push_children_lookup. naive_solver.
Qed.

Lemma collect_edges_lookup byDigest ms k x :
  let '(refs, parents) := collect_edges byDigest ms in
  (x ∈ default [] (refs !! k) ↔
     live byDigest k ∧ k ≠ "" ∧ ∃ m, m ∈ ms ∧ m_digest m = x ∧ m_subject m = k) ∧
  (x ∈ default [] (parents !! k) ↔
     live byDigest k ∧ ∃ m, m ∈ ms ∧ m_digest m = x ∧ k ∈ m_children m).
Proof.
  unfold collect_edges. pose proof (edge_steps_lookup byDigest ms ∅ ∅ k x) as [H1 H2].
  destruct (foldl _ _ _) as [refs parents]. simpl in *.
  assert (∀ e : gmap string (list string),
    x ∈ default [] ((sort_strings <$> e) !! k) ↔ x ∈ default [] (e !! k)) as Hs.
  { intros e. rewrite lookup_fmap. destruct (e !! k); simpl; [apply sort_strings_elem|done]. }
  rewrite !Hs, H1, H2, lookup_empty. simpl. rewrite elem_of_nil. naive_solver.
Qed.

(** *** The cycle walk *)
Lemma attaches_fun byDigest d s1 s2 : attaches byDigest d s1 → attaches byDigest d s2 → s1 = s2.
Proof. unfold attaches. naive_solver. Qed.

Lemma attaches_acc byDigest d s :
  attaches byDigest d s → sn (attaches byDigest) s → sn (attaches byDigest) d.
Proof.
  intros Hds Hs. constructor. intros s' Hs'. unfold flip in Hs'.
  by rewrite (attaches_fun _ _ _ _ Hs' Hds).
Qed.

Lemma no_subject_acc byDigest d :
  (∀ m, byDigest !! d = Some m → m_subject m = "") → sn (attaches byDigest) d.
Proof. intros H. constructor. intros s (m & Hm & <- & Hs). by rewrite (H m) in Hs. Qed.

(** What a walk that ends has established: every manifest it added to its path
    starts a finite chain of subjects. *)
Record walk_post (byDigest : gmap string Manifest) (state : gmap string colour) (path : list string)
    (current : string) (state' : gmap string colour) (path' : list string) : Prop := {
  wp_current : sn (attaches byDigest) current;
  wp_path d : d ∈ path' → d ∈ path ∨ sn (attaches byDigest) d;
  wp_grows d : d ∈ path → d ∈ path';
  wp_settled d : state' !! d = Some settled → state !! d = Some settled;
  wp_onPath d : state' !! d = Some onPath → state !! d = Some onPath ∨ d ∈ path';
  wp_visited : state !! current = None → current ∈ path';
  wp_kept d : is_Some (state !! d) → is_Some (state' !! d);
}.

(** Stepping onto an unvisited digest. *)
Lemma walk_post_step byDigest state path current next state' path' :
  sn (attaches byDigest) current →
  walk_post byDigest (<[current := onPath]> state) (path ++ [current]) next state' path' →
  walk_post byDigest state path current state' path'.
Proof.
  intros Ha [_ H2 H3 H4 H5 _ H7]. split.
  - done.
  - intros d [[?|Hd%list_elem_of_singleton]%elem_of_app|?]%H2; subst; auto.
  - intros d ?. apply H3. set_solver.
  - intros d ?%H4. revert H. rewrite lookup_insert. by case_decide.
  - intros d [H|?]%H5; [|auto]. rewrite lookup_insert in H. case_decide; [|auto].
    right. apply H3. set_solver.
  - intros _. apply H3. set_solver.
  - intros d ?. apply H7. rewrite lookup_insert. case_decide; [by eauto|done].
Qed.

Lemma walk_post_refl byDigest state path current :
  sn (attaches byDigest) current → (state !! current = None → current ∈ path) →
  walk_post byDigest state path current state path.
Proof. intros. split; auto. Qed.

Lemma walk_done fuel byDigest state path current state' path' :
  (∀ d, state !! d = Some settled → sn (attaches byDigest) d) →
  walk fuel byDigest state path current = WalkDone state' path' →
  walk_post byDigest state path current state' path'.
Proof.
  revert state path current. induction fuel as [|fuel IH]; intros state path current Hset H; [done|].
  simpl in H. destruct (state !! current) as [[]|] eqn:Hc; [done| |].
  { simplify_eq. apply walk_post_refl; [auto|congruence]. }
  assert (∀ d, <[current := onPath]> state !! d = Some settled → sn (attaches byDigest) d) as Hset'.
  { intros d. rewrite lookup_insert. case_decide; [done|auto]. }
  destruct (byDigest !! current) as [next|] eqn:Hn;
    [destruct (String.eqb_spec (m_subject next) "") as [He|He]|].
  - assert (sn (attaches byDigest) current) by (apply no_subject_acc; intros m Hm; congruence).
    simplify_eq. apply (walk_post_step _ _ _ _ current); [done|]. apply walk_post_refl; [done|set_solver].
  - apply IH in H; [|done]. apply (walk_post_step _ _ _ _ (m_subject next)); [|done].
    eapply attaches_acc; [|apply H]. by exists next.
  - assert (sn (attaches byDigest) current) by (apply no_subject_acc; by rewrite Hn).
    simplify_eq. apply (walk_post_step _ _ _ _ current); [done|]. apply walk_post_refl; [done|set_solver].
Qed.

(** A cycle the walk reports is a cycle of the snapshot. *)
Lemma walk_cycle fuel byDigest state path current at_ path' :
  (∀ d, state !! d = Some onPath → d ∈ path) →
  (∀ d, d ∈ path → tc (attaches byDigest) d current) →
  walk fuel byDigest state path current = WalkCycle at_ path' →
  tc (attaches byDigest) at_ at_.
Proof.
  revert state path current. induction fuel as [|fuel IH]; intros state path current Hon Hch H; [done|].
  simpl in H. destruct (state !! current) as [[]|] eqn:Hc; [simplify_eq; auto|done|].
  destruct (byDigest !! current) as [next|] eqn:Hn; [|done].
  destruct (String.eqb_spec (m_subject next) "") as [He|He]; [done|].
  assert (attaches byDigest current (m_subject next)) as Hat by by exists next.
  eapply IH; [..|exact H].
  - intros d. rewrite lookup_insert. case_decide; [|intros ?%Hon]; set_solver.
  - intros d [Hd|Hd%list_elem_of_singleton]%elem_of_app.
    + eapply tc_r; [by apply Hch|done].
    + subst d. by apply tc_once.
Qed.

(** The walk's fuel: one unit per unvisited live manifest, and one more. *)
Definition unvisited (byDigest : gmap string Manifest) (state : gmap string colour) : gset string :=
  dom byDigest ∖ dom state.

Lemma walk_fuel_enough fuel byDigest state path current :
  size (unvisited byDigest state) + 1 ≤ fuel →
  walk fuel byDigest state path current ≠ WalkFuel.
Proof.
  revert state path current. induction fuel as [|fuel IH]; intros state path current Hf; [lia|].
  simpl. destruct (state !! current) as [[]|] eqn:Hc; [done..|].
  destruct (byDigest !! current) as [next|] eqn:Hn; [|done].
  destruct (String.eqb (m_subject next) ""); [done|]. apply IH.
  assert (unvisited byDigest (<[current := onPath]> state) ⊂ unvisited byDigest state) as Hsub.
  { unfold unvisited. rewrite dom_insert. split; [set_solver|].
    intros Hs. assert (current ∈ dom byDigest ∖ dom state) as Hin.
    { apply elem_of_difference. rewrite elem_of_dom, not_elem_of_dom. by eauto. }
    apply Hs in Hin. set_solver. }
  apply subset_size in Hsub. lia.
Qed.

Lemma settle_lookup (state : gmap string colour) path d :
  foldl (λ st node, <[node := settled]> st) state path !! d =
  if decide (d ∈ path) then Some settled else state !! d.
Proof.
  revert state. induction path as [|x path IH]; intros state; simpl.
  { done. }
  rewrite IH, lookup_insert. repeat case_decide; set_solver.
Qed.

(** Between two walks every coloured digest is settled and starts a finite chain. *)
Definition walk_ok (byDigest : gmap string Manifest) (state : gmap string colour) : Prop :=
  ∀ d c, state !! d = Some c → c = settled ∧ sn (attaches byDigest) d.

Lemma walk_from_ok fuel byDigest state start state' :
  walk_ok byDigest state → walk_from fuel byDigest state start = Ok state' →
  walk_ok byDigest state' ∧ (∀ d, is_Some (state !! d) → is_Some (state' !! d)) ∧
  is_Some (state' !! m_digest start).
Proof.
  intros Hok. unfold walk_from. destruct (state !! m_digest start) as [c|] eqn:Hs.
  { intros [= <-]. split_and!; [done..|by eauto]. }
  destruct (walk _ _ _ _ _) as [| st path |] eqn:Hw; [done| |done]. intros [= <-].
  apply walk_done in Hw; [|intros d Hd; exact (proj2 (Hok _ _ Hd))]. destruct Hw as [Hcur Hp _ Hset Hon Hvis Hk].
  split_and!.
  - intros d c. rewrite settle_lookup. case_decide as Hd.
    + intros [= <-]. apply Hp in Hd as [Hd%not_elem_of_nil|Hd]; [destruct Hd|auto].
    + intros Hd'. destruct c; [|exact (Hok _ _ (Hset _ Hd'))].
      apply Hon in Hd' as [Hd'|Hd']; [destruct (Hok _ _ Hd'); discriminate|destruct (Hd Hd')].
  - intros d ?%Hk. rewrite settle_lookup. case_decide; [by eauto|done].
  - rewrite settle_lookup, decide_True by auto. by eauto.
Qed.

Lemma walks_ok fuel byDigest state ms state' :
  walk_ok byDigest state → foldM (walk_from fuel byDigest) state ms = Ok state' →
  walk_ok byDigest state' ∧ (∀ d, is_Some (state !! d) → is_Some (state' !! d)) ∧
  ∀ m, m ∈ ms → is_Some (state' !! m_digest m).
Proof.
  revert state. induction ms as [|m ms IH]; intros state Hok H; simpl in H; inv_result.
  { split_and!; [done..|]. by intros m ?%not_elem_of_nil. }
  apply walk_from_ok in Heqr as (Hok' & Hk & Hm); [|done].
  apply IH in H as (? & Hk' & Hms); [|done]. split_and!; [done|auto|].
  intros m' [->|?]%elem_of_cons; auto.
Qed.

Lemma buildEdges_ok byDigest ms edges :
  buildEdges byDigest ms = Ok edges →
  edges = collect_edges byDigest ms ∧ ∀ m, m ∈ ms → sn (attaches byDigest) (m_digest m).
Proof.
  unfold buildEdges. intros H. inv_result.
  split; [done|]. apply walks_ok in Heqr as (Hok & _ & Hms); [|by intros d c; rewrite lookup_empty].
  intros m [c Hc]%Hms. exact (proj2 (Hok _ _ Hc)).
Qed.

(** The only error of [buildEdges] is a subject cycle that is really there. *)
Lemma walks_err byDigest state ms0 ms e :
  size (dom byDigest) ≤ length ms0 → walk_ok byDigest state →
  foldM (walk_from (walk_fuel ms0) byDigest) state ms = Err e →
  (∃ path, inve_reason e = InvSubjectCycle path) ∧ tc (attaches byDigest) (inve_digest e) (inve_digest e).
Proof.
  intros Hlen. revert state. induction ms as [|m ms IH]; intros state Hok H; simpl in H; [done|].
  destruct (walk_from _ _ _ _) as [st|e'] eqn:Hw; simpl in H.
  { apply walk_from_ok in Hw as [? _]; eauto. }
  simplify_eq. unfold walk_from in Hw. destruct (state !! m_digest m) eqn:Hs; [done|].
  destruct (walk _ _ _ _ _) as [at_ path| |] eqn:Hwk; simplify_eq/=.
  - split; [by eauto|]. eapply walk_cycle; [..|exact Hwk]; [|by intros d ?%not_elem_of_nil].
    intros d Hd. destruct (Hok _ _ Hd); discriminate.
  - exfalso. eapply walk_fuel_enough; [|exact Hwk].
    assert (unvisited byDigest state ⊆ dom byDigest) as Hsub by (unfold unvisited; set_solver).
    apply subseteq_size in Hsub. unfold walk_fuel. lia.
Qed.

(** *** The selectable set *)
Lemma buildSelectable_spec byDigest parents ms sel exs (by_ : gmap string (list Exclusion)) :
  let '(sel', exs', by_') := foldl (λ '(selectable, exclusions, excludedBy) m,
    match exclusion_reasons byDigest parents m with
    | [] => (selectable ++ [m], exclusions, excludedBy)
    | reasons => (selectable, exclusions ++ reasons, <[m_digest m := reasons]> excludedBy)
    end) (sel, exs, by_) ms in
  NoDup (m_digest <$> ms) → (∀ m, m ∈ ms → by_ !! m_digest m = None) →
  sel' = sel ++ filter (λ m, exclusion_reasons byDigest parents m = []) ms ∧
  exs' = exs ++ (ms ≫= exclusion_reasons byDigest parents) ∧
  (∀ m, m ∈ ms → default [] (by_' !! m_digest m) = exclusion_reasons byDigest parents m) ∧
  (∀ d, d ∉ m_digest <$> ms → by_' !! d = by_ !! d).
Proof.
  revert sel exs by_. induction ms as [|m ms IH]; intros sel exs by_; simpl.
  { intros _ _. rewrite !app_nil_r. split_and!; try done. by intros m ?%not_elem_of_nil. }
  destruct (exclusion_reasons byDigest parents m) as [|r rs] eqn:Hr.
  - specialize (IH (sel ++ [m]) exs by_).
    destruct (foldl _ _ _) as [[sel' exs'] by_']. intros [Hm Hnd]%NoDup_cons Hby.
    destruct IH as (-> & -> & Hin & Hout); [done|set_solver|].
    rewrite filter_cons_True, <-(assoc_L (++)) by done. split_and!; try done; try set_solver.
    intros m' [->|?]%elem_of_cons; [|by apply Hin]. rewrite Hout, Hby, Hr by set_solver. done.
  - specialize (IH sel (exs ++ r :: rs) (<[m_digest m := r :: rs]> by_)).
    destruct (foldl _ _ _) as [[sel' exs'] by_']. intros [Hm Hnd]%NoDup_cons Hby.
    assert (∀ m', m' ∈ ms → m_digest m' ≠ m_digest m) as Hne.
    { intros m' Hm' He. apply Hm. rewrite <-He. by apply list_elem_of_fmap_2. }
    destruct IH as (-> & -> & Hin & Hout); [done|..].
    { intros m' Hm'. rewrite lookup_insert_ne by (symmetry; auto). apply Hby. set_solver. }
    rewrite filter_cons_False, <-(assoc_L (++)) by congruence. split_and!; try done.
    + intros m' [->|?]%elem_of_cons; [|by apply Hin]. rewrite Hout by set_solver.
      by rewrite lookup_insert_eq, Hr.
    + intros d Hd. rewrite not_elem_of_cons in Hd. rewrite Hout by tauto.
      rewrite lookup_insert_ne by naive_solver. done.
Qed.

Lemma added_inv manifests st : foldM add_manifest (∅, [], ∅) manifests = Ok st → add_inv st.
Proof.
  apply foldM_inv; [by eauto using add_manifest_inv|]. split_and!.
  - apply NoDup_nil_2.
  - intros d m. rewrite lookup_empty, elem_of_nil. naive_solver.
  - by intros m ?%not_elem_of_nil.
Qed.

(** Every inventory the constructor returns is well formed. *)
Lemma NewInventory_wf repository manifests inv :
  NewInventory repository manifests = Ok inv → inventory_wf inv.
Proof.
  unfold NewInventory. destruct (String.eqb repository ""); [done|]. intros H. inv_result.
  destruct a as [[byDigest ms] owner]. simpl in *. apply added_inv in Heqr.
  destruct Heqr as (Hnd & Hl & Hne).
  set (sorted := sort_on String.le m_digest ms) in *.
  assert (sorted ≡ₚ ms) as Hp by apply sort_on_perm.
  apply buildEdges_ok in Heqr0 as [-> Hacc].
  pose proof (λ k x, collect_edges_lookup byDigest sorted k x) as Hedges.
  destruct (collect_edges byDigest sorted) as [refs parents]. simpl in *.
  unfold buildSelectable in H.
  pose proof (buildSelectable_spec byDigest parents sorted [] [] ∅) as Hsel.
  destruct (foldl _ _ _) as [[sel exs] by_]. inv_result.
  assert (NoDup (m_digest <$> sorted)) as Hnd' by by rewrite Hp.
  destruct Hsel as (-> & -> & Hin & Hout); [done|by intros; apply lookup_empty|].
  assert (∀ d m, byDigest !! d = Some m ↔ m ∈ sorted ∧ m_digest m = d) as Hl'
    by (intros d m; rewrite Hp; apply Hl).
  split; simpl.
  - exact Hnd'.
  - apply sort_on_sorted; apply _.
  - exact Hl'.
  - intros m. rewrite Hp. apply Hne.
  - intros s d. unfold Referrers. simpl. rewrite (proj1 (Hedges s d)).
    unfold attaches. setoid_rewrite Hl'. naive_solver.
  - intros c p. unfold IndexParents. simpl. rewrite (proj2 (Hedges c p)).
    setoid_rewrite Hl'. naive_solver.
  - done.
  - intros d. unfold ExclusionsFor. simpl. destruct (byDigest !! d) as [m|] eqn:Hd; simpl.
    + apply Hl' in Hd as [Hm <-]. by apply Hin.
    + rewrite Hout; [by rewrite lookup_empty|]. intros (m & -> & Hm)%list_elem_of_fmap.
      assert (byDigest !! m_digest m = Some m) by by apply Hl'. congruence.
  - intros d [m [Hm <-]%Hl']. by apply Hacc.
Qed.

(** *** The breadth-first search *)
Lemma bfs_visits l seen out queue :
  ∃ new, foldl bfs_visit (seen, out, queue) l = (list_to_set new ∪ seen, out ++ new, queue ++ new) ∧
    NoDup new ∧ (∀ x, x ∈ new → x ∈ l ∧ x ∉ seen) ∧ (∀ x, x ∈ l → x ∈ new ∨ x ∈ seen).
Proof.
  revert seen out queue. induction l as [|y l IH]; intros seen out queue; simpl.
  { exists []. rewrite !app_nil_r. split_and!; [|constructor|set_solver..].
    by rewrite list_to_set_nil, union_empty_l_L. }
  case_bool_decide as Hy.
  - destruct (IH seen out queue) as (new & -> & Hnd & H1 & H2).
    exists new. split_and!; [done..|set_solver|set_solver].
  - destruct (IH ({[y]} ∪ seen) (out ++ [y]) (queue ++ [y])) as (new & -> & Hnd & H1 & H2).
    exists (y :: new). split_and!.
    + rewrite list_to_set_cons, <-!(assoc_L (++)). do 2 f_equal. set_solver.
    + constructor; [|done]. set_solver.
    + intros x [->|Hx]%elem_of_cons; set_solver.
    + intros x [->|Hx]%elem_of_cons; set_solver.
Qed.

Lemma attaches_live byDigest d s : attaches byDigest d s → live byDigest d.
Proof. intros (m & Hm & _). by exists m. Qed.

Lemma tc_attaches_live byDigest d s : tc (attaches byDigest) d s → live byDigest d.
Proof. intros [? ? H|? ? ? H _]; by eapply attaches_live. Qed.

Lemma sn_tc_irrefl byDigest d : sn (attaches byDigest) d → ¬ tc (attaches byDigest) d d.
Proof.
  induction 1 as [d _ IH]. intros Hx. inversion Hx as [? ? Hd|? y ? Hd Hy]; subst.
  - exact (IH _ Hd Hx).
  - apply (IH _ Hd). by eapply tc_r.
Qed.

Section bfs.
Context (inv : Inventory) (Hwf : inventory_wf inv) (root : string).

Let child (a b : string) : Prop := b ∈ Referrers inv a.
Let alive : gset string := dom (inv_byDigest inv).

Record bfs_inv (seen : gset string) (out queue : list string) : Prop := {
  bi_seen : seen = {[root]} ∪ list_to_set out;
  bi_nodup : NoDup out;
  bi_root : root ∉ out;
  bi_reach x : x ∈ out → tc child root x;
  bi_queue x : x ∈ queue → x ∈ seen;
  bi_closed a b : a ∈ seen → a ∉ queue → child a b → b ∈ seen;
}.

Lemma child_alive a b : child a b → b ∈ alive.
Proof.
  unfold child, alive. rewrite (wf_referrers _ Hwf), elem_of_dom.
  intros [_ (m & Hm & _)]. by eauto.
Qed.

Lemma bfs_inv_step seen out current queue new :
  bfs_inv seen out (current :: queue) → NoDup new →
  (∀ x, x ∈ new → child current x ∧ x ∉ seen) →
  (∀ x, child current x → x ∈ new ∨ x ∈ seen) →
  bfs_inv (list_to_set new ∪ seen) (out ++ new) (queue ++ new).
Proof.
  intros [Hs Hnd Hr Hre Hq Hc] Hnew H1 H2. split.
  - rewrite Hs, list_to_set_app_L. set_solver.
  - apply NoDup_app. split_and!; [done| |done]. intros x Hx Hx'. apply H1 in Hx' as [_ Hx'].
    subst seen. set_solver.
  - rewrite elem_of_app. intros [?|Hx]; [done|]. apply H1 in Hx as [_ Hx]. subst seen. set_solver.
  - intros x [?|Hx]%elem_of_app; [auto|]. apply H1 in Hx as [Hx _].
    assert (current ∈ seen) as Hcur by (apply Hq; by left). rewrite Hs in Hcur.
    apply elem_of_union in Hcur as [->%elem_of_singleton|Hcur%elem_of_list_to_set]; [by apply tc_once|].
    eapply tc_r; [by apply Hre|done].
  - intros x [?|?]%elem_of_app; [|set_solver]. apply elem_of_union. right. apply Hq. by right.
  - intros a b Ha Hna Hab. destruct (decide (a = current)) as [->|Hne].
    { destruct (H2 b Hab); set_solver. }
    apply elem_of_union in Ha as [Ha|Ha]; [set_solver|].
    apply elem_of_union. right. eapply Hc; [done| |done]. set_solver.
Qed.

(** Enough fuel: one unit per queued digest and one per manifest not yet seen. *)
Lemma bfs_complete fuel seen out queue :
  bfs_inv seen out queue → length queue + size (alive ∖ seen) ≤ fuel →
  ∃ res seen', bfs fuel inv seen out queue = Some res ∧ bfs_inv seen' res [].
Proof.
  revert seen out queue. induction fuel as [|fuel IH]; intros seen out queue Hi Hf.
  { destruct queue as [|c q]; simpl in *; [by eauto|lia]. }
  destruct queue as [|current queue]; simpl in *; [by eauto|].
  destruct (bfs_visits (Referrers inv current) seen out queue) as (new & Heq & Hnd & H1 & H2).
  rewrite Heq. apply IH; [by eapply bfs_inv_step|].
  assert (size (alive ∖ (list_to_set new ∪ seen)) + length new ≤ size (alive ∖ seen)); [|rewrite length_app; lia].
  rewrite <-(size_list_to_set (C := gset string) new) by done.
  assert (∀ x, x ∈ new → x ∈ alive) as Hal by (intros x Hx; by eapply child_alive, H1).
  rewrite <-size_union by set_solver. apply subseteq_size. set_solver.
Qed.

Lemma tc_child_iff x : live (inv_byDigest inv) root → tc child root x ↔ tc (attaches (inv_byDigest inv)) x root.
Proof.
  intros Hroot. split.
  - clear Hroot. generalize root. intros r. induction 1 as [a b Hab|a b c Hab _ IH];
      apply (wf_referrers _ Hwf) in Hab as [_ Hb]; [by apply tc_once|]. by eapply tc_r.
  - revert Hroot. generalize root. intros r Hr. induction 1 as [a b Hab|a b c Hab Hbc IH].
    + apply tc_once. by apply (wf_referrers _ Hwf).
    + eapply tc_r; [by apply IH|]. apply (wf_referrers _ Hwf). split; [|done].
      by eapply tc_attaches_live.
Qed.

(** The search terminates and returns the transitive referrers, each once. *)
Lemma bfs_result :
  live (inv_byDigest inv) root →
  ∃ res, bfs (bfs_fuel inv) inv {[root]} [] [root] = Some res ∧ NoDup res ∧
    ∀ x, x ∈ res ↔ tc (attaches (inv_byDigest inv)) x root.
Proof.
  intros Hroot.
  destruct (bfs_complete (bfs_fuel inv) {[root]} [] [root]) as (res & seen & Hb & Hi).
  - split; try set_solver. constructor.
  - unfold bfs_fuel. simpl.
    assert (size (alive ∖ {[root]}) ≤ length (inv_manifests inv)); [|lia].
    rewrite <-(length_fmap m_digest), <-(size_list_to_set (C := gset string)) by apply Hwf.
    apply subseteq_size. intros d [[m Hm]%elem_of_dom _]%elem_of_difference.
    apply (wf_lookup _ Hwf) in Hm as [Hm <-]. apply elem_of_list_to_set. by apply list_elem_of_fmap_2.
  - exists res. split_and!; [done|by apply Hi|]. intros x. rewrite <-tc_child_iff by done.
    destruct Hi as [Hs _ Hr Hre _ Hc]. split; [apply Hre|]. intros Hx.
    assert (x ∈ seen) as Hin.
    { assert (root ∈ seen) as Hrs by set_solver. clear -Hx Hc Hrs.
      induction Hx as [a b Hab|a b c Hab _ IH]; [|apply IH]; (eapply Hc; [done|set_solver|done]). }
    rewrite Hs in Hin. apply elem_of_union in Hin as [->%elem_of_singleton|?]; [|set_solver].
    apply tc_child_iff in Hx; [|done]. destruct (sn_tc_irrefl (inv_byDigest inv) root) with (2 := Hx).
    by apply (wf_acyclic _ Hwf).
Qed.
End bfs.

Lemma ReferrerSubtree_spec inv d :
  inventory_wf inv → live (inv_byDigest inv) d →
  NoDup (ReferrerSubtree inv d) ∧
  ∀ x, x ∈ ReferrerSubtree inv d ↔ tc (attaches (inv_byDigest inv)) x d.
Proof.
  intros Hwf Hd. destruct (bfs_result inv Hwf d Hd) as (res & Hb & Hnd & He).
  unfold ReferrerSubtree. rewrite Hb. simpl. split; [by rewrite sort_strings_perm|].
  intros x. by rewrite sort_strings_elem.
Qed.

(** *** Relating the built maps to the snapshot handed in *)
Definition snapshot_attaches (manifests : list Manifest) (d s : string) : Prop :=
  ∃ m, m ∈ manifests ∧ m_digest m = d ∧ m_subject m = s ∧ s ≠ "".

Definition edge_of (m : Manifest) : string * string := (m_digest m, m_subject m).

Lemma added_edges manifests st st' :
  foldM add_manifest st manifests = Ok st' →
  edge_of <$> st'.1.2 = (edge_of <$> st.1.2) ++ (edge_of <$> manifests).
Proof.
  revert st. induction manifests as [|m ms IH]; intros st H; simpl in H; inv_result.
  { by rewrite app_nil_r. }
  rewrite (IH _ H). clear IH H. destruct st as [[byDigest ms'] owner]. unfold add_manifest in Heqr.
  inv_result. destruct a0 as [clone owner']. unfold validateManifest in Heqr0.
  split_guards. inv_result. simplify_eq/=. rewrite fmap_app, <-(assoc_L (++)). done.
Qed.

Lemma attaches_snapshot manifests byDigest ms owner d s :
  foldM add_manifest (∅, [], ∅) manifests = Ok (byDigest, ms, owner) →
  attaches byDigest d s ↔ snapshot_attaches manifests d s.
Proof.
  intros H. pose proof (added_inv _ _ H) as (_ & Hl & _). apply added_edges in H. simpl in H.
  assert ((d, s) ∈ edge_of <$> ms ↔ (d, s) ∈ edge_of <$> manifests) as He by by rewrite H.
  unfold attaches, snapshot_attaches. rewrite !list_elem_of_fmap in He. unfold edge_of in He.
  setoid_rewrite Hl. split.
  - intros (m & [Hm <-] & <- & Hs). destruct (proj1 He) as (m' & ? & ?); [by eauto|]. naive_solver.
  - intros (m & Hm & <- & <- & Hs). destruct (proj2 He) as (m' & ? & ?); [by eauto|]. naive_solver.
Qed.

Lemma tc_attaches_snapshot manifests byDigest ms owner d s :
  foldM add_manifest (∅, [], ∅) manifests = Ok (byDigest, ms, owner) →
  tc (attaches byDigest) d s ↔ tc (snapshot_attaches manifests) d s.
Proof.
  intros H. split; intros Ht; (eapply (tc_congruence id); [|exact Ht]); intros x y;
    by apply (attaches_snapshot manifests _ ms owner).
Qed.

Lemma NewInventory_attaches repository manifests inv d s :
  NewInventory repository manifests = Ok inv →
  tc (snapshot_attaches manifests) d s ↔ tc (attaches (inv_byDigest inv)) d s.
Proof.
  unfold NewInventory. destruct (String.eqb repository ""); [done|]. intros H. inv_result.
  destruct a as [[byDigest ms] owner]. destruct (buildSelectable _ _ _) as [[sel exs] by_].
  inv_result. symmetry. by eapply tc_attaches_snapshot.
Qed.

(** The inventory holds the snapshot's manifests. *)
Lemma NewInventory_manifests repository manifests inv :
  NewInventory repository manifests = Ok inv → m_digest <$> inv_manifests inv ≡ₚ m_digest <$> manifests.
Proof.
  unfold NewInventory. destruct (String.eqb repository ""); [done|]. intros H. inv_result.
  destruct a as [[byDigest ms] owner]. apply added_edges in Heqr. simpl in Heqr.
  destruct (buildSelectable _ _ _) as [[sel exs] by_]. inv_result. simpl. rewrite sort_on_perm.
  apply (f_equal (fmap fst)) in Heqr. rewrite <-!list_fmap_compose in Heqr.
  change (m_digest <$> ms = m_digest <$> manifests) in Heqr. by rewrite Heqr.
Qed.

Lemma buildEdges_err manifests byDigest ms owner e :
  foldM add_manifest (∅, [], ∅) manifests = Ok (byDigest, ms, owner) →
  buildEdges byDigest (sort_on String.le m_digest ms) = Err e →
  (∃ path, inve_reason e = InvSubjectCycle path) ∧ tc (attaches byDigest) (inve_digest e) (inve_digest e).
Proof.
  intros (Hnd & Hl & _)%added_inv H. unfold buildEdges in H. inv_result.
  apply walks_err in Heqr; [done| |by intros d c; rewrite lookup_empty].
  rewrite sort_on_length, <-(length_fmap m_digest), <-(size_list_to_set (C := gset string)) by done.
  apply subseteq_size. intros d [m [Hm <-]%Hl]%elem_of_dom.
  apply elem_of_list_to_set. by apply list_elem_of_fmap_2.
Qed.

(** The per-row checks report neither a cycle nor fuel. *)
Definition row_error (e : InventoryError) : Prop :=
  inve_reason e ≠ InvFuel ∧ ∀ path, inve_reason e ≠ InvSubjectCycle path.

Lemma added_err st manifests e : foldM add_manifest st manifests = Err e → row_error e.
Proof.
  apply foldM_err_inv. clear. intros [[byDigest ms] owner] m e H. unfold add_manifest in H. inv_result.
  unfold validateManifest in Heqr.
  repeat match type of Heqr with (if ?b then _ else _) = _ => destruct b; [by simplify_eq|] end.
  inv_result.
  - clear Heqr0. revert Heqr1. apply foldM_err_inv. clear. intros _ ch e. unfold validateChild.
    intros H. split_guards; by simplify_eq.
  - revert Heqr0. apply foldM_err_inv. clear. intros [here owner] t e. unfold validateTag.
    intros H. split_guards; try (by simplify_eq). destruct (owner !! t_name t); by simplify_eq.
Qed.

Lemma tag_exclusions_nil d tags :
  foldl (λ reasons tag, reasons ++ tag_exclusions d tag) [] tags = [] ↔
  Forall (λ t, t_protected t = false ∧ t_immutable t = false) tags.
Proof.
  assert (∀ acc, foldl (λ reasons tag, reasons ++ tag_exclusions d tag) acc tags = [] ↔
    acc = [] ∧ Forall (λ t, t_protected t = false ∧ t_immutable t = false) tags) as H.
  { induction tags as [|t tags IH]; intros acc; simpl; [naive_solver|].
    rewrite IH, Forall_cons, app_nil. unfold tag_exclusions.
    destruct (t_protected t), (t_immutable t); naive_solver. }
  rewrite H. naive_solver.
Qed.

(** A manifest has no exclusion exactly when none of the four reasons holds. *)
Lemma exclusion_reasons_nil byDigest parents m :
  exclusion_reasons byDigest parents m = [] ↔
  Forall (λ t, t_protected t = false ∧ t_immutable t = false) (m_tags m) ∧
  default [] (parents !! m_digest m) = [] ∧
  (m_subject m = "" ∨ byDigest !! m_subject m = None).
Proof.
  unfold exclusion_reasons. rewrite !app_nil, tag_exclusions_nil.
  rewrite eq_None_not_Some. destruct (default [] (parents !! m_digest m));
  destruct (String.eqb_spec (m_subject m) ""); simpl; [naive_solver| |naive_solver..];
  case_bool_decide; naive_solver.
Qed.

(** ** Properties *)

(** The subject-cycle check of [NewInventory] is exact and always
    terminates: an accepted snapshot has no cycle of subjects, a snapshot
    refused for a cycle has one through the digest the error names, and the
    walk never exhausts its fuel. *)
Theorem NewInventory_cycle_check repository manifests :
  match NewInventory repository manifests with
  | Ok inv => ∀ d, ¬ tc (snapshot_attaches manifests) d d
  | Err e =>
      inve_reason e ≠ InvFuel ∧
      ∀ path, inve_reason e = InvSubjectCycle path →
        tc (snapshot_attaches manifests) (inve_digest e) (inve_digest e)
  end.
Proof.
  destruct (NewInventory repository manifests) as [inv|e] eqn:H.
  - intros d Hd. apply (NewInventory_attaches _ _ _ _ _ H) in Hd as Hd'.
    destruct (sn_tc_irrefl (inv_byDigest inv) d) with (2 := Hd'). apply NewInventory_wf in H.
    apply (wf_acyclic _ H). by eapply tc_attaches_live.
  - unfold NewInventory in H. destruct (String.eqb repository ""); [by simplify_eq|].
    destruct (foldM add_manifest _ _) as [[[byDigest ms] owner]|e'] eqn:Ha; simpl in H.
    + destruct (buildEdges _ _) as [edges|e'] eqn:He; simpl in H.
      { by destruct (buildSelectable _ _ _) as [[? ?] ?]. }
      simplify_eq. eapply buildEdges_err in He as [[path Hr] Hc]; [|done].
      rewrite Hr. split; [done|]. intros _ _. by eapply tc_attaches_snapshot.
    + simplify_eq. apply added_err in Ha as [? Hp]. split; [done|]. by intros path ?%Hp.
Qed.

Definition img (d subject : string) (tags : list Tag) (children : list string) : Manifest :=
  mkManifest d tags 1 0 0 10 children subject.

Example cycle_refused :
  NewInventory "r" [img "a" "b" [] []; img "b" "a" [] []] =
  Err (inventoryErr "a" (InvSubjectCycle ["a"; "b"])).
Proof. vm_compute. reflexivity. Qed.

(** The selectable set is exactly what the safety argument says it is: a
    manifest is selectable when and only when it is in the snapshot, none of its
    tags is protected or immutable, no manifest of the snapshot lists it as a
    child, and its subject is not in the snapshot; any other manifest of the
    snapshot has at least one recorded exclusion. *)
Theorem selectable_exact repository manifests inv m
  (H : NewInventory repository manifests = Ok inv) (Hm : m ∈ inv_manifests inv) :
  (m ∈ inv_selectable inv ↔
     Forall (λ t, t_protected t = false ∧ t_immutable t = false) (m_tags m) ∧
     (∀ p, p ∈ inv_manifests inv → m_digest m ∉ m_children p) ∧
     ∀ s, s ∈ inv_manifests inv → m_digest s ≠ m_subject m) ∧
  (m ∈ inv_selectable inv ↔ ExclusionsFor inv (m_digest m) = []).
Proof.
  apply NewInventory_wf in H as Hwf.
  assert (inv_byDigest inv !! m_digest m = Some m) as Hl by by apply (wf_lookup _ Hwf).
  assert (m ∈ inv_selectable inv ↔
    exclusion_reasons (inv_byDigest inv) (inv_indexParents inv) m = []) as Hs.
  { rewrite (wf_selectable _ Hwf), list_elem_of_filter. naive_solver. }
  split; [|by rewrite (wf_exclusions _ Hwf), Hl, Hs].
  rewrite Hs, exclusion_reasons_nil.
  assert (default [] (inv_indexParents inv !! m_digest m) = [] ↔
    ∀ p, p ∈ inv_manifests inv → m_digest m ∉ m_children p) as ->.
  { change (IndexParents inv (m_digest m) = [] ↔ ∀ p, p ∈ inv_manifests inv → m_digest m ∉ m_children p).
    split.
    - intros Hn p Hp Hc. assert (m_digest p ∈ IndexParents inv (m_digest m)) as Hi.
      { apply (wf_parents _ Hwf). split; [by exists m|]. exists p. split; [by apply (wf_lookup _ Hwf)|done]. }
      rewrite Hn in Hi. by apply not_elem_of_nil in Hi.
    - intros Hp. destruct (IndexParents inv (m_digest m)) as [|p ps] eqn:He; [done|].
      assert (p ∈ IndexParents inv (m_digest m)) as Hi by (rewrite He; by left).
      apply (wf_parents _ Hwf) in Hi as (_ & q & [Hq _]%(wf_lookup _ Hwf) & Hc). by destruct (Hp q). }
  assert (m_subject m = "" ∨ inv_byDigest inv !! m_subject m = None ↔
    ∀ s, s ∈ inv_manifests inv → m_digest s ≠ m_subject m) as ->; [|done].
  split.
  - intros [He|Hn] s Hsm Heq.
    + by apply (wf_digest _ Hwf s Hsm); congruence.
    + assert (inv_byDigest inv !! m_subject m = Some s); [|congruence].
      apply (wf_lookup _ Hwf). done.
  - intros Hall. right. apply eq_None_not_Some. intros [s [Hsm Heq]%(wf_lookup _ Hwf)]. by apply (Hall s).
Qed.

Definition example_snapshot : list Manifest :=
  [img "idx" "" [mkTag "v1" false false] ["amd"];
   img "amd" "" [] [];
   img "sbom" "old" [] [];
   img "old" "" [mkTag "dev" false false] [];
   img "sig" "sbom" [] [];
   img "keep" "" [mkTag "prod" true false] []].

Lemma selectable_exact_witness :
  let inv := match NewInventory "team/app" example_snapshot with
             | Ok inv => inv | Err _ => mkInventory "" [] [] [] ∅ ∅ ∅ ∅ end in
  m_digest <$> inv_selectable inv = ["idx"; "old"] ∧
  (img "old" "" [mkTag "dev" false false] [] ∈ inv_selectable inv ↔ ExclusionsFor inv "old" = []).
Proof.
  split; [vm_compute; reflexivity|].
  apply (selectable_exact "team/app" example_snapshot _ (img "old" "" [mkTag "dev" false false] [])).
  - vm_compute; reflexivity.
  - vm_compute. do 3 right. left.
Defined.

(** [ReferrerSubtree] is the cascade: for a manifest of the snapshot the
    breadth-first search terminates within its fuel and returns, sorted and
    without repeats, exactly the manifests that attach to it transitively; the
    manifest itself is never in its own cascade. *)
Theorem ReferrerSubtree_is_cascade repository manifests inv d
  (H : NewInventory repository manifests = Ok inv) (Hd : live (inv_byDigest inv) d) :
  is_Some (bfs (bfs_fuel inv) inv {[d]} [] [d]) ∧
  StronglySorted String.le (ReferrerSubtree inv d) ∧ NoDup (ReferrerSubtree inv d) ∧
  (∀ x, x ∈ ReferrerSubtree inv d ↔ tc (snapshot_attaches manifests) x d) ∧
  d ∉ ReferrerSubtree inv d.
Proof.
  apply NewInventory_wf in H as Hwf.
  destruct (bfs_result inv Hwf d Hd) as (res & Hb & _). rewrite Hb.
  destruct (ReferrerSubtree_spec inv d Hwf Hd) as [Hnd He].
  split_and!; [by eauto| |done|..].
  - unfold ReferrerSubtree. rewrite Hb. simpl. apply (sort_on_sorted String.le id).
  - intros x. rewrite He. symmetry. by apply (NewInventory_attaches _ _ _ _ _ H).
  - rewrite He. apply sn_tc_irrefl. by apply (wf_acyclic _ Hwf).
Qed.

Lemma ReferrerSubtree_is_cascade_witness :
  let inv := match NewInventory "team/app" example_snapshot with
             | Ok inv => inv | Err _ => mkInventory "" [] [] [] ∅ ∅ ∅ ∅ end in
  ReferrerSubtree inv "old" = ["sbom"; "sig"] ∧ "old" ∉ ReferrerSubtree inv "old".
Proof.
  split; [vm_compute; reflexivity|].
  refine (proj2 (proj2 (proj2 (proj2 (ReferrerSubtree_is_cascade "team/app" example_snapshot _ "old" _ _))))).
  - vm_compute; reflexivity.
  - eexists. vm_compute; reflexivity.
Defined.
