(* ===== verification/Retention.v ===== *)
(** * Retention rules, evaluation and the plan
    (src/internal/policy: retention.go, plan.go)

    [Evaluate] is the pure function whose output an operator approves before
    content that cannot be re-fetched is deleted. Tag patterns are compiled by
    package regexp; the compiler is a parameter [regexp_compile] of the rule
    set (from the anchored pattern text to a matcher, or [None] when it does not
    parse), so everything below holds for any engine. *)
From S2P Require Import Prelude Inventory.

(** ** Rules *)
Definition TagStatus_Valid (s : string) : bool :=
  String.eqb s AnyTags || String.eqb s Tagged || String.eqb s Untagged.

Definition SelectMatched := "select-matched".
Definition KeepLastN := "keep-last-n".
Definition KeepNewerThan := "keep-newer-than".
Definition KeepIfPulledSince := "keep-if-pulled-since".

Definition RuleKind_Valid (k : string) : bool :=
  String.eqb k SelectMatched || String.eqb k KeepLastN ||
  String.eqb k KeepNewerThan || String.eqb k KeepIfPulledSince.

Record Rule : Type := mkRule {
  rl_name : string;
  rl_priority : Z;
  rl_kind : string;
  rl_n : Z;
  rl_age : Z;
  rl_tagStatus : string;
  rl_includeTags : list string;
  rl_excludeTags : list string;
}.

(** A rule with its patterns compiled. *)
Record compiledRule : Type := mkCompiled {
  cr_rule : Rule;
  cr_include : list (string → bool);
  cr_exclude : list (string → bool);
}.

Record RuleSet : Type := mkRuleSet { rs_rules : list compiledRule }.

Inductive RuleReason : Type :=
| RuleUnnamed (position : nat)
| RuleDuplicateName
| RuleUnknownKind
| RuleUnknownTagStatus
| RuleNegativeCount
| RuleUnreadAge
| RuleNonPositiveAge
| RuleUnreadCount
| RuleEmptyPattern (field : string)
| RuleBadPattern (field pattern : string).

Record RuleError : Type := ruleErr { re_rule : string; re_reason : RuleReason }.

Definition validateKindFields (rule : Rule) : result RuleError unit :=
  if String.eqb (rl_kind rule) KeepLastN then
    if (rl_n rule <? 0)%Z then Err (ruleErr (rl_name rule) RuleNegativeCount)
    else if negb (rl_age rule =? 0)%Z then Err (ruleErr (rl_name rule) RuleUnreadAge)
    else Ok tt
  else if String.eqb (rl_kind rule) KeepNewerThan || String.eqb (rl_kind rule) KeepIfPulledSince then
    if (rl_age rule <=? 0)%Z then Err (ruleErr (rl_name rule) RuleNonPositiveAge)
    else if negb (rl_n rule =? 0)%Z then Err (ruleErr (rl_name rule) RuleUnreadCount)
    else Ok tt
  else
    if negb (rl_n rule =? 0)%Z then Err (ruleErr (rl_name rule) RuleUnreadCount)
    else if negb (rl_age rule =? 0)%Z then Err (ruleErr (rl_name rule) RuleUnreadAge)
    else Ok tt.

Section regexp.
Context (regexp_compile : string → option (string → bool)).

Definition compilePatterns (rule field : string) (patterns : list string)
    : result RuleError (list (string → bool)) :=
  foldM (λ compiled pattern,
    if String.eqb pattern "" then Err (ruleErr rule (RuleEmptyPattern field))
    else match regexp_compile ("\A(?:" +:+ pattern +:+ ")\z") with
    | None => Err (ruleErr rule (RuleBadPattern field pattern))
    | Some re => Ok (compiled ++ [re])
    end) [] patterns.

(** One iteration of [CompileRules]: the position, the names seen, the rules
    compiled so far. *)
Definition compile_step (st : nat * gset string * list compiledRule) (rule : Rule)
    : result RuleError (nat * gset string * list compiledRule) :=
  let '(position, names, rules) := st in
  if String.eqb (rl_name rule) "" then Err (ruleErr "" (RuleUnnamed position))
  else if bool_decide (rl_name rule ∈ names) then Err (ruleErr (rl_name rule) RuleDuplicateName)
  else if negb (RuleKind_Valid (rl_kind rule)) then Err (ruleErr (rl_name rule) RuleUnknownKind)
  else if negb (TagStatus_Valid (rl_tagStatus rule)) then Err (ruleErr (rl_name rule) RuleUnknownTagStatus)
  else
    check! validateKindFields rule in
    let! include := compilePatterns (rl_name rule) "include_tags" (rl_includeTags rule) in
    let! exclude := compilePatterns (rl_name rule) "exclude_tags" (rl_excludeTags rule) in
    Ok (S position, {[rl_name rule]} ∪ names, rules ++ [mkCompiled rule include exclude]).

Definition CompileRules (rules : list Rule) : result RuleError RuleSet :=
  let! st := foldM compile_step (0, ∅, []) rules in
  Ok (mkRuleSet st.2).
End regexp.

(** ** Matching and keeping *)
Definition any_tag_matches (patterns : list (string → bool)) (m : Manifest) : bool :=
  existsb (λ tag, existsb (λ re, re (t_name tag)) patterns) (m_tags m).

Definition matches (r : compiledRule) (m : Manifest) : bool :=
  if String.eqb (rl_tagStatus (cr_rule r)) Tagged && negb (String.eqb (Status m) Tagged) then false
  else if String.eqb (rl_tagStatus (cr_rule r)) Untagged && negb (String.eqb (Status m) Untagged) then false
  else if any_tag_matches (cr_exclude r) m then false
  else match cr_include r with
  | [] => true
  | _ :: _ => any_tag_matches (cr_include r) m
  end.

(** Newest push first, ties broken by digest. *)
Definition newest_first (a b : Z * string) : Prop :=
  (b.1 < a.1)%Z ∨ (a.1 = b.1 ∧ String.le a.2 b.2).

#[export] Instance newest_first_dec : RelDecision newest_first.
Proof. intros a b. unfold newest_first. apply _. Defined.

Definition push_rank (m : Manifest) : Z * string := (m_pushedAt m, m_digest m).

Definition rank_newest (ms : list Manifest) : list Manifest := sort_on newest_first push_rank ms.

(** The digests a rule saves out of the manifests it matched. *)
Definition keeps (r : compiledRule) (matched : list Manifest) (now : Z) : gset string :=
  let rule := cr_rule r in
  if String.eqb (rl_kind rule) KeepLastN then
    list_to_set (m_digest <$> take (Z.to_nat (rl_n rule)) (rank_newest matched))
  else if String.eqb (rl_kind rule) KeepNewerThan then
    let cutoff := (now - rl_age rule)%Z in
    list_to_set (m_digest <$> filter (λ m, (cutoff < m_pushedAt m)%Z) matched)
  else if String.eqb (rl_kind rule) KeepIfPulledSince then
    let cutoff := (now - rl_age rule)%Z in
    let reference m := if (m_lastPulledAt m =? 0)%Z then m_pushedAt m else m_lastPulledAt m in
    list_to_set (m_digest <$> filter (λ m, (cutoff < reference m)%Z) matched)
  else ∅.

(** ** Opinions and verdicts *)
Record opinion : Type := mkOpinion { o_rule : string; o_priority : Z; o_kind : string; o_keep : bool }.

Record Conflict : Type := mkConflict {
  c_digest : string; c_priority : Z; c_selecting : list string; c_keeping : list string;
}.

Record verdict : Type := mkVerdict {
  v_applicable : bool;
  v_keep : bool;
  v_rule : string;
  v_kind : string;
  v_priority : Z;
  v_agreeing : list string;
}.

(** The zero verdict: no rule had an opinion. *)
Definition no_verdict : verdict := mkVerdict false false "" "" 0 [].

Definition best_priority (first : opinion) (rest : list opinion) : Z :=
  foldl (λ best o, if (o_priority o <? best)%Z then o_priority o else best) (o_priority first) rest.

Definition resolve (digest : string) (opinions : list opinion) : verdict + Conflict :=
  match opinions with
  | [] => inl no_verdict
  | first :: rest =>
      let best := best_priority first rest in
      let tier := filter (λ o, o_priority o = best) opinions in
      let kinds : gmap string string := foldl (λ kinds o, <[o_rule o := o_kind o]> kinds) ∅ tier in
      let keeping := sort_strings (o_rule <$> filter (λ o, o_keep o = true) tier) in
      let selecting := sort_strings (o_rule <$> filter (λ o, o_keep o = false) tier) in
      match selecting, keeping with
      | _ :: _, _ :: _ => inr (mkConflict digest best selecting keeping)
      | _, _ =>
          let '(deciders, keep) :=
            match keeping with [] => (selecting, false) | _ :: _ => (keeping, true) end in
          match deciders with
          | [] => inl no_verdict (* unreachable: the best tier is not empty *)
          | rule :: agreeing =>
              inl (mkVerdict true keep rule (default "" (kinds !! rule)) best agreeing)
          end
      end
  end.

(** One rule's contribution to the opinion map. *)
Definition rule_opinions (inv : Inventory) (now : Z)
    (opinions : gmap string (list opinion)) (rule : compiledRule) : gmap string (list opinion) :=
  let matched := filter (λ m, matches rule m = true) (inv_selectable inv) in
  let kept := keeps rule matched now in
  foldl (λ opinions m,
    <[m_digest m := default [] (opinions !! m_digest m) ++
        [mkOpinion (rl_name (cr_rule rule)) (rl_priority (cr_rule rule)) (rl_kind (cr_rule rule))
           (bool_decide (m_digest m ∈ kept))]]> opinions) opinions matched.

Definition decide_step (opinions : gmap string (list opinion))
    (st : gmap string verdict * list Conflict) (m : Manifest) : gmap string verdict * list Conflict :=
  let '(verdicts, conflicts) := st in
  match resolve (m_digest m) (default [] (opinions !! m_digest m)) with
  | inr conflict => (verdicts, conflicts ++ [conflict])
  | inl decided => (<[m_digest m := decided]> verdicts, conflicts)
  end.

(** ** The plan (plan.go) *)
Record Referrer : Type := mkReferrer {
  rf_digest : string; rf_subject : string; rf_size : Z; rf_artifactTags : list string;
}.

Record Entry : Type := mkEntry {
  e_digest : string;
  e_tags : list string;
  e_size : Z;
  e_rule : string;
  e_ruleKind : string;
  e_priority : Z;
  e_alsoSelectedBy : list string;
  e_referrers : list Referrer;
}.

Definition Entry_TotalSize (e : Entry) : Z :=
  foldl (λ total r, add64 total (rf_size r)) (e_size e) (e_referrers e).

Record BlockedEntry : Type := mkBlocked {
  bl_digest : string;
  bl_tags : list string;
  bl_rule : string;
  bl_ruleKind : string;
  bl_priority : Z;
  bl_referrer : string;
  bl_blocker : Exclusion;
}.

Inductive KeptReason : Type := KeptByRule | KeptNoRuleApplies | KeptNotSelectable.

#[export] Instance KeptReason_eq_dec : EqDecision KeptReason.
Proof. solve_decision. Defined.

Record KeptEntry : Type := mkKept {
  k_digest : string;
  k_tags : list string;
  k_reason : KeptReason;
  k_rule : string;
  k_ruleKind : string;
  k_priority : Z;
  k_alsoKeptBy : list string;
  k_exclusions : list Exclusion;
}.

Record Plan : Type := mkPlan {
  p_repository : string;
  p_evaluatedAt : Z;
  p_selected : list Entry;
  p_blocked : list BlockedEntry;
  p_kept : list KeptEntry;
}.

Definition Digests (p : Plan) : list string :=
  sort_strings (foldl (λ out e, out ++ e_digest e :: (rf_digest <$> e_referrers e)) [] (p_selected p)).

Definition Plan_Empty (p : Plan) : bool := match p_selected p with [] => true | _ :: _ => false end.

Record Summary : Type := mkSummary {
  s_manifests : Z; s_selected : Z; s_cascaded : Z; s_blocked : Z; s_kept : Z; s_bytes : Z;
  s_keptBecause : list (KeptReason * Z);
}.

Definition Plan_Summary (p : Plan) : Summary :=
  let selected := Z.of_nat (length (p_selected p)) in
  let blocked := Z.of_nat (length (p_blocked p)) in
  let kept := Z.of_nat (length (p_kept p)) in
  let '(cascaded, bytes) :=
    foldl (λ '(cascaded, bytes) e,
      (add64 cascaded (Z.of_nat (length (e_referrers e))), add64 bytes (Entry_TotalSize e)))
      (0%Z, 0%Z) (p_selected p) in
  let count reason := Z.of_nat (length (filter (λ k, k_reason k = reason) (p_kept p))) in
  mkSummary (add64 (add64 (add64 selected cascaded) blocked) kept) selected cascaded blocked kept bytes
    (foldl (λ out reason, if (0 <? count reason)%Z then out ++ [(reason, count reason)] else out)
       [] [KeptByRule; KeptNoRuleApplies; KeptNotSelectable]).

(** The first exclusion of a digest other than being attached. *)
Fixpoint firstProtectedReferrer (inv : Inventory) (subtree : list string) : option (string * Exclusion) :=
  match subtree with
  | [] => None
  | digest :: subtree =>
      match list_find (λ ex, ex_reason ex ≠ ExcludedLiveSubject) (ExclusionsFor inv digest) with
      | Some (_, exclusion) => Some (digest, exclusion)
      | None => firstProtectedReferrer inv subtree
      end
  end.

Definition keptEntry (inv : Inventory) (m : Manifest) (decided : verdict) : KeptEntry :=
  match ExclusionsFor inv (m_digest m) with
  | (_ :: _) as exclusions => mkKept (m_digest m) (TagNames m) KeptNotSelectable "" "" 0 [] exclusions
  | [] =>
      if negb (v_applicable decided) then mkKept (m_digest m) (TagNames m) KeptNoRuleApplies "" "" 0 [] []
      else mkKept (m_digest m) (TagNames m) KeptByRule (v_rule decided) (v_kind decided)
             (v_priority decided) (v_agreeing decided) []
  end.

(** The zero manifest, what a failed [Lookup] yields in Go. *)
Definition no_manifest : Manifest := mkManifest "" [] 0 0 0 0 [] "".

Definition cascade_referrer (inv : Inventory) (digest : string) : Referrer :=
  let attached := default no_manifest (Lookup inv digest) in
  mkReferrer digest (m_subject attached) (m_size attached) (TagNames attached).

(** The loop state of [buildPlan]: the entries and blocked entries so far, and
    the digests that die as attachments, are selected, or are blocked. *)
Record plan_state : Type := mkPlanState {
  ps_selected : list Entry;
  ps_blocked : list BlockedEntry;
  ps_cascading : gset string;
  ps_selectedSet : gset string;
  ps_blockedSet : gset string;
}.

Definition plan_step (inv : Inventory) (verdicts : gmap string verdict) (st : plan_state) (m : Manifest) : plan_state :=
  let decided := default no_verdict (verdicts !! m_digest m) in
  if negb (v_applicable decided) || v_keep decided then st
  else
    let subtree := ReferrerSubtree inv (m_digest m) in
    match firstProtectedReferrer inv subtree with
    | Some (pinned, blocker) =>
        mkPlanState (ps_selected st)
          (ps_blocked st ++ [mkBlocked (m_digest m) (TagNames m) (v_rule decided) (v_kind decided)
             (v_priority decided) pinned blocker])
          (ps_cascading st) (ps_selectedSet st) ({[m_digest m]} ∪ ps_blockedSet st)
    | None =>
        mkPlanState
          (ps_selected st ++ [mkEntry (m_digest m) (TagNames m) (m_size m) (v_rule decided)
             (v_kind decided) (v_priority decided) (v_agreeing decided)
             (cascade_referrer inv <$> subtree)])
          (ps_blocked st)
          (list_to_set subtree ∪ ps_cascading st) ({[m_digest m]} ∪ ps_selectedSet st) (ps_blockedSet st)
    end.

Definition gone (st : plan_state) (d : string) : bool :=
  bool_decide (d ∈ ps_selectedSet st) || bool_decide (d ∈ ps_cascading st) || bool_decide (d ∈ ps_blockedSet st).

Definition buildPlan (inv : Inventory) (verdicts : gmap string verdict) (now : Z) : Plan :=
  let st := foldl (plan_step inv verdicts) (mkPlanState [] [] ∅ ∅ ∅) (inv_selectable inv) in
  let kept := foldl (λ kept m,
    if negb (gone st (m_digest m))
    then kept ++ [keptEntry inv m (default no_verdict (verdicts !! m_digest m))] else kept)
    [] (inv_manifests inv) in
  mkPlan (inv_repository inv) now (ps_selected st) (ps_blocked st) kept.

(** ** Evaluate *)
Inductive EvaluateError : Type :=
| ErrNoInventory
| ErrNoEvaluationTime
| ErrConflict (conflicts : list Conflict).

Definition gather_opinions (inv : Inventory) (rules : RuleSet) (now : Z) : gmap string (list opinion) :=
  foldl (rule_opinions inv now) ∅ (rs_rules rules).

Definition Evaluate (inv : option Inventory) (rules : RuleSet) (now : Z) : result EvaluateError Plan :=
  match inv with
  | None => Err ErrNoInventory
  | Some inv =>
      if (now =? 0)%Z then Err ErrNoEvaluationTime
      else
        let opinions := gather_opinions inv rules now in
        let '(verdicts, conflicts) := foldl (decide_step opinions) (∅, []) (inv_selectable inv) in
        match conflicts with
        | _ :: _ => Err (ErrConflict conflicts)
        | [] => Ok (buildPlan inv verdicts now)
        end
  end.
