(* ===== verification/RetentionFacts.v ===== *)
(** * Lemmas on retention plans

    The loop of [buildPlan] read as filters over the selectable set, the
    partition of a snapshot by a plan, the opinions the rules form on a
    manifest and how [resolve] settles them. The properties proved from these
    are in RetentionSpec.v. *)
From S2P Require Import Prelude Inventory Retention.

(** ** The plan as filters over the selectable set *)
Section plan.
Context (inv : Inventory) (verdicts : gmap string verdict).

Definition verdict_of (m : Manifest) : verdict := default no_verdict (verdicts !! m_digest m).

(** The rules selected the manifest. *)
Definition selects (m : Manifest) : Prop :=
  v_applicable (verdict_of m) = true ∧ v_keep (verdict_of m) = false.

Definition blocker_of (m : Manifest) : option (string * Exclusion) :=
  firstProtectedReferrer inv (ReferrerSubtree inv (m_digest m)).

Definition chosen (m : Manifest) : Prop := selects m ∧ blocker_of m = None.
Definition refused (m : Manifest) : Prop := selects m ∧ blocker_of m ≠ None.

#[export] Instance selects_dec m : Decision (selects m).
Proof. unfold selects. apply _. Defined.
#[export] Instance chosen_dec m : Decision (chosen m).
Proof. unfold chosen. destruct (blocker_of m) eqn:H.
  - right. by intros [_ ?].
  - destruct (decide (selects m)); [left|right]; naive_solver.
Defined.
#[export] Instance refused_dec m : Decision (refused m).
Proof. unfold refused. destruct (blocker_of m) eqn:H.
  - destruct (decide (selects m)); [left|right]; naive_solver.
  - right. by intros [_ ?].
Defined.

Definition entry_of (m : Manifest) : Entry :=
  mkEntry (m_digest m) (TagNames m) (m_size m) (v_rule (verdict_of m)) (v_kind (verdict_of m))
    (v_priority (verdict_of m)) (v_agreeing (verdict_of m))
    (cascade_referrer inv <$> ReferrerSubtree inv (m_digest m)).

(** The entry of a manifest an attachment holds back. *)
Definition blocked_of (m : Manifest) : BlockedEntry :=
  let '(pinned, blocker) := default ("", mkExclusion "" ExcludedLiveSubject "") (blocker_of m) in
  mkBlocked (m_digest m) (TagNames m) (v_rule (verdict_of m)) (v_kind (verdict_of m)) (v_priority (verdict_of m)) pinned blocker.

Lemma blocked_of_digest m : bl_digest (blocked_of m) = m_digest m.
Proof. unfold blocked_of. by destruct (default _ (blocker_of m)). Qed.

(** What the loop of [buildPlan] has accumulated after a list of manifests. *)
Record plan_loop (ms : list Manifest) (st : plan_state) : Prop := {
  pl_selected : ps_selected st = entry_of <$> filter chosen ms;
  pl_blocked : ps_blocked st = blocked_of <$> filter refused ms;
  pl_selectedSet d : d ∈ ps_selectedSet st ↔ ∃ m, m ∈ ms ∧ chosen m ∧ d = m_digest m;
  pl_cascading d :
    d ∈ ps_cascading st ↔ ∃ m, m ∈ ms ∧ chosen m ∧ d ∈ ReferrerSubtree inv (m_digest m);
  pl_blockedSet d : d ∈ ps_blockedSet st ↔ ∃ m, m ∈ ms ∧ refused m ∧ d = m_digest m;
}.

Lemma plan_step_loop ms st m :
  plan_loop ms st → plan_loop (ms ++ [m]) (plan_step inv verdicts st m).
Proof.
  intros [Hs Hb Hss Hc Hbs]. unfold plan_step. fold (verdict_of m).
  destruct (decide (selects m)) as [Hsel|Hsel].
  - destruct Hsel as [Ha Hk]. rewrite Ha, Hk. simpl. fold (blocker_of m).
    destruct (blocker_of m) as [[pinned blocker]|] eqn:Hbl.
    + assert (refused m) as Hr by (by unfold refused, selects; rewrite Hbl).
      assert (¬ chosen m) as Hnc by (by unfold chosen; rewrite Hbl; intros [_ ?]).
      split; simpl.
      * rewrite filter_app, filter_cons_False, filter_nil, app_nil_r; done.
      * rewrite filter_app, filter_cons_True, fmap_app by done. rewrite Hb. f_equal. csimpl. unfold blocked_of. by rewrite Hbl.
      * intros d. rewrite ex_snoc, Hss. naive_solver.
      * intros d. rewrite ex_snoc, Hc. naive_solver.
      * intros d. rewrite ex_snoc, elem_of_union, elem_of_singleton, Hbs. naive_solver.
    + assert (chosen m) as Hch by (by unfold chosen, selects).
      assert (¬ refused m) as Hnr by (unfold refused; rewrite Hbl; by intros [_ ?]).
      split; simpl.
      * rewrite filter_app, filter_cons_True, fmap_app by done. by rewrite Hs.
      * rewrite filter_app, filter_cons_False, filter_nil, app_nil_r; done.
      * intros d. rewrite ex_snoc, elem_of_union, elem_of_singleton, Hss. naive_solver.
      * intros d. rewrite ex_snoc, elem_of_union, elem_of_list_to_set, Hc. naive_solver.
      * intros d. rewrite ex_snoc, Hbs. naive_solver.
  - replace (negb (v_applicable (verdict_of m)) || v_keep (verdict_of m)) with true
      by (unfold selects in Hsel; destruct (v_applicable _), (v_keep _); naive_solver).
    assert (¬ chosen m ∧ ¬ refused m) as [Hnc Hnr] by (unfold chosen, refused; tauto).
    split.
    * rewrite filter_app, filter_cons_False, filter_nil, app_nil_r; done.
    * rewrite filter_app, filter_cons_False, filter_nil, app_nil_r; done.
    * intros d. rewrite ex_snoc, Hss. naive_solver.
    * intros d. rewrite ex_snoc, Hc. naive_solver.
    * intros d. rewrite ex_snoc, Hbs. naive_solver.
Qed.

Lemma plan_steps_loop ms0 ms st :
  plan_loop ms0 st → plan_loop (ms0 ++ ms) (foldl (plan_step inv verdicts) st ms).
Proof.
  revert ms0 st. induction ms as [|m ms IH]; intros ms0 st H; simpl; [by rewrite app_nil_r|].
  rewrite cons_middle, (assoc_L (++)). apply IH. by apply plan_step_loop.
Qed.

Lemma plan_loop_init : plan_loop [] (mkPlanState [] [] ∅ ∅ ∅).
Proof. split; simpl; try done; intros d; set_solver. Qed.

Definition plan_end : plan_state :=
  foldl (plan_step inv verdicts) (mkPlanState [] [] ∅ ∅ ∅) (inv_selectable inv).

Lemma plan_end_loop : plan_loop (inv_selectable inv) plan_end.
Proof. apply (plan_steps_loop [] (inv_selectable inv)), plan_loop_init. Qed.

(** ** Who is in the cascade of whom *)
Context (Hwf : inventory_wf inv).

Lemma selectable_in m : m ∈ inv_selectable inv → m ∈ inv_manifests inv.
Proof. rewrite (wf_selectable _ Hwf), list_elem_of_filter. tauto. Qed.

Lemma selectable_live m : m ∈ inv_selectable inv → inv_byDigest inv !! m_digest m = Some m.
Proof. intros Hm%selectable_in. by apply (wf_lookup _ Hwf). Qed.

Lemma selectable_no_live_subject m s :
  m ∈ inv_selectable inv → attaches (inv_byDigest inv) (m_digest m) s → ¬ live (inv_byDigest inv) s.
Proof.
  intros Hm (m' & Hm' & <- & Hne) Hl. rewrite (selectable_live m Hm) in Hm'. simplify_eq.
  rewrite (wf_selectable _ Hwf), list_elem_of_filter, exclusion_reasons_nil in Hm.
  destruct Hm as [(_ & _ & [?|Hn]) _]; [done|]. unfold live in Hl. rewrite Hn in Hl. by destruct Hl.
Qed.

(** A selectable manifest is attached to nothing in the snapshot. *)
Lemma selectable_not_attached m d :
  m ∈ inv_selectable inv → live (inv_byDigest inv) d → ¬ tc (attaches (inv_byDigest inv)) (m_digest m) d.
Proof.
  intros Hm Hd Ht. inversion Ht as [? ? Hs|? s ? Hs Ht']; subst.
  - exact (selectable_no_live_subject m _ Hm Hs Hd).
  - apply (selectable_no_live_subject m _ Hm Hs). by eapply tc_attaches_live.
Qed.

Lemma subtree_spec m x :
  m ∈ inv_selectable inv →
  x ∈ ReferrerSubtree inv (m_digest m) ↔ tc (attaches (inv_byDigest inv)) x (m_digest m).
Proof.
  intros Hm. apply ReferrerSubtree_spec; [done|]. eexists. by apply selectable_live.
Qed.

Lemma attaches_linear x a b :
  tc (attaches (inv_byDigest inv)) x a → tc (attaches (inv_byDigest inv)) x b →
  a = b ∨ tc (attaches (inv_byDigest inv)) a b ∨ tc (attaches (inv_byDigest inv)) b a.
Proof.
  intros Ha. revert b. induction Ha as [x a Hxa|x y a Hxy Ha IH]; intros b Hb;
    destruct Hb as [? b Hxb|? z b Hxz Hb].
  - left. by eapply attaches_fun.
  - rewrite (attaches_fun _ _ _ _ Hxa Hxz). auto.
  - rewrite (attaches_fun _ _ _ _ Hxb Hxy). auto.
  - apply IH. by rewrite (attaches_fun _ _ _ _ Hxy Hxz).
Qed.

(** Cascades of different selectable manifests are disjoint. *)
Lemma subtrees_disjoint m1 m2 x :
  m1 ∈ inv_selectable inv → m2 ∈ inv_selectable inv →
  x ∈ ReferrerSubtree inv (m_digest m1) → x ∈ ReferrerSubtree inv (m_digest m2) → m1 = m2.
Proof.
  intros H1 H2. rewrite !subtree_spec by done. intros Hx1 Hx2.
  pose proof (selectable_live _ H1) as Hl1. pose proof (selectable_live _ H2) as Hl2.
  destruct (attaches_linear _ _ _ Hx1 Hx2) as [He|[He|He]].
  - congruence.
  - exfalso. eapply (selectable_not_attached m1); [done| |done]. by eexists.
  - exfalso. eapply (selectable_not_attached m2); [done| |done]. by eexists.
Qed.

(** No selectable manifest is in a cascade. *)
Lemma subtree_not_selectable m m' :
  m ∈ inv_selectable inv → m' ∈ inv_selectable inv → m_digest m' ∉ ReferrerSubtree inv (m_digest m).
Proof.
  intros Hm Hm'. rewrite subtree_spec by done. apply selectable_not_attached; [done|].
  eexists. by apply selectable_live.
Qed.

Lemma subtree_in_snapshot m x :
  m ∈ inv_selectable inv → x ∈ ReferrerSubtree inv (m_digest m) → x ∈ m_digest <$> inv_manifests inv.
Proof.
  intros Hm. rewrite subtree_spec by done. intros [m' [Hm' <-]%(wf_lookup _ Hwf)]%tc_attaches_live.
  by apply list_elem_of_fmap_2.
Qed.

(** *** The plan's lists *)
Lemma buildPlan_kept now :
  p_kept (buildPlan inv verdicts now) =
  (λ m, keptEntry inv m (verdict_of m)) <$>
    filter (λ m, negb (gone plan_end (m_digest m)) = true) (inv_manifests inv).
Proof.
  unfold buildPlan. simpl. fold plan_end.
  by rewrite (foldl_append_if (λ m, negb (gone plan_end (m_digest m)))).
Qed.

Lemma gone_iff d :
  gone plan_end d = true ↔
  ∃ m, m ∈ inv_selectable inv ∧
    ((chosen m ∨ refused m) ∧ d = m_digest m ∨ chosen m ∧ d ∈ ReferrerSubtree inv (m_digest m)).
Proof.
  destruct plan_end_loop as [_ _ Hss Hc Hbs]. unfold gone.
  rewrite !orb_true_iff, !bool_decide_eq_true, Hss, Hc, Hbs. naive_solver.
Qed.

Lemma keptEntry_digest m v : k_digest (keptEntry inv m v) = m_digest m.
Proof. unfold keptEntry. destruct (ExclusionsFor inv (m_digest m)); [|done]. by destruct (negb _). Qed.

Lemma cascade_digests (l : list string) : rf_digest <$> (cascade_referrer inv <$> l) = l.
Proof. rewrite <-list_fmap_compose. apply list_fmap_id. Qed.

Definition cascade_list : list string :=
  filter chosen (inv_selectable inv) ≫= λ m, ReferrerSubtree inv (m_digest m).

(** The four parts of a plan, as digests. *)
Lemma plan_parts now :
  let plan := buildPlan inv verdicts now in
  e_digest <$> p_selected plan = m_digest <$> filter chosen (inv_selectable inv) ∧
  (p_selected plan ≫= λ e, rf_digest <$> e_referrers e) = cascade_list ∧
  bl_digest <$> p_blocked plan = m_digest <$> filter refused (inv_selectable inv) ∧
  k_digest <$> p_kept plan =
    m_digest <$> filter (λ m, negb (gone plan_end (m_digest m)) = true) (inv_manifests inv).
Proof.
  pose proof plan_end_loop as [Hs Hb _ _ _]. cbn [buildPlan p_selected p_blocked]. simpl. fold plan_end.
  split_and!.
  - rewrite Hs, <-list_fmap_compose. done.
  - rewrite Hs. unfold cascade_list. clear Hs Hb.
    induction (filter chosen (inv_selectable inv)) as [|m ms IH]; [done|]. csimpl.
    by rewrite IH, cascade_digests.
  - rewrite Hb, <-list_fmap_compose. apply list_fmap_ext. intros. apply blocked_of_digest.
  - change (foldl _ [] _) with (p_kept (buildPlan inv verdicts now)).
    rewrite buildPlan_kept, <-list_fmap_compose. apply list_fmap_ext. intros. apply keptEntry_digest.
Qed.

Lemma plan_blocked now : p_blocked (buildPlan inv verdicts now) = blocked_of <$> filter refused (inv_selectable inv).
Proof. by destruct plan_end_loop as [_ Hb _ _ _]. Qed.

Lemma selectable_nodup : NoDup (m_digest <$> inv_selectable inv).
Proof. rewrite (wf_selectable _ Hwf). apply NoDup_fmap_filter, Hwf. Qed.

Lemma cascade_nodup : NoDup cascade_list.
Proof.
  apply NoDup_bind.
  - intros m1 m2 x [_ ?]%list_elem_of_filter [_ ?]%list_elem_of_filter. by apply subtrees_disjoint.
  - intros m [_ Hm]%list_elem_of_filter. apply ReferrerSubtree_spec; [done|].
    eexists. by apply selectable_live.
  - apply (NoDup_fmap_1 m_digest), NoDup_fmap_filter, selectable_nodup.
Qed.

(** Every manifest of the snapshot is accounted for exactly once. *)
Lemma plan_partition now :
  let plan := buildPlan inv verdicts now in
  (e_digest <$> p_selected plan) ++ (p_selected plan ≫= λ e, rf_digest <$> e_referrers e) ++
  (bl_digest <$> p_blocked plan) ++ (k_digest <$> p_kept plan) ≡ₚ m_digest <$> inv_manifests inv.
Proof.
  cbv zeta. destruct (plan_parts now) as (-> & -> & -> & ->).
  assert (∀ x, x ∈ cascade_list ↔
    ∃ m, m ∈ inv_selectable inv ∧ chosen m ∧ x ∈ ReferrerSubtree inv (m_digest m)) as Hca.
  { intros x. unfold cascade_list. rewrite list_elem_of_bind. setoid_rewrite list_elem_of_filter. naive_solver. }
  assert (∀ (P : Manifest → Prop) `{!∀ m, Decision (P m)} x,
    x ∈ m_digest <$> filter P (inv_selectable inv) ↔ ∃ m, m ∈ inv_selectable inv ∧ P m ∧ x = m_digest m) as Hfi.
  { intros P ? x. rewrite list_elem_of_fmap. setoid_rewrite list_elem_of_filter. naive_solver. }
  assert (∀ x, x ∈ m_digest <$> filter (λ m, negb (gone plan_end (m_digest m)) = true) (inv_manifests inv) ↔
    x ∈ m_digest <$> inv_manifests inv ∧ gone plan_end x = false) as Hke.
  { intros x. rewrite !list_elem_of_fmap. setoid_rewrite list_elem_of_filter.
    setoid_rewrite negb_true_iff. naive_solver. }
  apply NoDup_Permutation; [|apply Hwf|].
  - apply NoDup_app; split_and!; [apply NoDup_fmap_filter, selectable_nodup| |].
    { intros x (m & Hm & Hc & ->)%Hfi. rewrite !elem_of_app, Hfi, Hca, Hke. intros [H|[H|H]].
      - destruct H as (m' & Hm' & _ & Hx). by apply (subtree_not_selectable m' m) in Hx.
      - destruct H as (m' & Hm' & Hr & Hx). assert (m = m') as <-
          by (eapply (nodup_key_inj m_digest); [apply selectable_nodup|done..]).
        destruct Hc as [_ Hb], Hr as [_ Hr]. done.
      - destruct H as [_ Hg]. apply not_true_iff_false in Hg. apply Hg, gone_iff. eauto 8. }
    apply NoDup_app; split_and!; [apply cascade_nodup| |].
    { intros x (m & Hm & Hc & Hx)%Hca. rewrite elem_of_app, Hfi, Hke. intros [H|H].
      - destruct H as (m' & Hm' & _ & ->). by apply (subtree_not_selectable m m') in Hx.
      - destruct H as [_ Hg]. apply not_true_iff_false in Hg. apply Hg, gone_iff. eauto 8. }
    apply NoDup_app; split_and!; [apply NoDup_fmap_filter, selectable_nodup| |].
    { intros x (m & Hm & Hr & ->)%Hfi. rewrite Hke. intros [_ Hg].
      apply not_true_iff_false in Hg. apply Hg, gone_iff. eauto 8. }
    apply NoDup_fmap_filter, Hwf.
  - intros x. rewrite !elem_of_app, !Hfi, Hca, Hke. split.
    + intros [(m & Hm & _ & ->)|[(m & Hm & _ & Hx)|[(m & Hm & _ & ->)|[? _]]]]; [..|done].
      * by apply list_elem_of_fmap_2, selectable_in.
      * by eapply subtree_in_snapshot.
      * by apply list_elem_of_fmap_2, selectable_in.
    + intros Hx. destruct (gone plan_end x) eqn:Hg; [|by auto].
      apply gone_iff in Hg as (m & Hm & [[[?|?] ->]|[??]]); eauto 8.
Qed.

(** *** What a plan deletes *)
Lemma Digests_elem now d :
  d ∈ Digests (buildPlan inv verdicts now) ↔
  ∃ m, m ∈ inv_selectable inv ∧ chosen m ∧ (d = m_digest m ∨ d ∈ ReferrerSubtree inv (m_digest m)).
Proof.
  unfold Digests. rewrite sort_strings_elem.
  pose proof plan_end_loop as [Hs _ _ _ _]. cbn [buildPlan p_selected]. simpl. fold plan_end. rewrite Hs.
  assert (∀ acc ms, d ∈ foldl (λ out e, out ++ e_digest e :: (rf_digest <$> e_referrers e)) acc (entry_of <$> ms) ↔
    d ∈ acc ∨ ∃ m, m ∈ ms ∧ (d = m_digest m ∨ d ∈ ReferrerSubtree inv (m_digest m))) as H.
  { intros acc ms. revert acc. induction ms as [|m ms IH]; intros acc; simpl; [set_solver|].
    rewrite IH, elem_of_app, elem_of_cons, cascade_digests.
    setoid_rewrite elem_of_cons. naive_solver. }
  rewrite H. setoid_rewrite list_elem_of_filter. rewrite elem_of_nil. naive_solver.
Qed.

Lemma firstProtected_none subtree x ex :
  firstProtectedReferrer inv subtree = None → x ∈ subtree → ex ∈ ExclusionsFor inv x →
  ex_reason ex = ExcludedLiveSubject.
Proof.
  induction subtree as [|y subtree IH]; simpl; intros H Hx Hex; [by apply not_elem_of_nil in Hx|].
  destruct (list_find _ _) as [[i e]|] eqn:Hf; [done|].
  apply elem_of_cons in Hx as [->|Hx]; [|by apply IH].
  apply list_find_None in Hf. rewrite Forall_forall in Hf. apply Hf in Hex.
  destruct (decide (ex_reason ex = ExcludedLiveSubject)); [done|by destruct Hex].
Qed.

Lemma firstProtected_some subtree x ex :
  firstProtectedReferrer inv subtree = Some (x, ex) → x ∈ subtree ∧ ex ∈ ExclusionsFor inv x ∧ ex_reason ex ≠ ExcludedLiveSubject.
Proof.
  induction subtree as [|y subtree IH]; simpl; intros H; [done|]. destruct (list_find _ _) as [[i e]|] eqn:Hf.
  - injection H as <- <-. apply list_find_Some in Hf as (Hl & Hr & _). split; [left|]. split; [|done]. by eapply list_elem_of_lookup_2.
  - destruct (IH H) as (? & ? & ?). split; [by right|done].
Qed.
End plan.

Lemma tag_exclusions_in d tags t :
  t ∈ tags → t_protected t = true ∨ t_immutable t = true →
  ∃ ex, ex ∈ foldl (λ reasons tag, reasons ++ tag_exclusions d tag) [] tags ∧ ex_reason ex ≠ ExcludedLiveSubject.
Proof.
  intros Ht Hp.
  assert (∃ ex, ex ∈ tag_exclusions d t ∧ ex_reason ex ≠ ExcludedLiveSubject) as (ex & Hex & Hr).
  { unfold tag_exclusions. destruct Hp as [-> | ->]; [eexists|destruct (t_protected t); eexists];
      (split; [rewrite ?elem_of_app; first [by left; left|by right; left]|done]). }
  exists ex. split; [|done].
  assert (∀ acc, ex ∈ acc ∨ t ∈ tags → ex ∈ foldl (λ reasons tag, reasons ++ tag_exclusions d tag) acc tags) as H.
  { clear Ht. induction tags as [|t' tags IH]; intros acc; simpl; [set_solver|].
    rewrite elem_of_cons. intros [H|[->|H]]; apply IH; set_solver. }
  apply H. auto.
Qed.

Lemma tag_exclusions_out d tags ex :
  ex ∈ foldl (λ reasons tag, reasons ++ tag_exclusions d tag) [] tags → Exists (λ t, t_protected t = true ∨ t_immutable t = true) tags.
Proof.
  assert (∀ acc, ex ∈ foldl (λ reasons tag, reasons ++ tag_exclusions d tag) acc tags →
    ex ∈ acc ∨ Exists (λ t, t_protected t = true ∨ t_immutable t = true) tags) as H.
  { induction tags as [|t tags IH]; intros acc; simpl; [by left|]. intros [Hin|?]%IH; [|right; by apply Exists_cons_tl].
    apply elem_of_app in Hin as [?|Hin]; [by left|]. right. apply Exists_cons_hd. unfold tag_exclusions in Hin.
    destruct (t_protected t), (t_immutable t); auto. by apply not_elem_of_nil in Hin. }
  intros Hin. destruct (H [] Hin) as [?%not_elem_of_nil|?]; done.
Qed.

(** Any exclusion but being attached is a protected or immutable tag, or an index. *)
Lemma other_exclusion byDigest parents m ex :
  ex ∈ exclusion_reasons byDigest parents m → ex_reason ex ≠ ExcludedLiveSubject →
  Exists (λ t, t_protected t = true ∨ t_immutable t = true) (m_tags m) ∨ default [] (parents !! m_digest m) ≠ [].
Proof.
  unfold exclusion_reasons. rewrite !elem_of_app. intros [?%tag_exclusions_out|[Hin|Hin]] Hr; [by left|right|].
  - destruct (default [] _); [by apply not_elem_of_nil in Hin|done].
  - destruct (_ && _); [|by apply not_elem_of_nil in Hin]. apply list_elem_of_singleton in Hin as ->. done.
Qed.

(** If being attached is a manifest's only exclusion, nothing protects it. *)
Lemma only_attached_unprotected byDigest parents m :
  (∀ ex, ex ∈ exclusion_reasons byDigest parents m → ex_reason ex = ExcludedLiveSubject) →
  Forall (λ t, t_protected t = false ∧ t_immutable t = false) (m_tags m) ∧
  default [] (parents !! m_digest m) = [].
Proof.
  intros H. split.
  - apply Forall_forall. intros t Ht.
    destruct (t_protected t) eqn:Hp, (t_immutable t) eqn:Hi; [..|done]; exfalso;
      (destruct (tag_exclusions_in (m_digest m) (m_tags m) t) as (ex & Hex & Hr);
        [done|rewrite Hp, Hi; auto|apply Hr, H; unfold exclusion_reasons; set_solver]).
  - destruct (default [] (parents !! m_digest m)) as [|p ps] eqn:Hd; [done|]. exfalso.
    assert (ExcludedIndexChild = ExcludedLiveSubject); [|done].
    apply (H (mkExclusion (m_digest m) ExcludedIndexChild (String.concat ", " (p :: ps)))).
    unfold exclusion_reasons. rewrite Hd. set_solver.
Qed.

(** ** Opinions *)

(** The strongest opinions: those of the numerically lowest priority. *)
Definition strongest (ops : list opinion) (o : opinion) : Prop :=
  o ∈ ops ∧ ∀ o', o' ∈ ops → (o_priority o ≤ o_priority o')%Z.

Section opinions.
Context (inv : Inventory) (Hwf : inventory_wf inv) (now : Z).

Definition matched_by (r : compiledRule) : list Manifest :=
  filter (λ m, matches r m = true) (inv_selectable inv).

(** One rule's opinion about one manifest it matches. *)
Definition opinion_by (r : compiledRule) (m : Manifest) : opinion :=
  mkOpinion (rl_name (cr_rule r)) (rl_priority (cr_rule r)) (rl_kind (cr_rule r))
    (bool_decide (m_digest m ∈ keeps r (matched_by r) now)).

(** Every rule's opinion about a manifest, in rule order. *)
Definition opinions_on (rules : list compiledRule) (m : Manifest) : list opinion :=
  omap (λ r, if matches r m then Some (opinion_by r m) else None) rules.

Lemma insert_opinions (g : Manifest → opinion) (ms : list Manifest) (ops : gmap string (list opinion)) d :
  NoDup (m_digest <$> ms) →
  default [] (foldl (λ ops m, <[m_digest m := default [] (ops !! m_digest m) ++ [g m]]> ops) ops ms !! d) =
  default [] (ops !! d) ++ (g <$> filter (λ m, m_digest m = d) ms).
Proof.
  revert ops. induction ms as [|m ms IH]; intros ops Hnd; simpl; [by rewrite app_nil_r|].
  apply NoDup_cons in Hnd as [Hm Hnd]. rewrite IH by done. rewrite lookup_insert, filter_cons.
  repeat case_decide; try done. subst d. simpl. rewrite filter_none, app_nil_r; [done|].
  intros m' Hm' He. apply Hm. rewrite <-He. by apply list_elem_of_fmap_2.
Qed.

Lemma rule_opinions_lookup ops r m :
  m ∈ inv_selectable inv →
  default [] (rule_opinions inv now ops r !! m_digest m) =
  default [] (ops !! m_digest m) ++ (if matches r m then [opinion_by r m] else []).
Proof.
  intros Hm. unfold rule_opinions. fold (matched_by r).
  rewrite (insert_opinions (opinion_by r)) by apply NoDup_fmap_filter, selectable_nodup, Hwf.
  f_equal. unfold matched_by. rewrite list_filter_filter_comm || rewrite list_filter_filter.
  assert (filter (λ m', m_digest m' = m_digest m ∧ matches r m' = true) (inv_selectable inv) =
    filter (λ m', matches r m' = true) [m]) as ->.
  { rewrite <-(filter_key_eq m_digest (inv_selectable inv) m) by (try apply selectable_nodup; done).
    rewrite list_filter_filter. apply list_filter_iff. tauto. }
  rewrite filter_cons. by destruct (matches r m).
Qed.

Lemma gather_opinions_lookup rules m :
  m ∈ inv_selectable inv →
  default [] (gather_opinions inv rules now !! m_digest m) = opinions_on (rs_rules rules) m.
Proof.
  intros Hm. unfold gather_opinions.
  assert (∀ ops rs, default [] (foldl (rule_opinions inv now) ops rs !! m_digest m) =
    default [] (ops !! m_digest m) ++ opinions_on rs m) as H; [|by rewrite H, lookup_empty].
  intros ops rs. revert ops. induction rs as [|r rs IH]; intros ops; simpl; [by rewrite app_nil_r|].
  rewrite IH, rule_opinions_lookup by done. unfold opinions_on. simpl.
  destruct (matches r m); by rewrite <-(assoc_L (++)).
Qed.
End opinions.

(** ** Resolving opinions *)
Lemma best_priority_spec first rest :
  (∀ o, o ∈ first :: rest → (best_priority first rest ≤ o_priority o)%Z) ∧
  ∃ o, o ∈ first :: rest ∧ o_priority o = best_priority first rest.
Proof.
  unfold best_priority.
  assert (∀ b, let r := foldl (λ best o, if (o_priority o <? best)%Z then o_priority o else best) b rest in
    (r ≤ b)%Z ∧ (∀ o, o ∈ rest → (r ≤ o_priority o)%Z) ∧ (r = b ∨ ∃ o, o ∈ rest ∧ o_priority o = r)) as H.
  { induction rest as [|o rest IH]; intros b; simpl.
    { split_and!; [lia|by intros o ?%not_elem_of_nil|auto]. }
    destruct (IH (if (o_priority o <? b)%Z then o_priority o else b)) as (H1 & H2 & H3).
    split_and!.
    - destruct (Z.ltb_spec (o_priority o) b); lia.
    - intros o' [->|Ho']%elem_of_cons; [|auto]. destruct (Z.ltb_spec (o_priority o) b); lia.
    - destruct H3 as [H3|(o' & Ho' & He)]; [|right; exists o'; split; [by right|done]].
      rewrite H3. destruct (o_priority o <? b)%Z; [|auto]. right. exists o. split; [by left|done]. }
  destruct (H (o_priority first)) as (H1 & H2 & H3). split.
  - intros o [->|Ho]%elem_of_cons; auto.
  - destruct H3 as [H3|(o & Ho & He)]; [exists first|exists o]; (split; [set_solver|done]).
Qed.

Lemma strongest_iff first rest o :
  strongest (first :: rest) o ↔ o ∈ filter (λ o, o_priority o = best_priority first rest) (first :: rest).
Proof.
  destruct (best_priority_spec first rest) as [Hle (b & Hb & He)].
  unfold strongest. rewrite list_elem_of_filter. split.
  - intros [Ho Hmin]. split; [|done]. apply Hmin in Hb. apply Hle in Ho. lia.
  - intros [Hp Ho]. split; [done|]. intros o' Ho'. rewrite Hp. by apply Hle.
Qed.

Lemma sort_strings_nil l : sort_strings l = [] ↔ l = [].
Proof.
  split; [|by intros ->]. intros H. apply Permutation_nil_r. by rewrite <-H, sort_strings_perm.
Qed.

Lemma tier_side_nil (ops : list opinion) b :
  sort_strings (o_rule <$> filter (λ o, o_keep o = b) ops) = [] ↔ ∀ o, o ∈ ops → o_keep o = negb b.
Proof.
  rewrite sort_strings_nil. split.
  - intros H o Ho. destruct (decide (o_keep o = b)) as [He|He]; [|by destruct (o_keep o), b].
    assert (o ∈ filter (λ o, o_keep o = b) ops) as Hi by by apply list_elem_of_filter.
    apply fmap_nil_inv in H. rewrite H in Hi. by apply not_elem_of_nil in Hi.
  - intros H. rewrite filter_none; [done|]. intros o Ho. rewrite H by done. by destruct b.
Qed.

(** A verdict says what all the strongest opinions say; a conflict is two of
    them that disagree. *)
Lemma resolve_spec digest ops :
  match resolve digest ops with
  | inl v =>
      (v_applicable v = true ↔ ops ≠ []) ∧ ∀ o, strongest ops o → o_keep o = v_keep v
  | inr c =>
      c_digest c = digest ∧
      ∃ o1 o2, strongest ops o1 ∧ strongest ops o2 ∧ o_keep o1 = true ∧ o_keep o2 = false
  end.
Proof.
  destruct ops as [|first rest]; simpl.
  { split; [by split|]. intros o [?%not_elem_of_nil _]. done. }
  set (tier := filter (λ o, o_priority o = best_priority first rest) (first :: rest)).
  assert (∀ o, strongest (first :: rest) o ↔ o ∈ tier) as Hst by (intros; apply strongest_iff).
  destruct (best_priority_spec first rest) as [_ (b & Hb & He)].
  assert (b ∈ tier) as Hbt by by apply list_elem_of_filter.
  pose proof (tier_side_nil tier true) as Hk. pose proof (tier_side_nil tier false) as Hs.
  set (sel := sort_strings (o_rule <$> filter (λ o, o_keep o = false) tier)) in *.
  set (kp := sort_strings (o_rule <$> filter (λ o, o_keep o = true) tier)) in *.
  assert (∀ side, sort_strings (o_rule <$> filter (λ o, o_keep o = side) tier) ≠ [] →
    ∃ o, o ∈ tier ∧ o_keep o = side) as Hex.
  { intros side Hne. rewrite sort_strings_nil in Hne.
    destruct (filter (λ o, o_keep o = side) tier) as [|o l] eqn:Hf; [done|].
    assert (o ∈ filter (λ o, o_keep o = side) tier) as Ho by (rewrite Hf; by left).
    apply list_elem_of_filter in Ho as [??]. eauto. }
  destruct sel as [|s sel'] eqn:Hsel.
  - destruct kp as [|k kp'] eqn:Hkp.
    + exfalso. pose proof (proj1 Hs eq_refl b Hbt) as H.
      rewrite (proj1 Hk eq_refl b Hbt) in H. done.
    + simpl. split; [done|]. intros o Ho%Hst. by rewrite (proj1 Hs eq_refl o Ho).
  - destruct kp as [|k kp'] eqn:Hkp; simpl.
    + split; [done|]. intros o Ho%Hst. by rewrite (proj1 Hk eq_refl o Ho).
    + split; [done|].
      destruct (Hex true) as (o1 & ? & ?); [by fold kp; rewrite Hkp|].
      destruct (Hex false) as (o2 & ? & ?); [by fold sel; rewrite Hsel|]. exists o1, o2. by rewrite !Hst.
Qed.

(** ** Evaluation *)
Lemma decide_steps ops ms vs cs :
  NoDup (m_digest <$> ms) →
  let st := foldl (decide_step ops) (vs, cs) ms in
  let verdict_on m := resolve (m_digest m) (default [] (ops !! m_digest m)) in
  st.2 = cs ++ omap (λ m, match verdict_on m with inr c => Some c | inl _ => None end) ms ∧
  (∀ m v, m ∈ ms → verdict_on m = inl v → st.1 !! m_digest m = Some v) ∧
  (∀ d, d ∉ m_digest <$> ms → st.1 !! d = vs !! d).
Proof.
  revert vs cs. induction ms as [|m ms IH]; intros vs cs Hnd; simpl.
  { rewrite app_nil_r. split_and!; [done| |done]. by intros m v ?%not_elem_of_nil. }
  apply NoDup_cons in Hnd as [Hm Hnd].
  destruct (resolve (m_digest m) (default [] (ops !! m_digest m))) as [v|c] eqn:Hr.
  - destruct (IH (<[m_digest m := v]> vs) cs Hnd) as (H1 & H2 & H3). split_and!; [done|..].
    + intros m' v' [->|Hm']%elem_of_cons Hv'; [|by apply H2].
      rewrite H3 by done. rewrite lookup_insert_eq. congruence.
    + intros d Hd. rewrite not_elem_of_cons in Hd. rewrite H3, lookup_insert_ne; naive_solver.
  - destruct (IH vs (cs ++ [c]) Hnd) as (H1 & H2 & H3). split_and!.
    + by rewrite H1, <-(assoc_L (++)).
    + intros m' v' [->|Hm']%elem_of_cons Hv'; [congruence|by apply H2].
    + intros d Hd. rewrite not_elem_of_cons in Hd. apply H3. naive_solver.
Qed.

Lemma omap_nil_iff {A B} (f : A → option B) (l : list A) :
  omap f l = [] ↔ ∀ x, x ∈ l → f x = None.
Proof.
  split.
  - intros H x Hx. destruct (f x) as [y|] eqn:Hf; [|done].
    assert (y ∈ omap f l) as Hy by (apply list_elem_of_omap; eauto). rewrite H in Hy.
    by apply not_elem_of_nil in Hy.
  - induction l as [|x l IH]; intros H; simpl; [done|]. rewrite (H x) by by left. apply IH.
    intros y Hy. apply H. by right.
Qed.

Lemma omap_ext_in {A B} (f g : A → option B) (l : list A) :
  (∀ x, x ∈ l → f x = g x) → omap f l = omap g l.
Proof.
  induction l as [|x l IH]; intros H; csimpl; [done|]. rewrite (H x) by by left.
  rewrite IH; [done|]. intros y Hy. apply H. by right.
Qed.

(** A plan is built from the verdicts the rules reach on each manifest. *)
Lemma Evaluate_ok inv rules now plan :
  inventory_wf inv → Evaluate (Some inv) rules now = Ok plan →
  ∃ verdicts, plan = buildPlan inv verdicts now ∧
    ∀ m, m ∈ inv_selectable inv →
      resolve (m_digest m) (opinions_on inv now (rs_rules rules) m) = inl (verdict_of verdicts m).
Proof.
  intros Hwf. unfold Evaluate. destruct (now =? 0)%Z; [done|].
  pose proof (decide_steps (gather_opinions inv rules now) (inv_selectable inv) ∅ []
    (selectable_nodup inv Hwf)) as (H1 & H2 & _).
  destruct (foldl _ _ _) as [verdicts conflicts]. simpl in *.
  destruct conflicts; [|done]. intros [= <-]. exists verdicts. split; [done|]. intros m Hm.
  symmetry in H1. rewrite omap_nil_iff in H1. specialize (H1 m Hm). specialize (H2 m).
  rewrite gather_opinions_lookup in H1, H2 by done.
  destruct (resolve _ _) as [v|c] eqn:Hv; [|done]. unfold verdict_of. by rewrite (H2 v).
Qed.

(** ** Order independence *)
Lemma best_priority_perm f1 r1 f2 r2 :
  f1 :: r1 ≡ₚ f2 :: r2 → best_priority f1 r1 = best_priority f2 r2.
Proof.
  intros Hp. destruct (best_priority_spec f1 r1) as [H1 (o1 & Ho1 & E1)].
  destruct (best_priority_spec f2 r2) as [H2 (o2 & Ho2 & E2)].
  rewrite Hp in Ho1. rewrite <-Hp in Ho2. apply H2 in Ho1. apply H1 in Ho2. lia.
Qed.

Lemma kinds_lookup (tier : list opinion) rule kind (kinds : gmap string string) :
  NoDup (o_rule <$> tier) →
  foldl (λ kinds o, <[o_rule o := o_kind o]> kinds) kinds tier !! rule = Some kind ↔
  (∃ o, o ∈ tier ∧ o_rule o = rule ∧ o_kind o = kind) ∨
  (rule ∉ o_rule <$> tier ∧ kinds !! rule = Some kind).
Proof.
  revert kinds. induction tier as [|o tier IH]; intros kinds Hnd; csimpl in *.
  { setoid_rewrite elem_of_nil. naive_solver. }
  apply NoDup_cons in Hnd as [Ho Hnd]. rewrite IH by done. rewrite lookup_insert.
  setoid_rewrite elem_of_cons. rewrite !list_elem_of_fmap. rewrite list_elem_of_fmap in Ho.
  case_decide as E; [subst rule|]; split.
  - intros [?|[? [= <-]]]; naive_solver.
  - intros [(o' & [->|?] & ? & <-)|[? _]]; [right; naive_solver|naive_solver..].
  - naive_solver.
  - naive_solver.
Qed.

Lemma resolve_perm digest ops1 ops2 :
  ops1 ≡ₚ ops2 → NoDup (o_rule <$> ops1) → resolve digest ops1 = resolve digest ops2.
Proof.
  intros Hp Hnd. destruct ops1 as [|f1 r1]; [by apply Permutation_nil in Hp as ->|].
  destruct ops2 as [|f2 r2]; [by apply Permutation_nil_r in Hp|].
  unfold resolve. rewrite (best_priority_perm _ _ _ _ Hp).
  set (best := best_priority f2 r2).
  set (t1 := filter (λ o, o_priority o = best) (f1 :: r1)).
  set (t2 := filter (λ o, o_priority o = best) (f2 :: r2)).
  assert (t1 ≡ₚ t2) as Ht by (unfold t1, t2; by rewrite Hp).
  assert (NoDup (o_rule <$> t1)) as Hn1 by by apply NoDup_fmap_filter.
  assert (NoDup (o_rule <$> t2)) as Hn2 by by rewrite <-Ht.
  assert (∀ b, sort_strings (o_rule <$> filter (λ o, o_keep o = b) t1) =
    sort_strings (o_rule <$> filter (λ o, o_keep o = b) t2)) as Hside
    by (intros b; apply sort_strings_eq; by rewrite Ht).
  rewrite !Hside.
  assert (foldl (λ kinds o, <[o_rule o := o_kind o]> kinds) (∅ : gmap string string) t1 =
    foldl (λ kinds o, <[o_rule o := o_kind o]> kinds) ∅ t2) as ->; [|done].
  apply map_eq. intros rule. apply option_eq. intros kind. rewrite !kinds_lookup by done.
  setoid_rewrite Ht. done.
Qed.

Lemma opinions_on_names inv now rules m :
  NoDup ((λ r, rl_name (cr_rule r)) <$> rules) → NoDup (o_rule <$> opinions_on inv now rules m).
Proof.
  intros Hnd. eapply sublist_NoDup; [exact Hnd|]. clear Hnd. unfold opinions_on.
  induction rules as [|r rules IH]; simpl; [done|]. destruct (matches r m); simpl; by constructor.
Qed.

Lemma foldl_ext_in {A B} (f g : A → B → A) (l : list B) a :
  (∀ a b, b ∈ l → f a b = g a b) → foldl f a l = foldl g a l.
Proof.
  revert a. induction l as [|b l IH]; intros a H; simpl; [done|].
  rewrite H by by left. apply IH. intros a' b' Hb'. apply H. by right.
Qed.

(** ** keep-last-n *)
#[export] Instance newest_first_trans : Transitive newest_first.
Proof.
  intros [t1 d1] [t2 d2] [t3 d3]. unfold newest_first. simpl.
  intros [?|[? ?]] [?|[? ?]]; [left; lia..|]. right. split; [lia|]. by etrans.
Qed.
#[export] Instance newest_first_total : Total newest_first.
Proof.
  intros [t1 d1] [t2 d2]. unfold newest_first. simpl.
  destruct (Z.lt_trichotomy t1 t2) as [?|[?|?]]; [auto| |auto].
  destruct (total String.le d1 d2); auto.
Qed.
#[export] Instance newest_first_antisymm : AntiSymm (=) newest_first.
Proof.
  intros [t1 d1] [t2 d2]. unfold newest_first. simpl. intros [?|[-> H1]] [?|[? H2]]; try lia.
  f_equal. by apply (anti_symm String.le).
Qed.
