(* ===== verification/RetentionSpec.v ===== *)
(** * What retention guarantees

    Compilation of rule sets, what a plan may delete, how every manifest is
    accounted for, precedence between rules, and independence of rule order. *)
From S2P Require Import Prelude Inventory Retention RetentionFacts.

(** ** Compiling rules *)
Section compile.
Context (regexp_compile : string → option (string → bool)).

Definition pattern_ok (p : string) : Prop :=
  p ≠ "" ∧ is_Some (regexp_compile ("\A(?:" +:+ p +:+ ")\z")).

(** What a rule must satisfy on its own. *)
Definition rule_ok (r : Rule) : Prop :=
  rl_name r ≠ "" ∧ RuleKind_Valid (rl_kind r) = true ∧ TagStatus_Valid (rl_tagStatus r) = true ∧
  validateKindFields r = Ok tt ∧ Forall pattern_ok (rl_includeTags r) ∧ Forall pattern_ok (rl_excludeTags r).

Lemma compilePatterns_ok rule field ps :
  is_ok (compilePatterns regexp_compile rule field ps) = true ↔ Forall pattern_ok ps.
Proof.
  unfold compilePatterns. set (f := λ compiled pattern, _).
  assert (∀ acc, is_ok (foldM f acc ps) = true ↔ Forall pattern_ok ps) as H; [|apply H].
  induction ps as [|p ps IH]; intros acc; simpl; [by split; auto|].
  rewrite Forall_cons. unfold f at 1, pattern_ok at 1. destruct (String.eqb_spec p ""); [naive_solver|].
  destruct (regexp_compile _); simpl; [rewrite IH; naive_solver|]. split; [done|].
  intros [[_ [? ?]] _]. done.
Qed.

Lemma compile_step_ok st r st' :
  compile_step regexp_compile st r = Ok st' →
  rule_ok r ∧ rl_name r ∉ st.1.2 ∧ st'.1.2 = {[rl_name r]} ∪ st.1.2 ∧
  ∃ inc exc, st'.2 = st.2 ++ [mkCompiled r inc exc].
Proof.
  destruct st as [[position names] rules]. unfold compile_step, rule_ok.
  destruct (String.eqb_spec (rl_name r) ""); [done|]. case_bool_decide; [done|].
  destruct (RuleKind_Valid (rl_kind r)); [|done]. destruct (TagStatus_Valid (rl_tagStatus r)); [|done].
  simpl. destruct (validateKindFields r) as [[]|]; simpl; [|done].
  destruct (compilePatterns _ _ _ (rl_includeTags r)) as [inc|] eqn:Hi; simpl; [|done].
  destruct (compilePatterns _ _ _ (rl_excludeTags r)) as [exc|] eqn:He; simpl; [|done].
  apply (f_equal is_ok) in Hi, He. apply compilePatterns_ok in Hi, He.
  intros [= <-]. simpl. eauto 12.
Qed.

Lemma compile_step_complete st r :
  rule_ok r → rl_name r ∉ st.1.2 → ∃ st', compile_step regexp_compile st r = Ok st'.
Proof.
  destruct st as [[position names] rules]. simpl. intros (Hn & Hk & Ht & Hv & Hi & He) Hf.
  unfold compile_step. destruct (String.eqb_spec (rl_name r) ""); [done|].
  rewrite bool_decide_eq_false_2, Hk, Ht, Hv by done. simpl.
  apply (compilePatterns_ok (rl_name r) "include_tags") in Hi.
  apply (compilePatterns_ok (rl_name r) "exclude_tags") in He.
  destruct (compilePatterns _ _ _ (rl_includeTags r)); [|done].
  destruct (compilePatterns _ _ _ (rl_excludeTags r)); [|done]. simpl. eauto.
Qed.

Lemma compile_steps_ok st rules :
  (∃ st', foldM (compile_step regexp_compile) st rules = Ok st') ↔
  Forall rule_ok rules ∧ NoDup (rl_name <$> rules) ∧ ∀ r, r ∈ rules → rl_name r ∉ st.1.2.
Proof.
  revert st. induction rules as [|r rules IH]; intros st; csimpl.
  { split; [|by eauto]. intros _. split_and!; [by constructor..|]. by intros r ?%not_elem_of_nil. }
  rewrite Forall_cons, NoDup_cons. simpl.
  destruct (compile_step regexp_compile st r) as [st1|e] eqn:Hs; simpl.
  - apply compile_step_ok in Hs as (Hok & Hf & Hn & _). rewrite IH, Hn.
    setoid_rewrite elem_of_cons. rewrite list_elem_of_fmap. set_solver.
  - split; [naive_solver|]. intros ([Hr _] & _ & Hf).
    destruct (compile_step_complete st r) as [st' Hst']; [done|apply Hf; by left|]. congruence.
Qed.

Lemma compile_steps_rules st rules st' :
  foldM (compile_step regexp_compile) st rules = Ok st' →
  cr_rule <$> st'.2 = (cr_rule <$> st.2) ++ rules.
Proof.
  revert st. induction rules as [|r rules IH]; intros st H; simpl in H; inv_result; [by rewrite app_nil_r|].
  apply compile_step_ok in Heqr0 as (_ & _ & _ & inc & exc & Heq).
  by rewrite (IH _ H), Heq, fmap_app, <-(assoc_L (++)).
Qed.
End compile.

Definition unprotected (m : Manifest) : Prop :=
  Forall (λ t, t_protected t = false ∧ t_immutable t = false) (m_tags m).

(** A manifest in a plan's deletions, traced back to the entry it dies with. *)
Lemma deleted_unprotected inv verdicts now d :
  inventory_wf inv → d ∈ Digests (buildPlan inv verdicts now) →
  ∃ m, m ∈ inv_manifests inv ∧ m_digest m = d ∧ unprotected m ∧ IndexParents inv d = [].
Proof.
  intros Hwf. rewrite Digests_elem by done. intros (r & Hr & [_ Hb] & Hd).
  assert (∀ m, inv_byDigest inv !! d = Some m →
    (∀ ex, ex ∈ ExclusionsFor inv d → ex_reason ex = ExcludedLiveSubject) →
    ∃ m, m ∈ inv_manifests inv ∧ m_digest m = d ∧ unprotected m ∧ IndexParents inv d = []) as Hgo.
  { intros m Hm Hex. apply (wf_lookup _ Hwf) in Hm as Hin. rewrite (wf_exclusions _ Hwf), Hm in Hex.
    apply only_attached_unprotected in Hex as [Ht Hp]. destruct Hin as [Hin <-]. by eauto 8. }
  destruct Hd as [->|Hd].
  - apply (Hgo r); [by apply selectable_live|]. rewrite (wf_exclusions _ Hwf), (selectable_live inv Hwf) by done.
    rewrite (wf_selectable _ Hwf), list_elem_of_filter in Hr. simpl. rewrite (proj1 Hr).
    by intros ex ?%not_elem_of_nil.
  - apply (subtree_spec inv Hwf r) in Hd as Ht; [|done]. destruct (tc_attaches_live _ _ _ Ht) as [m Hm].
    apply (Hgo m Hm). intros ex Hex. by eapply firstProtected_none.
Qed.

(** A manifest attached to a live subject dies exactly when its subject does. *)
Lemma deleted_with_subject inv verdicts now m s :
  inventory_wf inv → m ∈ inv_manifests inv → s ∈ inv_manifests inv → m_subject m = m_digest s →
  m_digest m ∈ Digests (buildPlan inv verdicts now) ↔ m_digest s ∈ Digests (buildPlan inv verdicts now).
Proof.
  intros Hwf Hm Hs He. rewrite !Digests_elem by done.
  assert (attaches (inv_byDigest inv) (m_digest m) (m_digest s)) as Hat.
  { exists m. split_and!; [by apply (wf_lookup _ Hwf)|done|by apply (wf_digest _ Hwf)]. }
  split; intros (r & Hr & Hc & Hd); exists r; (split_and!; [done..|]).
  - destruct Hd as [Hd|Hd].
    + exfalso. rewrite Hd in Hat. apply (selectable_no_live_subject inv Hwf r _ Hr Hat).
      exists s. by apply (wf_lookup _ Hwf).
    + apply (subtree_spec inv Hwf) in Hd; [|done]. inversion Hd as [? ? Hx|? y ? Hx Hy]; subst.
      * left. by eapply attaches_fun.
      * right. apply (subtree_spec inv Hwf); [done|]. by rewrite (attaches_fun _ _ _ _ Hat Hx).
  - right. apply (subtree_spec inv Hwf); [done|]. destruct Hd as [Hd|Hd].
    + apply tc_once. by rewrite <-Hd.
    + eapply tc_l; [done|]. by apply (subtree_spec inv Hwf).
Qed.

Lemma summary_loop sel c b :
  (0 ≤ c)%Z → (c + Z.of_nat (length (sel ≫= λ e, rf_digest <$> e_referrers e)) < 2 ^ 63)%Z →
  (foldl (λ '(cascaded, bytes) e,
      (add64 cascaded (Z.of_nat (length (e_referrers e))), add64 bytes (Entry_TotalSize e)))
      (c, b) sel).1 = (c + Z.of_nat (length (sel ≫= λ e, rf_digest <$> e_referrers e)))%Z.
Proof.
  revert c b. induction sel as [|e sel IH]; intros c b Hc Hlt; csimpl in *; [lia|].
  rewrite length_app, length_fmap in *.
  replace (add64 c (Z.of_nat (length (e_referrers e)))) with (c + Z.of_nat (length (e_referrers e)))%Z
    by (unfold add64; rewrite int64_small; [done|unfold int64_range; lia]).
  rewrite IH; lia.
Qed.

Lemma Plan_Summary_total plan :
  let total := length (p_selected plan) + length (p_selected plan ≫= λ e, rf_digest <$> e_referrers e) +
    length (p_blocked plan) + length (p_kept plan) in
  (Z.of_nat total < 2 ^ 63)%Z → s_manifests (Plan_Summary plan) = Z.of_nat total.
Proof.
  intros total Hlt. unfold total in *. clear total. unfold Plan_Summary.
  assert (Hc := summary_loop (p_selected plan) 0 0).
  destruct (foldl _ (0%Z, 0%Z) (p_selected plan)) as [cascaded bytes]. simpl in Hc. cbn [s_manifests].
  rewrite Hc by lia. unfold add64.
  rewrite (int64_small (Z.of_nat (length (p_selected plan)) + _)) by (unfold int64_range; lia).
  rewrite (int64_small (Z.of_nat (length (p_selected plan)) + _ + _)) by (unfold int64_range; lia).
  rewrite int64_small by (unfold int64_range; lia). lia.
Qed.

Lemma strongest_exists ops : ops ≠ [] → ∃ o, strongest ops o.
Proof.
  destruct ops as [|f r]; [done|]. intros _. destruct (best_priority_spec f r) as [_ (o & Ho & He)].
  exists o. apply strongest_iff, list_elem_of_filter. done.
Qed.

(** The rules' decisions over a whole inventory. *)
Lemma Evaluate_spec inv rules now :
  inventory_wf inv → now ≠ 0%Z →
  let ops m := opinions_on inv now (rs_rules rules) m in
  ∃ verdicts,
    Evaluate (Some inv) rules now =
    match omap (λ m, match resolve (m_digest m) (ops m) with inr c => Some c | inl _ => None end)
            (inv_selectable inv) with
    | [] => Ok (buildPlan inv verdicts now)
    | (_ :: _) as conflicts => Err (ErrConflict conflicts)
    end ∧
    ∀ m v, m ∈ inv_selectable inv → resolve (m_digest m) (ops m) = inl v → verdict_of verdicts m = v.
Proof.
  intros Hwf Hn ops. unfold Evaluate. destruct (Z.eqb_spec now 0); [done|].
  pose proof (decide_steps (gather_opinions inv rules now) (inv_selectable inv) ∅ []
    (selectable_nodup inv Hwf)) as (H1 & H2 & _).
  destruct (foldl _ _ _) as [verdicts conflicts]. simpl in *. exists verdicts. split.
  - rewrite H1. set (conflict_of := λ m, match resolve (m_digest m) (ops m) with inr c => Some c | inl _ => None end).
    rewrite (omap_ext_in _ conflict_of).
    + by destruct (omap conflict_of (inv_selectable inv)).
    + intros m Hm. unfold conflict_of. by rewrite gather_opinions_lookup.
  - intros m v Hm Hv. unfold verdict_of. rewrite (H2 m v); [done..|]. by rewrite gather_opinions_lookup.
Qed.

Lemma selected_or_blocked inv verdicts now m :
  inventory_wf inv → m ∈ inv_selectable inv →
  (m_digest m ∈ e_digest <$> p_selected (buildPlan inv verdicts now) ∨
   m_digest m ∈ bl_digest <$> p_blocked (buildPlan inv verdicts now)) ↔ selects verdicts m.
Proof.
  intros Hwf Hm. destruct (plan_parts inv verdicts now) as (-> & _ & -> & _).
  assert (∀ (P : Manifest → Prop) `{!∀ m, Decision (P m)},
    m_digest m ∈ m_digest <$> filter P (inv_selectable inv) ↔ P m) as Hf.
  { intros P ?. rewrite list_elem_of_fmap. setoid_rewrite list_elem_of_filter. split; [|by eauto].
    intros (m' & He & HP & Hm'). by rewrite (nodup_key_inj m_digest _ m m' (selectable_nodup inv Hwf) Hm Hm' He). }
  rewrite !Hf. unfold chosen, refused. destruct (blocker_of inv m); naive_solver.
Qed.

(** ** The properties *)

(** What nothing may delete: a protected or immutable tag points at it, or an
    index lists it. *)
Definition shielded (inv : Inventory) (d : string) : Prop :=
  ∃ m, m ∈ inv_manifests inv ∧ m_digest m = d ∧
    (Exists (λ t, t_protected t = true ∨ t_immutable t = true) (m_tags m) ∨ ∃ p, p ∈ inv_manifests inv ∧ d ∈ m_children p).

(** Attached, directly or through other attachments. *)
Definition attached (inv : Inventory) (d s : string) : Prop := tc (attaches (inv_byDigest inv)) d s.

(** The rules select a manifest: one has an opinion and the strongest all say so. *)
Definition wanted (inv : Inventory) (rules : RuleSet) (now : Z) (m : Manifest) : Prop :=
  let ops := opinions_on inv now (rs_rules rules) m in ops ≠ [] ∧ ∀ o, strongest ops o → o_keep o = false.

Lemma excluded_shielded inv d m ex : inventory_wf inv → inv_byDigest inv !! d = Some m →
  ex ∈ ExclusionsFor inv d → ex_reason ex ≠ ExcludedLiveSubject → shielded inv d.
Proof.
  intros Hwf Hm Hex Hr. rewrite (wf_exclusions _ Hwf), Hm in Hex. apply (wf_lookup _ Hwf) in Hm as [Hin <-]. exists m. split_and!; [done..|].
  destruct (other_exclusion _ _ _ _ Hex Hr) as [?|Hp]; [by left|right].
  destruct (default [] (inv_indexParents inv !! m_digest m)) as [|p ps] eqn:Heq; [done|].
  assert (p ∈ IndexParents inv (m_digest m)) as Hpi by (unfold IndexParents; rewrite Heq; left).
  apply (wf_parents _ Hwf) in Hpi as (_ & q & [Hq _]%(wf_lookup _ Hwf) & Hc). eauto.
Qed.

Lemma unprotected_not_shielded inv d m : inventory_wf inv → m ∈ inv_manifests inv → m_digest m = d →
  unprotected m → IndexParents inv d = [] → ¬ shielded inv d.
Proof.
  intros Hwf Hm <- Ht Hp (m' & Hm' & Heq & Hs). assert (m' = m) as ->.
  { assert (inv_byDigest inv !! m_digest m = Some m') as H1 by by apply (wf_lookup _ Hwf).
    assert (inv_byDigest inv !! m_digest m = Some m) as H2 by by apply (wf_lookup _ Hwf). congruence. }
  destruct Hs as [(t & Ht1 & Ht2)%Exists_exists|(p & Hp' & Hc)].
  - eapply Forall_forall in Ht as [? ?]; [|exact Ht1]. destruct Ht2; congruence.
  - assert (m_digest p ∈ IndexParents inv (m_digest m)) as Hi; [|rewrite Hp in Hi; by apply not_elem_of_nil in Hi].
    apply (wf_parents _ Hwf). split; [exists m|exists p; split; [|done]]; by apply (wf_lookup _ Hwf).
Qed.

(** A manifest has a shielded attachment exactly when the plan finds a blocker. *)
Lemma blocker_shielded inv m : inventory_wf inv → m ∈ inv_selectable inv →
  match blocker_of inv m with
  | Some (d, _) => attached inv d (m_digest m) ∧ shielded inv d
  | None => ∀ d, attached inv d (m_digest m) → ¬ shielded inv d
  end.
Proof.
  intros Hwf Hm. destruct (blocker_of inv m) as [[d ex]|] eqn:Hb.
  - apply firstProtected_some in Hb as (Hd & Hex & Hr). apply (subtree_spec inv Hwf) in Hd; [|done]. split; [done|].
    destruct (tc_attaches_live _ _ _ Hd) as [m' Hm']. by eapply excluded_shielded.
  - intros d Hd. destruct (tc_attaches_live _ _ _ Hd) as [m' Hm']. apply (subtree_spec inv Hwf) in Hd; [|done].
    assert (∀ ex, ex ∈ ExclusionsFor inv d → ex_reason ex = ExcludedLiveSubject) as Hex by (intros ex; by eapply firstProtected_none).
    rewrite (wf_exclusions _ Hwf), Hm' in Hex. apply only_attached_unprotected in Hex as [Ht Hp]. apply (wf_lookup _ Hwf) in Hm' as [Hin <-].
    by eapply unprotected_not_shielded.
Qed.

(** C1: a plan never deletes what is protected. Whatever the rules say, every
    digest a plan of a well-formed snapshot would delete (entries and the
    attachments deleted with them) is a manifest of the snapshot none of whose
    tags is protected or immutable and which no manifest of the snapshot lists
    as a child. A manifest the rules select that has such a manifest attached,
    directly or through other attachments, is not deleted, nor is anything
    attached to it; it is reported blocked, and exactly then, with an attachment
    that holds it back. *)
Theorem plan_never_deletes_protected repository manifests inv rules now plan
  (Hinv : NewInventory repository manifests = Ok inv)
  (Hplan : Evaluate (Some inv) rules now = Ok plan) :
  (∀ d, d ∈ Digests plan → (∃ m, m ∈ inv_manifests inv ∧ m_digest m = d) ∧ ¬ shielded inv d) ∧
  (∀ m, m ∈ inv_selectable inv → wanted inv rules now m →
     (∃ d, attached inv d (m_digest m) ∧ shielded inv d) →
     (∃ b, b ∈ p_blocked plan ∧ bl_digest b = m_digest m) ∧ m_digest m ∉ Digests plan ∧
     ∀ d, attached inv d (m_digest m) → d ∉ Digests plan) ∧
  (∀ b, b ∈ p_blocked plan → (∃ m, m ∈ inv_selectable inv ∧ m_digest m = bl_digest b ∧ wanted inv rules now m) ∧
     attached inv (bl_referrer b) (bl_digest b) ∧ shielded inv (bl_referrer b)).
Proof.
  apply NewInventory_wf in Hinv as Hwf. apply Evaluate_ok in Hplan as (verdicts & -> & Hv); [|done].
  assert (∀ m, m ∈ inv_selectable inv → selects verdicts m ↔ wanted inv rules now m) as Hw.
  { intros m Hm. specialize (Hv m Hm). pose proof (resolve_spec (m_digest m) (opinions_on inv now (rs_rules rules) m)) as Hr.
    rewrite Hv in Hr. destruct Hr as [Ha Hk]. unfold selects, wanted. rewrite Ha. split; intros [Hne H]; (split; [done|]).
    - intros o Hst. by rewrite (Hk o Hst).
    - destruct (strongest_exists _ Hne) as [o Hst]. by rewrite <-(Hk o Hst), H. }
  split_and!.
  - intros d Hd. apply deleted_unprotected in Hd as (m & Hm & <- & Ht & Hp); [|done]. split; [by exists m|]. by eapply unprotected_not_shielded.
  - intros m Hm Hwant (d & Hd & Hs). pose proof (blocker_shielded inv m Hwf Hm) as Hb.
    destruct (blocker_of inv m) as [[x ex]|] eqn:Hbl; [|by destruct (Hb d Hd)].
    assert (refused inv verdicts m) as Href by (split; [by apply Hw|by rewrite Hbl]). split_and!.
    + exists (blocked_of inv verdicts m). split; [|apply blocked_of_digest]. rewrite plan_blocked. apply list_elem_of_fmap_2, list_elem_of_filter. done.
    + rewrite Digests_elem by done. intros (m' & Hm' & [_ Hc] & [Heq|Hin]).
      * rewrite (nodup_key_inj m_digest _ m' m (selectable_nodup inv Hwf) Hm' Hm) in Hc; [congruence|done].
      * apply (subtree_spec inv Hwf) in Hin; [|done]. eapply (selectable_not_attached inv Hwf m); [done| |exact Hin]. eexists. by apply selectable_live.
    + intros y Hy. rewrite Digests_elem by done. intros (m' & Hm' & [_ Hc] & [Heq|Hin]).
      * rewrite Heq in Hy. eapply (selectable_not_attached inv Hwf m'); [done| |exact Hy]. eexists. by apply selectable_live.
      * apply (subtree_spec inv Hwf m) in Hy; [|done]. assert (m' = m) as -> by by eapply (subtrees_disjoint inv Hwf). congruence.
  - intros b. rewrite plan_blocked. intros (m & -> & [[Hsel Hnb] Hm]%list_elem_of_filter)%list_elem_of_fmap. rewrite blocked_of_digest.
    split; [exists m; split_and!; [done..|by apply Hw]|]. pose proof (blocker_shielded inv m Hwf Hm) as Hb. unfold blocked_of.
    destruct (blocker_of inv m) as [[x ex]|]; [exact Hb|done].
Qed.

(** A rule set with one rule that selects every untagged or [dev]-tagged
    manifest. *)
Definition select_all : RuleSet :=
  mkRuleSet [mkCompiled (mkRule "clean" 10 SelectMatched 0 0 AnyTags [] []) [] []].

Definition example_inventory : Inventory :=
  match NewInventory "team/app" example_snapshot with
  | Ok inv => inv | Err _ => mkInventory "" [] [] [] ∅ ∅ ∅ ∅ end.

Definition example_plan : Plan :=
  match Evaluate (Some example_inventory) select_all 100 with
  | Ok plan => plan | Err _ => mkPlan "" 0 [] [] [] end.

Lemma plan_never_deletes_protected_witness :
  Digests example_plan = ["idx"; "old"; "sbom"; "sig"] ∧ ¬ shielded example_inventory "sig".
Proof.
  split; [vm_compute; reflexivity|].
  destruct (plan_never_deletes_protected "team/app" example_snapshot example_inventory select_all 100 example_plan) as [H _];
    [vm_compute; reflexivity|vm_compute; reflexivity|].
  apply H. vm_compute. do 3 right. left.
Defined.

(** Attachments live and die with their subject. In any plan of a
    well-formed snapshot, a manifest attached to another manifest of the
    snapshot is deleted when and only when that subject is: no plan leaves a
    signature or SBOM pointing at nothing, and none deletes one on its own. *)
Theorem plan_deletes_with_subject repository manifests inv rules now plan m s
  (Hinv : NewInventory repository manifests = Ok inv)
  (Hplan : Evaluate (Some inv) rules now = Ok plan)
  (Hm : m ∈ inv_manifests inv) (Hs : s ∈ inv_manifests inv) (Hsub : m_subject m = m_digest s) :
  m_digest m ∈ Digests plan ↔ m_digest s ∈ Digests plan.
Proof.
  apply NewInventory_wf in Hinv as Hwf. apply Evaluate_ok in Hplan as (verdicts & -> & _); [|done].
  by apply deleted_with_subject.
Qed.

Lemma plan_deletes_with_subject_witness :
  "sig" ∈ Digests example_plan ↔ "sbom" ∈ Digests example_plan.
Proof.
  apply (plan_deletes_with_subject "team/app" example_snapshot example_inventory select_all 100 example_plan
    (img "sig" "sbom" [] []) (img "sbom" "old" [] [])).
  - vm_compute; reflexivity.
  - vm_compute; reflexivity.
  - vm_compute. do 5 right. left.
  - vm_compute. do 4 right. left.
  - reflexivity.
Defined.

(** A plan accounts for every manifest exactly once. The digests a plan
    selects, cascades, blocks and keeps are together a rearrangement of the
    snapshot's digests, and the summary's total is the number of manifests in
    the snapshot (a snapshot has fewer than 2^63 of them). *)
Theorem plan_accounts_for_everything repository manifests inv rules now plan
  (Hinv : NewInventory repository manifests = Ok inv)
  (Hplan : Evaluate (Some inv) rules now = Ok plan)
  (Hsmall : (Z.of_nat (length manifests) < 2 ^ 63)%Z) :
  (e_digest <$> p_selected plan) ++ (p_selected plan ≫= λ e, rf_digest <$> e_referrers e) ++
    (bl_digest <$> p_blocked plan) ++ (k_digest <$> p_kept plan) ≡ₚ m_digest <$> manifests ∧
  s_manifests (Plan_Summary plan) = Z.of_nat (length manifests).
Proof.
  apply NewInventory_wf in Hinv as Hwf. apply Evaluate_ok in Hplan as (verdicts & -> & _); [|done].
  pose proof (plan_partition inv verdicts Hwf now) as Hp. cbv zeta in Hp.
  rewrite (NewInventory_manifests _ _ _ Hinv) in Hp. split; [done|].
  rewrite Plan_Summary_total; apply Permutation_length in Hp; rewrite !length_app, !length_fmap in Hp; lia.
Qed.

Lemma plan_accounts_for_everything_witness :
  s_manifests (Plan_Summary example_plan) = 6%Z.
Proof.
  refine (proj2 (plan_accounts_for_everything "team/app" example_snapshot example_inventory
    select_all 100 example_plan _ _ _)).
  - vm_compute; reflexivity.
  - vm_compute; reflexivity.
  - vm_compute; reflexivity.
Defined.

(** Precedence between rules. For every selectable manifest take the
    opinions of the rules that match it; the strongest are those of the
    numerically lowest priority. A plan is produced only when no two strongest
    opinions on a manifest disagree, and then a manifest is selected (or
    selected but blocked by an attachment) exactly when it has an opinion and
    all its strongest opinions say so; a manifest with no opinion is kept.
    Otherwise the evaluation fails, and reports exactly the manifests whose
    strongest opinions disagree. *)
Theorem Evaluate_precedence repository manifests inv rules now
  (Hinv : NewInventory repository manifests = Ok inv) (Hnow : now ≠ 0%Z) :
  let ops m := opinions_on inv now (rs_rules rules) m in
  let disagree m := ∃ o1 o2, strongest (ops m) o1 ∧ strongest (ops m) o2 ∧ o_keep o1 ≠ o_keep o2 in
  match Evaluate (Some inv) rules now with
  | Ok plan =>
      ∀ m, m ∈ inv_selectable inv →
        ¬ disagree m ∧
        ((m_digest m ∈ e_digest <$> p_selected plan ∨ m_digest m ∈ bl_digest <$> p_blocked plan) ↔
         ops m ≠ [] ∧ ∀ o, strongest (ops m) o → o_keep o = false)
  | Err (ErrConflict conflicts) =>
      conflicts ≠ [] ∧
      ∀ d, d ∈ c_digest <$> conflicts ↔ ∃ m, m ∈ inv_selectable inv ∧ m_digest m = d ∧ disagree m
  | Err _ => False
  end.
Proof.
  cbv zeta. apply NewInventory_wf in Hinv as Hwf.
  destruct (Evaluate_spec inv rules now Hwf Hnow) as (verdicts & He & Hv).
  set (conflict_of := λ m, _) in He.
  pose proof (λ m, resolve_spec (m_digest m) (opinions_on inv now (rs_rules rules) m)) as Hr.
  destruct (omap conflict_of (inv_selectable inv)) as [|c cs] eqn:Ho; rewrite He; [|split; [done|]].
  - intros m Hm. rewrite omap_nil_iff in Ho. specialize (Ho m Hm). unfold conflict_of in Ho.
    specialize (Hr m). specialize (Hv m). destruct (resolve _ _) as [v|]; [|done].
    destruct Hr as [Ha Hk]. split.
    + intros (o1 & o2 & H1 & H2 & Hne). by rewrite !Hk in Hne.
    + rewrite selected_or_blocked by done. unfold selects. rewrite (Hv v) by done. rewrite Ha.
      split; intros [Hne H]; (split; [done|]).
      * intros o Hst. by rewrite (Hk o Hst).
      * destruct (strongest_exists _ Hne) as [o Hst]. by rewrite <-(Hk o Hst), H.
  - intros d. rewrite <-Ho. rewrite list_elem_of_fmap. setoid_rewrite list_elem_of_omap. unfold conflict_of.
    split.
    + intros (c' & -> & m & Hm & Hc). exists m. specialize (Hr m). destruct (resolve _ _); simplify_eq.
      destruct Hr as (-> & o1 & o2 & ? & ? & E1 & E2). split_and!; [done..|]. exists o1, o2. by rewrite E1, E2.
    + intros (m & Hm & <- & o1 & o2 & H1 & H2 & Hne). specialize (Hr m).
      destruct (resolve _ _) as [v|c'] eqn:Hres; [by destruct Hr as [_ Hk]; rewrite !Hk in Hne|].
      destruct Hr as [Hd _]. exists c'. split; [done|]. exists m. by rewrite Hres.
Qed.

Lemma Evaluate_precedence_witness :
  "idx" ∈ e_digest <$> p_selected example_plan ∨ "idx" ∈ bl_digest <$> p_blocked example_plan.
Proof.
  assert (NewInventory "team/app" example_snapshot = Ok example_inventory) as Hinv by (vm_compute; reflexivity).
  assert (Evaluate (Some example_inventory) select_all 100 = Ok example_plan) as He by (vm_compute; reflexivity).
  pose proof (Evaluate_precedence "team/app" example_snapshot example_inventory select_all 100 Hinv ltac:(done)) as H.
  cbv zeta in H. rewrite He in H.
  assert (img "idx" "" [mkTag "v1" false false] ["amd"] ∈ inv_selectable example_inventory) as Hm by (vm_compute; left).
  destruct (H _ Hm) as [_ Hsel]. apply Hsel. split; [vm_compute; done|]. intros o [Ho _]. vm_compute in Ho.
  apply list_elem_of_singleton in Ho as ->. reflexivity.
Defined.

(** A policy means the same whatever order its rules are written in. Two
    rule sets holding the same rules under distinct names evaluate to the same
    plan, or fail with the same conflicts, on every snapshot. *)
Theorem Evaluate_order_independent repository manifests inv rules1 rules2 now
  (Hinv : NewInventory repository manifests = Ok inv)
  (Hperm : rs_rules rules1 ≡ₚ rs_rules rules2)
  (Hnames : NoDup ((λ r, rl_name (cr_rule r)) <$> rs_rules rules1)) :
  Evaluate (Some inv) rules1 now = Evaluate (Some inv) rules2 now.
Proof.
  apply NewInventory_wf in Hinv as Hwf. unfold Evaluate. destruct (now =? 0)%Z; [done|].
  assert (foldl (decide_step (gather_opinions inv rules1 now)) (∅, []) (inv_selectable inv) =
    foldl (decide_step (gather_opinions inv rules2 now)) (∅, []) (inv_selectable inv)) as ->; [|done].
  apply foldl_ext_in. intros [verdicts conflicts] m Hm. unfold decide_step.
  rewrite !gather_opinions_lookup by done. rewrite (resolve_perm _ _ (opinions_on inv now (rs_rules rules2) m)).
  - done.
  - unfold opinions_on. by rewrite Hperm.
  - by apply opinions_on_names.
Qed.

(** Two rules, in both orders. *)
Definition clean_untagged : compiledRule := mkCompiled (mkRule "clean" 10 SelectMatched 0 0 AnyTags [] []) [] [].
Definition keep_two : compiledRule := mkCompiled (mkRule "keep" 5 KeepLastN 1 0 Tagged [] []) [] [].

Lemma Evaluate_order_independent_witness :
  Evaluate (Some example_inventory) (mkRuleSet [clean_untagged; keep_two]) 100 =
  Evaluate (Some example_inventory) (mkRuleSet [keep_two; clean_untagged]) 100.
Proof.
  apply (Evaluate_order_independent "team/app" example_snapshot).
  - vm_compute; reflexivity.
  - simpl. apply Permutation_swap.
  - vm_compute. apply (bool_decide_unpack (NoDup ["clean"; "keep"])). vm_compute. exact I.
Defined.

(** Keep-last-N keeps exactly the N newest. Of the manifests a keep-last-N
    rule matched, it keeps min(N, matched), and nothing it keeps is older than
    something it does not keep (pushed earlier, or pushed at the same instant
    with a larger digest). *)
Theorem keeps_last_n r matched now
  (Hkind : rl_kind (cr_rule r) = KeepLastN) (Hn : (0 ≤ rl_n (cr_rule r))%Z)
  (Hnd : NoDup (m_digest <$> matched)) :
  Z.of_nat (size (keeps r matched now)) = Z.min (rl_n (cr_rule r)) (Z.of_nat (length matched)) ∧
  (∀ d, d ∈ keeps r matched now → d ∈ m_digest <$> matched) ∧
  ∀ k m, k ∈ matched → m ∈ matched →
    m_digest k ∈ keeps r matched now → m_digest m ∉ keeps r matched now →
    newest_first (push_rank k) (push_rank m).
Proof.
  unfold keeps. rewrite Hkind. simpl. set (n := Z.to_nat (rl_n (cr_rule r))).
  assert (NoDup (m_digest <$> rank_newest matched)) as Hnd'
    by (unfold rank_newest; by rewrite sort_on_perm).
  assert (∀ m, m ∈ rank_newest matched ↔ m ∈ matched) as Hin by (intros m; apply sort_on_elem).
  pose proof (take_drop n (rank_newest matched)) as Htd.
  split_and!.
  - rewrite size_list_to_set.
    + rewrite length_fmap, length_take. unfold rank_newest. rewrite sort_on_length. lia.
    + rewrite <-Htd, fmap_app in Hnd'. by apply NoDup_app in Hnd' as [? _].
  - intros d. rewrite elem_of_list_to_set, !list_elem_of_fmap. intros (m & -> & Hm). exists m. split; [done|].
    apply Hin. rewrite <-Htd. apply elem_of_app. by left.
  - intros k m Hk Hm. rewrite !elem_of_list_to_set. intros (k' & Hkk & Hk')%list_elem_of_fmap Hmn.
    assert (k = k') as <-.
    { apply (nodup_key_inj m_digest matched); [done..| |done]. apply Hin. rewrite <-Htd. apply elem_of_app. by left. }
    apply Hin in Hm. rewrite <-Htd in Hm. apply elem_of_app in Hm as [Hm|Hm].
    { exfalso. apply Hmn. by apply list_elem_of_fmap_2. }
    assert (StronglySorted (on_key newest_first push_rank) (rank_newest matched)) as Hs
      by (apply sort_on_sorted; apply _).
    rewrite <-Htd in Hs. by apply (StronglySorted_app_1_elem_of _ _ _ _ _ Hs Hk' Hm).
Qed.

Lemma keeps_last_n_witness :
  keeps keep_two [img "a" "" [] []; mkManifest "b" [] 7 0 0 1 [] ""] 100 = {["b"]} ∧
  Z.of_nat (size (keeps keep_two [img "a" "" [] []; mkManifest "b" [] 7 0 0 1 [] ""] 100)) = 1%Z.
Proof.
  split; [vm_compute; reflexivity|].
  refine (proj1 (keeps_last_n keep_two [img "a" "" [] []; mkManifest "b" [] 7 0 0 1 [] ""] 100 _ _ _)).
  - reflexivity.
  - vm_compute; discriminate.
  - vm_compute. apply (bool_decide_unpack (NoDup ["a"; "b"])). vm_compute. exact I.
Defined.

(** A rule set compiles exactly when every rule stands on its own and no
    two share a name. Each rule must be named, of a known kind and tag status,
    carry only the fields its kind reads, and have non-empty patterns the
    engine accepts once anchored; a compiled set holds the rules as given, in
    order. This holds whatever the regular expression engine accepts. *)
Theorem CompileRules_exact regexp_compile rules :
  (is_ok (CompileRules regexp_compile rules) = true ↔
     Forall (rule_ok regexp_compile) rules ∧ NoDup (rl_name <$> rules)) ∧
  match CompileRules regexp_compile rules with
  | Ok rs => cr_rule <$> rs_rules rs = rules
  | Err _ => True
  end.
Proof.
  unfold CompileRules. pose proof (compile_steps_ok regexp_compile (0, ∅, []) rules) as Hok.
  destruct (foldM _ _ rules) as [st|e] eqn:Hf; simpl.
  - split; [|by apply compile_steps_rules in Hf]. split; [|done]. intros _.
    destruct (proj1 Hok (ex_intro _ st eq_refl)) as (? & ? & _). done.
  - split; [|done]. split; [done|]. intros [H1 H2].
    destruct (proj2 Hok) as [st' ?]; [|done]. split_and!; [done..|]. simpl. set_solver.
Qed.
