(* ===== verification/Meta.v ===== *)
(** * The metadata model (src/internal/meta: types.go, errors.go)

    The records every store engine keeps, the errors it answers with, and the
    options of its listings. Digests, kinds and types are Go string types; a
    time is a count of nanoseconds with 0 for the zero time. *)
From S2P Require Import Prelude.

(** ** Errors (errors.go) *)
Inductive MetaError : Type :=
| Canceled                                     (* the context's own error *)
| Closed
| NotFound (kind id : string)
| Conflict (kind id : string)
| Stale (name : string) (stored expected : Z)
| InvalidField (field : string)
| Referenced (kind id : string) (by_ : list string)
| NilMapWrite.                                 (* not an error value: the run-time panic of a write to a nil map *)

(** ** Repositories *)
Definition Hosted := "hosted".
Definition Proxy := "proxy".
Definition Group := "group".

Definition RepositoryType_Valid (t : string) : bool :=
  String.eqb t Hosted || String.eqb t Proxy || String.eqb t Group.

Record Repository : Type := mkRepository {
  rp_name : string;
  rp_type : string;
  rp_config : string;
  rp_configVersion : Z;
  rp_createdAt : Z;
  rp_updatedAt : Z;
}.

Record ConfigRevision : Type := mkConfigRevision {
  cv_repository : string; cv_version : Z; cv_config : string; cv_actor : string; cv_at : Z;
}.

Record ProxyCredential : Type := mkProxyCredential { px_repository : string; px_sealed : string; px_rotatedAt : Z }.

Record ProxyCredentialStatus : Type := mkProxyCredentialStatus {
  ps_repository : string; ps_set : bool; ps_rotatedAt : Z;
}.

Record GroupMember : Type := mkGroupMember {
  gm_repository : string; gm_position : Z; gm_required : bool; gm_writeTarget : bool;
}.

(** ** Hosted content *)
Record Manifest : Type := mkManifest {
  mf_repository : string;
  mf_digest : string;
  mf_mediaType : string;
  mf_artifactType : string;
  mf_subject : string;
  mf_payload : string;
  mf_size : Z;
  mf_createdAt : Z;
}.

Definition RefConfig := "config".
Definition RefLayer := "layer".
Definition RefChild := "child-manifest".
Definition RefSubject := "subject".

Definition RefKind_Valid (k : string) : bool :=
  String.eqb k RefConfig || String.eqb k RefLayer || String.eqb k RefChild || String.eqb k RefSubject.

Record ManifestRef : Type := mkManifestRef { ref_child : string; ref_kind : string }.

Record Tag : Type := mkTag {
  tg_repository : string; tg_name : string; tg_digest : string; tg_createdAt : Z; tg_updatedAt : Z;
}.

Record Blob : Type := mkBlob { bb_digest : string; bb_size : Z; bb_createdAt : Z }.

Record UploadSession : Type := mkUpload {
  up_id : string; up_repository : string; up_digest : string; up_bytes : Z; up_startedAt : Z; up_lastChunkAt : Z;
}.

Record GCRun : Type := mkGCRun {
  gr_id : string;
  gr_startedAt : Z;
  gr_finishedAt : Z;
  gr_sweepBefore : Z;
  gr_cursor : string;
  gr_scanned : Z;
  gr_deleted : Z;
  gr_freedBytes : Z;
  gr_failure : string;
}.

(** ** Cached content *)
Record CachedManifest : Type := mkCachedManifest {
  cm_repository : string;
  cm_digest : string;
  cm_mediaType : string;
  cm_artifactType : string;
  cm_subject : string;
  cm_payload : string;
  cm_size : Z;
  cm_cachedAt : Z;
  cm_lastAccessAt : Z;
}.

Record CachedBlob : Type := mkCachedBlob {
  cb_repository : string; cb_digest : string; cb_size : Z; cb_cachedAt : Z; cb_lastAccessAt : Z;
}.

Record TagLease : Type := mkTagLease {
  tl_repository : string; tl_tag : string; tl_digest : string; tl_etag : string;
  tl_fetchedAt : Z; tl_ttl : Z; tl_stale : bool;
}.

Record NegativeEntry : Type := mkNegativeEntry {
  ne_repository : string; ne_reference : string; ne_observedAt : Z; ne_ttl : Z;
}.

Definition CachedManifestKind := "manifest".
Definition CachedBlobKind := "blob".

Definition CachedKind_Valid (k : string) : bool :=
  String.eqb k CachedManifestKind || String.eqb k CachedBlobKind.

Record CachedItem : Type := mkCachedItem {
  ci_repository : string; ci_digest : string; ci_kind : string; ci_size : Z; ci_lastAccessAt : Z;
}.

Record CacheUsage : Type := mkCacheUsage {
  cu_bytes : Z; cu_manifestBytes : Z; cu_blobBytes : Z; cu_manifests : Z; cu_blobs : Z;
}.

Record CacheAccess : Type := mkCacheAccess { ca_repository : string; ca_digest : string; ca_kind : string; ca_at : Z }.

(** ** Pull statistics *)
Record PullRecord : Type := mkPullRecord { pr_repository : string; pr_reference : string; pr_at : Z; pr_count : Z }.
Record PullStats : Type := mkPullStats { pl_repository : string; pl_reference : string; pl_lastPulledAt : Z; pl_count : Z }.

(** ** Listings *)
Record ScopeFilter : Type := mkScopeFilter { sf_all : bool; sf_exact : string; sf_prefix : string }.

Definition ScopeFilter_Matches (f : ScopeFilter) (name : string) : bool :=
  if sf_all f then true
  else if negb (String.eqb (sf_exact f) "") then String.eqb name (sf_exact f)
  else if negb (String.eqb (sf_prefix f) "") then
    (String.length (sf_prefix f) <? String.length name) &&
    String.eqb (String.substring 0 (String.length (sf_prefix f)) name) (sf_prefix f)
  else false.

Record Visibility : Type := mkVisibility { vs_unrestricted : bool; vs_filters : list ScopeFilter }.

Definition Unrestricted : Visibility := mkVisibility true [].
Definition VisibleTo (filters : list ScopeFilter) : Visibility := mkVisibility false filters.

Definition Visibility_Allows (v : Visibility) (name : string) : bool :=
  if vs_unrestricted v then true else existsb (λ f, ScopeFilter_Matches f name) (vs_filters v).

Record ListOptions : Type := mkListOptions { lo_visibility : Visibility; lo_limit : Z; lo_cursor : string }.

Definition DefaultPageSize : Z := 100.
Definition MaxPageSize : Z := 1000.

Definition EffectiveLimit (o : ListOptions) : Z :=
  if (lo_limit o <=? 0)%Z then DefaultPageSize
  else if (MaxPageSize <? lo_limit o)%Z then MaxPageSize
  else lo_limit o.

Lemma EffectiveLimit_bounds o : (1 ≤ EffectiveLimit o ≤ 1000)%Z.
Proof. unfold EffectiveLimit, DefaultPageSize, MaxPageSize. repeat case_match; lia. Qed.
