(* ===== verification/Group.v ===== *)
(** * Repository entities, group resolution and proxy routing
    (src/internal/repo: repo.go, group.go, group_filter.go, routing_rules.go,
    and src/internal/groupserve/groupserve.go, the caller of [Resolve])

    A group answers a read from its first member, by explicit position, that
    has the content; members the subject cannot read are removed first. The
    delegates that serve members are parameters of [resolve]. *)
From S2P Require Import Prelude RepoName Meta Authz.

(** ** Entities (repo.go) *)
Definition ReservedPrefix := "system".

Definition Split (name : string) : result InvalidError (string * string) :=
  check! Validate name in
  let '(entity, remainder, _) := Cut name "/" in
  Ok (entity, remainder).

Definition ValidateEntityName (name : string) : result InvalidError unit :=
  check! Validate name in
  if ContainsByte name "/" then Err (Invalid name NameNotOneSegment)
  else if String.eqb name ReservedPrefix then Err (Invalid name NameReserved)
  else Ok tt.

Definition Writable (t : string) : bool := String.eqb t Hosted.

(** ** Group resolution (group.go) *)
Inductive GroupReason : Type :=
| GroupBadName (e : InvalidError)
| GroupNested
| GroupUnknownType (t : string)
| GroupListedTwice
| GroupPositionTaken (position : Z)
| GroupNotAsked.

Record GroupError : Type := groupErr { ge_member : string; ge_reason : GroupReason }.

(** [MemberOutcome] is a uint8; [MemberOther] is a value outside the enum. *)
Inductive MemberOutcome : Type :=
| MemberUnasked
| MemberServed
| MemberNotFound
| MemberDown
| MemberMalformed
| MemberOther (n : N).

#[export] Instance MemberOutcome_eq_dec : EqDecision MemberOutcome.
Proof. solve_decision. Defined.

Record MemberState : Type := mkMemberState {
  ms_repository : string;
  ms_content : string;
  ms_type : string;
  ms_position : Z;
  ms_required : bool;
  ms_outcome : MemberOutcome;
}.

Definition SkippedDown := "down".
Definition SkippedMalformed := "malformed".

Record SkippedMember : Type := mkSkipped { sk_repository : string; sk_position : Z; sk_reason : string }.

Inductive GroupOutcome : Type := GroupInvalid | GroupServed | GroupNotFound | GroupUnavailable.

#[export] Instance GroupOutcome_eq_dec : EqDecision GroupOutcome.
Proof. solve_decision. Defined.

Record Resolution : Type := mkResolution {
  rn_outcome : GroupOutcome;
  rn_reference : string;
  rn_member : string;
  rn_position : Z;
  rn_reason : string;
  rn_skipped : list SkippedMember;
  rn_err : option GroupError;
}.

(** One iteration of the checks of [orderMembers]. *)
Definition check_member (seen : gset string * gset Z) (member : MemberState)
    : result GroupError (gset string * gset Z) :=
  let '(seenName, seenPosition) := seen in
  check! result_map_err (λ e, groupErr (ms_repository member) (GroupBadName e))
           (ValidateEntityName (ms_repository member)) in
  if negb (String.eqb (ms_type member) Hosted || String.eqb (ms_type member) Proxy) then
    Err (groupErr (ms_repository member)
      (if String.eqb (ms_type member) Group then GroupNested else GroupUnknownType (ms_type member)))
  else if bool_decide (ms_repository member ∈ seenName) then Err (groupErr (ms_repository member) GroupListedTwice)
  else if bool_decide (ms_position member ∈ seenPosition) then
    Err (groupErr (ms_repository member) (GroupPositionTaken (ms_position member)))
  else Ok ({[ms_repository member]} ∪ seenName, {[ms_position member]} ∪ seenPosition).

Definition orderMembers (members : list MemberState) : result GroupError (list MemberState) :=
  let! _ := foldM check_member (∅, ∅) members in
  Ok (sort_on Z.le ms_position members).

(** How a member failed, for a member that did. *)
Definition skip_reason (o : MemberOutcome) : string :=
  if decide (o = MemberMalformed) then SkippedMalformed else SkippedDown.

Fixpoint resolve_loop (reference : string) (skipped : list SkippedMember) (ordered : list MemberState) : Resolution :=
  match ordered with
  | [] => mkResolution GroupNotFound reference "" 0 "" skipped None
  | member :: ordered =>
      match ms_outcome member with
      | MemberServed =>
          mkResolution GroupServed reference (ms_repository member) (ms_position member) "" skipped None
      | MemberNotFound => resolve_loop reference skipped ordered
      | MemberDown | MemberMalformed =>
          let reason := skip_reason (ms_outcome member) in
          if ms_required member then
            mkResolution GroupUnavailable reference (ms_repository member) (ms_position member) reason skipped None
          else
            resolve_loop reference
              (skipped ++ [mkSkipped (ms_repository member) (ms_position member) reason]) ordered
      | MemberUnasked | MemberOther _ =>
          mkResolution GroupInvalid reference "" 0 "" [] (Some (groupErr (ms_repository member) GroupNotAsked))
      end
  end.

(** A [MemberSet] wraps the member slice. *)
Record MemberSet : Type := mkMemberSet { set_members : list MemberState }.

Definition Resolve (set : MemberSet) (reference : string) : Resolution :=
  match orderMembers (set_members set) with
  | Err err => mkResolution GroupInvalid reference "" 0 "" [] (Some err)
  | Ok ordered => resolve_loop reference [] ordered
  end.

(** ** Permission filtering (group_filter.go) *)
Definition AllMembers (members : list MemberState) : MemberSet := mkMemberSet members.

Definition VisibleMembers (members : list MemberState) (bindings : list Binding) : MemberSet :=
  mkMemberSet (foldl (λ visible member,
    match Repository (ms_content member) with
    | Err _ => visible
    | Ok resource =>
        if negb (Allows bindings RepoRead resource) then visible else visible ++ [member]
    end) [] members).

Definition with_outcome (outcomes : gmap string MemberOutcome) (member : MemberState) : MemberState :=
  match outcomes !! ms_repository member with
  | Some outcome =>
      mkMemberState (ms_repository member) (ms_content member) (ms_type member)
        (ms_position member) (ms_required member) outcome
  | None => member
  end.

Definition With (s : MemberSet) (outcomes : gmap string MemberOutcome) : MemberSet :=
  mkMemberSet (with_outcome outcomes <$> set_members s).

(** ** Routing rules (routing_rules.go, config.go) *)

(** A proxy configuration as the metadata store holds it. *)
Record ProxyConfig : Type := mkProxyConfig {
  pc_upstream : string;
  pc_defaultNamespace : string;
  pc_allow : list string;
  pc_block : list string;
  pc_defaultDeny : bool;
  pc_trustedHosts : list string;
  pc_tagTTL : string;
  pc_negativeTTL : string;
  pc_offlineMode : string;
}.

Inductive RoutingReason : Type := RoutedByBlock | RoutedByAllow | RoutedByDefaultAllow | RoutedByDefaultDeny.

Record RoutingDecision : Type := mkRoutingDecision {
  rd_allowed : bool;
  rd_reason : RoutingReason;
  rd_pattern : string;
  rd_remainder : string;
}.

Record RoutingRules : Type := mkRoutingRules { rr_allow : list string; rr_block : list string; rr_defaultDeny : bool }.

Inductive ConfigReason : Type := ConfigScope (e : InvalidScopeError) | ConfigSystemScope.
Record ConfigError : Type := configErr { ce_field : string; ce_reason : ConfigReason }.

Definition compile_patterns (field : string) (patterns : list string) : result ConfigError (list string) :=
  foldM (λ into pattern,
    let! scope := result_map_err (λ e, configErr field (ConfigScope e)) (ParseScope pattern) in
    if String.eqb scope SystemScope then Err (configErr field ConfigSystemScope)
    else Ok (into ++ [scope])) [] patterns.

Definition CompileRoutingRules (cfg : ProxyConfig) : result ConfigError RoutingRules :=
  let! allow := compile_patterns "allow" (pc_allow cfg) in
  let! block := compile_patterns "block" (pc_block cfg) in
  Ok (mkRoutingRules allow block (pc_defaultDeny cfg)).

(** The first pattern of a list that matches. *)
Definition first_match (patterns : list string) (resource : Resource) : option string :=
  snd <$> list_find (λ pattern, Scope_Matches pattern resource = true) patterns.

Definition RoutingRules_Evaluate (r : RoutingRules) (remainder : string) : result InvalidError RoutingDecision :=
  let! resource := Repository remainder in
  match first_match (rr_block r) resource with
  | Some pattern => Ok (mkRoutingDecision false RoutedByBlock pattern remainder)
  | None =>
      match first_match (rr_allow r) resource with
      | Some pattern => Ok (mkRoutingDecision true RoutedByAllow pattern remainder)
      | None =>
          if rr_defaultDeny r then Ok (mkRoutingDecision false RoutedByDefaultDeny "" remainder)
          else Ok (mkRoutingDecision true RoutedByDefaultAllow "" remainder)
      end
  end.

(** ** Serving a group (groupserve.go) *)

(** What a delegate's read can fail with, as far as a group distinguishes. *)
Inductive ServeError : Type := ErrContentUnknown | ErrUpstreamUnavailable | ErrOther.

Inductive ResolveError : Type :=
| ResolveContentUnknown
| ResolveUpstreamUnavailable
| ResolveStore (e : MetaError)
| ResolveNoSubject
| ResolveInvalid (e : option GroupError).

(** The payload of a [group.member.skipped] event. *)
Record SkipEvent : Type := mkSkipEvent { se_group : string; se_member : string; se_reference : string; se_reason : string }.

Definition contentNameFor (member remainder : string) : string :=
  if String.eqb remainder "" then member else member +:+ "/" +:+ remainder.

(** The insertion sort: [sink] moves a member left past every member of a
    strictly greater position; the prefix is held reversed. *)
Fixpoint sink (x : MemberState) (rev_prefix : list MemberState) : list MemberState :=
  match rev_prefix with
  | [] => [x]
  | y :: rest => if (ms_position x <? ms_position y)%Z then y :: sink x rest else x :: rev_prefix
  end.

Definition sortByPosition (members : list MemberState) : list MemberState :=
  reverse (foldl (λ prefix x, sink x prefix) [] members).

(** The store and binding reads a group makes for one request. *)
Class GroupReads : Type := {
  GetRepository : string → result MetaError Meta.Repository;
  ListGroupMembers : string → result MetaError (list GroupMember);
  FetchBindings : string → result MetaError (list Binding);
}.

Section serve.
Context {Served : Type}.

(** The delegates by member type, for one read: what asking for a content name
    gives. *)
Record Members : Type := mkMembers {
  d_hosted : option (string → result ServeError Served);
  d_proxy : option (string → result ServeError Served);
}.

Definition outcomeOf (r : result ServeError Served) : MemberOutcome :=
  match r with
  | Ok _ => MemberServed
  | Err ErrContentUnknown => MemberNotFound
  | Err _ => MemberDown
  end.

(** The delegate that serves a member's type; [None] is not askable, and the
    member is down. *)
Definition delegateFor (members : Members) (member : MemberState) : option (string → result ServeError Served) :=
  if String.eqb (ms_type member) Hosted then d_hosted members
  else if String.eqb (ms_type member) Proxy then d_proxy members
  else None.

Fixpoint ask_loop (members : Members) (outcomes : gmap string MemberOutcome) (ordered : list MemberState)
    : gmap string MemberOutcome * option Served :=
  match ordered with
  | [] => (outcomes, None)
  | member :: ordered =>
      match delegateFor members member with
      | None => ask_loop members (<[ms_repository member := MemberDown]> outcomes) ordered
      | Some delegate =>
          let answer := delegate (ms_content member) in
          let outcomes := <[ms_repository member := outcomeOf answer]> outcomes in
          match answer with
          | Ok served => (outcomes, Some served)
          | Err _ => ask_loop members outcomes ordered
          end
      end
  end.

Definition askMembers (members : Members) (states : list MemberState) : gmap string MemberOutcome * option Served :=
  ask_loop members ∅ (sortByPosition states).

Section reads.
Context `{GroupReads}.

Definition typeOf (member : string) : result ResolveError string :=
  let! record := result_map_err ResolveStore (GetRepository member) in
  Ok (rp_type record).

Definition visibleMembers (subject : option string) (stored : list GroupMember) (remainder : string)
    : result ResolveError MemberSet :=
  match subject with
  | None => Err ResolveNoSubject
  | Some name =>
      let! bindings := result_map_err ResolveStore (FetchBindings name) in
      let! candidates := foldM (λ candidates member,
        let! memberType := typeOf (gm_repository member) in
        Ok (candidates ++ [mkMemberState (gm_repository member) (contentNameFor (gm_repository member) remainder)
              memberType (gm_position member) (gm_required member) MemberUnasked])) [] stored in
      Ok (VisibleMembers candidates bindings)
  end.

Definition publishSkips (group : string) (resolution : Resolution) : list SkipEvent :=
  (λ skipped, mkSkipEvent group (sk_repository skipped) (rn_reference resolution) (sk_reason skipped))
    <$> rn_skipped resolution.

(** The events published and the answer: the served value, or an error. The
    answer of [GroupServed] is the value the delegate left behind. *)
Definition resolve (members : Members) (subject : option string) (name reference : string)
    : list SkipEvent * result ResolveError (option Served) :=
  match Split name with
  | Err _ => ([], Err ResolveContentUnknown)
  | Ok (group, remainder) =>
      match GetRepository group with
      | Err (NotFound _ _) => ([], Err ResolveContentUnknown)
      | Err e => ([], Err (ResolveStore e))
      | Ok record =>
          if negb (String.eqb (rp_type record) Group) then ([], Err ResolveContentUnknown)
          else match ListGroupMembers group with
          | Err e => ([], Err (ResolveStore e))
          | Ok stored =>
              match visibleMembers subject stored remainder with
              | Err e => ([], Err e)
              | Ok visible =>
                  let '(outcomes, served) := askMembers members (set_members visible) in
                  let resolution := Resolve (With visible outcomes) reference in
                  (publishSkips name resolution,
                   match rn_outcome resolution with
                   | GroupServed => Ok served
                   | GroupNotFound => Err ResolveContentUnknown
                   | GroupUnavailable => Err ResolveUpstreamUnavailable
                   | GroupInvalid => Err (ResolveInvalid (rn_err resolution))
                   end)
              end
          end
      end
  end.
End reads.
End serve.
Arguments Members : clear implicits.
