(* ===== verification/GroupSpec.v ===== *)
(** * What group resolution guarantees

    [Resolve] is the first-match fold over explicit positions; serving a group
    over lazily asked delegates gives the answer of that fold; members the
    subject cannot read leave no trace; routing precedence. *)
From S2P Require Import Prelude RepoName Meta Authz Group.

(** ** The member list checks *)
Definition member_ok (m : MemberState) : Prop :=
  ValidateEntityName (ms_repository m) = Ok tt ∧ (ms_type m = Hosted ∨ ms_type m = Proxy).

(** The lists [orderMembers] accepts. *)
Record members_ok (ms : list MemberState) : Prop := {
  mo_each : Forall member_ok ms;
  mo_names : NoDup (ms_repository <$> ms);
  mo_positions : NoDup (ms_position <$> ms);
}.

Lemma check_member_ok seen m seen' :
  check_member seen m = Ok seen' ↔
  member_ok m ∧ ms_repository m ∉ seen.1 ∧ ms_position m ∉ seen.2 ∧
  seen' = ({[ms_repository m]} ∪ seen.1, {[ms_position m]} ∪ seen.2).
Proof.
  destruct seen as [names positions]. unfold check_member, member_ok. simpl.
  destruct (ValidateEntityName (ms_repository m)) as [[]|]; simpl; [|naive_solver].
  destruct (String.eqb_spec (ms_type m) Hosted), (String.eqb_spec (ms_type m) Proxy); simpl;
    repeat case_bool_decide; naive_solver.
Qed.

Lemma check_members_ok seen ms :
  is_ok (foldM check_member seen ms) = true ↔
  members_ok ms ∧ (∀ m, m ∈ ms → ms_repository m ∉ seen.1 ∧ ms_position m ∉ seen.2).
Proof.
  revert seen. induction ms as [|m ms IH]; intros seen; simpl.
  { split; [|done]. intros _. split; [split; constructor|]. by intros m ?%not_elem_of_nil. }
  destruct (check_member seen m) as [seen'|e] eqn:Hc; simpl.
  - apply check_member_ok in Hc as (Hm & Hn & Hp & ->). rewrite IH. simpl. split.
    + intros [[H1 H2 H3] H4]. split.
      * split; csimpl; [by constructor|..]; (constructor; [|done]);
          intros (m' & He & Hm')%list_elem_of_fmap; destruct (H4 m' Hm') as [? ?]; set_solver.
      * intros m' [->|Hm']%elem_of_cons; [done|]. destruct (H4 m' Hm'); set_solver.
    + intros [[H1 H2 H3] H4]. csimpl in *. apply Forall_cons in H1 as [_ H1].
      apply NoDup_cons in H2 as [Hx H2]. apply NoDup_cons in H3 as [Hy H3]. split; [done|].
      intros m' Hm'. destruct (H4 m') as [? ?]; [by right|].
      apply (list_elem_of_fmap_2 ms_repository) in Hm' as Hr.
      apply (list_elem_of_fmap_2 ms_position) in Hm' as Hq. set_solver.
  - split; [done|]. intros [[H1 H2 H3] H4]. destruct (H4 m) as [Hn Hp]; [by left|].
    apply Forall_cons in H1 as [H1 _].
    assert (check_member seen m = Ok ({[ms_repository m]} ∪ seen.1, {[ms_position m]} ∪ seen.2)) by
      (by apply check_member_ok). congruence.
Qed.

Lemma orderMembers_ok ms :
  members_ok ms → orderMembers ms = Ok (sort_on Z.le ms_position ms).
Proof.
  intros Hok. unfold orderMembers. destruct (foldM _ _ ms) eqn:Hf; [done|].
  assert (is_ok (foldM check_member (∅, ∅) ms) = true) as H; [|by rewrite Hf in H].
  apply check_members_ok. split; [done|]. simpl. set_solver.
Qed.

Lemma orderMembers_err ms : ¬ members_ok ms → ∃ e, orderMembers ms = Err e.
Proof.
  intros Hok. unfold orderMembers. destruct (foldM _ _ ms) eqn:Hf; simpl; [|by eauto]. exfalso. apply Hok.
  refine (proj1 (proj1 (check_members_ok (∅, ∅) ms) _)). by rewrite Hf.
Qed.

#[export] Instance members_ok_perm : Proper ((≡ₚ) ==> iff) members_ok.
Proof.
  assert (∀ l1 l2, l1 ≡ₚ l2 → members_ok l1 → members_ok l2) as H.
  { intros l1 l2 Hp [H1 H2 H3]. split; by rewrite <-Hp. }
  intros l1 l2 Hp. split; apply H; by symmetry in Hp || done.
Qed.

(** ** The fold *)
Definition failed (m : MemberState) : Prop := ms_outcome m = MemberDown ∨ ms_outcome m = MemberMalformed.

(** The group passes the member over and goes on. *)
Definition passed (m : MemberState) : Prop :=
  ms_outcome m = MemberNotFound ∨ (failed m ∧ ms_required m = false).

#[export] Instance failed_dec m : Decision (failed m).
Proof. unfold failed. apply _. Defined.

Definition skipped_of (m : MemberState) : SkippedMember :=
  mkSkipped (ms_repository m) (ms_position m) (skip_reason (ms_outcome m)).

(** What stopped the fold at a member. *)
Definition stops (m : MemberState) (r : Resolution) : Prop :=
  match rn_outcome r with
  | GroupServed => ms_outcome m = MemberServed ∧ rn_member r = ms_repository m ∧ rn_position r = ms_position m
  | GroupUnavailable =>
      failed m ∧ ms_required m = true ∧ rn_member r = ms_repository m ∧ rn_position r = ms_position m ∧
      rn_reason r = skip_reason (ms_outcome m)
  | GroupInvalid =>
      (ms_outcome m = MemberUnasked ∨ ∃ n, ms_outcome m = MemberOther n) ∧
      rn_err r = Some (groupErr (ms_repository m) GroupNotAsked)
  | GroupNotFound => False
  end.

(** A resolution as a split of the ordered members: those passed over, then the
    member that stopped the fold, if any. *)
Definition fold_result (reference : string) (skipped : list SkippedMember) (ms : list MemberState) (r : Resolution) : Prop :=
  rn_reference r = reference ∧
  ∃ pre post, ms = pre ++ post ∧ Forall passed pre ∧
    rn_skipped r =
      (if decide (rn_outcome r = GroupInvalid) then [] else skipped ++ (skipped_of <$> filter failed pre)) ∧
    match post with [] => rn_outcome r = GroupNotFound | m :: _ => stops m r end.

Lemma fold_result_pass reference skipped m ms r :
  passed m → fold_result reference (skipped ++ (skipped_of <$> filter failed [m])) ms r →
  fold_result reference skipped (m :: ms) r.
Proof.
  intros Hp (Hr & pre & post & -> & Hpre & Hs & Hpost). split; [done|].
  exists (m :: pre), post. split_and!; [done|by constructor| |done].
  rewrite Hs. case_decide; [done|]. by rewrite <-(assoc_L (++)), <-fmap_app, <-filter_app.
Qed.

Lemma fold_result_stop reference skipped m ms r :
  stops m r → rn_reference r = reference →
  rn_skipped r = (if decide (rn_outcome r = GroupInvalid) then [] else skipped) →
  fold_result reference skipped (m :: ms) r.
Proof.
  intros Hst Hr Hs. split; [done|]. exists [], (m :: ms). simpl. rewrite app_nil_r.
  by split_and!; [|constructor|..].
Qed.

Lemma resolve_loop_result reference skipped ms :
  fold_result reference skipped ms (resolve_loop reference skipped ms).
Proof.
  revert skipped. induction ms as [|m ms IH]; intros skipped; simpl.
  { split; [done|]. exists [], []. simpl. rewrite app_nil_r. by split_and!; [|constructor|..]. }
  assert (failed m → ms_required m = false →
    fold_result reference skipped (m :: ms) (resolve_loop reference (skipped ++ [skipped_of m]) ms)) as Hskip.
  { intros Hf Hq. apply fold_result_pass; [by right|]. by rewrite filter_cons_True. }
  unfold skipped_of in Hskip.
  destruct (ms_outcome m) eqn:Ho; try (apply fold_result_stop; unfold stops; simpl; by eauto).
  - apply fold_result_pass; [by left|]. rewrite filter_cons_False, filter_nil, app_nil_r; [done|].
    unfold failed. rewrite Ho. naive_solver.
  - destruct (ms_required m) eqn:Hq; [|by apply Hskip; [left|]].
    apply fold_result_stop; unfold stops, failed; simpl; rewrite ?Ho; auto 8.
  - destruct (ms_required m) eqn:Hq; [|by apply Hskip; [right|]].
    apply fold_result_stop; unfold stops, failed; simpl; rewrite ?Ho; auto 8.
Qed.

(** ** Sorting by position *)
Lemma sink_perm x l : sink x l ≡ₚ x :: l.
Proof.
  induction l as [|y l IH]; simpl; [done|]. destruct (_ <? _)%Z; [|done]. rewrite IH. apply Permutation_swap.
Qed.

Lemma sink_sorted x l :
  StronglySorted (λ a b, (ms_position b ≤ ms_position a)%Z) l →
  StronglySorted (λ a b, (ms_position b ≤ ms_position a)%Z) (sink x l).
Proof.
  induction 1 as [|y l Hs IH Hf]; simpl; [by repeat constructor|].
  destruct (Z.ltb_spec (ms_position x) (ms_position y)).
  - constructor; [done|]. rewrite sink_perm. constructor; [lia|done].
  - constructor; [by constructor|]. constructor; [lia|]. eapply Forall_impl; [done|]. simpl. lia.
Qed.

Lemma StronglySorted_reverse {A} (R : relation A) l : StronglySorted R l → StronglySorted (flip R) (reverse l).
Proof.
  induction 1 as [|x l Hs IH Hf]; [constructor|]. rewrite reverse_cons. apply StronglySorted_app_2; [|done|by repeat constructor].
  intros a b Ha ->%list_elem_of_singleton. rewrite elem_of_reverse in Ha. rewrite Forall_forall in Hf. by apply Hf.
Qed.

(** The hand-written insertion sort is the sort by position. *)
Lemma sortByPosition_eq ms : NoDup (ms_position <$> ms) → sortByPosition ms = sort_on Z.le ms_position ms.
Proof.
  intros Hnd.
  assert (∀ acc, foldl (λ prefix x, sink x prefix) acc ms ≡ₚ acc ++ ms ∧
    (StronglySorted (λ a b, (ms_position b ≤ ms_position a)%Z) acc →
     StronglySorted (λ a b, (ms_position b ≤ ms_position a)%Z) (foldl (λ prefix x, sink x prefix) acc ms))) as H.
  { clear Hnd. induction ms as [|m ms IH]; intros acc; simpl; [by rewrite app_nil_r|].
    destruct (IH (sink m acc)) as [Hp Hs]. split; [|by auto using sink_sorted].
    rewrite Hp, sink_perm. simpl. by rewrite Permutation_middle. }
  destruct (H []) as [Hp Hs]. specialize (Hs ltac:(constructor)). clear H. unfold sortByPosition.
  eapply (StronglySorted_unique_strong (on_key Z.le ms_position)).
  - intros x y Hx Hy. unfold on_key. intros. rewrite elem_of_reverse, Hp in Hx. rewrite sort_on_elem in Hy.
    apply (nodup_key_inj ms_position ms); [done..|]. lia.
  - apply StronglySorted_reverse in Hs. exact Hs.
  - apply sort_on_sorted; apply _.
  - rewrite reverse_Permutation, Hp, sort_on_perm. done.
Qed.

Lemma sort_on_fmap (f : MemberState → MemberState) ms :
  (∀ m, ms_position (f m) = ms_position m) → NoDup (ms_position <$> ms) →
  sort_on Z.le ms_position (f <$> ms) = f <$> sort_on Z.le ms_position ms.
Proof.
  intros Hf Hnd.
  assert (ms_position <$> (f <$> ms) = ms_position <$> ms) as Hk
    by (rewrite <-list_fmap_compose; apply list_fmap_ext; intros; apply Hf).
  eapply (StronglySorted_unique_strong (on_key Z.le ms_position)).
  - intros x y Hx Hy. unfold on_key. intros. rewrite sort_on_elem in Hx. rewrite sort_on_perm in Hy.
    apply (nodup_key_inj ms_position (f <$> ms)); [by rewrite Hk|done..|lia].
  - apply sort_on_sorted; apply _.
  - assert (StronglySorted (on_key Z.le ms_position) (sort_on Z.le ms_position ms)) as Hs
      by (apply sort_on_sorted; apply _).
    clear -Hs Hf. induction Hs as [|m l Hs IH Hall]; csimpl; [constructor|]. constructor; [done|].
    rewrite Forall_fmap. eapply Forall_impl; [exact Hall|]. intros b Hb.
    unfold on_key in *. simpl. by rewrite !Hf.
  - by rewrite !sort_on_perm.
Qed.

(** ** Serving a group *)
Lemma with_outcome_fields outcomes m :
  let m' := with_outcome outcomes m in
  ms_repository m' = ms_repository m ∧ ms_type m' = ms_type m ∧ ms_position m' = ms_position m ∧
  ms_required m' = ms_required m.
Proof. unfold with_outcome. by destruct (outcomes !! _). Qed.

Lemma members_ok_with outcomes ms : members_ok (with_outcome outcomes <$> ms) ↔ members_ok ms.
Proof.
  assert (ms_repository <$> (with_outcome outcomes <$> ms) = ms_repository <$> ms) as H1
    by (rewrite <-list_fmap_compose; apply list_fmap_ext; intros; apply with_outcome_fields).
  assert (ms_position <$> (with_outcome outcomes <$> ms) = ms_position <$> ms) as H2
    by (rewrite <-list_fmap_compose; apply list_fmap_ext; intros; apply with_outcome_fields).
  assert (∀ m, member_ok (with_outcome outcomes m) ↔ member_ok m) as H3.
  { intros m. unfold member_ok. by destruct (with_outcome_fields outcomes m) as (-> & -> & _). }
  split; intros [Ha Hb Hc]; split; rewrite ?H1, ?H2 in *; try done; rewrite Forall_fmap in *;
    (eapply Forall_impl; [exact Ha|]; intros m; apply H3).
Qed.

Section serving.
Context {Served : Type} (members : Members Served) (name reference : string).

(** Asking one member; a member no delegate serves is unreachable. *)
Definition ask_member (m : MemberState) : result ServeError Served :=
  match delegateFor members m with
  | None => Err ErrUpstreamUnavailable
  | Some delegate => delegate (ms_content m)
  end.

(** The contract of a group read: walk the members in order; the first that
    has the content answers; one that cannot answer is reported and passed
    over, unless it is required. *)
Fixpoint first_answer (events : list SkipEvent) (ms : list MemberState)
    : list SkipEvent * result ResolveError (option Served) :=
  match ms with
  | [] => (events, Err ResolveContentUnknown)
  | m :: ms =>
      match ask_member m with
      | Ok served => (events, Ok (Some served))
      | Err ErrContentUnknown => first_answer events ms
      | Err _ =>
          if ms_required m then (events, Err ResolveUpstreamUnavailable)
          else first_answer (events ++ [mkSkipEvent name (ms_repository m) reference SkippedDown]) ms
      end
  end.

Definition answer_of (r : Resolution) (served : option Served) : list SkipEvent * result ResolveError (option Served) :=
  (publishSkips name r,
   match rn_outcome r with
   | GroupServed => Ok served
   | GroupNotFound => Err ResolveContentUnknown
   | GroupUnavailable => Err ResolveUpstreamUnavailable
   | GroupInvalid => Err (ResolveInvalid (rn_err r))
   end).

Lemma ask_loop_other outcomes ms n :
  n ∉ ms_repository <$> ms → (ask_loop members outcomes ms).1 !! n = outcomes !! n.
Proof.
  revert outcomes. induction ms as [|m ms IH]; intros outcomes Hn; simpl; [done|].
  rewrite fmap_cons, not_elem_of_cons in Hn. destruct Hn as [Hne Hn].
  destruct (delegateFor members m) as [delegate|]; [|by rewrite IH, lookup_insert_ne].
  destruct (delegate (ms_content m)); simpl; [by rewrite lookup_insert_ne|]. by rewrite IH, lookup_insert_ne.
Qed.

(** Asking lazily and folding over the outcomes gives the contract's answer. *)
Lemma ask_resolve outcomes skipped ms :
  NoDup (ms_repository <$> ms) →
  let asked := ask_loop members outcomes ms in
  answer_of (resolve_loop reference skipped (with_outcome asked.1 <$> ms)) asked.2 =
  first_answer ((λ s, mkSkipEvent name (sk_repository s) reference (sk_reason s)) <$> skipped) ms.
Proof.
  revert outcomes skipped. induction ms as [|m ms IH]; intros outcomes skipped Hnd; [done|].
  rewrite fmap_cons in Hnd. apply NoDup_cons in Hnd as [Hm Hnd]. cbn zeta.
  assert (∀ o l, (ask_loop members (<[ms_repository m := o]> outcomes) ms).1 = l →
    with_outcome l m = mkMemberState (ms_repository m) (ms_content m) (ms_type m) (ms_position m) (ms_required m) o) as Hw.
  { intros o l <-. unfold with_outcome. by rewrite ask_loop_other, lookup_insert_eq. }
  cbn [first_answer ask_loop fmap list_fmap]. unfold ask_member.
  assert (∀ o, outcomeOf (Err o : result ServeError Served) = MemberDown ∨ o = ErrContentUnknown) as Ho
    by (intros []; auto).
  destruct (delegateFor members m) as [delegate|] eqn:Hd.
  - destruct (delegate (ms_content m)) as [v|e] eqn:He.
    + cbn [fst snd]. unfold with_outcome at 1. rewrite lookup_insert_eq. simpl.
      unfold answer_of, publishSkips. simpl. done.
    + rewrite (Hw (outcomeOf (Err e)) _ eq_refl). cbn [resolve_loop ms_outcome ms_required].
      destruct e; simpl; [by apply IH| |]; (destruct (ms_required m);
        [done|rewrite IH by done; by rewrite fmap_app]).
  - rewrite (Hw MemberDown _ eq_refl). simpl. destruct (ms_required m); [done|].
    rewrite IH by done. by rewrite fmap_app.
Qed.
End serving.

(** [VisibleMembers] keeps exactly the members whose content the bindings let
    the subject read. *)
Definition readable (bindings : list Binding) (content : string) : bool :=
  match Repository content with Ok resource => Allows bindings RepoRead resource | Err _ => false end.

Lemma mkMemberSet_eta s : mkMemberSet (set_members s) = s.
Proof. by destruct s. Qed.

Lemma VisibleMembers_eq ms bindings :
  set_members (VisibleMembers ms bindings) = filter (λ m, readable bindings (ms_content m) = true) ms.
Proof.
  unfold VisibleMembers. simpl. set (f := λ visible member, _).
  assert (∀ acc, foldl f acc ms = acc ++ filter (λ m, readable bindings (ms_content m) = true) ms) as H;
    [|apply (H [])].
  induction ms as [|m ms IH]; intros acc; simpl; [by rewrite app_nil_r|].
  rewrite IH, filter_cons. unfold f, readable. destruct (Repository (ms_content m)) as [r|e].
  - destruct (Allows bindings RepoRead r); [rewrite decide_True by reflexivity; simpl; by rewrite <-(assoc_L (++))|].
    rewrite decide_False by discriminate. reflexivity.
  - rewrite decide_False by discriminate. reflexivity.
Qed.

(** A metadata store in which the group's member list is another one. *)
Definition with_members (reads : GroupReads) (group : string) (stored : list GroupMember) : GroupReads :=
  {| GetRepository := GetRepository;
     ListGroupMembers g := if String.eqb g group then Ok stored else ListGroupMembers g;
     FetchBindings := FetchBindings |}.

Definition candidate (reads : GroupReads) (remainder : string) (m : GroupMember) : MemberState :=
  mkMemberState (gm_repository m) (contentNameFor (gm_repository m) remainder)
    (match GetRepository (gm_repository m) with Ok record => rp_type record | Err _ => "" end)
    (gm_position m) (gm_required m) MemberUnasked.

Lemma visibleMembers_ok reads subject bindings stored remainder :
  FetchBindings subject = Ok bindings →
  Forall (λ m, is_ok (GetRepository (gm_repository m)) = true) stored →
  visibleMembers (Some subject) stored remainder =
  Ok (VisibleMembers (candidate reads remainder <$> stored) bindings).
Proof.
  intros Hb Hall. unfold visibleMembers. rewrite Hb. simpl.
  set (f := λ candidates member, _).
  assert (∀ acc, foldM f acc stored = Ok (acc ++ (candidate reads remainder <$> stored))) as ->; [|done].
  induction Hall as [|m stored Hm Hall IH]; intros acc; csimpl; [by rewrite app_nil_r|].
  unfold f at 1, typeOf, candidate at 1. destruct (GetRepository (gm_repository m)); [|done]. simpl.
  rewrite IH. by rewrite <-(assoc_L (++)).
Qed.

Lemma visibleMembers_store_err (reads : GroupReads) subject stored remainder :
  (∃ e, FetchBindings subject = Err e) ∨
    (∃ bindings, FetchBindings subject = Ok bindings) ∧ ¬ Forall (λ m, is_ok (GetRepository (gm_repository m)) = true) stored →
  ∃ e, visibleMembers (Some subject) stored remainder = Err (ResolveStore e).
Proof.
  unfold visibleMembers. intros [[e ->]|[[bindings ->] Hbad]]; simpl; [by exists e|].
  set (f := λ candidates member, _).
  assert (∀ acc, ∃ e, foldM f acc stored = Err (ResolveStore e)) as H; [|destruct (H []) as [e ->]; by exists e].
  induction stored as [|m stored IH]; intros acc; [by destruct Hbad|]. csimpl. unfold f at 1, typeOf.
  destruct (GetRepository (gm_repository m)) as [record|e] eqn:Hm; simpl; [|by exists e]. apply IH. intros Hall. apply Hbad.
  constructor; [by rewrite Hm|done].
Qed.

(** A binding of repo:read whose scope covers the name. *)
Definition may_read (bindings : list Binding) (content : string) : Prop :=
  Valid content = true ∧ ∃ b, b ∈ bindings ∧ RepoRead ∈ b_verbs b ∧ Scope_Matches (b_scope b) (mkResource resourceRepository content) = true.

Lemma readable_iff bindings content : readable bindings content = true ↔ may_read bindings content.
Proof.
  unfold readable, may_read, Repository, Valid. destruct (Validate content); simpl; [|naive_solver].
  rewrite Allows_iff. unfold Binding_Allows. setoid_rewrite andb_true_iff. setoid_rewrite Binding_Grants_iff.
  split; [by intros [_ ?]|by intros [_ ?]].
Qed.

(** ** The properties *)

(** [Resolve] is first-match-wins over explicit positions. For a member
    list the configuration layer accepts, every member at a position before the
    one that decides was passed over (it does not have the reference, or it
    failed and is not required); the deciding member served, or was required and
    failed, or was never asked; and when none decides the group has no such
    reference. The members recorded as skipped are those that failed before the
    deciding one, in position order. Nothing after the deciding member
    matters. *)
Theorem Resolve_first_match ms reference (Hok : members_ok ms) :
  let r := Resolve (AllMembers ms) reference in
  rn_reference r = reference ∧
  ∃ decider : option MemberState,
    let before m := match decider with Some d => (ms_position m < ms_position d)%Z | None => True end in
    (∀ m, m ∈ ms → before m → passed m) ∧
    match decider with
    | None => rn_outcome r = GroupNotFound
    | Some d => d ∈ ms ∧ stops d r
    end ∧
    (rn_outcome r ≠ GroupInvalid →
      StronglySorted (λ a b, (sk_position a ≤ sk_position b)%Z) (rn_skipped r) ∧
      ∀ s, s ∈ rn_skipped r ↔ ∃ m, m ∈ ms ∧ before m ∧ failed m ∧ s = skipped_of m).
Proof.
  unfold Resolve, AllMembers. simpl. rewrite orderMembers_ok by done.
  destruct (resolve_loop_result reference [] (sort_on Z.le ms_position ms))
    as (Hr & pre & post & Hsplit & Hpre & Hs & Hpost).
  set (r := resolve_loop reference [] (sort_on Z.le ms_position ms)) in *. split; [done|].
  assert (StronglySorted (on_key Z.le ms_position) (pre ++ post)) as Hsort
    by (rewrite <-Hsplit; apply sort_on_sorted; apply _).
  assert (∀ m, m ∈ ms ↔ m ∈ pre ∨ m ∈ post) as Hin
    by (intros m; rewrite <-elem_of_app, <-Hsplit; symmetry; apply sort_on_elem).
  assert (NoDup (ms_position <$> pre ++ post)) as Hnd
    by (rewrite <-Hsplit, sort_on_perm; apply Hok).
  exists (head post). cbv zeta.
  assert (∀ m, m ∈ ms → match head post with Some d => (ms_position m < ms_position d)%Z | None => True end ↔ m ∈ pre) as Hb.
  { intros m Hm. destruct post as [|d post]; simpl; [rewrite Hin in Hm; set_solver|]. split.
    - intros Hlt. apply Hin in Hm as [?|Hm]; [done|]. exfalso.
      apply StronglySorted_app_1_r in Hsort. apply StronglySorted_inv in Hsort as [_ Hf].
      apply elem_of_cons in Hm as [->|Hm]; [lia|]. rewrite Forall_forall in Hf. specialize (Hf m Hm). simpl in Hf. lia.
    - intros Hp. assert (d ∈ d :: post) as Hd by by left.
      pose proof (StronglySorted_app_1_elem_of _ _ _ _ _ Hsort Hp Hd) as Hle. simpl in Hle.
      rewrite fmap_app in Hnd. apply NoDup_app in Hnd as (_ & Hnd & _).
      assert (ms_position m ≠ ms_position d); [|lia]. intros He.
      apply (Hnd (ms_position m)); [by apply list_elem_of_fmap_2|]. rewrite He. by apply list_elem_of_fmap_2. }
  split_and!.
  - intros m Hm Hlt. apply Hb in Hlt; [|done]. rewrite Forall_forall in Hpre. by apply Hpre.
  - destruct post as [|d post]; [done|]. split; [|done]. apply Hin. right. by left.
  - intros Hne. rewrite Hs. destruct (decide (rn_outcome r = GroupInvalid)); [done|]. simpl. split.
    + apply StronglySorted_app_1_l in Hsort. clear -Hsort.
      induction Hsort as [|m l Hl IH Hf]; [constructor|]. rewrite filter_cons. case_decide; [|done].
      csimpl. constructor; [done|]. rewrite Forall_fmap, Forall_forall. intros m' [_ Hm']%list_elem_of_filter.
      rewrite Forall_forall in Hf. by apply Hf.
    + intros s. rewrite list_elem_of_fmap. setoid_rewrite list_elem_of_filter. split.
      * intros (m & -> & Hf & Hp). exists m. assert (m ∈ ms) by (apply Hin; by left). by rewrite Hb.
      * intros (m & Hm & Hlt & Hf & ->). apply Hb in Hlt; [|done]. by exists m.
Qed.

(** Three members: an optional one that is down, one that has the reference,
    one that was never asked. *)
Definition example_members : list MemberState :=
  [mkMemberState "quay" "quay/x" Proxy 9 false MemberUnasked;
   mkMemberState "hub" "hub/x" Proxy 1 false MemberDown;
   mkMemberState "team" "team/x" Hosted 5 true MemberServed].

Lemma example_members_ok : members_ok example_members.
Proof.
  split.
  - repeat apply Forall_cons_2; [..|apply Forall_nil_2]; (split; [vm_compute; reflexivity|auto]).
  - apply (bool_decide_unpack _). vm_compute. exact I.
  - apply (bool_decide_unpack _). vm_compute. exact I.
Qed.

Lemma Resolve_first_match_witness :
  rn_member (Resolve (AllMembers example_members) "v1") = "team" ∧
  rn_reference (Resolve (AllMembers example_members) "v1") = "v1".
Proof.
  split; [vm_compute; reflexivity|].
  exact (proj1 (Resolve_first_match example_members "v1" example_members_ok)).
Defined.

(** The order of the slice handed to [Resolve] does not matter: two
    arrangements of the same members resolve to the same value, and when the
    list is refused both are refused (the error may name another member). *)
Theorem Resolve_slice_order ms1 ms2 reference (Hperm : ms1 ≡ₚ ms2) :
  Resolve (AllMembers ms1) reference = Resolve (AllMembers ms2) reference ∨
  (¬ members_ok ms1 ∧ ¬ members_ok ms2 ∧
   ∃ e1 e2, Resolve (AllMembers ms1) reference = mkResolution GroupInvalid reference "" 0 "" [] (Some e1) ∧
            Resolve (AllMembers ms2) reference = mkResolution GroupInvalid reference "" 0 "" [] (Some e2)).
Proof.
  unfold Resolve, AllMembers. simpl. destruct (orderMembers ms1) as [o1|e1] eqn:H1.
  - assert (members_ok ms1) as Hok.
    { destruct (decide (is_ok (foldM check_member (∅, ∅) ms1) = true)) as [H|H].
      - apply check_members_ok in H. tauto.
      - unfold orderMembers in H1. destruct (foldM _ _ ms1); [done|]. inv_result. }
    left. rewrite orderMembers_ok in H1 by done. inv_result.
    rewrite orderMembers_ok by by rewrite <-Hperm.
    rewrite (sort_on_perm_eq Z.le ms_position ms1 ms2 Hperm); [done|apply Hok].
  - right. assert (¬ members_ok ms1) as Hn by (intros Hok; by rewrite orderMembers_ok in H1).
    assert (¬ members_ok ms2) as Hn2 by by rewrite <-Hperm.
    destruct (orderMembers_err ms2 Hn2) as [e2 ->]. eauto 8.
Qed.

Lemma Resolve_slice_order_witness :
  Resolve (AllMembers example_members) "v1" = Resolve (AllMembers (reverse example_members)) "v1".
Proof.
  destruct (Resolve_slice_order example_members (reverse example_members) "v1") as [H|(H & _)].
  - symmetry. apply reverse_Permutation.
  - exact H.
  - destruct (H example_members_ok).
Defined.

(** C31: a group read gives the first answer by position, of the members its
    subject may read. Once the request is routed to a group and its members are
    listed: without a subject, or when the bindings or the row of any member cannot
    be read, the answer is an error that publishes nothing. Otherwise the members
    considered are exactly those with a binding of repo:read, among the subject's,
    that covers the content name the read becomes in that member; and asking their
    delegates in position order, stopping at the first that serves, and obeying
    [Resolve] returns what the contract [first_answer] says, events included: the
    served value of the first member that has the content, unavailable at a required
    member that fails before it, unknown when no member has it. A list of such
    members that [Resolve] refuses is an error that publishes nothing and serves
    nothing. *)
Theorem group_read_contract {Served} (reads : GroupReads) (members : Members Served) name reference
  group remainder record stored
  (Hsplit : Split name = Ok (group, remainder)) (Hrow : GetRepository group = Ok record) (Htype : rp_type record = Group)
  (Hstored : ListGroupMembers group = Ok stored) :
  let rows_exist := Forall (λ m, is_ok (GetRepository (gm_repository m)) = true) stored in
  resolve members None name reference = ([], Err ResolveNoSubject) ∧
  ∀ subject,
    (∀ e, FetchBindings subject = Err e → ∃ e', resolve members (Some subject) name reference = ([], Err (ResolveStore e'))) ∧
    (∀ bindings, FetchBindings subject = Ok bindings → ¬ rows_exist →
      ∃ e, resolve members (Some subject) name reference = ([], Err (ResolveStore e))) ∧
    (∀ bindings, FetchBindings subject = Ok bindings → rows_exist →
      let visible := filter (λ m, readable bindings (ms_content m) = true) (candidate reads remainder <$> stored) in
      (∀ m, m ∈ visible ↔ m ∈ candidate reads remainder <$> stored ∧ may_read bindings (ms_content m)) ∧
      (members_ok visible →
        resolve members (Some subject) name reference = first_answer members name reference [] (sort_on Z.le ms_position visible)) ∧
      (¬ members_ok visible → ∃ e, resolve members (Some subject) name reference = ([], Err (ResolveInvalid (Some e))))).
Proof.
  intros rows_exist. unfold resolve. rewrite Hsplit, Hrow, Htype, Hstored, String.eqb_refl. cbn [negb]. split; [done|]. intros subject. split_and!.
  - intros e He. destruct (visibleMembers_store_err reads subject stored remainder) as [e' ->]; [by left; exists e|]. by exists e'.
  - intros bindings Hb Hbad. destruct (visibleMembers_store_err reads subject stored remainder) as [e' ->]; [by right; split; [exists bindings|]|].
    by exists e'.
  - intros bindings Hb Hall. set (visible := filter _ _). rewrite (visibleMembers_ok reads subject bindings) by done.
    assert (set_members (VisibleMembers (candidate reads remainder <$> stored) bindings) = visible) as Hvis by apply VisibleMembers_eq.
    split; [intros m; unfold visible; rewrite list_elem_of_filter, readable_iff; tauto|].
    destruct (VisibleMembers _ bindings) as [ms]. simpl in Hvis. subst ms. simpl. clearbody visible.
    unfold askMembers, With, Resolve. simpl. split; intros Hok.
    + rewrite sortByPosition_eq by apply Hok. set (ordered := sort_on Z.le ms_position visible).
      pose proof (ask_resolve members name reference ∅ [] ordered) as H. cbv zeta in H.
      destruct (ask_loop members ∅ ordered) as [outcomes served]. simpl in H.
      rewrite orderMembers_ok by by apply members_ok_with. rewrite sort_on_fmap; [|apply with_outcome_fields|apply Hok].
      apply H. unfold ordered. rewrite sort_on_perm. apply Hok.
    + destruct (ask_loop members ∅ _) as [outcomes served].
      destruct (orderMembers_err (with_outcome outcomes <$> visible)) as [e ->]; [by rewrite members_ok_with|]. by exists e.
Qed.

(** A store with one group over a hosted member and a proxy, and a subject that
    may read everything in both; only the proxy has the content. *)
Definition example_reads : GroupReads :=
  {| GetRepository n :=
       if String.eqb n "all" then Ok (mkRepository "all" Group "" 1 0 0)
       else if String.eqb n "team" then Ok (mkRepository "team" Hosted "" 1 0 0)
       else if String.eqb n "hub" then Ok (mkRepository "hub" Proxy "" 1 0 0)
       else Err (NotFound "repository" n);
     ListGroupMembers _ := Ok [mkGroupMember "hub" 2 false false; mkGroupMember "team" 1 true false];
     FetchBindings _ := Ok [mkBinding "u" "reader" "hub/*" [RepoRead] ""; mkBinding "u" "reader" "team/*" [RepoRead] ""] |}.

Definition example_delegates : Members string :=
  {| d_hosted := Some (λ _, Err ErrContentUnknown); d_proxy := Some (λ content, Ok content) |}.

Definition example_states : list MemberState :=
  [mkMemberState "hub" "hub/nginx" Proxy 2 false MemberUnasked;
   mkMemberState "team" "team/nginx" Hosted 1 true MemberUnasked].

Lemma example_states_ok : members_ok example_states.
Proof.
  split.
  - repeat apply Forall_cons_2; [..|apply Forall_nil_2]; (split; [vm_compute; reflexivity|auto]).
  - apply (bool_decide_unpack _). vm_compute. exact I.
  - apply (bool_decide_unpack _). vm_compute. exact I.
Qed.

Lemma group_read_contract_witness :
  @resolve string example_reads example_delegates (Some "u") "all/nginx" "v1" = ([], Ok (Some "hub/nginx")) ∧
  @resolve string example_reads example_delegates (Some "u") "all/nginx" "v1" =
    first_answer example_delegates "all/nginx" "v1" [] (sort_on Z.le ms_position example_states).
Proof.
  split; [vm_compute; reflexivity|].
  destruct (group_read_contract example_reads example_delegates "all/nginx" "v1" "all" "nginx"
    (mkRepository "all" Group "" 1 0 0) [mkGroupMember "hub" 2 false false; mkGroupMember "team" 1 true false]
    ltac:(vm_compute; reflexivity) eq_refl eq_refl eq_refl) as [_ H]. destruct (H "u") as (_ & _ & Hread).
  destruct (Hread [mkBinding "u" "reader" "hub/*" [RepoRead] ""; mkBinding "u" "reader" "team/*" [RepoRead] ""] eq_refl) as (_ & Hok & _).
  - repeat apply Forall_cons_2; [reflexivity..|apply Forall_nil_2].
  - assert (filter (λ m, readable [mkBinding "u" "reader" "hub/*" [RepoRead] ""; mkBinding "u" "reader" "team/*" [RepoRead] ""] (ms_content m) = true)
      (candidate example_reads "nginx" <$> [mkGroupMember "hub" 2 false false; mkGroupMember "team" 1 true false]) = example_states) as Hv
      by (vm_compute; reflexivity).
    rewrite Hv in Hok. apply Hok, example_states_ok.
Defined.

(** Members a subject cannot read leave no trace. Whatever the delegates
    answer, a read of a group whose members all exist gives the same answer and
    publishes the same events as a read of the group configured with only the
    members whose content the subject may read. *)
Theorem unreadable_members_invisible {Served} (reads : GroupReads) (members : Members Served) subject bindings
  name reference group remainder stored
  (Hsplit : Split name = Ok (group, remainder)) (Hbindings : FetchBindings subject = Ok bindings)
  (Hexist : Forall (λ m, is_ok (GetRepository (gm_repository m)) = true) stored) :
  let may_read m := readable bindings (contentNameFor (gm_repository m) remainder) in
  @resolve _ (with_members reads group stored) members (Some subject) name reference =
  @resolve _ (with_members reads group (filter (λ m, may_read m = true) stored)) members (Some subject) name reference.
Proof.
  cbv zeta. unfold resolve. rewrite Hsplit. cbn [with_members GetRepository ListGroupMembers].
  destruct (GetRepository group) as [record|]; [|done].
  destruct (negb (String.eqb (rp_type record) Group)); [done|].
  rewrite String.eqb_refl.
  set (readable_only := filter _ stored).
  assert (Forall (λ m, is_ok (GetRepository (gm_repository m)) = true) readable_only) as Hsub.
  { apply Forall_forall. intros m [_ Hm]%list_elem_of_filter. rewrite Forall_forall in Hexist. by apply Hexist. }
  rewrite (visibleMembers_ok (with_members reads group stored) subject bindings) by done.
  rewrite (visibleMembers_ok (with_members reads group readable_only) subject bindings) by done.
  assert (VisibleMembers (candidate (with_members reads group stored) remainder <$> stored) bindings =
    VisibleMembers (candidate (with_members reads group readable_only) remainder <$> readable_only) bindings) as ->; [|done].
  rewrite <-(mkMemberSet_eta (VisibleMembers _ bindings)), <-(mkMemberSet_eta (VisibleMembers (_ <$> readable_only) bindings)).
  rewrite !VisibleMembers_eq. f_equal.
  change (candidate (with_members reads group ?l) remainder) with (candidate reads remainder).
  unfold readable_only. clear.
  induction stored as [|m stored IH]; [done|]. csimpl. rewrite !filter_cons. simpl.
  case_decide as Hd; [|done]. csimpl. rewrite filter_cons. simpl. rewrite decide_True by done. by rewrite IH.
Qed.

Lemma unreadable_members_invisible_witness :
  let stored := [mkGroupMember "hub" 2 false false; mkGroupMember "all" 1 true false] in
  @resolve _ (with_members example_reads "all" stored) example_delegates (Some "u") "all/nginx" "v1" =
  @resolve _ (with_members example_reads "all" [mkGroupMember "hub" 2 false false]) example_delegates (Some "u") "all/nginx" "v1".
Proof.
  refine (unreadable_members_invisible example_reads example_delegates "u"
    [mkBinding "u" "reader" "hub/*" [RepoRead] ""; mkBinding "u" "reader" "team/*" [RepoRead] ""]
    "all/nginx" "v1" "all" "nginx" [mkGroupMember "hub" 2 false false; mkGroupMember "all" 1 true false] _ _ _).
  - vm_compute; reflexivity.
  - reflexivity.
  - repeat apply Forall_cons_2; [reflexivity..|apply Forall_nil_2].
Defined.

(** *** Routing *)
Lemma first_match_some patterns resource p :
  first_match patterns resource = Some p →
  p ∈ patterns ∧ Scope_Matches p resource = true.
Proof.
  unfold first_match. intros ([i q] & Hf & ->)%fmap_Some.
  apply list_find_Some in Hf as (Hl & Hm & _). by apply list_elem_of_lookup_2 in Hl.
Qed.

Lemma first_match_none patterns resource :
  first_match patterns resource = None ↔ ∀ p, p ∈ patterns → Scope_Matches p resource = false.
Proof.
  unfold first_match. rewrite fmap_None. etrans; [apply list_find_None|]. rewrite Forall_forall.
  setoid_rewrite not_true_iff_false. done.
Qed.

Lemma compile_patterns_ok field patterns scopes :
  compile_patterns field patterns = Ok scopes ↔
  scopes = patterns ∧ Forall (λ p, ParseScope p = Ok p ∧ p ≠ SystemScope) patterns.
Proof.
  unfold compile_patterns. set (f := λ into pattern, _).
  assert (∀ acc, foldM f acc patterns = Ok scopes ↔
    scopes = acc ++ patterns ∧ Forall (λ p, ParseScope p = Ok p ∧ p ≠ SystemScope) patterns) as H; [|apply (H [])].
  induction patterns as [|p ps IH]; intros acc; simpl.
  { rewrite app_nil_r. split; [intros [= ->]; by split; [|constructor]|by intros [-> _]]. }
  rewrite Forall_cons. unfold f at 1. destruct (ParseScope p) as [q|e] eqn:Hp; simpl.
  - apply ParseScope_iff in Hp as [-> Hform]. destruct (String.eqb_spec p SystemScope) as [->|Hne]; simpl.
    + split; [done|]. by intros [_ [[_ ?] _]].
    + rewrite IH, <-(assoc_L (++)). naive_solver.
  - split; [done|]. intros [_ [[? _] _]]. done.
Qed.

(** A proxy's routing precedence. For a configuration whose patterns are
    scopes, compilation keeps the configured lists, and a remainder that is a
    legal repository name is refused when a block pattern matches it, else
    allowed when an allow pattern matches it, else refused exactly when the
    proxy is default-deny; the decision names a pattern that matched. An illegal
    remainder is never decided, so it cannot fall through to the default. *)
Theorem routing_precedence cfg rules remainder
  (Hrules : CompileRoutingRules cfg = Ok rules) :
  let hit patterns := ∃ p, p ∈ patterns ∧ Scope_Matches p (mkResource resourceRepository remainder) = true in
  match RoutingRules_Evaluate rules remainder with
  | Err _ => Valid remainder = false
  | Ok d =>
      Valid remainder = true ∧ rd_remainder d = remainder ∧
      (rd_allowed d = true ↔ ¬ hit (pc_block cfg) ∧ (hit (pc_allow cfg) ∨ pc_defaultDeny cfg = false)) ∧
      match rd_reason d with
      | RoutedByBlock => rd_pattern d ∈ pc_block cfg ∧ Scope_Matches (rd_pattern d) (mkResource resourceRepository remainder) = true
      | RoutedByAllow => rd_pattern d ∈ pc_allow cfg ∧ Scope_Matches (rd_pattern d) (mkResource resourceRepository remainder) = true
      | RoutedByDefaultAllow => rd_pattern d = "" ∧ pc_defaultDeny cfg = false
      | RoutedByDefaultDeny => rd_pattern d = "" ∧ pc_defaultDeny cfg = true
      end
  end.
Proof.
  cbv zeta. unfold CompileRoutingRules in Hrules. inv_result.
  apply compile_patterns_ok in Heqr as [-> _]. apply compile_patterns_ok in Heqr0 as [-> _].
  unfold RoutingRules_Evaluate, Repository. simpl. unfold Valid. destruct (Validate remainder) as [[]|]; simpl; [|done].
  set (res := mkResource resourceRepository remainder).
  destruct (first_match (pc_block cfg) res) as [p|] eqn:Hb; simpl.
  { apply first_match_some in Hb as [Hp Hm]. split_and!; [done..| |done|done].
    split; [done|]. intros [Hn _]. destruct Hn. eauto. }
  rewrite first_match_none in Hb.
  assert (¬ ∃ p, p ∈ pc_block cfg ∧ Scope_Matches p res = true) as Hnb
    by (intros (p & Hp & Hm); by rewrite Hb in Hm).
  destruct (first_match (pc_allow cfg) res) as [p|] eqn:Ha; simpl.
  { apply first_match_some in Ha as [Hp Hm]. split_and!; [done..| |done|done]. split; [|done].
    intros _. split; [done|]. left. eauto. }
  rewrite first_match_none in Ha.
  assert (¬ ∃ p, p ∈ pc_allow cfg ∧ Scope_Matches p res = true) as Hna
    by (intros (p & Hp & Hm); by rewrite Ha in Hm).
  destruct (pc_defaultDeny cfg) eqn:Hd; simpl; (split_and!; [done..| |done|done]); split; try done.
  - intros [_ [?|?]]; done.
  - intros _. split; [done|]. by right.
Qed.

Lemma routing_precedence_witness :
  let cfg := mkProxyConfig "https://registry-1.docker.io" "library" ["library/*"] ["library/evil"] true [] "" "" "" in
  RoutingRules_Evaluate (mkRoutingRules ["library/*"] ["library/evil"] true) "library/evil" =
    Ok (mkRoutingDecision false RoutedByBlock "library/evil" "library/evil") ∧
  Valid "library/evil" = true.
Proof.
  split; [vm_compute; reflexivity|].
  exact (proj1 (routing_precedence
    (mkProxyConfig "https://registry-1.docker.io" "library" ["library/*"] ["library/evil"] true [] "" "" "")
    (mkRoutingRules ["library/*"] ["library/evil"] true) "library/evil" ltac:(vm_compute; reflexivity))).
Defined.

(** Splitting a name loses nothing. A name splits exactly when it is legal;
    the entity is one legal path segment, the remainder is empty or itself a
    legal name, and joining them gives the name back. *)
Theorem Split_roundtrip name :
  match Split name with
  | Err _ => Valid name = false
  | Ok (entity, remainder) =>
      Valid name = true ∧ contentNameFor entity remainder = name ∧
      Valid entity = true ∧ ContainsByte entity "/" = false ∧ (remainder = "" ∨ Valid remainder = true)
  end.
Proof.
  unfold Split. destruct (Validate name) as [[]|] eqn:Hv; simpl; [|by unfold Valid; rewrite Hv].
  apply Validate_ok in Hv. apply Valid_iff_pattern in Hv as Hp. destruct Hp as [Hlen Hp].
  apply pattern_segments in Hp. destruct (SplitByte_join name) as (w & ws & Hs & Heq).
  change (Segments name = w :: ws) in Hs. rewrite Hs in Hp. apply Forall_cons in Hp as [Hw Hws].
  pose proof (component_no_slash w Hw) as Hnw.
  assert (Valid w = true) as Hvw.
  { apply Valid_iff_pattern. split; [rewrite Heq, str_length_app in Hlen; lia|].
    apply pattern_segments. unfold Segments. rewrite SplitByte_none by done. by constructor. }
  destruct ws as [|w' ws].
  - simpl in Heq. rewrite str_app_nil_r in Heq. subst name. rewrite Cut_none by done. unfold contentNameFor. simpl. split_and!; auto.
  - simpl in Heq. rewrite Heq, Cut_app by done. rewrite <-Heq.
    assert (Valid (w' +:+ slashed ws) = true) as Hvr.
    { apply Valid_iff_pattern. split; [rewrite Heq, str_length_app in Hlen; simpl in Hlen; lia|].
      apply pattern_segments. unfold Segments. apply Forall_cons in Hws as [Hw' Hws].
      rewrite SplitByte_slashed; [by constructor|]. constructor; [by apply component_no_slash|].
      eapply Forall_impl; [exact Hws|]. apply component_no_slash. }
    split_and!; [done| |done|done|by right]. unfold contentNameFor.
    destruct (String.eqb_spec (w' +:+ slashed ws) "") as [He|_]; [by apply Valid_nonempty in Hvr|]. by rewrite Heq.
Qed.
