(* ===== verification/Memory.v ===== *)
(** * The reference metadata store
    (src/internal/meta/memory: memory.go, gc.go, cached.go)

    The in-memory store defines the behaviour every engine is held to. Its state
    is a record of maps; each method is a function of the context (a flag: has
    it been cancelled), the arguments and the state, returning an error or the
    new state and the result. The lock makes every method atomic, so a
    concurrent history is a sequence of such steps. Identity, credentials of
    users and the event outbox are further maps of the same struct, which none
    of these methods reads or writes; they are not fields here. *)
From S2P Require Import Prelude RepoName Meta.

(** ** Nested maps

    [m[r][d]] in Go: reading a missing inner map gives nothing. *)
Definition get2 {A} (m : gmap string (gmap string A)) (r d : string) : option A := m !! r ≫= (.!! d).
Definition inner {A} (m : gmap string (gmap string A)) (r : string) : gmap string A := default ∅ (m !! r).
(** Writing after the inner map was created when it was missing. *)
Definition put2 {A} (r d : string) (x : A) (m : gmap string (gmap string A)) : gmap string (gmap string A) :=
  <[r := <[d := x]> (inner m r)]> m.
(** [delete(m[r], d)]: nothing happens when there is no inner map. *)
Definition delete2 {A} (r d : string) (m : gmap string (gmap string A)) : gmap string (gmap string A) :=
  alter (delete d) r m.
(** Deleting a list of keys. *)
Definition delete_all {A} (ks : list string) (m : gmap string A) : gmap string A := foldr delete m ks.

(** ** The state *)
Record Store : Type := mkStore {
  repos : gmap string Repository;
  members : gmap string (list GroupMember);
  configHistory : gmap string (list ConfigRevision);
  proxyCredentials : gmap string ProxyCredential;
  manifests : gmap string (gmap string Manifest);
  refs : gmap string (gmap string (list ManifestRef));
  tags : gmap string (gmap string Tag);
  blobs : gmap string Blob;
  uploads : gmap string UploadSession;
  gcRuns : gmap string GCRun;
  cachedManifests : gmap string (gmap string CachedManifest);
  cachedRefs : gmap string (gmap string (list ManifestRef));
  cachedBlobs : gmap string (gmap string CachedBlob);
  tagLeases : gmap string (gmap string TagLease);
  negativeCache : gmap string (gmap string NegativeEntry);
  pullStats : gmap (string * string) PullStats;
  closed : bool;
}.

Definition newEmpty : Store :=
  mkStore ∅ ∅ ∅ ∅ ∅ ∅ ∅ ∅ ∅ ∅ ∅ ∅ ∅ ∅ ∅ ∅ false.

Definition set_repos (x : gmap string Repository) (s : Store) : Store :=
  mkStore x (members s) (configHistory s) (proxyCredentials s) (manifests s) (refs s) (tags s) (blobs s) (uploads s) (gcRuns s) (cachedManifests s) (cachedRefs s) (cachedBlobs s) (tagLeases s) (negativeCache s) (pullStats s) (closed s).
Definition set_members (x : gmap string (list GroupMember)) (s : Store) : Store :=
  mkStore (repos s) x (configHistory s) (proxyCredentials s) (manifests s) (refs s) (tags s) (blobs s) (uploads s) (gcRuns s) (cachedManifests s) (cachedRefs s) (cachedBlobs s) (tagLeases s) (negativeCache s) (pullStats s) (closed s).
Definition set_configHistory (x : gmap string (list ConfigRevision)) (s : Store) : Store :=
  mkStore (repos s) (members s) x (proxyCredentials s) (manifests s) (refs s) (tags s) (blobs s) (uploads s) (gcRuns s) (cachedManifests s) (cachedRefs s) (cachedBlobs s) (tagLeases s) (negativeCache s) (pullStats s) (closed s).
Definition set_proxyCredentials (x : gmap string ProxyCredential) (s : Store) : Store :=
  mkStore (repos s) (members s) (configHistory s) x (manifests s) (refs s) (tags s) (blobs s) (uploads s) (gcRuns s) (cachedManifests s) (cachedRefs s) (cachedBlobs s) (tagLeases s) (negativeCache s) (pullStats s) (closed s).
Definition set_manifests (x : gmap string (gmap string Manifest)) (s : Store) : Store :=
  mkStore (repos s) (members s) (configHistory s) (proxyCredentials s) x (refs s) (tags s) (blobs s) (uploads s) (gcRuns s) (cachedManifests s) (cachedRefs s) (cachedBlobs s) (tagLeases s) (negativeCache s) (pullStats s) (closed s).
Definition set_refs (x : gmap string (gmap string (list ManifestRef))) (s : Store) : Store :=
  mkStore (repos s) (members s) (configHistory s) (proxyCredentials s) (manifests s) x (tags s) (blobs s) (uploads s) (gcRuns s) (cachedManifests s) (cachedRefs s) (cachedBlobs s) (tagLeases s) (negativeCache s) (pullStats s) (closed s).
Definition set_tags (x : gmap string (gmap string Tag)) (s : Store) : Store :=
  mkStore (repos s) (members s) (configHistory s) (proxyCredentials s) (manifests s) (refs s) x (blobs s) (uploads s) (gcRuns s) (cachedManifests s) (cachedRefs s) (cachedBlobs s) (tagLeases s) (negativeCache s) (pullStats s) (closed s).
Definition set_blobs (x : gmap string Blob) (s : Store) : Store :=
  mkStore (repos s) (members s) (configHistory s) (proxyCredentials s) (manifests s) (refs s) (tags s) x (uploads s) (gcRuns s) (cachedManifests s) (cachedRefs s) (cachedBlobs s) (tagLeases s) (negativeCache s) (pullStats s) (closed s).
Definition set_uploads (x : gmap string UploadSession) (s : Store) : Store :=
  mkStore (repos s) (members s) (configHistory s) (proxyCredentials s) (manifests s) (refs s) (tags s) (blobs s) x (gcRuns s) (cachedManifests s) (cachedRefs s) (cachedBlobs s) (tagLeases s) (negativeCache s) (pullStats s) (closed s).
Definition set_gcRuns (x : gmap string GCRun) (s : Store) : Store :=
  mkStore (repos s) (members s) (configHistory s) (proxyCredentials s) (manifests s) (refs s) (tags s) (blobs s) (uploads s) x (cachedManifests s) (cachedRefs s) (cachedBlobs s) (tagLeases s) (negativeCache s) (pullStats s) (closed s).
Definition set_cachedManifests (x : gmap string (gmap string CachedManifest)) (s : Store) : Store :=
  mkStore (repos s) (members s) (configHistory s) (proxyCredentials s) (manifests s) (refs s) (tags s) (blobs s) (uploads s) (gcRuns s) x (cachedRefs s) (cachedBlobs s) (tagLeases s) (negativeCache s) (pullStats s) (closed s).
Definition set_cachedRefs (x : gmap string (gmap string (list ManifestRef))) (s : Store) : Store :=
  mkStore (repos s) (members s) (configHistory s) (proxyCredentials s) (manifests s) (refs s) (tags s) (blobs s) (uploads s) (gcRuns s) (cachedManifests s) x (cachedBlobs s) (tagLeases s) (negativeCache s) (pullStats s) (closed s).
Definition set_cachedBlobs (x : gmap string (gmap string CachedBlob)) (s : Store) : Store :=
  mkStore (repos s) (members s) (configHistory s) (proxyCredentials s) (manifests s) (refs s) (tags s) (blobs s) (uploads s) (gcRuns s) (cachedManifests s) (cachedRefs s) x (tagLeases s) (negativeCache s) (pullStats s) (closed s).
Definition set_tagLeases (x : gmap string (gmap string TagLease)) (s : Store) : Store :=
  mkStore (repos s) (members s) (configHistory s) (proxyCredentials s) (manifests s) (refs s) (tags s) (blobs s) (uploads s) (gcRuns s) (cachedManifests s) (cachedRefs s) (cachedBlobs s) x (negativeCache s) (pullStats s) (closed s).
Definition set_negativeCache (x : gmap string (gmap string NegativeEntry)) (s : Store) : Store :=
  mkStore (repos s) (members s) (configHistory s) (proxyCredentials s) (manifests s) (refs s) (tags s) (blobs s) (uploads s) (gcRuns s) (cachedManifests s) (cachedRefs s) (cachedBlobs s) (tagLeases s) x (pullStats s) (closed s).
Definition set_pullStats (x : gmap (string * string) PullStats) (s : Store) : Store :=
  mkStore (repos s) (members s) (configHistory s) (proxyCredentials s) (manifests s) (refs s) (tags s) (blobs s) (uploads s) (gcRuns s) (cachedManifests s) (cachedRefs s) (cachedBlobs s) (tagLeases s) (negativeCache s) x (closed s).
Definition set_closed (x : bool) (s : Store) : Store :=
  mkStore (repos s) (members s) (configHistory s) (proxyCredentials s) (manifests s) (refs s) (tags s) (blobs s) (uploads s) (gcRuns s) (cachedManifests s) (cachedRefs s) (cachedBlobs s) (tagLeases s) (negativeCache s) (pullStats s) x.

(** Content names *)
Definition entityOf (name : string) : string := Prefix name.
Definition belongsTo (name entity : string) : bool :=
  String.eqb name entity || HasPrefix name (entity +:+ "/").

Definition Close (s : Store) : Store := set_closed true s.

(** The checks that open every method: the context, then the store. *)
Definition enter (ctx : bool) (s : Store) : result MetaError unit :=
  if ctx then Err Canceled else if closed s then Err Closed else Ok tt.

Definition repoExists (s : Store) (entity : string) : bool := bool_decide (is_Some (repos s !! entity)).

Definition knownContentName (s : Store) (name : string) : bool :=
  let entity := entityOf name in
  if negb (repoExists s entity) then false
  else String.eqb name entity || negb (bool_decide (inner (manifests s) name = ∅)).

(** ** Repositories *)
Definition CreateRepository (ctx : bool) (repo : Repository) (s : Store) : result MetaError (Store * Repository) :=
  check! enter ctx s in
  if String.eqb (rp_name repo) "" then Err (InvalidField "name")
  else if negb (RepositoryType_Valid (rp_type repo)) then Err (InvalidField "type")
  else match repos s !! rp_name repo with
  | Some _ => Err (Conflict "repository" (rp_name repo))
  | None =>
      let stored := mkRepository (rp_name repo) (rp_type repo) (rp_config repo) 1 (rp_createdAt repo) (rp_updatedAt repo) in
      Ok (set_repos (<[rp_name repo := stored]> (repos s)) s, stored)
  end.

Definition GetRepository (ctx : bool) (name : string) (s : Store) : result MetaError Repository :=
  check! enter ctx s in
  match repos s !! name with
  | None => Err (NotFound "repository" name)
  | Some repo => Ok repo
  end.

(** The loop every listing pages with: the first [limit] names, and as the next
    cursor the last of them when there are more. *)
Definition page_of (limit : Z) (names : list string) : list string * string :=
  let limit := Z.to_nat limit in
  (take limit names, if decide (limit < length names) then default "" (names !! (limit - 1)) else "").

Definition visible_after (opts : ListOptions) (name : string) : Prop :=
  Visibility_Allows (lo_visibility opts) name = true ∧ str_lt (lo_cursor opts) name = true.

Definition ListRepositories (ctx : bool) (opts : ListOptions) (s : Store) : result MetaError (list Repository * string) :=
  check! enter ctx s in
  let names := sort_strings (filter (visible_after opts) (map_to_list (repos s)).*1) in
  let '(page, next) := page_of (EffectiveLimit opts) names in
  Ok (omap (λ name, repos s !! name) page, next).

Definition UpdateRepositoryConfig (ctx : bool) (name config : string) (expectedVersion : Z) (actor : string) (at_ : Z)
    (s : Store) : result MetaError (Store * Repository) :=
  check! enter ctx s in
  match repos s !! name with
  | None => Err (NotFound "repository" name)
  | Some repo =>
      if negb (rp_configVersion repo =? expectedVersion)%Z then
        Err (Stale name (rp_configVersion repo) expectedVersion)
      else
        let revision := mkConfigRevision name (rp_configVersion repo) (rp_config repo) actor at_ in
        let repo' := mkRepository (rp_name repo) (rp_type repo) config (add64 (rp_configVersion repo) 1)
                       (rp_createdAt repo) at_ in
        Ok (set_repos (<[name := repo']> (repos s))
             (set_configHistory (<[name := default [] (configHistory s !! name) ++ [revision]]> (configHistory s)) s),
            repo')
  end.

Definition ListConfigHistory (ctx : bool) (name : string) (s : Store) : result MetaError (list ConfigRevision) :=
  check! enter ctx s in Ok (default [] (configHistory s !! name)).

(** ** Proxy credentials *)
Definition PutProxyCredential (ctx : bool) (cred : ProxyCredential) (s : Store) : result MetaError Store :=
  check! enter ctx s in
  if String.eqb (px_sealed cred) "" then Err (InvalidField "sealed")
  else match repos s !! px_repository cred with
  | None => Err (NotFound "repository" (px_repository cred))
  | Some owner =>
      if negb (String.eqb (rp_type owner) Proxy) then Err (InvalidField "repository")
      else Ok (set_proxyCredentials (<[px_repository cred := cred]> (proxyCredentials s)) s)
  end.

Definition GetProxyCredential (ctx : bool) (repository : string) (s : Store) : result MetaError ProxyCredential :=
  check! enter ctx s in
  match proxyCredentials s !! repository with
  | None => Err (NotFound "proxy credential" repository)
  | Some cred => Ok cred
  end.

Definition CredentialStatus (ctx : bool) (repository : string) (s : Store) : result MetaError ProxyCredentialStatus :=
  check! enter ctx s in
  match proxyCredentials s !! repository with
  | Some cred => Ok (mkProxyCredentialStatus repository true (px_rotatedAt cred))
  | None => Ok (mkProxyCredentialStatus repository false 0)
  end.

Definition DeleteProxyCredential (ctx : bool) (repository : string) (s : Store) : result MetaError Store :=
  check! enter ctx s in
  match proxyCredentials s !! repository with
  | None => Err (NotFound "proxy credential" repository)
  | Some _ => Ok (set_proxyCredentials (delete repository (proxyCredentials s)) s)
  end.

(** The keys of a map that belong to an entity. *)
Definition under {A} (entity : string) (m : gmap string A) : list string :=
  filter (λ content, belongsTo content entity = true) (map_to_list m).*1.

Definition deleteCachedContent (entity : string) (s : Store) : Store :=
  let gone := under entity (cachedManifests s) in
  set_cachedManifests (delete_all gone (cachedManifests s))
  (set_cachedRefs (delete_all gone (cachedRefs s))
  (set_cachedBlobs (delete_all (under entity (cachedBlobs s)) (cachedBlobs s))
  (set_tagLeases (delete_all (under entity (tagLeases s)) (tagLeases s))
  (set_negativeCache (delete_all (under entity (negativeCache s)) (negativeCache s)) s)))).

(** Hosted content under an entity: what has manifests, then tags left over. *)
Definition deleteHostedContent (entity : string) (s : Store) : Store :=
  let gone := under entity (manifests s) in
  let tags' := delete_all gone (tags s) in
  set_manifests (delete_all gone (manifests s))
  (set_refs (delete_all gone (refs s))
  (set_tags (delete_all (under entity tags') tags') s)).

Definition DeleteRepository (ctx : bool) (name : string) (s : Store) : result MetaError Store :=
  check! enter ctx s in
  match repos s !! name with
  | None => Err (NotFound "repository" name)
  | Some _ =>
      let s := set_repos (delete name (repos s)) s in
      let s := set_members (delete name (members s)) s in
      let s := set_configHistory (delete name (configHistory s)) s in
      let s := set_proxyCredentials (delete name (proxyCredentials s)) s in
      let s := deleteHostedContent name s in
      let s := deleteCachedContent name s in
      let s := set_uploads (filter (λ p, belongsTo (up_repository p.2) name = false) (uploads s)) s in
      Ok (set_members (filter (λ m, gm_repository m ≠ name) <$> members s) s)
  end.

(** ** Groups *)
Definition check_group_member (s : Store) (group : string) (st : gset Z * Z) (m : GroupMember)
    : result MetaError (gset Z * Z) :=
  let '(seenPosition, writeTargets) := st in
  match repos s !! gm_repository m with
  | None => Err (NotFound "repository" (gm_repository m))
  | Some repo =>
      if String.eqb (gm_repository m) group then Err (InvalidField "members")
      else if String.eqb (rp_type repo) Group then Err (InvalidField "members")
      else if bool_decide (gm_position m ∈ seenPosition) then Err (InvalidField "members")
      else Ok ({[gm_position m]} ∪ seenPosition,
               if gm_writeTarget m then (writeTargets + 1)%Z else writeTargets)
  end.

Definition SetGroupMembers (ctx : bool) (group : string) (ms : list GroupMember) (s : Store) : result MetaError Store :=
  check! enter ctx s in
  match repos s !! group with
  | None => Err (NotFound "repository" group)
  | Some repo =>
      if negb (String.eqb (rp_type repo) Group) then Err (InvalidField "group")
      else
        let! st := foldM (check_group_member s group) (∅, 0%Z) ms in
        if (1 <? st.2)%Z then Err (InvalidField "members")
        else Ok (set_members (<[group := sort_on Z.le gm_position ms]> (members s)) s)
  end.

Definition ListGroupMembers (ctx : bool) (group : string) (s : Store) : result MetaError (list GroupMember) :=
  check! enter ctx s in
  match repos s !! group with
  | None => Err (NotFound "repository" group)
  | Some _ => Ok (default [] (members s !! group))
  end.

(** ** Hosted content *)
Definition check_ref (r : ManifestRef) : result MetaError unit :=
  if negb (RefKind_Valid (ref_kind r)) then Err (InvalidField "refs")
  else if String.eqb (ref_child r) "" then Err (InvalidField "refs")
  else Ok tt.

Definition PutManifest (ctx : bool) (m : Manifest) (edges : list ManifestRef) (s : Store) : result MetaError Store :=
  check! enter ctx s in
  if negb (repoExists s (entityOf (mf_repository m))) then
    Err (NotFound "repository" (entityOf (mf_repository m)))
  else if String.eqb (mf_digest m) "" then Err (InvalidField "digest")
  else
    check! foldM (λ _ r, check_ref r) tt edges in
    (* a repository with no manifest map gets two fresh maps, so any edges left
       under the name are dropped *)
    let refs' := match manifests s !! mf_repository m with
                 | Some _ => refs s
                 | None => <[mf_repository m := ∅]> (refs s)
                 end in
    Ok (set_manifests (put2 (mf_repository m) (mf_digest m) m (manifests s))
       (set_refs (put2 (mf_repository m) (mf_digest m) edges refs') s)).

Definition GetManifest (ctx : bool) (repo digest : string) (s : Store) : result MetaError Manifest :=
  check! enter ctx s in
  match get2 (manifests s) repo digest with
  | None => Err (NotFound "manifest" digest)
  | Some m => Ok m
  end.

(** Does an edge list a digest as an index child? *)
Definition lists_child (digest : string) (edges : list ManifestRef) : bool :=
  existsb (λ e, String.eqb (ref_child e) digest && String.eqb (ref_kind e) RefChild) edges.

Definition index_parents (edges : gmap string (list ManifestRef)) (digest : string) : list string :=
  (filter (λ p, lists_child digest p.2 = true) (map_to_list edges)).*1.

Definition DeleteManifest (ctx : bool) (repo digest : string) (s : Store) : result MetaError Store :=
  check! enter ctx s in
  match get2 (manifests s) repo digest with
  | None => Err (NotFound "manifest" digest)
  | Some _ =>
      match sort_strings (filter (λ parent, parent ≠ digest) (index_parents (inner (refs s) repo) digest)) with
      | (_ :: _) as parents => Err (Referenced "manifest" digest parents)
      | [] =>
          Ok (set_manifests (delete2 repo digest (manifests s))
             (set_refs (delete2 repo digest (refs s))
             (set_tags (alter (filter (λ p, tg_digest p.2 ≠ digest)) repo (tags s)) s)))
      end
  end.

Definition ListManifestRefs (ctx : bool) (repo digest : string) (s : Store) : result MetaError (list ManifestRef) :=
  check! enter ctx s in
  match get2 (manifests s) repo digest with
  | None => Err (NotFound "manifest" digest)
  | Some _ => Ok (default [] (get2 (refs s) repo digest))
  end.

Definition ListIndexParents (ctx : bool) (repo child : string) (s : Store) : result MetaError (list string) :=
  check! enter ctx s in
  Ok (sort_strings (index_parents (inner (refs s) repo) child)).

Definition ListReferrers (ctx : bool) (repo subject artifactType : string) (s : Store) : result MetaError (list Manifest) :=
  check! enter ctx s in
  Ok (sort_on String.le mf_digest
        (filter (λ m, mf_subject m = subject ∧ (artifactType = "" ∨ mf_artifactType m = artifactType))
           (map_to_list (inner (manifests s) repo)).*2)).

(** ** Tags *)
Definition PutTag (ctx : bool) (tag : Tag) (s : Store) : result MetaError Store :=
  check! enter ctx s in
  if String.eqb (tg_name tag) "" then Err (InvalidField "name")
  else if negb (repoExists s (entityOf (tg_repository tag))) then
    Err (NotFound "repository" (entityOf (tg_repository tag)))
  else match get2 (manifests s) (tg_repository tag) (tg_digest tag) with
  | None => Err (NotFound "manifest" (tg_digest tag))
  | Some _ =>
      let tag := match get2 (tags s) (tg_repository tag) (tg_name tag) with
                 | Some existing =>
                     mkTag (tg_repository tag) (tg_name tag) (tg_digest tag) (tg_createdAt existing) (tg_updatedAt tag)
                 | None => tag
                 end in
      Ok (set_tags (put2 (tg_repository tag) (tg_name tag) tag (tags s)) s)
  end.

Definition GetTag (ctx : bool) (repo name : string) (s : Store) : result MetaError Tag :=
  check! enter ctx s in
  match get2 (tags s) repo name with
  | None => Err (NotFound "tag" name)
  | Some tag => Ok tag
  end.

Definition ListTags (ctx : bool) (repo : string) (opts : ListOptions) (s : Store) : result MetaError (list Tag * string) :=
  check! enter ctx s in
  if negb (knownContentName s repo) || negb (Visibility_Allows (lo_visibility opts) repo) then
    Err (NotFound "repository" repo)
  else
    let names := sort_strings (filter (λ name, str_lt (lo_cursor opts) name = true) (map_to_list (inner (tags s) repo)).*1) in
    let '(page, next) := page_of (EffectiveLimit opts) names in
    Ok (omap (λ name, get2 (tags s) repo name) page, next).

(** The names that hold content, hosted or cached, each once. *)
Definition content_names {A} (m : gmap string (gmap string A)) : list string :=
  (filter (λ p : string * gmap string A, p.2 ≠ ∅) (map_to_list m)).*1.

Definition collect (opts : ListOptions) (st : gset string * list string) (name : string) : gset string * list string :=
  let '(seen, names) := st in
  if bool_decide (name ∈ seen) then st
  else if bool_decide (visible_after opts name) then ({[name]} ∪ seen, names ++ [name])
  else st.

Definition ListContentNames (ctx : bool) (opts : ListOptions) (s : Store) : result MetaError (list string * string) :=
  check! enter ctx s in
  let '(_, names) := foldl (collect opts) (∅, []) (content_names (manifests s) ++ content_names (cachedManifests s)) in
  Ok (page_of (EffectiveLimit opts) (sort_strings names)).

Definition DeleteTag (ctx : bool) (repo name : string) (s : Store) : result MetaError Store :=
  check! enter ctx s in
  match get2 (tags s) repo name with
  | None => Err (NotFound "tag" name)
  | Some _ => Ok (set_tags (delete2 repo name (tags s)) s)
  end.

(** ** Blobs and uploads *)
Definition PutBlob (ctx : bool) (blob : Blob) (s : Store) : result MetaError Store :=
  check! enter ctx s in
  if String.eqb (bb_digest blob) "" then Err (InvalidField "digest")
  else if (bb_size blob <? 0)%Z then Err (InvalidField "size")
  else match blobs s !! bb_digest blob with
  | Some _ => Ok s
  | None => Ok (set_blobs (<[bb_digest blob := blob]> (blobs s)) s)
  end.

Definition GetBlob (ctx : bool) (digest : string) (s : Store) : result MetaError Blob :=
  check! enter ctx s in
  match blobs s !! digest with
  | None => Err (NotFound "blob" digest)
  | Some blob => Ok blob
  end.

Definition DeleteBlob (ctx : bool) (digest : string) (s : Store) : result MetaError Store :=
  check! enter ctx s in
  match blobs s !! digest with
  | None => Err (NotFound "blob" digest)
  | Some _ => Ok (set_blobs (delete digest (blobs s)) s)
  end.

Definition CreateUpload (ctx : bool) (session : UploadSession) (s : Store) : result MetaError Store :=
  check! enter ctx s in
  if String.eqb (up_id session) "" then Err (InvalidField "id")
  else if negb (repoExists s (entityOf (up_repository session))) then
    Err (NotFound "repository" (entityOf (up_repository session)))
  else match uploads s !! up_id session with
  | Some _ => Err (Conflict "upload" (up_id session))
  | None => Ok (set_uploads (<[up_id session := session]> (uploads s)) s)
  end.

Definition GetUpload (ctx : bool) (id : string) (s : Store) : result MetaError UploadSession :=
  check! enter ctx s in
  match uploads s !! id with
  | None => Err (NotFound "upload" id)
  | Some session => Ok session
  end.

Definition UpdateUpload (ctx : bool) (id : string) (bytes at_ : Z) (s : Store) : result MetaError Store :=
  check! enter ctx s in
  match uploads s !! id with
  | None => Err (NotFound "upload" id)
  | Some session =>
      if (bytes <? 0)%Z then Err (InvalidField "bytes")
      else Ok (set_uploads (<[id := mkUpload (up_id session) (up_repository session) (up_digest session) bytes
                                      (up_startedAt session) at_]> (uploads s)) s)
  end.

Definition DeleteUpload (ctx : bool) (id : string) (s : Store) : result MetaError Store :=
  check! enter ctx s in
  match uploads s !! id with
  | None => Err (NotFound "upload" id)
  | Some _ => Ok (set_uploads (delete id (uploads s)) s)
  end.

(** A time and a string, in lexicographic order. *)
Definition time_then_name (a b : Z * string) : Prop := (a.1 < b.1)%Z ∨ (a.1 = b.1 ∧ String.le a.2 b.2).

#[export] Instance time_then_name_dec : RelDecision time_then_name.
Proof. intros a b. unfold time_then_name. apply _. Defined.

Definition ListStaleUploads (ctx : bool) (before limit : Z) (s : Store) : result MetaError (list UploadSession) :=
  check! enter ctx s in
  let out := sort_on time_then_name (λ u, (up_lastChunkAt u, up_id u))
               (filter (λ u, (up_lastChunkAt u < before)%Z) (map_to_list (uploads s)).*2) in
  Ok (if (0 <? limit)%Z then take (Z.to_nat limit) out else out).

(** ** Pull statistics *)
Definition validPullRecord (r : PullRecord) : result MetaError unit :=
  if String.eqb (pr_repository r) "" then Err (InvalidField "repository")
  else if String.eqb (pr_reference r) "" then Err (InvalidField "reference")
  else if (pr_count r <=? 0)%Z then Err (InvalidField "count")
  else Ok tt.

Definition record_pull (stats : gmap (string * string) PullStats) (r : PullRecord) : gmap (string * string) PullStats :=
  let key := (pr_repository r, pr_reference r) in
  let old := default (mkPullStats (pr_repository r) (pr_reference r) 0 0) (stats !! key) in
  let last := if (pl_lastPulledAt old <? pr_at r)%Z then pr_at r else pl_lastPulledAt old in
  <[key := mkPullStats (pl_repository old) (pl_reference old) last (add64 (pl_count old) (pr_count r))]> stats.

Definition RecordPulls (ctx : bool) (records : list PullRecord) (s : Store) : result MetaError Store :=
  check! enter ctx s in
  check! foldM (λ _ r, validPullRecord r) tt records in
  Ok (set_pullStats (foldl record_pull (pullStats s) records) s).

Definition GetPullStats (ctx : bool) (repo reference : string) (s : Store) : result MetaError PullStats :=
  check! enter ctx s in
  match pullStats s !! (repo, reference) with
  | None => Err (NotFound "pull stats" (repo +:+ "@" +:+ reference))
  | Some stats => Ok stats
  end.

(** ** Garbage collection of hosted blobs (gc.go) *)
Definition names_blob (digest : string) (r : ManifestRef) : bool :=
  String.eqb (ref_child r) digest && (String.eqb (ref_kind r) RefConfig || String.eqb (ref_kind r) RefLayer).

Definition referencedAsBlob (digest : string) (s : Store) : bool :=
  existsb (λ per_repo : string * gmap string (list ManifestRef),
    existsb (λ per_manifest : string * list ManifestRef, existsb (names_blob digest) per_manifest.2)
      (map_to_list per_repo.2)) (map_to_list (refs s)).

Definition pinnedByUpload (digest : string) (s : Store) : bool :=
  existsb (λ p : string * UploadSession, String.eqb (up_digest p.2) digest) (map_to_list (uploads s)).

Definition sweepable (blob : Blob) (before : Z) (s : Store) : bool :=
  (bb_createdAt blob <? before)%Z && negb (referencedAsBlob (bb_digest blob) s) && negb (pinnedByUpload (bb_digest blob) s).

Definition ListSweepCandidates (ctx : bool) (before : Z) (after : string) (limit : Z) (s : Store)
    : result MetaError (list Blob) :=
  check! enter ctx s in
  if (limit <=? 0)%Z then Ok []
  else
    let candidates := sort_on String.le bb_digest
      (filter (λ blob, str_lt after (bb_digest blob) = true ∧ sweepable blob before s = true) (map_to_list (blobs s)).*2) in
    Ok (take (Z.to_nat limit) candidates).

Definition DeleteBlobIfUnreferenced (ctx : bool) (digest : string) (before : Z) (s : Store)
    : result MetaError (Store * bool) :=
  check! enter ctx s in
  match blobs s !! digest with
  | None => Ok (s, false)
  | Some blob =>
      if negb (sweepable blob before s) then Ok (s, false)
      else Ok (set_blobs (delete digest (blobs s)) s, true)
  end.

Definition StartGCRun (ctx : bool) (run : GCRun) (s : Store) : result MetaError Store :=
  check! enter ctx s in
  if String.eqb (gr_id run) "" then Err (InvalidField "id")
  else match gcRuns s !! gr_id run with
  | Some _ => Err (Conflict "gc run" (gr_id run))
  | None => Ok (set_gcRuns (<[gr_id run := run]> (gcRuns s)) s)
  end.

Definition SaveGCProgress (ctx : bool) (id cursor : string) (scanned deleted freedBytes : Z) (s : Store)
    : result MetaError Store :=
  check! enter ctx s in
  match gcRuns s !! id with
  | None => Err (NotFound "gc run" id)
  | Some run =>
      Ok (set_gcRuns (<[id := mkGCRun (gr_id run) (gr_startedAt run) (gr_finishedAt run) (gr_sweepBefore run)
                                cursor scanned deleted freedBytes (gr_failure run)]> (gcRuns s)) s)
  end.

Definition FinishGCRun (ctx : bool) (id : string) (at_ : Z) (failure : string) (s : Store) : result MetaError Store :=
  check! enter ctx s in
  match gcRuns s !! id with
  | None => Err (NotFound "gc run" id)
  | Some run =>
      Ok (set_gcRuns (<[id := mkGCRun (gr_id run) (gr_startedAt run) at_ (gr_sweepBefore run) (gr_cursor run)
                                (gr_scanned run) (gr_deleted run) (gr_freedBytes run) failure]> (gcRuns s)) s)
  end.

Definition GetGCRun (ctx : bool) (id : string) (s : Store) : result MetaError GCRun :=
  check! enter ctx s in
  match gcRuns s !! id with
  | None => Err (NotFound "gc run" id)
  | Some run => Ok run
  end.

Definition newer_run (newest : option GCRun) (run : GCRun) : option GCRun :=
  if negb (gr_finishedAt run =? 0)%Z then newest
  else match newest with
  | None => Some run
  | Some old =>
      if (gr_startedAt old <? gr_startedAt run)%Z ||
         ((gr_startedAt run =? gr_startedAt old)%Z && str_lt (gr_id old) (gr_id run)) then Some run else newest
  end.

Definition ResumableGCRun (ctx : bool) (s : Store) : result MetaError GCRun :=
  check! enter ctx s in
  match foldl newer_run None (map_to_list (gcRuns s)).*2 with
  | None => Err (NotFound "gc run" "unfinished")
  | Some run => Ok run
  end.

(** ** Cached content (cached.go) *)
Definition requireProxyEntity (name : string) (s : Store) : result MetaError unit :=
  match repos s !! entityOf name with
  | None => Err (NotFound "repository" (entityOf name))
  | Some repo => if negb (String.eqb (rp_type repo) Proxy) then Err (InvalidField "repository") else Ok tt
  end.

Definition PutCachedManifest (ctx : bool) (m : CachedManifest) (edges : list ManifestRef) (s : Store)
    : result MetaError Store :=
  check! enter ctx s in
  check! requireProxyEntity (cm_repository m) s in
  if String.eqb (cm_digest m) "" then Err (InvalidField "digest")
  else
    check! foldM (λ _ r, check_ref r) tt edges in
    let refs' := match cachedManifests s !! cm_repository m with
                 | Some _ => cachedRefs s
                 | None => <[cm_repository m := ∅]> (cachedRefs s)
                 end in
    Ok (set_cachedManifests (put2 (cm_repository m) (cm_digest m) m (cachedManifests s))
       (set_cachedRefs (put2 (cm_repository m) (cm_digest m) edges refs') s)).

Definition GetCachedManifest (ctx : bool) (repo digest : string) (s : Store) : result MetaError CachedManifest :=
  check! enter ctx s in
  match get2 (cachedManifests s) repo digest with
  | None => Err (NotFound "cached manifest" digest)
  | Some m => Ok m
  end.

Definition ListCachedManifestRefs (ctx : bool) (repo digest : string) (s : Store) : result MetaError (list ManifestRef) :=
  check! enter ctx s in
  match get2 (cachedManifests s) repo digest with
  | None => Err (NotFound "cached manifest" digest)
  | Some _ => Ok (default [] (get2 (cachedRefs s) repo digest))
  end.

Definition PutCachedBlob (ctx : bool) (b : CachedBlob) (s : Store) : result MetaError Store :=
  check! enter ctx s in
  check! requireProxyEntity (cb_repository b) s in
  if String.eqb (cb_digest b) "" then Err (InvalidField "digest")
  else Ok (set_cachedBlobs (put2 (cb_repository b) (cb_digest b) b (cachedBlobs s)) s).

Definition GetCachedBlob (ctx : bool) (repo digest : string) (s : Store) : result MetaError CachedBlob :=
  check! enter ctx s in
  match get2 (cachedBlobs s) repo digest with
  | None => Err (NotFound "cached blob" digest)
  | Some b => Ok b
  end.

Definition PutTagLease (ctx : bool) (lease : TagLease) (s : Store) : result MetaError Store :=
  check! enter ctx s in
  check! requireProxyEntity (tl_repository lease) s in
  if String.eqb (tl_tag lease) "" then Err (InvalidField "tag")
  else if String.eqb (tl_digest lease) "" then Err (InvalidField "digest")
  else Ok (set_tagLeases (put2 (tl_repository lease) (tl_tag lease) lease (tagLeases s)) s).

Definition GetTagLease (ctx : bool) (repo tag : string) (s : Store) : result MetaError TagLease :=
  check! enter ctx s in
  match get2 (tagLeases s) repo tag with
  | None => Err (NotFound "tag lease" tag)
  | Some lease => Ok lease
  end.

Definition DeleteTagLease (ctx : bool) (repo tag : string) (s : Store) : result MetaError Store :=
  check! enter ctx s in
  match get2 (tagLeases s) repo tag with
  | None => Err (NotFound "tag lease" tag)
  | Some _ => Ok (set_tagLeases (delete2 repo tag (tagLeases s)) s)
  end.

Definition PutNegativeEntry (ctx : bool) (entry : NegativeEntry) (s : Store) : result MetaError Store :=
  check! enter ctx s in
  check! requireProxyEntity (ne_repository entry) s in
  if String.eqb (ne_reference entry) "" then Err (InvalidField "reference")
  else Ok (set_negativeCache (put2 (ne_repository entry) (ne_reference entry) entry (negativeCache s)) s).

Definition GetNegativeEntry (ctx : bool) (repo reference : string) (s : Store) : result MetaError NegativeEntry :=
  check! enter ctx s in
  match get2 (negativeCache s) repo reference with
  | None => Err (NotFound "negative cache entry" reference)
  | Some entry => Ok entry
  end.

Definition DeleteNegativeEntry (ctx : bool) (repo reference : string) (s : Store) : result MetaError Store :=
  check! enter ctx s in
  match get2 (negativeCache s) repo reference with
  | None => Err (NotFound "negative cache entry" reference)
  | Some _ => Ok (set_negativeCache (delete2 repo reference (negativeCache s)) s)
  end.

(** *** Eviction *)
Definition inCacheScope (content entity : string) : bool := String.eqb entity "" || belongsTo content entity.

(** The rows of a nested map in an eviction scope. *)
Definition in_scope {A} (entity : string) (m : gmap string (gmap string A)) : list (string * (string * A)) :=
  filter (λ p : string * gmap string A, inCacheScope p.1 entity = true) (map_to_list m) ≫=
    λ p, pair p.1 <$> map_to_list p.2.

Definition sum64 (sizes : list Z) : Z := foldl add64 0%Z sizes.

Definition CachedUsage (ctx : bool) (entity : string) (s : Store) : result MetaError CacheUsage :=
  check! enter ctx s in
  let ms := in_scope entity (cachedManifests s) in
  let bs := in_scope entity (cachedBlobs s) in
  let manifestBytes := sum64 ((λ p, cm_size p.2.2) <$> ms) in
  let blobBytes := sum64 ((λ p, cb_size p.2.2) <$> bs) in
  Ok (mkCacheUsage (add64 manifestBytes blobBytes) manifestBytes blobBytes
        (Z.of_nat (length ms)) (Z.of_nat (length bs))).

(** Least recently used first; ties by repository, digest, kind. *)
Definition lru_key (i : CachedItem) : Z * string * string * string :=
  (ci_lastAccessAt i, ci_repository i, ci_digest i, ci_kind i).

Definition lru_before (a b : Z * string * string * string) : Prop :=
  let '(t1, r1, d1, k1) := a in
  let '(t2, r2, d2, k2) := b in
  if decide (t1 = t2) then
    if decide (r1 = r2) then
      if decide (d1 = d2) then String.le k1 k2 else String.le d1 d2
    else String.le r1 r2
  else (t1 < t2)%Z.

#[export] Instance lru_before_dec : RelDecision lru_before.
Proof.
  intros [[[t1 r1] d1] k1] [[[t2 r2] d2] k2]. unfold lru_before. repeat case_match; apply _.
Defined.

Definition cached_items (entity : string) (s : Store) : list CachedItem :=
  ((λ p : string * (string * CachedManifest),
      mkCachedItem p.1 p.2.1 CachedManifestKind (cm_size p.2.2) (cm_lastAccessAt p.2.2))
     <$> in_scope entity (cachedManifests s)) ++
  ((λ p : string * (string * CachedBlob),
      mkCachedItem p.1 p.2.1 CachedBlobKind (cb_size p.2.2) (cb_lastAccessAt p.2.2))
     <$> in_scope entity (cachedBlobs s)).

Definition ListEvictable (ctx : bool) (entity : string) (limit : Z) (s : Store) : result MetaError (list CachedItem) :=
  check! enter ctx s in
  if (limit <=? 0)%Z then Ok []
  else Ok (take (Z.to_nat limit) (sort_on lru_before lru_key (cached_items entity s))).

Definition DeleteCachedManifest (ctx : bool) (repo digest : string) (s : Store) : result MetaError Store :=
  check! enter ctx s in
  match get2 (cachedManifests s) repo digest with
  | None => Err (NotFound "cached manifest" digest)
  | Some _ =>
      Ok (set_cachedManifests (delete2 repo digest (cachedManifests s))
         (set_cachedRefs (delete2 repo digest (cachedRefs s)) s))
  end.

Definition blobClaims (digest : string) (s : Store) : Z :=
  Z.of_nat (length (filter (λ p : string * gmap string CachedBlob, is_Some (p.2 !! digest)) (map_to_list (cachedBlobs s)))).

Definition DeleteCachedBlob (ctx : bool) (repo digest : string) (s : Store) : result MetaError (Store * Z) :=
  check! enter ctx s in
  match get2 (cachedBlobs s) repo digest with
  | None => Err (NotFound "cached blob" digest)
  | Some _ =>
      let s' := set_cachedBlobs (delete2 repo digest (cachedBlobs s)) s in
      Ok (s', blobClaims digest s')
  end.

Definition CachedBlobClaims (ctx : bool) (digest : string) (s : Store) : result MetaError Z :=
  check! enter ctx s in Ok (blobClaims digest s).

Definition check_access (access : CacheAccess) : result MetaError unit :=
  if negb (CachedKind_Valid (ca_kind access)) then Err (InvalidField "kind")
  else if String.eqb (ca_digest access) "" then Err (InvalidField "digest")
  else Ok tt.

Definition touch (s : Store) (access : CacheAccess) : Store :=
  if String.eqb (ca_kind access) CachedManifestKind then
    match get2 (cachedManifests s) (ca_repository access) (ca_digest access) with
    | None => s
    | Some m =>
        if negb (cm_lastAccessAt m <? ca_at access)%Z then s
        else set_cachedManifests (put2 (ca_repository access) (ca_digest access)
               (mkCachedManifest (cm_repository m) (cm_digest m) (cm_mediaType m) (cm_artifactType m) (cm_subject m)
                  (cm_payload m) (cm_size m) (cm_cachedAt m) (ca_at access)) (cachedManifests s)) s
    end
  else if String.eqb (ca_kind access) CachedBlobKind then
    match get2 (cachedBlobs s) (ca_repository access) (ca_digest access) with
    | None => s
    | Some b =>
        if negb (cb_lastAccessAt b <? ca_at access)%Z then s
        else set_cachedBlobs (put2 (ca_repository access) (ca_digest access)
               (mkCachedBlob (cb_repository b) (cb_digest b) (cb_size b) (cb_cachedAt b) (ca_at access)) (cachedBlobs s)) s
    end
  else s.

(** An empty batch returns before the store is looked at. *)
Definition TouchCached (ctx : bool) (accesses : list CacheAccess) (s : Store) : result MetaError Store :=
  if ctx then Err Canceled
  else match accesses with
  | [] => Ok s
  | _ :: _ =>
      check! enter ctx s in
      check! foldM (λ _ a, check_access a) tt accesses in
      Ok (foldl touch s accesses)
  end.
