(* ===== verification/MemoryInv.v ===== *)
(** * The store's invariant

    What every reachable state of the metadata store satisfies: rows are filed
    under their own keys; tags point at stored manifests; a manifest has its
    edges and its repository; cached rows, leases and credentials live under
    proxies; a group's members exist, are not groups and are totally ordered.
    Each method preserves it, so a history of any length does. *)
From S2P Require Import Prelude RepoName Meta Memory.

(** ** Nested maps *)
Section nested.
Context {A : Type}.
Implicit Types (m : gmap string (gmap string A)) (r d : string).

Lemma get2_put2 r d x m r' d' :
  get2 (put2 r d x m) r' d' = if decide (r = r' ∧ d = d') then Some x else get2 m r' d'.
Proof.
  unfold get2, put2, inner. destruct (decide (r = r')) as [<-|Hr].
  - rewrite lookup_insert_eq. simpl. destruct (decide (d = d')) as [<-|Hd].
    + rewrite lookup_insert_eq, decide_True by done. done.
    + rewrite lookup_insert_ne, decide_False by naive_solver. by destruct (m !! r).
  - rewrite lookup_insert_ne, decide_False by naive_solver. done.
Qed.

Lemma get2_delete2 r d m r' d' :
  get2 (delete2 r d m) r' d' = if decide (r = r' ∧ d = d') then None else get2 m r' d'.
Proof.
  unfold get2, delete2. destruct (decide (r = r')) as [<-|Hr].
  - rewrite lookup_alter_eq. destruct (m !! r) as [i|]; [|by case_decide].
    change (delete d i !! d' = if decide (r = r ∧ d = d') then None else i !! d').
    destruct (decide (d = d')) as [<-|Hd].
    + by rewrite lookup_delete_eq, decide_True.
    + rewrite lookup_delete_ne, decide_False by naive_solver. done.
  - rewrite lookup_alter_ne, decide_False by naive_solver. done.
Qed.

Lemma lookup_delete_all {B} (ks : list string) (m : gmap string B) k :
  delete_all ks m !! k = if decide (k ∈ ks) then None else m !! k.
Proof.
  induction ks as [|k' ks IH]; [done|]. change (delete_all (k' :: ks) m) with (delete k' (delete_all ks m)).
  destruct (decide (k = k')) as [->|Hk].
  - rewrite lookup_delete_eq, decide_True by by left. done.
  - rewrite lookup_delete_ne, IH by done. repeat case_decide; set_solver.
Qed.

Lemma get2_delete_all ks m r d :
  get2 (delete_all ks m) r d = if decide (r ∈ ks) then None else get2 m r d.
Proof. unfold get2. rewrite lookup_delete_all. by case_decide. Qed.

Lemma get2_outer m r d x : get2 m r d = Some x → is_Some (m !! r).
Proof. unfold get2. destruct (m !! r); naive_solver. Qed.

Lemma elem_of_under {B} entity (m : gmap string B) c :
  c ∈ under entity m ↔ belongsTo c entity = true ∧ is_Some (m !! c).
Proof.
  unfold under. rewrite list_elem_of_filter, list_elem_of_fmap. split.
  - intros [Hb ([c' x] & -> & Hx%elem_of_map_to_list)]. simpl. eauto.
  - intros [Hb [x Hx]]. split; [done|]. exists (c, x). by rewrite elem_of_map_to_list.
Qed.

(** Deleting what is under an entity leaves exactly the other names' rows. *)
Lemma get2_under entity m r d :
  get2 (delete_all (under entity m) m) r d = if belongsTo r entity then None else get2 m r d.
Proof.
  rewrite get2_delete_all. case_decide as H; rewrite elem_of_under in H.
  - by destruct H as [-> _].
  - destruct (belongsTo r entity) eqn:Hb; [|done]. unfold get2. destruct (m !! r) eqn:E; [|done].
    destruct H. eauto.
Qed.
End nested.

Lemma StronglySorted_filter {A} (R : relation A) (P : A → Prop) `{!∀ x, Decision (P x)} (l : list A) :
  StronglySorted R l → StronglySorted R (filter P l).
Proof.
  induction 1 as [|x l Hl IH Hx]; [constructor|]. rewrite filter_cons. case_decide; [|done].
  constructor; [done|]. apply Forall_forall. intros y [_ Hy]%list_elem_of_filter. rewrite Forall_forall in Hx. auto.
Qed.

(** ** Names and entities *)
Lemma belongsTo_entity name : belongsTo name (entityOf name) = true.
Proof.
  unfold belongsTo, entityOf. apply orb_true_iff.
  destruct (SplitByte_join name) as (w & ws & Hs & Heq).
  rewrite (Prefix_Segments name w ws Hs).
  destruct ws as [|w' ws]; simpl in Heq.
  - left. rewrite str_app_nil_r in Heq. subst. apply String.eqb_refl.
  - right. apply HasPrefix_iff. exists (w' +:+ slashed ws). rewrite Heq, str_app_assoc. done.
Qed.

(** Content outside an entity is routed elsewhere. *)
Lemma not_belongsTo_entity name entity : belongsTo name entity = false → entityOf name ≠ entity.
Proof. intros H <-. by rewrite belongsTo_entity in H. Qed.

(** ** The invariant *)
Definition type_of (rs : gmap string Repository) (n : string) : option string := rp_type <$> rs !! n.

Record repos_wf (rs : gmap string Repository) (hist : gmap string (list ConfigRevision))
    (creds : gmap string ProxyCredential) : Prop := {
  rw_row n r : rs !! n = Some r → rp_name r = n ∧ n ≠ "" ∧ RepositoryType_Valid (rp_type r) = true;
  rw_history n : is_Some (hist !! n) → is_Some (rs !! n);
  rw_versions n r : rs !! n = Some r →
    let h := default [] (hist !! n) in
    rp_configVersion r = int64 (Z.of_nat (length h) + 1) ∧
    cv_version <$> h = (λ i, int64 (Z.of_nat i + 1)) <$> seq 0 (length h);
  rw_credential n c : creds !! n = Some c → type_of rs n = Some Proxy ∧ px_repository c = n ∧ px_sealed c ≠ "";
}.

Definition member_wf (ty : string → option string) (g : string) (m : GroupMember) : Prop :=
  gm_repository m ≠ g ∧ ∃ t, ty (gm_repository m) = Some t ∧ t ≠ Group.

Record members_wf (ty : string → option string) (ms : gmap string (list GroupMember)) : Prop := {
  gw_group g l : ms !! g = Some l → ty g = Some Group;
  gw_members g l : ms !! g = Some l → Forall (member_wf ty g) l;
  gw_positions g l : ms !! g = Some l → NoDup (gm_position <$> l);
  gw_sorted g l : ms !! g = Some l → StronglySorted (on_key Z.le gm_position) l;
  gw_writeTarget g l : ms !! g = Some l → length (filter (λ m, gm_writeTarget m = true) l) ≤ 1;
}.

(** An edge the store accepts. *)
Definition edge_ok (e : ManifestRef) : Prop := RefKind_Valid (ref_kind e) = true ∧ ref_child e ≠ "".

(** Manifests and their edges: stored together, under the same keys. *)
Record edges_wf {A} (ms : gmap string (gmap string A)) (rs : gmap string (gmap string (list ManifestRef))) : Prop := {
  ew_outer r : is_Some (ms !! r) → is_Some (rs !! r);
  ew_refs r d : is_Some (get2 ms r d) ↔ is_Some (get2 rs r d);
  ew_edges r d es : get2 rs r d = Some es → Forall edge_ok es;
}.

Record hosted_wf (ty : string → option string) (ms : gmap string (gmap string Manifest))
    (rs : gmap string (gmap string (list ManifestRef))) (ts : gmap string (gmap string Tag)) : Prop := {
  hw_edges : edges_wf ms rs;
  hw_manifest r d m : get2 ms r d = Some m →
    is_Some (ty (entityOf r)) ∧ mf_repository m = r ∧ mf_digest m = d ∧ d ≠ "";
  hw_tag r n t : get2 ts r n = Some t →
    is_Some (get2 ms r (tg_digest t)) ∧ tg_repository t = r ∧ tg_name t = n ∧ n ≠ "";
}.

Record cached_wf (ty : string → option string) (ms : gmap string (gmap string CachedManifest))
    (rs : gmap string (gmap string (list ManifestRef))) (bs : gmap string (gmap string CachedBlob))
    (ls : gmap string (gmap string TagLease)) (ns : gmap string (gmap string NegativeEntry)) : Prop := {
  cw_edges : edges_wf ms rs;
  cw_manifest r d m : get2 ms r d = Some m →
    ty (entityOf r) = Some Proxy ∧ cm_repository m = r ∧ cm_digest m = d ∧ d ≠ "";
  cw_blob r d b : get2 bs r d = Some b →
    ty (entityOf r) = Some Proxy ∧ cb_repository b = r ∧ cb_digest b = d ∧ d ≠ "";
  cw_lease r t l : get2 ls r t = Some l →
    ty (entityOf r) = Some Proxy ∧ tl_repository l = r ∧ tl_tag l = t ∧ t ≠ "" ∧ tl_digest l ≠ "";
  cw_negative r n e : get2 ns r n = Some e →
    ty (entityOf r) = Some Proxy ∧ ne_repository e = r ∧ ne_reference e = n ∧ n ≠ "";
}.

Record rows_wf (ty : string → option string) (bs : gmap string Blob) (us : gmap string UploadSession)
    (gs : gmap string GCRun) (ps : gmap (string * string) PullStats) : Prop := {
  ow_blob d b : bs !! d = Some b → bb_digest b = d ∧ d ≠ "" ∧ (0 ≤ bb_size b)%Z;
  ow_upload i u : us !! i = Some u → up_id u = i ∧ i ≠ "" ∧ is_Some (ty (entityOf (up_repository u)));
  ow_run i g : gs !! i = Some g → gr_id g = i ∧ i ≠ "";
  ow_pull k p : ps !! k = Some p → (pl_repository p, pl_reference p) = k;
}.

Record store_wf (s : Store) : Prop := {
  sw_repos : repos_wf (repos s) (configHistory s) (proxyCredentials s);
  sw_members : members_wf (type_of (repos s)) (members s);
  sw_hosted : hosted_wf (type_of (repos s)) (manifests s) (refs s) (tags s);
  sw_cached : cached_wf (type_of (repos s)) (cachedManifests s) (cachedRefs s) (cachedBlobs s) (tagLeases s) (negativeCache s);
  sw_rows : rows_wf (type_of (repos s)) (blobs s) (uploads s) (gcRuns s) (pullStats s);
}.

(** ** Repositories come and go *)

(** Types are only added: what depended on a repository still does. *)
Definition grows (ty ty' : string → option string) : Prop := ∀ n t, ty n = Some t → ty' n = Some t.

Section grow.
Context (ty ty' : string → option string) (Hg : grows ty ty').

Lemma grows_some n : is_Some (ty n) → is_Some (ty' n).
Proof. intros [t Ht]. exists t. by apply Hg. Qed.

Lemma members_wf_grow ms : members_wf ty ms → members_wf ty' ms.
Proof.
  intros [H1 H2 H3 H4 H5]. split; eauto. intros g l Hl. eapply Forall_impl; [by eapply H2|].
  intros m [Hne (t & Ht & Hn)]. split; [done|]. eauto.
Qed.

Lemma hosted_wf_grow ms rs ts : hosted_wf ty ms rs ts → hosted_wf ty' ms rs ts.
Proof.
  intros [H1 H4 H5]. split; [done| |done]. intros r d m Hm.
  destruct (H4 r d m Hm) as (? & ?). auto using grows_some.
Qed.

Lemma cached_wf_grow ms rs bs ls ns : cached_wf ty ms rs bs ls ns → cached_wf ty' ms rs bs ls ns.
Proof.
  intros [H1 H4 H5 H6 H7]. split; [done|..]; intros r d m Hm.
  - destruct (H4 r d m Hm) as (? & ?). auto.
  - destruct (H5 r d m Hm) as (? & ?). auto.
  - destruct (H6 r d m Hm) as (? & ?). auto.
  - destruct (H7 r d m Hm) as (? & ?). auto.
Qed.

Lemma rows_wf_grow bs us gs ps : rows_wf ty bs us gs ps → rows_wf ty' bs us gs ps.
Proof.
  intros [H1 H2 H3 H4]. split; [done| |done..]. intros i u Hu.
  destruct (H2 i u Hu) as (? & ? & ?). auto using grows_some.
Qed.
End grow.

(** Deleting a repository: the names that remain keep their types. *)
Section shrink.
Context (rs : gmap string Repository) (name : string).
Let ty := type_of rs.
Let ty' := type_of (delete name rs).

Lemma type_delete_ne n : n ≠ name → type_of (delete name rs) n = type_of rs n.
Proof. intros Hn. unfold type_of. by rewrite lookup_delete_ne. Qed.

Lemma type_delete_outside content :
  belongsTo content name = false → type_of (delete name rs) (entityOf content) = type_of rs (entityOf content).
Proof. intros H%not_belongsTo_entity. by apply type_delete_ne. Qed.

Lemma repos_wf_delete hist creds :
  repos_wf rs hist creds → repos_wf (delete name rs) (delete name hist) (delete name creds).
Proof.
  intros [H1 H2 H3 H4]. split.
  - intros n r [Hn Hr]%lookup_delete_Some. by apply H1.
  - intros n [h [Hn Hh]%lookup_delete_Some]. rewrite lookup_delete_ne by done. eauto.
  - intros n r [Hn Hr]%lookup_delete_Some. rewrite lookup_delete_ne by done. by apply H3.
  - intros n c [Hn Hc]%lookup_delete_Some. rewrite type_delete_ne by done. by apply H4.
Qed.

Lemma members_wf_delete ms :
  members_wf ty ms → members_wf ty' (filter (λ m, gm_repository m ≠ name) <$> delete name ms).
Proof.
  intros [H1 H2 H3 H4 H5].
  assert (∀ g l, (filter (λ m, gm_repository m ≠ name) <$> delete name ms) !! g = Some l →
    g ≠ name ∧ ∃ l0, ms !! g = Some l0 ∧ l = filter (λ m, gm_repository m ≠ name) l0) as Hl.
  { intros g l. rewrite lookup_fmap. intros (l0 & [Hn Hl0]%lookup_delete_Some & ->)%fmap_Some. eauto. }
  split; intros g l (Hn & l0 & Hl0 & ->)%Hl.
  - unfold ty'. rewrite type_delete_ne by done. by eapply H1.
  - apply Forall_forall. intros m [Hne Hm]%list_elem_of_filter.
    specialize (H2 _ _ Hl0). rewrite Forall_forall in H2. destruct (H2 m Hm) as [Hg (t & Ht & Hnt)].
    split; [done|]. exists t. unfold ty'. by rewrite type_delete_ne.
  - eapply NoDup_fmap_filter, H3, Hl0.
  - eapply StronglySorted_filter, H4, Hl0.
  - rewrite list_filter_filter.
    rewrite (list_filter_iff _ (λ m, gm_repository m ≠ name ∧ gm_writeTarget m = true)) by (intros; tauto).
    rewrite <-list_filter_filter. etrans; [apply length_filter|]. by eapply H5.
Qed.

Lemma edges_wf_delete {A} (ms : gmap string (gmap string A)) es :
  edges_wf ms es → edges_wf (delete_all (under name ms) ms) (delete_all (under name ms) es).
Proof.
  intros [H0 H1 H2].
  assert (∀ r d l, get2 (delete_all (under name ms) es) r d = Some l ↔
    belongsTo r name = false ∧ get2 es r d = Some l) as Hes.
  { intros r d l. rewrite get2_delete_all. case_decide as Hu; rewrite elem_of_under in Hu.
    { destruct Hu as [-> _]. split; [done|by intros []]. }
    destruct (belongsTo r name) eqn:Hb; [|by split; [|intros []]]. split; [|by intros []]. intros He. exfalso.
    apply Hu. split; [done|]. destruct (proj2 (H1 r d)) as [m Hm]; [by eexists|]. by eapply get2_outer. }
  split.
  - intros r [i Hi]. rewrite lookup_delete_all in Hi. rewrite lookup_delete_all.
    destruct (decide (r ∈ under name ms)); [done|]. apply H0. eauto.
  - intros r d. split.
    + intros [m Hm]. rewrite get2_under in Hm. destruct (belongsTo r name) eqn:Hb; [done|].
      destruct (proj1 (H1 r d)) as [l Hl]; [by eexists|]. exists l. by apply Hes.
    + intros [l [Hb Hl]%Hes]. rewrite get2_under, Hb. apply H1. by eexists.
  - intros r d l [_ Hl]%Hes. by eapply H2.
Qed.

(** What survives the deletion was there, and is routed elsewhere. *)
Lemma get2_survives {A} (m : gmap string (gmap string A)) r d x :
  get2 (delete_all (under name m) m) r d = Some x →
  belongsTo r name = false ∧ ty' (entityOf r) = ty (entityOf r) ∧ get2 m r d = Some x.
Proof.
  rewrite get2_under. destruct (belongsTo r name) eqn:Hb; [done|]. intros Hx. split_and!; [done| |done].
  by apply type_delete_outside.
Qed.

Lemma hosted_wf_delete ms es ts :
  hosted_wf ty ms es ts →
  let ts1 := delete_all (under name ms) ts in
  hosted_wf ty' (delete_all (under name ms) ms) (delete_all (under name ms) es) (delete_all (under name ts1) ts1).
Proof.
  intros [H1 H3 H4] ts1. split.
  - by apply edges_wf_delete.
  - intros r d m (_ & -> & Hm)%get2_survives. by apply H3.
  - intros r n t (Hb & _ & Ht)%get2_survives. unfold ts1 in Ht. rewrite get2_delete_all in Ht.
    case_decide; [done|]. rewrite get2_under, Hb. by apply H4.
Qed.

Lemma cached_wf_delete ms es bs ls ns :
  cached_wf ty ms es bs ls ns →
  cached_wf ty' (delete_all (under name ms) ms) (delete_all (under name ms) es) (delete_all (under name bs) bs)
    (delete_all (under name ls) ls) (delete_all (under name ns) ns).
Proof.
  intros [H1 H3 H4 H5 H6]. split; [by apply edges_wf_delete|..]; intros r d x (_ & -> & Hx)%get2_survives; eauto.
Qed.

Lemma rows_wf_delete bs us gs ps :
  rows_wf ty bs us gs ps →
  rows_wf ty' bs (filter (λ p, belongsTo (up_repository p.2) name = false) us) gs ps.
Proof.
  intros [H1 H2 H3 H4]. split; [done| |done..]. intros i u [Hu Hb]%map_lookup_filter_Some. simpl in Hb.
  unfold ty'. rewrite type_delete_outside by done. by apply H2.
Qed.
End shrink.

(** ** Every method preserves the invariant *)
Lemma edges_wf_put {A} (ms : gmap string (gmap string A)) es r d m l :
  edges_wf ms es → Forall edge_ok l →
  edges_wf (put2 r d m ms) (put2 r d l (match ms !! r with Some _ => es | None => <[r := ∅]> es end)).
Proof.
  intros [H0 H1 H2] Hl. set (es' := match ms !! r with Some _ => es | None => <[r := ∅]> es end).
  assert (∀ r' d', get2 es' r' d' = get2 es r' d') as He.
  { intros r' d'. unfold es'. destruct (ms !! r) eqn:Hr; [done|]. unfold get2.
    destruct (decide (r = r')) as [<-|Hne]; [|by rewrite lookup_insert_ne]. rewrite lookup_insert_eq. simpl.
    rewrite lookup_empty. symmetry. apply eq_None_not_Some. intros H%H1. unfold get2 in H. rewrite Hr in H.
    by destruct H as [? [=]]. }
  split.
  - intros r' Hr'. unfold put2 in *. destruct (decide (r = r')) as [<-|Hne]; [rewrite lookup_insert_eq; by eauto|].
    rewrite lookup_insert_ne in Hr' by done. rewrite lookup_insert_ne by done. unfold es'.
    destruct (ms !! r); [by apply H0|]. rewrite lookup_insert_ne by done. by apply H0.
  - intros r' d'. rewrite !get2_put2, He. case_decide; [by split; eauto|]. apply H1.
  - intros r' d' l'. rewrite get2_put2, He. case_decide; [by intros [= <-]|]. apply H2.
Qed.

Lemma edges_wf_del {A} (ms : gmap string (gmap string A)) es r d :
  edges_wf ms es → edges_wf (delete2 r d ms) (delete2 r d es).
Proof.
  intros [H0 H1 H2]. split.
  - intros r' Hr'. unfold delete2 in *. rewrite lookup_alter_is_Some in Hr'. rewrite lookup_alter_is_Some. by apply H0.
  - intros r' d'. rewrite !get2_delete2. case_decide; [by split; intros [? ?]|]. apply H1.
  - intros r' d' l'. rewrite get2_delete2. case_decide; [done|]. apply H2.
Qed.

Lemma check_refs_ok edges : foldM (λ _ r, check_ref r) tt edges = Ok tt → Forall edge_ok edges.
Proof.
  intros H%foldM_unit_ok. eapply Forall_impl; [exact H|]. intros e He. unfold check_ref in He.
  destruct (RefKind_Valid (ref_kind e)) eqn:Hk; [|done]. destruct (String.eqb_spec (ref_child e) ""); [done|]. done.
Qed.

Lemma CreateRepository_wf ctx repo s s' r :
  store_wf s → CreateRepository ctx repo s = Ok (s', r) → store_wf s'.
Proof.
  intros [Hr Hm Hh Hc Ho]. unfold CreateRepository. intros H. inv_result.
  destruct (String.eqb_spec (rp_name repo) ""); [done|]. destruct (RepositoryType_Valid (rp_type repo)) eqn:Hty; [|done].
  simpl in H. destruct (repos s !! rp_name repo) eqn:Hn; [done|]. injection H as <- <-.
  assert (grows (type_of (repos s)) (type_of (<[rp_name repo :=
    mkRepository (rp_name repo) (rp_type repo) (rp_config repo) 1 (rp_createdAt repo) (rp_updatedAt repo)]> (repos s)))) as Hg.
  { intros n' t. unfold type_of. destruct (decide (rp_name repo = n')) as [<-|?]; [by rewrite Hn|]. by rewrite lookup_insert_ne. }
  split; cbn.
  - destruct Hr as [H1 H2 H3 H4]. split.
    + intros n' r'. rewrite lookup_insert_Some. intros [[<- <-]|[_ ?]]; [done|]. by apply H1.
    + intros n' Hx. destruct (H2 n' Hx) as [r' Hr']. rewrite lookup_insert_is_Some. right. split; [|by eexists].
      intros <-. congruence.
    + intros n' r'. rewrite lookup_insert_Some. intros [[<- <-]|[_ ?]]; [|by apply H3].
      assert (configHistory s !! rp_name repo = None) as ->; [|done].
      apply eq_None_not_Some. intros Hx%H2. rewrite Hn in Hx. by destruct Hx.
    + intros n' c Hx. destruct (H4 n' c Hx) as (? & ?). split; [by apply Hg|done].
  - by eapply members_wf_grow.
  - by eapply hosted_wf_grow.
  - by eapply cached_wf_grow.
  - by eapply rows_wf_grow.
Qed.

Lemma int64_succ z : add64 (int64 z) 1 = int64 (z + 1).
Proof.
  unfold add64, int64. f_equal.
  replace ((z + 2 ^ 63) mod 2 ^ 64 - 2 ^ 63 + 1 + 2 ^ 63)%Z with ((z + 2 ^ 63) mod 2 ^ 64 + 1)%Z by lia.
  rewrite Zplus_mod_idemp_l. f_equal. lia.
Qed.

Lemma UpdateRepositoryConfig_wf ctx name config v actor at_ s s' r :
  store_wf s → UpdateRepositoryConfig ctx name config v actor at_ s = Ok (s', r) → store_wf s'.
Proof.
  intros [Hr Hm Hh Hc Ho]. unfold UpdateRepositoryConfig. intros H. inv_result.
  destruct (repos s !! name) as [repo|] eqn:Hn; [|done]. destruct (rp_configVersion repo =? v)%Z; [|done].
  simpl in H. injection H as <- <-.
  set (repo' := mkRepository _ _ _ _ _ _).
  assert (∀ n, type_of (<[name := repo']> (repos s)) n = type_of (repos s) n) as Hty.
  { intros n. unfold type_of. destruct (decide (name = n)) as [<-|?]; [|by rewrite lookup_insert_ne].
    by rewrite lookup_insert_eq, Hn. }
  assert (grows (type_of (repos s)) (type_of (<[name := repo']> (repos s)))) as Hg by (intros n t; by rewrite Hty).
  split; cbn.
  - destruct Hr as [H1 H2 H3 H4]. split.
    + intros n' r'. rewrite lookup_insert_Some. intros [[<- <-]|[_ ?]]; [|by apply H1]. by apply (H1 name repo).
    + intros n'. rewrite !lookup_insert_is_Some. naive_solver.
    + intros n' r'. rewrite lookup_insert_Some. intros [[<- <-]|[? ?]].
      * rewrite lookup_insert_eq. simpl. destruct (H3 name repo Hn) as [Hv Hvs].
        rewrite length_app, fmap_app, seq_app, fmap_app, Hvs, Hv. simpl. rewrite int64_succ.
        split; [f_equal; lia|]. done.
      * rewrite lookup_insert_ne by done. by apply H3.
    + intros n' c Hx. rewrite Hty. by apply H4.
  - by eapply members_wf_grow.
  - by eapply hosted_wf_grow.
  - by eapply cached_wf_grow.
  - by eapply rows_wf_grow.
Qed.

Lemma DeleteRepository_wf ctx name s s' :
  store_wf s → DeleteRepository ctx name s = Ok s' → store_wf s'.
Proof.
  intros [Hr Hm Hh Hc Ho]. unfold DeleteRepository. intros H. inv_result.
  destruct (repos s !! name) eqn:Hn; [|done]. injection H as <-. split; cbn.
  - by apply repos_wf_delete.
  - by apply members_wf_delete.
  - by apply hosted_wf_delete.
  - by apply cached_wf_delete.
  - by apply rows_wf_delete.
Qed.

Lemma PutProxyCredential_wf ctx cred s s' :
  store_wf s → PutProxyCredential ctx cred s = Ok s' → store_wf s'.
Proof.
  intros [Hr Hm Hh Hc Ho]. unfold PutProxyCredential. intros H. inv_result.
  destruct (String.eqb_spec (px_sealed cred) ""); [done|].
  destruct (repos s !! px_repository cred) as [owner|] eqn:Hn; [|done].
  destruct (String.eqb_spec (rp_type owner) Proxy) as [Hp|]; [|done]. injection H as <-.
  split; cbn; try assumption. destruct Hr as [H1 H2 H3 H4]. split; [done..|]. intros n' c'.
  rewrite lookup_insert_Some. intros [[<- <-]|[_ ?]]; [|by apply H4]. split_and!; [|done..].
  unfold type_of. rewrite Hn. simpl. by rewrite Hp.
Qed.

Lemma DeleteProxyCredential_wf ctx repository s s' :
  store_wf s → DeleteProxyCredential ctx repository s = Ok s' → store_wf s'.
Proof.
  intros [Hr Hm Hh Hc Ho]. unfold DeleteProxyCredential. intros H. inv_result.
  destruct (proxyCredentials s !! repository); [|done]. injection H as <-. split; cbn; try assumption.
  destruct Hr as [H1 H2 H3 H4]. split; [done..|]. intros n c [_ Hx]%lookup_delete_Some. by apply H4.
Qed.

(** What the loop of [SetGroupMembers] has checked. *)
Lemma check_group_members_ok s group st ms st' :
  foldM (check_group_member s group) st ms = Ok st' →
  Forall (member_wf (type_of (repos s)) group) ms ∧ NoDup (gm_position <$> ms) ∧
  (∀ m, m ∈ ms → gm_position m ∉ st.1) ∧
  st'.2 = (st.2 + Z.of_nat (length (filter (λ m, gm_writeTarget m = true) ms)))%Z.
Proof.
  revert st. induction ms as [|m ms IH]; intros [seen targets] H; simpl in H; inv_result.
  { split_and!; [constructor..|by intros m ?%not_elem_of_nil|simpl; lia]. }
  rename Heqr into Hm. apply IH in H as (H1 & H2 & H3 & H4). clear IH. unfold check_group_member in Hm.
  destruct (repos s !! gm_repository m) as [repo|] eqn:Hn; [|done].
  destruct (String.eqb_spec (gm_repository m) group); [done|].
  destruct (String.eqb_spec (rp_type repo) Group); [done|]. case_bool_decide as Hp; [done|]. injection Hm as <-.
  simpl in *. split_and!.
  - constructor; [|done]. split; [done|]. exists (rp_type repo). unfold type_of. by rewrite Hn.
  - csimpl. constructor; [|done]. intros (m' & He & Hm')%list_elem_of_fmap. apply (H3 m' Hm'). set_solver.
  - intros m' [->|Hm']%elem_of_cons; [done|]. specialize (H3 m' Hm'). set_solver.
  - rewrite H4, filter_cons. destruct (gm_writeTarget m); simpl; lia.
Qed.

Lemma SetGroupMembers_wf ctx group ms s s' :
  store_wf s → SetGroupMembers ctx group ms s = Ok s' → store_wf s'.
Proof.
  intros [Hr Hm Hh Hc Ho]. unfold SetGroupMembers. intros H. inv_result.
  destruct (repos s !! group) as [repo|] eqn:Hn; [|done].
  destruct (String.eqb_spec (rp_type repo) Group) as [Hg|]; [|done]. simpl in H. inv_result.
  destruct (Z.ltb_spec 1 (a0.2)); [done|]. injection H as <-. apply check_group_members_ok in Heqr0 as (H1 & H2 & _ & H4).
  simpl in H4. split; cbn; try assumption. destruct Hm as [G1 G2 G3 G4 G5].
  assert (∀ g l, <[group := sort_on Z.le gm_position ms]> (members s) !! g = Some l →
    (g = group ∧ l = sort_on Z.le gm_position ms) ∨ members s !! g = Some l) as Hl
    by (intros g l; rewrite lookup_insert_Some; naive_solver).
  split; intros g l [[-> ->]|Hgl]%Hl; eauto.
  - unfold type_of. rewrite Hn. simpl. by rewrite Hg.
  - by rewrite sort_on_perm.
  - by rewrite sort_on_perm.
  - apply sort_on_sorted; apply _.
  - rewrite sort_on_perm. lia.
Qed.

Lemma PutManifest_wf ctx m edges s s' :
  store_wf s → PutManifest ctx m edges s = Ok s' → store_wf s'.
Proof.
  intros [Hr Hm Hh Hc Ho]. unfold PutManifest. intros H. inv_result.
  unfold repoExists in H. case_bool_decide as He; [|done]. destruct (String.eqb_spec (mf_digest m) ""); [done|].
  simpl in H. inv_result. destruct a0. apply check_refs_ok in Heqr0. split; cbn; try assumption.
  destruct Hh as [H1 H2 H3]. split; [by apply edges_wf_put| |].
  - intros r' d' m'. rewrite get2_put2. case_decide as Hk; [|by apply H2]. intros [= <-]. destruct Hk as [<- <-].
    split_and!; [|done..]. by apply fmap_is_Some.
  - intros r' n' t Ht. destruct (H3 r' n' t Ht) as ([m' Hm'] & ?). split; [|done].
    rewrite get2_put2. case_decide; eauto.
Qed.

Lemma DeleteManifest_wf ctx repo digest s s' :
  store_wf s → DeleteManifest ctx repo digest s = Ok s' → store_wf s'.
Proof.
  intros [Hr Hm Hh Hc Ho]. unfold DeleteManifest. intros H. inv_result.
  destruct (get2 (manifests s) repo digest); [|done]. destruct (sort_strings _); [|done]. injection H as <-.
  split; cbn; try assumption. destruct Hh as [H1 H2 H3]. split; [by apply edges_wf_del| |].
  - intros r' d' m'. rewrite get2_delete2. case_decide; [done|]. apply H2.
  - intros r' n' t Ht. rewrite get2_delete2. unfold get2 in Ht.
    destruct (decide (repo = r')) as [<-|Hne].
    + rewrite lookup_alter_eq in Ht. destruct (tags s !! repo) as [ts|] eqn:Hts; [|done]. simpl in Ht.
      apply map_lookup_filter_Some in Ht as [Ht Hd]. simpl in Hd. rewrite decide_False by naive_solver.
      apply H3. unfold get2. by rewrite Hts.
    + rewrite lookup_alter_ne in Ht by done. rewrite decide_False by naive_solver. by apply H3.
Qed.

Lemma PutTag_wf ctx tag s s' : store_wf s → PutTag ctx tag s = Ok s' → store_wf s'.
Proof.
  intros [Hr Hm Hh Hc Ho]. unfold PutTag. intros H. inv_result.
  destruct (String.eqb_spec (tg_name tag) ""); [done|]. unfold repoExists in H. case_bool_decide; [|done]. simpl in H.
  destruct (get2 (manifests s) (tg_repository tag) (tg_digest tag)) eqn:Hmf; [|done]. injection H as <-.
  set (tag' := match get2 (tags s) _ _ with Some _ => _ | None => _ end).
  assert (tg_repository tag' = tg_repository tag ∧ tg_name tag' = tg_name tag ∧ tg_digest tag' = tg_digest tag) as (E1 & E2 & E3)
    by (unfold tag'; by destruct (get2 (tags s) _ _)).
  split; cbn; try assumption. destruct Hh as [H1 H2 H3]. split; [done..|].
  intros r' n' t. rewrite get2_put2. case_decide as Hk; [|by apply H3]. intros [= <-]. destruct Hk as [<- <-].
  rewrite E1, E2, E3. split_and!; [by rewrite Hmf|done..].
Qed.

Lemma DeleteTag_wf ctx repo name s s' : store_wf s → DeleteTag ctx repo name s = Ok s' → store_wf s'.
Proof.
  intros [Hr Hm Hh Hc Ho]. unfold DeleteTag. intros H. inv_result.
  destruct (get2 (tags s) repo name); [|done]. injection H as <-. split; cbn; try assumption.
  destruct Hh as [H1 H2 H3]. split; [done..|]. intros r' n' t'. rewrite get2_delete2. case_decide; [done|]. apply H3.
Qed.

(** The single-table rows: one lemma per table, then the methods over it. *)
Section rows.
Context (ty : string → option string) (bs : gmap string Blob) (us : gmap string UploadSession)
  (gs : gmap string GCRun) (ps : gmap (string * string) PullStats) (Hwf : rows_wf ty bs us gs ps).

Lemma rows_insert_blob b : bb_digest b ≠ "" → (0 ≤ bb_size b)%Z → rows_wf ty (<[bb_digest b := b]> bs) us gs ps.
Proof.
  destruct Hwf as [H1 H2 H3 H4]. intros ? ?. split; [|done..]. intros d b'.
  rewrite lookup_insert_Some. intros [[<- <-]|[_ ?]]; [done|by apply H1].
Qed.
Lemma rows_delete_blob d : rows_wf ty (delete d bs) us gs ps.
Proof. destruct Hwf as [H1 H2 H3 H4]. split; [|done..]. intros d' b' [_ Hb]%lookup_delete_Some. by apply H1. Qed.
Lemma rows_insert_upload u :
  up_id u ≠ "" → is_Some (ty (entityOf (up_repository u))) → rows_wf ty bs (<[up_id u := u]> us) gs ps.
Proof.
  destruct Hwf as [H1 H2 H3 H4]. intros ? ?. split; [done| |done..]. intros i u'.
  rewrite lookup_insert_Some. intros [[<- <-]|[_ ?]]; [done|by apply H2].
Qed.
Lemma rows_delete_upload i : rows_wf ty bs (delete i us) gs ps.
Proof. destruct Hwf as [H1 H2 H3 H4]. split; [done| |done..]. intros i' u' [_ Hu]%lookup_delete_Some. by apply H2. Qed.
Lemma rows_insert_run i g : gr_id g = i → i ≠ "" → rows_wf ty bs us (<[i := g]> gs) ps.
Proof.
  destruct Hwf as [H1 H2 H3 H4]. intros ? ?. split; [done..| |done]. intros i' g'.
  rewrite lookup_insert_Some. intros [[<- <-]|[_ ?]]; [done|by apply H3].
Qed.
Lemma rows_record_pulls records : rows_wf ty bs us gs (foldl record_pull ps records).
Proof.
  destruct Hwf as [H1 H2 H3 H4]. split; [done..|]. clear Hwf. revert ps H4.
  induction records as [|r records IH]; intros ps' H4; simpl; [done|]. apply IH. intros k p. unfold record_pull.
  rewrite lookup_insert_Some. intros [[<- <-]|[_ ?]]; [|by apply H4]. simpl.
  destruct (ps' !! (pr_repository r, pr_reference r)) as [old|] eqn:Ho; [|done]. by apply H4.
Qed.
End rows.

Lemma PutBlob_wf ctx blob s s' : store_wf s → PutBlob ctx blob s = Ok s' → store_wf s'.
Proof.
  intros Hwf. unfold PutBlob. intros H. inv_result. destruct (String.eqb_spec (bb_digest blob) ""); [done|].
  destruct (Z.ltb_spec (bb_size blob) 0); [done|].
  destruct (blobs s !! bb_digest blob); injection H as <-; [done|]. destruct Hwf. split; cbn; try assumption.
  by apply rows_insert_blob.
Qed.

Lemma DeleteBlob_wf ctx digest s s' : store_wf s → DeleteBlob ctx digest s = Ok s' → store_wf s'.
Proof.
  intros Hwf. unfold DeleteBlob. intros H. inv_result. destruct (blobs s !! digest); [|done]. injection H as <-.
  destruct Hwf. split; cbn; try assumption. by apply rows_delete_blob.
Qed.

Lemma DeleteBlobIfUnreferenced_wf ctx digest before s s' b :
  store_wf s → DeleteBlobIfUnreferenced ctx digest before s = Ok (s', b) → store_wf s'.
Proof.
  intros Hwf. unfold DeleteBlobIfUnreferenced. intros H. inv_result.
  destruct (blobs s !! digest); [|by injection H as <- <-].
  destruct (sweepable _ _ _); injection H as <- <-; [|done].
  destruct Hwf. split; cbn; try assumption. by apply rows_delete_blob.
Qed.

Lemma CreateUpload_wf ctx session s s' : store_wf s → CreateUpload ctx session s = Ok s' → store_wf s'.
Proof.
  intros Hwf. unfold CreateUpload. intros H. inv_result. destruct (String.eqb_spec (up_id session) ""); [done|].
  unfold repoExists in H. case_bool_decide; [|done]. simpl in H. destruct (uploads s !! up_id session); [done|].
  injection H as <-. destruct Hwf. split; cbn; try assumption. apply rows_insert_upload; [done..|]. by apply fmap_is_Some.
Qed.

Lemma UpdateUpload_wf ctx id bytes at_ s s' : store_wf s → UpdateUpload ctx id bytes at_ s = Ok s' → store_wf s'.
Proof.
  intros Hwf. unfold UpdateUpload. intros H. inv_result. destruct (uploads s !! id) as [u|] eqn:Hu; [|done].
  destruct (bytes <? 0)%Z; [done|]. injection H as <-. destruct Hwf as [? ? ? ? Ho].
  split; cbn; try assumption. destruct (ow_upload _ _ _ _ _ Ho _ _ Hu) as (<- & ? & ?).
  by apply (rows_insert_upload _ _ _ _ _ Ho (mkUpload (up_id u) (up_repository u) (up_digest u) bytes (up_startedAt u) at_)).
Qed.

Lemma DeleteUpload_wf ctx id s s' : store_wf s → DeleteUpload ctx id s = Ok s' → store_wf s'.
Proof.
  intros Hwf. unfold DeleteUpload. intros H. inv_result. destruct (uploads s !! id); [|done]. injection H as <-.
  destruct Hwf. split; cbn; try assumption. by apply rows_delete_upload.
Qed.

Lemma RecordPulls_wf ctx records s s' : store_wf s → RecordPulls ctx records s = Ok s' → store_wf s'.
Proof.
  intros Hwf. unfold RecordPulls. intros H. inv_result. destruct Hwf. split; cbn; try assumption.
  by apply rows_record_pulls.
Qed.

Lemma StartGCRun_wf ctx run s s' : store_wf s → StartGCRun ctx run s = Ok s' → store_wf s'.
Proof.
  intros Hwf. unfold StartGCRun. intros H. inv_result. destruct (String.eqb_spec (gr_id run) ""); [done|].
  destruct (gcRuns s !! gr_id run); [done|]. injection H as <-. destruct Hwf. split; cbn; try assumption.
  by apply rows_insert_run.
Qed.

Lemma SaveGCProgress_wf ctx id cursor scanned deleted freed s s' :
  store_wf s → SaveGCProgress ctx id cursor scanned deleted freed s = Ok s' → store_wf s'.
Proof.
  intros Hwf. unfold SaveGCProgress. intros H. inv_result. destruct (gcRuns s !! id) as [g|] eqn:Hg; [|done].
  injection H as <-. destruct Hwf as [? ? ? ? Ho]. split; cbn; try assumption.
  destruct (ow_run _ _ _ _ _ Ho _ _ Hg) as [? ?]. by apply rows_insert_run.
Qed.

Lemma FinishGCRun_wf ctx id at_ failure s s' : store_wf s → FinishGCRun ctx id at_ failure s = Ok s' → store_wf s'.
Proof.
  intros Hwf. unfold FinishGCRun. intros H. inv_result. destruct (gcRuns s !! id) as [g|] eqn:Hg; [|done].
  injection H as <-. destruct Hwf as [? ? ? ? Ho]. split; cbn; try assumption.
  destruct (ow_run _ _ _ _ _ Ho _ _ Hg) as [? ?]. by apply rows_insert_run.
Qed.

(** *** Cached content *)
Lemma requireProxyEntity_ok name s :
  requireProxyEntity name s = Ok tt → type_of (repos s) (entityOf name) = Some Proxy.
Proof.
  unfold requireProxyEntity, type_of. destruct (repos s !! entityOf name) as [repo|]; [|done].
  destruct (String.eqb_spec (rp_type repo) Proxy) as [He|]; simpl; [by rewrite He|done].
Qed.

Lemma PutCachedManifest_wf ctx m edges s s' :
  store_wf s → PutCachedManifest ctx m edges s = Ok s' → store_wf s'.
Proof.
  intros [Hr Hm Hh Hc Ho]. unfold PutCachedManifest. intros H. inv_result. destruct a0.
  destruct (String.eqb_spec (cm_digest m) ""); [done|]. inv_result. destruct a0. apply check_refs_ok in Heqr1.
  apply requireProxyEntity_ok in Heqr0. split; cbn; try assumption. destruct Hc as [H1 H2 H3 H4 H5].
  split; [by apply edges_wf_put| |done..]. intros r' d' m'. rewrite get2_put2. case_decide as Hk; [|by apply H2].
  intros [= <-]. by destruct Hk as [<- <-].
Qed.

Lemma PutCachedBlob_wf ctx b s s' : store_wf s → PutCachedBlob ctx b s = Ok s' → store_wf s'.
Proof.
  intros [Hr Hm Hh Hc Ho]. unfold PutCachedBlob. intros H. inv_result. destruct a0.
  destruct (String.eqb_spec (cb_digest b) ""); [done|]. injection H as <-.
  apply requireProxyEntity_ok in Heqr0. split; cbn; try assumption. destruct Hc as [H1 H2 H3 H4 H5].
  split; [done..| |done|done]. intros r' d' b'. rewrite get2_put2. case_decide as Hk; [|by apply H3].
  intros [= <-]. by destruct Hk as [<- <-].
Qed.

Lemma PutTagLease_wf ctx lease s s' : store_wf s → PutTagLease ctx lease s = Ok s' → store_wf s'.
Proof.
  intros [Hr Hm Hh Hc Ho]. unfold PutTagLease. intros H. inv_result. destruct a0.
  destruct (String.eqb_spec (tl_tag lease) ""); [done|]. destruct (String.eqb_spec (tl_digest lease) ""); [done|].
  injection H as <-. apply requireProxyEntity_ok in Heqr0. split; cbn; try assumption. destruct Hc as [H1 H2 H3 H4 H5].
  split; [done..| |done]. intros r' d' l'. rewrite get2_put2. case_decide as Hk; [|by apply H4].
  intros [= <-]. by destruct Hk as [<- <-].
Qed.

Lemma DeleteTagLease_wf ctx repo tag s s' : store_wf s → DeleteTagLease ctx repo tag s = Ok s' → store_wf s'.
Proof.
  intros [Hr Hm Hh Hc Ho]. unfold DeleteTagLease. intros H. inv_result. destruct (get2 (tagLeases s) repo tag); [|done].
  injection H as <-. split; cbn; try assumption. destruct Hc as [H1 H2 H3 H4 H5]. split; [done..| |done].
  intros r' d' l'. rewrite get2_delete2. case_decide; [done|]. apply H4.
Qed.

Lemma PutNegativeEntry_wf ctx entry s s' : store_wf s → PutNegativeEntry ctx entry s = Ok s' → store_wf s'.
Proof.
  intros [Hr Hm Hh Hc Ho]. unfold PutNegativeEntry. intros H. inv_result. destruct a0.
  destruct (String.eqb_spec (ne_reference entry) ""); [done|]. injection H as <-. apply requireProxyEntity_ok in Heqr0.
  split; cbn; try assumption. destruct Hc as [H1 H2 H3 H4 H5]. split; [done..|]. intros r' d' l'. rewrite get2_put2.
  case_decide as Hk; [|by apply H5]. intros [= <-]. by destruct Hk as [<- <-].
Qed.

Lemma DeleteNegativeEntry_wf ctx repo reference s s' :
  store_wf s → DeleteNegativeEntry ctx repo reference s = Ok s' → store_wf s'.
Proof.
  intros [Hr Hm Hh Hc Ho]. unfold DeleteNegativeEntry. intros H. inv_result.
  destruct (get2 (negativeCache s) repo reference); [|done]. injection H as <-. split; cbn; try assumption.
  destruct Hc as [H1 H2 H3 H4 H5]. split; [done..|]. intros r' d' l'. rewrite get2_delete2. case_decide; [done|]. apply H5.
Qed.

Lemma DeleteCachedManifest_wf ctx repo digest s s' :
  store_wf s → DeleteCachedManifest ctx repo digest s = Ok s' → store_wf s'.
Proof.
  intros [Hr Hm Hh Hc Ho]. unfold DeleteCachedManifest. intros H. inv_result.
  destruct (get2 (cachedManifests s) repo digest); [|done]. injection H as <-. split; cbn; try assumption.
  destruct Hc as [H1 H2 H3 H4 H5]. split; [by apply edges_wf_del| |done..].
  intros r' d' l'. rewrite get2_delete2. case_decide; [done|]. apply H2.
Qed.

Lemma DeleteCachedBlob_wf ctx repo digest s s' n :
  store_wf s → DeleteCachedBlob ctx repo digest s = Ok (s', n) → store_wf s'.
Proof.
  intros [Hr Hm Hh Hc Ho]. unfold DeleteCachedBlob. intros H. inv_result.
  destruct (get2 (cachedBlobs s) repo digest); [|done]. injection H as <- <-. split; cbn; try assumption.
  destruct Hc as [H1 H2 H3 H4 H5]. split; [done..| |done|done].
  intros r' d' l'. rewrite get2_delete2. case_decide; [done|]. apply H3.
Qed.

(** An access only moves a row's own timestamp. *)
Lemma touch_wf s access : store_wf s → store_wf (touch s access).
Proof.
  intros Hwf. unfold touch. destruct (String.eqb (ca_kind access) CachedManifestKind).
  - destruct (get2 (cachedManifests s) _ _) as [m|] eqn:Hm; [|done]. destruct (_ <? _)%Z; [|done].
    destruct Hwf as [Hr Hg Hh Hc Ho]. simpl. split; cbn; try assumption. destruct Hc as [H1 H2 H3 H4 H5].
    split; [|..|done|done|done].
    + destruct H1 as [E0 E1 E2]. split; [|..|done].
      * intros r. unfold put2. rewrite lookup_insert_is_Some. intros [<-|[_ ?]]; [|by apply E0]. apply E0. by eapply get2_outer.
      * intros r d. rewrite get2_put2, <-E1. case_decide as Hk; [|done]. destruct Hk as [<- <-]. rewrite Hm. by split; eauto.
    + intros r d m'. rewrite get2_put2. case_decide as Hk; [|by apply H2]. intros [= <-]. destruct Hk as [<- <-].
      by destruct (H2 _ _ _ Hm).
  - destruct (String.eqb (ca_kind access) CachedBlobKind); [|done].
    destruct (get2 (cachedBlobs s) _ _) as [b|] eqn:Hb; [|done]. destruct (_ <? _)%Z; [|done].
    destruct Hwf as [Hr Hg Hh Hc Ho]. simpl. split; cbn; try assumption. destruct Hc as [H1 H2 H3 H4 H5].
    split; [done..| |done|done]. intros r d m'. rewrite get2_put2. case_decide as Hk; [|by apply H3].
    intros [= <-]. destruct Hk as [<- <-]. by destruct (H3 _ _ _ Hb).
Qed.

Lemma TouchCached_wf ctx accesses s s' : store_wf s → TouchCached ctx accesses s = Ok s' → store_wf s'.
Proof.
  intros Hwf. unfold TouchCached. destruct ctx; [done|]. destruct accesses as [|a l]; [by intros [= <-]|].
  intros H. inv_result. clear Heqr Heqr0. change (store_wf (foldl touch s (a :: l))). revert s Hwf.
  induction (a :: l) as [|x l' IH]; intros s Hwf; simpl; [done|]. by apply IH, touch_wf.
Qed.

(** ** The store as a state machine *)

(** One step: a method that changes state, called with any arguments, that
    succeeds. A method that fails changes nothing. *)
Inductive step (s : Store) : Store → Prop :=
| step_Close : step s (Close s)
| step_CreateRepository ctx repo s' r : CreateRepository ctx repo s = Ok (s', r) → step s s'
| step_UpdateRepositoryConfig ctx name config v actor at_ s' r :
    UpdateRepositoryConfig ctx name config v actor at_ s = Ok (s', r) → step s s'
| step_DeleteRepository ctx name s' : DeleteRepository ctx name s = Ok s' → step s s'
| step_PutProxyCredential ctx cred s' : PutProxyCredential ctx cred s = Ok s' → step s s'
| step_DeleteProxyCredential ctx repository s' : DeleteProxyCredential ctx repository s = Ok s' → step s s'
| step_SetGroupMembers ctx group ms s' : SetGroupMembers ctx group ms s = Ok s' → step s s'
| step_PutManifest ctx m edges s' : PutManifest ctx m edges s = Ok s' → step s s'
| step_DeleteManifest ctx repo digest s' : DeleteManifest ctx repo digest s = Ok s' → step s s'
| step_PutTag ctx tag s' : PutTag ctx tag s = Ok s' → step s s'
| step_DeleteTag ctx repo name s' : DeleteTag ctx repo name s = Ok s' → step s s'
| step_PutBlob ctx blob s' : PutBlob ctx blob s = Ok s' → step s s'
| step_DeleteBlob ctx digest s' : DeleteBlob ctx digest s = Ok s' → step s s'
| step_CreateUpload ctx session s' : CreateUpload ctx session s = Ok s' → step s s'
| step_UpdateUpload ctx id bytes at_ s' : UpdateUpload ctx id bytes at_ s = Ok s' → step s s'
| step_DeleteUpload ctx id s' : DeleteUpload ctx id s = Ok s' → step s s'
| step_RecordPulls ctx records s' : RecordPulls ctx records s = Ok s' → step s s'
| step_DeleteBlobIfUnreferenced ctx digest before s' b :
    DeleteBlobIfUnreferenced ctx digest before s = Ok (s', b) → step s s'
| step_StartGCRun ctx run s' : StartGCRun ctx run s = Ok s' → step s s'
| step_SaveGCProgress ctx id cursor scanned deleted freed s' :
    SaveGCProgress ctx id cursor scanned deleted freed s = Ok s' → step s s'
| step_FinishGCRun ctx id at_ failure s' : FinishGCRun ctx id at_ failure s = Ok s' → step s s'
| step_PutCachedManifest ctx m edges s' : PutCachedManifest ctx m edges s = Ok s' → step s s'
| step_PutCachedBlob ctx b s' : PutCachedBlob ctx b s = Ok s' → step s s'
| step_PutTagLease ctx lease s' : PutTagLease ctx lease s = Ok s' → step s s'
| step_DeleteTagLease ctx repo tag s' : DeleteTagLease ctx repo tag s = Ok s' → step s s'
| step_PutNegativeEntry ctx entry s' : PutNegativeEntry ctx entry s = Ok s' → step s s'
| step_DeleteNegativeEntry ctx repo reference s' : DeleteNegativeEntry ctx repo reference s = Ok s' → step s s'
| step_DeleteCachedManifest ctx repo digest s' : DeleteCachedManifest ctx repo digest s = Ok s' → step s s'
| step_DeleteCachedBlob ctx repo digest s' n : DeleteCachedBlob ctx repo digest s = Ok (s', n) → step s s'
| step_TouchCached ctx accesses s' : TouchCached ctx accesses s = Ok s' → step s s'.

Create HintDb store.
#[export] Hint Constructors step : store.

Lemma step_wf s s' : store_wf s → step s s' → store_wf s'.
Proof.
  intros Hwf Hs. destruct Hs;
    [by destruct Hwf; split
    |by eapply CreateRepository_wf
    |by eapply UpdateRepositoryConfig_wf
    |by eapply DeleteRepository_wf
    |by eapply PutProxyCredential_wf
    |by eapply DeleteProxyCredential_wf
    |by eapply SetGroupMembers_wf
    |by eapply PutManifest_wf
    |by eapply DeleteManifest_wf
    |by eapply PutTag_wf
    |by eapply DeleteTag_wf
    |by eapply PutBlob_wf
    |by eapply DeleteBlob_wf
    |by eapply CreateUpload_wf
    |by eapply UpdateUpload_wf
    |by eapply DeleteUpload_wf
    |by eapply RecordPulls_wf
    |by eapply DeleteBlobIfUnreferenced_wf
    |by eapply StartGCRun_wf
    |by eapply SaveGCProgress_wf
    |by eapply FinishGCRun_wf
    |by eapply PutCachedManifest_wf
    |by eapply PutCachedBlob_wf
    |by eapply PutTagLease_wf
    |by eapply DeleteTagLease_wf
    |by eapply PutNegativeEntry_wf
    |by eapply DeleteNegativeEntry_wf
    |by eapply DeleteCachedManifest_wf
    |by eapply DeleteCachedBlob_wf
    |by eapply TouchCached_wf].
Qed.

Definition reachable : Store → Prop := rtc step newEmpty.

Lemma get2_empty {A} r d : get2 (∅ : gmap string (gmap string A)) r d = None.
Proof. unfold get2. by rewrite lookup_empty. Qed.

Lemma newEmpty_wf : store_wf newEmpty.
Proof.
  assert (∀ A, edges_wf (∅ : gmap string (gmap string A)) ∅) as He.
  { intros A. split; intros *; rewrite ?get2_empty, ?lookup_empty; [by intros [? ?]|by split; intros [? ?]|done]. }
  split; cbn; split; try apply He; intros *; rewrite ?get2_empty, ?lookup_empty; done.
Qed.

Lemma reachable_wf s : reachable s → store_wf s.
Proof.
  unfold reachable. generalize newEmpty_wf. intros H0 Hr. induction Hr; eauto using step_wf.
Qed.
