(* ===== verification/MemorySpec.v ===== *)
(** * What the metadata store guarantees

    The invariant of every history, deletion of manifests and repositories,
    permission-filtered pagination, pull statistics, and the conditional delete
    garbage collection relies on. *)
From S2P Require Import Prelude RepoName Meta Memory MemoryInv.

(** ** Edges *)
Lemma lists_child_iff digest edges :
  lists_child digest edges = true ↔ ∃ e, e ∈ edges ∧ ref_child e = digest ∧ ref_kind e = RefChild.
Proof.
  unfold lists_child. rewrite existsb_elem.
  split; intros (e & He & Hx); exists e; (split; [done|]).
  - by apply andb_true_iff in Hx as [?%String.eqb_eq ?%String.eqb_eq].
  - destruct Hx as [<- ->]. by rewrite String.eqb_refl.
Qed.

Lemma index_parents_elem s repo digest p :
  p ∈ index_parents (inner (refs s) repo) digest ↔
  ∃ es e, get2 (refs s) repo p = Some es ∧ e ∈ es ∧ ref_child e = digest ∧ ref_kind e = RefChild.
Proof.
  unfold index_parents, inner, get2. rewrite list_elem_of_fmap.
  split.
  - intros ([p' es] & -> & [Hl Hp]%list_elem_of_filter). apply elem_of_map_to_list in Hp. simpl in *.
    apply lists_child_iff in Hl as (e & ? & ? & ?). exists es, e. split; [|done].
    destruct (refs s !! repo) as [i|]; [done|]. exfalso. revert Hp. change ((∅ : gmap string (list ManifestRef)) !! p' = Some es → False).
    by rewrite lookup_empty.
  - intros (es & e & Hp & He & Hc & Hk). exists (p, es). split; [done|]. apply list_elem_of_filter. split.
    + apply lists_child_iff. eauto.
    + apply elem_of_map_to_list. destruct (refs s !! repo); [done|]. done.
Qed.

Lemma referencedAsBlob_iff digest s :
  referencedAsBlob digest s = true ↔
  ∃ repo m es e, get2 (refs s) repo m = Some es ∧ e ∈ es ∧ ref_child e = digest ∧
    (ref_kind e = RefConfig ∨ ref_kind e = RefLayer).
Proof.
  unfold referencedAsBlob, get2. rewrite existsb_elem. setoid_rewrite existsb_elem. setoid_rewrite existsb_elem.
  split.
  - intros ([repo i] & Hi%elem_of_map_to_list & [m es] & Hm%elem_of_map_to_list & e & He & Hn). simpl in *.
    exists repo, m, es, e. rewrite Hi. simpl. split_and!; [done..| |];
      apply andb_true_iff in Hn as [Hc%String.eqb_eq Hk]; [done|].
    apply orb_true_iff in Hk as [?%String.eqb_eq|?%String.eqb_eq]; auto.
  - intros (repo & m & es & e & Hg & He & Hc & Hk). destruct (refs s !! repo) as [i|] eqn:Hi; [|done]. simpl in Hg.
    exists (repo, i). split; [by apply elem_of_map_to_list|]. exists (m, es). split; [by apply elem_of_map_to_list|].
    exists e. split; [done|]. unfold names_blob. rewrite Hc, String.eqb_refl. simpl.
    destruct Hk as [->| ->]; vm_compute; done.
Qed.

Lemma pinnedByUpload_iff digest s :
  pinnedByUpload digest s = true ↔ ∃ i u, uploads s !! i = Some u ∧ up_digest u = digest.
Proof.
  unfold pinnedByUpload. rewrite existsb_elem. split.
  - intros ([i u] & Hu%elem_of_map_to_list & He%String.eqb_eq). eauto.
  - intros (i & u & Hu & <-). exists (i, u). rewrite elem_of_map_to_list, String.eqb_refl. done.
Qed.

(** ** The properties *)

(** C3: whatever sequence of methods ran, with whatever arguments, on a store
    that started empty, the store is well formed: every row is filed under its
    own key; a stored tag names a stored manifest of its repository; manifests
    and reference edges exist together and edges have a known kind; a manifest's
    or upload's entity exists; cached rows, tag leases and recorded absences lie
    under proxies and credentials belong to proxies; a group's members exist,
    are not groups, are ordered by distinct positions and have at most one write
    target; and a repository's configuration history holds exactly the versions
    before its current one. *)
Theorem reachable_store_wf s (Hr : rtc step newEmpty s) : store_wf s.
Proof. by apply reachable_wf. Qed.

(** Deleting a manifest. On an open store it is refused exactly while
    another manifest of the repository lists the digest as a child, and the
    refusal names those manifests; otherwise it removes that manifest and its
    edges, and every tag pointing at it, and leaves every other manifest, edge
    and tag as it was. *)
Theorem DeleteManifest_exact repo digest s (Hopen : closed s = false) (Hm : is_Some (get2 (manifests s) repo digest)) :
  match DeleteManifest false repo digest s with
  | Err (Referenced kind id parents) =>
      kind = "manifest" ∧ id = digest ∧ parents ≠ [] ∧
      ∀ p, p ∈ parents ↔ p ≠ digest ∧ ∃ es e, get2 (refs s) repo p = Some es ∧ e ∈ es ∧
                           ref_child e = digest ∧ ref_kind e = RefChild
  | Err _ => False
  | Ok s' =>
      (∀ p es e, get2 (refs s) repo p = Some es → e ∈ es → ref_kind e = RefChild → ref_child e = digest → p = digest) ∧
      (∀ r d, get2 (manifests s') r d = if decide (repo = r ∧ digest = d) then None else get2 (manifests s) r d) ∧
      (∀ r d, get2 (refs s') r d = if decide (repo = r ∧ digest = d) then None else get2 (refs s) r d) ∧
      (∀ r n t, get2 (tags s') r n = Some t ↔
         get2 (tags s) r n = Some t ∧ ¬ (r = repo ∧ tg_digest t = digest)) ∧
      blobs s' = blobs s ∧ repos s' = repos s
  end.
Proof.
  unfold DeleteManifest, enter. rewrite Hopen. simpl. destruct Hm as [m ->].
  assert (∀ p, p ∈ sort_strings (filter (λ parent, parent ≠ digest) (index_parents (inner (refs s) repo) digest)) ↔
    p ≠ digest ∧ ∃ es e, get2 (refs s) repo p = Some es ∧ e ∈ es ∧ ref_child e = digest ∧ ref_kind e = RefChild) as Hp.
  { intros p. rewrite sort_strings_elem, list_elem_of_filter, index_parents_elem. done. }
  destruct (sort_strings _) as [|p ps]; [|by split_and!]. cbn. split_and!.
  - intros p es e Hg He Hk Hc. destruct (decide (p = digest)) as [|Hne]; [done|]. exfalso.
    apply (not_elem_of_nil p). apply Hp. eauto 10.
  - apply get2_delete2.
  - apply get2_delete2.
  - intros r n t. unfold get2. destruct (decide (repo = r)) as [<-|Hne].
    + rewrite lookup_alter_eq. destruct (tags s !! repo) as [ts|]; [|naive_solver]. simpl.
      rewrite map_lookup_filter_Some. simpl. naive_solver.
    + rewrite lookup_alter_ne by done. naive_solver.
  - done.
  - done.
Qed.

(** A store with an index [i] over one image [c], both in [team/app]. *)
Definition example_store : Store :=
  mkStore {["team" := mkRepository "team" Hosted "" 1 0 0]} ∅ ∅ ∅
    {["team/app" := <["i" := mkManifest "team/app" "i" "" "" "" "" 1 0]> {["c" := mkManifest "team/app" "c" "" "" "" "" 1 0]}]}
    {["team/app" := <["i" := [mkManifestRef "c" RefChild]]> {["c" := [mkManifestRef "b" RefLayer]]}]}
    {["team/app" := {["v1" := mkTag "team/app" "v1" "i" 0 0]}]}
    {["b" := mkBlob "b" 10 5]} ∅ ∅ ∅ ∅ ∅ ∅ ∅ ∅ false.

Lemma DeleteManifest_exact_witness :
  DeleteManifest false "team/app" "c" example_store = Err (Referenced "manifest" "c" ["i"]) ∧
  ["i"] ≠ [].
Proof.
  split; [vm_compute; reflexivity|].
  pose proof (DeleteManifest_exact "team/app" "c" example_store eq_refl ltac:(vm_compute; eauto)) as H.
  replace (DeleteManifest false "team/app" "c" example_store) with
    (@Err MetaError Store (Referenced "manifest" "c" ["i"])) in H by (vm_compute; reflexivity).
  exact (proj1 (proj2 (proj2 H))).
Defined.

(** Deleting a repository deletes everything under its name and nothing
    else. On a well-formed open store the entity, its members, history and
    credential go; every content row whose name is the entity or lies under it
    goes, hosted and cached alike, and its upload sessions; every row outside it
    is kept (in particular [team-alpha/api] when [team-a] is deleted); and no
    group lists it afterwards. *)
Theorem DeleteRepository_exact name s s' (Hwf : store_wf s) (Hdel : DeleteRepository false name s = Ok s') :
  (∀ n, repos s' !! n = if decide (n = name) then None else repos s !! n) ∧
  (∀ r d, get2 (manifests s') r d = if belongsTo r name then None else get2 (manifests s) r d) ∧
  (∀ r d, get2 (refs s') r d = if belongsTo r name then None else get2 (refs s) r d) ∧
  (∀ r n, get2 (tags s') r n = if belongsTo r name then None else get2 (tags s) r n) ∧
  (∀ r d, get2 (cachedManifests s') r d = if belongsTo r name then None else get2 (cachedManifests s) r d) ∧
  (∀ r d, get2 (cachedBlobs s') r d = if belongsTo r name then None else get2 (cachedBlobs s) r d) ∧
  (∀ r t, get2 (tagLeases s') r t = if belongsTo r name then None else get2 (tagLeases s) r t) ∧
  (∀ i u, uploads s' !! i = Some u ↔ uploads s !! i = Some u ∧ belongsTo (up_repository u) name = false) ∧
  proxyCredentials s' !! name = None ∧ configHistory s' !! name = None ∧ members s' !! name = None ∧
  (∀ g l m, members s' !! g = Some l → m ∈ l → gm_repository m ≠ name) ∧
  blobs s' = blobs s.
Proof.
  unfold DeleteRepository in Hdel. inv_result. destruct (repos s !! name) as [repo|]; [|done]. injection Hdel as <-. cbn.
  split_and!; try apply get2_under; try apply lookup_delete_eq; try done.
  - intros n. case_decide as H; [subst; apply lookup_delete_eq|by apply lookup_delete_ne].
  - intros r d. destruct (belongsTo r name) eqn:Hb; rewrite get2_delete_all;
      case_decide as Hu; rewrite elem_of_under in Hu; try done; [|by destruct Hu; congruence].
    destruct (sw_hosted _ Hwf) as [[_ He _] _ _].
    destruct (get2 (refs s) r d) as [es|] eqn:Hes; [|done]. exfalso. apply Hu. split; [done|].
    destruct (proj2 (He r d)) as [m Hm]; [by eauto|]. by eapply get2_outer.
  - intros r n. rewrite get2_under. destruct (belongsTo r name) eqn:Hb; [done|]. rewrite get2_delete_all.
    case_decide as Hu; [|done]. apply elem_of_under in Hu as [? _]. congruence.
  - intros i u. rewrite map_lookup_filter_Some. done.
  - by rewrite lookup_fmap, lookup_delete_eq.
  - intros g l m. rewrite lookup_fmap. intros (l0 & _ & ->)%fmap_Some Hm. by apply list_elem_of_filter in Hm as [? _].
Qed.

(** A short history: two entities whose names share a prefix, a manifest under
    the second, and a session into the first. *)
Definition demo_repo (n t : string) : Repository := mkRepository n t "" 1 0 0.
Definition demo1 : Store := set_repos {["team-a" := demo_repo "team-a" Hosted]} newEmpty.
Definition demo2 : Store := set_repos (<["team-alpha" := demo_repo "team-alpha" Hosted]> (repos demo1)) demo1.
Definition demo_manifest : Manifest := mkManifest "team-alpha/api" "d" "" "" "" "" 1 0.
Definition demo3 : Store :=
  set_manifests (put2 "team-alpha/api" "d" demo_manifest ∅)
    (set_refs (put2 "team-alpha/api" "d" [] (<["team-alpha/api" := ∅]> ∅)) demo2).

Lemma demo_reachable : rtc step newEmpty demo3.
Proof.
  eapply rtc_l; [eapply (step_CreateRepository _ false (demo_repo "team-a" Hosted) demo1); vm_compute; reflexivity|].
  eapply rtc_l; [eapply (step_CreateRepository _ false (demo_repo "team-alpha" Hosted) demo2); vm_compute; reflexivity|].
  eapply rtc_l; [eapply (step_PutManifest _ false demo_manifest [] demo3); vm_compute; reflexivity|].
  apply rtc_refl.
Qed.

Lemma reachable_store_wf_witness : store_wf demo3.
Proof. apply reachable_store_wf. exact demo_reachable. Defined.

Lemma DeleteRepository_exact_witness :
  let s' := match DeleteRepository false "team-a" demo3 with Ok s' => s' | Err _ => newEmpty end in
  get2 (manifests s') "team-alpha/api" "d" = get2 (manifests demo3) "team-alpha/api" "d".
Proof.
  cbv zeta.
  exact (proj1 (proj2 (DeleteRepository_exact "team-a" demo3 _ (reachable_wf _ demo_reachable)
    ltac:(vm_compute; reflexivity))) "team-alpha/api" "d").
Defined.

(** ** Pagination *)
Lemma str_lt_iff a b : str_lt a b = true ↔ ¬ String.le b a.
Proof.
  unfold str_lt, String.le, String.ltb, String.leb. rewrite (String.compare_antisym a b).
  destruct (String.compare b a); simpl; split; intros H; try done; [by destruct H..|by intros []].
Qed.

Lemma str_lt_le a b : str_lt a b = true ↔ String.le a b ∧ a ≠ b.
Proof.
  rewrite str_lt_iff. split.
  - intros H. destruct (total String.le a b) as [?|?]; [|done]. split; [done|]. by intros ->.
  - intros [Hl Hne] H. apply Hne. by apply (anti_symm String.le).
Qed.

Lemma str_lt_trans a b c : str_lt a b = true → str_lt b c = true → str_lt a c = true.
Proof.
  rewrite !str_lt_le. intros [H1 H2] [H3 H4]. split; [by etrans|]. intros ->. apply H2. by apply (anti_symm String.le).
Qed.

(** What lies after an element of a sorted list. *)
Lemma filter_after pre x post :
  StronglySorted String.le (pre ++ x :: post) → NoDup (pre ++ x :: post) →
  filter (λ n, str_lt x n = true) (pre ++ x :: post) = post.
Proof.
  intros Hsorted Hnd. rewrite filter_app, filter_cons.
  apply NoDup_app in Hnd as (_ & _ & Hnd'). apply NoDup_cons in Hnd' as [Hx _].
  pose proof (StronglySorted_app_1_r _ _ _ Hsorted) as Hs. apply StronglySorted_inv in Hs as [_ Hf].
  rewrite filter_none, decide_False; [simpl| |].
  - clear Hsorted. induction Hf as [|y post Hy Hf IH]; [done|]. rewrite filter_cons.
    rewrite not_elem_of_cons in Hx. destruct Hx as [Hxy Hx].
    rewrite decide_True by by apply str_lt_le. by rewrite IH.
  - intros [_ ?]%str_lt_le. done.
  - intros y Hy [Hle Hyx]%str_lt_le. apply Hyx. apply (anti_symm String.le); [done|].
    apply (StronglySorted_app_1_elem_of _ _ _ _ _ Hsorted Hy). by left.
Qed.

Section paging.
Context (all : list string) (limit : Z).
Context (Hsorted : StronglySorted String.le all) (Hnd : NoDup all) (Hne : "" ∉ all) (Hlimit : (1 ≤ limit)%Z).

Definition after (cursor : string) : list string := filter (λ n, str_lt cursor n = true) all.

(** Reading pages until a page has no next cursor. *)
Fixpoint read_pages {A} (list_page : string → list A * string) (fuel : nat) (cursor : string) : option (list A) :=
  match fuel with
  | 0 => None
  | S fuel =>
      let '(page, next) := list_page cursor in
      if String.eqb next "" then Some page else app page <$> read_pages list_page fuel next
  end.

Lemma read_pages_all fuel cursor :
  length (after cursor) < fuel →
  read_pages (λ c, page_of limit (after c)) fuel cursor = Some (after cursor).
Proof.
  revert cursor. induction fuel as [|fuel IH]; intros cursor Hf; [lia|]. simpl. unfold page_of.
  set (n := Z.to_nat limit). assert (1 ≤ n) by (unfold n; lia).
  destruct (decide (n < length (after cursor))) as [Hlt|Hge]; [|by simpl; rewrite take_ge by lia].
  destruct (lookup_lt_is_Some_2 (after cursor) (n - 1)) as [x Hx]; [lia|]. rewrite Hx.
  change (default "" (Some x)) with x.
  assert (str_lt cursor x = true ∧ x ∈ all) as [Hc Hin] by (by apply list_elem_of_lookup_2, list_elem_of_filter in Hx).
  destruct (String.eqb_spec x "") as [->|_]; [done|].
  assert (after x = drop n (after cursor)) as Hafter.
  { apply take_drop_middle in Hx. replace (S (n - 1)) with n in Hx by lia.
    rewrite <-(filter_after (take (n - 1) (after cursor)) x (drop n (after cursor))), Hx.
    - unfold after. rewrite list_filter_filter. apply list_filter_iff. intros y.
      split; [|tauto]. intros Hy. split; [done|]. by eapply str_lt_trans.
    - rewrite Hx. by apply StronglySorted_filter.
    - rewrite Hx. by apply NoDup_filter. }
  rewrite IH by (rewrite Hafter, length_drop; lia). rewrite Hafter. simpl. by rewrite take_drop.
Qed.
End paging.

Lemma read_pages_map {A B} (g : list A → list B) (lp : string → list A * string) (lp' : string → list B * string) fuel c :
  (∀ l1 l2, g (l1 ++ l2) = g l1 ++ g l2) → (∀ c, lp' c = (g (lp c).1, (lp c).2)) →
  read_pages lp' fuel c = g <$> read_pages lp fuel c.
Proof.
  intros Hg Hlp. revert c. induction fuel as [|fuel IH]; intros c; simpl; [done|]. rewrite Hlp.
  destruct (lp c) as [page next]. simpl. destruct (String.eqb next ""); [done|]. rewrite IH.
  destruct (read_pages lp fuel next); simpl; [by rewrite Hg|done].
Qed.

Lemma read_pages_ext {A} (lp lp' : string → list A * string) fuel c :
  (∀ c, lp c = lp' c) → read_pages lp fuel c = read_pages lp' fuel c.
Proof.
  intros H. revert c. induction fuel as [|fuel IH]; intros c; simpl; [done|]. rewrite H.
  destruct (lp' c) as [page next]. destruct (String.eqb next ""); [done|]. by rewrite IH.
Qed.

Lemma sort_strings_sorted l : StronglySorted String.le (sort_strings l).
Proof. exact (sort_on_sorted String.le id l). Qed.

(** A listing's names, sorted, are the part of the whole after the cursor. *)
Lemma sorted_after (whole part : list string) (vis : Visibility) limit cursor :
  NoDup part →
  (∀ n, n ∈ part ↔ n ∈ whole ∧ visible_after (mkListOptions vis limit cursor) n) →
  NoDup whole →
  sort_strings part = after (sort_strings (filter (λ n, Visibility_Allows vis n = true) whole)) cursor.
Proof.
  intros Hnd Hin Hwhole. unfold after. apply (StronglySorted_unique String.le).
  - apply sort_strings_sorted.
  - apply StronglySorted_filter, sort_strings_sorted.
  - rewrite !sort_strings_perm. apply NoDup_Permutation; [done|by apply NoDup_filter, NoDup_filter|].
    intros n. rewrite Hin, !list_elem_of_filter. unfold visible_after. simpl. tauto.
Qed.

Lemma collect_all opts l seen names :
  (∀ n, n ∈ seen ↔ n ∈ names) → NoDup names →
  let st := foldl (collect opts) (seen, names) l in
  NoDup st.2 ∧ ∀ n, n ∈ st.2 ↔ n ∈ names ∨ (n ∈ l ∧ visible_after opts n).
Proof.
  revert seen names. induction l as [|x l IH]; intros seen names Hs Hnd; simpl; [set_solver|].
  case_bool_decide as Hx; [|case_bool_decide as Hv].
  - destruct (IH seen names) as [H1 H2]; [done..|]. split; [done|]. intros n. rewrite H2. set_solver.
  - destruct (IH ({[x]} ∪ seen) (names ++ [x])) as [H1 H2].
    + set_solver.
    + apply NoDup_app. set_solver by eauto using NoDup_singleton.
    + split; [done|]. intros n. rewrite H2, elem_of_app, list_elem_of_singleton, elem_of_cons. naive_solver.
  - destruct (IH seen names) as [H1 H2]; [done..|]. split; [done|]. intros n. rewrite H2, elem_of_cons. naive_solver.
Qed.

(** A name holds content when some row is stored under it. *)
Definition holds_content (s : Store) (name : string) : Prop :=
  (∃ d m, get2 (manifests s) name d = Some m) ∨ (∃ d m, get2 (cachedManifests s) name d = Some m).

Lemma content_names_elem {A} (m : gmap string (gmap string A)) n :
  n ∈ content_names m ↔ ∃ d x, get2 m n d = Some x.
Proof.
  unfold content_names, get2. rewrite list_elem_of_fmap. split.
  - intros ([n' i] & -> & [Hi Hn%elem_of_map_to_list]%list_elem_of_filter). simpl in *. rewrite Hn.
    apply map_choose in Hi as (d & x & Hx). by exists d, x.
  - intros (d & x & Hx). destruct (m !! n) as [i|] eqn:Hn; [|done]. exists (n, i). split; [done|].
    apply list_elem_of_filter. split; [|by apply elem_of_map_to_list]. simpl in *. intros ->. by rewrite lookup_empty in Hx.
Qed.

Lemma content_names_nodup {A} (m : gmap string (gmap string A)) : NoDup (content_names m).
Proof. unfold content_names. apply NoDup_fmap_filter, NoDup_fst_map_to_list. Qed.

Lemma after_start all : "" ∉ all → after all "" = all.
Proof.
  unfold after. induction all as [|n all IH]; [done|]. rewrite not_elem_of_cons. intros [Hn Ha]. rewrite filter_cons.
  rewrite decide_True by (destruct n; [done|vm_compute; done]). by rewrite IH.
Qed.

(** Paging over the visible part of a set of names. *)
Lemma read_pages_visible (whole : list string) vis limit fuel :
  NoDup whole → "" ∉ whole → length whole < fuel →
  let all := sort_strings (filter (λ n, Visibility_Allows vis n = true) whole) in
  read_pages (λ c, page_of (EffectiveLimit (mkListOptions vis limit c)) (after all c)) fuel "" = Some all ∧
  StronglySorted String.le all ∧ NoDup all ∧ (∀ n, n ∈ all ↔ n ∈ whole ∧ Visibility_Allows vis n = true).
Proof.
  intros Hnd Hne Hf all.
  assert (∀ n, n ∈ all ↔ n ∈ whole ∧ Visibility_Allows vis n = true) as Hin
    by (intros n; unfold all; rewrite sort_strings_elem, list_elem_of_filter; tauto).
  assert ("" ∉ all) as Hne' by (rewrite Hin; naive_solver).
  assert (NoDup all) as Hnd' by (unfold all; rewrite sort_strings_perm; by apply NoDup_filter).
  split_and!; [|apply sort_strings_sorted|done|done].
  pose proof (read_pages_all all (EffectiveLimit (mkListOptions vis limit "")) (sort_strings_sorted _) Hnd' Hne'
    (proj1 (EffectiveLimit_bounds _)) fuel "") as H.
  rewrite after_start in H by done. apply H. unfold all. rewrite sort_strings_perm.
  eapply Nat.le_lt_trans; [apply length_filter|exact Hf].
Qed.

Lemma wf_names_nonempty s n : store_wf s → holds_content s n → n ≠ "".
Proof.
  intros [Hr _ Hh Hc _] Hn ->.
  assert (is_Some (type_of (repos s) (entityOf ""))) as [t Ht].
  { destruct Hn as [(d & m & Hm)|(d & m & Hm)].
    - by destruct (hw_manifest _ _ _ _ Hh _ _ _ Hm).
    - destruct (cw_manifest _ _ _ _ _ _ Hc _ _ _ Hm) as [Hp _]. rewrite Hp. eauto. }
  apply fmap_Some in Ht as (r & Hr' & _). by destruct (rw_row _ _ _ Hr _ _ Hr') as (_ & ? & _).
Qed.

Lemma content_paging s vis limit :
  store_wf s → closed s = false →
  ∃ names,
    read_pages (λ cursor, match ListContentNames false (mkListOptions vis limit cursor) s with
                          | Ok page => page | Err _ => ([], "") end)
      (S (size (manifests s) + size (cachedManifests s))) "" = Some names ∧
    StronglySorted String.le names ∧ NoDup names ∧
    ∀ n, n ∈ names ↔ holds_content s n ∧ Visibility_Allows vis n = true.
Proof.
  intros Hwf Hopen.
  set (l := content_names (manifests s) ++ content_names (cachedManifests s)).
  assert (∀ n, n ∈ remove_dups l ↔ holds_content s n) as Hl.
  { intros n. unfold l, holds_content. by rewrite elem_of_remove_dups, elem_of_app, !content_names_elem. }
  assert (length (remove_dups l) ≤ length l) as Hlen1.
  { apply submseteq_length, NoDup_submseteq; [apply NoDup_remove_dups|]. intros n. by rewrite elem_of_remove_dups. }
  assert (length l ≤ size (manifests s) + size (cachedManifests s)) as Hlen.
  { unfold l, content_names. rewrite length_app, !length_fmap, <-!length_map_to_list.
    apply Nat.add_le_mono; apply length_filter. }
  edestruct (read_pages_visible (remove_dups l) vis limit) as (Hp & Hs & Hnd & Hin).
  - apply NoDup_remove_dups.
  - rewrite Hl. intros Hc. by apply wf_names_nonempty in Hc.
  - apply Nat.lt_succ_r. etrans; [exact Hlen1|exact Hlen].
  - eexists. split; [|split_and!; [exact Hs|exact Hnd|]].
    + rewrite <-Hp. apply read_pages_ext. intros c. unfold ListContentNames, enter. rewrite Hopen. simpl.
      fold l. destruct (collect_all (mkListOptions vis limit c) l ∅ []) as [Hd He]; [set_solver|constructor|].
      destruct (foldl _ _ l) as [seen names]. simpl in *. f_equal. apply (sorted_after _ _ _ limit).
      * done.
      * intros n. rewrite He, elem_of_remove_dups. set_solver.
      * apply NoDup_remove_dups.
    + intros n. by rewrite Hin, Hl.
Qed.

Lemma repository_paging s vis limit :
  store_wf s → closed s = false →
  ∃ found,
    read_pages (λ cursor, match ListRepositories false (mkListOptions vis limit cursor) s with
                          | Ok page => page | Err _ => ([], "") end)
      (S (size (repos s))) "" = Some found ∧
    StronglySorted String.le (rp_name <$> found) ∧ NoDup (rp_name <$> found) ∧
    ∀ r, r ∈ found ↔ repos s !! rp_name r = Some r ∧ Visibility_Allows vis (rp_name r) = true.
Proof.
  intros Hwf Hopen.
  set (whole := (map_to_list (repos s)).*1).
  assert (∀ n, n ∈ whole ↔ is_Some (repos s !! n)) as Hw.
  { intros n. unfold whole. rewrite list_elem_of_fmap. split.
    - intros ([n' r] & -> & Hr%elem_of_map_to_list). eauto.
    - intros [r Hr]. exists (n, r). by rewrite elem_of_map_to_list. }
  assert (∀ n r, repos s !! n = Some r → rp_name r = n) as Hname by (intros n r Hr; by apply (rw_row _ _ _ (sw_repos _ Hwf))).
  edestruct (read_pages_visible whole vis limit) as (Hp & Hs & Hnd & Hin).
  - apply NoDup_fst_map_to_list.
  - rewrite Hw. intros [r Hr]. by apply (rw_row _ _ _ (sw_repos _ Hwf)) in Hr as (_ & ? & _).
  - unfold whole. rewrite length_fmap, length_map_to_list. apply Nat.lt_succ_diag_r.
  - set (all := sort_strings _) in *. exists (omap (λ n, repos s !! n) all).
    assert (rp_name <$> omap (λ n, repos s !! n) all = all) as Hnames.
    { assert (∀ n, n ∈ all → is_Some (repos s !! n)) as Ha by (intros n [Hn _]%Hin; by apply Hw).
      clear -Ha Hname. induction all as [|n l IH]; [done|]. csimpl. destruct (Ha n) as [r Hr]; [by left|].
      rewrite Hr. csimpl. rewrite (Hname _ _ Hr), IH; [done|]. intros n' Hn'. apply Ha. by right. }
    split; [|rewrite Hnames; split_and!; [exact Hs|exact Hnd|]].
    + erewrite (read_pages_map (omap (λ n, repos s !! n))); [by rewrite Hp|by intros; apply omap_app|].
      intros c. unfold ListRepositories, enter. rewrite Hopen. cbn [result_bind].
      rewrite (sorted_after whole _ vis limit c).
      * fold all. by destruct (page_of _ _).
      * apply NoDup_filter, NoDup_fst_map_to_list.
      * intros n. rewrite list_elem_of_filter. fold whole. tauto.
      * apply NoDup_fst_map_to_list.
    + intros r. rewrite list_elem_of_omap. split.
      * intros (n & Hn & Hr). rewrite (Hname _ _ Hr). split; [done|]. by apply Hin.
      * intros [Hr Hv]. exists (rp_name r). split; [|done]. apply Hin. split; [|done]. apply Hw. eauto.
Qed.

(** Paging through a permission-filtered listing gives every visible name
    exactly once. Reading a catalog page by page, each time from the cursor the
    last page returned, ends after at most one page per name, and the pages
    together are the visible names that hold content, in order and without
    repeats; likewise for the list of repositories. No page size asked for
    changes that. *)
Theorem paging_complete s vis limit (Hwf : store_wf s) (Hopen : closed s = false) :
  (∃ names,
    read_pages (λ cursor, match ListContentNames false (mkListOptions vis limit cursor) s with
                          | Ok page => page | Err _ => ([], "") end)
      (S (size (manifests s) + size (cachedManifests s))) "" = Some names ∧
    StronglySorted String.le names ∧ NoDup names ∧
    ∀ n, n ∈ names ↔ holds_content s n ∧ Visibility_Allows vis n = true) ∧
  (∃ found,
    read_pages (λ cursor, match ListRepositories false (mkListOptions vis limit cursor) s with
                          | Ok page => page | Err _ => ([], "") end)
      (S (size (repos s))) "" = Some found ∧
    StronglySorted String.le (rp_name <$> found) ∧ NoDup (rp_name <$> found) ∧
    ∀ r, r ∈ found ↔ repos s !! rp_name r = Some r ∧ Visibility_Allows vis (rp_name r) = true).
Proof. split; [by apply content_paging|by apply repository_paging]. Qed.

Lemma paging_complete_witness :
  read_pages (λ cursor, match ListContentNames false (mkListOptions Unrestricted 1 cursor) demo3 with
                        | Ok page => page | Err _ => ([], "") end) 2 "" = Some ["team-alpha/api"] ∧
  ∃ names,
    read_pages (λ cursor, match ListContentNames false (mkListOptions Unrestricted 1 cursor) demo3 with
                          | Ok page => page | Err _ => ([], "") end) 2 "" = Some names ∧
    StronglySorted String.le names ∧ NoDup names ∧
    ∀ n, n ∈ names ↔ holds_content demo3 n ∧ Visibility_Allows Unrestricted n = true.
Proof.
  split; [vm_compute; reflexivity|].
  exact (proj1 (paging_complete demo3 Unrestricted 1 (reachable_wf _ demo_reachable) eq_refl)).
Defined.

(** ** Pull statistics *)
Lemma add64_assoc a b c : add64 (add64 a b) c = int64 (a + b + c).
Proof.
  unfold add64, int64. f_equal.
  replace ((a + b + 2 ^ 63) mod 2 ^ 64 - 2 ^ 63 + c + 2 ^ 63)%Z with ((a + b + 2 ^ 63) mod 2 ^ 64 + c)%Z by lia.
  rewrite Zplus_mod_idemp_l. f_equal. lia.
Qed.

Lemma later_max a b : (if (a <? b)%Z then b else a) = Z.max a b.
Proof. destruct (Z.ltb_spec a b); lia. Qed.

Lemma record_pull_comm stats a b :
  record_pull (record_pull stats a) b = record_pull (record_pull stats b) a.
Proof.
  unfold record_pull. destruct (decide ((pr_repository a, pr_reference a) = (pr_repository b, pr_reference b))) as [He|He].
  - injection He as E1 E2. rewrite E1, E2, !lookup_insert_eq, !insert_insert_eq. simpl. f_equal. f_equal.
    + rewrite !later_max. lia.
    + rewrite !add64_assoc. f_equal. lia.
  - rewrite !lookup_insert_ne by congruence. by apply insert_insert_ne.
Qed.

Lemma record_pulls_perm stats r1 r2 : r1 ≡ₚ r2 → foldl record_pull stats r1 = foldl record_pull stats r2.
Proof.
  intros Hp. revert stats. induction Hp; intros stats; simpl; [done|done| |by rewrite IHHp1].
  by rewrite record_pull_comm.
Qed.

Lemma validPullRecords_perm r1 r2 :
  r1 ≡ₚ r2 →
  foldM (λ _ r, validPullRecord r) tt r1 = Ok tt → foldM (λ _ r, validPullRecord r) tt r2 = Ok tt.
Proof. rewrite !foldM_unit_ok. by intros ->. Qed.

(** A batch of pull records counts the same in any order. Two arrangements
    of the same records are accepted or refused together (a refused batch counts
    nothing), and leave the same store: counts add up and last-pulled times only
    move forward, whatever order the batch arrived in. *)
Theorem RecordPulls_order s r1 r2 (Hperm : r1 ≡ₚ r2) :
  match RecordPulls false r1 s, RecordPulls false r2 s with
  | Ok s1, Ok s2 => s1 = s2
  | Err _, Err _ => True
  | _, _ => False
  end.
Proof.
  unfold RecordPulls. destruct (enter false s); simpl; [|done].
  pose proof (validPullRecords_perm r1 r2 Hperm) as H1. pose proof (validPullRecords_perm r2 r1 (symmetry Hperm)) as H2.
  destruct (foldM _ tt r1) as [[]|], (foldM _ tt r2) as [[]|]; simpl; try done.
  - by rewrite (record_pulls_perm _ _ _ Hperm).
  - by specialize (H1 eq_refl).
  - by specialize (H2 eq_refl).
Qed.

Lemma RecordPulls_order_witness :
  match RecordPulls false [mkPullRecord "r" "v1" 9 2; mkPullRecord "r" "v1" 4 3] newEmpty,
        RecordPulls false [mkPullRecord "r" "v1" 4 3; mkPullRecord "r" "v1" 9 2] newEmpty with
  | Ok s1, Ok s2 => s1 = s2 | Err _, Err _ => True | _, _ => False end.
Proof.
  exact (RecordPulls_order newEmpty [mkPullRecord "r" "v1" 9 2; mkPullRecord "r" "v1" 4 3]
    [mkPullRecord "r" "v1" 4 3; mkPullRecord "r" "v1" 9 2] (Permutation_swap _ _ _)).
Defined.

(** ** The conditional delete *)
Lemma sweepable_iff b before s :
  sweepable b before s = true ↔
  (bb_createdAt b < before)%Z ∧
  (¬ ∃ repo m es e, get2 (refs s) repo m = Some es ∧ e ∈ es ∧ ref_child e = bb_digest b ∧
       (ref_kind e = RefConfig ∨ ref_kind e = RefLayer)) ∧
  ¬ ∃ i u, uploads s !! i = Some u ∧ up_digest u = bb_digest b.
Proof.
  unfold sweepable. rewrite !andb_true_iff, !negb_true_iff, Z.ltb_lt, <-referencedAsBlob_iff, <-pinnedByUpload_iff.
  rewrite !not_true_iff_false. tauto.
Qed.

(** The delete garbage collection makes is exact. On an open well-formed
    store a blob row goes when and only when it is stored, was recorded before
    the deadline, no manifest of any repository names it as a config or a layer,
    and no upload session pins it; the row is the only thing removed, and the
    answer says whether it was. *)
Theorem DeleteBlobIfUnreferenced_exact digest before s (Hwf : store_wf s) (Hopen : closed s = false) :
  ∃ deleted : bool, DeleteBlobIfUnreferenced false digest before s =
    Ok (if deleted then set_blobs (delete digest (blobs s)) s else s, deleted) ∧
  (deleted = true ↔
    ∃ b, blobs s !! digest = Some b ∧ (bb_createdAt b < before)%Z ∧
      (¬ ∃ repo m es e, get2 (refs s) repo m = Some es ∧ e ∈ es ∧ ref_child e = digest ∧
           (ref_kind e = RefConfig ∨ ref_kind e = RefLayer)) ∧
      ¬ ∃ i u, uploads s !! i = Some u ∧ up_digest u = digest).
Proof.
  unfold DeleteBlobIfUnreferenced, enter. rewrite Hopen. simpl.
  destruct (blobs s !! digest) as [b|] eqn:Hb; [|exists false; split; [done|]; split; [done|by intros (? & ? & _)]].
  destruct (ow_blob _ _ _ _ _ (sw_rows _ Hwf) _ _ Hb) as (<- & _).
  pose proof (sweepable_iff b before s) as Hs. exists (sweepable b before s).
  split; [by destruct (sweepable b before s)|]. rewrite Hs. split; [by eauto|].
  intros (b' & Hb' & H). by simplify_eq.
Qed.

Lemma DeleteBlobIfUnreferenced_exact_witness :
  ∃ deleted : bool, DeleteBlobIfUnreferenced false "b" 9 demo3 =
    Ok (if deleted then set_blobs (delete "b" (blobs demo3)) demo3 else demo3, deleted).
Proof.
  destruct (DeleteBlobIfUnreferenced_exact "b" 9 demo3 (reachable_wf _ demo_reachable) eq_refl) as (deleted & H & _).
  exists deleted. exact H.
Defined.

(** The store accepts one repository at two positions of a group: positions are
    checked for repeats, members are not. *)
Definition twice_store : Store :=
  set_repos {["all" := mkRepository "all" Group "" 1 0 0; "team" := mkRepository "team" Hosted "" 1 0 0]} newEmpty.

Lemma member_listed_twice :
  let ms := [mkGroupMember "team" 1 false false; mkGroupMember "team" 2 false false] in
  match SetGroupMembers false "all" ms twice_store with
  | Ok s => ListGroupMembers false "all" s = Ok ms
  | Err _ => False
  end.
Proof. vm_compute. reflexivity. Qed.
