(* ===== verification/Digest.v ===== *)
(** * Digests, references and upload identifiers
    (src/internal/blob: digest.go, refs.go)

    A digest names content and becomes part of a storage path, so what parses is
    the grammar and nothing else. *)
From S2P Require Import Prelude RepoName.

Definition SHA256 := "sha256".
Definition SHA512 := "sha512".

(** The [algorithms] table: the hex length of each supported algorithm. *)
Definition algorithms (a : string) : option nat :=
  if String.eqb a SHA256 then Some 64 else if String.eqb a SHA512 then Some 128 else None.

Definition Available (a : string) : bool := bool_decide (is_Some (algorithms a)).
Definition HexLength (a : string) : nat := default 0 (algorithms a).

Definition isLowerHex (c : ascii) : bool := in_range "0" "9" c || in_range "a" "f" c.

(** Every byte of a string satisfies a predicate. *)
Fixpoint all_bytes (p : ascii → bool) (s : string) : bool :=
  match s with
  | EmptyString => true
  | String c s => p c && all_bytes p s
  end.

Inductive DigestError : Type :=
| DigestShape
| DigestAlgorithm (algorithm : string)
| DigestLength
| DigestHex.

Definition ParseDigest (s : string) : result DigestError string :=
  let '(algorithm, hex, found) := Cut s ":" in
  if negb found then Err DigestShape
  else match algorithms algorithm with
  | None => Err (DigestAlgorithm algorithm)
  | Some hexLength =>
      if negb (String.length hex =? hexLength) then Err DigestLength
      else if negb (all_bytes isLowerHex hex) then Err DigestHex
      else Ok s
  end.

Definition Digest_Validate (d : string) : result DigestError unit :=
  check! ParseDigest d in Ok tt.

Definition Digest_Algorithm (d : string) : string :=
  let '(algorithm, _, found) := Cut d ":" in if found then algorithm else "".

Definition Digest_Hex (d : string) : string :=
  let '(_, hex, found) := Cut d ":" in if found then hex else "".

(** Typed references: a hosted and a cached digest cannot be confused. *)
Record CachedRef : Type := mkCachedRef { cr_digest : string }.
Record HostedRef : Type := mkHostedRef { hr_digest : string }.

Definition NewCachedRef (digest : string) : result DigestError CachedRef :=
  check! Digest_Validate digest in Ok (mkCachedRef digest).
Definition NewHostedRef (digest : string) : result DigestError HostedRef :=
  check! Digest_Validate digest in Ok (mkHostedRef digest).

(** Upload identifiers become directory names. *)
Definition MaxUploadIDLength : nat := 128.

Definition upload_id_byte (c : ascii) : bool :=
  in_range "a" "z" c || in_range "A" "Z" c || in_range "0" "9" c ||
  Ascii.eqb c "-" || Ascii.eqb c "_" || Ascii.eqb c ".".

Definition ValidateUploadID (id : string) : bool :=
  if String.eqb id "" then false
  else if MaxUploadIDLength <? String.length id then false
  else if String.eqb id "." || String.eqb id ".." then false
  else all_bytes upload_id_byte id.

(** ** Lemmas *)
Lemma all_bytes_contains p s c : all_bytes p s = true → p c = false → ContainsByte s c = false.
Proof.
  induction s as [|x s IH]; simpl; [done|]. intros [Hx Hs]%andb_true_iff Hc. rewrite IH by done.
  destruct (Ascii.eqb_spec x c) as [->|]; [congruence|done].
Qed.

Lemma Cut_spec s c : match Cut s c with
  | (before, after, true) => s = before +:+ String c after ∧ ContainsByte before c = false
  | (before, after, false) => before = s ∧ after = "" ∧ ContainsByte s c = false
  end.
Proof.
  induction s as [|x s IH]; simpl; [done|]. destruct (Ascii.eqb_spec x c) as [->|Hne]; [done|].
  destruct (Cut s c) as [[before after] [|]].
  - destruct IH as [-> Hb]. split; [done|]. simpl. destruct (Ascii.eqb_spec x c); done.
  - destruct IH as (-> & -> & Hb). done.
Qed.

(** The separators that never occur in an algorithm's name. *)
Lemma algorithm_bytes a n :
  algorithms a = Some n → ContainsByte a ":" = false ∧ ContainsByte a "/" = false ∧ ContainsByte a "." = false.
Proof.
  unfold algorithms. destruct (String.eqb_spec a SHA256) as [->|]; [by vm_compute|].
  destruct (String.eqb_spec a SHA512) as [->|]; [by vm_compute|done].
Qed.

(** A digest of the grammar, cut at its colon. *)
Definition digest_form (d algorithm hex : string) (n : nat) : Prop :=
  d = algorithm +:+ ":" +:+ hex ∧ algorithms algorithm = Some n ∧
  String.length hex = n ∧ all_bytes isLowerHex hex = true.

Lemma digest_form_cut d algorithm hex n : digest_form d algorithm hex n → Cut d ":" = (algorithm, hex, true).
Proof. intros (-> & Ha & _). apply Cut_app. by eapply algorithm_bytes. Qed.

Lemma ParseDigest_ok d : is_ok (ParseDigest d) = true ↔ ∃ algorithm hex n, digest_form d algorithm hex n.
Proof.
  split.
  - unfold ParseDigest. pose proof (Cut_spec d ":") as Hc. destruct (Cut d ":") as [[algorithm hex] [|]]; [|done].
    destruct Hc as [Hd _]. simpl. destruct (algorithms algorithm) as [n|] eqn:Ha; [|done].
    destruct (Nat.eqb_spec (String.length hex) n); [|done]. destruct (all_bytes isLowerHex hex) eqn:Hh; [|done].
    intros _. by exists algorithm, hex, n.
  - intros (algorithm & hex & n & Hf). unfold ParseDigest. rewrite (digest_form_cut _ _ _ _ Hf).
    destruct Hf as (_ & -> & -> & ->). simpl. by rewrite Nat.eqb_refl.
Qed.

(** A digest parses exactly when it is one of the two algorithms, a colon,
    and that algorithm's number of lowercase hex digits; its algorithm and hex
    parts put together give it back, and it contains no path separator and no
    dot, so it can name a file but never a path. A typed reference, hosted or
    cached, holds only such digests. *)
Theorem ParseDigest_grammar d :
  (is_ok (ParseDigest d) = true ↔
    ∃ algorithm hex n, d = algorithm +:+ ":" +:+ hex ∧ algorithms algorithm = Some n ∧
      String.length hex = n ∧ all_bytes isLowerHex hex = true) ∧
  match NewHostedRef d, NewCachedRef d with
  | Ok h, Ok c =>
      hr_digest h = d ∧ cr_digest c = d ∧ d = Digest_Algorithm d +:+ ":" +:+ Digest_Hex d ∧
      ContainsByte d "/" = false ∧ ContainsByte d "." = false
  | Err _, Err _ => is_ok (ParseDigest d) = false
  | _, _ => False
  end.
Proof.
  split; [apply ParseDigest_ok|]. pose proof (ParseDigest_ok d) as Hok.
  unfold NewHostedRef, NewCachedRef, Digest_Validate, Digest_Algorithm, Digest_Hex.
  destruct (ParseDigest d); simpl; [|done]. destruct (proj1 Hok eq_refl) as (algorithm & hex & n & Hf).
  rewrite (digest_form_cut _ _ _ _ Hf). destruct Hf as (-> & Ha & _ & Hh).
  destruct (algorithm_bytes _ _ Ha) as (_ & H1 & H2). split_and!; [done..| |]; rewrite !ContainsByte_app.
  - rewrite H1. simpl. by apply (all_bytes_contains isLowerHex).
  - rewrite H2. simpl. by apply (all_bytes_contains isLowerHex).
Qed.
