(* ===== verification/Sweep.v ===== *)
(** * Garbage collection of hosted blobs (src/internal/gc/sweep.go)

    The collector runs beside every other user of the stores. Its actions are
    the store and blob-store calls it makes, each atomic; between two of them
    anything may happen. So the model threads a world (the metadata store and
    the digests whose bytes exist) and a clock of actions: before the n-th
    action the environment [env n] changes the world, [cancelled n] says whether
    the context is cancelled by then, [now n] is the time, and
    [delete_fails n d] whether the blob store fails to delete. All four are
    arbitrary. Logging has no effect on the world and is left out. *)
From S2P Require Import Prelude Meta Digest Memory.

Record World : Type := mkWorld { w_meta : Store; w_bytes : gset string }.

Record Result : Type := mkResult {
  rs_runID : string;
  rs_resumed : bool;
  rs_scanned : Z;
  rs_deleted : Z;
  rs_bytes : Z;
  rs_skipped : Z;
  rs_leaked : Z;
  rs_complete : bool;
}.

Definition DefaultGrace : Z := (24 * 3600 * 1000000000)%Z.
Definition DefaultBatchSize : Z := 256.

(** The options [New] keeps. *)
Record Collector : Type := mkCollector { c_grace : Z; c_batch : Z; c_newID : string }.

Definition New (grace batchSize : Z) (newID : string) : option Collector :=
  if (grace <? 0)%Z then None
  else Some (mkCollector (if (grace =? 0)%Z then DefaultGrace else grace)
               (if (batchSize <=? 0)%Z then DefaultBatchSize else batchSize) newID).

(** What a sweep stopped with. *)
Inductive SweepError : Type := SweepCanceled | SweepFailed (e : MetaError).

Section collector.
Context (c : Collector).
Context (env : nat → World → World) (cancelled : nat → bool) (now : nat → Z) (delete_fails : nat → string → bool).

(** The clock of actions and the world. *)
Local Notation St := (nat * World)%type.

(** One call of a store method. *)
Definition call {A} (op : Store → result MetaError (Store * A)) (st : St) : result MetaError A * St :=
  let '(n, w) := st in
  let w := env n w in
  match op (w_meta w) with
  | Ok (s, a) => (Ok a, (S n, mkWorld s (w_bytes w)))
  | Err e => (Err e, (S n, w))
  end.

(** A method that only reads, and one that only writes. *)
Definition reading {A} (op : Store → result MetaError A) (s : Store) : result MetaError (Store * A) :=
  let! a := op s in Ok (s, a).
Definition writing (op : Store → result MetaError Store) (s : Store) : result MetaError (Store * unit) :=
  let! s' := op s in Ok (s', tt).

Definition begin_ (st : St) : result SweepError (GCRun * bool) * St :=
  let '(existing, st1) := call (reading (ResumableGCRun (cancelled st.1))) st in
  match existing with
  | Ok existing => (Ok (existing, true), st1)
  | Err (NotFound _ _) =>
      let now := now st1.1 in
      let run := mkGCRun (c_newID c) now 0 (now - c_grace c) "" 0 0 0 "" in
      let '(started, st2) := call (writing (StartGCRun (cancelled st1.1) run)) st1 in
      match started with
      | Ok _ => (Ok (run, false), st2)
      | Err e => (Err (if cancelled st2.1 then SweepCanceled else SweepFailed e), st2)
      end
  | Err e => (Err (if cancelled st1.1 then SweepCanceled else SweepFailed e), st1)
  end.

(** Deleting bytes: the reference must parse; an absent blob counts as gone. *)
Definition reclaim (digest : string) (st : St) : bool * St :=
  match NewHostedRef digest with
  | Err _ => (false, st)
  | Ok ref =>
      let '(n, w) := st in
      let w := env n w in
      if cancelled n || delete_fails n (hr_digest ref) then (false, (S n, w))
      else (true, (S n, mkWorld (w_meta w) (w_bytes w ∖ {[hr_digest ref]})))
  end.

Definition collect (run : GCRun) (candidate : Blob) (result : Result) (st : St) : Result * St :=
  let scanned := add64 (rs_scanned result) 1 in
  let '(answer, st1) := call (DeleteBlobIfUnreferenced (cancelled st.1) (bb_digest candidate) (gr_sweepBefore run)) st in
  match answer with
  | Err _ | Ok false =>
      (mkResult (rs_runID result) (rs_resumed result) scanned (rs_deleted result) (rs_bytes result)
         (add64 (rs_skipped result) 1) (rs_leaked result) (rs_complete result), st1)
  | Ok true =>
      let '(gone, st2) := reclaim (bb_digest candidate) st1 in
      (mkResult (rs_runID result) (rs_resumed result) scanned (add64 (rs_deleted result) 1)
         (add64 (rs_bytes result) (bb_size candidate)) (rs_skipped result)
         (if gone then rs_leaked result else add64 (rs_leaked result) 1) (rs_complete result), st2)
  end.

(** Progress is saved detached from the caller's context; a failure is only
    logged. *)
Definition saveProgress (runID cursor : string) (result : Result) (st : St) : St :=
  (call (writing (SaveGCProgress false runID cursor (rs_scanned result) (rs_deleted result) (rs_bytes result))) st).2.

Definition finish (runID failure : string) (st : St) : St :=
  (call (writing (FinishGCRun false runID (now st.1) failure)) st).2.

(** One batch; the flag says it was cut short by the context. *)
Fixpoint collect_batch (run : GCRun) (candidates : list Blob) (cursor : string) (result : Result) (st : St)
    : string * Result * bool * St :=
  match candidates with
  | [] => (cursor, result, false, st)
  | candidate :: candidates =>
      if cancelled st.1 then (cursor, result, true, st)
      else
        let '(result, st) := collect run candidate result st in
        collect_batch run candidates (bb_digest candidate) result st
  end.

Definition interrupted (runID cursor : string) (result : Result) (st : St) : Result * option SweepError * St :=
  (result, Some SweepCanceled, saveProgress runID cursor result st).

Definition completed (result : Result) : Result :=
  mkResult (rs_runID result) (rs_resumed result) (rs_scanned result) (rs_deleted result) (rs_bytes result)
    (rs_skipped result) (rs_leaked result) true.

(** The loop over batches. The number of batches is not bounded by the code;
    [None] is running out of [fuel] of them. *)
Fixpoint sweep_loop (fuel : nat) (run : GCRun) (cursor : string) (result : Result) (st : St)
    : option (Result * option SweepError * St) :=
  match fuel with
  | 0 => None
  | S fuel =>
      if cancelled st.1 then Some (interrupted (gr_id run) cursor result st)
      else
        let '(listed, st1) :=
          call (reading (ListSweepCandidates (cancelled st.1) (gr_sweepBefore run) cursor (c_batch c))) st in
        match listed with
        | Err e =>
            if cancelled st1.1 then Some (interrupted (gr_id run) cursor result st1)
            else
              let st2 := saveProgress (gr_id run) cursor result st1 in
              Some (result, Some (SweepFailed e), finish (gr_id run) "list sweep candidates" st2)
        | Ok [] =>
            let result := completed result in
            let st2 := saveProgress (gr_id run) cursor result st1 in
            Some (result, None, finish (gr_id run) "" st2)
        | Ok candidates =>
            let '(cursor, result, cut, st2) := collect_batch run candidates cursor result st1 in
            if cut then Some (interrupted (gr_id run) cursor result st2)
            else sweep_loop fuel run cursor result (saveProgress (gr_id run) cursor result st2)
        end
  end.

Definition Run (fuel : nat) (st : St) : option (Result * option SweepError * St) :=
  let '(begun, st1) := begin_ st in
  match begun with
  | Err e => Some (mkResult "" false 0 0 0 0 0 false, Some e, st1)
  | Ok (run, resumed) =>
      let result := mkResult (gr_id run) resumed (gr_scanned run) (gr_deleted run) (gr_freedBytes run) 0 0 false in
      sweep_loop fuel run (gr_cursor run) result st1
  end.
End collector.
