(* ===== verification/SweepSpec.v ===== *)
(** * What garbage collection guarantees

    Under any interference, failure or cancellation the collector's own actions
    are the safe ones; left alone it collects everything collectable and
    nothing else; and an interleaving that breaks what the package documents. *)
From S2P Require Import Prelude RepoName Meta Digest Memory MemoryInv MemorySpec Sweep.

(** ** The collector's actions *)
Section safety.
Context (env : nat → World → World) (before : Z).

(** The world beside the digests whose rows this sweep has removed. The
    environment acts; the collector removes a row that is sweepable at that
    instant, removes the bytes of a digest whose row it removed, or writes its
    own run record. *)
Inductive gc_step : gset string * World → gset string * World → Prop :=
| by_env n R w : gc_step (R, w) (R, env n w)
| by_row R w d b :
    blobs (w_meta w) !! d = Some b → sweepable b before (w_meta w) = true →
    gc_step (R, w) ({[d]} ∪ R, mkWorld (set_blobs (delete d (blobs (w_meta w))) (w_meta w)) (w_bytes w))
| by_bytes R w d : d ∈ R → gc_step (R, w) (R, mkWorld (w_meta w) (w_bytes w ∖ {[d]}))
| by_run R w gs : gc_step (R, w) (R, mkWorld (set_gcRuns gs (w_meta w)) (w_bytes w)).

  Hint Constructors gc_step : core.

(** What a part of the sweep does, from any set of rows removed so far. *)
Definition safe_from (w w' : World) : Prop := ∀ R, ∃ R', rtc gc_step (R, w) (R', w') ∧ R ⊆ R'.

Lemma safe_refl w : safe_from w w.
Proof. intros R. exists R. split; [apply rtc_refl|done]. Qed.
Lemma safe_trans w1 w2 w3 : safe_from w1 w2 → safe_from w2 w3 → safe_from w1 w3.
Proof.
  intros H1 H2 R. destruct (H1 R) as (R1 & ? & ?), (H2 R1) as (R2 & ? & ?). exists R2.
  split; [by etrans|by etrans].
Qed.
Lemma safe_env n w : safe_from w (env n w).
Proof. intros R. exists R. split; [by apply rtc_once|done]. Qed.
Lemma safe_run gs w : safe_from w (mkWorld (set_gcRuns gs (w_meta w)) (w_bytes w)).
Proof. intros R. exists R. split; [by apply rtc_once|done]. Qed.

(** A call that, when it succeeds, only writes the run records. *)
Lemma safe_call {A} (op : Store → result MetaError (Store * A)) n w :
  (∀ s s' a, op s = Ok (s', a) → s' = s ∨ ∃ gs, s' = set_gcRuns gs s) →
  safe_from w (call env op (n, w)).2.2.
Proof.
  intros Hop. unfold call. apply (safe_trans _ (env n w)); [apply safe_env|].
  destruct (op (w_meta (env n w))) as [[s a]|] eqn:Ho; simpl; [|apply safe_refl].
  apply Hop in Ho as [->|[gs ->]]; [|apply safe_run]. destruct (env n w). apply safe_refl.
Qed.

Lemma safe_reading {A} (op : Store → result MetaError A) n w : safe_from w (call env (reading op) (n, w)).2.2.
Proof. apply safe_call. intros s s' a. unfold reading. intros H. inv_result. by left. Qed.

Lemma writes_run (op : Store → result MetaError Store) :
  (∀ s s', op s = Ok s' → ∃ gs, s' = set_gcRuns gs s) →
  ∀ s s' a, writing op s = Ok (s', a) → s' = s ∨ ∃ gs, s' = set_gcRuns gs s.
Proof. intros Hop s s' a. unfold writing. intros H. inv_result. right. eauto. Qed.

Context (cancelled : nat → bool) (now : nat → Z) (delete_fails : nat → string → bool).

Lemma safe_saveProgress runID cursor result n w : safe_from w (saveProgress env runID cursor result (n, w)).2.
Proof.
  unfold saveProgress. apply safe_call, writes_run. intros s s'. unfold SaveGCProgress. intros H. inv_result.
  destruct (gcRuns s !! runID); [|done]. injection H as <-. eauto.
Qed.

Lemma safe_finish runID failure n w : safe_from w (finish env now runID failure (n, w)).2.
Proof.
  unfold finish. apply safe_call, writes_run. intros s s'. unfold FinishGCRun. intros H. inv_result.
  destruct (gcRuns s !! runID); [|done]. injection H as <-. eauto.
Qed.

Lemma safe_collect run candidate result n w :
  gr_sweepBefore run = before →
  safe_from w (collect env cancelled delete_fails run candidate result (n, w)).2.2.
Proof.
  intros Hb. unfold collect, call. apply (safe_trans _ (env n w)); [apply safe_env|].
  destruct (env n w) as [s bytes]. cbn [w_meta w_bytes fst]. unfold DeleteBlobIfUnreferenced.
  destruct (enter (cancelled n) s) as [[]|]; simpl; [|apply safe_refl].
  destruct (blobs s !! bb_digest candidate) as [b|] eqn:Hs; simpl; [|apply safe_refl].
  rewrite Hb. destruct (sweepable b before s) eqn:Hsw; simpl; [|apply safe_refl].
  set (d := bb_digest candidate) in *. set (w1 := mkWorld (set_blobs (delete d (blobs s)) s) bytes).
  intros R. assert (gc_step (R, mkWorld s bytes) ({[d]} ∪ R, w1)) as Hrow by exact (by_row R (mkWorld s bytes) d b Hs Hsw).
  unfold reclaim. destruct (NewHostedRef d) as [ref|] eqn:Href.
  - assert (hr_digest ref = d) as Hd by (unfold NewHostedRef in Href; by inv_result). rewrite Hd.
    destruct (_ || _); simpl; exists ({[d]} ∪ R); (split; [|set_solver]).
    + eapply rtc_l; [exact Hrow|]. by apply rtc_once.
    + eapply rtc_l; [exact Hrow|]. eapply rtc_l; [apply (by_env (S n))|]. apply rtc_once. apply by_bytes. set_solver.
  - simpl. exists ({[d]} ∪ R). split; [by apply rtc_once|set_solver].
Qed.

Lemma safe_collect_batch run candidates cursor result n w :
  gr_sweepBefore run = before →
  safe_from w (collect_batch env cancelled delete_fails run candidates cursor result (n, w)).2.2.
Proof.
  intros Hb. revert cursor result n w.
  induction candidates as [|b bs IH]; intros cursor result n w; simpl; [apply safe_refl|].
  destruct (cancelled n); [apply safe_refl|].
  pose proof (safe_collect run b result n w Hb) as Hs.
  destruct (collect env cancelled delete_fails run b result (n, w)) as [result' [n' w']]. simpl in Hs.
  eapply safe_trans; [exact Hs|apply IH].
Qed.

Lemma safe_loop c fuel run cursor result n w r e n' w' :
  gr_sweepBefore run = before →
  sweep_loop c env cancelled now delete_fails fuel run cursor result (n, w) = Some (r, e, (n', w')) →
  safe_from w w'.
Proof.
  intros Hb. revert cursor result n w. induction fuel as [|fuel IH]; intros cursor result n w H; [done|].
  cbn [sweep_loop fst] in H.
  assert (∀ cu re st, interrupted env (gr_id run) cu re st = (r, e, (n', w')) → safe_from st.2 w') as Hint.
  { intros cu re [m v]. unfold interrupted. intros [= _ _ Hst]. pose proof (safe_saveProgress (gr_id run) cu re m v) as Hs.
    by rewrite Hst in Hs. }
  destruct (cancelled n); [apply (inj Some) in H; exact (Hint _ _ _ H)|].
  pose proof (safe_reading (ListSweepCandidates false (gr_sweepBefore run) cursor (c_batch c)) n w) as Hl.
  destruct (call env _ (n, w)) as [listed [n1 w1]]. simpl in Hl. eapply safe_trans; [exact Hl|]. clear Hl.
  destruct listed as [[|b bs]|err].
  - injection H as _ _ H. pose proof (safe_saveProgress (gr_id run) cursor (completed result) n1 w1) as Hs.
    destruct (saveProgress _ _ _ _ _) as [n2 w2]. pose proof (safe_finish (gr_id run) "" n2 w2) as Hf.
    rewrite H in Hf. by eapply safe_trans.
  - pose proof (safe_collect_batch run (b :: bs) cursor result n1 w1 Hb) as Hc.
    destruct (collect_batch _ _ _ _ _ _ _ _) as [[[cu re] cut] [n2 w2]]. simpl in Hc.
    eapply safe_trans; [exact Hc|]. destruct cut; [apply (inj Some) in H; exact (Hint _ _ _ H)|].
    pose proof (safe_saveProgress (gr_id run) cu re n2 w2) as Hs. destruct (saveProgress _ _ _ _ _) as [n3 w3].
    eapply safe_trans; [exact Hs|]. by eapply IH.
  - destruct (cancelled _); [apply (inj Some) in H; exact (Hint _ _ _ H)|].
    injection H as _ _ H. pose proof (safe_saveProgress (gr_id run) cursor result n1 w1) as Hs.
    destruct (saveProgress _ _ _ _ _) as [n2 w2]. pose proof (safe_finish (gr_id run) "list sweep candidates" n2 w2) as Hf.
    rewrite H in Hf. by eapply safe_trans.
Qed.
End safety.

(** The deadline a run sweeps with: its own when it resumes, else the grace
    window before now. *)
Definition sweep_deadline (c : Collector) (env : nat → World → World) (cancelled : nat → bool) (now : nat → Z)
    (n : nat) (w : World) : Z :=
  match ResumableGCRun (cancelled n) (w_meta (env n w)) with
  | Ok run => gr_sweepBefore run
  | Err _ => (now (S n) - c_grace c)%Z
  end.

Lemma StartGCRun_run ctx run s s' : StartGCRun ctx run s = Ok s' → ∃ gs, s' = set_gcRuns gs s.
Proof.
  unfold StartGCRun. intros H. inv_result. destruct (String.eqb _ _); [done|].
  destruct (gcRuns s !! _); [done|]. injection H as <-. eauto.
Qed.

Lemma begin_safe c env cancelled now n w :
  let '(begun, st) := begin_ c env cancelled now (n, w) in
  let before := sweep_deadline c env cancelled now n w in
  safe_from env before w st.2 ∧
  match begun with Ok (run, resumed) => gr_sweepBefore run = before | Err _ => True end.
Proof.
  unfold begin_. unfold sweep_deadline. pose proof (safe_reading env (sweep_deadline c env cancelled now n w)
    (ResumableGCRun (cancelled n)) n w) as Hr.
  unfold sweep_deadline in Hr. unfold call, reading in *. cbn [fst] in *.
  destruct (ResumableGCRun (cancelled n) (w_meta (env n w))) as [run|e] eqn:Hrun; cbn [result_bind fst snd] in *; [done|].
  destruct e; try done. cbn zeta.
  set (before := (now (S n) - c_grace c)%Z) in *.
  set (run := mkGCRun _ _ _ _ _ _ _ _ _).
  pose proof (safe_call env before (writing (StartGCRun (cancelled (S n)) run)) (S n) (env n w)) as Hs.
  unfold call in Hs. destruct (writing _ _) as [[s a]|e] eqn:Hw; simpl in *.
  - split; [|done]. eapply safe_trans; [exact Hr|]. apply Hs, writes_run, StartGCRun_run.
  - split; [|done]. eapply safe_trans; [exact Hr|]. apply Hs, writes_run, StartGCRun_run.
Qed.

(** C2: garbage collection is safe under any interleaving. Whatever other
    users of the stores do between the collector's actions, whenever the context
    is cancelled, and whichever byte deletions fail, a sweep's effect on the
    world is a sequence of the environment's own changes and of three kinds of
    action: removing a blob row that at that very instant is stored, was
    recorded before the deadline, is named as config or layer by no manifest of
    any repository, and is pinned by no upload; removing the bytes of a digest
    whose row this sweep removed before; and writing run records. A resumed
    sweep uses the deadline its run was started with, a new one the grace window
    before its start. *)
Theorem sweep_safe c env cancelled now delete_fails fuel n w r e n' w'
  (Hrun : Run c env cancelled now delete_fails fuel (n, w) = Some (r, e, (n', w'))) :
  ∃ removed, rtc (gc_step env (sweep_deadline c env cancelled now n w)) (∅, w) (removed, w').
Proof.
  unfold Run in Hrun. pose proof (begin_safe c env cancelled now n w) as Hb.
  destruct (begin_ c env cancelled now (n, w)) as [begun [n1 w1]]. destruct Hb as [Hs Hd]. simpl in Hs.
  assert (safe_from env (sweep_deadline c env cancelled now n w) w w') as Hsafe.
  { destruct begun as [[run resumed]|err].
    - eapply safe_trans; [exact Hs|]. by eapply safe_loop.
    - injection Hrun as _ _ _ <-. exact Hs. }
  destruct (Hsafe ∅) as (R & HR & _). eauto.
Qed.

(** A world with one blob nothing references, recorded long ago. *)
Definition stray : string :=
  "sha256:0000000000000000000000000000000000000000000000000000000000000000".
Definition stray_world : World :=
  mkWorld (set_blobs {[stray := mkBlob stray 10 5]} (set_repos {["team" := mkRepository "team" Hosted "" 1 0 0]} newEmpty))
    {[stray]}.
Definition collector : Collector := mkCollector 10 16 "run-1".
Definition still (_ : nat) (w : World) : World := w.

Lemma sweep_safe_witness :
  ∃ removed w', rtc (gc_step still (90)%Z) (∅, stray_world) (removed, w') ∧ w_bytes w' = ∅.
Proof.
  destruct (Run collector still (λ _, false) (λ _, 100%Z) (λ _ _, false) 3 (0, stray_world))
    as [[[r e] [n' w']]|] eqn:H; [|vm_compute in H; discriminate H].
  destruct (sweep_safe collector still (λ _, false) (λ _, 100%Z) (λ _ _, false) 3 0 stray_world r e n' w' H) as [removed Hr].
  exists removed, w'. split; [exact Hr|]. vm_compute in H. injection H as _ _ _ <-. reflexivity.
Defined.

(** ** A sweep left alone *)
Section quiet.
Context (c : Collector) (now : nat → Z) (before : Z) (s0 : Store) (bytes0 : gset string).
Context (Hwf : store_wf s0) (Hopen : closed s0 = false) (Hbatch : (1 ≤ c_batch c)%Z).

(** The collectable rows, in digest order. *)
Definition collectable : list Blob :=
  sort_on String.le bb_digest (filter (λ b, sweepable b before s0 = true) (map_to_list (blobs s0)).*2).

(** The world after some rows have been collected. *)
Definition swept (done_ : list Blob) (gs : gmap string GCRun) : World :=
  mkWorld (set_gcRuns gs (set_blobs (delete_all (bb_digest <$> done_) (blobs s0)) s0))
    (bytes0 ∖ list_to_set (bb_digest <$> filter (λ b, is_ok (NewHostedRef (bb_digest b)) = true) done_)).

Lemma blob_key d b : blobs s0 !! d = Some b → bb_digest b = d ∧ d ≠ "".
Proof. intros H. by destruct (ow_blob _ _ _ _ _ (sw_rows _ Hwf) _ _ H) as (? & ? & _). Qed.

Lemma rows_elem (bs : gmap string Blob) b : b ∈ (map_to_list bs).*2 ↔ ∃ d, bs !! d = Some b.
Proof.
  rewrite list_elem_of_fmap. split.
  - intros ([d b'] & -> & H%elem_of_map_to_list). eauto.
  - intros [d H]. exists (d, b). by rewrite elem_of_map_to_list.
Qed.

Lemma rows_nodup (bs : gmap string Blob) :
  (∀ d b, bs !! d = Some b → bb_digest b = d) → NoDup (bb_digest <$> (map_to_list bs).*2).
Proof.
  intros Hk. rewrite <-list_fmap_compose.
  assert ((bb_digest ∘ snd) <$> map_to_list bs = (map_to_list bs).*1) as ->; [|apply NoDup_fst_map_to_list].
  apply list_fmap_ext. intros i [d b] Hl%list_elem_of_lookup_2%elem_of_map_to_list. simpl. by apply Hk.
Qed.

Lemma collectable_elem b : b ∈ collectable ↔ blobs s0 !! bb_digest b = Some b ∧ sweepable b before s0 = true.
Proof.
  unfold collectable. rewrite sort_on_elem, list_elem_of_filter, rows_elem. split.
  - intros [Hs [d Hd]]. destruct (blob_key _ _ Hd) as [<- _]. done.
  - intros [Hd Hs]. eauto.
Qed.

Lemma collectable_nodup : NoDup (bb_digest <$> collectable).
Proof.
  unfold collectable. rewrite sort_on_perm. apply NoDup_fmap_filter, rows_nodup. intros d b Hd. by apply blob_key.
Qed.

Lemma swept_lookup done_ d :
  delete_all (bb_digest <$> done_) (blobs s0) !! d = if decide (d ∈ bb_digest <$> done_) then None else blobs s0 !! d.
Proof. apply lookup_delete_all. Qed.

(** Where the loop is: some rows done, the cursor at the last of them. *)
Record at_cursor (done_ rest : list Blob) (cursor : string) : Prop := {
  ac_split : reverse done_ ++ rest = collectable;
  ac_done b : b ∈ done_ → String.le (bb_digest b) cursor;
  ac_rest b : b ∈ rest → str_lt cursor (bb_digest b) = true;
}.

Lemma at_start : at_cursor [] collectable "".
Proof.
  split; [done|by intros b ?%not_elem_of_nil|]. intros b [Hb _]%collectable_elem. apply blob_key in Hb as [_ Hb].
  destruct (bb_digest b); [done|]. vm_compute. done.
Qed.

Lemma at_next done_ b rest cursor :
  at_cursor done_ (b :: rest) cursor → at_cursor (b :: done_) rest (bb_digest b).
Proof.
  intros [Hs Hd Hr].
  assert (StronglySorted (on_key String.le bb_digest) collectable) as Hsort by (apply sort_on_sorted; apply _).
  pose proof collectable_nodup as Hnd. rewrite <-Hs in Hsort, Hnd. split.
  - by rewrite reverse_cons, <-(assoc_L (++)).
  - intros b' [->|Hb']%elem_of_cons; [done|]. apply (StronglySorted_app_1_elem_of _ _ _ _ _ Hsort); [|by left].
    by rewrite elem_of_reverse.
  - intros b' Hb'. apply str_lt_le. apply StronglySorted_app_1_r, StronglySorted_inv in Hsort as [_ Hf].
    rewrite Forall_forall in Hf. split; [by apply Hf|]. intros He.
    rewrite fmap_app in Hnd. apply NoDup_app in Hnd as (_ & _ & Hnd). csimpl in Hnd. apply NoDup_cons in Hnd as [Hnb _].
    apply Hnb. rewrite He. by apply list_elem_of_fmap_2.
Qed.

(** The rows ahead of the cursor are still stored and still collectable. *)
Lemma rest_stored done_ b rest cursor :
  at_cursor done_ (b :: rest) cursor →
  blobs s0 !! bb_digest b = Some b ∧ sweepable b before s0 = true ∧ bb_digest b ∉ bb_digest <$> done_.
Proof.
  intros [Hs _ _]. assert (b ∈ collectable) as Hb by (rewrite <-Hs; set_solver).
  apply collectable_elem in Hb as [? ?]. split_and!; [done..|].
  pose proof collectable_nodup as Hnd. rewrite <-Hs, fmap_app in Hnd. apply NoDup_app in Hnd as (_ & Hd & _).
  intros Hin. apply (Hd (bb_digest b)); [by rewrite fmap_reverse, elem_of_reverse|]. csimpl. by left.
Qed.

(** The rows a listing finds after the cursor. *)
Lemma rest_elem done_ rest cursor gs :
  at_cursor done_ rest cursor → ∀ b,
  b ∈ rest ↔ (str_lt cursor (bb_digest b) = true ∧ sweepable b before (w_meta (swept done_ gs)) = true) ∧
    ∃ d, delete_all (bb_digest <$> done_) (blobs s0) !! d = Some b.
Proof.
  intros Hat.
  intros b. change (sweepable b before (w_meta (swept done_ gs))) with (sweepable b before s0). split.
  - intros Hb. apply list_elem_of_split in Hb as Hsplit. destruct Hsplit as (l1 & l2 & ->).
    split; [split|].
    + by apply (ac_rest _ _ _ Hat).
    + assert (b ∈ collectable) as Hc by (rewrite <-(ac_split _ _ _ Hat); set_solver). by apply collectable_elem in Hc as [_ ?].
    + exists (bb_digest b). rewrite swept_lookup. rewrite decide_False.
      * assert (b ∈ collectable) as Hc by (rewrite <-(ac_split _ _ _ Hat); set_solver). by apply collectable_elem in Hc as [? _].
      * intros (b' & He & Hb')%list_elem_of_fmap. apply (ac_rest _ _ _ Hat) in Hb. apply (ac_done _ _ _ Hat) in Hb'.
        apply str_lt_iff in Hb. by rewrite He in Hb.
  - intros [[Hlt Hsw] [d Hd]]. rewrite swept_lookup in Hd. case_decide as Hn; [done|].
    destruct (blob_key _ _ Hd) as [Hk _]. rewrite <-Hk in Hd, Hn.
    assert (b ∈ collectable) as Hc by by apply collectable_elem.
    rewrite <-(ac_split _ _ _ Hat) in Hc. apply elem_of_app in Hc as [Hc|?]; [|done]. rewrite elem_of_reverse in Hc.
    exfalso. apply Hn. by apply list_elem_of_fmap_2.
Qed.

Lemma listing_rest done_ rest cursor gs :
  at_cursor done_ rest cursor →
  ListSweepCandidates false before cursor (c_batch c) (w_meta (swept done_ gs)) =
  Ok (take (Z.to_nat (c_batch c)) rest).
Proof.
  intros Hat. unfold ListSweepCandidates, enter. cbn. rewrite Hopen. simpl.
  destruct (Z.leb_spec (c_batch c) 0); [lia|]. do 2 f_equal.
  assert (StronglySorted (on_key String.le bb_digest) rest ∧ NoDup (bb_digest <$> rest)) as [Hsort Hnd].
  { assert (StronglySorted (on_key String.le bb_digest) collectable) as H1 by (apply sort_on_sorted; apply _).
    pose proof collectable_nodup as H2. rewrite <-(ac_split _ _ _ Hat) in H1, H2. split.
    - by apply StronglySorted_app_1_r in H1.
    - rewrite fmap_app in H2. by apply NoDup_app in H2 as (_ & _ & ?). }
  pose proof (rest_elem done_ rest cursor gs Hat) as Hin.
  symmetry. eapply (StronglySorted_unique_strong (on_key String.le bb_digest)); [|exact Hsort|apply sort_on_sorted; apply _|].
  - intros b1 b2 H1 H2 Hle1 Hle2. rewrite sort_on_elem, list_elem_of_filter, rows_elem, <-Hin in H2.
    apply (nodup_key_inj bb_digest rest); [done..|]. by apply (anti_symm String.le).
  - rewrite sort_on_perm. apply NoDup_Permutation.
    + by eapply NoDup_fmap_1.
    + apply NoDup_filter. eapply (NoDup_fmap_1 bb_digest), rows_nodup. intros d b Hd. rewrite swept_lookup in Hd.
      case_decide; [done|]. by apply blob_key.
    + intros b. rewrite list_elem_of_filter, rows_elem. apply Hin.
Qed.

Lemma collect_one run b result done_ rest cursor gs n :
  gr_sweepBefore run = before → at_cursor done_ (b :: rest) cursor →
  ∃ result' n', collect still (λ _, false) (λ _ _, false) run b result (n, swept done_ gs) =
    (result', (n', swept (b :: done_) gs)) ∧
    rs_complete result' = rs_complete result ∧ rs_deleted result' = add64 (rs_deleted result) 1.
Proof.
  intros Hb Hat. destruct (rest_stored _ _ _ _ Hat) as (Hs & Hsw & Hn).
  unfold collect, call, still, DeleteBlobIfUnreferenced, enter. cbn [fst snd w_meta swept].
  change (closed (set_gcRuns _ _)) with (closed s0). rewrite Hopen. cbn [result_bind].
  change (blobs (set_gcRuns gs (set_blobs (delete_all (bb_digest <$> done_) (blobs s0)) s0)))
    with (delete_all (bb_digest <$> done_) (blobs s0)).
  rewrite swept_lookup, decide_False, Hs, Hb by done.
  change (sweepable b before (set_gcRuns _ _)) with (sweepable b before s0). rewrite Hsw. cbn.
  unfold reclaim. destruct (NewHostedRef (bb_digest b)) as [ref|] eqn:Href; cbn.
  - assert (hr_digest ref = bb_digest b) as Hr by (unfold NewHostedRef in Href; by inv_result).
    do 2 eexists. split; [apply f_equal, f_equal; unfold swept; apply f_equal|split; reflexivity].
    rewrite filter_cons_True by (by rewrite Href). rewrite Hr. cbn. set_solver.
  - do 2 eexists. split; [apply f_equal, f_equal; unfold swept; apply f_equal|split; reflexivity].
    rewrite filter_cons_False by (by rewrite Href). done.
Qed.

Lemma collect_all_of run now_ rest done_ rest' cursor result gs n :
  gr_sweepBefore run = before → at_cursor done_ (rest ++ rest') cursor →
  ∃ cursor' result' n', collect_batch still (λ _, false) (λ _ _, false) run rest cursor result (n, swept done_ gs) =
    (cursor', result', false, (n', swept (reverse rest ++ done_) gs)) ∧
    at_cursor (reverse rest ++ done_) rest' cursor' ∧
    rs_complete result' = rs_complete result ∧
    (rs_deleted result = int64 now_ → rs_deleted result' = int64 (now_ + Z.of_nat (length rest))).
Proof.
  intros Hb. revert now_ done_ cursor result n. induction rest as [|b rest IH]; intros k done_ cursor result n Hat; simpl in *.
  { do 3 eexists. split_and!; [done..|]. intros ->. f_equal. lia. }
  destruct (collect_one run b result done_ (rest ++ rest') cursor gs n Hb Hat) as (r1 & n1 & -> & Hc1 & Hd1).
  apply at_next in Hat. destruct (IH (k + 1)%Z _ _ r1 n1 Hat) as (cu & r2 & n2 & -> & Hat2 & Hc2 & Hd2).
  rewrite reverse_cons, <-(assoc_L (++)). do 3 eexists. split_and!; [done|exact Hat2|congruence|].
  intros Hk. rewrite Hd2; [f_equal; lia|]. rewrite Hd1, Hk. apply int64_succ.
Qed.

Lemma save_swept runID cursor result done_ gs n :
  ∃ gs', saveProgress still runID cursor result (n, swept done_ gs) = (S n, swept done_ gs').
Proof.
  unfold saveProgress, call, still, writing, SaveGCProgress. destruct (enter false _); cbn; [|by exists gs].
  destruct (gs !! runID); cbn; [by eexists|by exists gs].
Qed.

Lemma finish_swept runID failure done_ gs n :
  ∃ gs', finish still now runID failure (n, swept done_ gs) = (S n, swept done_ gs').
Proof.
  unfold finish, call, still, writing, FinishGCRun. destruct (enter false _); cbn; [|by exists gs].
  destruct (gs !! runID); cbn; [by eexists|by exists gs].
Qed.

Lemma call_reading {A} (op : Store → result MetaError A) n w :
  call still (reading op) (n, w) = (op (w_meta w), (S n, w)).
Proof. unfold call, reading, still. destruct (op (w_meta w)); destruct w; done. Qed.

Lemma loop_completes fuel run k done_ rest cursor result gs n :
  gr_sweepBefore run = before → at_cursor done_ rest cursor → length rest < fuel →
  rs_deleted result = int64 k →
  ∃ result' n' gs', sweep_loop c still (λ _, false) now (λ _ _, false) fuel run cursor result (n, swept done_ gs) =
    Some (result', None, (n', swept (reverse collectable) gs')) ∧ rs_complete result' = true ∧
    rs_deleted result' = int64 (k + Z.of_nat (length rest)).
Proof.
  intros Hb. revert k done_ rest cursor result gs n.
  induction fuel as [|fuel IH]; intros k done_ rest cursor result gs n Hat Hlt Hk; [lia|].
  cbn [sweep_loop fst]. rewrite call_reading, Hb, (listing_rest _ _ _ _ Hat).
  destruct rest as [|b rest].
  - rewrite take_nil.
    destruct (save_swept (gr_id run) cursor (completed result) done_ gs (S n)) as [gs1 ->].
    destruct (finish_swept (gr_id run) "" done_ gs1 (S (S n))) as [gs2 ->].
    exists (completed result), (S (S (S n))), gs2. split_and!; [|done|simpl; rewrite Hk; f_equal; lia].
    rewrite <-(ac_split _ _ _ Hat), app_nil_r, reverse_involutive. done.
  - set (m := Z.to_nat (c_batch c)). assert (1 ≤ m) by (unfold m; lia).
    destruct (take m (b :: rest)) as [|b' bs] eqn:Ht; [destruct m; [lia|done]|]. rewrite <-Ht.
    pose proof (collect_all_of run k (take m (b :: rest)) done_ (drop m (b :: rest)) cursor result gs (S n) Hb) as Hc.
    rewrite take_drop in Hc. destruct (Hc Hat) as (cu & r1 & n1 & -> & Hat1 & Hc1 & Hd1). rewrite Ht. rewrite <-Ht.
    destruct (save_swept (gr_id run) cu r1 (reverse (take m (b :: rest)) ++ done_) gs n1) as [gs1 ->].
    edestruct (IH (k + Z.of_nat (length (take m (b :: rest))))%Z _ _ _ r1 gs1 (S n1) Hat1) as (r2 & n2 & gs2 & He & Hcp & Hd2).
    + rewrite length_drop. simpl in *. lia.
    + by apply Hd1.
    + exists r2, n2, gs2. split_and!; [exact He|done|]. rewrite Hd2. f_equal.
      rewrite length_take, length_drop. lia.
Qed.
End quiet.

Lemma no_open_run s :
  closed s = false → (∀ i g, gcRuns s !! i = Some g → gr_finishedAt g ≠ 0%Z) →
  ∃ kind id, ResumableGCRun false s = Err (NotFound kind id).
Proof.
  intros Ho Hf. unfold ResumableGCRun, enter. rewrite Ho. simpl.
  assert (foldl newer_run None (map_to_list (gcRuns s)).*2 = None) as ->; [|by eauto].
  assert (∀ g, g ∈ (map_to_list (gcRuns s)).*2 → gr_finishedAt g ≠ 0%Z) as Hall.
  { intros g ([i g'] & -> & Hg%elem_of_map_to_list)%list_elem_of_fmap. by eapply Hf. }
  induction (map_to_list (gcRuns s)).*2 as [|g l IH]; [done|]. simpl. unfold newer_run at 2.
  destruct (Z.eqb_spec (gr_finishedAt g) 0) as [H|_]; [by destruct (Hall g); [left|]|]. apply IH.
  intros g' Hg'. apply Hall. by right.
Qed.

(** C33: a sweep left alone terminates and collects exactly what is collectable.
    On a well-formed open store with no interrupted run, a positive batch size
    and a fresh run identifier, with more batches allowed than there are blob
    rows, the sweep completes: afterwards a blob row is stored exactly when it
    was stored and not sweepable at the deadline, bytes are gone exactly for the
    collected rows whose digest parses, the number of deletions reported is the
    number of rows collected, and manifests, edges, tags, uploads, cached rows
    and repositories are untouched. *)
Theorem sweep_complete c now n w fuel
  (Hwf : store_wf (w_meta w)) (Hopen : closed (w_meta w) = false)
  (Hruns : ∀ i g, gcRuns (w_meta w) !! i = Some g → gr_finishedAt g ≠ 0%Z)
  (Hbatch : (1 ≤ c_batch c)%Z) (Hid : c_newID c ≠ "") (Hfresh : gcRuns (w_meta w) !! c_newID c = None)
  (Hfuel : size (blobs (w_meta w)) < fuel) :
  let s := w_meta w in
  let before := (now (S n) - c_grace c)%Z in
  ∃ result n' w',
    Run c still (λ _, false) now (λ _ _, false) fuel (n, w) = Some (result, None, (n', w')) ∧
    rs_complete result = true ∧
    rs_deleted result = int64 (Z.of_nat (length (collectable before s))) ∧
    (∀ d b, blobs (w_meta w') !! d = Some b ↔ blobs s !! d = Some b ∧ sweepable b before s = false) ∧
    (∀ d, d ∈ w_bytes w' ↔ d ∈ w_bytes w ∧
       ¬ ∃ b, blobs s !! d = Some b ∧ sweepable b before s = true ∧ is_ok (NewHostedRef d) = true) ∧
    repos (w_meta w') = repos s ∧ manifests (w_meta w') = manifests s ∧ refs (w_meta w') = refs s ∧
    tags (w_meta w') = tags s ∧ uploads (w_meta w') = uploads s ∧
    cachedManifests (w_meta w') = cachedManifests s ∧ cachedBlobs (w_meta w') = cachedBlobs s.
Proof.
  intros s before. change (closed s = false) in Hopen. change (gcRuns s !! c_newID c = None) in Hfresh.
  set (run := mkGCRun (c_newID c) (now (S n)) 0 before "" 0 0 0 "").
  set (gs := <[c_newID c := run]> (gcRuns s)).
  assert (begin_ c still (λ _, false) now (n, w) = (Ok (run, false), (S (S n), swept s (w_bytes w) [] gs))) as Hbegin.
  { unfold begin_. rewrite call_reading. change (w_meta w) with s.
    destruct (no_open_run s Hopen Hruns) as (kind & id & ->).
    cbn [fst]. unfold call, still, writing, StartGCRun, enter. change (w_meta w) with s. rewrite Hopen. cbn.
    destruct (String.eqb_spec (c_newID c) ""); [done|]. rewrite Hfresh. cbn.
    do 3 f_equal. unfold swept. f_equal. cbn. set_solver. }
  unfold Run. rewrite Hbegin.
  destruct (loop_completes c now before s (w_bytes w) Hwf Hopen Hbatch fuel run 0 [] (collectable before s) ""
    (mkResult (c_newID c) false 0 0 0 0 0 false) gs (S (S n))) as (result & n' & gs' & Hloop & Hc & Hd).
  - done.
  - by apply at_start.
  - unfold collectable. rewrite sort_on_length. eapply Nat.le_lt_trans; [apply length_filter|].
    by rewrite length_fmap, length_map_to_list.
  - done.
  - exists result, n', (swept s (w_bytes w) (reverse (collectable before s)) gs'). cbn.
    split_and!; [exact Hloop|exact Hc|exact Hd|..|done|done|done|done|done|done|done].
    + intros d b. rewrite swept_lookup. case_decide as Hin.
      * rewrite fmap_reverse, elem_of_reverse, list_elem_of_fmap in Hin. destruct Hin as (b' & -> & Hb').
        apply (collectable_elem before s Hwf) in Hb' as [Hb' Hs]. split; [done|]. intros [Hb Hn]. congruence.
      * split; [|tauto]. intros Hb. split; [done|]. apply not_true_iff_false. intros Hs. apply Hin.
        rewrite fmap_reverse, elem_of_reverse. destruct (blob_key s Hwf _ _ Hb) as [<- _].
        apply list_elem_of_fmap_2. by apply collectable_elem.
    + intros d. rewrite elem_of_difference, elem_of_list_to_set, list_elem_of_fmap.
      setoid_rewrite list_elem_of_filter. setoid_rewrite elem_of_reverse. setoid_rewrite collectable_elem; [|done].
      split; intros [Hd' Hn]; (split; [done|]); contradict Hn.
      * destruct Hn as (b & Hb & Hs & Hok). destruct (blob_key s Hwf _ _ Hb) as [<- _]. eauto 10.
      * destruct Hn as (b & -> & Hok & Hb & Hs). eauto.
Qed.

Lemma stray_world_wf : store_wf (w_meta stray_world).
Proof.
  apply reachable_wf.
  eapply rtc_l; [eapply (step_CreateRepository _ false (mkRepository "team" Hosted "" 1 0 0)
    (set_repos {["team" := mkRepository "team" Hosted "" 1 0 0]} newEmpty)); vm_compute; reflexivity|].
  eapply rtc_l; [eapply (step_PutBlob _ false (mkBlob stray 10 5)); vm_compute; reflexivity|]. apply rtc_refl.
Qed.

Lemma sweep_complete_witness :
  ∃ result n' w',
    Run collector still (λ _, false) (λ _, 100%Z) (λ _ _, false) 2 (0, stray_world) = Some (result, None, (n', w')) ∧
    rs_complete result = true.
Proof.
  destruct (sweep_complete collector (λ _, 100%Z) 0 stray_world 2 stray_world_wf eq_refl) as (result & n' & w' & H1 & H2 & _).
  - intros i g. vm_compute. discriminate.
  - vm_compute. discriminate.
  - discriminate.
  - reflexivity.
  - vm_compute. reflexivity.
  - exists result, n', w'. exact (conj H1 H2).
Defined.

(** ** Two interleavings the package documents away

    The collector removes a row, then its bytes. A client that pushes the same
    content between the two finds the bytes still there (storing them again is
    a no-op) and records the row; the collector then deletes the bytes. The row
    stays, its content is gone, and nothing is reported as leaked. *)
Definition push_again (n : nat) (w : World) : World :=
  if decide (n = 4) then
    match PutBlob false (mkBlob stray 10 100) (w_meta w) with
    | Ok s => mkWorld s ({[stray]} ∪ w_bytes w)
    | Err _ => w
    end
  else w.

Lemma sweep_loses_a_repushed_blob :
  match Run collector push_again (λ _, false) (λ _, 100%Z) (λ _ _, false) 3 (0, stray_world) with
  | Some (r, None, (_, w')) =>
      blobs (w_meta w') !! stray = Some (mkBlob stray 10 100) ∧ stray ∉ w_bytes w' ∧ rs_leaked r = 0%Z
  | _ => False
  end.
Proof.
  vm_compute. split; [reflexivity|]. split; [|reflexivity]. intros H. discriminate H.
Qed.

(** A manifest push checks that its blobs are recorded, then stores the
    manifest, in two calls. A sweep between the two removes the row it saw: the
    manifest is stored and names a blob that is neither recorded nor held. *)
Definition push_manifest (n : nat) (w : World) : World :=
  if decide (n = 4) then
    match PutManifest false (mkManifest "team/app" "m" "" "" "" "" 1 100) [mkManifestRef stray RefLayer] (w_meta w) with
    | Ok s => mkWorld s (w_bytes w)
    | Err _ => w
    end
  else w.

Lemma sweep_between_check_and_put :
  GetBlob false stray (w_meta stray_world) = Ok (mkBlob stray 10 5) ∧
  match Run collector push_manifest (λ _, false) (λ _, 100%Z) (λ _ _, false) 3 (0, stray_world) with
  | Some (_, None, (_, w')) =>
      get2 (refs (w_meta w')) "team/app" "m" = Some [mkManifestRef stray RefLayer] ∧
      blobs (w_meta w') !! stray = None ∧ stray ∉ w_bytes w'
  | _ => False
  end.
Proof.
  split; [vm_compute; reflexivity|]. vm_compute. split; [reflexivity|]. split; [reflexivity|].
  intros H. discriminate H.
Qed.
