(* ===== verification/Evict.v ===== *)
(** * Cache eviction (src/internal/cache: evict.go, orphan.go)

    The evictor works on the cached half of the metadata store and on the
    cache-rooted blob store. Its actions are the calls it makes on them. As for
    the garbage collector, the model threads a world and a clock of actions:
    before the n-th action the environment [env n] changes the world,
    [cancelled n] says whether the context is cancelled by then, [store_fails n]
    is the error an engine may fail the call with, [delete_fails n d] says whether
    the blob store fails to delete, and [walk_fails n] after how many blobs its
    enumeration fails, if it does. All are arbitrary. Logging
    has no effect on the world and is left out; published events are kept in the
    world, oldest first. *)
From Stdlib Require Import SpecFloat.
From S2P Require Import Prelude Meta Digest Memory.

Definition reasonBudget := "budget".
Definition reasonOrphan := "orphan".

(** The payload of a cache.evicted event. *)
Record Evicted : Type := mkEvicted { ev_repository : string; ev_digest : string; ev_size : Z; ev_reason : string }.

(** The metadata store, the sizes of the stored blobs by digest, the events. *)
Record CacheWorld : Type := mkCacheWorld {
  cw_meta : Store; cw_bytes : gmap string Z; cw_events : list Evicted;
}.

(** ** float64

    IEEE 754 binary64, as the Standard Library specifies it. *)
Definition float64 (z : Z) : spec_float := binary_normalize 53 1024 z 0 false.
Definition mul_float64 (x y : spec_float) : spec_float := SFmul 53 1024 x y.

(** The integer part of a float, when it is an int64. *)
Definition float_trunc (f : spec_float) : option Z :=
  match f with
  | S754_zero _ => Some 0%Z
  | S754_finite s m e =>
      let magnitude := Z.shiftl (Zpos m) e in
      let z := (if s then - magnitude else magnitude)%Z in
      if (- 2 ^ 63 <=? z)%Z && (z <? 2 ^ 63)%Z then Some z else None
  | S754_infinity _ | S754_nan => None
  end.

Definition DefaultPageSize : Z := 256.
Definition DefaultMaxOrphans : Z := 10000.
(** 0.05 and 0.5. *)
Definition DefaultHeadroom : spec_float := S754_finite false 7205759403792794 (-57).
Definition maxHeadroom : spec_float := S754_finite false 4503599627370496 (-53).

(** ** The evictor and its options *)
Record Evictor : Type := mkEvictor {
  e_events : bool;
  e_global : Z;
  e_perEntity : gmap string Z;
  e_headroom : spec_float;
  e_pageSize : Z;
  e_maxOrph : Z;
}.

Inductive OptionError : Type :=
| MissingMeta | MissingBlobs | NegativeGlobal | HeadroomTooLarge | NegativeEntityBudget.

Definition New (hasMeta hasBlobs hasEvents : bool) (global : Z) (perEntity : gmap string Z)
    (headroom : spec_float) (pageSize maxOrphans : Z) : result OptionError Evictor :=
  if negb hasMeta then Err MissingMeta
  else if negb hasBlobs then Err MissingBlobs
  else if (global <? 0)%Z then Err NegativeGlobal
  else if SFltb maxHeadroom headroom then Err HeadroomTooLarge
  else if existsb (λ p : string * Z, (p.2 <? 0)%Z) (map_to_list perEntity) then Err NegativeEntityBudget
  else Ok (mkEvictor hasEvents global perEntity
             (if SFltb headroom (S754_zero false) then S754_zero false
              else if SFeqb headroom (S754_zero false) then DefaultHeadroom
              else headroom)
             (if (pageSize <=? 0)%Z then DefaultPageSize else pageSize)
             (if (maxOrphans <=? 0)%Z then DefaultMaxOrphans else maxOrphans)).

Record Scope : Type := mkScope { sc_entity : string; sc_budget : Z; sc_target : Z; sc_before : Z; sc_after : Z }.

Record Result : Type := mkResult {
  er_manifests : Z; er_blobs : Z; er_bytes : Z; er_shared : Z; er_skipped : Z; er_failed : Z; er_scopes : list Scope;
}.

Definition no_result : Result := mkResult 0 0 0 0 0 0 [].

Definition skipped (r : Result) : Result :=
  mkResult (er_manifests r) (er_blobs r) (er_bytes r) (er_shared r) (add64 (er_skipped r) 1) (er_failed r) (er_scopes r).
Definition failed (r : Result) : Result :=
  mkResult (er_manifests r) (er_blobs r) (er_bytes r) (er_shared r) (er_skipped r) (add64 (er_failed r) 1) (er_scopes r).
Definition with_scope (scope : Scope) (r : Result) : Result :=
  mkResult (er_manifests r) (er_blobs r) (er_bytes r) (er_shared r) (er_skipped r) (er_failed r) (er_scopes r ++ [scope]).

Record OrphanResult : Type := mkOrphanResult {
  or_scanned : Z; or_reclaimed : Z; or_bytes : Z; or_failed : Z; or_truncated : bool;
}.

(** What a pass stopped with. *)
Inductive EvictError : Type :=
| EvictCanceled | UsageFailed (e : MetaError) | ListFailed (e : MetaError) | ClaimsFailed (e : MetaError) | WalkFailed.

Section evictor.
Context (e : Evictor).
Context (env : nat → CacheWorld → CacheWorld) (cancelled : nat → bool) (store_fails : nat → option MetaError)
  (delete_fails : nat → string → bool) (walk_fails : nat → option nat).
(** What the platform converts a float that is not an int64 to. *)
Context (unrepresentable : spec_float → Z).

Local Notation St := (nat * CacheWorld)%type.

Definition float_to_int64 (f : spec_float) : Z :=
  match float_trunc f with Some z => z | None => unrepresentable f end.

(** [budget - int64(float64(budget)*headroom)]. *)
Definition target_of (budget : Z) : Z :=
  int64 (budget - float_to_int64 (mul_float64 (float64 budget) (e_headroom e))).

(** One call of a store method. *)
Definition call {A} (op : Store → result MetaError (Store * A)) (st : St) : result MetaError A * St :=
  let '(n, w) := st in
  let w := env n w in
  match store_fails n with
  | Some err => (Err err, (S n, w))
  | None =>
      match op (cw_meta w) with
      | Ok (s, a) => (Ok a, (S n, mkCacheWorld s (cw_bytes w) (cw_events w)))
      | Err err => (Err err, (S n, w))
      end
  end.

Definition reading {A} (op : Store → result MetaError A) (s : Store) : result MetaError (Store * A) :=
  let! a := op s in Ok (s, a).
Definition writing (op : Store → result MetaError Store) (s : Store) : result MetaError (Store * unit) :=
  let! s' := op s in Ok (s', tt).

(** [blobs.Delete]: [true] unless it failed with something other than
    not-found. *)
Definition delete_bytes (digest : string) (st : St) : bool * St :=
  let '(n, w) := st in
  let w := env n w in
  if cancelled n || delete_fails n digest then (false, (S n, w))
  else (true, (S n, mkCacheWorld (cw_meta w) (delete digest (cw_bytes w)) (cw_events w))).

Definition publishEvicted (repo digest : string) (size : Z) (reason : string) (st : St) : St :=
  if e_events e
  then (st.1, mkCacheWorld (cw_meta st.2) (cw_bytes st.2) (cw_events st.2 ++ [mkEvicted repo digest size reason]))
  else st.

(** A failure leaves the bytes to the orphan pass. *)
Definition reclaim (digest : string) (st : St) : St :=
  match NewCachedRef digest with
  | Err _ => st
  | Ok ref => (delete_bytes (cr_digest ref) st).2
  end.

Definition evictManifest (item : CachedItem) (result : Result) (st : St) : bool * Result * St :=
  let '(answer, st) := call (writing (DeleteCachedManifest (cancelled st.1) (ci_repository item) (ci_digest item))) st in
  match answer with
  | Ok _ =>
      (true,
       mkResult (add64 (er_manifests result) 1) (er_blobs result) (add64 (er_bytes result) (ci_size item))
         (er_shared result) (er_skipped result) (er_failed result) (er_scopes result),
       publishEvicted (ci_repository item) (ci_digest item) (ci_size item) reasonBudget st)
  | Err (NotFound _ _) => (true, skipped result, st)
  | Err _ => (false, failed result, st)
  end.

Definition evictBlob (item : CachedItem) (result : Result) (st : St) : bool * Result * St :=
  let '(answer, st) := call (DeleteCachedBlob (cancelled st.1) (ci_repository item) (ci_digest item)) st in
  match answer with
  | Ok remaining =>
      let shared := (0 <? remaining)%Z in
      (true,
       mkResult (er_manifests result) (add64 (er_blobs result) 1) (add64 (er_bytes result) (ci_size item))
         (if shared then add64 (er_shared result) 1 else er_shared result)
         (er_skipped result) (er_failed result) (er_scopes result),
       publishEvicted (ci_repository item) (ci_digest item) (ci_size item) reasonBudget
         (if shared then st else reclaim (ci_digest item) st))
  | Err (NotFound _ _) => (true, skipped result, st)
  | Err _ => (false, failed result, st)
  end.

Definition evictItem (item : CachedItem) (result : Result) (st : St) : bool * Result * St :=
  if String.eqb (ci_kind item) CachedManifestKind then evictManifest item result st
  else if String.eqb (ci_kind item) CachedBlobKind then evictBlob item result st
  else (false, failed result, st).

(** The rows of one page, until the target is met; the flag says the context cut
    the page short. *)
Fixpoint evict_page (target : Z) (items : list CachedItem) (after : Z) (result : Result) (st : St)
    : Z * Result * bool * St :=
  match items with
  | [] => (after, result, false, st)
  | item :: items =>
      if (after <=? target)%Z then (after, result, false, st)
      else if cancelled st.1 then (after, result, true, st)
      else
        let '(gone, result, st) := evictItem item result st in
        evict_page target items (if gone then int64 (after - ci_size item) else after) result st
  end.

(** The loop over pages. The code does not bound their number; [None] is running
    out of [fuel] of them. *)
Fixpoint evict_loop (fuel : nat) (entity : string) (target after : Z) (result : Result) (st : St)
    : option (Z * Result * option EvictError * St) :=
  match fuel with
  | 0 => None
  | S fuel =>
      if negb (target <? after)%Z then Some (after, result, None, st)
      else
        let '(listed, st) := call (reading (ListEvictable (cancelled st.1) entity (e_pageSize e))) st in
        match listed with
        | Err err => Some (after, result, Some (ListFailed err), st)
        | Ok [] => Some (after, result, None, st)
        | Ok items =>
            let '(after', result, cut, st) := evict_page target items after result st in
            if cut then Some (after', result, Some EvictCanceled, st)
            else if (after' =? after)%Z then Some (after', result, None, st)
            else evict_loop fuel entity target after' result st
        end
  end.

Definition sweepScope (fuel : nat) (entity : string) (budget : Z) (result : Result) (st : St)
    : option (Result * option EvictError * St) :=
  if (budget <=? 0)%Z then Some (result, None, st)
  else
    let '(usage, st) := call (reading (CachedUsage (cancelled st.1) entity)) st in
    match usage with
    | Err err => Some (result, Some (UsageFailed err), st)
    | Ok usage =>
        let target := target_of budget in
        let bytes := cu_bytes usage in
        if (bytes <=? budget)%Z
        then Some (with_scope (mkScope entity budget target bytes bytes) result, None, st)
        else
          '(after, result, err, st) ← evict_loop fuel entity target bytes result st;
          Some (with_scope (mkScope entity budget target bytes after) result, err, st)
    end.

(** The passes of a sweep, stopping at the first that fails. *)
Fixpoint sweep_scopes (fuel : nat) (scopes : list (string * Z)) (result : Result) (st : St)
    : option (Result * option EvictError * St) :=
  match scopes with
  | [] => Some (result, None, st)
  | (entity, budget) :: scopes =>
      '(result, err, st) ← sweepScope fuel entity budget result st;
      match err with
      | Some _ => Some (result, err, st)
      | None => sweep_scopes fuel scopes result st
      end
  end.

(** The carve-outs in name order, then the whole cache. *)
Definition scopes_of : list (string * Z) :=
  ((λ entity, (entity, default 0%Z (e_perEntity e !! entity))) <$> sort_strings (map_to_list (e_perEntity e)).*1)
    ++ [("", e_global e)].

Definition Sweep (fuel : nat) (st : St) : option (Result * option EvictError * St) :=
  sweep_scopes fuel scopes_of no_result st.

(** ** The orphan pass *)

(** The callback of the walk over the blobs enumerated, until the bound. *)
Fixpoint walk_orphans (descs : list (string * Z)) (orphans : list (string * Z)) (result : OrphanResult) (st : St)
    : list (string * Z) * OrphanResult * option EvictError * St :=
  match descs with
  | [] => (orphans, result, None, st)
  | desc :: descs =>
      if cancelled st.1 then (orphans, result, Some EvictCanceled, st)
      else
        let result := mkOrphanResult (add64 (or_scanned result) 1) (or_reclaimed result) (or_bytes result)
                        (or_failed result) (or_truncated result) in
        let '(claims, st) := call (reading (CachedBlobClaims (cancelled st.1) desc.1)) st in
        match claims with
        | Err err => (orphans, result, Some (ClaimsFailed err), st)
        | Ok claims =>
            if (0 <? claims)%Z then walk_orphans descs orphans result st
            else
              let orphans := orphans ++ [desc] in
              if (e_maxOrph e <=? Z.of_nat (length orphans))%Z
              then (orphans, mkOrphanResult (or_scanned result) (or_reclaimed result) (or_bytes result) (or_failed result) true,
                    None, st)
              else walk_orphans descs orphans result st
        end
  end.

Definition reclaimOrphan (desc : string * Z) (st : St) : bool * St :=
  match NewCachedRef desc.1 with
  | Err _ => (false, st)
  | Ok ref =>
      let '(gone, st) := delete_bytes (cr_digest ref) st in
      if gone then (true, publishEvicted "" desc.1 desc.2 reasonOrphan st) else (false, st)
  end.

Fixpoint reclaim_orphans (orphans : list (string * Z)) (result : OrphanResult) (st : St)
    : OrphanResult * option EvictError * St :=
  match orphans with
  | [] => (result, None, st)
  | desc :: orphans =>
      if cancelled st.1 then (result, Some EvictCanceled, st)
      else
        let '(gone, st) := reclaimOrphan desc st in
        reclaim_orphans orphans
          (if gone
           then mkOrphanResult (or_scanned result) (add64 (or_reclaimed result) 1) (add64 (or_bytes result) desc.2)
                  (or_failed result) (or_truncated result)
           else mkOrphanResult (or_scanned result) (or_reclaimed result) (or_bytes result)
                  (add64 (or_failed result) 1) (or_truncated result)) st
  end.

(** The walk enumerates the blobs stored when it starts, in no defined order. *)
Definition SweepOrphans (st : St) : OrphanResult * option EvictError * St :=
  let '(n, w) := st in
  let w := env n w in
  let descs := map_to_list (cw_bytes w) in
  let enumerated := match walk_fails n with Some k => take k descs | None => descs end in
  let '(orphans, result, err, st) :=
    walk_orphans enumerated [] (mkOrphanResult 0 0 0 0 false) (S n, w) in
  match err with
  | Some err => (result, Some err, st)
  | None =>
      if bool_decide (is_Some (walk_fails n)) && negb (or_truncated result) then (result, Some WalkFailed, st)
      else reclaim_orphans orphans result st
  end.
End evictor.
