(* ===== verification/Headroom.v ===== *)
(** * The headroom of a cache budget (src/internal/cache/evict.go)

    The evictor frees [int64(float64(budget)*headroom)] bytes beyond a breach.
    This file bounds that product as binary64 arithmetic computes it: for every
    budget and every headroom [New] keeps, between nothing and the budget. *)
From Stdlib Require Import SpecFloat.
From S2P Require Import Prelude Evict.
Local Open Scope Z_scope.

(** ** Rounding *)
Lemma digits_bounds p : 2 ^ (Zpos (digits2_pos p) - 1) ≤ Zpos p < 2 ^ Zpos (digits2_pos p).
Proof.
  induction p as [p IH|p IH|]; [| |done]; cbn [digits2_pos]; rewrite Pos2Z.inj_succ;
    replace (Z.succ (Zpos (digits2_pos p)) - 1) with (Z.succ (Zpos (digits2_pos p) - 1)) by lia;
    rewrite !Z.pow_succ_r by lia; lia.
Qed.

Lemma shr_1_m r : 0 ≤ shr_m r → shr_m (shr_1 r) = shr_m r / 2.
Proof.
  destruct r as [m r s]. simpl. intros Hm. rewrite <-Z.div2_div. destruct m as [|[p|p|]|p]; simpl; try done.
Qed.

Lemma iter_shr p r : 0 ≤ shr_m r → shr_m (SpecFloat.iter_pos shr_1 p r) = shr_m r / 2 ^ Zpos p.
Proof.
  revert r. induction p as [p IH|p IH|]; intros r Hr; cbn [SpecFloat.iter_pos].
  - rewrite IH; rewrite ?IH; rewrite shr_1_m by done; try (apply Z.div_pos; lia).
    + rewrite !Z.div_div by lia. f_equal. replace (Zpos p~1) with (Zpos p + Zpos p + 1) by lia.
      rewrite !Z.pow_add_r by lia. lia.
    + apply Z.div_pos; [apply Z.div_pos; lia|lia].
  - rewrite IH; rewrite IH by done.
    + rewrite Z.div_div by lia. f_equal. replace (Zpos p~0) with (Zpos p + Zpos p) by lia.
      by rewrite Z.pow_add_r by lia.
    + apply Z.div_pos; lia.
  - by apply shr_1_m.
Qed.

Lemma shr_shift m e n : 0 ≤ m →
  ∃ r, shr (shr_record_of_loc m loc_Exact) e n = (r, e + Z.max 0 n) ∧ shr_m r = m / 2 ^ Z.max 0 n ∧
    (n ≤ 0 → loc_of_shr_record r = loc_Exact).
Proof.
  intros Hm. destruct n as [|p|p]; simpl.
  - eexists. rewrite Z.add_0_r. split; [done|]. simpl. by rewrite Z.div_1_r.
  - eexists. split; [f_equal|]. rewrite iter_shr by done. split; [done|]. lia.
  - eexists. rewrite Z.add_0_r. split; [done|]. simpl. by rewrite Z.div_1_r.
Qed.

(** A rounded positive value: the mantissa is shifted down, rounded up by at most
    one unit, and only if it was shifted, then shifted again. *)
Lemma round_aux_shape p e :
  ∃ k1 k2 c, k1 = Z.max 0 (fexp 53 1024 (Zpos (digits2_pos p) + e) - e) ∧ 0 ≤ k2 ∧ 0 ≤ c ≤ 1 ∧ (k1 = 0 → c = 0) ∧
    binary_round_aux 53 1024 false (Zpos p) e loc_Exact =
    match (Zpos p / 2 ^ k1 + c) / 2 ^ k2 with
    | 0 => S754_zero false
    | Zpos m => if e + k1 + k2 <=? 971 then S754_finite false m (e + k1 + k2) else S754_infinity false
    | _ => S754_nan
    end.
Proof.
  unfold binary_round_aux, shr_fexp. cbn [Zdigits2].
  destruct (shr_shift (Zpos p) e (fexp 53 1024 (Zpos (digits2_pos p) + e) - e)) as (r1 & -> & Hm1 & Hx); [lia|].
  set (k1 := Z.max 0 (fexp 53 1024 (Zpos (digits2_pos p) + e) - e)) in *.
  set (m2 := round_nearest_even (shr_m r1) (loc_of_shr_record r1)).
  assert (0 ≤ Zpos p / 2 ^ k1) by (apply Z.div_pos; lia).
  assert (∃ c, m2 = shr_m r1 + c ∧ 0 ≤ c ≤ 1 ∧ (k1 = 0 → c = 0)) as (c & -> & Hc & Hc0).
  { unfold m2, round_nearest_even. destruct (loc_of_shr_record r1) as [|[]];
      [exists 0|destruct (Z.even _); [exists 0|exists 1]|exists 0|exists 1]; split_and!; try lia;
      intros; exfalso; assert (loc_Exact ≠ loc_Exact) as Hn; try done; rewrite <-Hx at 1 by lia; done. }
  rewrite Hm1. set (m2' := Zpos p / 2 ^ k1 + c).
  destruct (shr_shift m2' (e + k1) (fexp 53 1024 (Zdigits2 m2' + (e + k1)) - (e + k1))) as (r2 & -> & Hm2 & _); [lia|].
  exists k1, (Z.max 0 (fexp 53 1024 (Zdigits2 m2' + (e + k1)) - (e + k1))), c. rewrite Hm2. split_and!; try done; lia.
Qed.

(** ** Bounds

    Values are compared scaled by a power of two large enough to make every
    exponent nonnegative. *)
Definition float_of (m e : Z) : spec_float :=
  match m with
  | 0 => S754_zero false
  | Zpos m => if e <=? 971 then S754_finite false m e else S754_infinity false
  | Zneg _ => S754_nan
  end.

Lemma div_pow_le a k : 0 ≤ k → a / 2 ^ k * 2 ^ k ≤ a.
Proof. intros. rewrite Z.mul_comm. apply Z.mul_div_le. lia. Qed.

Lemma round_aux_bound K p e :
  1074 ≤ K → 0 ≤ e + K →
  ∃ m e', binary_round_aux 53 1024 false (Zpos p) e loc_Exact = float_of m e' ∧ 0 ≤ m ∧ e ≤ e' ∧
    (m * 2 ^ (e' + K) * 2 ^ 52 ≤ Zpos p * 2 ^ (e + K) * (2 ^ 52 + 1) ∨
     m * 2 ^ (e' + K) ≤ Zpos p * 2 ^ (e + K) + 2 ^ (K - 1074)).
Proof.
  intros HK He. destruct (round_aux_shape p e) as (k1 & k2 & c & Hk1 & Hk2 & Hc & Hc0 & ->).
  pose proof (digits_bounds p) as [Hd _]. set (d := Zpos (digits2_pos p)) in *. unfold fexp, emin in Hk1.
  assert (0 ≤ k1) as Hk1' by lia. pose proof (Z.pow_pos_nonneg 2 k1 ltac:(lia) Hk1') as Hp1.
  assert (0 ≤ Zpos p / 2 ^ k1) as Hq by (apply Z.div_pos; lia).
  exists ((Zpos p / 2 ^ k1 + c) / 2 ^ k2), (e + k1 + k2). split_and!; [done|apply Z.div_pos; lia|lia|].
  pose proof (Z.pow_pos_nonneg 2 (e + K) ltac:(lia) He) as HpK.
  assert ((Zpos p / 2 ^ k1 + c) / 2 ^ k2 * 2 ^ (e + k1 + k2 + K) ≤ Zpos p * 2 ^ (e + K) + c * 2 ^ (k1 + (e + K))) as Hb.
  { replace (e + k1 + k2 + K) with (k2 + (k1 + (e + K))) by lia. rewrite !Z.pow_add_r by lia.
    pose proof (div_pow_le (Zpos p / 2 ^ k1 + c) k2 Hk2) as H1. pose proof (div_pow_le (Zpos p) k1 Hk1') as H2.
    apply (Z.mul_le_mono_nonneg_r _ _ (2 ^ k1 * 2 ^ (e + K))) in H1; [|apply Z.mul_nonneg_nonneg; lia].
    apply (Z.mul_le_mono_nonneg_r _ _ (2 ^ (e + K))) in H2; [|lia]. lia. }
  destruct (Z.eq_dec k1 0) as [H0|H0].
  { rewrite (Hc0 H0) in *. left. lia. }
  assert (c * 2 ^ (k1 + (e + K)) ≤ 2 ^ (k1 + (e + K))) as Hc'.
  { pose proof (Z.pow_pos_nonneg 2 (k1 + (e + K)) ltac:(lia) ltac:(lia)). destruct (Z.eq_dec c 0) as [->|]; [lia|].
    assert (c = 1) as -> by lia. lia. }
  destruct (Z.le_gt_cases (d - 53) (-1074 - e)) as [Hle|Hgt].
  - right. replace (K - 1074) with (k1 + (e + K)) by lia. lia.
  - left. assert (k1 = d - 53) as -> by lia. rewrite (Z.pow_add_r 2 (d - 53) (e + K)) in Hc', Hb by lia.
    assert (2 ^ (d - 53) * 2 ^ 52 ≤ Zpos p) as Hd'.
    { rewrite <-Z.pow_add_r by lia. by replace (d - 53 + 52) with (d - 1) by lia. }
    apply (Z.mul_le_mono_nonneg_r _ _ (2 ^ (e + K))) in Hd'; [|lia].
    apply (Z.le_trans _ ((Zpos p * 2 ^ (e + K) + 2 ^ (d - 53) * 2 ^ (e + K)) * 2 ^ 52)); [|lia].
    apply Z.mul_le_mono_nonneg_r; lia.
Qed.

Lemma shl_align_neg p e' : e' < 0 → shl_align p 0 e' = (Z.to_pos (Zpos p * 2 ^ (- e')), e').
Proof.
  intros He. unfold shl_align. rewrite Z.sub_0_r. destruct e' as [|q|q]; try lia. f_equal.
  apply Pos2Z.inj. rewrite Z2Pos.id by lia. rewrite Pos2Z.opp_neg. clear He.
  induction q as [|q IH] using Pos.peano_ind; [simpl; lia|].
  rewrite Pos.iter_succ, Pos2Z.inj_xO, IH, Pos2Z.inj_succ, Z.pow_succ_r by lia. lia.
Qed.

(** Converting a budget to a float, to within one part in [2 ^ 52]. *)
Lemma float64_bound K b :
  1126 ≤ K → 0 < b < 2 ^ 63 →
  ∃ m e, float64 b = float_of m e ∧ 0 ≤ m ∧ -52 ≤ e ∧ (0 < m → e ≤ 64) ∧
    m * 2 ^ (e + K) * 2 ^ 52 ≤ b * 2 ^ K * (2 ^ 52 + 1).
Proof.
  intros HK [Hb0 Hb]. destruct b as [|p|p]; [lia| |lia]. unfold float64. cbn [binary_normalize]. unfold binary_round.
  pose proof (Pos2Z.is_pos (digits2_pos p)) as Hd.
  assert (∃ mz ez, shl_align p 0 (fexp 53 1024 (Zpos (digits2_pos p) + 0)) = (mz, ez) ∧ -52 ≤ ez ∧
            Zpos mz * 2 ^ (ez + K) = Zpos p * 2 ^ K) as (mz & ez & -> & Hez & Hv).
  { unfold fexp, emin. set (e' := Z.max _ _). destruct (Z.lt_ge_cases e' 0) as [Hn|Hn].
    - rewrite shl_align_neg by done. eexists _, _. split; [done|]. split; [lia|]. rewrite Z2Pos.id by lia.
      rewrite <-Z.mul_assoc, <-Z.pow_add_r by lia. do 2 f_equal. lia.
    - exists p, 0. split; [|split; [lia|done]]. unfold shl_align. rewrite Z.sub_0_r. by destruct e'. }
  destruct (round_aux_bound K mz ez) as (m & e' & Heq & Hm & He & Hbound); [lia..|]. rewrite Hv in Hbound.
  pose proof (Z.pow_pos_nonneg 2 K ltac:(lia) ltac:(lia)) as HpK.
  assert (m * 2 ^ (e' + K) * 2 ^ 52 ≤ Zpos p * 2 ^ K * (2 ^ 52 + 1)) as Hfin.
  { destruct Hbound as [|Hb2]; [done|].
    assert (2 ^ (K - 1074) * 2 ^ 52 ≤ 2 ^ K) by (rewrite <-Z.pow_add_r by lia; apply Z.pow_le_mono_r; lia).
    assert (1 * 2 ^ K ≤ Zpos p * 2 ^ K) by (apply Z.mul_le_mono_nonneg_r; lia). lia. }
  exists m, e'. split_and!; [done..|lia| |done]. intros Hm0.
  assert (2 ^ (e' + K) ≤ 2 ^ (64 + K)) as Hpow; [|apply Z.pow_le_mono_r_iff in Hpow; lia].
  assert (1 * 2 ^ (e' + K) ≤ m * 2 ^ (e' + K)) by (apply Z.mul_le_mono_nonneg_r; lia).
  assert (Zpos p * 2 ^ K ≤ 2 ^ 63 * 2 ^ K) by (apply Z.mul_le_mono_nonneg_r; lia).
  rewrite (Z.pow_add_r 2 64 K) by lia. lia.
Qed.

(** A headroom as [New] keeps it: a binary64 number between zero and
    [maxHeadroom]. *)
Definition kept_headroom (h : spec_float) : Prop :=
  valid_binary 53 1024 h = true ∧ h ≠ S754_nan ∧ SFltb maxHeadroom h = false ∧ SFltb h (S754_zero false) = false.

Lemma bounded_finite m e : bounded 53 1024 m e = true → -1074 ≤ e ∧ Zpos m < 2 ^ 53.
Proof.
  intros [H _]%andb_true_iff. unfold canonical_mantissa, fexp, emin in H. apply Z.eqb_eq in H.
  split; [lia|]. pose proof (digits_bounds m) as [_ Hd]. eapply Z.lt_le_trans; [exact Hd|].
  apply Z.pow_le_mono_r; lia.
Qed.

(** A kept headroom is at most one half. *)
Lemma kept_at_most_half K m e :
  1126 ≤ K → kept_headroom (S754_finite false m e) → -1074 ≤ e ∧ Zpos m * 2 ^ (e + K) * 2 ≤ 2 ^ K.
Proof.
  intros HK (Hv & _ & Hmax & _). cbn [valid_binary] in Hv. apply bounded_finite in Hv as [He Hm]. split; [done|].
  assert (∀ x, x ≤ 2 ^ 52 → x * 2 ^ (K - 53) * 2 ≤ 2 ^ K) as Hhalf.
  { intros x Hx. replace K with (52 + ((K - 53) + 1)) at 2 by lia. rewrite (Z.pow_add_r 2 52), Z.pow_add_r by lia.
    rewrite <-Z.mul_assoc. apply Z.mul_le_mono_nonneg_r; [|done].
    apply Z.mul_nonneg_nonneg; [apply Z.pow_nonneg; lia|done]. }
  unfold maxHeadroom in Hmax. assert (Zpos 4503599627370496 = 2 ^ 52) as Hq by reflexivity.
  revert Hq Hmax. generalize 4503599627370496%positive. intros q Hq Hmax. unfold SFltb, SFcompare in Hmax. destruct (Z.compare_spec (-53) e) as [<-|Hlt|Hgt]; [|done|].
  - replace (-53 + K) with (K - 53) by lia. apply Hhalf.
    rewrite Pos.compare_cont_spec in Hmax. destruct (Pos.compare_spec q m) as [Hc|Hc|Hc]; [|done|]; lia.
  - assert (2 ^ (e + K) ≤ 2 ^ (K - 54)) as Hpow by (apply Z.pow_le_mono_r; lia).
    assert (2 ^ 53 * 2 ^ (K - 54) * 2 ≤ 2 ^ K) as Hfin.
    { rewrite <-Z.pow_add_r by lia. change 2 with (2 ^ 1) at 2. rewrite <-Z.pow_add_r by lia. apply Z.pow_le_mono_r; lia. }
    assert (Zpos m * 2 ^ (e + K) ≤ 2 ^ 53 * 2 ^ (K - 54)); [|lia].
    apply Z.mul_le_mono_nonneg; lia.
Qed.

(** Scaled values below a bound truncate below it. *)
Lemma trunc_bound K m e b :
  0 ≤ m → 0 ≤ e + K → 0 ≤ K → 0 < b < 2 ^ 63 → m * 2 ^ (e + K) ≤ b * 2 ^ K →
  ∃ z, float_trunc (float_of m e) = Some z ∧ 0 ≤ z ≤ b.
Proof.
  intros Hm HeK HK Hb Hv. destruct m as [|p|p]; [exists 0; split; [done|lia]| |lia]. cbn [float_of].
  pose proof (Z.pow_pos_nonneg 2 K ltac:(lia) HK) as HpK.
  assert (0 ≤ Z.shiftl (Zpos p) e ≤ b) as Hz.
  { split; [by apply Z.shiftl_nonneg|]. destruct (Z.le_gt_cases 0 e) as [He|He].
    - rewrite Z.shiftl_mul_pow2 by done. rewrite Z.pow_add_r, Z.mul_assoc in Hv by done.
      by apply Z.mul_le_mono_pos_r in Hv.
    - rewrite Z.shiftl_div_pow2 by lia. apply Z.div_le_upper_bound; [apply Z.pow_pos_nonneg; lia|].
      replace K with (- e + (e + K)) in Hv at 2 by lia. rewrite (Z.pow_add_r 2 (- e)), Z.mul_assoc in Hv by lia.
      apply Z.mul_le_mono_pos_r in Hv; [lia|]. apply Z.pow_pos_nonneg; lia. }
  assert (e <= 971) as He.
  { destruct (Z.le_gt_cases e 971) as [|Hgt]; [done|exfalso]. rewrite Z.shiftl_mul_pow2 in Hz by lia.
    assert (2 ^ 63 ≤ 2 ^ e) by (apply Z.pow_le_mono_r; lia).
    assert (1 * 2 ^ e ≤ Zpos p * 2 ^ e) by (apply Z.mul_le_mono_nonneg_r; lia). lia. }
  rewrite (proj2 (Z.leb_le e 971)) by done. cbn [float_trunc]. eexists. split; [|exact Hz].
  rewrite (proj2 (Z.leb_le _ _)), (proj2 (Z.ltb_lt _ _)) by lia. done.
Qed.

Lemma headroom_reserve b h :
  0 < b < 2 ^ 63 → kept_headroom h →
  ∃ z, float_trunc (mul_float64 (float64 b) h) = Some z ∧ 0 ≤ z ≤ b.
Proof.
  intros Hb Hh. assert (∃ K, 1126 ≤ K) as [K HK] by (by exists 1126).
  destruct (float64_bound K b HK Hb) as (m & e & -> & Hm & He & Hm0 & Hv).
  assert (∀ s, ∃ z, float_trunc (S754_zero s) = Some z ∧ 0 ≤ z ≤ b) as Hz by (intros s; exists 0; split; [done|lia]).
  destruct m as [|p|p]; [| |lia].
  { destruct h as [s|s| |s mh eh]; [apply Hz| |by destruct Hh as (_ & ? & _)|apply Hz].
    destruct Hh as (_ & _ & Hmax & Hneg). by destruct s. }
  cbn [float_of]. rewrite (proj2 (Z.leb_le e 971)) by (specialize (Hm0 eq_refl); lia).
  destruct h as [s|s| |s mh eh].
  { apply Hz. } { destruct Hh as (_ & _ & Hmax & Hneg). by destruct s. } { by destruct Hh as (_ & ? & _). }
  destruct s; [by destruct Hh as (_ & _ & _ & ?)|].
  pose proof (kept_at_most_half K mh eh HK Hh) as [Heh Hhalf].
  unfold mul_float64. cbn [SFmul xorb].
  destruct (round_aux_bound (K + K) (p * mh) (e + eh)) as (m2 & e2 & -> & Hm2 & He2 & Hr); [lia..|].
  apply (trunc_bound (K + K)); [done|lia..|done|].
  replace (e + eh + (K + K)) with ((e + K) + (eh + K)) in Hr by lia.
  rewrite Pos2Z.inj_mul, (Z.pow_add_r 2 (e + K)), (Z.pow_add_r 2 K) in * by lia.
  assert (2 ^ (K + K - 1074) * 2 ^ 2 ≤ 2 ^ K * 2 ^ K) as Htiny.
  { rewrite <-!Z.pow_add_r by lia. apply Z.pow_le_mono_r; lia. }
  pose proof (Z.pow_pos_nonneg 2 K ltac:(lia) ltac:(lia)) as HpK.
  set (x := Zpos p * 2 ^ (e + K)) in *. set (y := Zpos mh * 2 ^ (eh + K)) in *.
  assert (0 ≤ x) by (apply Z.mul_nonneg_nonneg; [lia|apply Z.pow_nonneg; lia]).
  assert (0 ≤ y) by (apply Z.mul_nonneg_nonneg; [lia|apply Z.pow_nonneg; lia]).
  assert ((x * 2 ^ 52) * (y * 2) ≤ (b * 2 ^ K * (2 ^ 52 + 1)) * 2 ^ K) as Hxy by (apply Z.mul_le_mono_nonneg; lia).
  replace (Zpos p * Zpos mh * (2 ^ (e + K) * 2 ^ (eh + K))) with (x * y) in Hr by (unfold x, y; lia).
  assert (1 * (2 ^ K * 2 ^ K) ≤ b * (2 ^ K * 2 ^ K)) as Hb1 by (apply Z.mul_le_mono_nonneg_r; lia).
  destruct Hr as [Hr|Hr]; lia.
Qed.

(** Evicting down to its target frees at least the breach and at most
    everything. *)
Lemma target_bounds e unrepresentable b :
  0 < b < 2 ^ 63 → kept_headroom (e_headroom e) → 0 ≤ target_of e unrepresentable b ≤ b.
Proof.
  intros Hb Hh. destruct (headroom_reserve b _ Hb Hh) as (z & Hz & ?). unfold target_of, float_to_int64. rewrite Hz.
  rewrite int64_small by (unfold int64_range; lia). lia.
Qed.

Lemma New_headroom m bl ev g pe h ps mo e :
  valid_binary 53 1024 h = true → h ≠ S754_nan → New m bl ev g pe h ps mo = Ok e → kept_headroom (e_headroom e).
Proof.
  intros Hv Hn. unfold New. destruct (negb m), (negb bl), (g <? 0); try done. destruct (SFltb maxHeadroom h) eqn:Hmax; [done|].
  destruct (existsb _ _); [done|]. intros [= <-]. cbn [e_headroom].
  destruct (SFltb h (S754_zero false)) eqn:Hneg; [by split_and!|]. destruct (SFeqb h (S754_zero false)); by split_and!.
Qed.
