(* ===== verification/EvictSpec.v ===== *)
(** * Properties of cache eviction *)
From Stdlib Require Import SpecFloat.
From S2P Require Import Prelude RepoName Meta Digest Memory MemoryInv Evict Headroom.

(** ** Rows and their order *)
#[export] Instance CachedItem_eq_dec : EqDecision CachedItem.
Proof. solve_decision. Defined.

Lemma elem_of_in_scope {A} entity (m : gmap string (gmap string A)) r d a :
  (r, (d, a)) ∈ in_scope entity m ↔ inCacheScope r entity = true ∧ get2 m r d = Some a.
Proof.
  unfold in_scope, get2, inner. rewrite list_elem_of_bind. split.
  - intros ([r' row] & Hin & [Hs Hrow]%list_elem_of_filter). simpl in *.
    apply list_elem_of_fmap in Hin as ([d' a'] & [= -> -> ->] & Hda).
    apply elem_of_map_to_list in Hda, Hrow. by rewrite Hrow.
  - intros [Hs Hg]. destruct (m !! r) as [row|] eqn:Hr; [|done].
    exists (r, row). split; [apply list_elem_of_fmap_2; by apply elem_of_map_to_list|].
    apply list_elem_of_filter. split; [done|]. by apply elem_of_map_to_list.
Qed.

Lemma NoDup_bind_keys {A} (l : list (string * gmap string A)) :
  NoDup (l.*1) → NoDup (l ≫= λ p, pair p.1 <$> map_to_list p.2).
Proof.
  induction l as [|[r row] l IH]; intros Hnd; [constructor|].
  apply NoDup_cons in Hnd as [Hr Hnd]. csimpl. apply NoDup_app. split_and!; [| |by apply IH].
  - apply NoDup_fmap_2; [|apply NoDup_map_to_list]. by intros ?? [= ->].
  - intros [r' [d a]] Hin Hl. apply list_elem_of_fmap in Hin as ([d' a'] & [= -> _ _] & _).
    apply list_elem_of_bind in Hl as ([r2 row2] & Hin & Hp). apply list_elem_of_fmap in Hin as (? & [= -> _] & _).
    apply Hr. by apply (list_elem_of_fmap_2 fst _ (r2, row2)).
Qed.

Lemma NoDup_in_scope {A} entity (m : gmap string (gmap string A)) : NoDup (in_scope entity m).
Proof. apply NoDup_bind_keys, NoDup_fmap_filter, NoDup_fst_map_to_list. Qed.

Definition item_of_manifest (p : string * (string * CachedManifest)) : CachedItem :=
  mkCachedItem p.1 p.2.1 CachedManifestKind (cm_size p.2.2) (cm_lastAccessAt p.2.2).
Definition item_of_blob (p : string * (string * CachedBlob)) : CachedItem :=
  mkCachedItem p.1 p.2.1 CachedBlobKind (cb_size p.2.2) (cb_lastAccessAt p.2.2).

(** The row an item lists. *)
Definition lists_row (s : Store) (i : CachedItem) : Prop :=
  (∃ m, get2 (cachedManifests s) (ci_repository i) (ci_digest i) = Some m ∧
     i = mkCachedItem (ci_repository i) (ci_digest i) CachedManifestKind (cm_size m) (cm_lastAccessAt m)) ∨
  (∃ b, get2 (cachedBlobs s) (ci_repository i) (ci_digest i) = Some b ∧
     i = mkCachedItem (ci_repository i) (ci_digest i) CachedBlobKind (cb_size b) (cb_lastAccessAt b)).

Lemma elem_of_cached_items entity s i :
  i ∈ cached_items entity s ↔ inCacheScope (ci_repository i) entity = true ∧ lists_row s i.
Proof.
  unfold cached_items, lists_row. rewrite elem_of_app, !list_elem_of_fmap. split.
  - intros [([r [d a]] & -> & Hin%elem_of_in_scope)|([r [d a]] & -> & Hin%elem_of_in_scope)]; simpl in *; naive_solver.
  - intros [Hs [(m & Hg & He)|(b & Hg & He)]]; [left|right].
    + exists (ci_repository i, (ci_digest i, m)). split; [by rewrite He|]. by apply elem_of_in_scope.
    + exists (ci_repository i, (ci_digest i, b)). split; [by rewrite He|]. by apply elem_of_in_scope.
Qed.

Definition row_id (i : CachedItem) : string * string * string := (ci_repository i, ci_digest i, ci_kind i).

Lemma lists_row_inj s i j : lists_row s i → lists_row s j → row_id i = row_id j → i = j.
Proof.
  destruct i as [r1 d1 k1 z1 t1], j as [r2 d2 k2 z2 t2]. unfold lists_row, row_id. simpl.
  intros [(? & H1 & [= -> -> ->])|(? & H1 & [= -> -> ->])] [(? & H2 & [= -> -> ->])|(? & H2 & [= -> -> ->])] [= -> ->];
    congruence.
Qed.

Lemma NoDup_cached_items entity s : NoDup (cached_items entity s).
Proof.
  unfold cached_items. apply NoDup_app. split_and!.
  - apply NoDup_fmap_2_strong; [|apply NoDup_in_scope].
    intros [r1 [d1 a1]] [r2 [d2 a2]] [_ H1]%elem_of_in_scope [_ H2]%elem_of_in_scope [= -> -> _ _]. congruence.
  - intros i Hi Hj. apply list_elem_of_fmap in Hi as (? & -> & _), Hj as (? & [=] & _).
  - apply NoDup_fmap_2_strong; [|apply NoDup_in_scope].
    intros [r1 [d1 a1]] [r2 [d2 a2]] [_ H1]%elem_of_in_scope [_ H2]%elem_of_in_scope [= -> -> _ _]. congruence.
Qed.

Lemma NoDup_lru_keys entity s : NoDup (lru_key <$> cached_items entity s).
Proof.
  apply NoDup_fmap_2_strong; [|apply NoDup_cached_items]. intros i j [_ Hi]%elem_of_cached_items [_ Hj]%elem_of_cached_items Hk.
  apply (lists_row_inj s); [done..|]. unfold lru_key in Hk. unfold row_id. congruence.
Qed.

(** Lexicographic order of pairs. *)
Section lex.
Context {A B : Type} `{!EqDecision A} (R : relation A) (S : relation B).

Definition lex (p q : A * B) : Prop := if decide (p.1 = q.1) then S p.2 q.2 else R p.1 q.1.

Lemma lex_total `{!Total R, !Total S} : Total lex.
Proof.
  intros [a x] [b y]. unfold lex. simpl. destruct (decide (a = b)) as [->|].
  - rewrite !decide_True by done. apply (total S).
  - rewrite !decide_False by done. apply (total R).
Qed.

Lemma lex_antisymm `{!AntiSymm (=) R, !AntiSymm (=) S} : AntiSymm (=) lex.
Proof.
  intros [a x] [b y]. unfold lex. simpl. destruct (decide (a = b)) as [->|Hne].
  - rewrite !decide_True by done. intros ??. f_equal. by apply (anti_symm S).
  - rewrite decide_False by done. intros ??. destruct Hne. by apply (anti_symm R).
Qed.

Lemma lex_trans `{!AntiSymm (=) R, !Transitive R, !Transitive S} : Transitive lex.
Proof.
  intros [a x] [b y] [c z]. unfold lex. simpl.
  destruct (decide (a = b)) as [->|Hab], (decide (b = c)) as [->|Hbc]; try done; [by apply transitivity| |].
  - by rewrite decide_False.
  - intros H1 H2. destruct (decide (a = c)) as [->|]; [|by trans b]. destruct Hab. by apply (anti_symm R).
Qed.
End lex.

Definition lru_lex : relation (Z * (string * (string * string))) := lex Z.le (lex String.le (lex String.le String.le)).

Lemma lru_before_lex t1 r1 d1 k1 t2 r2 d2 k2 :
  lru_before (t1, r1, d1, k1) (t2, r2, d2, k2) ↔ lru_lex (t1, (r1, (d1, k1))) (t2, (r2, (d2, k2))).
Proof.
  unfold lru_before, lru_lex, lex. simpl. destruct (decide (t1 = t2)); [done|]. lia.
Qed.

#[export] Instance lru_before_antisymm : AntiSymm (=) lru_before.
Proof.
  assert (AntiSymm (=) lru_lex) as Ha by (repeat apply lex_antisymm; apply _).
  intros [[[t1 r1] d1] k1] [[[t2 r2] d2] k2]. rewrite !lru_before_lex. intros H1 H2.
  pose proof (Ha _ _ H1 H2). congruence.
Qed.

#[export] Instance lru_before_total : Total lru_before.
Proof.
  assert (Total lru_lex) as Ha by (repeat apply lex_total; apply _).
  intros [[[t1 r1] d1] k1] [[[t2 r2] d2] k2]. rewrite !lru_before_lex. apply Ha.
Qed.

#[export] Instance lru_before_trans : Transitive lru_before.
Proof.
  assert (Transitive lru_lex) as Ha by (repeat first [apply lex_trans | apply lex_antisymm | apply _]).
  intros [[[t1 r1] d1] k1] [[[t2 r2] d2] k2] [[[t3 r3] d3] k3]. rewrite !lru_before_lex. apply Ha.
Qed.

(** The rows of a scope, coldest first: what [ListEvictable] pages through. *)
Definition lru (entity : string) (s : Store) : list CachedItem := sort_on lru_before lru_key (cached_items entity s).

Lemma lru_eq entity s l :
  l ≡ₚ cached_items entity s → StronglySorted (on_key lru_before lru_key) l → lru entity s = l.
Proof.
  intros Hp Hs. apply (StronglySorted_unique_strong (on_key lru_before lru_key)); [|apply sort_on_sorted; apply _|done|].
  - intros x y Hx Hy H1 H2. unfold lru in Hx. rewrite sort_on_elem in Hx. rewrite Hp in Hy.
    apply (nodup_key_inj lru_key (cached_items entity s)); [apply NoDup_lru_keys|done..|]. by apply (anti_symm lru_before).
  - unfold lru. by rewrite sort_on_perm.
Qed.

(** ** Removing a row *)
Definition remove_row (i : CachedItem) (s : Store) : Store :=
  if String.eqb (ci_kind i) CachedManifestKind
  then set_cachedManifests (delete2 (ci_repository i) (ci_digest i) (cachedManifests s))
         (set_cachedRefs (delete2 (ci_repository i) (ci_digest i) (cachedRefs s)) s)
  else set_cachedBlobs (delete2 (ci_repository i) (ci_digest i) (cachedBlobs s)) s.

Lemma lists_row_remove s i j : lists_row s i → lists_row (remove_row i s) j ↔ lists_row s j ∧ j ≠ i.
Proof.
  intros Hi. assert (lists_row (remove_row i s) j ↔ lists_row s j ∧ row_id j ≠ row_id i) as ->.
  2: { split; intros [Hj Hne]; (split; [done|]); [by intros ->|]. intros Heq. by apply Hne, (lists_row_inj s). }
  unfold row_id. destruct i as [r1 d1 k1 z1 t1], j as [r2 d2 k2 z2 t2].
  unfold lists_row, remove_row in *. simpl in *.
  destruct Hi as [(m & Hm & [= -> -> ->])|(b & Hb & [= -> -> ->])]; simpl; rewrite get2_delete2; split.
  - intros [(m' & Hm' & [= -> -> ->])|(b' & Hb' & [= -> -> ->])]; [|naive_solver]. case_decide; [done|].
    split; [naive_solver|]. intros [= -> ->]. naive_solver.
  - intros [[(m' & Hm' & [= -> -> ->])|(b' & Hb' & [= -> -> ->])] Hne]; [left; exists m'|naive_solver].
    rewrite decide_False by (intros [-> ->]; done). done.
  - intros [(m' & Hm' & [= -> -> ->])|(b' & Hb' & [= -> -> ->])]; [naive_solver|]. case_decide; [done|].
    split; [naive_solver|]. intros [= -> ->]. naive_solver.
  - intros [[(m' & Hm' & [= -> -> ->])|(b' & Hb' & [= -> -> ->])] Hne]; [naive_solver|right; exists b'].
    rewrite decide_False by (intros [-> ->]; done). done.
Qed.

Lemma cached_items_remove entity s i :
  i ∈ cached_items entity s → cached_items entity s ≡ₚ i :: cached_items entity (remove_row i s).
Proof.
  intros Hi. pose proof Hi as [Hsc Hrow]%elem_of_cached_items.
  assert (∀ j, j ∈ cached_items entity (remove_row i s) ↔ j ∈ cached_items entity s ∧ j ≠ i) as Hmem.
  { intros j. rewrite !elem_of_cached_items, (lists_row_remove s i j Hrow). tauto. }
  apply NoDup_Permutation; [apply NoDup_cached_items|apply NoDup_cons; split; [|apply NoDup_cached_items]|].
  - rewrite Hmem. tauto.
  - intros j. rewrite elem_of_cons, Hmem. destruct (decide (j = i)) as [->|]; tauto.
Qed.

Lemma cached_items_other entity s i :
  lists_row s i → inCacheScope (ci_repository i) entity = false →
  cached_items entity (remove_row i s) ≡ₚ cached_items entity s.
Proof.
  intros Hi Hs. apply NoDup_Permutation; [apply NoDup_cached_items..|]. intros j.
  rewrite !elem_of_cached_items, (lists_row_remove s i j Hi). split; [tauto|]. intros [Hj Hr].
  split_and!; [done..|]. intros ->. congruence.
Qed.

Lemma lru_remove entity s i rest : lru entity s = i :: rest → lru entity (remove_row i s) = rest.
Proof.
  intros Hl. assert (i ∈ cached_items entity s) as Hi.
  { rewrite <-(sort_on_elem lru_before lru_key). fold (lru entity s). rewrite Hl. by left. }
  pose proof (sort_on_sorted lru_before lru_key (cached_items entity s)) as Hs. fold (lru entity s) in Hs.
  rewrite Hl in Hs. apply StronglySorted_inv in Hs as [Hs _].
  apply lru_eq; [|done]. apply (Permutation_cons_inv (a:=i)). rewrite <-Hl, <-cached_items_remove by done.
  apply sort_on_perm.
Qed.

(** ** Sizes *)
Definition sumZ (l : list Z) : Z := foldr Z.add 0%Z l.
Definition total (l : list CachedItem) : Z := sumZ (ci_size <$> l).

Lemma sumZ_perm l1 l2 : l1 ≡ₚ l2 → sumZ l1 = sumZ l2.
Proof. unfold sumZ. induction 1; simpl; lia. Qed.

Lemma total_perm l1 l2 : l1 ≡ₚ l2 → total l1 = total l2.
Proof. intros Hp. apply sumZ_perm. by rewrite Hp. Qed.

Lemma sumZ_app l1 l2 : sumZ (l1 ++ l2) = (sumZ l1 + sumZ l2)%Z.
Proof. induction l1; simpl; lia. Qed.

Lemma int64_add_l a b : int64 (int64 a + b) = int64 (a + b).
Proof.
  unfold int64. f_equal. replace ((a + 2 ^ 63) mod 2 ^ 64 - 2 ^ 63 + b + 2 ^ 63)%Z with ((a + 2 ^ 63) mod 2 ^ 64 + b)%Z by lia.
  rewrite Zplus_mod_idemp_l. f_equal. lia.
Qed.

Lemma sum64_acc acc l : foldl add64 (int64 acc) l = int64 (acc + sumZ l).
Proof.
  revert acc. induction l as [|x l IH]; intros acc; simpl; [by rewrite Z.add_0_r|].
  unfold add64 at 2. rewrite int64_add_l, IH. f_equal. lia.
Qed.

Lemma sum64_sumZ l : sum64 l = int64 (sumZ l).
Proof. unfold sum64. change 0%Z with (int64 0) at 1. by rewrite sum64_acc. Qed.

(** The bytes [CachedUsage] reports are those of the rows [ListEvictable] lists. *)
Lemma CachedUsage_bytes entity s :
  closed s = false →
  ∃ u, CachedUsage false entity s = Ok u ∧ cu_bytes u = int64 (total (cached_items entity s)).
Proof.
  intros Hc. unfold CachedUsage, enter. rewrite Hc. simpl. eexists. split; [done|]. simpl.
  rewrite !sum64_sumZ. unfold add64. rewrite int64_add_l, Z.add_comm, int64_add_l. f_equal.
  unfold total, cached_items. rewrite fmap_app, sumZ_app, <-!list_fmap_compose, Z.add_comm. done.
Qed.

(** ** A pass nothing interferes with

    No other user of the stores acts, the context stays alive and the metadata
    store answers; deleting bytes may still fail. *)
Section quiet.
Context (e : Evictor) (env : nat → CacheWorld → CacheWorld) (cancelled : nat → bool)
  (store_fails : nat → option MetaError) (delete_fails : nat → string → bool) (unrepresentable : spec_float → Z).
Hypothesis Henv : ∀ n w, env n w = w.
Hypothesis Hcancelled : ∀ n, cancelled n = false.
Hypothesis Hstore : ∀ n, store_fails n = None.

Local Notation evict_item := (evictItem e env cancelled store_fails delete_fails).
Local Notation page := (evict_page e env cancelled store_fails delete_fails).
Local Notation loop := (evict_loop e env cancelled store_fails delete_fails).
Local Notation scope := (sweepScope e env cancelled store_fails delete_fails unrepresentable).

Lemma quiet_call {A} (op : Store → result MetaError (Store * A)) n w :
  call env store_fails op (n, w) =
  match op (cw_meta w) with
  | Ok (s, a) => (Ok a, (S n, mkCacheWorld s (cw_bytes w) (cw_events w)))
  | Err err => (Err err, (S n, w))
  end.
Proof. unfold call. by rewrite Henv, Hstore. Qed.

Lemma publish_meta repo d z reason st : cw_meta (publishEvicted e repo d z reason st).2 = cw_meta st.2.
Proof. unfold publishEvicted. by destruct (e_events e). Qed.

Lemma quiet_reclaim_meta d st : cw_meta (reclaim env cancelled delete_fails d st).2 = cw_meta st.2.
Proof.
  unfold reclaim. destruct (NewCachedRef d); [|done]. destruct st as [n w]. unfold delete_bytes. rewrite Henv.
  by destruct (_ || _).
Qed.

Lemma quiet_item item r n w :
  closed (cw_meta w) = false → lists_row (cw_meta w) item →
  ∃ r' n' w', evict_item item r (n, w) = (true, r', (n', w')) ∧ cw_meta w' = remove_row item (cw_meta w) ∧
    er_failed r' = er_failed r ∧ er_scopes r' = er_scopes r.
Proof.
  intros Hc Hrow. unfold evictItem, remove_row. destruct Hrow as [(m & Hm & Hi)|(b & Hb & Hi)]; rewrite Hi; simpl.
  - unfold evictManifest. rewrite quiet_call, Hcancelled. unfold writing, DeleteCachedManifest, enter. simpl.
    rewrite Hc, Hm. simpl. destruct (publishEvicted _ _ _ _ _ _) as [n' w'] eqn:Hp.
    exists (mkResult (add64 (er_manifests r) 1) (er_blobs r) (add64 (er_bytes r) (cm_size m)) (er_shared r)
              (er_skipped r) (er_failed r) (er_scopes r)), n', w'.
    split_and!; try done. pose proof (f_equal (λ st, cw_meta st.2) Hp) as Hw. cbn beta in Hw. by rewrite publish_meta in Hw.
  - unfold evictBlob. rewrite quiet_call, Hcancelled. unfold DeleteCachedBlob, enter. simpl. rewrite Hc, Hb. simpl.
    destruct (publishEvicted _ _ _ _ _ _) as [n' w'] eqn:Hp. eexists _, n', w'.
    split_and!; try done. pose proof (f_equal (λ st, cw_meta st.2) Hp) as Hw. cbn beta in Hw. rewrite publish_meta in Hw.
    simpl in Hw. rewrite <-Hw. destruct (_ <? _)%Z; [done|]. by rewrite quiet_reclaim_meta.
Qed.

Lemma lru_head_row entity s i rest : lru entity s = i :: rest → lists_row s i.
Proof.
  intros Hl. apply (elem_of_cached_items entity). rewrite <-(sort_on_elem lru_before lru_key).
  fold (lru entity s). rewrite Hl. by left.
Qed.

Lemma closed_remove_row i s : closed (remove_row i s) = closed s.
Proof. unfold remove_row. by destruct (String.eqb _ _). Qed.

(** Rows with sizes a budget counts, in sums that fit. *)
Definition sized (l : list CachedItem) : Prop := Forall (λ i, 0 < ci_size i)%Z l ∧ (total l < 2 ^ 63)%Z.

Lemma sized_tail i l : sized (i :: l) → sized l ∧ (0 < ci_size i)%Z ∧ int64 (total (i :: l) - ci_size i) = total l.
Proof.
  intros [Hp Ht]. apply Forall_cons in Hp as [Hi Hp]. unfold total in *. csimpl in *.
  assert (0 ≤ sumZ (ci_size <$> l))%Z.
  { clear -Hp. induction Hp; csimpl; lia. }
  split_and!; [split; [done|]; unfold total; lia|done|]. rewrite int64_small by (unfold int64_range; lia). lia.
Qed.

(** What evicting down to a target takes: the shortest prefix of the coldest
    rows whose removal meets it. *)
Definition shortest_prefix (target : Z) (l : list CachedItem) (k : nat) : Prop :=
  k ≤ length l ∧ ∀ j, j < k → (target < total (drop j l))%Z.

Lemma shortest_prefix_0 target l : shortest_prefix target l 0.
Proof. split; lia. Qed.

Lemma shortest_prefix_S target i l k :
  (target < total (i :: l))%Z → shortest_prefix target l k → shortest_prefix target (i :: l) (S k).
Proof.
  intros Hi [Hk Hj]. split; [simpl; lia|]. intros [|j] Hlt; [done|]. simpl. apply Hj. lia.
Qed.

(** The store with the first [k] rows of [l] removed. *)
Definition remove_rows (l : list CachedItem) (s : Store) : Store := foldl (λ s i, remove_row i s) s l.

Lemma quiet_page entity target items rest r n w :
  closed (cw_meta w) = false → lru entity (cw_meta w) = items ++ rest → sized (items ++ rest) →
  ∃ k r' n' w', page target items (total (items ++ rest)) r (n, w) =
      (total (drop k (items ++ rest)), r', false, (n', w')) ∧
    k ≤ length items ∧ shortest_prefix target (items ++ rest) k ∧
    (k = length items ∨ (total (drop k (items ++ rest)) ≤ target)%Z) ∧
    cw_meta w' = remove_rows (take k items) (cw_meta w) ∧ lru entity (cw_meta w') = drop k (items ++ rest) ∧
    closed (cw_meta w') = false ∧ er_failed r' = er_failed r ∧ er_scopes r' = er_scopes r.
Proof.
  revert r n w. induction items as [|i items IH]; intros r n w Hc Hl Hs.
  { exists 0, r, n, w. split_and!; auto using shortest_prefix_0. }
  simpl page. destruct (Z.leb_spec (total (i :: items ++ rest)) target) as [Hle|Hgt].
  { exists 0, r, n, w. split_and!; auto using shortest_prefix_0; simpl; lia. }
  rewrite Hcancelled. simpl in Hl, Hs. destruct (quiet_item i r n w) as (r1 & n1 & w1 & -> & Hw1 & Hf1 & Hsc1);
    [done|by eapply lru_head_row|]. apply sized_tail in Hs as (Hs & _ & ->). apply lru_remove in Hl.
  destruct (IH r1 n1 w1) as (k & r2 & n2 & w2 & -> & Hk & Hsp & Hend & Hw2 & Hl2 & Hc2 & Hf2 & Hsc2);
    [by rewrite Hw1, closed_remove_row|by rewrite Hw1|done|].
  exists (S k), r2, n2, w2. simpl. split_and!; try done; [lia|by apply shortest_prefix_S|by destruct Hend; [left; lia|right]| |congruence..].
  by rewrite Hw2, Hw1.
Qed.

Lemma remove_rows_app l1 l2 s : remove_rows (l1 ++ l2) s = remove_rows l2 (remove_rows l1 s).
Proof. apply foldl_app. Qed.

Lemma shortest_prefix_add target l k1 k2 :
  shortest_prefix target l k1 → shortest_prefix target (drop k1 l) k2 → shortest_prefix target l (k1 + k2).
Proof.
  intros [Hk1 Hj1] [Hk2 Hj2]. rewrite length_drop in Hk2. split; [lia|]. intros j Hj.
  destruct (decide (j < k1)); [auto|]. specialize (Hj2 (j - k1)). rewrite drop_drop in Hj2.
  replace (k1 + (j - k1)) with j in Hj2 by lia. apply Hj2. lia.
Qed.

Lemma total_drop_lt l k : sized l → 0 < k → k ≤ length l → (total (drop k l) < total l)%Z.
Proof.
  intros [Hp _] Hk Hl. destruct k as [|k]; [lia|]. clear Hk. destruct l as [|i l]; simpl in *; [lia|].
  apply Forall_cons in Hp as [Hi Hp]. unfold total. csimpl. rewrite fmap_drop.
  assert (sumZ (drop k (ci_size <$> l)) ≤ sumZ (ci_size <$> l))%Z; [|lia].
  clear -Hp. revert k. induction Hp as [|x l Hx Hp IH]; intros [|k]; csimpl; try lia. specialize (IH k). lia.
Qed.

Lemma sized_drop l k : sized l → sized (drop k l).
Proof.
  revert l. induction k as [|k IH]; intros [|i l] Hs; try done. simpl. apply IH. by eapply sized_tail.
Qed.

Hypothesis Hpage : (1 ≤ e_pageSize e)%Z.

Lemma quiet_loop fuel entity target r n w :
  closed (cw_meta w) = false → sized (lru entity (cw_meta w)) → length (lru entity (cw_meta w)) < fuel →
  let l := lru entity (cw_meta w) in
  ∃ k r' n' w', loop fuel entity target (total l) r (n, w) = Some (total (drop k l), r', None, (n', w')) ∧
    shortest_prefix target l k ∧ ((total (drop k l) ≤ target)%Z ∨ drop k l = []) ∧
    cw_meta w' = remove_rows (take k l) (cw_meta w) ∧ lru entity (cw_meta w') = drop k l ∧
    closed (cw_meta w') = false ∧ er_failed r' = er_failed r ∧ er_scopes r' = er_scopes r.
Proof.
  revert r n w. induction fuel as [|fuel IH]; intros r n w Hc Hs Hf; [lia|]. intros l. change (length l < S fuel) in Hf. cbn [evict_loop fst].
  destruct (Z.ltb_spec target (total l)) as [Hgt|Hle]; cbn [negb].
  2: { exists 0, r, n, w. split_and!; auto using shortest_prefix_0. }
  rewrite quiet_call, Hcancelled. unfold reading, ListEvictable, enter. rewrite Hc. simpl.
  destruct (Z.leb_spec (e_pageSize e) 0); [lia|]. simpl. fold (lru entity (cw_meta w)). fold l.
  set (p := Z.to_nat (e_pageSize e)). destruct l as [|i0 l0] eqn:Hl.
  { rewrite take_nil. eexists 0, r, _, _. split_and!; auto using shortest_prefix_0. }
  rewrite <-Hl in Hgt, Hf |- *. assert (p ≠ 0) as Hp0 by (unfold p; lia). clearbody p.
  assert (take p l ≠ []) as Hne by (rewrite Hl; by destruct p).
  destruct (quiet_page entity target (take p l) (drop p l) r (S n) (mkCacheWorld (cw_meta w) (cw_bytes w) (cw_events w)))
    as (k & r1 & n1 & w1 & Hpg & Hk & Hsp & Hend & Hw1 & Hl1 & Hc1 & Hf1 & Hsc1); [done|by rewrite take_drop|by rewrite take_drop|].
  rewrite take_drop in *. assert (0 < k) as Hk0.
  { destruct k as [|k]; [|lia]. destruct Hend as [Hend|Hend]; [|rewrite drop_0 in Hend; lia].
    destruct (take p l); [done|simpl in Hend; lia]. }
  assert (k ≤ length l ∧ k ≤ p) as [Hkl Hkp] by (rewrite length_take in Hk; lia).
  destruct (take p l) as [|i1 l1] eqn:Htk; [done|]. rewrite Hpg. rewrite <-Htk in Hw1.
  pose proof (total_drop_lt l k Hs Hk0) as Hlt. destruct (Z.eqb_spec (total (drop k l)) (total l)); [lia|].
  destruct (IH r1 n1 w1) as (k2 & r2 & n2 & w2 & Hrun & Hsp2 & Hend2 & Hw2 & Hl2 & Hc2 & Hf2 & Hsc2);
    [done|rewrite Hl1; by apply sized_drop|rewrite Hl1, length_drop; lia|].
  rewrite Hl1 in *. exists (k + k2), r2, n2, w2. rewrite <-drop_drop.
  split_and!; try done; try congruence; [by apply shortest_prefix_add|].
  rewrite Hw2, Hw1, <-remove_rows_app, <-take_take_drop, take_take, Nat.min_l by lia. done.
Qed.

Lemma lru_perm entity s : lru entity s ≡ₚ cached_items entity s.
Proof. apply sort_on_perm. Qed.

Lemma quiet_usage entity w n :
  closed (cw_meta w) = false → sized (lru entity (cw_meta w)) →
  ∃ u w', call env store_fails (reading (CachedUsage (cancelled n) entity)) (n, w) = (Ok u, (S n, w')) ∧
    cu_bytes u = total (lru entity (cw_meta w)) ∧ cw_meta w' = cw_meta w.
Proof.
  intros Hc [Hp Ht]. rewrite quiet_call, Hcancelled.
  destruct (CachedUsage_bytes entity (cw_meta w) Hc) as (u & Hu & Hb). unfold reading. rewrite Hu. simpl.
  eexists u, _. split_and!; [done| |done]. rewrite Hb, (total_perm _ _ (lru_perm entity (cw_meta w))) in *.
  rewrite int64_small; [done|]. split; [|done].
  assert (0 ≤ total (cached_items entity (cw_meta w)))%Z; [|lia].
  rewrite lru_perm in Hp. unfold total. clear -Hp. induction Hp; csimpl; lia.
Qed.

(** What a pass over one scope does, when the cache has [l] in that scope,
    coldest first, and the pass takes the first [k] of them. *)
Definition scope_outcome (budget target : Z) (l : list CachedItem) (k : nat) : Prop :=
  ((total l ≤ budget)%Z → k = 0) ∧
  ((budget < total l)%Z → shortest_prefix target l k ∧ ((total (drop k l) ≤ target)%Z ∨ drop k l = [])).

Lemma quiet_scope fuel entity budget r n w :
  closed (cw_meta w) = false → sized (lru entity (cw_meta w)) → length (lru entity (cw_meta w)) < fuel →
  (0 < budget)%Z →
  let l := lru entity (cw_meta w) in
  let target := target_of e unrepresentable budget in
  ∃ k r' n' w', scope fuel entity budget r (n, w) = Some (r', None, (n', w')) ∧
    scope_outcome budget target l k ∧
    er_scopes r' = er_scopes r ++ [mkScope entity budget target (total l) (total (drop k l))] ∧
    cw_meta w' = remove_rows (take k l) (cw_meta w) ∧ lru entity (cw_meta w') = drop k l ∧
    closed (cw_meta w') = false ∧ er_failed r' = er_failed r.
Proof.
  intros Hc Hs Hf Hb l target. unfold sweepScope. cbn [fst]. destruct (Z.leb_spec budget 0); [lia|].
  destruct (quiet_usage entity w n Hc Hs) as (u & w1 & -> & Hu & Hw1). rewrite Hu. fold l.
  destruct (Z.leb_spec (total l) budget) as [Hle|Hgt].
  { eexists 0, _, _, _. split; [done|]. cbn [with_scope er_scopes er_failed take drop]. rewrite Hw1.
    split; [by split; [|lia]|]. by rewrite drop_0. }
  destruct (quiet_loop fuel entity target r (S n) w1) as (k & r2 & n2 & w2 & Hrun & Hsp & Hend & Hw2 & Hl2 & Hc2 & Hf2 & Hsc2);
    rewrite Hw1 in *; [done..|]. fold l in Hrun, Hsp, Hend, Hw2, Hl2. fold target. rewrite Hrun. simpl.
  eexists k, _, _, _. split; [done|]. cbn [with_scope er_scopes er_failed]. rewrite Hsc2.
  split; [by split; [lia|]|done].
Qed.
End quiet.

(** ** What removing rows leaves *)
Lemma remove_rows_rows l s i :
  NoDup l → Forall (lists_row s) l → lists_row (remove_rows l s) i ↔ lists_row s i ∧ i ∉ l.
Proof.
  revert s. induction l as [|j l IH]; intros s Hnd Hl; simpl.
  { split; [intros Hi; split; [done|apply not_elem_of_nil]|by intros [? _]]. }
  apply NoDup_cons in Hnd as [Hj Hnd]. apply Forall_cons in Hl as [Hrow Hl].
  rewrite IH; [rewrite lists_row_remove by done; rewrite not_elem_of_cons; tauto|done|].
  apply Forall_forall. intros x Hx. rewrite lists_row_remove by done. split; [by eapply Forall_forall|].
  by intros ->.
Qed.

Lemma take_lru_rows entity s k : NoDup (take k (lru entity s)) ∧ Forall (lists_row s) (take k (lru entity s)).
Proof.
  split.
  - eapply sublist_NoDup; [|apply sublist_take]. rewrite lru_perm. apply NoDup_cached_items.
  - apply Forall_take, Forall_forall. intros i Hi. rewrite lru_perm in Hi. by apply elem_of_cached_items in Hi as [_ ?].
Qed.

(** Only the cached tables differ. *)
Definition only_cached (s s' : Store) : Prop :=
  s' = set_cachedManifests (cachedManifests s') (set_cachedRefs (cachedRefs s') (set_cachedBlobs (cachedBlobs s') s)).

Lemma only_cached_refl s : only_cached s s.
Proof. by destruct s. Qed.

Lemma only_cached_trans s1 s2 s3 : only_cached s1 s2 → only_cached s2 s3 → only_cached s1 s3.
Proof. unfold only_cached. intros H12 H23. rewrite H23, H12. by destruct s1. Qed.

Lemma only_cached_remove i s : only_cached s (remove_row i s).
Proof. unfold only_cached, remove_row. destruct (String.eqb _ _); by destruct s. Qed.

Lemma only_cached_remove_rows l s : only_cached s (remove_rows l s).
Proof.
  revert s. induction l as [|i l IH]; intros s; simpl; [apply only_cached_refl|].
  eapply only_cached_trans; [apply only_cached_remove|apply IH].
Qed.

(** C32: a budget pass evicts exactly the coldest rows. When every row of the
    scope has a positive size and the sizes sum to less than 2^63, nothing
    interferes, the pass is not cancelled and the metadata store answers (deleting
    bytes may fail), a pass over a scope with a budget returns, whatever the
    positive page size, after at most one page per row. If the scope
    is within its budget nothing goes; otherwise the rows taken are a prefix of
    the scope's rows ordered by last access, no longer than it takes to meet the
    target, and the pass ends at the target or with nothing left. Every other
    row, in or out of the scope, is untouched, and so is every table that is not
    the cache's. The pass reports the usage before and after as the rows have
    it. *)
Theorem sweepScope_evicts_coldest e env cancelled store_fails delete_fails unrepresentable fuel entity budget r n w
  (Henv : ∀ n w, env n w = w) (Hcancelled : ∀ n, cancelled n = false) (Hstore : ∀ n, store_fails n = None)
  (Hpage : (1 ≤ e_pageSize e)%Z) (Hopen : closed (cw_meta w) = false) (Hsized : sized (lru entity (cw_meta w)))
  (Hfuel : length (lru entity (cw_meta w)) < fuel) (Hbudget : (0 < budget)%Z) :
  let l := lru entity (cw_meta w) in
  let target := target_of e unrepresentable budget in
  ∃ k r' n' w',
    sweepScope e env cancelled store_fails delete_fails unrepresentable fuel entity budget r (n, w) = Some (r', None, (n', w')) ∧
    ((total l ≤ budget)%Z → k = 0) ∧
    ((budget < total l)%Z →
       (∀ j, j < k → (target < total (drop j l))%Z) ∧ ((total (drop k l) ≤ target)%Z ∨ drop k l = [])) ∧
    er_scopes r' = er_scopes r ++ [mkScope entity budget target (total l) (total (drop k l))] ∧
    lru entity (cw_meta w') = drop k l ∧
    (∀ i, lists_row (cw_meta w') i ↔ lists_row (cw_meta w) i ∧ i ∉ take k l) ∧
    only_cached (cw_meta w) (cw_meta w').
Proof.
  intros l target.
  destruct (quiet_scope e env cancelled store_fails delete_fails unrepresentable Henv Hcancelled Hstore Hpage
              fuel entity budget r n w) as (k & r' & n' & w' & Hrun & [H0 H1] & Hsc & Hw & Hl & _ & _); [done..|].
  exists k, r', n', w'. split_and!; try done.
  - intros Hgt. destruct (H1 Hgt) as [[_ Hmin] Hend]. done.
  - intros i. rewrite Hw. apply remove_rows_rows; apply take_lru_rows.
  - rewrite Hw. apply only_cached_remove_rows.
Qed.

(** ** A whole sweep *)
Lemma cached_items_sub entity s s' :
  (∀ i, lists_row s' i → lists_row s i) → cached_items entity s' ⊆+ cached_items entity s.
Proof.
  intros Hsub. apply NoDup_submseteq; [apply NoDup_cached_items|]. intros i.
  rewrite !elem_of_cached_items. intros [? ?]. auto.
Qed.

Lemma cached_items_scope entity s : cached_items entity s ⊆+ cached_items "" s.
Proof.
  apply NoDup_submseteq; [apply NoDup_cached_items|]. intros i. rewrite !elem_of_cached_items. by intros [_ ?].
Qed.

Lemma total_sub l1 l2 : l1 ⊆+ l2 → Forall (λ i, 0 < ci_size i)%Z l2 → (total l1 ≤ total l2)%Z.
Proof.
  intros [k Hk]%submseteq_Permutation Hp. rewrite (total_perm _ _ Hk). rewrite Hk, Forall_app in Hp.
  destruct Hp as [_ Hp]. unfold total. rewrite fmap_app, sumZ_app.
  assert (0 ≤ sumZ (ci_size <$> k))%Z; [|lia]. clear -Hp. induction Hp; csimpl; lia.
Qed.

Lemma sized_sub l1 l2 : l1 ⊆+ l2 → sized l2 → sized l1.
Proof.
  intros Hs [Hp Ht]. pose proof (total_sub _ _ Hs Hp). split; [|lia]. apply submseteq_Permutation in Hs as [k Hk].
  rewrite Hk, Forall_app in Hp. by destruct Hp.
Qed.

Lemma lru_sub entity s : lru entity s ⊆+ cached_items "" s.
Proof. rewrite lru_perm. apply cached_items_scope. Qed.

Section sweep.
Context (e : Evictor) (env : nat → CacheWorld → CacheWorld) (cancelled : nat → bool)
  (store_fails : nat → option MetaError) (delete_fails : nat → string → bool) (unrepresentable : spec_float → Z).
Hypothesis Henv : ∀ n w, env n w = w.
Hypothesis Hcancelled : ∀ n, cancelled n = false.
Hypothesis Hstore : ∀ n, store_fails n = None.
Hypothesis Hpage : (1 ≤ e_pageSize e)%Z.
Hypothesis Hheadroom : kept_headroom (e_headroom e).

Lemma quiet_scopes fuel scopes r n w :
  closed (cw_meta w) = false → sized (cached_items "" (cw_meta w)) → length (cached_items "" (cw_meta w)) < fuel →
  Forall (λ p, p.2 < 2 ^ 63)%Z scopes →
  ∃ r' n' w', sweep_scopes e env cancelled store_fails delete_fails unrepresentable fuel scopes r (n, w) =
      Some (r', None, (n', w')) ∧
    closed (cw_meta w') = false ∧ er_failed r' = er_failed r ∧ only_cached (cw_meta w) (cw_meta w') ∧
    (∀ i, lists_row (cw_meta w') i → lists_row (cw_meta w) i) ∧
    ∀ entity b, (entity, b) ∈ scopes → (0 < b)%Z → (total (cached_items entity (cw_meta w')) ≤ b)%Z.
Proof.
  revert r n w. induction scopes as [|[entity b] scopes IH]; intros r n w Hc Hs Hf Hb.
  { exists r, n, w. split_and!; try done; [apply only_cached_refl|]. by intros ?? ?%not_elem_of_nil. }
  apply Forall_cons in Hb as [Hb Hbs]. simpl in Hb. cbn [sweep_scopes]. destruct (Z.le_gt_cases b 0) as [Hle|Hgt].
  - unfold sweepScope at 1. rewrite (proj2 (Z.leb_le b 0)) by done. simpl.
    destruct (IH r n w) as (r' & n' & w' & Hrun & Hc' & Hf' & Ho & Hr & Ht); [done..|].
    exists r', n', w'. split_and!; try done. intros entity' b' [[= -> ->]|Hin]%elem_of_cons Hb'; [lia|auto].
  - pose proof (submseteq_length _ _ (lru_sub entity (cw_meta w))).
    destruct (quiet_scope e env cancelled store_fails delete_fails unrepresentable Henv Hcancelled Hstore Hpage
            fuel entity b r n w) as (k & r1 & n1 & w1 & -> & [H0 H1] & _ & Hw & Hl & Hc1 & Hf1);
      [done|by apply (sized_sub _ _ (lru_sub entity _))|lia|done|]. simpl.
    assert (∀ i, lists_row (cw_meta w1) i → lists_row (cw_meta w) i) as Hsub.
    { intros i. rewrite Hw, remove_rows_rows; [tauto|apply take_lru_rows..]. }
    pose proof (cached_items_sub "" _ _ Hsub) as Hsub'. pose proof (submseteq_length _ _ Hsub').
    destruct (IH r1 n1 w1) as (r' & n' & w' & Hrun & Hc' & Hf' & Ho & Hr & Ht);
      [done|by eapply sized_sub|lia|done|].
    exists r', n', w'. split_and!; try done; [congruence| |auto|].
    + eapply only_cached_trans; [|exact Ho]. rewrite Hw. apply only_cached_remove_rows.
    + intros entity' b' [[= -> ->]|Hin]%elem_of_cons Hb'; [|auto].
      etrans; [apply total_sub; [by apply cached_items_sub|]|].
      { assert (sized (cached_items entity (cw_meta w1))) as [? _]; [|done].
        eapply sized_sub; [apply cached_items_scope|]. by eapply sized_sub. }
      rewrite <-(total_perm _ _ (lru_perm entity (cw_meta w1))), Hl.
      destruct (Z.le_gt_cases (total (lru entity (cw_meta w))) b) as [Hle|Hgt'].
      * by rewrite (H0 Hle), drop_0.
      * destruct (H1 Hgt') as [_ [Hend|Hend]]; [|rewrite Hend; unfold total; simpl; lia].
        pose proof (target_bounds e unrepresentable b ltac:(lia) Hheadroom). lia.
Qed.
End sweep.

Lemma scopes_of_entity e entity b : e_perEntity e !! entity = Some b → (entity, b) ∈ scopes_of e.
Proof.
  intros Hb. unfold scopes_of. apply elem_of_app. left. apply list_elem_of_fmap. exists entity.
  rewrite Hb, sort_strings_elem. split; [done|]. apply (list_elem_of_fmap_2 fst _ (entity, b)). by apply elem_of_map_to_list.
Qed.

(** A sweep nothing interferes with brings the cache within its budget.
    With the headroom [New] keeps, however binary64 arithmetic rounds it, a sweep
    returns without an error or a failed row, and afterwards the usage the store
    reports is within the budget of every proxy that has one and within the
    global budget. It only removes cached rows. *)
Theorem Sweep_within_budget e env cancelled store_fails delete_fails unrepresentable fuel n w
  (Henv : ∀ n w, env n w = w) (Hcancelled : ∀ n, cancelled n = false) (Hstore : ∀ n, store_fails n = None)
  (Hpage : (1 ≤ e_pageSize e)%Z) (Hheadroom : kept_headroom (e_headroom e))
  (Hglobal : (e_global e < 2 ^ 63)%Z) (Hbudgets : map_Forall (λ _ b, b < 2 ^ 63)%Z (e_perEntity e))
  (Hopen : closed (cw_meta w) = false) (Hsized : sized (cached_items "" (cw_meta w)))
  (Hfuel : length (cached_items "" (cw_meta w)) < fuel) :
  ∃ r n' w',
    Sweep e env cancelled store_fails delete_fails unrepresentable fuel (n, w) = Some (r, None, (n', w')) ∧
    er_failed r = 0%Z ∧ only_cached (cw_meta w) (cw_meta w') ∧
    (∀ i, lists_row (cw_meta w') i → lists_row (cw_meta w) i) ∧
    (∀ entity b, e_perEntity e !! entity = Some b → (0 < b)%Z →
       ∃ u, CachedUsage false entity (cw_meta w') = Ok u ∧ (cu_bytes u ≤ b)%Z) ∧
    ((0 < e_global e)%Z → ∃ u, CachedUsage false "" (cw_meta w') = Ok u ∧ (cu_bytes u ≤ e_global e)%Z).
Proof.
  destruct (quiet_scopes e env cancelled store_fails delete_fails unrepresentable Henv Hcancelled Hstore Hpage Hheadroom
              fuel (scopes_of e) no_result n w) as (r & n' & w' & Hrun & Hc & Hf & Ho & Hr & Ht); [done..| |].
  { apply Forall_app. split; [|by constructor]. apply Forall_fmap, Forall_forall. intros entity _. simpl.
    destruct (e_perEntity e !! entity) as [b|] eqn:Hb; simpl; [by apply (Hbudgets entity)|lia]. }
  assert (∀ entity b, (entity, b) ∈ scopes_of e → (0 < b)%Z →
    ∃ u, CachedUsage false entity (cw_meta w') = Ok u ∧ (cu_bytes u ≤ b)%Z) as Husage.
  { intros entity b Hin Hb. destruct (CachedUsage_bytes entity (cw_meta w') Hc) as (u & Hu & Hbytes). exists u. split; [done|].
    assert (sized (cached_items entity (cw_meta w'))) as [Hp Htot].
    { eapply sized_sub; [|exact Hsized]. etrans; [by apply cached_items_sub|apply cached_items_scope]. }
    rewrite Hbytes, int64_small; [by apply Ht|]. pose proof (total_sub [] _ (submseteq_nil_l _) Hp) as H0.
    unfold total at 1 in H0. simpl in H0. unfold int64_range. lia. }
  exists r, n', w'. split_and!; try done.
  - intros entity b Hb. apply Husage. by apply scopes_of_entity.
  - apply Husage. unfold scopes_of. apply elem_of_app. right. by left.
Qed.

(** A cache of 120 bytes: one manifest and two blobs of one proxy, one of the
    blobs held by another proxy too. *)
Definition cold := "sha256:1111111111111111111111111111111111111111111111111111111111111111".
Definition warm := "sha256:2222222222222222222222222222222222222222222222222222222222222222".
Definition page_ := "sha256:3333333333333333333333333333333333333333333333333333333333333333".
Definition warm_store : Store :=
  set_repos {["hub" := mkRepository "hub" Proxy "" 1 0 0; "quay" := mkRepository "quay" Proxy "" 1 0 0]}
  (set_cachedManifests {["hub/app" := {[page_ := mkCachedManifest "hub/app" page_ "" "" "" "" 10 0 9]}]}
  (set_cachedRefs {["hub/app" := {[page_ := []]}]}
  (set_cachedBlobs {["hub/app" := {[cold := mkCachedBlob "hub/app" cold 40 0 1; warm := mkCachedBlob "hub/app" warm 30 0 2]};
                     "quay/app" := {[cold := mkCachedBlob "quay/app" cold 40 0 5]}]} newEmpty))).
Definition warm_cache : CacheWorld := mkCacheWorld warm_store {[cold := 40%Z; warm := 30%Z]} [].
Definition small_evictor : Evictor := mkEvictor true 100 {["hub" := 90%Z]} (S754_zero false) 2 10.

Definition idle (_ : nat) (w : CacheWorld) : CacheWorld := w.
Definition never (_ : nat) : bool := false.
Definition no_error (_ : nat) : option MetaError := None.
Definition deletes (_ : nat) (_ : string) : bool := false.
Definition zero_int (_ : spec_float) : Z := 0%Z.

Lemma sized_compute l : forallb (λ i, 0 <? ci_size i)%Z l && (total l <? 2 ^ 63)%Z = true → sized l.
Proof.
  intros [Hp Ht%Z.ltb_lt]%andb_true_iff. split; [|done]. apply Forall_forall. intros i Hi%list_elem_of_In.
  rewrite forallb_forall in Hp. apply Z.ltb_lt. auto.
Qed.

Lemma warm_sized : sized (cached_items "" warm_store).
Proof. apply sized_compute. vm_compute. reflexivity. Qed.

(** The 40 coldest bytes go, and with them the cache is within 90. *)
Lemma sweepScope_evicts_coldest_witness :
  ∃ k r' n' w',
    sweepScope small_evictor idle never no_error deletes zero_int 9 "" 90 no_result (0, warm_cache) = Some (r', None, (n', w')) ∧
    lru "" (cw_meta w') = drop k (lru "" warm_store) ∧ k = 1.
Proof.
  destruct (sweepScope_evicts_coldest small_evictor idle never no_error deletes zero_int 9 "" 90 no_result 0 warm_cache)
    as (k & r' & n' & w' & Hrun & _ & Hk & _ & Hl & _);
    [done..|apply (sized_sub _ _ (lru_sub "" _)), warm_sized|vm_compute; lia|done|].
  exists k, r', n', w'. split; [exact Hrun|]. split; [exact Hl|].
  destruct (Hk ltac:(by vm_compute)) as [Hmin Hend].
  destruct k as [|[|k]]; [|done|].
  - destruct Hend as [Hend|Hend]; exfalso; vm_compute in Hend; [by apply Hend|done].
  - specialize (Hmin 1 ltac:(lia)). by vm_compute in Hmin.
Defined.

Lemma Sweep_within_budget_witness :
  ∃ r n' w' u, Sweep small_evictor idle never no_error deletes zero_int 9 (0, warm_cache) = Some (r, None, (n', w')) ∧
    CachedUsage false "" (cw_meta w') = Ok u ∧ (cu_bytes u ≤ 100)%Z.
Proof.
  destruct (Sweep_within_budget small_evictor idle never no_error deletes zero_int 9 0 warm_cache)
    as (r & n' & w' & Hrun & _ & _ & _ & _ & Hg);
    [done..|by split_and!|done| |done|apply warm_sized|vm_compute; lia|].
  { apply map_Forall_singleton. done. }
  destruct (Hg ltac:(done)) as (u & Hu & Hb). exists r, n', w', u. split; [exact Hrun|]. split; [exact Hu|exact Hb].
Defined.

(** The guard against a spinning sweep compares the bytes before and after a
    page. A page whose rows have no size is evicted in full and still ends the
    pass, although every row of it was deleted: over budget, with rows left. *)
Definition sizeless_cache : CacheWorld :=
  mkCacheWorld (set_cachedBlobs {["hub/app" := {[cold := mkCachedBlob "hub/app" cold 0 0 1;
                                                 warm := mkCachedBlob "hub/app" warm 200 0 2]}]} warm_store) ∅ [].

Lemma sizeless_page_ends_the_pass :
  match sweepScope (mkEvictor true 100 ∅ (S754_zero false) 1 10) idle never no_error deletes zero_int 9 "" 100 no_result
          (0, sizeless_cache) with
  | Some (r, err, (_, w)) =>
      err = None ∧ er_failed r = 0%Z ∧ er_blobs r = 1%Z ∧ sc_after <$> last (er_scopes r) = Some 210%Z ∧
      length (lru "" (cw_meta w)) = 2
  | None => False
  end.
Proof. vm_compute. done. Qed.
