(* ===== verification/EvictSafe.v ===== *)
(** * Safety of eviction, and the orphan pass *)
From Stdlib Require Import SpecFloat.
From S2P Require Import Prelude RepoName Meta Digest Memory MemoryInv Evict Headroom EvictSpec.

(** ** The actions of a pass

    Beside the world, a set of digests: those that were seen without a claim. *)
Inductive evict_step (env : nat → CacheWorld → CacheWorld) : gset string * CacheWorld → gset string * CacheWorld → Prop :=
| es_env n seen w : evict_step env (seen, w) (seen, env n w)
| es_row i seen w :
    evict_step env (seen, w) (seen, mkCacheWorld (remove_row i (cw_meta w)) (cw_bytes w) (cw_events w))
| es_unclaimed d seen w :
    blobClaims d (cw_meta w) = 0%Z → evict_step env (seen, w) ({[d]} ∪ seen, w)
| es_bytes d seen w :
    d ∈ seen → evict_step env (seen, w) (seen, mkCacheWorld (cw_meta w) (delete d (cw_bytes w)) (cw_events w))
| es_event ev seen w :
    evict_step env (seen, w) (seen, mkCacheWorld (cw_meta w) (cw_bytes w) (cw_events w ++ [ev])).

Section safe.
Context (e : Evictor) (env : nat → CacheWorld → CacheWorld) (cancelled : nat → bool)
  (store_fails : nat → option MetaError) (delete_fails : nat → string → bool) (walk_fails : nat → option nat)
  (unrepresentable : spec_float → Z).

Local Notation steps := (rtc (evict_step env)).

(** From any set of digests seen, the world changes by such actions. *)
Definition acts (w w' : CacheWorld) : Prop := ∀ seen, ∃ seen', steps (seen, w) (seen', w') ∧ seen ⊆ seen'.

Lemma acts_refl w : acts w w.
Proof. intros seen. by exists seen. Qed.

Lemma acts_trans w1 w2 w3 : acts w1 w2 → acts w2 w3 → acts w1 w3.
Proof.
  intros H1 H2 seen. destruct (H1 seen) as (s1 & Hs1 & ?). destruct (H2 s1) as (s2 & Hs2 & ?).
  exists s2. split; [by etrans|set_solver].
Qed.

Lemma acts_env n w : acts w (env n w).
Proof. intros seen. exists seen. split; [|done]. apply rtc_once. constructor. Qed.

Lemma acts_publish repo d z reason st : acts st.2 (publishEvicted e repo d z reason st).2.
Proof.
  unfold publishEvicted. destruct (e_events e); [|apply acts_refl]. intros seen. exists seen. split; [|done].
  apply rtc_once. constructor.
Qed.

(** A call that fails, or only reads, leaves the environment's change. *)
Lemma acts_reading {A} (op : Store → result MetaError A) n w a st' :
  call env store_fails (reading op) (n, w) = (a, st') →
  st'.2 = env n w ∧ match a with Ok x => op (cw_meta (env n w)) = Ok x | Err _ => True end.
Proof.
  unfold call, reading. destruct (store_fails n); [by intros [= <- <-]|].
  destruct (op (cw_meta (env n w))) eqn:Ho; simpl; intros [= <- <-]; [|done]. by destruct (env n w).
Qed.

Lemma acts_delete d st b st' :
  delete_bytes env cancelled delete_fails d st = (b, st') →
  ∀ seen, d ∈ seen → steps (seen, st.2) (seen, st'.2).
Proof.
  unfold delete_bytes. destruct st as [n w]. intros Hd seen Hin. simpl. etrans; [apply rtc_once, (es_env _ n)|].
  destruct (_ || _); injection Hd as <- <-; [done|]. by apply rtc_once, es_bytes.
Qed.

Lemma acts_reclaim d st seen : d ∈ seen → steps (seen, st.2) (seen, (reclaim env cancelled delete_fails d st).2).
Proof.
  intros Hd. unfold reclaim, NewCachedRef. destruct (Digest_Validate d); simpl; [|done].
  destruct (delete_bytes _ _ _ d st) as [b st'] eqn:He. simpl. by eapply acts_delete.
Qed.

Lemma acts_item item r st gone r' st' :
  evictItem e env cancelled store_fails delete_fails item r st = (gone, r', st') → acts st.2 st'.2.
Proof.
  destruct st as [n w]. unfold evictItem. destruct (String.eqb_spec (ci_kind item) CachedManifestKind) as [Hk|Hk].
  - unfold evictManifest, call, writing. cbn [fst snd]. destruct (store_fails n) as [[]|];
      try (intros [= <- <- <-]; apply acts_env).
    unfold DeleteCachedManifest, enter. destruct (cancelled n); [intros [= <- <- <-]; apply acts_env|].
    destruct (closed _); [intros [= <- <- <-]; apply acts_env|]. simpl.
    destruct (get2 _ _ _) eqn:Hg; [|intros [= <- <- <-]; apply acts_env]. simpl. intros [= <- <- <-].
    eapply acts_trans; [apply (acts_env n)|]. eapply acts_trans; [|apply acts_publish]. intros seen. exists seen.
    split; [|done]. apply rtc_once. pose proof (es_row env item seen (env n w)) as Hs. unfold remove_row in Hs.
    by rewrite Hk in Hs.
  - destruct (String.eqb_spec (ci_kind item) CachedBlobKind) as [Hb|Hb]; [|intros [= <- <- <-]; apply acts_refl].
    unfold evictBlob, call. cbn [fst snd]. destruct (store_fails n) as [[]|];
      try (intros [= <- <- <-]; apply acts_env).
    unfold DeleteCachedBlob, enter. destruct (cancelled n); [intros [= <- <- <-]; apply acts_env|].
    destruct (closed _); [intros [= <- <- <-]; apply acts_env|]. simpl.
    destruct (get2 _ _ _) eqn:Hg; [|intros [= <- <- <-]; apply acts_env]. intros [= <- <- <-].
    eapply acts_trans; [apply (acts_env n)|]. eapply acts_trans; [|apply acts_publish].
    assert (∀ seen, evict_step env (seen, env n w)
      (seen, mkCacheWorld (set_cachedBlobs (delete2 (ci_repository item) (ci_digest item) (cachedBlobs (cw_meta (env n w))))
                (cw_meta (env n w))) (cw_bytes (env n w)) (cw_events (env n w)))) as Hrow.
    { intros seen. pose proof (es_row env item seen (env n w)) as Hs. unfold remove_row in Hs. by rewrite Hb in Hs. }
    intros seen. destruct (_ <? _)%Z eqn:Hc.
    + exists seen. split; [apply rtc_once, Hrow|done].
    + exists ({[ci_digest item]} ∪ seen). split; [|set_solver]. eapply rtc_l; [apply Hrow|].
      eapply rtc_l; [apply (es_unclaimed _ (ci_digest item))|apply (acts_reclaim _ (S n, _)); set_solver].
      apply Z.ltb_ge in Hc. cbn [cw_meta]. unfold blobClaims in *. lia.
Qed.

Lemma acts_page target items after r st after' r' cut st' :
  evict_page e env cancelled store_fails delete_fails target items after r st = (after', r', cut, st') → acts st.2 st'.2.
Proof.
  revert after r st. induction items as [|i items IH]; intros after r st; cbn [evict_page]; [by intros [= _ _ _ <-]; apply acts_refl|].
  destruct (_ <=? _)%Z; [intros [= _ _ _ <-]; apply acts_refl|]. destruct (cancelled _); [intros [= _ _ _ <-]; apply acts_refl|].
  destruct (evictItem _ _ _ _ _ i r st) as [[gone r1] st1] eqn:Hi. intros H. eapply acts_trans; [by eapply acts_item|eauto].
Qed.

Lemma acts_loop fuel entity target after r st after' r' err st' :
  evict_loop e env cancelled store_fails delete_fails fuel entity target after r st = Some (after', r', err, st') → acts st.2 st'.2.
Proof.
  revert after r st. induction fuel as [|fuel IH]; intros after r [n w]; [done|]. cbn [evict_loop].
  destruct (negb _); [intros [= _ _ _ <-]; apply acts_refl|].
  destruct (call _ _ _ _) as [listed st1] eqn:Hcall. apply acts_reading in Hcall as [Hw _].
  assert (acts w st1.2) as Ha by (rewrite Hw; apply acts_env).
  destruct listed as [[|i items]|]; [intros [= _ _ _ <-]; exact Ha| |intros [= _ _ _ <-]; exact Ha].
  destruct (evict_page _ _ _ _ _ _ _ _ _ _) as [[[after1 r1] cut] st2] eqn:Hp. apply acts_page in Hp.
  pose proof (acts_trans _ _ _ Ha Hp) as Ha2. destruct cut; [intros [= _ _ _ <-]; exact Ha2|].
  destruct (_ =? _)%Z; [intros [= _ _ _ <-]; exact Ha2|]. intros H. eapply acts_trans; [exact Ha2|eauto].
Qed.

Lemma acts_scope fuel entity budget r st r' err st' :
  sweepScope e env cancelled store_fails delete_fails unrepresentable fuel entity budget r st = Some (r', err, st') → acts st.2 st'.2.
Proof.
  destruct st as [n w]. unfold sweepScope. destruct (_ <=? _)%Z; [intros [= _ _ <-]; apply acts_refl|].
  destruct (call _ _ _ _) as [usage st1] eqn:Hcall. apply acts_reading in Hcall as [Hw _].
  assert (acts w st1.2) as Ha by (rewrite Hw; apply acts_env).
  destruct usage as [u|]; [|intros [= _ _ <-]; exact Ha]. destruct (_ <=? _)%Z; [intros [= _ _ <-]; exact Ha|].
  destruct (evict_loop _ _ _ _ _ _ _ _ _ _ _) as [[[[after1 r1] err1] st2]|] eqn:Hl; [|done]. simpl. intros [= _ _ <-].
  eapply acts_trans; [exact Ha|]. by eapply acts_loop.
Qed.

Lemma acts_sweep fuel scopes r st r' err st' :
  sweep_scopes e env cancelled store_fails delete_fails unrepresentable fuel scopes r st = Some (r', err, st') → acts st.2 st'.2.
Proof.
  revert r st. induction scopes as [|[entity b] scopes IH]; intros r st; cbn [sweep_scopes]; [intros [= _ _ <-]; apply acts_refl|].
  destruct (sweepScope _ _ _ _ _ _ _ _ _ _ _) as [[[r1 err1] st1]|] eqn:Hs; [|done]. simpl. apply acts_scope in Hs.
  destruct err1; [intros [= _ _ <-]; exact Hs|]. intros H. eapply acts_trans; [exact Hs|eauto].
Qed.

Definition all_seen (orphans : list (string * Z)) (seen : gset string) : Prop := ∀ x, x ∈ orphans → x.1 ∈ seen.

Lemma acts_walk descs orphans r st orphans' r' err st' seen :
  walk_orphans e env cancelled store_fails descs orphans r st = (orphans', r', err, st') → all_seen orphans seen →
  ∃ seen', steps (seen, st.2) (seen', st'.2) ∧ all_seen orphans' seen'.
Proof.
  revert orphans r st seen. induction descs as [|desc descs IH]; intros orphans r [n w] seen; cbn [walk_orphans].
  { intros [= <- _ _ <-] Ho. by exists seen. }
  destruct (cancelled _); [intros [= <- _ _ <-] Ho; by exists seen|].
  destruct (call _ _ _ _) as [claims st1] eqn:Hcall. apply acts_reading in Hcall as [Hw Hc].
  assert (steps (seen, w) (seen, st1.2)) as Henv by (rewrite Hw; apply rtc_once; constructor).
  destruct claims as [claims|]; [|intros [= <- _ _ <-] Ho; by exists seen].
  destruct (Z.ltb_spec 0 claims) as [Hpos|Hzero].
  { intros H Ho. destruct (IH _ _ _ _ H Ho) as (seen' & Hs & Ho'). exists seen'. split; [by etrans|done]. }
  assert (blobClaims desc.1 (cw_meta st1.2) = 0%Z) as Hclaims.
  { rewrite Hw. unfold CachedBlobClaims in Hc. inv_result. unfold blobClaims in *. lia. }
  intros H Ho. assert (all_seen (orphans ++ [desc]) ({[desc.1]} ∪ seen)) as Ho'.
  { intros x [Hx| ->%list_elem_of_singleton]%elem_of_app; [specialize (Ho x Hx)|]; set_solver. }
  assert (steps (seen, w) ({[desc.1]} ∪ seen, st1.2)) as Hsteps.
  { eapply rtc_r; [exact Henv|by apply es_unclaimed]. }
  destruct (_ <=? _)%Z; [injection H as <- _ _ <-; eauto|].
  destruct (IH _ _ _ _ H Ho') as (seen' & Hs & Ho2). exists seen'. split; [by etrans|done].
Qed.

Lemma acts_reclaim_orphans orphans r st r' err st' seen :
  reclaim_orphans e env cancelled delete_fails orphans r st = (r', err, st') → all_seen orphans seen →
  steps (seen, st.2) (seen, st'.2).
Proof.
  revert r st. induction orphans as [|desc orphans IH]; intros r st; cbn [reclaim_orphans]; [by intros [= _ _ <-]|].
  destruct (cancelled _); [by intros [= _ _ <-]|]. destruct (reclaimOrphan _ _ _ _ _ _) as [gone st1] eqn:Hr.
  intros H Ho. etrans; [|eapply IH; [exact H|intros x Hx; apply Ho; by right]].
  assert (desc.1 ∈ seen) as Hd by (apply Ho; by left). unfold reclaimOrphan, NewCachedRef in Hr.
  destruct (Digest_Validate desc.1); simpl in Hr; [|by injection Hr as _ <-].
  destruct (delete_bytes _ _ _ _ _) as [ok st2] eqn:Hdel. pose proof (acts_delete _ _ _ _ Hdel seen Hd) as Hs.
  destruct ok; injection Hr as _ <-; [|done]. etrans; [exact Hs|].
  unfold publishEvicted. destruct (e_events e); [|done]. apply rtc_once. constructor.
Qed.

Lemma acts_orphans n w r err n' w' :
  SweepOrphans e env cancelled store_fails delete_fails walk_fails (n, w) = (r, err, (n', w')) →
  ∃ seen, steps (∅, w) (seen, w').
Proof.
  unfold SweepOrphans. destruct (walk_orphans _ _ _ _ _ _ _ _) as [[[orphans r1] err1] st1] eqn:Hw.
  apply (acts_walk _ _ _ _ _ _ _ _ ∅) in Hw as (seen & Hs & Ho); [|by intros x ?%not_elem_of_nil].
  assert (steps (∅, w) (seen, st1.2)) as Hw1 by (etrans; [apply rtc_once, (es_env _ n)|exact Hs]).
  destruct err1 as [err1|]; [intros [= _ _ ->]; eauto|]. destruct (_ && _); [intros [= _ _ ->]; eauto|].
  intros H. exists seen. etrans; [exact Hw1|]. by apply (acts_reclaim_orphans _ _ _ _ _ _ _ H).
Qed.

(** The end of a pass of either kind. *)
Definition pass_ends (n : nat) (w w' : CacheWorld) : Prop :=
  (∃ fuel r err n', Sweep e env cancelled store_fails delete_fails unrepresentable fuel (n, w) = Some (r, err, (n', w'))) ∨
  (∃ r err n', SweepOrphans e env cancelled store_fails delete_fails walk_fails (n, w) = (r, err, (n', w'))).

Lemma pass_acts n w w' : pass_ends n w w' → ∃ seen, steps (∅, w) (seen, w').
Proof.
  intros [(fuel & r & err & n' & H)|(r & err & n' & H)]; [|by eapply acts_orphans].
  apply acts_sweep in H. destruct (H ∅) as (seen & Hs & _). eauto.
Qed.
End safe.

(** ** Claims *)
Lemma blobClaims_zero d s : blobClaims d s = 0%Z ↔ ∀ r, get2 (cachedBlobs s) r d = None.
Proof.
  unfold blobClaims, get2. split.
  - intros Hz r. destruct (cachedBlobs s !! r) as [row|] eqn:Hr; [|done]. simpl. destruct (row !! d) eqn:Hd; [exfalso|done].
    assert (length (filter (λ p : string * gmap string CachedBlob, is_Some (p.2 !! d)) (map_to_list (cachedBlobs s))) = 0) as Hn by lia.
    apply nil_length_inv in Hn. assert ((r, row) ∈ @nil (string * gmap string CachedBlob)) as []%not_elem_of_nil.
    rewrite <-Hn. apply list_elem_of_filter. split; [by eexists|]. by apply elem_of_map_to_list.
  - intros Hnone. rewrite filter_none; [done|]. intros [r row] Hin%elem_of_map_to_list [b Hb]. specialize (Hnone r).
    rewrite Hin in Hnone. simpl in *. congruence.
Qed.

Lemma blobClaims_remove d i s : blobClaims d s = 0%Z → blobClaims d (remove_row i s) = 0%Z.
Proof.
  rewrite !blobClaims_zero. intros Hn r. unfold remove_row. destruct (String.eqb _ _); cbn; [done|].
  rewrite get2_delete2. case_decide; auto.
Qed.

(** Without interference, what was seen without a claim stays without one. *)
Lemma quiet_steps env w seen w' :
  (∀ n w, env n w = w) → rtc (evict_step env) (∅, w) (seen, w') →
  only_cached (cw_meta w) (cw_meta w') ∧ (∀ d, d ∈ seen → blobClaims d (cw_meta w') = 0%Z) ∧
  ∀ d, d ∉ seen → cw_bytes w' !! d = cw_bytes w !! d.
Proof.
  intros Henv Hs.
  pose (P := λ p : gset string * CacheWorld, only_cached (cw_meta w) (cw_meta p.2) ∧
    (∀ d, d ∈ p.1 → blobClaims d (cw_meta p.2) = 0%Z) ∧ ∀ d, d ∉ p.1 → cw_bytes p.2 !! d = cw_bytes w !! d).
  change (P (seen, w')). revert Hs. apply rtc_ind_r; unfold P; clear P seen w'.
  { split_and!; [apply only_cached_refl|set_solver|done]. }
  intros [seen1 w1] p2 _ Hs (Ho & Hz & Hb). inversion Hs; subst; cbn in *.
  - rewrite Henv. done.
  - split_and!; [eapply only_cached_trans; [exact Ho|apply only_cached_remove]| |done]. intros d Hd. by apply blobClaims_remove, Hz.
  - split_and!; [done| |]; intros d'; [|set_solver]. intros [->%elem_of_singleton|]%elem_of_union; auto.
  - split_and!; [done..|]. intros d' Hd'. rewrite lookup_delete_ne by set_solver. auto.
  - done.
Qed.

(** C37: eviction is safe under any interleaving. Whatever other users of the
    stores do between its actions, whenever the context is cancelled and whatever
    fails, what a budget sweep or an orphan pass does to the world is a sequence
    of the environment's own changes and of four kinds of action: removing a row
    of the cache, noting a digest no proxy claims at that instant, deleting the
    bytes of a digest so noted before, and publishing an event. When nothing
    interferes, the bytes of a digest some proxy still claims in the end are as
    they were, however the pass ended, and nothing outside the cache's tables
    changes. *)
Theorem evict_safe e env cancelled store_fails delete_fails walk_fails unrepresentable n w w'
  (Hends : pass_ends e env cancelled store_fails delete_fails walk_fails unrepresentable n w w') :
  (∃ seen, rtc (evict_step env) (∅, w) (seen, w')) ∧
  ((∀ n w, env n w = w) →
     only_cached (cw_meta w) (cw_meta w') ∧
     ∀ d, blobClaims d (cw_meta w') ≠ 0%Z → cw_bytes w' !! d = cw_bytes w !! d).
Proof.
  destruct (pass_acts _ _ _ _ _ _ _ _ _ _ Hends) as [seen Hs]. split; [eauto|]. intros Henv.
  destruct (quiet_steps env w seen w' Henv Hs) as (Ho & Hz & Hb). split; [done|]. intros d Hd. apply Hb.
  intros Hin. by apply Hd, Hz.
Qed.

(** Evicting the coldest blob keeps its bytes: another proxy has it. *)
Definition swept_cache : CacheWorld :=
  match Sweep small_evictor idle never no_error deletes zero_int 9 (0, warm_cache) with
  | Some (_, _, (_, w')) => w'
  | None => warm_cache
  end.

Lemma swept_cache_ends :
  pass_ends small_evictor idle never no_error deletes (λ _, None) zero_int 0 warm_cache swept_cache.
Proof.
  assert (match Sweep small_evictor idle never no_error deletes zero_int 9 (0, warm_cache) with
          | Some _ => true | None => false end = true) as Hrun by (vm_compute; reflexivity).
  left. exists 9. unfold swept_cache.
  destruct (Sweep small_evictor idle never no_error deletes zero_int 9 (0, warm_cache)) as [[[r err] [n' w']]|].
  - exists r, err, n'. reflexivity.
  - discriminate Hrun.
Qed.

Lemma evict_safe_witness :
  get2 (cachedBlobs (cw_meta swept_cache)) "hub/app" cold = None ∧ cw_bytes swept_cache !! cold = Some 40%Z.
Proof.
  pose proof (evict_safe small_evictor idle never no_error deletes (λ _, None) zero_int 0 warm_cache swept_cache swept_cache_ends)
    as [_ Hq].
  destruct (Hq (λ _ _, eq_refl)) as [_ Hb]. split; [vm_compute; reflexivity|].
  assert (blobClaims cold (cw_meta swept_cache) = 1%Z) as Hc by (vm_compute; reflexivity).
  rewrite Hb by (rewrite Hc; discriminate). vm_compute. reflexivity.
Defined.

(** ** What an orphan pass reclaims *)
Definition orphans_of (w : CacheWorld) (descs : list (string * Z)) : list (string * Z) :=
  filter (λ p, blobClaims p.1 (cw_meta w) = 0%Z) descs.

Section orphans.
Context (e : Evictor) (env : nat → CacheWorld → CacheWorld) (cancelled : nat → bool)
  (store_fails : nat → option MetaError) (delete_fails : nat → string → bool).
Hypothesis Henv : ∀ n w, env n w = w.
Hypothesis Hcancelled : ∀ n, cancelled n = false.
Hypothesis Hstore : ∀ n, store_fails n = None.
Hypothesis Hdelete : ∀ n d, delete_fails n d = false.

Lemma quiet_walk descs orphans r n w :
  closed (cw_meta w) = false → (Z.of_nat (length orphans) < e_maxOrph e)%Z →
  let room := Z.to_nat (e_maxOrph e) - length orphans in
  ∃ r' n', walk_orphans e env cancelled store_fails descs orphans r (n, w) =
      (orphans ++ take room (orphans_of w descs), r', None, (n', w)) ∧
    or_truncated r' = or_truncated r || bool_decide (room ≤ length (orphans_of w descs)) ∧
    or_reclaimed r' = or_reclaimed r ∧ or_failed r' = or_failed r.
Proof.
  intros Hc. revert orphans r n. induction descs as [|desc descs IH]; intros orphans r n Hmax room; cbn [walk_orphans].
  { exists r, n. change (orphans_of w []) with (@nil (string * Z)). rewrite take_nil, app_nil_r, bool_decide_false by (simpl; lia). by rewrite orb_false_r. }
  rewrite Hcancelled, (quiet_call env store_fails Henv Hstore). unfold reading, CachedBlobClaims, enter. rewrite Hc.
  cbn [fst result_bind]. unfold orphans_of. rewrite filter_cons. fold (orphans_of w descs).
  replace (mkCacheWorld (cw_meta w) (cw_bytes w) (cw_events w)) with w by (by destruct w).
  destruct (Z.ltb_spec 0 (blobClaims desc.1 (cw_meta w))) as [Hpos|Hzero].
  { rewrite decide_False by lia. destruct (IH orphans (mkOrphanResult (add64 (or_scanned r) 1) (or_reclaimed r) (or_bytes r)
      (or_failed r) (or_truncated r)) (S n) Hmax) as (r' & n' & -> & ?). eauto. }
  rewrite decide_True by (unfold blobClaims in *; lia). rewrite length_app. simpl length.
  destruct (Z.leb_spec (e_maxOrph e) (Z.of_nat (length orphans + 1))) as [Hfull|Hroom].
  - eexists _, _. assert (room = 1) as -> by lia. cbn [take]. rewrite take_0. split; [done|].
    cbn [or_truncated or_reclaimed or_failed]. rewrite bool_decide_true by (simpl; lia). by rewrite orb_true_r.
  - destruct (IH (orphans ++ [desc]) (mkOrphanResult (add64 (or_scanned r) 1) (or_reclaimed r) (or_bytes r)
      (or_failed r) (or_truncated r)) (S n)) as (r' & n' & -> & Ht & Hr); [rewrite length_app; simpl; lia|].
    exists r', n'. rewrite length_app in Ht |- *. simpl in Ht |- *. rewrite <-(assoc_L (++)).
    replace room with (S (Z.to_nat (e_maxOrph e) - (length orphans + 1))) at 1 by lia. split; [done|]. split; [|done].
    rewrite Ht. f_equal. apply bool_decide_ext. lia.
Qed.

Lemma quiet_reclaim_orphans orphans r n w :
  Forall (λ p, is_ok (Digest_Validate p.1) = true) orphans →
  ∃ r' n' w', reclaim_orphans e env cancelled delete_fails orphans r (n, w) = (r', None, (n', w')) ∧
    cw_meta w' = cw_meta w ∧ (∀ d, cw_bytes w' !! d = if decide (d ∈ orphans.*1) then None else cw_bytes w !! d) ∧
    or_truncated r' = or_truncated r ∧ or_failed r' = or_failed r ∧
    or_reclaimed r' = foldl (λ z _, add64 z 1) (or_reclaimed r) orphans.
Proof.
  revert r n w. induction orphans as [|desc orphans IH]; intros r n w Hv; cbn [reclaim_orphans].
  { exists r, n, w. split_and!; try done. }
  apply Forall_cons in Hv as [Hd Hv]. rewrite Hcancelled. unfold reclaimOrphan, NewCachedRef.
  destruct (Digest_Validate desc.1); [|done]. simpl. unfold delete_bytes. rewrite Henv, Hcancelled, Hdelete. simpl.
  destruct (publishEvicted _ _ _ _ _ _) as [n1 w1] eqn:Hp.
  assert (cw_meta w1 = cw_meta w ∧ cw_bytes w1 = delete desc.1 (cw_bytes w)) as [Hm Hb].
  { unfold publishEvicted in Hp. destruct (e_events e); by injection Hp as <- <-. }
  destruct (IH (mkOrphanResult (or_scanned r) (add64 (or_reclaimed r) 1) (add64 (or_bytes r) desc.2) (or_failed r)
                  (or_truncated r)) n1 w1 Hv) as (r' & n' & w' & -> & Hm' & Hb' & Ht & Hf & Hr).
  exists r', n', w'. split_and!; try done; [congruence|]. intros d. rewrite Hb', Hb.
  destruct (decide (d ∈ orphans.*1)); [by rewrite decide_True by (by right)|].
  destruct (decide (d = desc.1)) as [->|Hne].
  - rewrite lookup_delete_eq, decide_True by (by left). done.
  - rewrite lookup_delete_ne, decide_False by (rewrite ?elem_of_cons; naive_solver). done.
Qed.
End orphans.

Lemma count64 {A} (l : list A) z : foldl (λ z _, add64 z 1) (int64 z) l = int64 (z + Z.of_nat (length l)).
Proof.
  revert z. induction l as [|x l IH]; intros z; simpl; [by rewrite Z.add_0_r|]. rewrite int64_succ, IH. f_equal. lia.
Qed.

(** An orphan pass nothing interferes with reclaims exactly the bytes no
    proxy claims. It deletes unclaimed blobs until the bound, all of them when
    there are fewer, touches neither a claimed blob nor the metadata, counts what
    it reclaimed, and reports that it was cut short exactly when it reached its
    bound. *)
Theorem SweepOrphans_exact e env cancelled store_fails delete_fails walk_fails n w
  (Henv : ∀ n w, env n w = w) (Hcancelled : ∀ n, cancelled n = false) (Hstore : ∀ n, store_fails n = None)
  (Hdelete : ∀ n d, delete_fails n d = false) (Hwalk : walk_fails n = None) (Hbound : (1 ≤ e_maxOrph e)%Z)
  (Hopen : closed (cw_meta w) = false)
  (Hdigests : ∀ d z, cw_bytes w !! d = Some z → is_ok (ParseDigest d) = true) :
  let orphans := orphans_of w (map_to_list (cw_bytes w)) in
  ∃ r n' w' taken,
    SweepOrphans e env cancelled store_fails delete_fails walk_fails (n, w) = (r, None, (n', w')) ∧
    cw_meta w' = cw_meta w ∧
    taken = take (Z.to_nat (e_maxOrph e)) orphans ∧
    (∀ d, cw_bytes w' !! d = if decide (d ∈ taken.*1) then None else cw_bytes w !! d) ∧
    or_reclaimed r = int64 (Z.of_nat (length taken)) ∧ or_failed r = 0%Z ∧
    or_truncated r = bool_decide (Z.to_nat (e_maxOrph e) ≤ length orphans) ∧
    (or_truncated r = false → ∀ d, is_Some (cw_bytes w' !! d) ↔ is_Some (cw_bytes w !! d) ∧ blobClaims d (cw_meta w) ≠ 0%Z).
Proof.
  intros orphans. unfold SweepOrphans. rewrite Henv, Hwalk.
  destruct (quiet_walk e env cancelled store_fails Henv Hcancelled Hstore (map_to_list (cw_bytes w)) []
              (mkOrphanResult 0 0 0 0 false) (S n) w) as (r1 & n1 & -> & Ht & Hr & Hf); [done|simpl; lia|].
  simpl in Ht, Hr, Hf. rewrite Nat.sub_0_r in *. rewrite bool_decide_false by (by intros []). simpl.
  destruct (quiet_reclaim_orphans e env cancelled delete_fails Henv Hcancelled Hdelete
              (take (Z.to_nat (e_maxOrph e)) orphans) r1 n1 w) as (r & n' & w' & Hrun & Hm & Hb & Ht' & Hf' & Hr').
  { apply Forall_take, Forall_forall. intros [d z] [_ Hin%elem_of_map_to_list]%list_elem_of_filter. simpl.
    apply Hdigests in Hin. unfold Digest_Validate. by destruct (ParseDigest d). }
  exists r, n', w', (take (Z.to_nat (e_maxOrph e)) orphans). rewrite Ht', Ht.
  split_and!; try done; [by rewrite Hr', Hr, (count64 _ 0)|congruence|].
  intros Hnt%bool_decide_eq_false d. fold orphans in Hnt. rewrite take_ge in Hb by lia. rewrite Hb.
  assert (d ∈ orphans.*1 ↔ is_Some (cw_bytes w !! d) ∧ blobClaims d (cw_meta w) = 0%Z) as Hmem.
  { rewrite list_elem_of_fmap. split.
    - intros ([d' z] & -> & [Hz Hin%elem_of_map_to_list]%list_elem_of_filter). by split; [eexists|].
    - intros [[z Hz] Hc]. exists (d, z). split; [done|]. apply list_elem_of_filter. split; [done|]. by apply elem_of_map_to_list. }
  destruct (decide (d ∈ orphans.*1)) as [Hin|Hin].
  - apply Hmem in Hin as [_ Hz]. split; [by intros []|by intros [_ []]].
  - split; [|by intros [? _]]. intros Hd. split; [done|]. intros Hz. by apply Hin, Hmem.
Qed.

(** One claimed blob and one that no proxy has: an interrupted fill. *)
Definition stray_bytes := "sha256:4444444444444444444444444444444444444444444444444444444444444444".
Definition leaky_cache : CacheWorld := mkCacheWorld warm_store {[cold := 40%Z; stray_bytes := 7%Z]} [].

Lemma SweepOrphans_exact_witness :
  ∃ r n' w', SweepOrphans small_evictor idle never no_error deletes (λ _, None) (0, leaky_cache) = (r, None, (n', w')) ∧
    cw_bytes w' !! stray_bytes = None ∧ cw_bytes w' !! cold = Some 40%Z.
Proof.
  destruct (SweepOrphans_exact small_evictor idle never no_error deletes (λ _, None) 0 leaky_cache)
    as (r & n' & w' & taken & Hrun & Hm & Ht & Hb & _); [done..| |].
  { intros d z. unfold leaky_cache. cbn [cw_bytes]. intros [[<- _]|[_ [<- _]%lookup_singleton_Some]]%lookup_insert_Some;
      vm_compute; reflexivity. }
  exists r, n', w'. split; [exact Hrun|]. rewrite !Hb, Ht. split; vm_compute; reflexivity.
Defined.
