(* ===== verification/Touch.v ===== *)
(** * Recording cache accesses and scheduling sweeps
    (src/internal/cache: touch.go, schedule.go)

    The batcher is a goroutine fed by a bounded channel. Its state is the queue,
    the batch it owns and the count of dropped accesses; an event is one case of
    its select, or a call of [Touch] by a pull. Events come in any order. *)
From S2P Require Import Prelude Meta Memory MemoryInv.

Definition DefaultTouchFlushRows : Z := 1000.
Definition DefaultTouchQueueDepth : Z := 4096.

(** The row an access accumulates into: repository, digest, kind. *)
Definition touchKey : Type := string * string * string.
Definition key_of (a : CacheAccess) : touchKey := (ca_repository a, ca_digest a, ca_kind a).

(** The sizes [NewTouchBatcher] fills in. *)
Record BatcherConfig : Type := mkBatcherConfig { bc_maxRows : Z; bc_depth : Z }.

Definition NewTouchBatcher (hasMeta : bool) (maxRows queueDepth : Z) : option BatcherConfig :=
  if negb hasMeta then None
  else Some (mkBatcherConfig (if (maxRows <=? 0)%Z then DefaultTouchFlushRows else maxRows)
               (if (queueDepth <=? 0)%Z then DefaultTouchQueueDepth else queueDepth)).

Record Batcher : Type := mkBatcher {
  b_queue : list CacheAccess;
  b_pending : gmap touchKey CacheAccess;
  b_dropped : Z;
  b_done : bool;
}.

Definition new_batcher : Batcher := mkBatcher [] ∅ 0 false.

Section batcher.
Context (c : BatcherConfig).

(** The batcher and the store it writes to. *)
Local Notation St := (Batcher * Store)%type.

(** Never blocks: an access that does not fit is counted and dropped. *)
Definition Touch (access : CacheAccess) (b : Batcher) : Batcher :=
  if (Z.of_nat (length (b_queue b)) <? bc_depth c)%Z
  then mkBatcher (b_queue b ++ [access]) (b_pending b) (b_dropped b) (b_done b)
  else mkBatcher (b_queue b) (b_pending b) (add64 (b_dropped b) 1) (b_done b).

Definition add (pending : gmap touchKey CacheAccess) (access : CacheAccess) : gmap touchKey CacheAccess :=
  match pending !! key_of access with
  | Some existing => if negb (ca_at existing <? ca_at access)%Z then pending else <[key_of access := access]> pending
  | None => <[key_of access := access]> pending
  end.

Definition drain (b : Batcher) : Batcher :=
  mkBatcher [] (foldl add (b_pending b) (b_queue b)) (b_dropped b) (b_done b).

(** The batch is emptied whatever the store answers. The map's iteration order
    is unspecified; the model takes one. *)
Definition flush (ctx : bool) (st : St) : St :=
  let '(b, s) := st in
  let b' := mkBatcher (b_queue b) ∅ 0 (b_done b) in
  if bool_decide (b_pending b = ∅) then (b', s)
  else match TouchCached ctx (map_to_list (b_pending b)).*2 s with
  | Ok s' => (b', s')
  | Err _ => (b', s)
  end.

Definition drain_flush (ctx : bool) (st : St) : St := flush ctx (drain st.1, st.2).

(** The cases of [run]'s select, and a pull's [Touch]. *)
Inductive Event : Type :=
| EvTouch (access : CacheAccess) | EvReceive | EvTick | EvFlush | EvStop (ctx : bool).

Definition step (ev : Event) (st : St) : St :=
  let '(b, s) := st in
  match ev with
  | EvTouch access => (Touch access b, s)
  | EvReceive =>
      if b_done b then st
      else match b_queue b with
      | [] => st
      | access :: queue =>
          let pending := add (b_pending b) access in
          let st := (mkBatcher queue pending (b_dropped b) false, s) in
          if (bc_maxRows c <=? Z.of_nat (size pending))%Z then flush false st else st
      end
  | EvTick | EvFlush => if b_done b then st else drain_flush false st
  | EvStop ctx =>
      if b_done b then st
      else let '(b, s) := drain_flush ctx st in (mkBatcher (b_queue b) (b_pending b) (b_dropped b) true, s)
  end.

Definition run (evs : list Event) (st : St) : St := foldl (λ st ev, step ev st) st evs.
End batcher.

(** ** The scheduler *)
Definition DefaultOrphanEvery : Z := 12.

Definition NewScheduler_orphanEvery (orphanEvery : Z) : Z :=
  if (orphanEvery =? 0)%Z then DefaultOrphanEvery else orphanEvery.

(** The trigger slot, the sweeps run, and the passes in order. *)
Inductive Pass : Type := BudgetSweep | OrphanSweep.
Record Scheduler : Type := mkScheduler { s_trigger : bool; s_sweeps : Z; s_passes : list Pass }.

Definition new_scheduler : Scheduler := mkScheduler false 0 [].

(** A trigger that finds the slot taken adds nothing. *)
Definition Trigger (s : Scheduler) : Scheduler := mkScheduler true (s_sweeps s) (s_passes s).

(** What [Run] does when a tick or a trigger wakes it. *)
Definition wake (orphanEvery : Z) (s : Scheduler) : Scheduler :=
  let sweeps := add64 (s_sweeps s) 1 in
  mkScheduler (s_trigger s) sweeps
    (s_passes s ++ BudgetSweep ::
       (if (0 <? orphanEvery)%Z && (Z.rem sweeps orphanEvery =? 0)%Z then [OrphanSweep] else [])).

Inductive SchedEvent : Type := SchedTrigger | SchedTick | SchedReceive.

(** Receiving from the slot empties it; an empty slot cannot be received from. *)
Definition sched_step (orphanEvery : Z) (s : Scheduler) (ev : SchedEvent) : Scheduler :=
  match ev with
  | SchedTrigger => Trigger s
  | SchedTick => wake orphanEvery s
  | SchedReceive => if s_trigger s then wake orphanEvery (mkScheduler false (s_sweeps s) (s_passes s)) else s
  end.
