(* ===== verification/TouchSpec.v ===== *)
(** * Properties of access recording and scheduling *)
From S2P Require Import Prelude Meta Memory MemoryInv Touch.

(** ** A touch is a maximum *)
Definition bump_manifest (at_ : Z) (m : CachedManifest) : CachedManifest :=
  mkCachedManifest (cm_repository m) (cm_digest m) (cm_mediaType m) (cm_artifactType m) (cm_subject m)
    (cm_payload m) (cm_size m) (cm_cachedAt m) (Z.max (cm_lastAccessAt m) at_).
Definition bump_blob (at_ : Z) (b : CachedBlob) : CachedBlob :=
  mkCachedBlob (cb_repository b) (cb_digest b) (cb_size b) (cb_cachedAt b) (Z.max (cb_lastAccessAt b) at_).

Definition alter2 {A} (f : A → A) (r d : string) (m : gmap string (gmap string A)) := alter (alter f d) r m.

Lemma alter2_put {A} (f : A → A) r d m x : get2 m r d = Some x → alter2 f r d m = put2 r d (f x) m.
Proof.
  unfold alter2, get2, put2, inner. intros Hx. destruct (m !! r) as [row|] eqn:Hr; [|done]. simpl in Hx.
  rewrite (alter_alt_Some _ _ _ _ Hr). simpl. f_equal. by apply alter_alt_Some.
Qed.

Lemma alter2_id {A} (f : A → A) r d m : (∀ x, get2 m r d = Some x → f x = x) → alter2 f r d m = m.
Proof.
  unfold alter2, get2. intros Hf. apply alter_id. intros row Hr. rewrite Hr in Hf. simpl in Hf. by apply alter_id.
Qed.

Lemma alter2_comm {A} (f g : A → A) r d r' d' m :
  (∀ x, f (g x) = g (f x)) → alter2 f r d (alter2 g r' d' m) = alter2 g r' d' (alter2 f r d m).
Proof.
  intros Hfg. unfold alter2. destruct (decide (r = r')) as [<-|]; [|by rewrite alter_alter_ne].
  rewrite !alter_alter_eq. apply alter_ext. intros row _. unfold compose.
  destruct (decide (d = d')) as [<-|]; [|by rewrite alter_alter_ne].
  rewrite !alter_alter_eq. apply alter_ext. intros x _. apply Hfg.
Qed.

Lemma alter2_fuse {A} (f g h : A → A) r d m :
  (∀ x, f (g x) = h x) → alter2 f r d (alter2 g r d m) = alter2 h r d m.
Proof.
  intros Hfg. unfold alter2. rewrite alter_alter_eq. apply alter_ext. intros row _. unfold compose.
  rewrite alter_alter_eq. apply alter_ext. intros x _. apply Hfg.
Qed.

Lemma touch_max s a :
  touch s a =
  if String.eqb (ca_kind a) CachedManifestKind
  then set_cachedManifests (alter2 (bump_manifest (ca_at a)) (ca_repository a) (ca_digest a) (cachedManifests s)) s
  else if String.eqb (ca_kind a) CachedBlobKind
  then set_cachedBlobs (alter2 (bump_blob (ca_at a)) (ca_repository a) (ca_digest a) (cachedBlobs s)) s
  else s.
Proof.
  unfold touch. destruct (String.eqb _ _); [|destruct (String.eqb _ _); [|done]].
  - destruct (get2 (cachedManifests s) _ _) as [m|] eqn:Hm.
    + destruct (Z.ltb_spec (cm_lastAccessAt m) (ca_at a)); simpl.
      * rewrite (alter2_put _ _ _ _ _ Hm). unfold bump_manifest. by rewrite Z.max_r by lia.
      * rewrite alter2_id; [by destruct s|]. intros x. rewrite Hm. intros [= <-]. unfold bump_manifest.
        rewrite Z.max_l by lia. by destruct m.
    + rewrite alter2_id; [by destruct s|]. intros x. by rewrite Hm.
  - destruct (get2 (cachedBlobs s) _ _) as [b|] eqn:Hb.
    + destruct (Z.ltb_spec (cb_lastAccessAt b) (ca_at a)); simpl.
      * rewrite (alter2_put _ _ _ _ _ Hb). unfold bump_blob. by rewrite Z.max_r by lia.
      * rewrite alter2_id; [by destruct s|]. intros x. rewrite Hb. intros [= <-]. unfold bump_blob.
        rewrite Z.max_l by lia. by destruct b.
    + rewrite alter2_id; [by destruct s|]. intros x. by rewrite Hb.
Qed.

Lemma touch_comm s a b : touch (touch s a) b = touch (touch s b) a.
Proof.
  rewrite !touch_max. unfold set_cachedManifests, set_cachedBlobs.
  repeat destruct (String.eqb _ _); cbn; try done; f_equal.
  - apply alter2_comm. intros m. unfold bump_manifest. simpl. f_equal. lia.
  - apply alter2_comm. intros m. unfold bump_blob. simpl. f_equal. lia.
Qed.

(** The later of two accesses to one row says all of both. *)
Lemma touch_absorb s a b : key_of a = key_of b → (ca_at a ≤ ca_at b)%Z → touch (touch s a) b = touch s b.
Proof.
  intros [= Hr Hd Hk] Hle. rewrite !touch_max, Hk. unfold set_cachedManifests, set_cachedBlobs.
  destruct (String.eqb _ _); [|destruct (String.eqb _ _); [|done]]; cbn.
  - rewrite Hr, Hd. f_equal. apply alter2_fuse. intros m. unfold bump_manifest. simpl. f_equal. lia.
  - rewrite Hr, Hd. f_equal. apply alter2_fuse. intros m. unfold bump_blob. simpl. f_equal. lia.
Qed.

Definition touches (l : list CacheAccess) (s : Store) : Store := foldl touch s l.

Lemma touches_app l1 l2 s : touches (l1 ++ l2) s = touches l2 (touches l1 s).
Proof. apply foldl_app. Qed.

Lemma touches_touch l s a : touches l (touch s a) = touch (touches l s) a.
Proof. revert s. induction l as [|b l IH]; intros s; simpl; [done|]. by rewrite touch_comm, IH. Qed.

Lemma touches_perm l1 l2 s : l1 ≡ₚ l2 → touches l1 s = touches l2 s.
Proof.
  intros Hp. revert s. induction Hp as [|x l1 l2 _ IH|x y l|l1 l2 l3 _ IH1 _ IH2]; intros s; simpl; auto.
  - by rewrite touch_comm.
  - by rewrite IH1.
Qed.

(** ** Batching *)
Definition values (p : gmap touchKey CacheAccess) : list CacheAccess := (map_to_list p).*2.

Definition keyed (p : gmap touchKey CacheAccess) : Prop := ∀ k x, p !! k = Some x → key_of x = k.

Lemma values_empty : values ∅ = [].
Proof. unfold values. by rewrite map_to_list_empty. Qed.

Lemma values_insert p k a : values (<[k := a]> p) ≡ₚ a :: values (delete k p).
Proof. unfold values. rewrite <-insert_delete_eq, map_to_list_insert by apply lookup_delete_eq. done. Qed.

Lemma values_delete p k x : p !! k = Some x → values p ≡ₚ x :: values (delete k p).
Proof. intros Hx. unfold values. by rewrite <-(map_to_list_delete _ _ _ Hx). Qed.

Lemma add_touches p a s : keyed p → touches (values (add p a)) s = touch (touches (values p) s) a.
Proof.
  intros Hk. unfold add. destruct (p !! key_of a) as [x|] eqn:Hx.
  - pose proof (Hk _ _ Hx) as Hkx. rewrite (touches_perm _ _ s (values_delete _ _ _ Hx)). simpl. rewrite touches_touch.
    destruct (Z.ltb_spec (ca_at x) (ca_at a)); simpl.
    + rewrite (touches_perm _ _ s (values_insert _ _ _)). simpl. by rewrite touches_touch, touch_absorb by (done || lia).
    + rewrite (touches_perm _ _ s (values_delete _ _ _ Hx)). simpl. rewrite touches_touch, touch_comm.
      by rewrite touch_absorb by (done || lia).
  - rewrite (touches_perm _ _ s (values_insert _ _ _)), delete_id by done. simpl. apply touches_touch.
Qed.

Lemma add_keyed p a : keyed p → keyed (add p a).
Proof.
  intros Hk. assert (keyed (<[key_of a := a]> p)) as Hi.
  { intros k x [[<- <-]|[_ Hx]]%lookup_insert_Some; auto. }
  unfold add. destruct (p !! key_of a); [|done]. by destruct (negb _).
Qed.

Definition valid (a : CacheAccess) : Prop := check_access a = Ok tt.

Lemma values_valid p : Forall valid (values p) ↔ map_Forall (λ _, valid) p.
Proof.
  unfold values. rewrite Forall_forall. split.
  - intros H k x Hx. apply H. apply (list_elem_of_fmap_2 snd _ (k, x)). by apply elem_of_map_to_list.
  - intros H x ([k y] & -> & Hy%elem_of_map_to_list)%list_elem_of_fmap. by apply (H k).
Qed.

Lemma add_valid p a : valid a → Forall valid (values p) → Forall valid (values (add p a)).
Proof.
  rewrite !values_valid. intros Ha Hp. assert (map_Forall (λ _, valid) (<[key_of a := a]> p)) as Hi by (by apply map_Forall_insert_2).
  unfold add. destruct (p !! key_of a); [|done]. by destruct (negb _).
Qed.

Lemma foldl_add q p s :
  keyed p → Forall valid (values p) → Forall valid q →
  keyed (foldl add p q) ∧ Forall valid (values (foldl add p q)) ∧
  touches (values (foldl add p q)) s = touches (values p ++ q) s.
Proof.
  revert p. induction q as [|a q IH]; intros p Hk Hp Hq; simpl; [by rewrite app_nil_r|].
  apply Forall_cons in Hq as [Ha Hq]. destruct (IH (add p a)) as (? & ? & ->); auto using add_keyed, add_valid.
  split_and!; [done..|]. rewrite !touches_app. simpl. by rewrite add_touches.
Qed.

Lemma touches_closed l s : closed (touches l s) = closed s.
Proof.
  revert s. induction l as [|a l IH]; intros s; simpl; [done|]. rewrite IH, touch_max.
  by repeat destruct (String.eqb _ _).
Qed.

(** A flush the store accepts writes the batch. *)
Lemma flush_ok b s :
  closed s = false → Forall valid (values (b_pending b)) →
  flush false (b, s) = (mkBatcher (b_queue b) ∅ 0 (b_done b), touches (values (b_pending b)) s).
Proof.
  intros Hc Hv. unfold flush. case_bool_decide as He; [by rewrite He|]. unfold TouchCached. fold (values (b_pending b)).
  destruct (values (b_pending b)) as [|a l] eqn:Hl; [by destruct He; apply map_to_list_empty_iff, (fmap_nil_inv snd)|].
  assert (enter false s = Ok tt) as -> by (unfold enter; by rewrite Hc). cbn [result_bind]. rewrite (proj2 (foldM_unit_ok check_access (a :: l))) by done. done.
Qed.

(** What the batcher has accepted: the touches that found room in the queue. *)
Fixpoint accepted (c : BatcherConfig) (evs : list Event) (st : Batcher * Store) : list CacheAccess :=
  match evs with
  | [] => []
  | ev :: evs =>
      let rest := accepted c evs (step c ev st) in
      match ev with
      | EvTouch a => if (Z.of_nat (length (b_queue st.1)) <? bc_depth c)%Z then a :: rest else rest
      | _ => rest
      end
  end.

Section batching.
Context (c : BatcherConfig).
Hypothesis Hrows : (1 ≤ bc_maxRows c)%Z.

(** The batcher owes the store [owed b]: its batch and its queue. *)
Definition owed (b : Batcher) : list CacheAccess := values (b_pending b) ++ b_queue b.

Record batcher_ok (st : Batcher * Store) : Prop := {
  bo_keyed : keyed (b_pending st.1);
  bo_valid : Forall valid (owed st.1);
  bo_queue : (Z.of_nat (length (b_queue st.1)) ≤ bc_depth c)%Z;
  bo_rows : (Z.of_nat (size (b_pending st.1)) < bc_maxRows c)%Z;
  bo_open : closed st.2 = false;
}.

Definition ev_ok (ev : Event) : Prop :=
  match ev with EvTouch a => valid a | EvStop ctx => ctx = false | _ => True end.

Lemma batcher_ok_empty q d s : Forall valid q → (Z.of_nat (length q) ≤ bc_depth c)%Z → closed s = false →
  ∀ z, batcher_ok (mkBatcher q ∅ z d, s).
Proof. intros Hq Hl Hs z. split; cbn; try done. rewrite map_size_empty. lia. Qed.

Lemma drain_flush_ok st :
  (0 ≤ bc_depth c)%Z → batcher_ok st →
  drain_flush false st = (mkBatcher [] ∅ 0 (b_done st.1), touches (owed st.1) st.2).
Proof.
  intros Hd [Hk Hv Hq Hr Ho]. destruct st as [b s]. unfold owed in *. simpl in *. apply Forall_app in Hv as [Hv1 Hv2].
  destruct (foldl_add (b_queue b) (b_pending b) s Hk Hv1 Hv2) as (_ & Hv & Ht).
  unfold drain_flush. rewrite flush_ok by done. simpl. by rewrite Ht.
Qed.

Lemma step_ok ev st :
  (0 ≤ bc_depth c)%Z → ev_ok ev → batcher_ok st →
  batcher_ok (step c ev st) ∧
  touches (owed (step c ev st).1) (step c ev st).2 =
    touches (owed st.1 ++ match ev with
                          | EvTouch a => if (Z.of_nat (length (b_queue st.1)) <? bc_depth c)%Z then [a] else []
                          | _ => []
                          end) st.2.
Proof.
  intros Hd Hev Hok. pose proof (drain_flush_ok st Hd Hok) as Hdf. pose proof Hok as [Hk Hv Hq Hr Ho].
  assert (batcher_ok (drain_flush false st) ∧
          touches (owed (drain_flush false st).1) (drain_flush false st).2 = touches (owed st.1 ++ []) st.2) as Hall.
  { rewrite Hdf, app_nil_r. split; [|done]. apply batcher_ok_empty; [done|done|by rewrite touches_closed]. }
  assert (batcher_ok st ∧ touches (owed st.1) st.2 = touches (owed st.1 ++ []) st.2) as Hid by (by rewrite app_nil_r).
  destruct st as [b s], ev as [a| | | |ctx]; cbn [step].
  - unfold Touch. cbn [fst snd] in *. destruct (Z.ltb_spec (Z.of_nat (length (b_queue b))) (bc_depth c)) as [Hroom|Hfull].
    + unfold owed in *. cbn [fst snd b_pending b_queue] in *. split; [|by rewrite (assoc_L (++))]. split; unfold owed; cbn; try done.
      * rewrite Forall_app in Hv |- *. rewrite Forall_app. split_and!; [apply Hv..|by constructor].
      * rewrite length_app. simpl. lia.
    + rewrite app_nil_r. split; [by split|done].
  - destruct (b_done b) eqn:Hdone; [done|]. destruct (b_queue b) as [|a queue] eqn:Hqueue; [done|].
    unfold owed in *. cbn [fst snd b_pending b_queue] in *. rewrite Hqueue in *. apply Forall_app in Hv as [Hv1 Hv2].
    apply Forall_cons in Hv2 as [Ha Hv2].
    assert (touches (values (add (b_pending b) a) ++ queue) s = touches ((values (b_pending b) ++ a :: queue) ++ []) s) as Ht.
    { rewrite app_nil_r, !touches_app. simpl. by rewrite add_touches. }
    simpl in Hq. destruct (Z.leb_spec (bc_maxRows c) (Z.of_nat (size (add (b_pending b) a)))).
    + rewrite flush_ok by (cbn; auto using add_valid). cbn [b_pending b_queue fst snd]. split.
      * apply batcher_ok_empty; [done|lia|by rewrite touches_closed].
      * by rewrite <-Ht, values_empty, !touches_app.
    + split; [|done]. split; unfold owed; cbn; [by apply add_keyed|apply Forall_app; auto using add_valid|lia|done|done].
  - destruct (b_done b); [exact Hid|exact Hall].
  - destruct (b_done b); [exact Hid|exact Hall].
  - simpl in Hev. subst ctx. destruct (b_done b); [done|]. rewrite Hdf in Hall |- *. cbn [fst snd b_queue b_pending b_dropped] in *.
    split; [by apply batcher_ok_empty; [| |rewrite touches_closed]|apply Hall].
Qed.

Lemma run_ok evs st :
  (0 ≤ bc_depth c)%Z → Forall ev_ok evs → batcher_ok st →
  batcher_ok (run c evs st) ∧
  touches (owed (run c evs st).1) (run c evs st).2 = touches (owed st.1 ++ accepted c evs st) st.2.
Proof.
  intros Hd. revert st. induction evs as [|ev evs IH]; intros st Hevs Hok; simpl; [by rewrite app_nil_r|].
  apply Forall_cons in Hevs as [Hev Hevs]. destruct (step_ok ev st Hd Hev Hok) as [Hok' Ht].
  destruct (IH (step c ev st) Hevs Hok') as [? Ht']. split; [done|]. etrans; [exact Ht'|]. rewrite touches_app, Ht.
  rewrite <-touches_app, <-(assoc_L (++)). f_equal. f_equal. destruct ev; try done. by destruct (_ <? _)%Z.
Qed.
End batching.

(** Batching accesses is transparent. Whatever the order of pulls, wake-ups,
    interval flushes, requested flushes and the final one, what the batcher still
    owes the store, once written, gives the store that writing each accepted
    access at once, in the order served, would have given; a flush writes it all.
    So which accesses share a batch, how the map of a batch is iterated and which
    of several accesses to a row survives aggregation do not matter. The queue
    never exceeds its depth and a batch never reaches its bound of rows. *)
Theorem batching_transparent c evs s
  (Hrows : (1 ≤ bc_maxRows c)%Z) (Hdepth : (0 ≤ bc_depth c)%Z) (Hevs : Forall ev_ok evs) (Hopen : closed s = false) :
  let '(b, s') := run c evs (new_batcher, s) in
  let seen := accepted c evs (new_batcher, s) in
  foldl touch s' (values (b_pending b) ++ b_queue b) = foldl touch s seen ∧
  (b_done b = false →
     let '(b2, s2) := step c EvFlush (b, s') in
     s2 = foldl touch s seen ∧ b_queue b2 = [] ∧ b_pending b2 = ∅) ∧
  (Z.of_nat (length (b_queue b)) ≤ bc_depth c)%Z ∧ (Z.of_nat (size (b_pending b)) < bc_maxRows c)%Z.
Proof.
  destruct (run_ok c Hrows evs (new_batcher, s) Hdepth Hevs) as [Hok Ht].
  { by apply batcher_ok_empty; [| |simpl; lia|]. }
  destruct (run c evs (new_batcher, s)) as [b s'] eqn:Hrun. cbn zeta. change (owed new_batcher) with (@nil CacheAccess) in Ht.
  simpl in Ht. split; [exact Ht|]. split; [|by destruct Hok].
  intros Hdone. cbn [step]. rewrite Hdone, (drain_flush_ok c) by done. by split.
Qed.

(** Two pulls of one cached blob and one of another, over a queue of two and
    batches of two rows; the last pull finds the queue full. *)
Definition pulls : list Event :=
  let a t d := EvTouch (mkCacheAccess "hub/app" d CachedBlobKind t) in
  [a 10 "d1"; a 12 "d1"; EvReceive; a 11 "d2"; a 13 "d2"; EvReceive; EvReceive]%Z.
Definition served_store : Store :=
  set_cachedBlobs {["hub/app" := {["d1" := mkCachedBlob "hub/app" "d1" 5 0 1; "d2" := mkCachedBlob "hub/app" "d2" 6 0 2]}]} newEmpty.
Definition small_batcher : BatcherConfig := mkBatcherConfig 2 2.

Lemma batching_transparent_witness :
  let '(b, s') := run small_batcher pulls (new_batcher, served_store) in
  foldl touch s' (values (b_pending b) ++ b_queue b) =
    foldl touch served_store (accepted small_batcher pulls (new_batcher, served_store)) ∧
  accepted small_batcher pulls (new_batcher, served_store) =
    [mkCacheAccess "hub/app" "d1" CachedBlobKind 10; mkCacheAccess "hub/app" "d1" CachedBlobKind 12;
     mkCacheAccess "hub/app" "d2" CachedBlobKind 11].
Proof.
  pose proof (batching_transparent small_batcher pulls served_store ltac:(done) ltac:(done)
    ltac:(repeat constructor) eq_refl) as H.
  destruct (run small_batcher pulls (new_batcher, served_store)) as [b s'].
  destruct H as [H _]. split; [exact H|]. vm_compute. reflexivity.
Defined.

(** ** The schedule *)
Definition passes_of (orphanEvery : Z) (i : nat) : list Pass :=
  BudgetSweep :: (if (0 <? orphanEvery)%Z && (Z.rem (Z.of_nat i) orphanEvery =? 0)%Z then [OrphanSweep] else []).

(** The passes of the first [n] sweeps. *)
Definition schedule (orphanEvery : Z) (n : nat) : list Pass := seq 1 n ≫= passes_of orphanEvery.

Definition is_orphan (p : Pass) : bool := match p with OrphanSweep => true | BudgetSweep => false end.
Definition orphan_passes (l : list Pass) : nat := length (List.filter is_orphan l).

Lemma schedule_S oe n : schedule oe (S n) = schedule oe n ++ passes_of oe (S n).
Proof. unfold schedule. rewrite seq_S, bind_app. f_equal. simpl. by rewrite app_nil_r. Qed.

Lemma schedule_orphans oe n : (0 < oe)%Z → Z.of_nat (orphan_passes (schedule oe n)) = (Z.of_nat n / oe)%Z.
Proof.
  intros Hoe. induction n as [|n IH]; [by rewrite Z.div_0_l by lia|].
  rewrite schedule_S. unfold orphan_passes in *. rewrite List.filter_app, length_app, Nat2Z.inj_add, IH.
  unfold passes_of. rewrite (proj2 (Z.ltb_lt 0 oe)), Z.rem_mod_nonneg by lia. cbn [andb].
  pose proof (Z.div_mod (Z.of_nat n) oe ltac:(lia)). pose proof (Z.mod_pos_bound (Z.of_nat n) oe Hoe).
  destruct (Z.eq_dec (Z.of_nat n mod oe + 1) oe) as [He|He].
  - rewrite (proj2 (Z.eqb_eq _ 0)); [|symmetry; apply (Z.mod_unique _ _ (Z.of_nat n / oe + 1)); lia]. cbn.
    apply (Z.div_unique _ _ _ 0); lia.
  - rewrite (proj2 (Z.eqb_neq _ 0)).
    + cbn. rewrite Z.add_0_r. apply (Z.div_unique _ _ _ (Z.of_nat n mod oe + 1)); lia.
    + rewrite <-(Z.mod_unique (Z.of_nat (S n)) oe (Z.of_nat n / oe) (Z.of_nat n mod oe + 1)); lia.
Qed.

Definition sched_run (oe : Z) (s : Scheduler) (evs : list SchedEvent) : Scheduler := foldl (sched_step oe) s evs.

(** After [n] sweeps. *)
Definition after_sweeps (oe : Z) (n : nat) (s : Scheduler) : Prop :=
  s_sweeps s = Z.of_nat n ∧ s_passes s = schedule oe n.

Lemma wake_after oe n s :
  (Z.of_nat (S n) < 2 ^ 63)%Z → after_sweeps oe n s → after_sweeps oe (S n) (wake oe s).
Proof.
  intros Hn [Hs Hp]. unfold wake, after_sweeps. cbn [s_sweeps s_passes]. rewrite Hs, Hp, schedule_S. unfold add64.
  rewrite int64_small by (unfold int64_range; lia). replace (Z.of_nat n + 1)%Z with (Z.of_nat (S n)) by lia. done.
Qed.

(** A run of events adds at most one sweep each, and a full slot is emptied only
    by starting one. *)
Lemma sched_run_after oe evs n s :
  (Z.of_nat (n + length evs) < 2 ^ 63)%Z → after_sweeps oe n s →
  ∃ m, n ≤ m ≤ n + length evs ∧ after_sweeps oe m (sched_run oe s evs) ∧
    (s_trigger s = true → s_trigger (sched_run oe s evs) = true ∨ n < m).
Proof.
  revert n s. induction evs as [|ev evs IH]; intros n s Hn Ha; simpl in *; [exists n; split_and!; auto; lia|].
  assert (after_sweeps oe n (sched_step oe s ev) ∧ (s_trigger s = true → s_trigger (sched_step oe s ev) = true) ∨
          after_sweeps oe (S n) (sched_step oe s ev)) as [[Ha' Ht]|Ha'].
  { destruct ev; simpl; [left; by destruct Ha|right; apply wake_after; [lia|done]|].
    destruct (s_trigger s) eqn:Ht; [right; apply wake_after; [lia|by destruct Ha]|left; rewrite Ht; done]. }
  - destruct (IH n _ ltac:(lia) Ha') as (m & Hm & Ham & Hsl). exists m. split_and!; [lia..|done|auto].
  - destruct (IH (S n) _ ltac:(lia) Ha') as (m & Hm & Ham & _). exists m. split_and!; [lia..|done|]. right. lia.
Qed.

(** The scheduler's passes are the schedule, and no trigger is lost. Whatever
    the order of triggers, ticks and wake-ups, at most one sweep runs per event,
    the passes are budget sweeps with an orphan pass after every
    [orphanEvery]-th (none when it is negative), and for each trigger either a
    sweep started after it or its request is still in the slot, however many
    triggers coalesced into it. *)
Theorem schedule_exact orphanEvery evs (Hlen : (Z.of_nat (length evs) < 2 ^ 63)%Z) :
  let s := sched_run orphanEvery new_scheduler evs in
  ∃ n, n ≤ length evs ∧ s_sweeps s = Z.of_nat n ∧ s_passes s = schedule orphanEvery n ∧
    Z.of_nat (orphan_passes (s_passes s)) = (if (0 <? orphanEvery)%Z then Z.of_nat n / orphanEvery else 0)%Z ∧
    ∀ evs1 evs2, evs = evs1 ++ SchedTrigger :: evs2 →
      s_trigger s = true ∨ (s_sweeps (sched_run orphanEvery new_scheduler evs1) < s_sweeps s)%Z.
Proof.
  intros s. destruct (sched_run_after orphanEvery evs 0 new_scheduler) as (n & Hn & [Hs Hp] & _); [done..|].
  exists n. fold s in Hs, Hp. split_and!; [lia|done|done| |].
  - rewrite Hp. destruct (Z.ltb_spec 0 orphanEvery); [by apply schedule_orphans|].
    unfold schedule, passes_of. rewrite (proj2 (Z.ltb_ge 0 orphanEvery)) by lia. cbn [andb].
    generalize (seq 1 n). intros l. induction l as [|x l IH]; [done|]. exact IH.
  - intros evs1 evs2 He. rewrite He, length_app in Hlen. simpl in Hlen.
    destruct (sched_run_after orphanEvery evs1 0 new_scheduler) as (n1 & Hn1 & Ha1 & _); [lia|done|].
    unfold s in *. rewrite He in *. unfold sched_run in *. rewrite foldl_app in *. simpl in *.
    destruct (sched_run_after orphanEvery evs2 n1 (Trigger (foldl (sched_step orphanEvery) new_scheduler evs1)))
      as (m & Hm & [Hm1 _] & Ht); [lia|by destruct Ha1|]. unfold sched_run in *.
    destruct (Ht eq_refl) as [|Hlt]; [by left|right]. rewrite Hm1, (proj1 Ha1). lia.
Qed.

Lemma schedule_exact_witness :
  let evs := [SchedTick; SchedTrigger; SchedTrigger; SchedReceive; SchedReceive; SchedTick; SchedTrigger] in
  let s := sched_run 2 new_scheduler evs in
  s_passes s = [BudgetSweep; BudgetSweep; OrphanSweep; BudgetSweep] ∧ s_trigger s = true ∧
  ∃ n, n ≤ 7 ∧ s_passes s = schedule 2 n.
Proof.
  intros evs s. split; [reflexivity|]. split; [reflexivity|].
  destruct (schedule_exact 2 evs ltac:(done)) as (n & Hn & _ & Hp & _). exists n. split; [exact Hn|exact Hp].
Defined.
