(* ===== verification/Identity.v ===== *)
(** * The in-memory store: identity, credentials, events

    Models src/internal/meta/memory/identity.go, credentials.go and events.go
    over the types of src/internal/meta/identity.go and credentials.go. The Go
    [Store] is one struct; its identity, credential and event tables are the
    record [IdStore] here and its content tables the record of Memory.v: no
    operation of this file reads or writes a table of the other half. One
    definition per method; a method of the Go code that holds the lock for its
    whole body is one step. *)
From S2P Require Import Prelude Meta Memory.

(** ** The data (meta/identity.go, meta/credentials.go, meta/types.go) *)
Definition User := "user".
Definition Robot := "robot".
Definition Anonymous := "anonymous".

Definition SubjectKind_Valid (k : string) : bool :=
  String.eqb k User || String.eqb k Robot || String.eqb k Anonymous.

Definition AnonymousSubjectName := "anonymous".
Definition AnonymousSubjectID := "anonymous".

Record Subject : Type := mkSubject {
  sj_id : string; sj_kind : string; sj_name : string; sj_disabled : bool; sj_createdAt : Z;
}.

Record SubjectGroup : Type := mkSubjectGroup { sg_id : string; sg_name : string; sg_createdAt : Z }.

Record Role : Type := mkRole { rl_name : string; rl_builtin : bool; rl_verbs : list string }.

Definition PrincipalSubject := "subject".
Definition PrincipalGroup := "group".

Definition PrincipalKind_Valid (k : string) : bool :=
  String.eqb k PrincipalSubject || String.eqb k PrincipalGroup.

Record Binding : Type := mkBinding {
  bd_id : string; bd_principalKind : string; bd_principalID : string; bd_role : string; bd_scope : string;
  bd_createdAt : Z;
}.

Record EffectiveBinding : Type := mkEffective { eb_binding : Binding; eb_viaGroup : string }.

Record UserCredential : Type := mkUserCredential {
  uc_subject : string; uc_hash : string; uc_mustRotate : bool; uc_rotatedAt : Z;
}.

Record RobotCredential : Type := mkRobotCredential {
  rc_subject : string; rc_secretHash : string; rc_expiresAt : Z; rc_rotatedAt : Z;
}.

Record AccessToken : Type := mkAccessToken {
  at_id : string; at_subject : string; at_name : string; at_tokenHash : string;
  at_createdAt : Z; at_expiresAt : Z; at_lastUsedAt : Z;
}.

Definition AccessToken_Expired (t : AccessToken) (now : Z) : bool :=
  negb (at_expiresAt t =? 0)%Z && negb (now <? at_expiresAt t)%Z.

Record Session : Type := mkSession {
  ss_id : string; ss_subject : string; ss_csrfToken : string;
  ss_createdAt : Z; ss_idleExpiresAt : Z; ss_absoluteExpiresAt : Z;
}.

Definition Session_Expired (s : Session) (now : Z) : bool :=
  negb (now <? ss_idleExpiresAt s)%Z || negb (now <? ss_absoluteExpiresAt s)%Z.

Record Event : Type := mkEvent {
  ev_id : string; ev_type : string; ev_repository : string; ev_resource : string; ev_actor : string;
  ev_payload : string; ev_at : Z;
}.

#[export] Instance Subject_eq_dec : EqDecision Subject. Proof. solve_decision. Defined.
#[export] Instance SubjectGroup_eq_dec : EqDecision SubjectGroup. Proof. solve_decision. Defined.
#[export] Instance Role_eq_dec : EqDecision Role. Proof. solve_decision. Defined.
#[export] Instance Binding_eq_dec : EqDecision Binding. Proof. solve_decision. Defined.
#[export] Instance Session_eq_dec : EqDecision Session. Proof. solve_decision. Defined.

(** ** The tables (memory.go) *)
Record IdStore : Type := mkIdStore {
  events : gmap string Event;
  subjects : gmap string Subject;
  subjectGroups : gmap string SubjectGroup;
  groupMembers : gmap string (gset string);
  roles : gmap string Role;
  bindings : gmap string Binding;
  userCredentials : gmap string UserCredential;
  robotCredentials : gmap string RobotCredential;
  accessTokens : gmap string AccessToken;
  sessions : gmap string Session;
  id_closed : bool;
}.

Definition set_events x s := mkIdStore x (subjects s) (subjectGroups s) (groupMembers s) (roles s) (bindings s) (userCredentials s) (robotCredentials s) (accessTokens s) (sessions s) (id_closed s).
Definition set_subjects x s := mkIdStore (events s) x (subjectGroups s) (groupMembers s) (roles s) (bindings s) (userCredentials s) (robotCredentials s) (accessTokens s) (sessions s) (id_closed s).
Definition set_subjectGroups x s := mkIdStore (events s) (subjects s) x (groupMembers s) (roles s) (bindings s) (userCredentials s) (robotCredentials s) (accessTokens s) (sessions s) (id_closed s).
Definition set_groupMembers x s := mkIdStore (events s) (subjects s) (subjectGroups s) x (roles s) (bindings s) (userCredentials s) (robotCredentials s) (accessTokens s) (sessions s) (id_closed s).
Definition set_roles x s := mkIdStore (events s) (subjects s) (subjectGroups s) (groupMembers s) x (bindings s) (userCredentials s) (robotCredentials s) (accessTokens s) (sessions s) (id_closed s).
Definition set_bindings x s := mkIdStore (events s) (subjects s) (subjectGroups s) (groupMembers s) (roles s) x (userCredentials s) (robotCredentials s) (accessTokens s) (sessions s) (id_closed s).
Definition set_userCredentials x s := mkIdStore (events s) (subjects s) (subjectGroups s) (groupMembers s) (roles s) (bindings s) x (robotCredentials s) (accessTokens s) (sessions s) (id_closed s).
Definition set_robotCredentials x s := mkIdStore (events s) (subjects s) (subjectGroups s) (groupMembers s) (roles s) (bindings s) (userCredentials s) x (accessTokens s) (sessions s) (id_closed s).
Definition set_accessTokens x s := mkIdStore (events s) (subjects s) (subjectGroups s) (groupMembers s) (roles s) (bindings s) (userCredentials s) (robotCredentials s) x (sessions s) (id_closed s).
Definition set_sessions x s := mkIdStore (events s) (subjects s) (subjectGroups s) (groupMembers s) (roles s) (bindings s) (userCredentials s) (robotCredentials s) (accessTokens s) x (id_closed s).
Definition set_id_closed x s := mkIdStore (events s) (subjects s) (subjectGroups s) (groupMembers s) (roles s) (bindings s) (userCredentials s) (robotCredentials s) (accessTokens s) (sessions s) x.

Definition id_newEmpty : IdStore := mkIdStore ∅ ∅ ∅ ∅ ∅ ∅ ∅ ∅ ∅ ∅ false.

Definition New : IdStore :=
  set_subjects {[AnonymousSubjectName := mkSubject AnonymousSubjectID Anonymous AnonymousSubjectName false 0]} id_newEmpty.

Definition id_Close (s : IdStore) : IdStore := set_id_closed true s.

Definition id_enter (ctx : bool) (s : IdStore) : result MetaError unit :=
  if ctx then Err Canceled else if id_closed s then Err Closed else Ok tt.

(** [range] over a map looking for one value that satisfies a test. *)
Definition any {A} (p : A → bool) (m : gmap string A) : bool := existsb p (map_to_list m).*2.

(** [for k, v := range m { if p(v) { delete(m, k) } }]. *)
Definition drop_where {A} (p : A → bool) (m : gmap string A) : gmap string A :=
  filter (λ kv, p kv.2 = false) m.

(** [range] over a map collecting the values, then a sort on a string key. *)
Definition sorted_values {A} (key : A → string) (l : list A) : list A := sort_on String.le key l.

(** ** Subjects *)
Definition CreateSubject (ctx : bool) (subject : Subject) (s : IdStore) : result MetaError IdStore :=
  check! id_enter ctx s in
  if String.eqb (sj_name subject) "" then Err (InvalidField "name")
  else if String.eqb (sj_id subject) "" then Err (InvalidField "id")
  else if negb (SubjectKind_Valid (sj_kind subject)) then Err (InvalidField "kind")
  else match subjects s !! sj_name subject with
  | Some _ => Err (Conflict "subject" (sj_name subject))
  | None =>
      if any (λ e, String.eqb (sj_id e) (sj_id subject)) (subjects s) then Err (Conflict "subject id" (sj_id subject))
      else Ok (set_subjects (<[sj_name subject := subject]> (subjects s)) s)
  end.

Definition GetSubject (ctx : bool) (name : string) (s : IdStore) : result MetaError Subject :=
  check! id_enter ctx s in
  match subjects s !! name with
  | None => Err (NotFound "subject" name)
  | Some subject => Ok subject
  end.

Definition ListSubjects (ctx : bool) (opts : ListOptions) (s : IdStore) : result MetaError (list Subject * string) :=
  check! id_enter ctx s in
  let names := sort_strings (filter (λ n, str_lt (lo_cursor opts) n = true) (map_to_list (subjects s)).*1) in
  let '(page, next) := page_of (EffectiveLimit opts) names in
  Ok (omap (λ n, subjects s !! n) page, next).

Definition SetSubjectDisabled (ctx : bool) (name : string) (disabled : bool) (s : IdStore) : result MetaError IdStore :=
  check! id_enter ctx s in
  match subjects s !! name with
  | None => Err (NotFound "subject" name)
  | Some sj =>
      let subject := mkSubject (sj_id sj) (sj_kind sj) (sj_name sj) disabled (sj_createdAt sj) in
      Ok (set_subjects (<[name := subject]> (subjects s)) s)
  end.

Definition dropBindings (kind id : string) (s : IdStore) : IdStore :=
  set_bindings (drop_where (λ b, String.eqb (bd_principalKind b) kind && String.eqb (bd_principalID b) id) (bindings s)) s.

Definition DeleteSubject (ctx : bool) (name : string) (s : IdStore) : result MetaError IdStore :=
  check! id_enter ctx s in
  match subjects s !! name with
  | None => Err (NotFound "subject" name)
  | Some subject =>
      if String.eqb (sj_kind subject) Anonymous then Err (InvalidField "subject")
      else
        let s := set_subjects (delete name (subjects s)) s in
        let s := set_groupMembers ((λ members, members ∖ {[name]}) <$> groupMembers s) s in
        let s := dropBindings PrincipalSubject (sj_id subject) s in
        let s := set_userCredentials (delete name (userCredentials s)) s in
        let s := set_robotCredentials (delete name (robotCredentials s)) s in
        let s := set_accessTokens (drop_where (λ t, String.eqb (at_subject t) name) (accessTokens s)) s in
        Ok (set_sessions (drop_where (λ x, String.eqb (ss_subject x) name) (sessions s)) s)
  end.

(** ** Groups *)
Definition CreateGroup (ctx : bool) (group : SubjectGroup) (s : IdStore) : result MetaError IdStore :=
  check! id_enter ctx s in
  if String.eqb (sg_name group) "" then Err (InvalidField "name")
  else if String.eqb (sg_id group) "" then Err (InvalidField "id")
  else match subjectGroups s !! sg_name group with
  | Some _ => Err (Conflict "group" (sg_name group))
  | None =>
      let s := set_subjectGroups (<[sg_name group := group]> (subjectGroups s)) s in
      Ok (set_groupMembers (<[sg_name group := ∅]> (groupMembers s)) s)
  end.

Definition GetGroup (ctx : bool) (name : string) (s : IdStore) : result MetaError SubjectGroup :=
  check! id_enter ctx s in
  match subjectGroups s !! name with
  | None => Err (NotFound "group" name)
  | Some group => Ok group
  end.

Definition ListGroups (ctx : bool) (s : IdStore) : result MetaError (list SubjectGroup) :=
  check! id_enter ctx s in
  Ok (sorted_values sg_name (map_to_list (subjectGroups s)).*2).

Definition DeleteGroup (ctx : bool) (name : string) (s : IdStore) : result MetaError IdStore :=
  check! id_enter ctx s in
  match subjectGroups s !! name with
  | None => Err (NotFound "group" name)
  | Some group =>
      let s := set_subjectGroups (delete name (subjectGroups s)) s in
      let s := set_groupMembers (delete name (groupMembers s)) s in
      Ok (dropBindings PrincipalGroup (sg_id group) s)
  end.

(** Writing to the member set of a group that has none would be a write to a
    nil map, a run-time panic. *)
Definition AddGroupMember (ctx : bool) (group subject : string) (s : IdStore) : result MetaError IdStore :=
  check! id_enter ctx s in
  match subjectGroups s !! group with
  | None => Err (NotFound "group" group)
  | Some _ =>
      match subjects s !! subject with
      | None => Err (NotFound "subject" subject)
      | Some _ =>
          match groupMembers s !! group with
          | None => Err NilMapWrite
          | Some members => Ok (set_groupMembers (<[group := {[subject]} ∪ members]> (groupMembers s)) s)
          end
      end
  end.

Definition members_of (s : IdStore) (group : string) : gset string := default ∅ (groupMembers s !! group).

Definition RemoveGroupMember (ctx : bool) (group subject : string) (s : IdStore) : result MetaError IdStore :=
  check! id_enter ctx s in
  match subjectGroups s !! group with
  | None => Err (NotFound "group" group)
  | Some _ =>
      if decide (subject ∈ members_of s group)
      then Ok (set_groupMembers (<[group := members_of s group ∖ {[subject]}]> (groupMembers s)) s)
      else Err (NotFound "group member" subject)
  end.

Definition ListGroupMemberSubjects (ctx : bool) (group : string) (s : IdStore) : result MetaError (list Subject) :=
  check! id_enter ctx s in
  match subjectGroups s !! group with
  | None => Err (NotFound "group" group)
  | Some _ => Ok (sorted_values sj_name (omap (λ n, subjects s !! n) (elements (members_of s group))))
  end.

(** The groups whose member set holds the subject; [s.subjectGroups[group]] is
    the zero group for a name with no group. *)
Definition zeroGroup : SubjectGroup := mkSubjectGroup "" "" 0.
Definition groups_with (subject : string) (s : IdStore) : list (string * SubjectGroup) :=
  (λ gm : string * gset string, (gm.1, default zeroGroup (subjectGroups s !! gm.1))) <$>
    filter (λ gm : string * gset string, subject ∈ gm.2) (map_to_list (groupMembers s)).

Definition ListSubjectGroups (ctx : bool) (subject : string) (s : IdStore) : result MetaError (list SubjectGroup) :=
  check! id_enter ctx s in
  match subjects s !! subject with
  | None => Err (NotFound "subject" subject)
  | Some _ => Ok (sorted_values sg_name (groups_with subject s).*2)
  end.

(** ** Roles *)
Definition stored_role (role : Role) : Role := mkRole (rl_name role) (rl_builtin role) (sort_strings (rl_verbs role)).

Definition PutBuiltinRole (ctx : bool) (role : Role) (s : IdStore) : result MetaError IdStore :=
  check! id_enter ctx s in
  if negb (rl_builtin role) then Err (InvalidField "role")
  else if String.eqb (rl_name role) "" then Err (InvalidField "name")
  else
    let store := Ok (set_roles (<[rl_name role := stored_role role]> (roles s)) s) in
    match roles s !! rl_name role with
    | Some existing => if negb (rl_builtin existing) then Err (Conflict "role" (rl_name role)) else store
    | None => store
    end.

Definition CreateRole (ctx : bool) (role : Role) (s : IdStore) : result MetaError IdStore :=
  check! id_enter ctx s in
  if String.eqb (rl_name role) "" then Err (InvalidField "name")
  else match roles s !! rl_name role with
  | Some _ => Err (Conflict "role" (rl_name role))
  | None => Ok (set_roles (<[rl_name role := stored_role role]> (roles s)) s)
  end.

Definition GetRole (ctx : bool) (name : string) (s : IdStore) : result MetaError Role :=
  check! id_enter ctx s in
  match roles s !! name with
  | None => Err (NotFound "role" name)
  | Some role => Ok role
  end.

Definition ListRoles (ctx : bool) (s : IdStore) : result MetaError (list Role) :=
  check! id_enter ctx s in
  Ok (sorted_values rl_name (map_to_list (roles s)).*2).

Definition UpdateRoleVerbs (ctx : bool) (name : string) (verbs : list string) (s : IdStore) : result MetaError IdStore :=
  check! id_enter ctx s in
  match roles s !! name with
  | None => Err (NotFound "role" name)
  | Some role =>
      if rl_builtin role then Err (InvalidField "role")
      else Ok (set_roles (<[name := mkRole (rl_name role) (rl_builtin role) (sort_strings verbs)]> (roles s)) s)
  end.

Definition DeleteRole (ctx : bool) (name : string) (s : IdStore) : result MetaError IdStore :=
  check! id_enter ctx s in
  match roles s !! name with
  | None => Err (NotFound "role" name)
  | Some role =>
      if rl_builtin role then Err (InvalidField "role")
      else
        let s := set_roles (delete name (roles s)) s in
        Ok (set_bindings (drop_where (λ b, String.eqb (bd_role b) name) (bindings s)) s)
  end.

(** ** Bindings *)
Definition principalExists (kind id : string) (s : IdStore) : bool :=
  if String.eqb kind PrincipalSubject then any (λ x, String.eqb (sj_id x) id) (subjects s)
  else if String.eqb kind PrincipalGroup then any (λ x, String.eqb (sg_id x) id) (subjectGroups s)
  else false.

Definition same_grant (b existing : Binding) : bool :=
  String.eqb (bd_principalKind existing) (bd_principalKind b) && String.eqb (bd_principalID existing) (bd_principalID b) &&
  String.eqb (bd_role existing) (bd_role b) && String.eqb (bd_scope existing) (bd_scope b).

Definition grant_label (b : Binding) : string :=
  bd_principalKind b +:+ "/" +:+ bd_principalID b +:+ " -> " +:+ bd_role b +:+ " @ " +:+ bd_scope b.

Definition CreateBinding (ctx : bool) (binding : Binding) (s : IdStore) : result MetaError IdStore :=
  check! id_enter ctx s in
  if String.eqb (bd_id binding) "" then Err (InvalidField "id")
  else if negb (PrincipalKind_Valid (bd_principalKind binding)) then Err (InvalidField "principal_kind")
  else if String.eqb (bd_scope binding) "" then Err (InvalidField "scope")
  else match bindings s !! bd_id binding with
  | Some _ => Err (Conflict "binding" (bd_id binding))
  | None =>
      match roles s !! bd_role binding with
      | None => Err (NotFound "role" (bd_role binding))
      | Some _ =>
          if negb (principalExists (bd_principalKind binding) (bd_principalID binding) s)
          then Err (NotFound (bd_principalKind binding) (bd_principalID binding))
          else if any (same_grant binding) (bindings s) then Err (Conflict "binding" (grant_label binding))
          else Ok (set_bindings (<[bd_id binding := binding]> (bindings s)) s)
      end
  end.

Definition GetBinding (ctx : bool) (id : string) (s : IdStore) : result MetaError Binding :=
  check! id_enter ctx s in
  match bindings s !! id with
  | None => Err (NotFound "binding" id)
  | Some binding => Ok binding
  end.

Definition ListBindings (ctx : bool) (s : IdStore) : result MetaError (list Binding) :=
  check! id_enter ctx s in
  Ok (sorted_values bd_id (map_to_list (bindings s)).*2).

Definition DeleteBinding (ctx : bool) (id : string) (s : IdStore) : result MetaError IdStore :=
  check! id_enter ctx s in
  match bindings s !! id with
  | None => Err (NotFound "binding" id)
  | Some _ => Ok (set_bindings (delete id (bindings s)) s)
  end.

(** [groupIDs]: from group id to group name, a later group of the iteration
    overwriting an earlier one with the same id. *)
Definition groupIDs (subject : string) (s : IdStore) : gmap string string :=
  foldl (λ ids g, <[sg_id g.2 := g.1]> ids) ∅ (groups_with subject s).

Definition effective_of (subject : Subject) (ids : gmap string string) (b : Binding) : option EffectiveBinding :=
  if String.eqb (bd_principalKind b) PrincipalSubject then
    if String.eqb (bd_principalID b) (sj_id subject) then Some (mkEffective b "") else None
  else if String.eqb (bd_principalKind b) PrincipalGroup then
    match ids !! bd_principalID b with
    | Some name => Some (mkEffective b name)
    | None => None
    end
  else None.

Definition ListEffectiveBindings (ctx : bool) (subjectName : string) (s : IdStore) : result MetaError (list EffectiveBinding) :=
  check! id_enter ctx s in
  match subjects s !! subjectName with
  | None => Err (NotFound "subject" subjectName)
  | Some subject =>
      if sj_disabled subject then Ok []
      else
        let ids := groupIDs subjectName s in
        Ok (sorted_values (λ e, bd_id (eb_binding e)) (omap (effective_of subject ids) (map_to_list (bindings s)).*2))
  end.

(** ** Password verifiers *)
Definition PutUserCredential (ctx : bool) (cred : UserCredential) (s : IdStore) : result MetaError IdStore :=
  check! id_enter ctx s in
  if String.eqb (uc_hash cred) "" then Err (InvalidField "hash")
  else match subjects s !! uc_subject cred with
  | None => Err (NotFound "subject" (uc_subject cred))
  | Some _ => Ok (set_userCredentials (<[uc_subject cred := cred]> (userCredentials s)) s)
  end.

Definition GetUserCredential (ctx : bool) (subject : string) (s : IdStore) : result MetaError UserCredential :=
  check! id_enter ctx s in
  match userCredentials s !! subject with
  | None => Err (NotFound "user credential" subject)
  | Some cred => Ok cred
  end.

Definition DeleteUserCredential (ctx : bool) (subject : string) (s : IdStore) : result MetaError IdStore :=
  check! id_enter ctx s in
  match userCredentials s !! subject with
  | None => Err (NotFound "user credential" subject)
  | Some _ => Ok (set_userCredentials (delete subject (userCredentials s)) s)
  end.

(** ** Robot secrets *)
Definition PutRobotCredential (ctx : bool) (cred : RobotCredential) (s : IdStore) : result MetaError IdStore :=
  check! id_enter ctx s in
  if String.eqb (rc_secretHash cred) "" then Err (InvalidField "secret_hash")
  else if (rc_expiresAt cred =? 0)%Z then Err (InvalidField "expires_at")
  else match subjects s !! rc_subject cred with
  | None => Err (NotFound "subject" (rc_subject cred))
  | Some subject =>
      if negb (String.eqb (sj_kind subject) Robot) then Err (InvalidField "subject")
      else Ok (set_robotCredentials (<[rc_subject cred := cred]> (robotCredentials s)) s)
  end.

Definition GetRobotCredential (ctx : bool) (subject : string) (now : Z) (s : IdStore) : result MetaError RobotCredential :=
  check! id_enter ctx s in
  match robotCredentials s !! subject with
  | None => Err (NotFound "robot credential" subject)
  | Some cred =>
      if negb (now <? rc_expiresAt cred)%Z then Err (NotFound "robot credential" subject) else Ok cred
  end.

Definition DeleteRobotCredential (ctx : bool) (subject : string) (s : IdStore) : result MetaError IdStore :=
  check! id_enter ctx s in
  match robotCredentials s !! subject with
  | None => Err (NotFound "robot credential" subject)
  | Some _ => Ok (set_robotCredentials (delete subject (robotCredentials s)) s)
  end.

(** ** Access tokens *)
Definition CreateAccessToken (ctx : bool) (token : AccessToken) (s : IdStore) : result MetaError IdStore :=
  check! id_enter ctx s in
  if String.eqb (at_id token) "" then Err (InvalidField "id")
  else if String.eqb (at_tokenHash token) "" then Err (InvalidField "token_hash")
  else match subjects s !! at_subject token with
  | None => Err (NotFound "subject" (at_subject token))
  | Some _ =>
      match accessTokens s !! at_id token with
      | Some _ => Err (Conflict "access token" (at_id token))
      | None =>
          if any (λ e, String.eqb (at_tokenHash e) (at_tokenHash token)) (accessTokens s)
          then Err (Conflict "access token" "hash already registered")
          else Ok (set_accessTokens (<[at_id token := token]> (accessTokens s)) s)
      end
  end.

Definition GetAccessTokenByHash (ctx : bool) (hash : string) (now : Z) (s : IdStore) : result MetaError AccessToken :=
  check! id_enter ctx s in
  if String.eqb hash "" then Err (InvalidField "hash")
  else match filter (λ t, at_tokenHash t = hash) (map_to_list (accessTokens s)).*2 with
  | token :: _ => if AccessToken_Expired token now then Err (NotFound "access token" "presented token") else Ok token
  | [] => Err (NotFound "access token" "presented token")
  end.

Definition name_then_id (a b : string * string) : Prop := str_lt a.1 b.1 = true ∨ (a.1 = b.1 ∧ String.le a.2 b.2).

#[export] Instance name_then_id_dec : RelDecision name_then_id.
Proof. intros a b. unfold name_then_id. apply _. Defined.

Definition ListAccessTokens (ctx : bool) (subject : string) (s : IdStore) : result MetaError (list AccessToken) :=
  check! id_enter ctx s in
  match subjects s !! subject with
  | None => Err (NotFound "subject" subject)
  | Some _ =>
      Ok (sort_on name_then_id (λ t, (at_name t, at_id t))
            (filter (λ t, at_subject t = subject) (map_to_list (accessTokens s)).*2))
  end.

Definition TouchAccessToken (ctx : bool) (id : string) (at_ : Z) (s : IdStore) : result MetaError IdStore :=
  check! id_enter ctx s in
  match accessTokens s !! id with
  | None => Err (NotFound "access token" id)
  | Some t =>
      let token := mkAccessToken (at_id t) (at_subject t) (at_name t) (at_tokenHash t) (at_createdAt t) (at_expiresAt t) at_ in
      Ok (set_accessTokens (<[id := token]> (accessTokens s)) s)
  end.

Definition DeleteAccessToken (ctx : bool) (id : string) (s : IdStore) : result MetaError IdStore :=
  check! id_enter ctx s in
  match accessTokens s !! id with
  | None => Err (NotFound "access token" id)
  | Some _ => Ok (set_accessTokens (delete id (accessTokens s)) s)
  end.

(** ** Sessions *)
Definition CreateSession (ctx : bool) (session : Session) (s : IdStore) : result MetaError IdStore :=
  check! id_enter ctx s in
  if String.eqb (ss_id session) "" then Err (InvalidField "id")
  else if String.eqb (ss_csrfToken session) "" then Err (InvalidField "csrf_token")
  else if (ss_idleExpiresAt session =? 0)%Z || (ss_absoluteExpiresAt session =? 0)%Z then Err (InvalidField "expiry")
  else match subjects s !! ss_subject session with
  | None => Err (NotFound "subject" (ss_subject session))
  | Some _ =>
      match sessions s !! ss_id session with
      | Some _ => Err (Conflict "session" (ss_id session))
      | None => Ok (set_sessions (<[ss_id session := session]> (sessions s)) s)
      end
  end.

Definition GetSession (ctx : bool) (id : string) (now : Z) (s : IdStore) : result MetaError Session :=
  check! id_enter ctx s in
  match sessions s !! id with
  | None => Err (NotFound "session" id)
  | Some session => if Session_Expired session now then Err (NotFound "session" id) else Ok session
  end.

Definition RefreshSession (ctx : bool) (id : string) (idleExpiresAt : Z) (s : IdStore) : result MetaError IdStore :=
  check! id_enter ctx s in
  match sessions s !! id with
  | None => Err (NotFound "session" id)
  | Some x =>
      let idle := if (ss_absoluteExpiresAt x <? idleExpiresAt)%Z then ss_absoluteExpiresAt x else idleExpiresAt in
      let session := mkSession (ss_id x) (ss_subject x) (ss_csrfToken x) (ss_createdAt x) idle (ss_absoluteExpiresAt x) in
      Ok (set_sessions (<[id := session]> (sessions s)) s)
  end.

Definition DeleteSession (ctx : bool) (id : string) (s : IdStore) : result MetaError IdStore :=
  check! id_enter ctx s in
  match sessions s !! id with
  | None => Err (NotFound "session" id)
  | Some _ => Ok (set_sessions (delete id (sessions s)) s)
  end.

Definition DeleteSubjectSessions (ctx : bool) (subject : string) (s : IdStore) : result MetaError (IdStore * nat) :=
  check! id_enter ctx s in
  let p := λ x, String.eqb (ss_subject x) subject in
  Ok (set_sessions (drop_where p (sessions s)) s, length (filter (λ x, p x = true) (map_to_list (sessions s)).*2)).

Definition DeleteExpiredSessions (ctx : bool) (before : Z) (s : IdStore) : result MetaError (IdStore * nat) :=
  check! id_enter ctx s in
  let p := λ x, Session_Expired x before in
  Ok (set_sessions (drop_where p (sessions s)) s, length (filter (λ x, p x = true) (map_to_list (sessions s)).*2)).

(** ** Events *)
Definition validEvent (e : Event) : result MetaError unit :=
  if String.eqb (ev_id e) "" then Err (InvalidField "id")
  else if String.eqb (ev_type e) "" then Err (InvalidField "type")
  else if (ev_at e =? 0)%Z then Err (InvalidField "at")
  else Ok tt.

Record tx : Type := mkTx { tx_pending : list Event; tx_done : bool }.

Definition AppendEvent (event : Event) (t : tx) : result MetaError tx :=
  if tx_done t then Err (InvalidField "tx")
  else
    check! validEvent event in
    if existsb (λ q, String.eqb (ev_id q) (ev_id event)) (tx_pending t) then Err (Conflict "event" (ev_id event))
    else Ok (mkTx (tx_pending t ++ [event]) (tx_done t)).

(** The function a caller hands to [WithinTx]: it may append events, look at
    what each append answered, and end with an error or none. *)
Inductive TxProg : Type :=
| TxReturn (err : option MetaError)
| TxAppend (event : Event) (k : option MetaError → TxProg).

Fixpoint run_tx (fn : TxProg) (t : tx) : tx * option MetaError :=
  match fn with
  | TxReturn err => (t, err)
  | TxAppend event k =>
      match AppendEvent event t with
      | Ok t' => run_tx (k None) t'
      | Err e => run_tx (k (Some e)) t
      end
  end.

(** The lock is not held while the function runs: [s] is the store when the
    transaction opens and [s'] the store when its batch is applied. The
    transaction the function may have kept is returned beside the outcome. *)
Definition apply_batch (batch : list Event) (s : IdStore) : result MetaError IdStore :=
  check! foldM (λ (_ : unit) e, match events s !! ev_id e with
                                | Some _ => Err (Conflict "event" (ev_id e))
                                | None => Ok tt
                                end) tt batch in
  Ok (set_events (foldl (λ m e, <[ev_id e := e]> m) (events s) batch) s).

Definition WithinTx (ctx : bool) (fn : TxProg) (s s' : IdStore) : result MetaError IdStore * tx :=
  match id_enter ctx s with
  | Err e => (Err e, mkTx [] false)
  | Ok _ =>
      let '(t, err) := run_tx fn (mkTx [] false) in
      let finished := mkTx (tx_pending t) true in
      match err with
      | Some e => (Err e, finished)
      | None => (apply_batch (tx_pending t) s', finished)
      end
  end.

Definition IsUnrestricted (v : Visibility) : bool := vs_unrestricted v.

Definition visibleEvent (v : Visibility) (event : Event) : bool :=
  if String.eqb (ev_repository event) "" then IsUnrestricted v else Visibility_Allows v (ev_repository event).

Definition ListEvents (ctx : bool) (opts : ListOptions) (s : IdStore) : result MetaError (list Event * string) :=
  check! id_enter ctx s in
  let ids := sort_strings (filter (λ id, str_lt (lo_cursor opts) id = true)
               (filter (λ ie, visibleEvent (lo_visibility opts) ie.2 = true) (map_to_list (events s))).*1) in
  let '(page, next) := page_of (EffectiveLimit opts) ids in
  Ok (omap (λ id, events s !! id) page, next).
