(* ===== verification/IdentityInv.v ===== *)
(** * Identity: the invariant of the store

    Every row is filed under its own key; memberships, bindings, credentials,
    tokens and sessions name subjects, groups and roles that exist; subject ids
    and token hashes are unique; no two bindings make the same grant; the
    anonymous subject is present. Each operation preserves it, so every history
    does. *)
From S2P Require Import Prelude Meta Memory Identity.

(** ** Histories *)
Inductive IdOp : Type :=
| OpCreateSubject (ctx : bool) (subject : Subject)
| OpSetSubjectDisabled (ctx : bool) (name : string) (disabled : bool)
| OpDeleteSubject (ctx : bool) (name : string)
| OpCreateGroup (ctx : bool) (group : SubjectGroup)
| OpDeleteGroup (ctx : bool) (name : string)
| OpAddGroupMember (ctx : bool) (group subject : string)
| OpRemoveGroupMember (ctx : bool) (group subject : string)
| OpPutBuiltinRole (ctx : bool) (role : Role)
| OpCreateRole (ctx : bool) (role : Role)
| OpUpdateRoleVerbs (ctx : bool) (name : string) (verbs : list string)
| OpDeleteRole (ctx : bool) (name : string)
| OpCreateBinding (ctx : bool) (binding : Binding)
| OpDeleteBinding (ctx : bool) (id : string)
| OpPutUserCredential (ctx : bool) (cred : UserCredential)
| OpDeleteUserCredential (ctx : bool) (subject : string)
| OpPutRobotCredential (ctx : bool) (cred : RobotCredential)
| OpDeleteRobotCredential (ctx : bool) (subject : string)
| OpCreateAccessToken (ctx : bool) (token : AccessToken)
| OpTouchAccessToken (ctx : bool) (id : string) (at_ : Z)
| OpDeleteAccessToken (ctx : bool) (id : string)
| OpCreateSession (ctx : bool) (session : Session)
| OpRefreshSession (ctx : bool) (id : string) (idle : Z)
| OpDeleteSession (ctx : bool) (id : string)
| OpDeleteSubjectSessions (ctx : bool) (subject : string)
| OpDeleteExpiredSessions (ctx : bool) (before : Z)
| OpWithinTx (ctx : bool) (fn : TxProg) (opened : IdStore)
| OpClose.

Definition drop_count {A B E} (r : result E (A * B)) : result E A := let! p := r in Ok p.1.

Definition exec (op : IdOp) (s : IdStore) : result MetaError IdStore :=
  match op with
  | OpCreateSubject ctx x => CreateSubject ctx x s
  | OpSetSubjectDisabled ctx n d => SetSubjectDisabled ctx n d s
  | OpDeleteSubject ctx n => DeleteSubject ctx n s
  | OpCreateGroup ctx g => CreateGroup ctx g s
  | OpDeleteGroup ctx n => DeleteGroup ctx n s
  | OpAddGroupMember ctx g n => AddGroupMember ctx g n s
  | OpRemoveGroupMember ctx g n => RemoveGroupMember ctx g n s
  | OpPutBuiltinRole ctx r => PutBuiltinRole ctx r s
  | OpCreateRole ctx r => CreateRole ctx r s
  | OpUpdateRoleVerbs ctx n v => UpdateRoleVerbs ctx n v s
  | OpDeleteRole ctx n => DeleteRole ctx n s
  | OpCreateBinding ctx b => CreateBinding ctx b s
  | OpDeleteBinding ctx id => DeleteBinding ctx id s
  | OpPutUserCredential ctx c => PutUserCredential ctx c s
  | OpDeleteUserCredential ctx n => DeleteUserCredential ctx n s
  | OpPutRobotCredential ctx c => PutRobotCredential ctx c s
  | OpDeleteRobotCredential ctx n => DeleteRobotCredential ctx n s
  | OpCreateAccessToken ctx t => CreateAccessToken ctx t s
  | OpTouchAccessToken ctx id at_ => TouchAccessToken ctx id at_ s
  | OpDeleteAccessToken ctx id => DeleteAccessToken ctx id s
  | OpCreateSession ctx x => CreateSession ctx x s
  | OpRefreshSession ctx id idle => RefreshSession ctx id idle s
  | OpDeleteSession ctx id => DeleteSession ctx id s
  | OpDeleteSubjectSessions ctx n => drop_count (DeleteSubjectSessions ctx n s)
  | OpDeleteExpiredSessions ctx b => drop_count (DeleteExpiredSessions ctx b s)
  | OpWithinTx ctx fn opened => (WithinTx ctx fn opened s).1
  | OpClose => Ok (id_Close s)
  end.

(** A failing operation leaves the store as it was. *)
Definition step (s : IdStore) (op : IdOp) : IdStore :=
  match exec op s with
  | Ok s' => s'
  | Err _ => s
  end.

Definition history (ops : list IdOp) (s : IdStore) : IdStore := foldl step s ops.

(** ** The invariant *)
Definition live (s : IdStore) (name : string) : Prop := is_Some (subjects s !! name).

Definition same_principal_grant (b b' : Binding) : Prop :=
  bd_principalKind b = bd_principalKind b' ∧ bd_principalID b = bd_principalID b' ∧
  bd_role b = bd_role b' ∧ bd_scope b = bd_scope b'.

Definition principal_live (s : IdStore) (b : Binding) : Prop :=
  (bd_principalKind b = PrincipalSubject ∧ ∃ n x, subjects s !! n = Some x ∧ sj_id x = bd_principalID b) ∨
  (bd_principalKind b = PrincipalGroup ∧ ∃ n g, subjectGroups s !! n = Some g ∧ sg_id g = bd_principalID b).

Record wf (s : IdStore) : Prop := {
  wf_subjects : map_Forall (λ n x, sj_name x = n ∧ n ≠ "" ∧ sj_id x ≠ "" ∧ SubjectKind_Valid (sj_kind x) = true) (subjects s);
  wf_subject_ids : ∀ n n' x x', subjects s !! n = Some x → subjects s !! n' = Some x' → sj_id x = sj_id x' → n = n';
  wf_anonymous : ∃ x, subjects s !! AnonymousSubjectName = Some x ∧ sj_kind x = Anonymous ∧ sj_id x = AnonymousSubjectID;
  wf_groups : map_Forall (λ n g, sg_name g = n ∧ n ≠ "" ∧ sg_id g ≠ "") (subjectGroups s);
  wf_members : ∀ g, is_Some (groupMembers s !! g) ↔ is_Some (subjectGroups s !! g);
  wf_member : ∀ g ms n, groupMembers s !! g = Some ms → n ∈ ms → live s n;
  wf_roles : map_Forall (λ n r, rl_name r = n ∧ n ≠ "" ∧ StronglySorted String.le (rl_verbs r)) (roles s);
  wf_bindings : map_Forall (λ n b, bd_id b = n ∧ n ≠ "" ∧ bd_scope b ≠ "" ∧ is_Some (roles s !! bd_role b)) (bindings s);
  wf_principals : map_Forall (λ _ b, principal_live s b) (bindings s);
  wf_grants : ∀ n n' b b', bindings s !! n = Some b → bindings s !! n' = Some b' → same_principal_grant b b' → n = n';
  wf_users : map_Forall (λ n c, uc_subject c = n ∧ uc_hash c ≠ "" ∧ live s n) (userCredentials s);
  wf_robots : map_Forall (λ n c, rc_subject c = n ∧ rc_secretHash c ≠ "" ∧ rc_expiresAt c ≠ 0%Z ∧
                            ∃ x, subjects s !! n = Some x ∧ sj_kind x = Robot) (robotCredentials s);
  wf_tokens : map_Forall (λ n t, at_id t = n ∧ n ≠ "" ∧ at_tokenHash t ≠ "" ∧ live s (at_subject t)) (accessTokens s);
  wf_hashes : ∀ n n' t t', accessTokens s !! n = Some t → accessTokens s !! n' = Some t' →
                at_tokenHash t = at_tokenHash t' → n = n';
  wf_sessions : map_Forall (λ n x, ss_id x = n ∧ n ≠ "" ∧ ss_csrfToken x ≠ "" ∧ live s (ss_subject x)) (sessions s);
  wf_events : map_Forall (λ n e, ev_id e = n ∧ validEvent e = Ok tt) (events s);
}.

(** ** Facts on the map idioms *)
Lemma any_false {A} (p : A → bool) (m : gmap string A) :
  any p m = false ↔ ∀ k x, m !! k = Some x → p x = false.
Proof.
  unfold any. rewrite <-not_true_iff_false, existsb_elem. split.
  - intros H k x Hx. apply not_true_iff_false. intros Hp. apply H. exists x. split; [|done].
    apply list_elem_of_fmap. exists (k, x). by rewrite elem_of_map_to_list.
  - intros H (x & ([k y] & -> & Hy%elem_of_map_to_list)%list_elem_of_fmap & Hp). simpl in Hp. by rewrite (H k y) in Hp.
Qed.

Lemma any_true {A} (p : A → bool) (m : gmap string A) :
  any p m = true ↔ ∃ k x, m !! k = Some x ∧ p x = true.
Proof.
  unfold any. rewrite existsb_elem. setoid_rewrite list_elem_of_fmap. split.
  - intros (x & ([k y] & -> & Hy%elem_of_map_to_list) & Hp). eauto.
  - intros (k & x & Hx & Hp). exists x. split; [|done]. exists (k, x). by rewrite elem_of_map_to_list.
Qed.

Lemma lookup_drop_where {A} (p : A → bool) (m : gmap string A) k x :
  drop_where p m !! k = Some x ↔ m !! k = Some x ∧ p x = false.
Proof. unfold drop_where. by rewrite map_lookup_filter_Some. Qed.

Lemma principal_live_exists s b :
  PrincipalKind_Valid (bd_principalKind b) = true →
  principalExists (bd_principalKind b) (bd_principalID b) s = true ↔ principal_live s b.
Proof.
  unfold principalExists, principal_live, PrincipalKind_Valid. intros Hk.
  destruct (String.eqb_spec (bd_principalKind b) PrincipalSubject) as [->|Hs].
  - rewrite any_true. setoid_rewrite String.eqb_eq. split; [by left|]. intros [[_ H]|[? _]]; [done|discriminate].
  - destruct (String.eqb_spec (bd_principalKind b) PrincipalGroup) as [->|Hg]; [|done].
    rewrite any_true. setoid_rewrite String.eqb_eq. split; [by right|]. intros [[? _]|[_ H]]; [discriminate|done].
Qed.

(** ** Every operation preserves the invariant *)
Lemma id_enter_ok ctx s u : id_enter ctx s = Ok u → ctx = false ∧ id_closed s = false.
Proof. unfold id_enter. destruct ctx, (id_closed s); done. Qed.

(** Opens a method that succeeded: one goal per successful branch. *)
Ltac open_method H :=
  repeat match type of H with
  | result_bind (id_enter ?c ?s) _ = _ =>
      let E := fresh "Hin" in destruct (id_enter c s) as [[]|] eqn:E; cbn [result_bind] in H; [|discriminate H]
  | (if ?b then _ else _) = _ => destruct b eqn:?; try discriminate H
  | match ?x with _ => _ end = _ => destruct x eqn:?; try discriminate H
  end;
  try (injection H as <-).

Ltac guards :=
  repeat match goal with
  | H : negb _ = false |- _ => apply negb_false_iff in H
  | H : negb _ = true |- _ => apply negb_true_iff in H
  | H : String.eqb _ _ = false |- _ => apply String.eqb_neq in H
  | H : String.eqb _ _ = true |- _ => apply String.eqb_eq in H
  | H : (_ =? _)%Z = false |- _ => apply Z.eqb_neq in H
  | H : _ || _ = false |- _ => apply orb_false_iff in H as [? ?]
  | H : any _ _ = false |- _ => rewrite any_false in H
  end.

(** The fields an operation does not touch. *)
Ltac wf_rest H :=
  first
    [ exact (wf_subjects _ H) | exact (wf_subject_ids _ H) | exact (wf_anonymous _ H) | exact (wf_groups _ H)
    | exact (wf_members _ H) | exact (wf_member _ H) | exact (wf_roles _ H) | exact (wf_bindings _ H)
    | exact (wf_principals _ H) | exact (wf_grants _ H) | exact (wf_users _ H) | exact (wf_robots _ H)
    | exact (wf_tokens _ H) | exact (wf_hashes _ H) | exact (wf_sessions _ H) | exact (wf_events _ H) ].

Lemma insert_live (m : gmap string Subject) n x k : is_Some (m !! k) → is_Some (<[n := x]> m !! k).
Proof. intros H. apply lookup_insert_is_Some. destruct (decide (n = k)); auto. Qed.

(** Adding or replacing a subject keeps what points at subjects, when the new
    row keeps the old one's id and kind. *)
Definition extends (m m' : gmap string Subject) : Prop :=
  ∀ n x, m !! n = Some x → ∃ x', m' !! n = Some x' ∧ sj_id x' = sj_id x ∧ sj_kind x' = sj_kind x.

Lemma extends_live m m' n : extends m m' → is_Some (m !! n) → is_Some (m' !! n).
Proof. intros He [x Hx]. destruct (He n x Hx) as (x' & Hx' & _). eauto. Qed.

Lemma wf_set_subjects m s :
  wf s → extends (subjects s) m →
  map_Forall (λ n x, sj_name x = n ∧ n ≠ "" ∧ sj_id x ≠ "" ∧ SubjectKind_Valid (sj_kind x) = true) m →
  (∀ n n' x x', m !! n = Some x → m !! n' = Some x' → sj_id x = sj_id x' → n = n') →
  wf (set_subjects m s).
Proof.
  intros Hwf He Hm Hids. constructor; cbn; try wf_rest Hwf; try done.
  - destruct (wf_anonymous _ Hwf) as (x & Hx & Hk & Hi). destruct (He _ _ Hx) as (x' & Hx' & Hi' & Hk').
    exists x'. by rewrite Hk', Hi'.
  - intros g ms n Hg Hn. eapply extends_live; [done|]. by eapply wf_member.
  - intros n b Hb. destruct (wf_principals _ Hwf n b Hb) as [[? (k & x & Hx & Hid)]|?]; [left|by right].
    destruct (He _ _ Hx) as (x' & Hx' & Hi' & _). split; [done|]. exists k, x'. by rewrite Hi'.
  - intros n c Hc. destruct (wf_users _ Hwf n c Hc) as (? & ? & ?). split_and!; [done..|]. by eapply extends_live.
  - intros n c Hc. destruct (wf_robots _ Hwf n c Hc) as (? & ? & ? & x & Hx & Hk). split_and!; [done..|].
    destruct (He _ _ Hx) as (x' & Hx' & _ & Hk'). exists x'. by rewrite Hk'.
  - intros n t Ht. destruct (wf_tokens _ Hwf n t Ht) as (? & ? & ? & ?). split_and!; [done..|]. by eapply extends_live.
  - intros n x Hx. destruct (wf_sessions _ Hwf n x Hx) as (? & ? & ? & ?). split_and!; [done..|]. by eapply extends_live.
Qed.

Lemma CreateSubject_wf ctx x s s' : wf s → CreateSubject ctx x s = Ok s' → wf s'.
Proof.
  intros Hwf H. unfold CreateSubject in H. open_method H. guards. apply wf_set_subjects; [done|..].
  - intros n y Hy. exists y. rewrite lookup_insert_ne by congruence. done.
  - apply map_Forall_insert_2; [done|apply Hwf].
  - intros n n' y y'. rewrite !lookup_insert_Some. intros [[<- <-]|[? Hy]] [[<- <-]|[? Hy']] Hid; try done.
    + exfalso. rename select (∀ k e, _) into Hnone. apply Hnone in Hy'. by apply String.eqb_neq in Hy'.
    + exfalso. rename select (∀ k e, _) into Hnone. apply Hnone in Hy. by apply String.eqb_neq in Hy.
    + by eapply (wf_subject_ids s).
Qed.

Lemma SetSubjectDisabled_wf ctx n d s s' : wf s → SetSubjectDisabled ctx n d s = Ok s' → wf s'.
Proof.
  intros Hwf H. unfold SetSubjectDisabled in H. open_method H. rename select (subjects s !! n = _) into Hx.
  apply wf_set_subjects; [done|..].
  - intros k y Hy. destruct (decide (n = k)) as [<-|]; [|exists y; by rewrite lookup_insert_ne].
    eexists. rewrite lookup_insert_eq. split; [done|]. by simplify_eq.
  - apply map_Forall_insert_2; [|apply Hwf]. exact (wf_subjects _ Hwf _ _ Hx).
  - intros k k' y y'. rewrite !lookup_insert_Some. intros [[<- <-]|[? Hy]] [[<- <-]|[? Hy']] Hid; try done;
      cbn in Hid; by eapply (wf_subject_ids s).
Qed.

(** Dropping rows of a table keeps the table's own conditions. *)
Lemma drop_where_Forall {A} (P : string → A → Prop) p (m : gmap string A) : map_Forall P m → map_Forall P (drop_where p m).
Proof. intros H n x [Hx _]%lookup_drop_where. by apply H. Qed.

Lemma drop_where_inj {A B} (f : A → B) p (m : gmap string A) :
  (∀ n n' x x', m !! n = Some x → m !! n' = Some x' → f x = f x' → n = n') →
  ∀ n n' x x', drop_where p m !! n = Some x → drop_where p m !! n' = Some x' → f x = f x' → n = n'.
Proof. intros H n n' x x' [? _]%lookup_drop_where [? _]%lookup_drop_where. eauto. Qed.

Lemma DeleteSubject_wf ctx n s s' : wf s → DeleteSubject ctx n s = Ok s' → wf s'.
Proof.
  intros Hwf H. unfold DeleteSubject in H. open_method H. guards. rename select (subjects s !! n = _) into Hx.
  assert (∀ k, k ≠ n → live s k → is_Some (delete n (subjects s) !! k)) as Hlive.
  { intros k Hk [y Hy]. exists y. by rewrite lookup_delete_ne. }
  constructor; cbn; try wf_rest Hwf.
  - apply map_Forall_delete, Hwf.
  - intros k k' y y' [_ Hy]%lookup_delete_Some [_ Hy']%lookup_delete_Some. by apply Hwf.
  - destruct (wf_anonymous _ Hwf) as (y & Hy & Hk & Hi). exists y. rewrite lookup_delete_ne by congruence. done.
  - intros g. rewrite lookup_fmap, fmap_is_Some. apply Hwf.
  - intros g ms k. rewrite lookup_fmap, fmap_Some. intros (ms' & Hg & ->) Hk. apply Hlive; [set_solver|].
    eapply wf_member; [done..|]. set_solver.
  - apply drop_where_Forall, Hwf.
  - intros k b [Hb Hp]%lookup_drop_where. apply andb_false_iff in Hp.
    destruct (wf_principals _ Hwf k b Hb) as [[Hk (j & y & Hy & Hid)]|?]; [left|by right].
    split; [done|]. exists j, y. cbn. rewrite lookup_delete_ne; [done|].
    intros ->. destruct Hp; guards; congruence.
  - intros k k' b b' [Hb _]%lookup_drop_where [Hb' _]%lookup_drop_where. exact (wf_grants _ Hwf _ _ _ _ Hb Hb').
  - intros k c [Hne Hc]%lookup_delete_Some. destruct (wf_users _ Hwf k c Hc) as (? & ? & ?). split_and!; [done..|].
    by apply Hlive.
  - intros k c [Hne Hc]%lookup_delete_Some. destruct (wf_robots _ Hwf k c Hc) as (? & ? & ? & y & Hy & ?).
    split_and!; [done..|]. exists y. by rewrite lookup_delete_ne.
  - intros k t [Ht Hp]%lookup_drop_where. guards. destruct (wf_tokens _ Hwf k t Ht) as (? & ? & ? & ?). split_and!; [done..|].
    by apply Hlive.
  - apply drop_where_inj, Hwf.
  - intros k t [Ht Hp]%lookup_drop_where. guards. destruct (wf_sessions _ Hwf k t Ht) as (? & ? & ? & ?). split_and!; [done..|].
    by apply Hlive.
Qed.

Lemma CreateGroup_wf ctx g s s' : wf s → CreateGroup ctx g s = Ok s' → wf s'.
Proof.
  intros Hwf H. unfold CreateGroup in H. open_method H. guards.
  constructor; cbn; try wf_rest Hwf.
  - apply map_Forall_insert_2; [done|apply Hwf].
  - intros n. rewrite !lookup_insert_is_Some, (wf_members _ Hwf n). done.
  - intros n ms k. rewrite lookup_insert_Some. intros [[<- <-]|[_ Hn]] Hk; [set_solver|]. by eapply (wf_member s).
  - intros n b Hb. destruct (wf_principals _ Hwf n b Hb) as [?|[? (k & x & Hx & Hid)]]; [by left|right].
    split; [done|]. exists k, x. split; [|done]. cbn. rewrite lookup_insert_ne; [done|congruence].
Qed.

Lemma DeleteGroup_wf ctx n s s' : wf s → DeleteGroup ctx n s = Ok s' → wf s'.
Proof.
  intros Hwf H. unfold DeleteGroup in H. open_method H. rename select (subjectGroups s !! n = _) into Hg.
  constructor; cbn; try wf_rest Hwf.
  - apply map_Forall_delete, Hwf.
  - intros k. rewrite !lookup_delete_is_Some, (wf_members _ Hwf k). done.
  - intros k ms j [_ Hk]%lookup_delete_Some. by eapply (wf_member s).
  - apply drop_where_Forall, Hwf.
  - intros k b [Hb Hp]%lookup_drop_where. apply andb_false_iff in Hp.
    destruct (wf_principals _ Hwf k b Hb) as [?|[Hk (j & y & Hy & Hid)]]; [by left|right].
    split; [done|]. exists j, y. cbn. rewrite lookup_delete_ne; [done|]. intros ->. destruct Hp; guards; congruence.
  - intros k k' b b' [Hb _]%lookup_drop_where [Hb' _]%lookup_drop_where. exact (wf_grants _ Hwf _ _ _ _ Hb Hb').
Qed.

Lemma wf_set_members m s :
  wf s → (∀ g, is_Some (m !! g) ↔ is_Some (subjectGroups s !! g)) →
  (∀ g ms n, m !! g = Some ms → n ∈ ms → live s n) → wf (set_groupMembers m s).
Proof. intros Hwf H1 H2. constructor; cbn; try wf_rest Hwf; done. Qed.

Lemma AddGroupMember_wf ctx g n s s' : wf s → AddGroupMember ctx g n s = Ok s' → wf s'.
Proof.
  intros Hwf H. unfold AddGroupMember in H. open_method H. rename select (groupMembers s !! g = _) into Hg.
  apply wf_set_members; [done|..].
  - intros k. rewrite lookup_insert_is_Some, (wf_members _ Hwf k). split; [|destruct (decide (g = k)); auto].
    intros [<-|[_ ?]]; [|done]. apply (wf_members _ Hwf). eauto.
  - intros k ms j. rewrite lookup_insert_Some. intros [[<- <-]|[_ Hk]] Hj; [|by eapply (wf_member s)].
    apply elem_of_union in Hj as [->%elem_of_singleton|Hj]; [unfold live; eauto|by eapply (wf_member s)].
Qed.

Lemma RemoveGroupMember_wf ctx g n s s' : wf s → RemoveGroupMember ctx g n s = Ok s' → wf s'.
Proof.
  intros Hwf H. unfold RemoveGroupMember in H. open_method H. rename select (_ ∈ members_of s g) into Hn.
  unfold members_of in *. destruct (groupMembers s !! g) as [ms|] eqn:Hg; [|set_solver]. cbn in *.
  apply wf_set_members; [done|..].
  - intros k. rewrite lookup_insert_is_Some, (wf_members _ Hwf k). split; [|destruct (decide (g = k)); auto].
    intros [<-|[_ ?]]; [|done]. apply (wf_members _ Hwf). eauto.
  - intros k ms' j. rewrite lookup_insert_Some. intros [[<- <-]|[_ Hk]] Hj; eapply (wf_member s); eauto; set_solver.
Qed.

(** A role may be added or replaced; the bindings that name it stay good. *)
Lemma wf_insert_role r s :
  wf s → rl_name r ≠ "" → StronglySorted String.le (rl_verbs r) → wf (set_roles (<[rl_name r := r]> (roles s)) s).
Proof.
  intros Hwf Hn Hs. constructor; cbn; try wf_rest Hwf.
  - apply map_Forall_insert_2; [done|apply Hwf].
  - intros n b Hb. destruct (wf_bindings _ Hwf n b Hb) as (? & ? & ? & ?). split_and!; [done..|].
    apply lookup_insert_is_Some. destruct (decide (rl_name r = bd_role b)); auto.
Qed.

Lemma stored_role_sorted r : StronglySorted String.le (rl_verbs (stored_role r)).
Proof. exact (sort_on_sorted String.le id (rl_verbs r)). Qed.

Lemma PutBuiltinRole_wf ctx r s s' : wf s → PutBuiltinRole ctx r s = Ok s' → wf s'.
Proof.
  intros Hwf H. unfold PutBuiltinRole in H. open_method H; guards;
    apply (wf_insert_role (stored_role r)); auto using stored_role_sorted.
Qed.

Lemma CreateRole_wf ctx r s s' : wf s → CreateRole ctx r s = Ok s' → wf s'.
Proof.
  intros Hwf H. unfold CreateRole in H. open_method H; guards.
  apply (wf_insert_role (stored_role r)); auto using stored_role_sorted.
Qed.

Lemma UpdateRoleVerbs_wf ctx n v s s' : wf s → UpdateRoleVerbs ctx n v s = Ok s' → wf s'.
Proof.
  intros Hwf H. unfold UpdateRoleVerbs in H. open_method H. rename select (roles s !! n = _) into Hr.
  destruct (wf_roles _ Hwf _ _ Hr) as (Hn & Hne & _). rewrite <-Hn at 1.
  match goal with |- wf (set_roles (<[_ := ?x]> _) _) => apply (wf_insert_role x) end; cbn; [done|congruence|].
  exact (sort_on_sorted String.le id v).
Qed.

Lemma wf_drop_bindings m s : wf s → m ⊆ bindings s → wf (set_bindings m s).
Proof.
  intros Hwf Hm. assert (∀ n b, m !! n = Some b → bindings s !! n = Some b) as Hb by (intros; by eapply lookup_weaken).
  constructor; cbn; try wf_rest Hwf.
  - intros n b Hn. by apply (wf_bindings _ Hwf), Hb.
  - intros n b Hn. by apply (wf_principals _ Hwf n), Hb.
  - intros n n' b b' Hn Hn'. apply (wf_grants _ Hwf); by apply Hb.
Qed.

Lemma DeleteRole_wf ctx n s s' : wf s → DeleteRole ctx n s = Ok s' → wf s'.
Proof.
  intros Hwf H. unfold DeleteRole in H. open_method H. constructor; cbn; try wf_rest Hwf.
  - apply map_Forall_delete, Hwf.
  - intros k b [Hb Hp]%lookup_drop_where. guards. destruct (wf_bindings _ Hwf k b Hb) as (? & ? & ? & ?).
    split_and!; [done..|]. by apply lookup_delete_is_Some.
  - apply drop_where_Forall, Hwf.
  - intros k k' b b' [Hb _]%lookup_drop_where [Hb' _]%lookup_drop_where. exact (wf_grants _ Hwf _ _ _ _ Hb Hb').
Qed.

Lemma same_grant_spec b b' : same_grant b b' = true ↔ same_principal_grant b' b.
Proof. unfold same_grant, same_principal_grant. rewrite !andb_true_iff, !String.eqb_eq. tauto. Qed.

Lemma CreateBinding_wf ctx b s s' : wf s → CreateBinding ctx b s = Ok s' → wf s'.
Proof.
  intros Hwf H. unfold CreateBinding in H. open_method H; guards.
  assert (principal_live s b) as Hp by by apply principal_live_exists.
  assert (∀ k b', bindings s !! k = Some b' → ¬ same_principal_grant b' b) as Hnew.
  { intros k b' Hb Hs%same_grant_spec. rename select (∀ k x, _) into Hnone. rewrite (Hnone k b' Hb) in Hs. done. }
  constructor; cbn; try wf_rest Hwf.
  - apply map_Forall_insert_2; [by eauto|apply Hwf].
  - apply map_Forall_insert_2; [done|apply Hwf].
  - intros n n' x x'. rewrite !lookup_insert_Some.
    intros [[<- <-]|[? Hx]] [[<- <-]|[? Hx']] Hs; [done|exfalso..|by eapply (wf_grants s)].
    + apply (Hnew _ _ Hx'). unfold same_principal_grant in *. naive_solver.
    + by apply (Hnew _ _ Hx).
Qed.

Lemma DeleteBinding_wf ctx id s s' : wf s → DeleteBinding ctx id s = Ok s' → wf s'.
Proof. intros Hwf H. unfold DeleteBinding in H. open_method H. apply wf_drop_bindings; [done|apply delete_subseteq]. Qed.

(** ** Credentials *)
Lemma PutUserCredential_wf ctx c s s' : wf s → PutUserCredential ctx c s = Ok s' → wf s'.
Proof.
  intros Hwf H. unfold PutUserCredential in H. open_method H; guards. constructor; cbn; try wf_rest Hwf.
  apply map_Forall_insert_2; [|apply Hwf]. unfold live. cbn. eauto.
Qed.

Lemma DeleteUserCredential_wf ctx n s s' : wf s → DeleteUserCredential ctx n s = Ok s' → wf s'.
Proof.
  intros Hwf H. unfold DeleteUserCredential in H. open_method H. constructor; cbn; try wf_rest Hwf.
  apply map_Forall_delete, Hwf.
Qed.

Lemma PutRobotCredential_wf ctx c s s' : wf s → PutRobotCredential ctx c s = Ok s' → wf s'.
Proof.
  intros Hwf H. unfold PutRobotCredential in H. open_method H; guards. constructor; cbn; try wf_rest Hwf.
  apply map_Forall_insert_2; [|apply Hwf]. eauto 10.
Qed.

Lemma DeleteRobotCredential_wf ctx n s s' : wf s → DeleteRobotCredential ctx n s = Ok s' → wf s'.
Proof.
  intros Hwf H. unfold DeleteRobotCredential in H. open_method H. constructor; cbn; try wf_rest Hwf.
  apply map_Forall_delete, Hwf.
Qed.

Lemma CreateAccessToken_wf ctx t s s' : wf s → CreateAccessToken ctx t s = Ok s' → wf s'.
Proof.
  intros Hwf H. unfold CreateAccessToken in H. open_method H; guards. constructor; cbn; try wf_rest Hwf.
  - apply map_Forall_insert_2; [|apply Hwf]. unfold live. cbn. eauto.
  - rename select (∀ k x, _) into Hnew. intros n n' x x'. rewrite !lookup_insert_Some.
    intros [[<- <-]|[? Hx]] [[<- <-]|[? Hx']] Hs; [done|exfalso..|by eapply (wf_hashes s)].
    + apply Hnew in Hx'. by apply String.eqb_neq in Hx'.
    + apply Hnew in Hx. by apply String.eqb_neq in Hx.
Qed.

Lemma TouchAccessToken_wf ctx id at_ s s' : wf s → TouchAccessToken ctx id at_ s = Ok s' → wf s'.
Proof.
  intros Hwf H. unfold TouchAccessToken in H. open_method H. rename select (accessTokens s !! id = _) into Ht.
  constructor; cbn; try wf_rest Hwf.
  - apply map_Forall_insert_2; [|apply Hwf]. exact (wf_tokens _ Hwf _ _ Ht).
  - intros n n' x x'. rewrite !lookup_insert_Some.
    intros [[<- <-]|[? Hx]] [[<- <-]|[? Hx']] Hs; cbn in Hs; try done; by eapply (wf_hashes s).
Qed.

Lemma DeleteAccessToken_wf ctx id s s' : wf s → DeleteAccessToken ctx id s = Ok s' → wf s'.
Proof.
  intros Hwf H. unfold DeleteAccessToken in H. open_method H. constructor; cbn; try wf_rest Hwf.
  - apply map_Forall_delete, Hwf.
  - intros n n' x x' [_ Hx]%lookup_delete_Some [_ Hx']%lookup_delete_Some. exact (wf_hashes _ Hwf _ _ _ _ Hx Hx').
Qed.

(** ** Sessions *)
Lemma wf_set_sessions m s :
  wf s → map_Forall (λ n x, ss_id x = n ∧ n ≠ "" ∧ ss_csrfToken x ≠ "" ∧ live s (ss_subject x)) m → wf (set_sessions m s).
Proof. intros Hwf H. constructor; cbn; try wf_rest Hwf; done. Qed.

Lemma CreateSession_wf ctx x s s' : wf s → CreateSession ctx x s = Ok s' → wf s'.
Proof.
  intros Hwf H. unfold CreateSession in H. open_method H; guards. apply wf_set_sessions; [done|].
  apply map_Forall_insert_2; [|apply Hwf]. unfold live. eauto.
Qed.

Lemma RefreshSession_wf ctx id idle s s' : wf s → RefreshSession ctx id idle s = Ok s' → wf s'.
Proof.
  intros Hwf H. unfold RefreshSession in H. open_method H. rename select (sessions s !! id = _) into Hx.
  apply wf_set_sessions; [done|]. apply map_Forall_insert_2; [|apply Hwf]. exact (wf_sessions _ Hwf _ _ Hx).
Qed.

Lemma DeleteSession_wf ctx id s s' : wf s → DeleteSession ctx id s = Ok s' → wf s'.
Proof.
  intros Hwf H. unfold DeleteSession in H. open_method H. apply wf_set_sessions; [done|]. apply map_Forall_delete, Hwf.
Qed.

Lemma drop_sessions_wf p s : wf s → wf (set_sessions (drop_where p (sessions s)) s).
Proof. intros Hwf. apply wf_set_sessions; [done|]. apply drop_where_Forall, Hwf. Qed.

(** ** Transactions *)
Lemma AppendEvent_valid e t t' : AppendEvent e t = Ok t' → validEvent e = Ok tt ∧ tx_pending t' = tx_pending t ++ [e].
Proof.
  unfold AppendEvent. destruct (tx_done t); [done|]. destruct (validEvent e) as [[]|]; [|done]. cbn [result_bind].
  destruct (existsb _ _); [done|]. intros [= <-]. done.
Qed.

Lemma run_tx_valid fn t :
  Forall (λ e, validEvent e = Ok tt) (tx_pending t) → Forall (λ e, validEvent e = Ok tt) (tx_pending (run_tx fn t).1).
Proof.
  revert t. induction fn as [err|e k IH]; intros t Ht; [done|]. cbn [run_tx].
  destruct (AppendEvent e t) as [t'|err] eqn:H; [|by apply IH]. apply IH.
  apply AppendEvent_valid in H as [He ->]. by apply Forall_app_2, Forall_singleton.
Qed.

Lemma fold_events_valid batch (m : gmap string Event) :
  Forall (λ e, validEvent e = Ok tt) batch → map_Forall (λ n e, ev_id e = n ∧ validEvent e = Ok tt) m →
  map_Forall (λ n e, ev_id e = n ∧ validEvent e = Ok tt) (foldl (λ m e, <[ev_id e := e]> m) m batch).
Proof.
  intros Hb. revert m. induction Hb as [|e batch He Hb IH]; intros m Hm; [done|]. cbn. apply IH.
  by apply map_Forall_insert_2.
Qed.

Lemma WithinTx_wf ctx fn opened s s' : wf s → (WithinTx ctx fn opened s).1 = Ok s' → wf s'.
Proof.
  intros Hwf H. unfold WithinTx in H. destruct (id_enter ctx opened); [|done].
  pose proof (run_tx_valid fn (mkTx [] false) (Forall_nil_2 _)) as Hv.
  destruct (run_tx fn (mkTx [] false)) as [t [err|]]; [done|]. cbn in H. unfold apply_batch in H. inv_result.
  constructor; cbn; try wf_rest Hwf. apply fold_events_valid; [done|apply Hwf].
Qed.

(** ** Histories *)
Lemma drop_count_ok {A B E} (r : result E (A * B)) a : drop_count r = Ok a → ∃ n, r = Ok (a, n).
Proof. unfold drop_count. destruct r as [[x n]|]; cbn; [|done]. intros [= <-]. eauto. Qed.

Lemma exec_wf op s s' : wf s → exec op s = Ok s' → wf s'.
Proof.
  intros Hwf. destruct op; cbn [exec]; intros H.
  - exact (CreateSubject_wf _ _ _ _ Hwf H).
  - exact (SetSubjectDisabled_wf _ _ _ _ _ Hwf H).
  - exact (DeleteSubject_wf _ _ _ _ Hwf H).
  - exact (CreateGroup_wf _ _ _ _ Hwf H).
  - exact (DeleteGroup_wf _ _ _ _ Hwf H).
  - exact (AddGroupMember_wf _ _ _ _ _ Hwf H).
  - exact (RemoveGroupMember_wf _ _ _ _ _ Hwf H).
  - exact (PutBuiltinRole_wf _ _ _ _ Hwf H).
  - exact (CreateRole_wf _ _ _ _ Hwf H).
  - exact (UpdateRoleVerbs_wf _ _ _ _ _ Hwf H).
  - exact (DeleteRole_wf _ _ _ _ Hwf H).
  - exact (CreateBinding_wf _ _ _ _ Hwf H).
  - exact (DeleteBinding_wf _ _ _ _ Hwf H).
  - exact (PutUserCredential_wf _ _ _ _ Hwf H).
  - exact (DeleteUserCredential_wf _ _ _ _ Hwf H).
  - exact (PutRobotCredential_wf _ _ _ _ Hwf H).
  - exact (DeleteRobotCredential_wf _ _ _ _ Hwf H).
  - exact (CreateAccessToken_wf _ _ _ _ Hwf H).
  - exact (TouchAccessToken_wf _ _ _ _ _ Hwf H).
  - exact (DeleteAccessToken_wf _ _ _ _ Hwf H).
  - exact (CreateSession_wf _ _ _ _ Hwf H).
  - exact (RefreshSession_wf _ _ _ _ _ Hwf H).
  - exact (DeleteSession_wf _ _ _ _ Hwf H).
  - apply drop_count_ok in H as [n H]. unfold DeleteSubjectSessions in H. open_method H. by apply drop_sessions_wf.
  - apply drop_count_ok in H as [n H]. unfold DeleteExpiredSessions in H. open_method H. by apply drop_sessions_wf.
  - exact (WithinTx_wf _ _ _ _ _ Hwf H).
  - injection H as <-. constructor; cbn; wf_rest Hwf.
Qed.

Lemma id_step_wf op s : wf s → wf (step s op).
Proof. intros Hwf. unfold step. destruct (exec op s) eqn:H; [by eapply exec_wf|done]. Qed.

Lemma id_history_wf ops s : wf s → wf (history ops s).
Proof. revert s. induction ops as [|op ops IH]; intros s Hwf; [done|]. apply IH. by apply id_step_wf. Qed.

Lemma id_New_wf : wf New.
Proof.
  constructor; cbn [New id_newEmpty set_subjects events subjects subjectGroups groupMembers roles bindings
    userCredentials robotCredentials accessTokens sessions]; try apply map_Forall_empty.
  - apply map_Forall_singleton. split_and!; done.
  - intros n n' x x' [<- <-]%lookup_singleton_Some [<- <-]%lookup_singleton_Some. done.
  - eexists. by rewrite lookup_singleton_eq.
  - intros g. by rewrite !lookup_empty.
  - intros g ms n. by rewrite lookup_empty.
  - intros n n' b b'. by rewrite lookup_empty.
  - intros n n' b b'. by rewrite lookup_empty.
Qed.
