(* ===== verification/IdentitySpec.v ===== *)
(** * Identity: what the store promises

    The bindings that reach a subject, what a fresh or a deleted subject holds,
    which roles can change, how long a session lives, and what a transaction
    leaves in the event log, over every history of the store. *)
From S2P Require Import Prelude Meta Memory MemoryInv MemorySpec Identity IdentityInv.

(** ** Membership and the bindings that reach a subject *)
Lemma elem_of_groups_with s subject name g :
  wf s → (name, g) ∈ groups_with subject s ↔ subject ∈ members_of s name ∧ subjectGroups s !! name = Some g.
Proof.
  intros Hwf. unfold groups_with, members_of. rewrite list_elem_of_fmap. split.
  - intros ([n ms] & [= -> ->] & [Hin Hn%elem_of_map_to_list]%list_elem_of_filter). cbn in *. rewrite Hn. cbn.
    split; [done|]. destruct (wf_members _ Hwf n) as [H _]. destruct H as [g' ->]; eauto.
  - intros [Hin Hg]. destruct (groupMembers s !! name) as [ms|] eqn:Hn; cbn in Hin; [|set_solver].
    exists (name, ms). cbn. rewrite Hg. split; [done|]. apply list_elem_of_filter. by rewrite elem_of_map_to_list.
Qed.

Lemma foldl_insert_lookup {A} (key : A → string) (val : A → string) l (m : gmap string string) id name :
  foldl (λ ids g, <[key g := val g]> ids) m l !! id = Some name →
  m !! id = Some name ∨ ∃ g, g ∈ l ∧ key g = id ∧ val g = name.
Proof.
  revert m. induction l as [|g l IH]; intros m H; [by left|]. cbn in H.
  destruct (IH _ H) as [Hm|(g' & Hg' & Hk)].
  - apply lookup_insert_Some in Hm as [[<- <-]|[_ Hm]]; [|by left]. right. exists g. split; [by left|done].
  - right. exists g'. split; [by right|done].
Qed.

Lemma foldl_insert_dom {A} (key : A → string) (val : A → string) l (m : gmap string string) id :
  is_Some (m !! id) ∨ (∃ g, g ∈ l ∧ key g = id) → is_Some (foldl (λ ids g, <[key g := val g]> ids) m l !! id).
Proof.
  revert m. induction l as [|g l IH]; intros m H; cbn; [destruct H as [H|(g & Hg & _)]; [done|by apply not_elem_of_nil in Hg]|].
  apply IH. destruct H as [H|(g' & [->|Hg']%elem_of_cons & Hk)].
  - left. apply lookup_insert_is_Some. destruct (decide (key g = id)); auto.
  - left. rewrite Hk. rewrite lookup_insert_eq. eauto.
  - right. eauto.
Qed.

Lemma groupIDs_Some s subject id name :
  wf s → groupIDs subject s !! id = Some name →
  subject ∈ members_of s name ∧ ∃ g, subjectGroups s !! name = Some g ∧ sg_id g = id.
Proof.
  intros Hwf H. apply foldl_insert_lookup in H as [H|([n g] & Hg & Hid & Hn)]; [by rewrite lookup_empty in H|].
  cbn in *. subst. apply elem_of_groups_with in Hg as [? ?]; eauto.
Qed.

Lemma groupIDs_dom s subject name g :
  wf s → subject ∈ members_of s name → subjectGroups s !! name = Some g → is_Some (groupIDs subject s !! sg_id g).
Proof.
  intros Hwf Hm Hg. apply foldl_insert_dom. right. exists (name, g). split; [|done]. by apply elem_of_groups_with.
Qed.

(** [b] is attached to the subject itself, or to a group the subject is in. *)
Definition reaches_directly (s : IdStore) (subject : string) (b : Binding) : Prop :=
  bd_principalKind b = PrincipalSubject ∧ ∃ x, subjects s !! subject = Some x ∧ sj_id x = bd_principalID b.

Definition reaches_through (s : IdStore) (subject group : string) (b : Binding) : Prop :=
  bd_principalKind b = PrincipalGroup ∧ subject ∈ members_of s group ∧
  ∃ g, subjectGroups s !! group = Some g ∧ sg_id g = bd_principalID b.

Definition reaches (s : IdStore) (subject : string) (b : Binding) : Prop :=
  reaches_directly s subject b ∨ ∃ group, reaches_through s subject group b.

Lemma effective_of_spec s subject x b e :
  wf s → subjects s !! subject = Some x → effective_of x (groupIDs subject s) b = Some e →
  eb_binding e = b ∧
  ((reaches_directly s subject b ∧ eb_viaGroup e = "") ∨ reaches_through s subject (eb_viaGroup e) b).
Proof.
  intros Hwf Hx. unfold effective_of, reaches_directly, reaches_through.
  destruct (String.eqb_spec (bd_principalKind b) PrincipalSubject) as [->|Hs].
  - destruct (String.eqb_spec (bd_principalID b) (sj_id x)) as [Hid|]; [|done]. intros [= <-]. cbn. naive_solver.
  - destruct (String.eqb_spec (bd_principalKind b) PrincipalGroup) as [->|Hg]; [|done].
    destruct (groupIDs subject s !! bd_principalID b) as [name|] eqn:Hn; [|done]. intros [= <-]. cbn.
    split; [done|]. right. split; [done|]. by apply groupIDs_Some.
Qed.

Lemma effective_of_reaches s subject x b :
  wf s → subjects s !! subject = Some x → reaches s subject b → is_Some (effective_of x (groupIDs subject s) b).
Proof.
  intros Hwf Hx [[Hk (x' & Hx' & Hid)]|(g & Hk & Hm & grp & Hg & Hid)]; unfold effective_of; rewrite Hk; cbn.
  - simplify_eq. rewrite <-Hid, String.eqb_refl. eauto.
  - rewrite <-Hid. destruct (groupIDs_dom s subject g grp Hwf Hm Hg) as [n ->]. eauto.
Qed.

Lemma sorted_keys {A} (key : A → string) (l : list A) :
  StronglySorted (on_key String.le key) l → StronglySorted String.le (key <$> l).
Proof. induction 1; cbn; constructor; [done|]. by apply Forall_fmap. Qed.

(** Binding ids of a sublist of the stored bindings are distinct. *)
Lemma bindings_ids_nodup s : wf s → NoDup (bd_id <$> (map_to_list (bindings s)).*2).
Proof.
  intros Hwf. rewrite <-list_fmap_compose.
  rewrite (list_fmap_ext (bd_id ∘ snd) fst (map_to_list (bindings s))); [apply NoDup_fst_map_to_list|].
  intros i [n b] Hi%list_elem_of_lookup_2%elem_of_map_to_list. cbn. by apply (wf_bindings _ Hwf).
Qed.

Lemma omap_key_sublist {A B C} (f : A → option B) (key : B → C) (key' : A → C) (l : list A) :
  (∀ a b, f a = Some b → key b = key' a) → (key <$> omap f l) `sublist_of` (key' <$> l).
Proof.
  intros H. induction l as [|a l IH]; [done|]. cbn. destruct (f a) as [b|] eqn:Hf; cbn; [|by constructor].
  rewrite (H _ _ Hf). by constructor.
Qed.

Lemma elem_of_values {A} (m : gmap string A) x : x ∈ (map_to_list m).*2 ↔ ∃ k, m !! k = Some x.
Proof.
  rewrite list_elem_of_fmap. split.
  - intros ([k y] & -> & H%elem_of_map_to_list). eauto.
  - intros [k H]. exists (k, x). by rewrite elem_of_map_to_list.
Qed.

Lemma effective_exact s subject x :
  wf s → id_closed s = false → subjects s !! subject = Some x →
  ∃ l, ListEffectiveBindings false subject s = Ok l ∧
    StronglySorted String.le ((λ e, bd_id (eb_binding e)) <$> l) ∧ NoDup ((λ e, bd_id (eb_binding e)) <$> l) ∧
    (∀ b, (∃ e, e ∈ l ∧ eb_binding e = b) ↔
          sj_disabled x = false ∧ reaches s subject b ∧ ∃ k, bindings s !! k = Some b) ∧
    (∀ e, e ∈ l → (reaches_directly s subject (eb_binding e) ∧ eb_viaGroup e = "") ∨
                  reaches_through s subject (eb_viaGroup e) (eb_binding e)).
Proof.
  intros Hwf Hopen Hx. unfold ListEffectiveBindings, id_enter. rewrite Hopen. cbn [result_bind]. rewrite Hx.
  destruct (sj_disabled x) eqn:Hd.
  { exists []. split_and!; [done|constructor|constructor| |by intros e He%not_elem_of_nil].
    intros b. split; [by intros (e & He%not_elem_of_nil & _)|by intros (? & _)]. }
  eexists. split; [done|]. unfold sorted_values.
  set (l := omap _ _).
  assert (∀ e, e ∈ sort_on String.le (λ e, bd_id (eb_binding e)) l ↔
            ∃ k b, bindings s !! k = Some b ∧ effective_of x (groupIDs subject s) b = Some e) as Hl.
  { intros e. rewrite sort_on_elem. unfold l. rewrite list_elem_of_omap. setoid_rewrite elem_of_values. naive_solver. }
  split_and!.
  - apply sorted_keys, sort_on_sorted; apply _.
  - rewrite (sort_on_perm String.le). eapply sublist_NoDup; [exact (bindings_ids_nodup s Hwf)|].
    apply omap_key_sublist. intros b e He. by apply (effective_of_spec s subject) in He as [-> _].
  - intros b. setoid_rewrite Hl. split.
    + intros (e & (k & b' & Hb & He) & <-). apply (effective_of_spec s subject) in He as [-> Hr]; [|done..].
      split; [done|]. split; [|eauto]. unfold reaches. naive_solver.
    + intros (_ & Hr & k & Hb). destruct (effective_of_reaches s subject x b Hwf Hx Hr) as [e He].
      exists e. split; [eauto|]. by apply (effective_of_spec s subject) in He as [-> _].
  - intros e (k & b & Hb & He)%Hl. by apply (effective_of_spec s subject) in He as [-> Hr].
Qed.

(** The bindings the store reports for a subject are exactly those that
    reach it, in every state a history of the store can lead to. For an enabled
    subject each stored binding attached to the subject or to a group it is in
    is listed once, ordered by id, with the group that carried it (or nothing
    when attached directly); a disabled subject has none, an unknown one is not
    found. *)
Theorem effective_bindings_exact ops subject :
  let s := history ops New in
  id_closed s = false →
  match subjects s !! subject with
  | None => ListEffectiveBindings false subject s = Err (NotFound "subject" subject)
  | Some x =>
      ∃ l, ListEffectiveBindings false subject s = Ok l ∧
        StronglySorted String.le ((λ e, bd_id (eb_binding e)) <$> l) ∧ NoDup ((λ e, bd_id (eb_binding e)) <$> l) ∧
        (∀ b, (∃ e, e ∈ l ∧ eb_binding e = b) ↔
              sj_disabled x = false ∧ reaches s subject b ∧ ∃ k, bindings s !! k = Some b) ∧
        (∀ e, e ∈ l → (reaches_directly s subject (eb_binding e) ∧ eb_viaGroup e = "") ∨
                      reaches_through s subject (eb_viaGroup e) (eb_binding e))
  end.
Proof.
  intros s Hopen. assert (wf s) as Hwf by apply id_history_wf, id_New_wf.
  destruct (subjects s !! subject) as [x|] eqn:Hx; [by apply effective_exact|].
  unfold ListEffectiveBindings, id_enter. rewrite Hopen. cbn [result_bind]. by rewrite Hx.
Qed.

(** A store with a user in a group, a role, a binding to each, and a token. *)
Definition demo_ops : list IdOp :=
  [OpCreateSubject false (mkSubject "u1" User "alice" false 1);
   OpCreateSubject false (mkSubject "u2" User "bob" false 1);
   OpCreateGroup false (mkSubjectGroup "g1" "platform" 1);
   OpAddGroupMember false "platform" "alice";
   OpCreateRole false (mkRole "reader" false ["repo:read"; "repo:list"]);
   OpCreateBinding false (mkBinding "b2" PrincipalSubject "u1" "reader" "team-a/*" 1);
   OpCreateBinding false (mkBinding "b1" PrincipalGroup "g1" "reader" "team-b/*" 1);
   OpCreateAccessToken false (mkAccessToken "t1" "alice" "laptop" "h1" 1 0 0);
   OpCreateSession false (mkSession "s1" "alice" "csrf" 1 50 100)].

Lemma effective_bindings_exact_witness :
  id_closed (history demo_ops New) = false ∧
  match subjects (history demo_ops New) !! "alice" with
  | None => False
  | Some x =>
      ∃ l, ListEffectiveBindings false "alice" (history demo_ops New) = Ok l ∧
        (∀ e, e ∈ l → (reaches_directly (history demo_ops New) "alice" (eb_binding e) ∧ eb_viaGroup e = "") ∨
                      reaches_through (history demo_ops New) "alice" (eb_viaGroup e) (eb_binding e))
  end.
Proof.
  assert (id_closed (history demo_ops New) = false) as Hopen by (vm_compute; reflexivity).
  split; [exact Hopen|]. pose proof (effective_bindings_exact demo_ops "alice" Hopen) as H. cbv zeta in H.
  destruct (subjects (history demo_ops New) !! "alice") as [x|] eqn:Hx.
  - destruct H as (l & Hl & _ & _ & _ & He). exists l. split; [exact Hl|exact He].
  - vm_compute in Hx. discriminate Hx.
Defined.

Lemma demo_effective :
  ListEffectiveBindings false "alice" (history demo_ops New) =
    Ok [mkEffective (mkBinding "b1" PrincipalGroup "g1" "reader" "team-b/*" 1) "platform";
        mkEffective (mkBinding "b2" PrincipalSubject "u1" "reader" "team-a/*" 1) ""] ∧
  ListEffectiveBindings false "bob" (history demo_ops New) = Ok [].
Proof. split; vm_compute; reflexivity. Qed.

(** ** Fresh subjects *)
Lemma not_live_member s n g : wf s → subjects s !! n = None → n ∉ members_of s g.
Proof.
  intros Hwf Hn Hin. unfold members_of in Hin. destruct (groupMembers s !! g) as [ms|] eqn:Hg; [|set_solver].
  destruct (wf_member _ Hwf g ms n Hg Hin) as [x Hx]. congruence.
Qed.

Lemma groups_with_nil s n : (∀ g, n ∉ members_of s g) → groups_with n s = [].
Proof.
  intros Hn. unfold groups_with. rewrite filter_none; [done|].
  intros [g ms] Hg%elem_of_map_to_list. cbn. specialize (Hn g). unfold members_of in Hn. by rewrite Hg in Hn.
Qed.

Lemma fresh_not_reached s x b k :
  wf s → subjects s !! sj_name x = None → (∀ k y, subjects s !! k = Some y → sj_id y ≠ sj_id x) →
  bindings s !! k = Some b → effective_of x ∅ b = None.
Proof.
  intros Hwf Hn Hid Hb. unfold effective_of. destruct (wf_principals _ Hwf k b Hb) as [[-> (j & y & Hy & Hp)]|[-> _]]; cbn.
  - rewrite <-Hp. destruct (String.eqb_spec (sj_id y) (sj_id x)) as [He|]; [|done]. by apply Hid in Hy.
  - by rewrite lookup_empty.
Qed.

Lemma omap_none {A B} (f : A → option B) l : (∀ a, a ∈ l → f a = None) → omap f l = [].
Proof. induction l as [|a l IH]; intros H; [done|]. cbn. rewrite (H a) by by left. apply IH. intros. apply H. by right. Qed.

(** C29: A subject starts with nothing. Whatever history came before - another
    subject of the same name with grants, secrets and sessions, deleted since,
    included - a subject just created is in no group, no binding reaches it, and
    no password, robot secret, access token or session is its own. *)
Theorem fresh_subject_holds_nothing ops ctx x s' :
  CreateSubject ctx x (history ops New) = Ok s' →
  let n := sj_name x in
  ListSubjectGroups false n s' = Ok [] ∧
  ListEffectiveBindings false n s' = Ok [] ∧
  ListAccessTokens false n s' = Ok [] ∧
  GetUserCredential false n s' = Err (NotFound "user credential" n) ∧
  (∀ now, GetRobotCredential false n now s' = Err (NotFound "robot credential" n)) ∧
  (∀ id now session, GetSession false id now s' = Ok session → ss_subject session ≠ n).
Proof.
  set (s := history ops New). assert (wf s) as Hwf by apply id_history_wf, id_New_wf. intros H n.
  unfold CreateSubject in H. open_method H. guards. apply id_enter_ok in Hin as [-> Hopen].
  rename select (subjects s !! _ = None) into Hn. rename select (∀ k e, _) into Hids.
  assert (∀ k y, subjects s !! k = Some y → sj_id y ≠ sj_id x) as Hid by (intros k y Hy%Hids; by apply String.eqb_neq in Hy).
  unfold ListSubjectGroups, ListEffectiveBindings, ListAccessTokens, GetUserCredential, GetRobotCredential, GetSession, id_enter.
  cbn [id_closed set_subjects subjects groupMembers userCredentials robotCredentials accessTokens sessions].
  rewrite Hopen. cbn [result_bind]. unfold n. rewrite lookup_insert_eq.
  assert (groups_with (sj_name x) (set_subjects (<[sj_name x := x]> (subjects s)) s) = []) as Hg.
  { apply groups_with_nil. intros g. by apply (not_live_member s). }
  assert (userCredentials s !! sj_name x = None) as ->.
  { apply eq_None_not_Some. intros [c Hc]. destruct (wf_users _ Hwf _ _ Hc) as (_ & _ & y & ?). congruence. }
  assert (robotCredentials s !! sj_name x = None) as ->.
  { apply eq_None_not_Some. intros [c Hc]. destruct (wf_robots _ Hwf _ _ Hc) as (_ & _ & _ & y & ? & _). congruence. }
  split_and!; [by rewrite Hg| | |done|done|].
  - destruct (sj_disabled x); [done|]. unfold groupIDs. rewrite Hg. cbn [foldl].
    rewrite omap_none; [done|]. intros b [k Hb]%elem_of_values. by eapply (fresh_not_reached s).
  - rewrite filter_none; [done|]. intros t [k Ht]%elem_of_values Heq.
    destruct (wf_tokens _ Hwf _ _ Ht) as (_ & _ & _ & y & Hy). congruence.
  - intros id now session. destruct (sessions s !! id) as [y|] eqn:Hy; [|done]. destruct (Session_Expired y now); [done|].
    intros [= <-] Heq. destruct (wf_sessions _ Hwf _ _ Hy) as (_ & _ & _ & z & Hz). congruence.
Qed.

(** A subject that held a grant, a token and a session, deleted, then created
    again under the same name and id. *)
Definition reborn : Subject := mkSubject "u1" User "alice" false 9.
Lemma fresh_subject_holds_nothing_witness :
  let s := history (demo_ops ++ [OpDeleteSubject false "alice"]) New in
  ∃ s', CreateSubject false reborn s = Ok s' ∧ ListEffectiveBindings false "alice" s' = Ok [] ∧
        ListAccessTokens false "alice" s' = Ok [] ∧ bindings s' ≠ ∅.
Proof.
  intros s. destruct (CreateSubject false reborn s) as [s'|] eqn:H; [|vm_compute in H; discriminate H].
  exists s'. split; [reflexivity|].
  destruct (fresh_subject_holds_nothing (demo_ops ++ [OpDeleteSubject false "alice"]) false reborn s' H) as (_ & Hb & Ht & _).
  split; [exact Hb|]. split; [exact Ht|]. vm_compute in H. injection H as <-. intros He.
  apply (f_equal (λ m, m !! "b1")) in He. vm_compute in He. discriminate He.
Defined.

(** C19: The tables stay consistent under every history of operations. Rows are
    filed under their own keys, memberships, bindings, credentials, tokens and
    sessions point at subjects, groups and roles that exist, subject ids and
    token hashes are unique, no two bindings make the same grant, and the
    anonymous subject is there; so adding a group member never writes to a
    missing member set. *)
Theorem identity_invariant ops :
  let s := history ops New in
  wf s ∧ ∀ ctx group subject, AddGroupMember ctx group subject s ≠ Err NilMapWrite.
Proof.
  intros s. assert (wf s) as Hwf by apply id_history_wf, id_New_wf. split; [done|].
  intros ctx group subject H. unfold AddGroupMember, id_enter in H.
  destruct ctx; [done|]. destruct (id_closed s); [done|]. cbn [result_bind] in H.
  destruct (subjectGroups s !! group) eqn:Hg; [|done]. destruct (subjects s !! subject); [|done].
  destruct (groupMembers s !! group) eqn:Hm; [done|].
  destruct (wf_members _ Hwf group) as [_ Hd]. destruct Hd as [ms Hms]; [eauto|]. congruence.
Qed.

(** ** What an operation leaves alone

    Most operations do not touch a given table; these lemmas say which do. *)
Definition replaces_role (n : string) (op : IdOp) : bool :=
  match op with OpPutBuiltinRole _ r => String.eqb (rl_name r) n | _ => false end.

Ltac exec_cases H :=
  cbn [exec] in H; repeat apply drop_count_ok in H as [? H];
  try (injection H as <-); try reflexivity.

Lemma WithinTx_events ctx fn opened s s' :
  (WithinTx ctx fn opened s).1 = Ok s' → ∃ m, s' = set_events m s.
Proof.
  unfold WithinTx. destruct (id_enter ctx opened); [|done]. destruct (run_tx fn _) as [t [e|]]; [done|]. cbn.
  unfold apply_batch. intros H. inv_result. eauto.
Qed.

Ltac open_op H :=
  lazymatch type of H with
  | (WithinTx _ _ _ _).1 = _ => apply WithinTx_events in H as [? ->]
  | ?f _ _ _ _ = Ok _ => unfold f in H; open_method H
  | ?f _ _ _ = Ok _ => unfold f in H; open_method H
  | ?f _ _ = Ok _ => unfold f in H; open_method H
  end.

Lemma builtin_role_step op s s' n r :
  exec op s = Ok s' → replaces_role n op = false → roles s !! n = Some r → rl_builtin r = true → roles s' !! n = Some r.
Proof.
  intros H Hop Hr Hb. destruct op; cbn [replaces_role] in Hop; exec_cases H;
    try (open_op H); try exact Hr; cbn.
  - guards. by rewrite lookup_insert_ne.
  - guards. by rewrite lookup_insert_ne.
  - rewrite lookup_insert_ne; [done|]. guards. congruence.
  - rewrite lookup_insert_ne; [done|]. intros ->. congruence.
  - rewrite lookup_delete_ne; [done|]. intros ->. congruence.
Qed.

(** A built-in role cannot be redefined or removed by an operator. Through
    any history, whoever calls, its verbs stay as they were until the seeding
    path itself writes that role again. *)
Theorem builtin_role_immutable ops s n r :
  roles s !! n = Some r → rl_builtin r = true → Forall (λ op, replaces_role n op = false) ops →
  roles (history ops s) !! n = Some r.
Proof.
  intros Hr Hb Hops. revert s Hr. induction Hops as [|op ops Hop Hops IH]; intros s Hr; [done|]. cbn. apply IH.
  unfold step. destruct (exec op s) as [s'|] eqn:H; [|done]. by eapply builtin_role_step.
Qed.

Definition attack_ops : list IdOp :=
  [OpUpdateRoleVerbs false "admin" ["repo:read"]; OpDeleteRole false "admin"; OpCreateRole false (mkRole "admin" false [])].

Definition seeded : IdStore := history [OpPutBuiltinRole false (mkRole "admin" true ["user:write"])] New.
Lemma builtin_role_immutable_witness : roles (history attack_ops seeded) !! "admin" = Some (mkRole "admin" true ["user:write"]).
Proof.
  apply (builtin_role_immutable attack_ops seeded "admin" (mkRole "admin" true ["user:write"])).
  - vm_compute; reflexivity.
  - reflexivity.
  - repeat constructor.
Defined.

(** ** Sessions *)
Definition opens_session (id : string) (op : IdOp) : bool :=
  match op with OpCreateSession _ x => String.eqb (ss_id x) id | _ => false end.

Definition same_session (x x' : Session) : Prop :=
  ss_absoluteExpiresAt x' = ss_absoluteExpiresAt x ∧ ss_subject x' = ss_subject x ∧ ss_csrfToken x' = ss_csrfToken x.

Definition descends (x : Session) (o : option Session) : Prop :=
  match o with Some x' => same_session x x' | None => True end.

Lemma descends_drop x p (m : gmap string Session) id : descends x (m !! id) → descends x (drop_where p m !! id).
Proof.
  intros H. destruct (drop_where p m !! id) as [y|] eqn:Hy; [|done]. apply lookup_drop_where in Hy as [Hy _]. by rewrite Hy in H.
Qed.

Lemma session_step op s s' id x :
  exec op s = Ok s' → opens_session id op = false → descends x (sessions s !! id) → descends x (sessions s' !! id).
Proof.
  intros H Hop Hd. destruct op; cbn [opens_session] in Hop; exec_cases H;
    try (open_op H); try exact Hd; cbn; try (by apply descends_drop).
  - guards. by rewrite lookup_insert_ne.
  - rename select (sessions s !! _ = Some _) into Hy. destruct (decide (id0 = id)) as [->|].
    + rewrite lookup_insert_eq. cbn. rewrite Hy in Hd. exact Hd.
    + by rewrite lookup_insert_ne.
  - destruct (decide (id0 = id)) as [->|]; [by rewrite lookup_delete_eq|by rewrite lookup_delete_ne].
Qed.

(** A session never outlives its absolute bound. However often it is
    refreshed, and whatever else happens, a session read later under the same id
    belongs to the same subject with the same CSRF token and is only returned
    before the absolute expiry it was opened with, unless somebody opens another
    session under that id; refreshing also keeps the idle bound at or below the
    absolute one. *)
Theorem session_absolute_bound ops s id x :
  sessions s !! id = Some x → Forall (λ op, opens_session id op = false) ops →
  (∀ ctx now x', GetSession ctx id now (history ops s) = Ok x' →
    (now < ss_absoluteExpiresAt x)%Z ∧ ss_subject x' = ss_subject x ∧ ss_csrfToken x' = ss_csrfToken x) ∧
  (∀ ctx idle s', RefreshSession ctx id idle (history ops s) = Ok s' →
    ∃ x', sessions s' !! id = Some x' ∧ (ss_idleExpiresAt x' ≤ ss_absoluteExpiresAt x)%Z ∧ same_session x x').
Proof.
  intros Hx Hops. assert (descends x (sessions (history ops s) !! id)) as Hd.
  { assert (descends x (sessions s !! id)) as Hd by by rewrite Hx. clear Hx. revert s Hd.
    induction Hops as [|op ops Hop Hops IH]; intros s Hd; [done|]. cbn. apply IH. unfold step.
    destruct (exec op s) as [s'|] eqn:H; [|done]. by eapply session_step. }
  clear Hx. split.
  - intros ctx now x' H. unfold GetSession in H. open_method H. destruct Hd as (Ha & Hs & Hc). rename select (Session_Expired _ _ = false) into He.
    unfold Session_Expired in He. guards. rewrite Hs, Hc. split; [|done]. rewrite <-Ha. by apply Z.ltb_lt.
  - intros ctx idle s' H. unfold RefreshSession in H. open_method H. eexists. cbn. rewrite lookup_insert_eq. split; [done|]. destruct Hd as (Ha & Hs & Hc). cbn.
    split; [|done]. rewrite <-Ha. destruct (Z.ltb_spec (ss_absoluteExpiresAt s0) idle); lia.
Qed.

Lemma session_absolute_bound_witness :
  let ops := [OpRefreshSession false "s1" 500; OpSetSubjectDisabled false "bob" true] in
  (∀ ctx now x', GetSession ctx "s1" now (history ops (history demo_ops New)) = Ok x' → (now < 100)%Z) ∧
  GetSession false "s1" 99 (history ops (history demo_ops New)) = Ok (mkSession "s1" "alice" "csrf" 1 100 100).
Proof.
  intros ops. split; [|vm_compute; reflexivity]. intros ctx now x' H.
  eapply (session_absolute_bound ops (history demo_ops New) "s1" (mkSession "s1" "alice" "csrf" 1 50 100)); [..|exact H].
  - vm_compute; reflexivity.
  - repeat constructor.
Defined.

(** ** Access tokens *)
Definition registers_hash (h : string) (op : IdOp) : bool :=
  match op with OpCreateAccessToken _ t => String.eqb (at_tokenHash t) h | _ => false end.

Definition no_hash (h : string) (s : IdStore) : Prop := ∀ k t, accessTokens s !! k = Some t → at_tokenHash t ≠ h.

Lemma no_hash_step op s s' h :
  exec op s = Ok s' → registers_hash h op = false → no_hash h s → no_hash h s'.
Proof.
  intros H Hop Hn. destruct op; cbn [registers_hash] in Hop; exec_cases H;
    try (open_op H); try exact Hn; intros k t; cbn.
  - intros [Ht _]%lookup_drop_where. eauto.
  - guards. intros [[<- <-]|[_ Ht]]%lookup_insert_Some; eauto.
  - rename select (accessTokens s !! _ = Some _) into Hy. intros [[<- <-]|[_ Ht]]%lookup_insert_Some; [|eauto].
    cbn. eauto.
  - intros [_ Ht]%lookup_delete_Some. eauto.
Qed.

Lemma GetAccessTokenByHash_none ctx h now s : no_hash h s → is_ok (GetAccessTokenByHash ctx h now s) = false.
Proof.
  intros Hn. unfold GetAccessTokenByHash, id_enter. destruct ctx; [done|]. destruct (id_closed s); [done|]. cbn [result_bind].
  destruct (String.eqb h ""); [done|]. rewrite filter_none; [done|]. intros t [k Ht]%elem_of_values. eauto.
Qed.

(** Revocation is final. Once a token is deleted, no history brings it back:
    presenting its secret resolves to nothing, unless a token with the same
    hash is registered anew. *)
Theorem revoked_token_stays_revoked pre ops ctx id t s1 :
  let s := history pre New in
  accessTokens s !! id = Some t → DeleteAccessToken ctx id s = Ok s1 →
  Forall (λ op, registers_hash (at_tokenHash t) op = false) ops →
  ∀ c now, is_ok (GetAccessTokenByHash c (at_tokenHash t) now (history ops s1)) = false.
Proof.
  intros s Ht Hdel Hops c now. assert (wf s) as Hwf by apply id_history_wf, id_New_wf.
  apply GetAccessTokenByHash_none. unfold DeleteAccessToken in Hdel. open_method Hdel. simplify_eq.
  assert (no_hash (at_tokenHash t) (set_accessTokens (delete id (accessTokens s)) s)) as Hn.
  { intros k t'. cbn. intros [Hne Ht']%lookup_delete_Some Heq. apply Hne. by eapply (wf_hashes s). }
  revert Hn. generalize (set_accessTokens (delete id (accessTokens s)) s). clear - Hops.
  induction Hops as [|op ops Hop Hops IH]; intros s Hn; [done|]. cbn. apply IH. unfold step.
  destruct (exec op s) as [s'|] eqn:H; [|done]. by eapply no_hash_step.
Qed.

Lemma revoked_token_stays_revoked_witness :
  is_ok (GetAccessTokenByHash false "h1" 5 (history demo_ops New)) = true ∧
  ∃ s1, DeleteAccessToken false "t1" (history demo_ops New) = Ok s1 ∧
    is_ok (GetAccessTokenByHash false "h1" 5
             (history [OpCreateAccessToken false (mkAccessToken "t1" "alice" "laptop" "h2" 1 0 0)] s1)) = false.
Proof.
  split; [vm_compute; reflexivity|].
  destruct (DeleteAccessToken false "t1" (history demo_ops New)) as [s1|] eqn:H; [|vm_compute in H; discriminate H].
  exists s1. split; [reflexivity|].
  apply (revoked_token_stays_revoked demo_ops [OpCreateAccessToken false (mkAccessToken "t1" "alice" "laptop" "h2" 1 0 0)]
           false "t1" (mkAccessToken "t1" "alice" "laptop" "h1" 1 0 0) s1).
  - vm_compute; reflexivity.
  - exact H.
  - repeat constructor.
Defined.

(** ** Transactions *)
Definition as_log (batch : list Event) : gmap string Event := list_to_map ((λ e, (ev_id e, e)) <$> batch).

Lemma run_tx_nodup fn t :
  NoDup (ev_id <$> tx_pending t) → NoDup (ev_id <$> tx_pending (run_tx fn t).1) ∧ tx_done (run_tx fn t).1 = tx_done t.
Proof.
  revert t. induction fn as [err|e k IH]; intros t Ht; [done|]. cbn [run_tx].
  destruct (AppendEvent e t) as [t'|err] eqn:H; [|by apply IH].
  unfold AppendEvent in H. destruct (tx_done t) eqn:Hd; [done|]. destruct (validEvent e) as [[]|]; [|done].
  cbn [result_bind] in H. destruct (existsb _ _) eqn:He; [done|]. injection H as <-.
  destruct (IH None (mkTx (tx_pending t ++ [e]) false)) as [H1 H2]; [|by rewrite H2].
  cbn. rewrite fmap_app. apply NoDup_app. split; [done|]. split; [|by apply NoDup_singleton].
  intros id (q & -> & Hq)%list_elem_of_fmap Hid%list_elem_of_singleton.
  assert (existsb (λ q, String.eqb (ev_id q) (ev_id e)) (tx_pending t) = true) as Hc; [|congruence].
  apply existsb_elem. exists q. by rewrite String.eqb_eq.
Qed.

Lemma foldl_insert_log batch (m : gmap string Event) :
  NoDup (ev_id <$> batch) → foldl (λ m e, <[ev_id e := e]> m) m batch = as_log batch ∪ m.
Proof.
  revert m. induction batch as [|e batch IH]; intros m Hnd; cbn; [by rewrite (left_id_L ∅ (∪))|].
  cbn in Hnd. apply NoDup_cons in Hnd as [Hn Hnd]. rewrite IH by done. unfold as_log. cbn.
  rewrite <-insert_union_r, insert_union_l; [done|].
  apply not_elem_of_list_to_map_1. rewrite <-list_fmap_compose. exact Hn.
Qed.

Lemma batch_check s batch :
  foldM (λ (_ : unit) e, match events s !! ev_id e with Some _ => Err (Conflict "event" (ev_id e)) | None => Ok tt end) tt batch
    = Ok tt ↔ Forall (λ e, events s !! ev_id e = None) batch.
Proof. rewrite foldM_unit_ok. apply Forall_iff. intros e. by destruct (events s !! ev_id e). Qed.

(** A transaction is all or nothing. With the store open and the function
    returning no error, the commit adds exactly the events the function managed
    to append - each valid, no id twice - to whatever the log holds at that
    moment, leaving every earlier event and every other table as it was; if any
    of their ids is already taken it changes nothing and reports a conflict. A
    function that returns an error commits nothing, and a transaction kept after
    the fact refuses further events. *)
Theorem WithinTx_all_or_nothing fn s s' :
  id_closed s = false →
  let '(t, err) := run_tx fn (mkTx [] false) in
  let '(outcome, kept) := WithinTx false fn s s' in
  Forall (λ e, validEvent e = Ok tt) (tx_pending t) ∧ NoDup (ev_id <$> tx_pending t) ∧
  (∀ e, AppendEvent e kept = Err (InvalidField "tx")) ∧
  match err with
  | Some e => outcome = Err e
  | None =>
      if decide (Forall (λ e, events s' !! ev_id e = None) (tx_pending t))
      then outcome = Ok (set_events (as_log (tx_pending t) ∪ events s') s')
      else ∃ e, e ∈ tx_pending t ∧ is_Some (events s' !! ev_id e) ∧ outcome = Err (Conflict "event" (ev_id e))
  end.
Proof.
  intros Hopen. unfold WithinTx, id_enter. rewrite Hopen. cbn [result_bind].
  pose proof (run_tx_valid fn (mkTx [] false) (Forall_nil_2 _)) as Hv.
  pose proof (run_tx_nodup fn (mkTx [] false) (NoDup_nil_2)) as [Hnd _].
  destruct (run_tx fn (mkTx [] false)) as [t [e|]]; cbn in *; [done|].
  split_and!; [done..|]. unfold apply_batch. case_decide as Hd.
  - rewrite (proj2 (batch_check s' _) Hd). cbn. by rewrite foldl_insert_log.
  - clear Hv Hnd. induction (tx_pending t) as [|e l IH]; [by destruct Hd|].
    cbn [foldM]. destruct (events s' !! ev_id e) as [old|] eqn:He; cbn [result_bind].
    + exists e. split; [by left|]. by rewrite He.
    + destruct IH as (e' & He' & Hs & Ho).
      { intros Hall. apply Hd. by constructor. }
      exists e'. split; [by right|]. split; [done|].
      destruct (foldM _ tt l) as [[]|] eqn:Hf; cbn in *; [done|]. congruence.
Qed.

Definition ev (id : string) (repo : string) : Event := mkEvent id "artifact.pushed" repo "" "" "{}" 7.

(** Appends twice under one id and carries on, as a caller that ignores the
    refusal would. *)
Definition two_appends : TxProg := TxAppend (ev "01" "a") (λ _, TxAppend (ev "01" "b") (λ _, TxReturn None)).
Lemma WithinTx_all_or_nothing_witness :
  (WithinTx false two_appends New New).1 = Ok (set_events {["01" := ev "01" "a"]} New) ∧
  ∃ e, is_Some (events (set_events {["01" := ev "01" "c"]} New) !! ev_id e) ∧
       (WithinTx false two_appends New (set_events {["01" := ev "01" "c"]} New)).1 = Err (Conflict "event" (ev_id e)).
Proof.
  split; [vm_compute; reflexivity|].
  pose proof (WithinTx_all_or_nothing two_appends New (set_events {["01" := ev "01" "c"]} New) eq_refl) as H.
  destruct (run_tx two_appends (mkTx [] false)) as [t err] eqn:Hr. vm_compute in Hr. injection Hr as <- <-.
  destruct (WithinTx _ _ _ _) as [outcome kept]. destruct H as (_ & _ & _ & H). case_decide as Hd.
  - exfalso. assert (events (set_events {["01" := ev "01" "c"]} New) !! "01" = None) as Hn by exact (Forall_inv Hd).
    vm_compute in Hn. discriminate Hn.
  - destruct H as (e & _ & Hs & Ho). exists e. split; [exact Hs|exact Ho].
Defined.

(** ** Reading the event log *)
Lemma event_ids_after s vis cursor :
  sort_strings (filter (λ id, str_lt cursor id = true)
     (filter (λ ie, visibleEvent vis ie.2 = true) (map_to_list (events s))).*1) =
  after (sort_strings (filter (λ ie, visibleEvent vis ie.2 = true) (map_to_list (events s))).*1) cursor.
Proof.
  unfold after. apply (StronglySorted_unique String.le).
  - apply sort_strings_sorted.
  - apply StronglySorted_filter, sort_strings_sorted.
  - rewrite !sort_strings_perm. done.
Qed.

(** Reading the log page by page, at any page size, returns every event the
    reader may see exactly once, oldest id first, and no other: an event about a
    repository is seen by whoever may see the repository, a system event only by
    an unrestricted reader. *)
Theorem events_paged_exactly ops vis limit fuel :
  let s := history ops New in
  id_closed s = false → size (events s) < fuel →
  ∃ l, read_pages (λ cursor, match ListEvents false (mkListOptions vis limit cursor) s with
                             | Ok page => page | Err _ => ([], "") end) fuel "" = Some l ∧
    StronglySorted String.le (ev_id <$> l) ∧ NoDup (ev_id <$> l) ∧
    ∀ e, e ∈ l ↔ events s !! ev_id e = Some e ∧ visibleEvent vis e = true.
Proof.
  intros s Hopen Hf. assert (wf s) as Hwf by apply id_history_wf, id_New_wf.
  set (ids := sort_strings (filter (λ ie, visibleEvent vis ie.2 = true) (map_to_list (events s))).*1).
  assert (∀ id, id ∈ ids ↔ ∃ e, events s !! id = Some e ∧ visibleEvent vis e = true) as Hids.
  { intros id. unfold ids. rewrite sort_strings_elem, list_elem_of_fmap. split.
    - intros ([k e] & -> & [Hv Hk%elem_of_map_to_list]%list_elem_of_filter). eauto.
    - intros (e & He & Hv). exists (id, e). split; [done|]. apply list_elem_of_filter. by rewrite elem_of_map_to_list. }
  assert (NoDup ids) as Hnd by (unfold ids; rewrite sort_strings_perm; apply NoDup_fmap_filter, NoDup_fst_map_to_list).
  assert ("" ∉ ids) as Hne.
  { intros (e & He & _)%Hids. destruct (wf_events _ Hwf _ _ He) as [Hid Hv]. unfold validEvent in Hv. by rewrite Hid in Hv. }
  assert (omap (λ id, ev_id <$> events s !! id) ids = ids) as Hkeys.
  { assert (∀ id, id ∈ ids → ev_id <$> events s !! id = Some id) as Hk.
    { intros id (e & He & _)%Hids. rewrite He. cbn. f_equal. by apply (wf_events _ Hwf). }
    clear - Hk. induction ids as [|i l IH]; [done|]. cbn. rewrite (Hk i) by by left. f_equal. apply IH. intros. apply Hk. by right. }
  exists (omap (λ id, events s !! id) ids). split_and!.
  - erewrite (read_pages_map (omap (λ id, events s !! id)) (λ c, page_of (EffectiveLimit (mkListOptions vis limit c)) (after ids c))).
    + rewrite (read_pages_all ids (EffectiveLimit (mkListOptions vis limit ""))).
      * by rewrite after_start.
      * apply sort_strings_sorted.
      * done.
      * done.
      * apply EffectiveLimit_bounds.
      * rewrite after_start by done. unfold ids. rewrite sort_strings_perm, length_fmap.
        eapply Nat.le_lt_trans; [apply length_filter|]. by rewrite length_map_to_list.
    + intros. apply omap_app.
    + intros c. unfold ListEvents, id_enter. rewrite Hopen. cbn [result_bind lo_visibility lo_cursor].
      rewrite event_ids_after. fold ids. by destruct (page_of _ _).
  - rewrite list_fmap_omap, Hkeys. apply sort_strings_sorted.
  - by rewrite list_fmap_omap, Hkeys.
  - intros e. rewrite list_elem_of_omap. split.
    + intros (id & (e' & He' & Hv)%Hids & He). assert (e' = e) as -> by congruence.
      destruct (wf_events _ Hwf _ _ He) as [<- _]. done.
    + intros [He Hv]. exists (ev_id e). split; [|done]. apply Hids. eauto.
Qed.

Definition log_ops : list IdOp :=
  [OpWithinTx false (TxAppend (ev "01" "a") (λ _, TxReturn None)) New;
   OpWithinTx false (TxAppend (ev "02" "") (λ _, TxAppend (ev "03" "a/b") (λ _, TxReturn None))) New].

Lemma events_paged_exactly_witness :
  let pages := read_pages (λ cursor, match ListEvents false (mkListOptions (VisibleTo [mkScopeFilter true "" ""]) 1 cursor)
                                             (history log_ops New) with
                                     | Ok page => page | Err _ => ([], "") end) 9 "" in
  pages = Some [ev "01" "a"; ev "03" "a/b"] ∧
  ∃ l, pages = Some l ∧ ∀ e, e ∈ l ↔ events (history log_ops New) !! ev_id e = Some e ∧
                                     visibleEvent (VisibleTo [mkScopeFilter true "" ""]) e = true.
Proof.
  intros pages. split; [vm_compute; reflexivity|].
  destruct (events_paged_exactly log_ops (VisibleTo [mkScopeFilter true "" ""]) 1 9) as (l & Hl & _ & _ & He).
  - vm_compute; reflexivity.
  - apply Nat.ltb_lt. vm_compute. reflexivity.
  - exists l. split; [exact Hl|exact He].
Defined.

(** ** Groups that share an id

    Creating a group does not check that its id is free, as creating a subject
    does and as the SQL schema's [UNIQUE] column does. A member of the new group
    then holds the grants of the old one, and deleting the new group takes the
    old one's grants away. *)
Definition twin_ops : list IdOp :=
  demo_ops ++ [OpCreateGroup false (mkSubjectGroup "g1" "visitors" 2); OpAddGroupMember false "visitors" "bob"].

Lemma CreateGroup_shares_id :
  ListEffectiveBindings false "bob" (history twin_ops New) =
    Ok [mkEffective (mkBinding "b1" PrincipalGroup "g1" "reader" "team-b/*" 1) "visitors"] ∧
  ListEffectiveBindings false "alice" (history (twin_ops ++ [OpDeleteGroup false "visitors"]) New) =
    Ok [mkEffective (mkBinding "b2" PrincipalSubject "u1" "reader" "team-a/*" 1) ""].
Proof. split; vm_compute; reflexivity. Qed.

(** A transaction opened before the store is closed still commits after. *)
Lemma WithinTx_commits_after_Close :
  (WithinTx false (TxAppend (ev "01" "a") (λ _, TxReturn None)) New (id_Close New)).1 =
    Ok (set_events {["01" := ev "01" "a"]} (id_Close New)).
Proof. vm_compute; reflexivity. Qed.
