(* ===== verification/Guard.v ===== *)
(** * The authorization guard

    Models src/internal/server/bindings.go ([FetchBindings]), visibility.go
    ([VisibilityFor]), authz_middleware.go ([Guard.Require] and its refusals),
    the refusal constructors of errors.go ([ProblemErrors]) and
    src/internal/authn/subject.go ([Resolve]).

    The guard talks to the store through two interfaces, [SubjectStore] and
    [BindingStore], which are type classes here; the in-memory store is their
    instance. Each store call of one request may see a different state of the
    store, since nothing holds a lock across them: the model takes the state
    every call sees as an argument. *)
From S2P Require Import Prelude Authz Meta Memory Identity.

(** ** The store interfaces (bindings.go, authn/subject.go) *)
Class BindingStore (S : Type) : Type := {
  bs_ListEffectiveBindings : bool → string → S → result MetaError (list EffectiveBinding);
  bs_GetRole : bool → string → S → result MetaError Role;
}.

Class SubjectStore (S : Type) : Type := {
  su_GetSubject : bool → string → S → result MetaError Subject;
}.

Class RotationStore (S : Type) : Type := {
  ro_GetUserCredential : bool → string → S → result MetaError UserCredential;
}.

#[export] Instance IdStore_BindingStore : BindingStore IdStore :=
  {| bs_ListEffectiveBindings := ListEffectiveBindings; bs_GetRole := GetRole |}.
#[export] Instance IdStore_SubjectStore : SubjectStore IdStore := {| su_GetSubject := GetSubject |}.
#[export] Instance IdStore_RotationStore : RotationStore IdStore := {| ro_GetUserCredential := GetUserCredential |}.

(** ** FetchBindings (bindings.go) *)
Section fetch.
Context {S : Type} `{!BindingStore S}.

(** [nth n] is the state the [n]-th store call of the fetch sees: call 0 lists
    the bindings, the later ones read roles. *)
Context (ctx : bool) (nth : nat → S).

Record fetch_state : Type := mkFetch {
  ft_calls : nat;
  ft_verbs : gmap string (option (list string));
  ft_out : list Authz.Binding;
}.

Definition to_authz (e : EffectiveBinding) (roleVerbs : list string) : Authz.Binding :=
  Authz.mkBinding (bd_id (eb_binding e)) (bd_role (eb_binding e)) (bd_scope (eb_binding e)) roleVerbs (eb_viaGroup e).

(** The loop body: [None] in the cache is the nil slice of a vanished role. *)
Definition fetch_one (st : fetch_state) (e : EffectiveBinding) : result MetaError fetch_state :=
  let role := bd_role (eb_binding e) in
  match ft_verbs st !! role with
  | Some None => Ok st
  | Some (Some roleVerbs) => Ok (mkFetch (ft_calls st) (ft_verbs st) (ft_out st ++ [to_authz e roleVerbs]))
  | None =>
      match bs_GetRole ctx role (nth (ft_calls st)) with
      | Err (NotFound _ _) => Ok (mkFetch (1 + ft_calls st) (<[role := None]> (ft_verbs st)) (ft_out st))
      | Err err => Err err
      | Ok r =>
          Ok (mkFetch (1 + ft_calls st) (<[role := Some (rl_verbs r)]> (ft_verbs st))
                (ft_out st ++ [to_authz e (rl_verbs r)]))
      end
  end.

Definition FetchBindings (subject : string) : result MetaError (list Authz.Binding) :=
  let! effective := bs_ListEffectiveBindings ctx subject (nth 0) in
  let! st := foldM fetch_one (mkFetch 1 ∅ []) effective in
  Ok (SortBindings (ft_out st)).
End fetch.

(** ** Visibility (visibility.go) *)
Definition VisibilityFor (bindings : list Authz.Binding) (verb : string) : Visibility :=
  VisibleTo ((λ f, mkScopeFilter (f_all f) (f_exact f) (f_prefix f)) <$> Filters (VisibleScopes bindings verb)).

(** ** Resolving the subject (authn/subject.go) *)
Record AuthnSubject : Type := mkAuthnSubject {
  as_id : string; as_kind : string; as_name : string; as_disabled : bool;
}.

Definition IsAnonymous (s : AuthnSubject) : bool := String.eqb (as_kind s) Anonymous.

Inductive AuthError : Type :=
| RateLimited (retryAfter : Z)
| ErrBadCredentials
| ErrNoAnonymousSubject
| ErrUnknownSubject (name : string)
| ErrDisabled (name : string)
| OtherAuthError (e : MetaError).

Definition fromStored (stored : Subject) : AuthnSubject :=
  mkAuthnSubject (sj_id stored) (sj_kind stored) (sj_name stored) (sj_disabled stored).

Definition Resolve {S} `{!SubjectStore S} (ctx : bool) (store : S) (name : string) : result AuthError AuthnSubject :=
  let anonymous := String.eqb name "" in
  let name := if anonymous then AnonymousSubjectName else name in
  match su_GetSubject ctx name store with
  | Err (NotFound _ _) => if anonymous then Err ErrNoAnonymousSubject else Err (ErrUnknownSubject name)
  | Err e => Err (OtherAuthError e)
  | Ok stored =>
      let subject := fromStored stored in
      if as_disabled subject then Err (ErrDisabled (as_name subject)) else Ok subject
  end.

(** ** The guard (authz_middleware.go) *)
Section guard.
Context {Req S : Type} `{!BindingStore S, !SubjectStore S, !RotationStore S}.

Record Permission : Type := mkPermission {
  pm_verb : string;
  pm_resource : option (Req → result string Resource);
  pm_self : option (Req → result string string);
  pm_listing : bool;
  pm_rotationExempt : bool;
}.

(** The callbacks a deployment supplies; [None] is the nil of the source. *)
Record Guard : Type := mkGuard {
  gd_credentials : option (Req → result AuthError string);
  gd_challenge : option (Req → string);
  gd_rotation : bool;
}.

(** What the stores hold when each part of the check reads them. *)
Record Snapshot : Type := mkSnapshot {
  sn_subjects : S;
  sn_rotation : S;
  sn_bindings : nat → S;
}.

(** A response: a refusal, or the handler served with what the guard put in the
    request's context. *)
Inductive Response : Type :=
| BadRequest (reason : string)
| Unauthorized (challenge : string)
| Forbidden
| NotFoundResponse
| TooManyRequests (retryAfter : Z)
| RotationRequired
| Internal
| Served (subject : AuthnSubject) (decision : option Decision_t) (visibility : option Visibility).

Definition quote : string := String (Ascii.ascii_of_nat 34) "".
Definition DefaultChallenge : string := "Bearer realm=" +:+ quote +:+ "trove" +:+ quote.

Definition perm_resolve (p : Permission) (r : Req) : result string Resource :=
  match pm_resource p with
  | None => Ok System
  | Some f => f r
  end.

Definition NoCredentials (r : Req) : result AuthError string := Ok "".

Definition guard_subject (g : Guard) (ctx : bool) (sn : Snapshot) (r : Req) : result AuthError AuthnSubject :=
  let! name := default NoCredentials (gd_credentials g) r in
  Resolve ctx (sn_subjects sn) name.

Definition challenge (g : Guard) (r : Req) : string :=
  match gd_challenge g with None => DefaultChallenge | Some f => f r end.

Definition rotationDue (g : Guard) (ctx : bool) (sn : Snapshot) (subject : AuthnSubject) : result MetaError bool :=
  if negb (gd_rotation g) || negb (String.eqb (as_kind subject) User) then Ok false
  else match ro_GetUserCredential ctx (as_name subject) (sn_rotation sn) with
  | Err (NotFound _ _) => Ok false
  | Err e => Err e
  | Ok cred => Ok (uc_mustRotate cred)
  end.

Definition refuseUnauthenticated (g : Guard) (r : Req) (err : AuthError) : Response :=
  match err with
  | RateLimited wait => TooManyRequests wait
  | ErrBadCredentials => Unauthorized (challenge g r)
  | ErrNoAnonymousSubject => Internal
  | ErrUnknownSubject _ | ErrDisabled _ => Unauthorized (challenge g r)
  | OtherAuthError _ => Internal
  end.

Definition IsSystem (r : Resource) : bool := match r_kind r with resourceSystem => true | _ => false end.

Definition canRead (bindings : list Authz.Binding) (resource : Resource) : bool :=
  if IsSystem resource then true
  else Allows bindings RepoRead resource || Allows bindings RepoList resource.

(** [OnDenied] is called once for every refused decision: the pair beside the
    response is that call's arguments. *)
Definition refuse (g : Guard) (r : Req) (subject : AuthnSubject) (bindings : list Authz.Binding) (decision : Decision_t)
    : Response * list (AuthnSubject * Decision_t) :=
  (if IsAnonymous subject then Unauthorized (challenge g r)
   else if canRead bindings (d_resource decision) then Forbidden
   else NotFoundResponse,
   [(subject, decision)]).

Definition self_target (p : Permission) (r : Req) : result string string :=
  match pm_self p with
  | None => Ok ""
  | Some f => f r
  end.

Definition Require (g : Guard) (ctx : bool) (sn : Snapshot) (p : Permission) (r : Req)
    : Response * list (AuthnSubject * Decision_t) :=
  match perm_resolve p r with
  | Err reason => (BadRequest reason, [])
  | Ok resource =>
  match self_target p r with
  | Err reason => (BadRequest reason, [])
  | Ok target =>
  match guard_subject g ctx sn r with
  | Err err => (refuseUnauthenticated g r err, [])
  | Ok subject =>
  match if pm_rotationExempt p then Ok false else rotationDue g ctx sn subject with
  | Err _ => (Internal, [])
  | Ok true => (RotationRequired, [])
  | Ok false =>
  if bool_decide (is_Some (pm_self p)) && (String.eqb target "" || String.eqb target (as_name subject))
  then (Served subject None None, [])
  else match FetchBindings ctx (sn_bindings sn) (as_name subject) with
  | Err _ => (Internal, [])
  | Ok bindings =>
  if pm_listing p then
    let visibility := VisibilityFor bindings (pm_verb p) in
    if IsAnonymous subject && (length (vs_filters visibility) =? 0) then (Unauthorized (challenge g r), [])
    else (Served subject None (Some visibility), [])
  else
    let decision := Decide bindings (pm_verb p) resource in
    if negb (d_allowed decision) then refuse g r subject bindings decision
    else (Served subject (Some decision) None, [])
  end end end end end.
End guard.
Arguments Permission : clear implicits.
Arguments Guard : clear implicits.
Arguments Snapshot : clear implicits.

(** ** The problem documents (errors.go) *)
Definition second : Z := 1000000000.

Record Problem : Type := mkProblem {
  pb_status : Z; pb_type : string; pb_title : string; pb_detail : string;
  pb_authenticate : option string;                 (* WWW-Authenticate, when set *)
  pb_retryAfter : option Z;                        (* Retry-After, when set *)
}.

(** The seconds of [Retry-After]: rounded up, at least one; [Z.quot] is the
    division of int64. *)
Definition retrySeconds (retryAfter : Z) : Z := Z.max (Z.quot (add64 (add64 retryAfter second) (-1)) second) 1.

Definition ProblemErrors (resp : Response) : option Problem :=
  match resp with
  | Unauthorized c =>
      Some (mkProblem 401 "unauthorized" "Authentication required" "" (if String.eqb c "" then None else Some c) None)
  | Forbidden => Some (mkProblem 403 "forbidden" "Permission denied" "" None None)
  | NotFoundResponse => Some (mkProblem 404 "not-found" "Not found" "" None None)
  | BadRequest reason => Some (mkProblem 400 "bad-request" "Bad request" reason None None)
  | TooManyRequests wait => Some (mkProblem 429 "rate-limited" "Too many requests" "" None (Some (retrySeconds wait)))
  | RotationRequired =>
      Some (mkProblem 403 "rotation-required" "Password rotation required"
              "change your password with POST /api/v1/auth/password, then retry" None None)
  | Internal => Some (mkProblem 500 "internal" "Internal server error" "" None None)
  | Served _ _ _ => None
  end.
