(* ===== verification/GuardSpec.v ===== *)
(** * The guard: who gets in, and what the others learn

    [FetchBindings] turns a subject's stored bindings into exactly the grants
    they confer; [Guard.Require] serves a request exactly when one of them
    permits it, answers every refusal by the documented matrix, and serves
    nothing when a store call fails. *)
From S2P Require Import Prelude RepoName Authz Meta Memory MemoryInv MemorySpec Identity IdentityInv IdentitySpec Guard.

(** ** FetchBindings *)
Section fetch.
Context {S : Type} `{!BindingStore S} (ctx : bool) (nth : nat → S).

Definition role_of (e : EffectiveBinding) : string := bd_role (eb_binding e).

(** The verbs cached for a role are those some call of this fetch read. *)
Definition cache_read (st : fetch_state) : Prop :=
  ∀ role vs, ft_verbs st !! role = Some (Some vs) → ∃ n r, bs_GetRole ctx role (nth n) = Ok r ∧ vs = rl_verbs r.

Definition out_cached (st : fetch_state) (effective : list EffectiveBinding) : Prop :=
  ∀ b, b ∈ ft_out st →
    ft_verbs st !! b_role b = Some (Some (b_verbs b)) ∧ ∃ e, e ∈ effective ∧ b = to_authz e (b_verbs b).

Lemma fetch_one_cached st e st' effective :
  e ∈ effective → cache_read st ∧ out_cached st effective → fetch_one ctx nth st e = Ok st' →
  cache_read st' ∧ out_cached st' effective.
Proof.
  intros He [Hc Ho] H. unfold fetch_one in H. destruct (ft_verbs st !! _) as [[vs|]|] eqn:Hv.
  - injection H as <-. split; [done|]. intros b. cbn. rewrite elem_of_app, list_elem_of_singleton.
    intros [Hb| ->]; [by apply Ho|]. cbn. eauto.
  - injection H as <-. done.
  - destruct (bs_GetRole ctx _ _) as [r|err] eqn:Hr.
    + injection H as <-. split.
      * intros role vs. cbn. rewrite lookup_insert_Some. intros [[<- [= <-]]|[_ ?]]; eauto.
      * intros b. cbn. rewrite elem_of_app, list_elem_of_singleton. intros [Hb| ->].
        -- destruct (Ho b Hb) as [Hb1 Hb2]. split; [|done]. rewrite lookup_insert_ne; [done|congruence].
        -- cbn. rewrite lookup_insert_eq. eauto.
    + destruct err; try discriminate H. injection H as <-. split.
      * intros role vs. cbn. rewrite lookup_insert_Some. intros [[_ ?]|[_ ?]]; [done|eauto].
      * intros b Hb. destruct (Ho b Hb) as [Hb1 Hb2]. split; [|done]. cbn. rewrite lookup_insert_ne; [done|congruence].
Qed.

(** Whatever else changes the store meanwhile, the grants handed to one
    decision are consistent: each is one of the subject's bindings as listed,
    with the verbs its role had at some moment of the fetch, and two bindings to
    the same role always carry the same verbs; they come ordered by id. *)
Theorem FetchBindings_consistent subject out :
  FetchBindings ctx nth subject = Ok out →
  ∃ effective, bs_ListEffectiveBindings ctx subject (nth 0) = Ok effective ∧
    StronglySorted String.le (b_id <$> out) ∧
    (∀ b, b ∈ out → (∃ e, e ∈ effective ∧ b = to_authz e (b_verbs b)) ∧
                    ∃ n r, bs_GetRole ctx (b_role b) (nth n) = Ok r ∧ b_verbs b = rl_verbs r) ∧
    (∀ b b', b ∈ out → b' ∈ out → b_role b = b_role b' → b_verbs b = b_verbs b').
Proof.
  unfold FetchBindings. intros H. destruct (bs_ListEffectiveBindings _ _ _) as [effective|] eqn:He; [|done].
  cbn [result_bind] in H. destruct (foldM _ _ _) as [st|] eqn:Hf; [|done]. cbn in H. injection H as <-.
  exists effective. split; [done|].
  assert (cache_read st ∧ out_cached st effective) as [Hc Ho].
  { assert (∀ l st0, (∀ e, e ∈ l → e ∈ effective) → cache_read st0 ∧ out_cached st0 effective →
      foldM (fetch_one ctx nth) st0 l = Ok st → cache_read st ∧ out_cached st effective) as Hgen.
    { intros l. induction l as [|e l IH]; intros st0 Hl H0 Hst; cbn in Hst; [by injection Hst as <-|].
      destruct (fetch_one ctx nth st0 e) as [st1|] eqn:H1; [|done]. cbn in Hst. apply (IH st1); [|..|done].
      - intros. apply Hl. by right.
      - eapply fetch_one_cached; [|done..]. apply Hl. by left. }
    eapply Hgen; [|..|exact Hf]; [done|]. split; [intros role vs; cbn; by rewrite lookup_empty|by intros ? ?%not_elem_of_nil]. }
  assert (∀ b, b ∈ SortBindings (ft_out st) ↔ b ∈ ft_out st) as Hin by (intros b; apply sort_on_elem).
  split_and!.
  - apply sorted_keys. apply sort_on_sorted; apply _.
  - intros b Hb%Hin. destruct (Ho b Hb) as [Hv Heff]. split; [done|]. destruct (Hc _ _ Hv) as (n & r & Hr & ->). eauto.
  - intros b b' [Hb _]%Hin%Ho [Hb' _]%Hin%Ho Heq. rewrite Heq in Hb. congruence.
Qed.

(** With a store that answers the same throughout, the fetch is a map. *)
Context (rv : string → option (list string)).
Context (Hrv : ∀ n role, match bs_GetRole ctx role (nth n) with
                         | Ok r => rv role = Some (rl_verbs r)
                         | Err (NotFound _ _) => rv role = None
                         | Err _ => False
                         end).

Definition cache_exact (st : fetch_state) : Prop := ∀ role o, ft_verbs st !! role = Some o → o = rv role.

Lemma foldM_fetch_stable l st :
  cache_exact st →
  ∃ st', foldM (fetch_one ctx nth) st l = Ok st' ∧
    ft_out st' = ft_out st ++ omap (λ e, to_authz e <$> rv (role_of e)) l.
Proof.
  revert st. induction l as [|e l IH]; intros st Hst; [exists st; by rewrite app_nil_r|]. cbn [foldM].
  assert (∃ st1, fetch_one ctx nth st e = Ok st1 ∧ cache_exact st1 ∧
    ft_out st1 = ft_out st ++ from_option (λ b, [b]) [] (to_authz e <$> rv (role_of e))) as (st1 & -> & Hst1 & Hout).
  { unfold fetch_one, role_of. destruct (ft_verbs st !! _) as [[vs|]|] eqn:Hv.
    - apply Hst in Hv. rewrite <-Hv. eexists. split_and!; [done|exact Hst|done].
    - apply Hst in Hv. rewrite <-Hv. eexists. split_and!; [done|exact Hst|]. by rewrite app_nil_r.
    - specialize (Hrv (ft_calls st) (bd_role (eb_binding e))). destruct (bs_GetRole ctx _ _) as [r|err].
      + rewrite Hrv. eexists. split_and!; [done| |done]. intros role o. cbn.
        rewrite lookup_insert_Some. intros [[<- <-]|[_ ?]]; [done|by apply Hst].
      + destruct err; try done. rewrite Hrv. eexists. split_and!; [done| |by rewrite app_nil_r]. intros role o. cbn.
        rewrite lookup_insert_Some. intros [[<- <-]|[_ ?]]; [done|by apply Hst]. }
  destruct (IH st1 Hst1) as (st' & Hf & Ho). exists st'. split; [done|]. rewrite Ho, Hout, <-(assoc_L (++)). f_equal.
  cbn. by destruct (rv (role_of e)).
Qed.

Lemma FetchBindings_stable subject :
  FetchBindings ctx nth subject =
  (let! effective := bs_ListEffectiveBindings ctx subject (nth 0) in
   Ok (SortBindings (omap (λ e, to_authz e <$> rv (role_of e)) effective))).
Proof.
  unfold FetchBindings. destruct (bs_ListEffectiveBindings _ _ _) as [effective|]; [|done]. cbn [result_bind].
  destruct (foldM_fetch_stable effective (mkFetch 1 ∅ [])) as (st' & -> & Ho).
  - intros role o. cbn. by rewrite lookup_empty.
  - cbn [result_bind]. by rewrite Ho.
Qed.
End fetch.

(** ** What a subject is permitted *)
Definition permitted (s : IdStore) (who verb : string) (resource : Resource) : Prop :=
  verb ∈ verbs ∧ ∃ k b role, bindings s !! k = Some b ∧ reaches s who b ∧ roles s !! bd_role b = Some role ∧
    verb ∈ rl_verbs role ∧ Scope_Matches (bd_scope b) resource = true.

(** One store state throughout. *)
Definition frozen (s : IdStore) : Snapshot IdStore := mkSnapshot s s (λ _, s).

Lemma fetch_frozen s who x :
  wf s → id_closed s = false → subjects s !! who = Some x → sj_disabled x = false →
  ∃ bs, FetchBindings false (λ _ : nat, s) who = Ok bs ∧
    ∀ verb resource, Allows bs verb resource = true ↔ permitted s who verb resource.
Proof.
  intros Hwf Hopen Hx Hd. destruct (effective_exact s who x Hwf Hopen Hx) as (l & Hl & _ & _ & Hin & _).
  pose (rv := λ role, rl_verbs <$> roles s !! role).
  rewrite (FetchBindings_stable false (λ _, s) rv); cycle 1.
  { intros _ role. cbn. unfold GetRole, id_enter. rewrite Hopen. cbn [result_bind]. unfold rv.
    by destruct (roles s !! role). }
  change (bs_ListEffectiveBindings false who s) with (ListEffectiveBindings false who s). rewrite Hl. cbn [result_bind].
  eexists. split; [done|]. intros verb resource. rewrite Allows_iff, Verb_Valid_iff. unfold permitted.
  apply and_iff_compat_l. unfold SortBindings, rv. setoid_rewrite sort_on_elem. setoid_rewrite list_elem_of_omap.
  unfold Binding_Allows. setoid_rewrite andb_true_iff. setoid_rewrite Binding_Grants_iff. split.
  - intros (b & (e & He & Hb) & Hv & Hm). apply fmap_Some in Hb as (vs & Hvs & ->). apply fmap_Some in Hvs as (r & Hr & ->).
    destruct (proj1 (Hin (eb_binding e))) as (_ & Hreach & k & Hk); [eauto|]. exists k, (eb_binding e), r. done.
  - intros (k & b & r & Hk & Hreach & Hr & Hv & Hm).
    destruct (proj2 (Hin b)) as (e & He & <-); [eauto|]. exists (to_authz e (rl_verbs r)). split; [|done].
    exists e. split; [done|]. unfold role_of. by rewrite Hr.
Qed.

Lemma FetchBindings_consistent_witness :
  let nth n := if n <? 2 then history demo_ops New
               else history (demo_ops ++ [OpUpdateRoleVerbs false "reader" ["repo:delete"]]) New in
  ∃ out, FetchBindings false nth "alice" = Ok out ∧ length out = 2 ∧
    ∀ b b', b ∈ out → b' ∈ out → b_role b = b_role b' → b_verbs b = b_verbs b'.
Proof.
  intros nth. destruct (FetchBindings false nth "alice") as [out|] eqn:H; [|vm_compute in H; discriminate H].
  exists out. split; [reflexivity|]. split.
  - vm_compute in H. injection H as <-. reflexivity.
  - destruct (FetchBindings_consistent false nth "alice" out H) as (_ & _ & _ & _ & Hsame). exact Hsame.
Defined.

Lemma ScopeFilter_of_Filter f name :
  ScopeFilter_Matches (mkScopeFilter (f_all f) (f_exact f) (f_prefix f)) name = Filter_Matches f name.
Proof.
  unfold ScopeFilter_Matches, Filter_Matches. cbn [sf_all sf_exact sf_prefix]. destruct (f_all f); [done|].
  destruct (negb (String.eqb (f_exact f) "")); [done|]. destruct (negb _); [|done]. rewrite andb_comm. f_equal.
  apply Bool.eq_iff_eq_true. unfold HasPrefix. by rewrite String.eqb_eq, String.prefix_correct.
Qed.

Lemma VisibilityFor_allows bs verb name :
  Visibility_Allows (VisibilityFor bs verb) name = existsb (λ f, Filter_Matches f name) (Filters (VisibleScopes bs verb)).
Proof.
  unfold VisibilityFor, Visibility_Allows. cbn. induction (Filters _) as [|f l IH]; [done|]. csimpl.
  by rewrite IH, ScopeFilter_of_Filter.
Qed.

(** ** The guard *)
Section guard.
Context {Req : Type} (g : Guard Req) (p : Permission Req) (r : Req).
Implicit Types (s : IdStore) (resource : Resource) (name : string).

(** The subject name a request resolves to. *)
Definition asking (name : string) : string := if String.eqb name "" then AnonymousSubjectName else name.

(** The must-rotate gate lets this subject through. *)
Definition rotation_clear s (x : Subject) : Prop :=
  pm_rotationExempt p = true ∨ gd_rotation g = false ∨ sj_kind x ≠ User ∨
  ∀ c, userCredentials s !! sj_name x = Some c → uc_mustRotate c = false.

Lemma Resolve_open s name :
  wf s → id_closed s = false →
  Resolve false s name =
  match subjects s !! asking name with
  | Some x => if sj_disabled x then Err (ErrDisabled (sj_name x)) else Ok (fromStored x)
  | None => Err (ErrUnknownSubject name)
  end.
Proof.
  intros Hwf Hopen. unfold Resolve, asking. cbn [su_GetSubject IdStore_SubjectStore]. unfold GetSubject, id_enter.
  rewrite Hopen. cbn [result_bind]. destruct (String.eqb name "") eqn:Hn.
  - destruct (wf_anonymous _ Hwf) as (x & -> & _). done.
  - by destruct (subjects s !! name).
Qed.

Lemma rotation_gate s x :
  id_closed s = false →
  (if pm_rotationExempt p then Ok false else rotationDue g false (frozen s) (fromStored x)) =
  Ok (negb (pm_rotationExempt p) && gd_rotation g && String.eqb (sj_kind x) User &&
      from_option uc_mustRotate false (userCredentials s !! sj_name x)).
Proof.
  intros Hopen. destruct (pm_rotationExempt p); [done|]. unfold rotationDue, fromStored. cbn [as_kind as_name negb andb].
  destruct (gd_rotation g), (String.eqb (sj_kind x) User); try done. cbn.
  unfold GetUserCredential, id_enter. rewrite Hopen. cbn. by destruct (userCredentials s !! sj_name x).
Qed.

Lemma rotation_clear_iff s x :
  negb (pm_rotationExempt p) && gd_rotation g && String.eqb (sj_kind x) User &&
    from_option uc_mustRotate false (userCredentials s !! sj_name x) = false ↔ rotation_clear s x.
Proof.
  unfold rotation_clear. rewrite !andb_false_iff, negb_false_iff, String.eqb_neq.
  destruct (userCredentials s !! sj_name x) as [c|]; cbn; split; intros H; repeat destruct H as [H|H]; auto.
  - right; right; right. by intros c' [= <-].
  - right; right; right. done.
Qed.

(** The refusal an unpermitted request gets. *)
Definition refusal_of s (x : Subject) resource (resp : Response) : Prop :=
  (sj_kind x = Anonymous ∧ resp = Unauthorized (challenge g r)) ∨
  (sj_kind x ≠ Anonymous ∧ resp = Forbidden ∧
     (IsSystem resource = true ∨ permitted s (sj_name x) RepoRead resource ∨ permitted s (sj_name x) RepoList resource)) ∨
  (sj_kind x ≠ Anonymous ∧ resp = NotFoundResponse ∧ IsSystem resource = false ∧
     ¬ permitted s (sj_name x) RepoRead resource ∧ ¬ permitted s (sj_name x) RepoList resource).

Lemma refusal_matrix s x bs resource d :
  (∀ verb resource, Allows bs verb resource = true ↔ permitted s (sj_name x) verb resource) →
  d_resource d = resource → refusal_of s x resource (refuse g r (fromStored x) bs d).1.
Proof.
  intros Hbs <-. unfold refusal_of, refuse. cbn [fst]. unfold IsAnonymous, fromStored. cbn [as_kind].
  destruct (String.eqb_spec (sj_kind x) Anonymous) as [->|Hk]; [by left|right]. unfold canRead.
  destruct (IsSystem (d_resource d)); [left; auto|].
  rewrite <-(Hbs RepoRead), <-(Hbs RepoList). destruct (Allows bs RepoRead _), (Allows bs RepoList _); cbn [orb]; [left; auto..|right].
  split_and!; [exact Hk|reflexivity|reflexivity|discriminate..].
Qed.

(** The answer to credentials that were refused. *)
Definition credentials_refused (e : AuthError) : Response :=
  match e with
  | RateLimited wait => TooManyRequests wait
  | ErrBadCredentials | ErrUnknownSubject _ | ErrDisabled _ => Unauthorized (challenge g r)
  | ErrNoAnonymousSubject | OtherAuthError _ => Internal
  end.

(** A subject using a route that is open to it on itself. *)
Definition on_itself (target : string) (x : Subject) : Prop :=
  is_Some (pm_self p) ∧ (target = "" ∨ target = sj_name x).

(** A listing is served under the visibility of what the subject may list; the
    anonymous subject with nothing to list gets the challenge. *)
Definition listing_answer s (x : Subject) (resp : Response) : Prop :=
  (∃ vis, resp = Served (fromStored x) None (Some vis) ∧ vs_unrestricted vis = false ∧
     ∀ n, Visibility_Allows vis n = true ↔ permitted s (sj_name x) (pm_verb p) (mkResource resourceRepository n)) ∨
  (sj_kind x = Anonymous ∧ resp = Unauthorized (challenge g r) ∧
     ∀ n, ¬ permitted s (sj_name x) (pm_verb p) (mkResource resourceRepository n)).

(** What an enabled subject past the rotation gate gets. *)
Definition subject_answer s (x : Subject) (target : string) resource (resp : Response) : Prop :=
  (on_itself target x → resp = Served (fromStored x) None None) ∧
  (¬ on_itself target x → pm_listing p = true → Verb_Valid (pm_verb p) = true → listing_answer s x resp) ∧
  (¬ on_itself target x → pm_listing p = false →
     ((∃ d, resp = Served (fromStored x) (Some d) None) ↔ permitted s (sj_name x) (pm_verb p) resource) ∧
     (¬ permitted s (sj_name x) (pm_verb p) resource → refusal_of s x resource resp)).

Lemma listing_answered s x bs :
  (∀ verb resource, Allows bs verb resource = true ↔ permitted s (sj_name x) verb resource) → Verb_Valid (pm_verb p) = true →
  listing_answer s x
    (if IsAnonymous (fromStored x) && (length (vs_filters (VisibilityFor bs (pm_verb p))) =? 0) then (Unauthorized (challenge g r), [])
     else (Served (fromStored x) None (Some (VisibilityFor bs (pm_verb p))), @nil (AuthnSubject * Decision_t))).1.
Proof.
  intros Hbs Hv.
  assert (∀ n, Visibility_Allows (VisibilityFor bs (pm_verb p)) n = true ↔ permitted s (sj_name x) (pm_verb p) (mkResource resourceRepository n)) as Hn.
  { intros n. by rewrite VisibilityFor_allows, <-Hbs, Allows_Filters. }
  destruct (IsAnonymous (fromStored x) && _) eqn:Ha; [right|left; eauto].
  apply andb_true_iff in Ha as [Ha%String.eqb_eq Hl%Nat.eqb_eq]. split_and!; [done..|]. intros n. rewrite <-Hn. unfold Visibility_Allows.
  apply nil_length_inv in Hl. rewrite Hl. by destruct (vs_unrestricted (VisibilityFor bs (pm_verb p))) eqn:Hu.
Qed.

(** C4: A request reaches its handler exactly when it is permitted, and every other
    request gets the refusal of the matrix. In every state the store can reach and
    that stays as it is while the request is checked: a malformed request is
    answered 400; refused credentials 429, a challenge, or 500 when the check
    failed; a name that is unknown or disabled gets the challenge; a subject whose
    password must be rotated is sent to do so. Any other subject is served a route
    it uses on itself; a listing under the visibility of exactly what it may list
    (a challenge for the anonymous subject with nothing to list); and any other
    route exactly when some stored binding that reaches it - directly or through a
    group - grants a role with the route's verb at a scope covering the resource.
    Without such a binding it gets a challenge when anonymous, 403 when it may
    already read or list the resource (or the resource is the system), and
    otherwise the same 404 as for a resource that is not there. *)
Theorem guard_admits_iff_permitted ops :
  let s := history ops New in
  id_closed s = false →
  let resp := (Require g false (frozen s) p r).1 in
  match perm_resolve p r, self_target p r, default NoCredentials (gd_credentials g) r with
  | Err reason, _, _ | Ok _, Err reason, _ => resp = BadRequest reason
  | Ok _, Ok _, Err e => resp = credentials_refused e
  | Ok resource, Ok target, Ok name =>
      match subjects s !! asking name with
      | None => resp = Unauthorized (challenge g r)
      | Some x =>
          (sj_disabled x = true → resp = Unauthorized (challenge g r)) ∧
          (sj_disabled x = false → ¬ rotation_clear s x → resp = RotationRequired) ∧
          (sj_disabled x = false → rotation_clear s x → subject_answer s x target resource resp)
      end
  end.
Proof.
  intros s Hopen. assert (wf s) as Hwf by apply id_history_wf, id_New_wf. clearbody s. cbv zeta. unfold Require, guard_subject.
  destruct (perm_resolve p r) as [resource|reason]; [|done]. destruct (self_target p r) as [target|reason]; [|done].
  destruct (default NoCredentials (gd_credentials g) r) as [name|e]; [|by destruct e]. cbn [result_bind sn_subjects frozen].
  rewrite Resolve_open by done. destruct (subjects s !! asking name) as [x|] eqn:Hx; [|done].
  assert (sj_name x = asking name) as Hname by by apply (wf_subjects _ Hwf).
  destruct (sj_disabled x) eqn:Hd; [done|]. split; [done|]. rewrite rotation_gate by done. destruct (_ && from_option _ _ _) eqn:Hrot.
  { split; [done|]. intros _ Hc%rotation_clear_iff. congruence. }
  apply rotation_clear_iff in Hrot. split; [done|]. intros _ _.
  change (as_name (fromStored x)) with (sj_name x).
  destruct (bool_decide (is_Some (pm_self p)) && (String.eqb target "" || String.eqb target (sj_name x))) eqn:Hself.
  { apply andb_true_iff in Hself as [H1%bool_decide_eq_true H2%orb_true_iff]. rewrite !String.eqb_eq in H2.
    split; [done|]. split; intros []; by split. }
  assert (¬ on_itself target x) as Hnot.
  { intros [H1 H2]. rewrite bool_decide_eq_true_2 in Hself by done. cbn [andb] in Hself. apply orb_false_iff in Hself as [H3 H4].
    apply String.eqb_neq in H3, H4. by destruct H2. }
  rewrite Hname. destruct (fetch_frozen s (asking name) x Hwf Hopen Hx Hd) as (bs & Hbs & Hallow).
  change (sn_bindings (frozen s)) with (λ _ : nat, s). rewrite Hbs. rewrite <-Hname in Hallow. split; [done|].
  destruct (pm_listing p) eqn:Hlist; (split; [|intros _; try done]).
  - intros _ _ Hv. by apply listing_answered.
  - done.
  - intros _. change (d_allowed (Decide bs (pm_verb p) resource)) with (Allows bs (pm_verb p) resource).
    destruct (Allows bs (pm_verb p) resource) eqn:Ha; cbn [negb].
    + apply Hallow in Ha. split; [|done]. split; [done|]. intros _. by eexists.
    + assert (¬ permitted s (sj_name x) (pm_verb p) resource) as Hno by (rewrite <-Hallow; congruence). split.
      * split; [|done]. intros (d & Heq). exfalso. revert Heq. unfold refuse. cbn [fst].
        destruct (IsAnonymous _); [done|]. by destruct (canRead _ _).
      * intros _. apply refusal_matrix; [done|]. unfold Decide. destruct (negb _); [done|]. by destruct (foldl _ _ _).
Qed.
End guard.

(** A deployment whose requests name their subject and repository. *)
Definition demo_guard : Guard (string * string) := mkGuard (Some (λ r, Ok r.1)) None true.
Definition pull_route : Permission (string * string) :=
  mkPermission RepoRead (Some (λ r, Ok (mkResource resourceRepository r.2))) None false false.
Definition catalog_route : Permission (string * string) := mkPermission RepoList None None true false.

Lemma guard_admits_iff_permitted_witness :
  (∃ subject d v, (Require demo_guard false (frozen (history demo_ops New)) pull_route ("alice", "team-b/api")).1 = Served subject d v) ∧
  permitted (history demo_ops New) "alice" RepoRead (mkResource resourceRepository "team-b/api") ∧
  (Require demo_guard false (frozen (history demo_ops New)) pull_route ("bob", "team-b/api")).1 = NotFoundResponse.
Proof.
  assert (id_closed (history demo_ops New) = false) as Hopen by (vm_compute; reflexivity).
  assert (subjects (history demo_ops New) !! "alice" = Some (mkSubject "u1" User "alice" false 1)) as Hx by (vm_compute; reflexivity).
  pose proof (guard_admits_iff_permitted demo_guard pull_route ("alice", "team-b/api") demo_ops Hopen) as H.
  cbv zeta in H.
  assert (perm_resolve pull_route ("alice", "team-b/api") = Ok (mkResource resourceRepository "team-b/api")) as E1 by reflexivity.
  assert (self_target pull_route ("alice", "team-b/api") = Ok "") as E2 by reflexivity.
  assert (default NoCredentials (gd_credentials demo_guard) ("alice", "team-b/api") = Ok "alice") as E3 by reflexivity.
  assert (asking "alice" = "alice") as E4 by reflexivity.
  rewrite E1, E2, E3, E4, Hx in H. destruct H as (_ & _ & H).
  destruct H as (_ & _ & [Hiff _]); [reflexivity| | |reflexivity|].
  - do 3 right. intros c Hc. assert (userCredentials (history demo_ops New) !! "alice" = None) as Hn by (vm_compute; reflexivity).
    cbn [sj_name] in Hc. rewrite Hn in Hc. discriminate Hc.
  - intros [[? Hs] _]. discriminate Hs.
  - split; [eexists _, _, _; vm_compute; reflexivity|]. split; [|vm_compute; reflexivity].
    apply Hiff. eexists. vm_compute. reflexivity.
Defined.

(** ** Failing closed *)
Section fail_closed.
Context {Req S : Type} `{!BindingStore S, !SubjectStore S, !RotationStore S}.

Lemma guard_subject_enabled (g : Guard Req) ctx (sn : Snapshot S) r subject :
  guard_subject g ctx sn r = Ok subject → as_disabled subject = false.
Proof.
  unfold guard_subject, Resolve. destruct (default _ _ r) as [name|]; [|done]. cbn [result_bind].
  destruct (su_GetSubject _ _ _) as [stored|[]]; try done; try (by destruct (String.eqb name "")).
  destruct (as_disabled (fromStored stored)) eqn:Hd; [done|]. by intros [= <-].
Qed.

(** C28: The guard fails closed. Against any store, answering differently at
    every call or failing at any of them, a served request means that the
    subject resolved and is enabled, that the rotation gate was passed or does
    not apply, and that either the route is one a subject may always use on
    itself and it is, or the bindings were read and a decision on them allowed
    the verb on the route's resource, or - on a listing - the handler was given
    the visibility compiled from them. A served request reports no denial. *)
Theorem guard_fails_closed (g : Guard Req) ctx (sn : Snapshot S) p r subject d v denials :
  Require g ctx sn p r = (Served subject d v, denials) →
  guard_subject g ctx sn r = Ok subject ∧ as_disabled subject = false ∧ denials = [] ∧
  (pm_rotationExempt p = true ∨ rotationDue g ctx sn subject = Ok false) ∧
  ((∃ f target, pm_self p = Some f ∧ f r = Ok target ∧ (target = "" ∨ target = as_name subject) ∧ d = None ∧ v = None) ∨
   ∃ bs, FetchBindings ctx (sn_bindings sn) (as_name subject) = Ok bs ∧
     ((pm_listing p = true ∧ d = None ∧ v = Some (VisibilityFor bs (pm_verb p))) ∨
      (pm_listing p = false ∧ v = None ∧
       ∃ resource, perm_resolve p r = Ok resource ∧ d = Some (Decide bs (pm_verb p) resource) ∧
                   Allows bs (pm_verb p) resource = true))).
Proof.
  unfold Require. destruct (perm_resolve p r) as [resource|]; [|done].
  destruct (self_target p r) as [target|] eqn:Ht; [|done].
  destruct (guard_subject g ctx sn r) as [x|err] eqn:Hs; [|by destruct err].
  assert (as_disabled x = false) as Hd by by eapply guard_subject_enabled.
  destruct (if pm_rotationExempt p then _ else _) as [[]|] eqn:Hrot; [done| |done].
  assert (pm_rotationExempt p = true ∨ rotationDue g ctx sn x = Ok false) as Hr by (destruct (pm_rotationExempt p); auto).
  clear Hrot. destruct (_ && _) eqn:Hself.
  { intros [= <- <- <- <-]. split_and!; [done..|]. left. apply andb_true_iff in Hself as [Hsome%bool_decide_eq_true Htarget].
    destruct Hsome as [f Hf]. unfold self_target in Ht. rewrite Hf in Ht. exists f, target.
    apply orb_true_iff in Htarget. rewrite !String.eqb_eq in Htarget. done. }
  destruct (FetchBindings ctx (sn_bindings sn) (as_name x)) as [bs|] eqn:Hbs; [|done].
  destruct (pm_listing p).
  { cbv zeta. destruct (IsAnonymous x && _); [done|]. intros [= <- <- <- <-]. split_and!; [done..|]. right. exists bs. split; [done|]. by left. }
  destruct (d_allowed (Decide bs (pm_verb p) resource)) eqn:Ha; cbn [negb].
  - intros [= <- <- <- <-]. split_and!; [done..|]. right. exists bs. split; [done|]. right.
    split_and!; [done..|]. exists resource. split_and!; [done..|exact Ha].
  - unfold refuse. destruct (IsAnonymous x); [done|]. by destruct (canRead _ _).
Qed.
End fail_closed.

Lemma guard_fails_closed_witness :
  ∃ subject d v, Require demo_guard false (frozen (history demo_ops New)) pull_route ("alice", "team-a/api") = (Served subject d v, []) ∧
    as_disabled subject = false.
Proof.
  destruct (Require demo_guard false (frozen (history demo_ops New)) pull_route ("alice", "team-a/api")) as [resp denials] eqn:H.
  destruct resp as [| | | | | | |subject d v]; try (vm_compute in H; discriminate H).
  exists subject, d, v. destruct (guard_fails_closed demo_guard false _ pull_route _ subject d v denials H) as (_ & Hd & Hden & _).
  split; [|exact Hd]. rewrite Hden. reflexivity.
Defined.

(** ** Listings *)
(** C30: The catalog shows a subject exactly what it may list. On a listing
    route, in any state of the identity tables and any reachable state of the
    content tables, an enabled, unbarred subject that is served and reads all
    pages under the visibility the guard compiled sees, in order and once each,
    exactly the names holding content on which it is permitted the route's verb;
    the visibility is never the unrestricted one. *)
Theorem catalog_shows_permitted {Req} (g : Guard Req) (p : Permission Req) (r : Req) ops (st : Store) subject d vis limit :
  let s := history ops New in
  id_closed s = false → reachable st → closed st = false → Verb_Valid (pm_verb p) = true →
  (Require g false (frozen s) p r).1 = Served subject d (Some vis) →
  vs_unrestricted vis = false ∧
  ∃ names,
    read_pages (λ cursor, match ListContentNames false (mkListOptions vis limit cursor) st with
                          | Ok page => page | Err _ => ([], "") end)
      (Datatypes.S (size (manifests st) + size (cachedManifests st))) "" = Some names ∧
    StronglySorted String.le names ∧ NoDup names ∧
    ∀ n, n ∈ names ↔ holds_content st n ∧
                     permitted s (as_name subject) (pm_verb p) (mkResource resourceRepository n).
Proof.
  intros s Hopen Hst Hcl Hv H. assert (wf s) as Hwf by apply id_history_wf, id_New_wf. clearbody s.
  assert (guard_subject g false (frozen s) r = Ok subject ∧
          ∃ bs, FetchBindings false (λ _ : nat, s) (as_name subject) = Ok bs ∧ vis = VisibilityFor bs (pm_verb p))
    as (Hsub & bs & Hbs & ->).
  { unfold Require in H. destruct (perm_resolve p r); [|done]. destruct (self_target p r); [|done].
    destruct (guard_subject g false (frozen s) r) as [x|err]; [|by destruct err].
    destruct (if pm_rotationExempt p then _ else _) as [[]|]; [done| |done].
    destruct (_ && _); [done|]. destruct (FetchBindings false _ _) as [bs|] eqn:Hbs; [|done].
    cbv zeta in H. destruct (pm_listing p); [destruct (IsAnonymous x && _); [done|]|destruct (negb _); [|done]].
    - cbn [fst] in H. injection H as <- _ <-. eauto.
    - unfold refuse in H. cbn [fst] in H. destruct (IsAnonymous x); [done|]. by destruct (canRead _ _). }
  split; [done|].
  assert (∃ x, subjects s !! as_name subject = Some x ∧ sj_disabled x = false) as (x & Hx & Hd).
  { unfold guard_subject in Hsub. destruct (default _ _ r) as [name|]; [|done]. cbn [result_bind sn_subjects frozen] in Hsub.
    rewrite Resolve_open in Hsub by done. destruct (subjects s !! asking name) as [x|] eqn:Hx; [|done].
    destruct (sj_disabled x) eqn:Hd; [done|]. injection Hsub as <-. exists x. split; [|done]. cbn.
    by rewrite (proj1 (wf_subjects _ Hwf _ _ Hx)). }
  destruct (fetch_frozen s _ x Hwf Hopen Hx Hd) as (bs' & Hbs' & Hallow). rewrite Hbs in Hbs'. injection Hbs' as <-.
  destruct (content_paging st (VisibilityFor bs (pm_verb p)) limit (reachable_wf _ Hst) Hcl) as (names & Hp & Hs & Hnd & Hin).
  exists names. split_and!; [exact Hp|exact Hs|exact Hnd|]. intros n.
  rewrite Hin, VisibilityFor_allows, <-Hallow, Allows_Filters by done. done.
Qed.

Lemma catalog_shows_permitted_witness :
  ∃ subject d vis,
    (Require demo_guard false (frozen (history demo_ops New)) catalog_route ("alice", "")).1 = Served subject d (Some vis) ∧
    ∃ names,
      read_pages (λ cursor, match ListContentNames false (mkListOptions vis 1 cursor) demo3 with
                            | Ok page => page | Err _ => ([], "") end)
        (S (size (manifests demo3) + size (cachedManifests demo3))) "" = Some names ∧
      ∀ n, n ∈ names ↔ holds_content demo3 n ∧
        permitted (history demo_ops New) (as_name subject) RepoList (mkResource resourceRepository n).
Proof.
  destruct (Require demo_guard false (frozen (history demo_ops New)) catalog_route ("alice", "")).1
    as [| | | | | | |subject d [vis|]] eqn:H; try (vm_compute in H; discriminate H).
  exists subject, d, vis. split; [reflexivity|].
  destruct (catalog_shows_permitted demo_guard catalog_route ("alice", "") demo_ops demo3 subject d vis 1)
    as (_ & names & Hp & _ & _ & Hin).
  - vm_compute; reflexivity.
  - exact demo_reachable.
  - reflexivity.
  - vm_compute; reflexivity.
  - exact H.
  - exists names. split; [exact Hp|exact Hin].
Defined.

(** ** Retry-After *)
(** [Retry-After] is truthful. For any wait the limiter can report, the
    whole seconds of the header are enough - waiting them is never too short -
    and no smaller positive number of seconds would be, so a client is not told
    to wait a second longer than needed. *)
Theorem retry_after_truthful wait :
  (0 < wait < 2 ^ 63 - second)%Z →
  let s := retrySeconds wait in
  (wait ≤ s * second)%Z ∧ (1 ≤ s)%Z ∧ ((s - 1) * second < wait)%Z.
Proof.
  intros Hw. unfold retrySeconds, add64, second in *. rewrite !int64_small by (unfold int64_range; rewrite ?int64_small by (unfold int64_range; lia); lia).
  rewrite Z.quot_div_nonneg by lia.
  pose proof (Z.div_mod (wait + 1000000000 + -1) 1000000000 ltac:(lia)) as H1.
  pose proof (Z.mod_pos_bound (wait + 1000000000 + -1) 1000000000 ltac:(lia)) as H2.
  assert (1 ≤ (wait + 1000000000 + -1) / 1000000000)%Z by (apply Z.div_le_lower_bound; lia). cbv zeta. lia.
Qed.

Lemma retry_after_truthful_witness :
  (0 < 1500000000 < 2 ^ 63 - second)%Z ∧ retrySeconds 1500000000 = 2%Z ∧ (1500000000 ≤ retrySeconds 1500000000 * second)%Z.
Proof.
  assert (0 < 1500000000 < 2 ^ 63 - second)%Z as H by (split; vm_compute; reflexivity).
  split; [exact H|]. split; [vm_compute; reflexivity|]. exact (proj1 (retry_after_truthful 1500000000 H)).
Defined.
