(* ===== verification/Limiter.v ===== *)
(** * The login rate limiter (src/internal/authn/ratelimit.go)

    A token bucket per key, kept as the instant at which the key's allowance is
    fully restored (the generic cell rate algorithm), with a bound on the number
    of keys and an eviction that drops the least indebted first. Instants are
    nanoseconds; durations are int64, so the tolerance wraps and the difference
    of two instants saturates, as in package time. *)
From S2P Require Import Prelude.
Local Open Scope Z_scope.

Record LimiterConfig : Type := mkLimiterConfig { lc_burst : Z; lc_refill : Z; lc_maxKeys : Z }.

Definition DefaultAccountLimit : LimiterConfig := mkLimiterConfig 10 10000000000 4096.
Definition DefaultAddressLimit : LimiterConfig := mkLimiterConfig 60 2000000000 4096.

Inductive LimitError : Type := InvalidBurst (n : Z) | InvalidRefill (d : Z) | InvalidMaxKeys (n : Z).

Definition LimiterConfig_Validate (c : LimiterConfig) : result LimitError unit :=
  if lc_burst c <=? 0 then Err (InvalidBurst (lc_burst c))
  else if lc_refill c <=? 0 then Err (InvalidRefill (lc_refill c))
  else if lc_maxKeys c <=? 0 then Err (InvalidMaxKeys (lc_maxKeys c))
  else Ok tt.

(** The limiter; [lm_buckets] holds each key's [restoredAt]. *)
Record Limiter : Type := mkLimiter { lm_cfg : LimiterConfig; lm_buckets : gmap string Z }.

Definition NewLimiter (c : LimiterConfig) : result LimitError Limiter :=
  check! LimiterConfig_Validate c in Ok (mkLimiter c ∅).

(** [time.Time.Sub] saturates at the bounds of a duration. *)
Definition time_sub (a b : Z) : Z := Z.max (- 2 ^ 63) (Z.min (2 ^ 63 - 1) (a - b)).

Definition tolerance (c : LimiterConfig) : Z := int64 (int64 (lc_burst c - 1) * lc_refill c).

Definition wait (c : LimiterConfig) (restoredAt now : Z) : Z := time_sub (restoredAt + int64 (- tolerance c)) now.

(** One pass over the map for the smallest [restoredAt]; the zero instant is
    the "none seen yet" of the source. *)
Definition poorest (m : gmap string Z) : string * Z :=
  foldl (λ best kb, if (best.2 =? 0) || (kb.2 <? best.2) then kb else best) ("", 0) (map_to_list m).

(** The second loop of [evict], bounded by the number of keys. *)
Fixpoint evict_poorest (fuel : nat) (maxKeys : Z) (m : gmap string Z) : gmap string Z :=
  match fuel with
  | O => m
  | S fuel => if Z.of_nat (size m) <? maxKeys then m else evict_poorest fuel maxKeys (delete (poorest m).1 m)
  end.

Definition evict (now : Z) (l : Limiter) : Limiter :=
  if Z.of_nat (size (lm_buckets l)) <? lc_maxKeys (lm_cfg l) then l
  else
    let owing := filter (λ kb, now < kb.2) (lm_buckets l) in
    mkLimiter (lm_cfg l) (evict_poorest (size owing) (lc_maxKeys (lm_cfg l)) owing).

(** A key's state, created owing nothing. *)
Definition bucket (key : string) (now : Z) (l : Limiter) : Z * Limiter :=
  match lm_buckets l !! key with
  | Some restoredAt => (restoredAt, l)
  | None =>
      let l := evict now l in
      (now, mkLimiter (lm_cfg l) (<[key := now]> (lm_buckets l)))
  end.

Definition set_bucket (key : string) (restoredAt : Z) (l : Limiter) : Limiter :=
  mkLimiter (lm_cfg l) (<[key := restoredAt]> (lm_buckets l)).

Definition Allow (key : string) (now : Z) (l : Limiter) : (bool * Z) * Limiter :=
  let '(b, l) := bucket key now l in
  let w := wait (lm_cfg l) b now in
  if 0 <? w then ((false, w), l)
  else
    let b := if b <? now then now else b in
    ((true, 0), set_bucket key (b + lc_refill (lm_cfg l)) l).

Definition Refund (key : string) (now : Z) (l : Limiter) : Limiter :=
  match lm_buckets l !! key with
  | None => l
  | Some b =>
      let restored := b - lc_refill (lm_cfg l) in
      set_bucket key (if now <? restored then restored else now) l
  end.

Definition Peek (key : string) (now : Z) (l : Limiter) : (bool * Z) * Limiter :=
  let '(b, l) := bucket key now l in
  let w := wait (lm_cfg l) b now in
  ((w <=? 0, Z.max w 0), l).

Definition Keys (l : Limiter) : nat := size (lm_buckets l).

(** ** Two dimensions *)
Record Attempt : Type := mkAttempt { an_account : string; an_address : string }.
Record AttemptLimiter : Type := mkAttemptLimiter { al_account : Limiter; al_address : Limiter }.

Definition NewAttemptLimiter (account address : LimiterConfig) : result LimitError AttemptLimiter :=
  let! byAccount := NewLimiter account in
  let! byAddress := NewLimiter address in
  Ok (mkAttemptLimiter byAccount byAddress).

(** Looking at one dimension: the wait it asks for, nothing for an empty key. *)
Definition check_dimension (key : string) (now : Z) (l : Limiter) (w : Z) : Z * Limiter :=
  if String.eqb key "" then (w, l)
  else let '((ok, retry), l) := Peek key now l in (if ok then w else Z.max w retry, l).

Definition spend (key : string) (now : Z) (l : Limiter) : Limiter :=
  if String.eqb key "" then l else (Allow key now l).2.

(** [clock n] is the [n]-th reading of the clock in this call. *)
Definition AttemptLimiter_Allow (a : Attempt) (clock : nat → Z) (l : AttemptLimiter) : (bool * Z) * AttemptLimiter :=
  let '(w, account) := check_dimension (an_account a) (clock 0%nat) (al_account l) 0 in
  let '(w, address) := check_dimension (an_address a) (clock 1%nat) (al_address l) w in
  if 0 <? w then ((false, w), mkAttemptLimiter account address)
  else ((true, 0), mkAttemptLimiter (spend (an_account a) (clock 2%nat) account) (spend (an_address a) (clock 3%nat) address)).

Definition refund_key (key : string) (now : Z) (l : Limiter) : Limiter :=
  if String.eqb key "" then l else Refund key now l.

Definition Succeed (a : Attempt) (clock : nat → Z) (l : AttemptLimiter) : AttemptLimiter :=
  mkAttemptLimiter (refund_key (an_account a) (clock 0%nat) (al_account l)) (refund_key (an_address a) (clock 1%nat) (al_address l)).
