(* ===== verification/LimiterSpec.v ===== *)
(** * The rate limiter: how many guesses it lets through

    The bound on attempts per key over any window, the exactness of the waits it
    reports, the bound on its memory, and what eviction may and may not forget. *)
From S2P Require Import Prelude Limiter.
Local Open Scope Z_scope.

(** A configuration that validates and whose tolerance fits a duration. *)
Record cfg_ok (c : LimiterConfig) : Prop := {
  ck_valid : LimiterConfig_Validate c = Ok tt;
  ck_fits : (lc_burst c - 1) * lc_refill c < 2 ^ 63;
}.

Lemma cfg_ok_pos c : cfg_ok c → 0 < lc_burst c ∧ 0 < lc_refill c ∧ 0 < lc_maxKeys c.
Proof.
  intros [Hv _]. unfold LimiterConfig_Validate in Hv.
  destruct (lc_burst c <=? 0) eqn:?; [done|]. destruct (lc_refill c <=? 0) eqn:?; [done|].
  destruct (lc_maxKeys c <=? 0) eqn:?; [done|]. lia.
Qed.

Lemma tolerance_exact c : cfg_ok c → tolerance c = (lc_burst c - 1) * lc_refill c ∧ 0 ≤ tolerance c < 2 ^ 63.
Proof.
  intros Hc. destruct (cfg_ok_pos c Hc) as (Hb & Hr & _). destruct Hc as [_ Hfit].
  assert (lc_burst c - 1 ≤ (lc_burst c - 1) * lc_refill c) by nia. unfold tolerance.
  rewrite (int64_small (lc_burst c - 1)) by (unfold int64_range; lia).
  rewrite int64_small by (unfold int64_range; nia). nia.
Qed.

Lemma time_sub_pos a b : (0 <? time_sub a b) = (b <? a).
Proof.
  unfold time_sub. destruct (Z.ltb_spec b a); [apply Z.ltb_lt|apply Z.ltb_ge]; lia.
Qed.

(** A wait is asked for exactly when the debt exceeds the tolerance. *)
Lemma wait_pos c b now : cfg_ok c → (0 <? wait c b now) = (now + tolerance c <? b).
Proof.
  intros Hc. destruct (tolerance_exact c Hc) as [_ Ht]. unfold wait. rewrite int64_small by (unfold int64_range; lia).
  rewrite time_sub_pos. apply Bool.eq_iff_eq_true. rewrite !Z.ltb_lt. lia.
Qed.

(** ** Histories *)
Inductive LimOp : Type :=
| LAllow (key : string) (now : Z)
| LPeek (key : string) (now : Z)
| LRefund (key : string) (now : Z).

Definition op_key (o : LimOp) : string := match o with LAllow k _ | LPeek k _ | LRefund k _ => k end.
Definition op_time (o : LimOp) : Z := match o with LAllow _ t | LPeek _ t | LRefund _ t => t end.

Definition lim_exec (o : LimOp) (l : Limiter) : bool * Limiter :=
  match o with
  | LAllow k t => let '((ok, _), l) := Allow k t l in (ok, l)
  | LPeek k t => (false, (Peek k t l).2)
  | LRefund k t => (false, Refund k t l)
  end.

Fixpoint lim_run (ops : list LimOp) (l : Limiter) : list (string * bool) * Limiter :=
  match ops with
  | [] => ([], l)
  | o :: ops =>
      let '(ok, l) := lim_exec o l in
      let '(out, l) := lim_run ops l in ((op_key o, ok) :: out, l)
  end.

(** Attempts the limiter let through for a key. *)
Definition granted (key : string) (out : list (string * bool)) : nat :=
  length (filter (λ kb, kb.1 = key ∧ kb.2 = true) out).

Definition refunds (key : string) (o : LimOp) : bool := match o with LRefund k _ => String.eqb k key | _ => false end.

(** ** Memory *)
Lemma poorest_fold (l : list (string * Z)) best :
  (∀ kb, kb ∈ l → 0 < kb.2) → 0 ≤ best.2 →
  let res := foldl (λ best kb, if (best.2 =? 0) || (kb.2 <? best.2) then kb else best) best l in
  (res = best ∨ res ∈ l) ∧ (best.2 = 0 → l ≠ [] → res ∈ l) ∧
  (∀ kb, kb ∈ l → res.2 ≤ kb.2) ∧ (0 < best.2 → res.2 ≤ best.2).
Proof.
  revert best. induction l as [|kb l IH]; intros best Hl Hb; cbn.
  { split_and!; [by left|done|by intros ? ?%not_elem_of_nil|lia]. }
  assert (0 < kb.2) as Hkb by (apply Hl; by left).
  set (best' := if (best.2 =? 0) || (kb.2 <? best.2) then kb else best).
  assert (best' = kb ∨ (best' = best ∧ 0 < best.2)) as Hcase.
  { unfold best'. destruct (Z.eqb_spec best.2 0); cbn; [by left|]. destruct (kb.2 <? best.2); [by left|right; split; [done|lia]]. }
  assert (best'.2 ≤ kb.2 ∧ (0 < best.2 → best'.2 ≤ best.2)) as [Hle1 Hle2].
  { unfold best'. destruct (Z.eqb_spec best.2 0); cbn; [lia|]. destruct (Z.ltb_spec kb.2 best.2); cbn; lia. }
  destruct (IH best') as (H1 & H2 & H3 & H4).
  { intros. apply Hl. by right. } { destruct Hcase as [->|[-> ?]]; lia. }
  assert (0 < best'.2) as Hpos by (destruct Hcase as [->|[-> ?]]; lia). specialize (H4 Hpos).
  split_and!.
  - destruct H1 as [->|H1]; [|right; by right]. destruct Hcase as [->|[-> _]]; [right; by left|by left].
  - intros Hz _. destruct H1 as [->|H1]; [|by right]. destruct Hcase as [->|[_ ?]]; [by left|lia].
  - intros x [->|Hx]%elem_of_cons; [lia|by apply H3].
  - lia.
Qed.

Lemma poorest_spec (m : gmap string Z) :
  map_Forall (λ _ b, 0 < b) m → m ≠ ∅ →
  ∃ b, m !! (poorest m).1 = Some b ∧ map_Forall (λ _ b', b ≤ b') m.
Proof.
  intros Hpos Hne. destruct (poorest_fold (map_to_list m) ("", 0)) as (_ & Hin & Hmin & _).
  - intros [k b] Hk%elem_of_map_to_list. by apply (Hpos k).
  - done.
  - specialize (Hin eq_refl). fold (poorest m) in *. destruct (poorest m) as [k b] eqn:Hp.
    assert ((k, b) ∈ map_to_list m) as Hk.
    { apply Hin. intros Hnil. by apply map_to_list_empty_iff in Hnil. }
    apply elem_of_map_to_list in Hk. exists b. split; [done|]. intros k' b' Hk'.
    apply (Hmin (k', b')). by apply elem_of_map_to_list.
Qed.

Lemma evict_poorest_spec fuel maxKeys (m : gmap string Z) :
  0 < maxKeys → (size m ≤ fuel)%nat → map_Forall (λ _ b, 0 < b) m →
  let m' := evict_poorest fuel maxKeys m in
  Z.of_nat (size m') < maxKeys ∧ m' ⊆ m ∧
  (∀ k b, m !! k = Some b → m' !! k = None → map_Forall (λ _ b', b ≤ b') m' ∧ maxKeys ≤ Z.of_nat (size m)).
Proof.
  intros Hmax. revert m. induction fuel as [|fuel IH]; intros m Hf Hpos; cbn.
  { assert (m = ∅) as -> by (apply map_size_empty_iff; lia). split_and!; [done|done|]. intros k b. by rewrite lookup_empty. }
  destruct (Z.ltb_spec (Z.of_nat (size m)) maxKeys) as [Hlt|Hge]; [split_and!; [done|done|congruence]|].
  assert (m ≠ ∅) as Hne by (intros ->; rewrite map_size_empty in Hge; lia).
  destruct (poorest_spec m Hpos Hne) as (b & Hb & Hmin). set (k := (poorest m).1) in *.
  assert (size (delete k m) = pred (size m)) as Hsz by (apply map_size_delete_Some; eauto).
  assert (size m ≠ 0%nat) by (by apply map_size_non_empty_iff).
  destruct (IH (delete k m)) as (H1 & H2 & H3); [lia|by apply map_Forall_delete|].
  split_and!; [done|etrans; [done|apply delete_subseteq]|].
  intros k' b' Hk' Hgone. destruct (decide (k' = k)) as [->|Hkk].
  - split; [|done]. intros j c Hj. rewrite Hb in Hk'. injection Hk' as <-. apply (Hmin j).
    eapply lookup_weaken in Hj; [|exact H2]. by apply lookup_delete_Some in Hj as [_ ?].
  - destruct (H3 k' b') as [? _]; [by rewrite lookup_delete_ne|done|]. split; done.
Qed.

(** Eviction costs no enforcement it could keep. Making room at an instant
    leaves fewer keys than the bound and forgets only keys that owe no more than
    every key kept; a key that still owes is forgotten only when the bound's
    worth of keys owe. Forgetting a key that owes nothing changes nothing for
    it: at any later time its next attempt is answered, and charged, the same. *)
Theorem evict_keeps_the_indebted l now :
  cfg_ok (lm_cfg l) → 0 ≤ now →
  let l' := evict now l in
  Z.of_nat (Keys l') < lc_maxKeys (lm_cfg l) ∧ lm_buckets l' ⊆ lm_buckets l ∧
  (∀ k b, lm_buckets l !! k = Some b → lm_buckets l' !! k = None →
     map_Forall (λ _ b', b ≤ b') (lm_buckets l') ∧
     (now < b → lc_maxKeys (lm_cfg l) ≤ Z.of_nat (size (filter (λ kb, now < kb.2) (lm_buckets l))))) ∧
  (∀ k b later, b ≤ now → now ≤ later →
     let with_row := mkLimiter (lm_cfg l) {[k := b]} in
     let forgotten := mkLimiter (lm_cfg l) ∅ in
     (Allow k later with_row).1 = (true, 0) ∧ (Allow k later forgotten).1 = (true, 0) ∧
     lm_buckets (Allow k later with_row).2 = lm_buckets (Allow k later forgotten).2).
Proof.
  intros Hc Hnow. destruct (cfg_ok_pos _ Hc) as (_ & _ & Hmax). cbv zeta. unfold evict, Keys.
  assert (∀ k b later, b ≤ now → now ≤ later →
     let with_row := mkLimiter (lm_cfg l) {[k := b]} in
     let forgotten := mkLimiter (lm_cfg l) ∅ in
     (Allow k later with_row).1 = (true, 0) ∧ (Allow k later forgotten).1 = (true, 0) ∧
     lm_buckets (Allow k later with_row).2 = lm_buckets (Allow k later forgotten).2) as Hforget.
  { intros k b later Hb Hl. destruct (tolerance_exact _ Hc) as [_ Ht]. unfold Allow, bucket, evict.
    cbn [lm_buckets lm_cfg]. rewrite lookup_singleton_eq, lookup_empty, map_size_empty.
    rewrite (proj2 (Z.ltb_lt (Z.of_nat 0) (lc_maxKeys (lm_cfg l)))) by lia. cbn [lm_buckets lm_cfg].
    rewrite !wait_pos by done.
    rewrite (proj2 (Z.ltb_ge (later + tolerance _) b)), (proj2 (Z.ltb_ge (later + tolerance _) later)) by lia. cbn. split_and!; [done..|].
    assert ((if b <? later then later else b) = later) as -> by (destruct (Z.ltb_spec b later); lia).
    rewrite Z.ltb_irrefl. apply map_eq. intros j. destruct (decide (k = j)) as [<-|Hj].
    - by rewrite !lookup_insert_eq.
    - by rewrite !lookup_insert_ne, lookup_singleton_ne, lookup_empty by done. }
  destruct (Z.ltb_spec (Z.of_nat (size (lm_buckets l))) (lc_maxKeys (lm_cfg l))) as [Hlt|Hge]; cbn.
  { split_and!; [done|done|congruence|done]. }
  set (owing := filter _ (lm_buckets l)).
  destruct (evict_poorest_spec (size owing) (lc_maxKeys (lm_cfg l)) owing) as (H1 & H2 & H3); [done|done| |].
  { intros k b [_ Hb]%map_lookup_filter_Some. cbn in Hb. lia. }
  split_and!; [done|etrans; [done|apply map_filter_subseteq]| |done].
  intros k b Hb Hgone. destruct (decide (now < b)) as [Hlt|Hnlt].
  - destruct (H3 k b) as [? ?]; [by apply map_lookup_filter_Some|done|]. split; done.
  - split; [|lia]. intros j c Hj. eapply lookup_weaken in Hj; [|exact H2]. apply map_lookup_filter_Some in Hj as [_ Hj]. cbn in Hj. lia.
Qed.

Definition demo_cfg : LimiterConfig := mkLimiterConfig 3 10 2.
Lemma demo_cfg_ok : cfg_ok demo_cfg.
Proof. split; [reflexivity|vm_compute; reflexivity]. Qed.

Lemma evict_keeps_the_indebted_witness :
  let l := mkLimiter demo_cfg {["idle" := 5; "guesser" := 130; "typo" := 110]} in
  lm_buckets (evict 100 l) = {["guesser" := 130]} ∧ Z.of_nat (Keys (evict 100 l)) < 2.
Proof.
  intros l. split; [vm_compute; reflexivity|].
  exact (proj1 (evict_keeps_the_indebted l 100 demo_cfg_ok ltac:(vm_compute; discriminate))).
Defined.

(** ** No key is forgotten while there is room *)
Lemma evict_room now l : Z.of_nat (size (lm_buckets l)) < lc_maxKeys (lm_cfg l) → evict now l = l.
Proof. intros H. unfold evict. by rewrite (proj2 (Z.ltb_lt _ _) H). Qed.

(** What one operation does to the bucket of a key when nothing is evicted. *)
Lemma bucket_room key now l b l' :
  bucket key now l = (b, l') → (lm_buckets l !! key = None → Z.of_nat (size (lm_buckets l)) < lc_maxKeys (lm_cfg l)) →
  lm_cfg l' = lm_cfg l ∧ b = default now (lm_buckets l !! key) ∧ lm_buckets l' = <[key := b]> (lm_buckets l).
Proof.
  unfold bucket. destruct (lm_buckets l !! key) as [r|] eqn:Hr.
  - intros [= <- <-] _. split_and!; [done..|]. by rewrite insert_id.
  - intros H Hroom. rewrite (evict_room now l) in H by auto. injection H as <- <-. done.
Qed.

(** The instant a key's allowance is restored, as seen from [t]. *)
Definition level (l : Limiter) (key : string) (t : Z) : Z := Z.max t (default t (lm_buckets l !! key)).

Lemma size_room (l : Limiter) (keys : gset string) key :
  dom (lm_buckets l) ⊆ keys → Z.of_nat (size keys) ≤ lc_maxKeys (lm_cfg l) → key ∈ keys →
  lm_buckets l !! key = None → Z.of_nat (size (lm_buckets l)) < lc_maxKeys (lm_cfg l).
Proof.
  intros Hd Hk Hin Hn. assert (size (dom (lm_buckets l)) < size keys)%nat; [|rewrite <-size_dom; lia].
  apply subset_size. split; [done|]. intros Hsub. apply Hsub in Hin. by apply not_elem_of_dom in Hn.
Qed.

Lemma lim_exec_room o l keys ok l' :
  cfg_ok (lm_cfg l) → dom (lm_buckets l) ⊆ keys → Z.of_nat (size keys) ≤ lc_maxKeys (lm_cfg l) → op_key o ∈ keys →
  lim_exec o l = (ok, l') →
  lm_cfg l' = lm_cfg l ∧ dom (lm_buckets l') ⊆ keys ∧
  (∀ key t, t ≤ op_time o → refunds key o = false →
     if ok && String.eqb (op_key o) key
     then level l key t + lc_refill (lm_cfg l) ≤ level l' key (op_time o) ≤ op_time o + lc_burst (lm_cfg l) * lc_refill (lm_cfg l)
     else level l key t ≤ level l' key (op_time o)).
Proof.
  intros Hc Hd Hk Hin H. destruct (tolerance_exact _ Hc) as [Htol Htpos]. destruct (cfg_ok_pos _ Hc) as (_ & Hrefill & _).
  assert (lc_burst (lm_cfg l) * lc_refill (lm_cfg l) = tolerance (lm_cfg l) + lc_refill (lm_cfg l)) as Hbr by (rewrite Htol; ring).
  assert (lm_buckets l !! op_key o = None → Z.of_nat (size (lm_buckets l)) < lc_maxKeys (lm_cfg l)) as Hroom by by eapply size_room.
  destruct o as [k now|k now|k now]; cbn [op_key op_time lim_exec refunds] in *.
  - unfold Allow in H. destruct (bucket k now l) as [b l1] eqn:Hb.
    destruct (bucket_room _ _ _ _ _ Hb Hroom) as (Hcfg & Hbv & Hl1). rewrite Hcfg, wait_pos in H by done.
    destruct (Z.ltb_spec (now + tolerance (lm_cfg l)) b) as [Hrefuse|Hgrant]; injection H as <- <-; cbn [andb].
    + split_and!; [done|rewrite Hl1, dom_insert_L; set_solver|]. intros key t Ht _. unfold level. rewrite Hl1.
      destruct (decide (k = key)) as [<-|Hne]; [rewrite lookup_insert_eq|rewrite lookup_insert_ne by done]; cbn.
      * rewrite Hbv. destruct (lm_buckets l !! k); cbn; lia.
      * destruct (lm_buckets l !! key); cbn; lia.
    + cbn [lm_cfg lm_buckets set_bucket]. split_and!; [done|rewrite Hl1, !dom_insert_L; set_solver|]. intros key t Ht _. unfold level.
      cbn [lm_buckets set_bucket]. rewrite Hl1. destruct (String.eqb_spec k key) as [<-|Hne].
      * rewrite lookup_insert_eq. cbn.
        destruct (lm_buckets l !! k) as [r|]; cbn in *; destruct (Z.ltb_spec b now); lia.
      * rewrite !lookup_insert_ne by done. destruct (lm_buckets l !! key); cbn; lia.
  - unfold Peek in H. destruct (bucket k now l) as [b l1] eqn:Hb. injection H as <- <-. cbn.
    destruct (bucket_room _ _ _ _ _ Hb Hroom) as (Hcfg & Hbv & Hl1).
    split_and!; [done|rewrite Hl1, dom_insert_L; set_solver|]. intros key t Ht _. unfold level. rewrite Hl1.
    destruct (decide (k = key)) as [<-|Hne]; [rewrite lookup_insert_eq|rewrite lookup_insert_ne by done]; cbn.
    + rewrite Hbv. destruct (lm_buckets l !! k); cbn; lia.
    + destruct (lm_buckets l !! key); cbn; lia.
  - injection H as <- <-. unfold Refund. destruct (lm_buckets l !! k) as [b|] eqn:Hb; cbn.
    + split_and!; [done|rewrite dom_insert_L; set_solver|]. intros key t Ht Hne%String.eqb_neq. unfold level. cbn.
      rewrite lookup_insert_ne by done. destruct (lm_buckets l !! key); cbn; lia.
    + split_and!; [done..|]. intros key t Ht _. unfold level. destruct (lm_buckets l !! key); cbn; lia.
Qed.

(** Consecutive instants never go back. *)
Fixpoint ordered_from (t : Z) (ops : list LimOp) : Prop :=
  match ops with [] => True | o :: ops => t ≤ op_time o ∧ ordered_from (op_time o) ops end.

Lemma granted_bound ops l keys key t0 t1 :
  cfg_ok (lm_cfg l) → dom (lm_buckets l) ⊆ keys → Z.of_nat (size keys) ≤ lc_maxKeys (lm_cfg l) →
  Forall (λ o, op_key o ∈ keys ∧ refunds key o = false ∧ op_time o ≤ t1) ops → ordered_from t0 ops → t0 ≤ t1 →
  Z.of_nat (granted key (lim_run ops l).1) * lc_refill (lm_cfg l) ≤
    Z.max 0 (t1 + lc_burst (lm_cfg l) * lc_refill (lm_cfg l) - level l key t0).
Proof.
  intros Hc. revert l t0 Hc. induction ops as [|o ops IH]; intros l t0 Hc Hd Hk Hops Hord Ht.
  { cbn. lia. }
  apply Forall_cons in Hops as [(Hin & Href & Hle) Hops]. destruct Hord as [Hto Hord]. cbn [lim_run].
  destruct (lim_exec o l) as [ok l'] eqn:Ho.
  destruct (lim_exec_room o l keys ok l' Hc Hd Hk Hin Ho) as (Hcfg & Hd' & Hlevel). specialize (Hlevel key t0 Hto Href).
  assert (cfg_ok (lm_cfg l')) as Hc' by by rewrite Hcfg.
  specialize (IH l' (op_time o) Hc' Hd' ltac:(by rewrite Hcfg) Hops Hord Hle). rewrite Hcfg in IH.
  destruct (lim_run ops l') as [out lf]. unfold granted in *. cbn [fst] in *. rewrite filter_cons. cbn [fst snd].
  destruct (cfg_ok_pos _ Hc) as (_ & Hrefill & _).
  case_decide as Hg.
  - destruct Hg as [Hkey ->]. rewrite (proj2 (String.eqb_eq _ _) Hkey) in Hlevel. cbn [andb] in Hlevel. cbn [length]. nia.
  - assert (ok && String.eqb (op_key o) key = false) as Hf.
    { destruct ok; [|done]. cbn. apply String.eqb_neq. intros Heq. by apply Hg. }
    rewrite Hf in Hlevel. nia.
Qed.

(** C38: No key gets more guesses than the limit allows. Over any run of
    attempts, probes and other keys' refunds at instants that do not go back,
    with a valid configuration whose burst less one, times the refill interval,
    fits 63 bits, and with no more keys in play than the table holds, so that no
    bucket is evicted, a key that is refunded nothing is let through at most its
    burst plus one attempt per refill interval of the window - whatever state the
    limiter starts in. *)
Theorem attempts_bounded l ops keys key t0 t1 :
  cfg_ok (lm_cfg l) → dom (lm_buckets l) ⊆ keys → Z.of_nat (size keys) ≤ lc_maxKeys (lm_cfg l) →
  Forall (λ o, op_key o ∈ keys ∧ refunds key o = false ∧ op_time o ≤ t1) ops → ordered_from t0 ops → t0 ≤ t1 →
  Z.of_nat (granted key (lim_run ops l).1) ≤ lc_burst (lm_cfg l) + (t1 - t0) / lc_refill (lm_cfg l).
Proof.
  intros Hc Hd Hk Hops Hord Ht. pose proof (granted_bound ops l keys key t0 t1 Hc Hd Hk Hops Hord Ht) as H.
  destruct (cfg_ok_pos _ Hc) as (Hb & Hr & _).
  assert (t0 ≤ level l key t0) by (unfold level; lia).
  pose proof (Z.div_mod (t1 - t0) (lc_refill (lm_cfg l)) ltac:(lia)).
  pose proof (Z.mod_pos_bound (t1 - t0) (lc_refill (lm_cfg l)) ltac:(lia)). nia.
Qed.

Definition hammer : list LimOp :=
  [LAllow "a" 0; LAllow "a" 1; LPeek "b" 1; LAllow "a" 2; LAllow "a" 3; LRefund "b" 5; LAllow "a" 9; LAllow "a" 10; LAllow "a" 25].
Lemma attempts_bounded_witness :
  granted "a" (lim_run hammer (mkLimiter demo_cfg ∅)).1 = 5%nat ∧
  Z.of_nat (granted "a" (lim_run hammer (mkLimiter demo_cfg ∅)).1) ≤ 3 + (25 - 0) / 10.
Proof.
  split; [vm_compute; reflexivity|].
  apply (attempts_bounded (mkLimiter demo_cfg ∅) hammer {["a"; "b"]} "a" 0 25).
  - exact demo_cfg_ok.
  - cbn. rewrite dom_empty. set_solver.
  - vm_compute. discriminate.
  - unfold hammer. repeat (constructor; [cbn; split; [set_solver|split; [reflexivity|lia]]|]). constructor.
  - cbn. lia.
  - lia.
Defined.

(** ** Waits *)
(** The wait a refusal reports is exact. When a key with a bucket is refused
    at [now] with wait [w], an attempt at [now + w] is granted and one at any
    instant before that is refused; so a client that waits as told is never
    turned away for being early, nor made to wait longer. *)
Theorem wait_is_exact l key now b w l1 :
  cfg_ok (lm_cfg l) → lm_buckets l !! key = Some b → b - now < 2 ^ 63 →
  Allow key now l = ((false, w), l1) →
  0 < w ∧ l1 = l ∧ (Allow key (now + w) l1).1 = (true, 0) ∧
  ∀ t, now ≤ t < now + w → (Allow key t l1).1 = (false, now + w - t).
Proof.
  intros Hc Hb Hnear H. unfold Allow, bucket in H. rewrite Hb in H. destruct (0 <? wait (lm_cfg l) b now) eqn:Hw; [|done].
  injection H as <- <-. destruct (tolerance_exact _ Hc) as [_ Ht].
  assert (∀ t, now ≤ t → b - t + 1 > - 2 ^ 63 → wait (lm_cfg l) b t = Z.max (- 2 ^ 63) (b - tolerance (lm_cfg l) - t)) as Hexact.
  { intros t Hle _. unfold wait, time_sub. rewrite int64_small by (unfold int64_range; lia). lia. }
  rewrite wait_pos in Hw by done. apply Z.ltb_lt in Hw.
  assert (wait (lm_cfg l) b now = b - tolerance (lm_cfg l) - now) as Hwait by (rewrite Hexact; lia).
  rewrite Hwait. split_and!; [lia|done| |].
  - unfold Allow, bucket. rewrite Hb, wait_pos by done. by rewrite (proj2 (Z.ltb_ge _ _)) by lia.
  - intros t Hle. unfold Allow, bucket. rewrite Hb, wait_pos by done. rewrite (proj2 (Z.ltb_lt _ _)) by lia. cbn.
    rewrite Hexact by lia. f_equal. lia.
Qed.

Lemma wait_is_exact_witness :
  let l := mkLimiter demo_cfg {["a" := 130]} in
  Allow "a" 100 l = ((false, 10), l) ∧ (Allow "a" (100 + 10) l).1 = (true, 0).
Proof.
  intros l. assert (Allow "a" 100 l = ((false, 10), l)) as H by (vm_compute; reflexivity). split; [exact H|].
  apply (wait_is_exact l "a" 100 130 10 l demo_cfg_ok); [vm_compute; reflexivity|lia|exact H].
Defined.

(** ** The bound on memory *)
Lemma bucket_keys key now l :
  cfg_ok (lm_cfg l) → 0 ≤ now → Z.of_nat (Keys l) ≤ lc_maxKeys (lm_cfg l) →
  lm_cfg (bucket key now l).2 = lm_cfg l ∧ Z.of_nat (Keys (bucket key now l).2) ≤ lc_maxKeys (lm_cfg l) ∧
  is_Some (lm_buckets (bucket key now l).2 !! key).
Proof.
  intros Hc Hnow Hk. unfold bucket. destruct (lm_buckets l !! key) as [b|] eqn:Hb; [cbn; eauto|]. cbn.
  assert (Z.of_nat (size (lm_buckets (evict now l))) < lc_maxKeys (lm_cfg l) ∧ lm_cfg (evict now l) = lm_cfg l) as [Hlt Hcfg].
  { destruct (cfg_ok_pos _ Hc) as (_ & _ & Hmax). unfold evict. destruct (Z.ltb_spec (Z.of_nat (size (lm_buckets l))) (lc_maxKeys (lm_cfg l))); [done|].
    cbn. split; [|done]. apply (evict_poorest_spec _ _ (filter _ (lm_buckets l))); [done|done|].
    intros k b [_ Hlt]%map_lookup_filter_Some. cbn in Hlt. lia. }
  split_and!; [done| |rewrite lookup_insert_eq; eauto]. unfold Keys. cbn. rewrite map_size_insert.
  destruct (lm_buckets (evict now l) !! key); cbn; lia.
Qed.

(** Memory is bounded. Whatever keys the network sends, in whatever order,
    the limiter never holds more keys than its bound, and it never refuses to
    track a new one. *)
Theorem keys_bounded c ops l :
  cfg_ok c → NewLimiter c = Ok l → Forall (λ o, 0 ≤ op_time o) ops →
  let l' := (lim_run ops l).2 in
  Z.of_nat (Keys l') ≤ lc_maxKeys c ∧
  ∀ key now, 0 ≤ now → is_Some (lm_buckets (Peek key now l').2 !! key).
Proof.
  intros Hc Hnew Hops. unfold NewLimiter in Hnew. rewrite (ck_valid _ Hc) in Hnew. cbn in Hnew. injection Hnew as <-.
  assert (∀ l, lm_cfg l = c → Z.of_nat (Keys l) ≤ lc_maxKeys c →
            lm_cfg (lim_run ops l).2 = c ∧ Z.of_nat (Keys (lim_run ops l).2) ≤ lc_maxKeys c) as Hrun.
  { induction Hops as [|o ops Ho Hops IH]; intros l Hl Hk; [done|]. cbn [lim_run].
    assert (lm_cfg (lim_exec o l).2 = c ∧ Z.of_nat (Keys (lim_exec o l).2) ≤ lc_maxKeys c) as [Hl' Hk'].
    { destruct o as [k now|k now|k now]; cbn [lim_exec op_time] in *.
      - destruct (bucket_keys k now l) as (H1 & H2 & H3); [by rewrite Hl|done|by rewrite Hl|]. unfold Allow.
        destruct (bucket k now l) as [b l1]. cbn in *. rewrite <-Hl. destruct (0 <? _); [done|]. cbn. unfold Keys in *. cbn.
        rewrite map_size_insert_Some by done. done.
      - destruct (bucket_keys k now l) as (H1 & H2 & H3); [by rewrite Hl|done|by rewrite Hl|]. unfold Peek.
        destruct (bucket k now l) as [b l1]. cbn in *. by rewrite <-Hl.
      - unfold Refund. destruct (lm_buckets l !! k) as [b|] eqn:Hb; [|done]. cbn. unfold Keys in *. cbn.
        rewrite map_size_insert_Some by eauto. done. }
    destruct (lim_exec o l) as [ok l1]. cbn in Hl', Hk'. specialize (IH l1 Hl' Hk'). by destruct (lim_run ops l1). }
  destruct (Hrun (mkLimiter c ∅)) as [Hcfg Hk]; [done|unfold Keys; cbn; rewrite map_size_empty; destruct (cfg_ok_pos _ Hc); lia|].
  cbv zeta. split; [done|]. intros key now Hnow.
  destruct (bucket_keys key now (lim_run ops (mkLimiter c ∅)).2) as (_ & _ & Hs); [by rewrite Hcfg|done|by rewrite Hcfg|].
  unfold Peek. by destruct (bucket key now _).
Qed.

Lemma keys_bounded_witness :
  ∃ l, NewLimiter demo_cfg = Ok l ∧
    Z.of_nat (Keys (lim_run [LAllow "a" 1; LAllow "b" 2; LAllow "c" 3; LPeek "d" 4] l).2) ≤ 2.
Proof.
  eexists. split; [reflexivity|].
  refine (proj1 (keys_bounded demo_cfg [LAllow "a" 1; LAllow "b" 2; LAllow "c" 3; LPeek "d" 4] _ demo_cfg_ok eq_refl _)).
  repeat (constructor; [cbn; lia|]). constructor.
Defined.
