(* ===== verification/Sha2.v ===== *)
(** * SHA-256 and SHA-512

    The hashes of Go's crypto/sha256 and crypto/sha512, which
    src/internal/blob/digest.go registers as its two algorithms. Both are one
    construction at two word sizes, so the model is parametric in the word size,
    the number of rounds and the rotation amounts. The round constants and the
    initial state are computed from their definition, the fractional parts of
    cube and square roots of the first primes. *)
From S2P Require Import Prelude.
Local Open Scope Z_scope.

(** ** Words of [w] bits *)
Definition wrap (w x : Z) : Z := x mod 2 ^ w.
Definition rotr (w n x : Z) : Z := Z.lor (Z.shiftr x n) (wrap w (Z.shiftl x (w - n))).
Definition complement (w x : Z) : Z := 2 ^ w - 1 - x.

(** ** Constants from roots of primes *)
Definition divides_none (n : Z) (ps : list Z) : bool := forallb (λ p, negb (n mod p =? 0)) ps.

Fixpoint primes_from (fuel : nat) (n : Z) (found : list Z) : list Z :=
  match fuel with
  | O => found
  | S fuel => primes_from fuel (n + 1) (if divides_none n found then found ++ [n] else found)
  end.

(** The first eighty primes: the eightieth is 409. *)
Definition primes : list Z := primes_from 408 2 [].

(** The largest [r] of [bits] bits whose [k]-th power is at most [x]. *)
Fixpoint root_bits (bits : nat) (k x r : Z) : Z :=
  match bits with
  | O => r
  | S bits =>
      let r' := r + 2 ^ Z.of_nat bits in
      root_bits bits k x (if r' ^ k <=? x then r' else r)
  end.

Definition root_fraction (k w p : Z) : Z := wrap w (root_bits (Z.to_nat w + 6) k (p * 2 ^ (k * w)) 0).

Record Sha2 : Type := mkSha2 {
  sh_word : Z;
  sh_rounds : nat;
  sh_S0 : Z * Z * Z; sh_S1 : Z * Z * Z;           (* three rotations *)
  sh_s0 : Z * Z * Z; sh_s1 : Z * Z * Z;           (* two rotations and a shift *)
  sh_K : list Z;
  sh_H : list Z;
}.

Definition sha256_params : Sha2 := Eval vm_compute in
  mkSha2 32 64 (2, 13, 22) (6, 11, 25) (7, 18, 3) (17, 19, 10)
    (map (root_fraction 3 32) (firstn 64 primes)) (map (root_fraction 2 32) (firstn 8 primes)).

Definition sha512_params : Sha2 := Eval vm_compute in
  mkSha2 64 80 (28, 34, 39) (14, 18, 41) (1, 8, 7) (19, 61, 6)
    (map (root_fraction 3 64) (firstn 80 primes)) (map (root_fraction 2 64) (firstn 8 primes)).

Section sha2.
Context (h : Sha2).
Local Notation w := (sh_word h).

Definition big_sigma (r : Z * Z * Z) (x : Z) : Z :=
  let '(a, b, c) := r in Z.lxor (rotr w a x) (Z.lxor (rotr w b x) (rotr w c x)).
Definition small_sigma (r : Z * Z * Z) (x : Z) : Z :=
  let '(a, b, c) := r in Z.lxor (rotr w a x) (Z.lxor (rotr w b x) (Z.shiftr x c)).
Definition choose (x y z : Z) : Z := Z.lxor (Z.land x y) (Z.land (complement w x) z).
Definition majority (x y z : Z) : Z := Z.lxor (Z.land x y) (Z.lxor (Z.land x z) (Z.land y z)).

(** One round: the registers and the sliding window of sixteen schedule words. *)
Definition round (st : list Z * list Z) (k : Z) : list Z * list Z :=
  let '(regs, window) := st in
  let word := nth 0 window 0 in
  let next := wrap w (small_sigma (sh_s1 h) (nth 14 window 0) + nth 9 window 0 +
                      small_sigma (sh_s0 h) (nth 1 window 0) + word) in
  (match regs with
   | [a; b; c; d; e; f; g; i] =>
       let t1 := i + big_sigma (sh_S1 h) e + choose e f g + k + word in
       let t2 := big_sigma (sh_S0 h) a + majority a b c in
       [wrap w (t1 + t2); a; b; c; wrap w (d + t1); e; f; g]
   | _ => regs
   end, tl window ++ [next]).

Definition compress (state block : list Z) : list Z :=
  zip_with (λ a b, wrap w (a + b)) state (foldl round (state, block) (sh_K h)).1.

(** ** Bytes and words, big-endian *)
Definition byte_Z (c : ascii) : Z := Z.of_nat (nat_of_ascii c).
Definition Z_byte (z : Z) : ascii := ascii_of_nat (Z.to_nat (z mod 256)).

Definition word_bytes : nat := Z.to_nat (w / 8).
Definition read_word (bs : list ascii) : Z := foldl (λ acc c, acc * 256 + byte_Z c) 0 bs.

Fixpoint put_bytes (n : nat) (z : Z) : list ascii :=
  match n with
  | O => []
  | S n => Z_byte (Z.shiftr z (8 * Z.of_nat n)) :: put_bytes n z
  end.

(** The message, a one bit, zeroes, and its length in bits in a field of two words. *)
Definition pad (msg : list ascii) : list ascii :=
  let block := (16 * word_bytes)%nat in
  let field := (2 * word_bytes)%nat in
  let len := length msg in
  let zeroes := Z.to_nat ((- (Z.of_nat len + 1 + Z.of_nat field)) mod Z.of_nat block) in
  msg ++ Z_byte 128 :: replicate zeroes (Z_byte 0) ++ put_bytes field (8 * Z.of_nat len).

Fixpoint chunks {A} (fuel n : nat) (l : list A) : list (list A) :=
  match fuel, l with
  | S fuel, _ :: _ => take n l :: chunks fuel n (drop n l)
  | _, _ => []
  end.

Definition words (bs : list ascii) : list Z := read_word <$> chunks (length bs) word_bytes bs.

Definition sum (msg : list ascii) : list ascii :=
  let input := words (pad msg) in
  let final := foldl compress (sh_H h) (chunks (length input) 16 input) in
  final ≫= put_bytes word_bytes.
End sha2.

(** [fmt]'s [%x] on bytes. *)
Definition hex_digit (n : nat) : ascii :=
  ascii_of_nat (if (n <? 10)%nat then 48 + n else 87 + n)%nat.
Fixpoint hex_bytes (bs : list ascii) : string :=
  match bs with
  | [] => ""
  | c :: bs => String (hex_digit (nat_of_ascii c / 16)) (String (hex_digit (nat_of_ascii c mod 16)) (hex_bytes bs))
  end.

(** ** The size of a sum *)
Lemma round_length h st k : length st.1 = 8%nat → length (round h st k).1 = 8%nat.
Proof. destruct st as [regs window]. simpl. intros H. do 8 (destruct regs as [|? regs]; [done|]). by destruct regs. Qed.

Lemma compress_length h state block : length state = 8%nat → length (compress h state block) = 8%nat.
Proof.
  intros H. unfold compress. rewrite length_zip_with.
  enough (length (foldl (round h) (state, block) (sh_K h)).1 = 8%nat) as -> by (by rewrite H).
  generalize (sh_K h). intros ks. revert state block H.
  induction ks as [|k ks IH]; intros state block H; [done|]. cbn [foldl].
  destruct (round h (state, block) k) as [st' b'] eqn:E. apply IH.
  pose proof (round_length h (state, block) k H) as Hr. rewrite E in Hr. exact Hr.
Qed.

Lemma put_bytes_length n z : length (put_bytes n z) = n.
Proof. induction n as [|n IH]; simpl; [done|]. by rewrite IH. Qed.

Lemma sum_length h msg : length (sh_H h) = 8%nat → length (sum h msg) = (8 * word_bytes h)%nat.
Proof.
  intros H. unfold sum. generalize (chunks (length (words h (pad h msg))) 16 (words h (pad h msg))). intros blocks.
  assert (length (foldl (compress h) (sh_H h) blocks) = 8%nat) as Hl.
  { revert H. generalize (sh_H h). induction blocks as [|b bs IH]; intros s H; [done|]. by apply IH, compress_length. }
  revert Hl. generalize (foldl (compress h) (sh_H h) blocks). intros l <-. clear.
  induction l as [|x l IH]; [done|]. csimpl. rewrite length_app, put_bytes_length, IH. simpl. lia.
Qed.

Lemma hex_bytes_length bs : String.length (hex_bytes bs) = (2 * length bs)%nat.
Proof. induction bs as [|b bs IH]; [done|]. cbn [hex_bytes String.length length]. rewrite IH. lia. Qed.

(** The test vectors of FIPS 180-4 for the three-byte message. *)
Example sha256_abc :
  hex_bytes (sum sha256_params (String.list_ascii_of_string "abc")) =
  "ba7816bf8f01cfea414140de5dae2223b00361a396177a9cb410ff61f20015ad".
Proof. vm_compute. reflexivity. Qed.

Example sha512_abc :
  hex_bytes (sum sha512_params (String.list_ascii_of_string "abc")) =
  "ddaf35a193617abacc417349ae20413112e6fa4e89a97ea20a9eeee64b55d39a2192992a274fc1a836ba3c23a3feebbd454d4423643ce80e2a9ac94fa54ca49f".
Proof. vm_compute. reflexivity. Qed.
