(* ===== verification/Verify.v ===== *)
(** * Verified content (src/internal/blob: digest.go, errors.go, verify.go)

    The hashing half of digest.go, the [Verifier] every driver writes through,
    [Copy], and [verifiedReader], the stream that runs one byte behind its source
    and withholds the last byte until the hash is right.

    A Go [io.Reader] is an instance of the class [Reader]; what its callers rely
    on, the documented contract of [io.Reader] for a finite stream, is the class
    [ReaderLaws]. The theorem about [verifiedReader] is that it obeys the same
    contract, for the content that may be served. *)
From S2P Require Import Prelude RepoName Digest Sha2.

Abbreviation bytes := (list ascii).

(** ** Errors (errors.go) *)
Inductive BlobError : Type :=
| BlobCanceled
| BlobNotFound (kind id : string)
| BlobInvalidDigest (reason : DigestError)
| Mismatch (expected actual : string) (size : Z)
| BlobInvalid (field reason : string)
| ReadFailed (what : string).                     (* an error of the stream read from *)

(** ** Hashing (digest.go) *)
Definition Algorithm_New (a : string) : option Sha2 :=
  if String.eqb a SHA256 then Some sha256_params
  else if String.eqb a SHA512 then Some sha512_params
  else None.

Definition digestOf (algo : string) (h : Sha2) (written : bytes) : string :=
  algo +:+ ":" +:+ hex_bytes (sum h written).

(** [None] is the panic on an unavailable algorithm. *)
Definition FromBytes (algo : string) (data : bytes) : option string :=
  match Algorithm_New algo with
  | None => None
  | Some h => Some (digestOf algo h data)
  end.

(** ** Verifier (verify.go): the hash's state is what has been written to it *)
Record Verifier : Type := mkVerifier { vf_expected : string; vf_hash : Sha2; vf_written : bytes; vf_size : Z }.

(** Validation leaves only available algorithms, so [New] is not nil. *)
Definition NewVerifier (expected : string) : result BlobError Verifier :=
  match Digest_Validate expected with
  | Err reason => Err (BlobInvalidDigest reason)
  | Ok _ => Ok (mkVerifier expected (default sha256_params (Algorithm_New (Digest_Algorithm expected))) [] 0)
  end.

Definition Verifier_Write (p : bytes) (v : Verifier) : Verifier :=
  mkVerifier (vf_expected v) (vf_hash v) (vf_written v ++ p) (add64 (vf_size v) (Z.of_nat (length p))).

Definition Verifier_Digest (v : Verifier) : string :=
  digestOf (Digest_Algorithm (vf_expected v)) (vf_hash v) (vf_written v).

Definition Verifier_Verify (v : Verifier) : result BlobError unit :=
  let actual := Verifier_Digest v in
  if String.eqb actual (vf_expected v) then Ok tt else Err (Mismatch (vf_expected v) actual (vf_size v)).

(** ** Readers *)
Inductive ReadError : Type := EOF | Failed (e : BlobError).

(** [rd_read k r] is [Read] of a buffer of [k] bytes: the bytes returned, the
    error beside them, the reader afterwards; [None] is a call that panics or
    never returns. [rd_left] bounds the reads before the stream ends. *)
Class Reader (R : Type) : Type := {
  rd_read : nat → R → option (bytes * option ReadError * R);
  rd_left : R → nat;
}.

(** What the contract asks of one read. *)
Definition read_obeys {R} `{!Reader R} (wf : R → Prop) (rest : R → bytes) (fin : R → ReadError) : Prop :=
  ∀ k r, wf r → 0 < k →
    ∃ c e r', rd_read k r = Some (c, e, r') ∧ wf r' ∧ length c ≤ k ∧
      rest r = c ++ rest r' ∧ fin r' = fin r ∧
      rd_left r' ≤ rd_left r ∧ (c ≠ [] ∨ e = None → rd_left r' < rd_left r) ∧
      (∀ x, e = Some x → x = fin r ∧ rest r' = []).

(** The contract: a well-formed reader has [rd_rest] still to give and ends with
    [rd_end]; reads return consecutive pieces of it no longer than the buffer,
    an error comes once everything has been returned, and stays. *)
Class ReaderLaws (R : Type) `{!Reader R} : Type := {
  rd_wf : R → Prop;
  rd_rest : R → bytes;
  rd_end : R → ReadError;
  rd_law : read_obeys rd_wf rd_rest rd_end;
}.

(** [bytes.Reader]. *)
Record BytesReader : Type := mkBytesReader { br_bytes : bytes }.

#[export] Instance BytesReader_Reader : Reader BytesReader := {|
  rd_read k r :=
    match br_bytes r with
    | [] => Some ([], Some EOF, r)
    | data => Some (take k data, None, mkBytesReader (drop k data))
    end;
  rd_left r := length (br_bytes r);
|}.

Lemma BytesReader_obeys : read_obeys (λ _ : BytesReader, True) br_bytes (λ _, EOF).
Proof.
  intros k [data] _ Hk. simpl. destruct data as [|b data].
  - eexists [], (Some EOF), _. simpl. split_and!; naive_solver lia.
  - eexists _, None, _. split_and!; [done|done|rewrite length_take; lia|symmetry; apply take_drop|done|..|done];
      simpl; rewrite length_drop; simpl; lia.
Qed.

#[export] Instance BytesReader_Laws : ReaderLaws BytesReader := {| rd_law := BytesReader_obeys |}.

Lemma bytes_reader_wf (b : BytesReader) : rd_wf b.
Proof. exact I. Qed.

(** A body that arrives in pieces and ends with an error of its own: a request
    body, whose connection may drop. Whether the last piece carries the error is
    up to the transport. *)
Record Body : Type := mkBody { bd_pieces : list bytes; bd_eager : bool; bd_end : ReadError }.

#[export] Instance Body_Reader : Reader Body := {|
  rd_read k b :=
    match bd_pieces b with
    | [] => Some ([], Some (bd_end b), b)
    | p :: ps =>
        if length p <=? k
        then Some (p, match ps with [] => if bd_eager b then Some (bd_end b) else None | _ => None end,
                   mkBody ps (bd_eager b) (bd_end b))
        else Some (take k p, None, mkBody (drop k p :: ps) (bd_eager b) (bd_end b))
    end;
  rd_left b := length (bd_pieces b) + length (concat (bd_pieces b));
|}.

Lemma Body_obeys : read_obeys (λ _ : Body, True) (λ b, concat (bd_pieces b)) bd_end.
Proof.
  intros k [pieces eager e] _ Hk. simpl. destruct pieces as [|p ps].
  - eexists [], (Some e), _. simpl. split_and!; naive_solver lia.
  - destruct (Nat.leb_spec (length p) k) as [Hle|Hgt].
    + eexists p, _, _. split_and!; [done..| | |]; simpl; rewrite ?length_app; [lia..|].
      intros x. destruct ps; [|done]. destruct eager; naive_solver.
    + eexists _, None, _. split_and!; [done|done|rewrite length_take; lia| |done|..|done];
        simpl; [by rewrite (assoc_L (++)), take_drop|rewrite !length_app, length_drop; lia..].
Qed.

#[export] Instance Body_Laws : ReaderLaws Body := {| rd_law := Body_obeys |}.

Lemma body_wf (b : Body) : rd_wf b.
Proof. exact I. Qed.

(** [io.Copy] into a buffer, with its buffer of 32 KiB. *)
Definition copyBuffer : nat := N.to_nat 32768.
#[global] Arguments copyBuffer : simpl never.

Section copy.
Context {R : Type} `{!Reader R}.

Fixpoint copy_loop (fuel : nat) (dst : bytes) (src : R) : option (bytes * option ReadError * R) :=
  match fuel with
  | O => None
  | S fuel =>
      match rd_read copyBuffer src with
      | None => None
      | Some (c, e, src) =>
          match e with
          | None => copy_loop fuel (dst ++ c) src
          | Some EOF => Some (dst ++ c, None, src)
          | Some e => Some (dst ++ c, Some e, src)
          end
      end
  end.

(** What was copied, and the error, if the stream did not end well. *)
Definition io_Copy (src : R) : option (bytes * option ReadError * R) := copy_loop (S (rd_left src)) [] src.

(** ** Copy (verify.go), into the [bytes.Buffer] of the in-memory driver *)
Definition Copy (src : R) (expected : string) : option (bytes * result BlobError unit * R) :=
  match NewVerifier expected with
  | Err e => Some ([], Err e, src)
  | Ok verifier =>
      match io_Copy src with
      | None => None
      | Some (written, Some (Failed e), src) => Some (written, Err e, src)
      | Some (written, _, src) => Some (written, Verifier_Verify (Verifier_Write written verifier), src)
      end
  end.
End copy.

(** ** The verified reader (verify.go) *)
Record Descriptor : Type := mkDescriptor { ds_digest : string; ds_size : Z }.

(** [vr_reported] are the calls of [onCorrupt] so far; [vr_hook] is whether there
    is one. *)
Record verifiedReader (R : Type) : Type := mkVerifiedReader {
  vr_src : R;
  vr_desc : Descriptor;
  vr_verifier : Verifier;
  vr_held : ascii;
  vr_hasHeld : bool;
  vr_done : bool;
  vr_err : option ReadError;
  vr_hook : bool;
  vr_reported : list (Descriptor * BlobError);
}.
Arguments mkVerifiedReader {R} _ _ _ _ _ _ _ _ _.
Arguments vr_src {R}. Arguments vr_desc {R}. Arguments vr_verifier {R}. Arguments vr_held {R}.
Arguments vr_hasHeld {R}. Arguments vr_done {R}. Arguments vr_err {R}. Arguments vr_hook {R}. Arguments vr_reported {R}.

Section verified_reader.
Context {R : Type} `{!Reader R}.
Implicit Type r : verifiedReader R.

Definition NewVerifiedReader (src : R) (desc : Descriptor) (onCorrupt : bool) : result BlobError (verifiedReader R) :=
  let! verifier := NewVerifier (ds_digest desc) in
  Ok (mkVerifiedReader src desc verifier "000" false false None onCorrupt []).

Definition set_src (src : R) r : verifiedReader R :=
  mkVerifiedReader src (vr_desc r) (vr_verifier r) (vr_held r) (vr_hasHeld r) (vr_done r) (vr_err r) (vr_hook r) (vr_reported r).
Definition set_done (e : ReadError) r : verifiedReader R :=
  mkVerifiedReader (vr_src r) (vr_desc r) (vr_verifier r) (vr_held r) (vr_hasHeld r) true (Some e) (vr_hook r) (vr_reported r).
Definition drop_held r : verifiedReader R :=
  mkVerifiedReader (vr_src r) (vr_desc r) (vr_verifier r) (vr_held r) false (vr_done r) (vr_err r) (vr_hook r) (vr_reported r).
Definition report (e : BlobError) r : verifiedReader R :=
  mkVerifiedReader (vr_src r) (vr_desc r) (vr_verifier r) (vr_held r) (vr_hasHeld r) (vr_done r) (vr_err r) (vr_hook r)
    (if vr_hook r then vr_reported r ++ [(vr_desc r, e)] else vr_reported r).

(** Bytes arrived: they are hashed, and the last one is held. *)
Definition hash_and_hold (c : bytes) (b : ascii) r : verifiedReader R :=
  mkVerifiedReader (vr_src r) (vr_desc r) (Verifier_Write c (vr_verifier r)) b true (vr_done r) (vr_err r) (vr_hook r) (vr_reported r).

Definition held r : bytes := if vr_hasHeld r then [vr_held r] else [].

(** The end of the stream. [out] is what the buffer of [k] bytes holds already;
    the owed byte is written behind it, which panics when there is no room. *)
Definition finish (k : nat) (out : bytes) r : option (bytes * option ReadError * verifiedReader R) :=
  match Verifier_Verify (vr_verifier r) with
  | Err e => Some (out, Some (Failed e), report e (drop_held (set_done (Failed e) r)))
  | Ok _ =>
      if vr_hasHeld r then
        if length out <? k then Some (out ++ [vr_held r], Some EOF, set_done EOF (drop_held r)) else None
      else Some (out, Some EOF, set_done EOF r)
  end.

(** The loop of [Read]; one iteration per read of the source that gives nothing
    to hand over. *)
Fixpoint read_loop (fuel k : nat) r : option (bytes * option ReadError * verifiedReader R) :=
  match fuel with
  | O => None
  | S fuel =>
      if vr_done r then Some ([], vr_err r, r)
      else if vr_hasHeld r && (k =? 1) then
        match rd_read 1 (vr_src r) with
        | None => None
        | Some (scratch, e, src) =>
            let r := set_src src r in
            match scratch, e with
            | b :: _, _ => Some ([vr_held r], None, hash_and_hold [b] b r)
            | [], Some EOF => finish k [] r
            | [], Some e => Some ([], Some e, set_done e r)
            | [], None => read_loop fuel k r
            end
        end
      else
        match rd_read (k - length (held r)) (vr_src r) with
        | None => None
        | Some (c, e, src) =>
            let r := set_src src r in
            let '(out, r) :=
              match c with
              | [] => ([], r)
              | _ => let p := held r ++ c in (removelast p, hash_and_hold c (List.last p "000"%char) r)
              end in
            match e, out with
            | Some EOF, _ => finish k out r
            | Some e, _ => Some (out, Some e, set_done e r)
            | None, _ :: _ => Some (out, None, r)
            | None, [] => read_loop fuel k r
            end
        end
  end.

Definition Read (k : nat) r : option (bytes * option ReadError * verifiedReader R) :=
  if k =? 0 then Some ([], None, r) else read_loop (S (rd_left (vr_src r))) k r.

#[export] Instance verifiedReader_Reader : Reader (verifiedReader R) := {|
  rd_read := Read;
  rd_left r := if vr_done r then 0 else S (rd_left (vr_src r));
|}.
End verified_reader.
