(* ===== verification/VerifySpec.v ===== *)
(** * What a verified read gives

    [verifiedReader] obeys the contract of a reader, for the content it may
    serve: all of the source when it ends cleanly and hashes to the digest, and
    otherwise everything but the last byte, ended by an error. [Copy] and
    [io_Copy] consume any reader of the contract whole. *)
From S2P Require Import Prelude RepoName Digest Sha2 Verify.

(** ** Generic facts *)
Lemma add64_add a b c : add64 (add64 a b) c = add64 a (b + c).
Proof.
  unfold add64, int64. f_equal.
  replace ((a + b + 2 ^ 63) mod 2 ^ 64 - 2 ^ 63 + c + 2 ^ 63)%Z with ((a + b + 2 ^ 63) mod 2 ^ 64 + c)%Z by lia.
  rewrite Zplus_mod_idemp_l. f_equal. lia.
Qed.

Lemma Verifier_Write_app a b v : Verifier_Write b (Verifier_Write a v) = Verifier_Write (a ++ b) v.
Proof. unfold Verifier_Write. simpl. by rewrite <-(assoc_L (++)), add64_add, length_app, Nat2Z.inj_add. Qed.

Lemma Verifier_Write_nil v : int64_range (vf_size v) → Verifier_Write [] v = v.
Proof.
  intros Hr. destruct v. unfold Verifier_Write. simpl. rewrite app_nil_r. unfold add64.
  by rewrite Z.add_0_r, int64_small.
Qed.
Lemma removelast_snoc {A} (l : list A) x : removelast (l ++ [x]) = l.
Proof. apply removelast_last. Qed.

Lemma removelast_app_ne {A} (l1 l2 : list A) : l2 ≠ [] → removelast (l1 ++ l2) = l1 ++ removelast l2.
Proof. apply removelast_app. Qed.

Lemma last_split (l : bytes) d : l ≠ [] → l = removelast l ++ [List.last l d].
Proof. apply app_removelast_last. Qed.

(** ** The contract of the verified reader *)
Section laws.
Context {R : Type} `{!Reader R, !ReaderLaws R}.
Implicit Type r : verifiedReader R.

(** What is read and not handed over, and how the stream will end. *)
Definition pending r : bytes := held r ++ rd_rest (vr_src r).

Definition ending r : ReadError :=
  match rd_end (vr_src r) with
  | EOF =>
      match Verifier_Verify (Verifier_Write (rd_rest (vr_src r)) (vr_verifier r)) with
      | Ok _ => EOF
      | Err e => Failed e
      end
  | e => e
  end.

(** What may be served of what is pending. *)
Definition servable (e : ReadError) (p : bytes) : bytes :=
  match e with EOF => p | Failed _ => removelast p end.

(** The hook has been called once the stream ended in a mismatch, and once. *)
Definition reported_wf r : Prop :=
  vr_reported r =
    match vr_done r, rd_end (vr_src r), vr_err r with
    | true, EOF, Some (Failed e) => if vr_hook r then [(vr_desc r, e)] else []
    | _, _, _ => []
    end.

Definition vr_wf r : Prop :=
  rd_wf (vr_src r) ∧ int64_range (vf_size (vr_verifier r)) ∧ (vr_done r = true → is_Some (vr_err r)) ∧ reported_wf r.

Definition vr_rest r : bytes := if vr_done r then [] else servable (ending r) (pending r).
Definition vr_end r : ReadError := if vr_done r then default EOF (vr_err r) else ending r.

(** What one call of [Read] does, in the words of the contract and a little
    more: a call that ends without an error leaves a byte held. *)
Definition read_spec (k : nat) r (c : bytes) (e : option ReadError) r' : Prop :=
  vr_wf r' ∧ length c ≤ k ∧ vr_rest r = c ++ vr_rest r' ∧ vr_end r' = vr_end r ∧
  rd_left r' ≤ rd_left r ∧ (c ≠ [] ∨ e = None → rd_left r' < rd_left r) ∧
  (∀ x, e = Some x → x = vr_end r ∧ vr_rest r' = []) ∧
  (e = None → vr_done r' = false ∧ vr_hasHeld r' = true).


(** A call that ends the stream. *)
Lemma spec_done k r0 c x r' :
  vr_wf r' → vr_done r' = true → vr_err r' = Some x → length c ≤ k →
  vr_rest r0 = c → vr_end r0 = x → 0 < rd_left r0 → read_spec k r0 c (Some x) r'.
Proof.
  intros Hwf Hd He Hk Hr Hx Hl. unfold read_spec.
  assert (vr_rest r' = []) as Hr' by (unfold vr_rest; by rewrite Hd).
  assert (rd_left r' = 0) as Hl' by (simpl; by rewrite Hd).
  rewrite Hr', Hl', app_nil_r. split_and!; try done; try lia.
  - unfold vr_end at 1. by rewrite Hd, He.
  - intros y [= <-]. done.
Qed.

Lemma finish_spec k out r0 r :
  vr_wf r → vr_done r = false → rd_rest (vr_src r) = [] → rd_end (vr_src r) = EOF → length (out ++ held r) ≤ k →
  (vr_hasHeld r = false → out = []) →
  vr_rest r0 = servable (ending r) (out ++ held r) → vr_end r0 = ending r → 0 < rd_left r0 →
  ∃ c e r', finish k out r = Some (c, e, r') ∧ read_spec k r0 c e r'.
Proof.
  intros (Hwf & Hsize & _ & Hrep) Hd Hrest Hend Hk Hout Hr0 He0 Hl. unfold ending in Hr0, He0.
  rewrite Hrest, Hend, Verifier_Write_nil in Hr0, He0 by done. unfold finish.
  unfold reported_wf in Hrep. rewrite Hd in Hrep. rewrite length_app in Hk.
  destruct (Verifier_Verify (vr_verifier r)) as [[]|e]; simpl in Hr0, He0.
  - unfold held in Hr0, Hk. destruct (vr_hasHeld r) eqn:Hh; simpl in Hk.
    + destruct (Nat.ltb_spec (length out) k); [|lia].
      eexists _, _, _. split; [done|]. apply spec_done; try done; [|rewrite length_app; simpl; lia].
      split_and!; try done. unfold reported_wf. simpl. by rewrite Hend.
    + rewrite app_nil_r in Hr0. eexists _, _, _. split; [done|]. apply spec_done; try done; [|lia].
      split_and!; try done. unfold reported_wf. simpl. by rewrite Hend.
  - eexists _, _, _. split; [done|]. apply spec_done; try done; [|lia|].
    + split_and!; try done. unfold reported_wf. simpl. rewrite Hend, Hrep. by destruct (vr_hook r).
    + rewrite Hr0. unfold held in *. destruct (vr_hasHeld r); [apply removelast_last|].
      by rewrite (Hout eq_refl).
Qed.

(** The source failed: what is held is dropped. *)
Lemma fail_spec k out x r0 r :
  vr_wf r → vr_done r = false → rd_rest (vr_src r) = [] → rd_end (vr_src r) = Failed x → length out ≤ k →
  (vr_hasHeld r = false → out = []) →
  vr_rest r0 = servable (ending r) (out ++ held r) → vr_end r0 = ending r → 0 < rd_left r0 →
  read_spec k r0 out (Some (Failed x)) (set_done (Failed x) r).
Proof.
  intros (Hwf & Hsize & _ & Hrep) Hd Hrest Hend Hk Hout Hr0 He0 Hl. unfold ending in Hr0, He0.
  rewrite Hend in Hr0, He0. apply spec_done; try done.
  - split_and!; try done. unfold reported_wf in *. simpl. rewrite Hd in Hrep. by rewrite Hend.
  - rewrite Hr0. unfold held in *. destruct (vr_hasHeld r); [apply removelast_last|]. by rewrite (Hout eq_refl).
Qed.

(** Bytes arrived without an error and some go out. *)
Lemma hold_spec k out r0 r :
  vr_wf r → vr_done r = false → vr_hasHeld r = true → length out ≤ k →
  vr_rest r0 = servable (ending r) (out ++ pending r) → vr_end r0 = ending r → rd_left r < rd_left r0 →
  read_spec k r0 out None r.
Proof.
  intros Hwf Hd Hh Hk Hr0 He0 Hl. unfold read_spec. split_and!; try done; try lia.
  - rewrite Hr0. unfold vr_rest. rewrite Hd. unfold servable, pending, held. rewrite Hh.
    destruct (ending r); [done|]. by rewrite removelast_app.
  - unfold vr_end at 1. by rewrite Hd.
Qed.

Lemma ending_hold r src c b :
  rd_rest (vr_src r) = c ++ rd_rest src → rd_end src = rd_end (vr_src r) →
  ending (hash_and_hold c b (set_src src r)) = ending r.
Proof. intros Hr He. unfold ending. simpl. by rewrite He, Hr, Verifier_Write_app. Qed.

Lemma ending_skip r src :
  rd_rest (vr_src r) = rd_rest src → rd_end src = rd_end (vr_src r) → ending (set_src src r) = ending r.
Proof. intros Hr He. unfold ending. simpl. by rewrite He, Hr. Qed.

Lemma wf_skip r src : vr_wf r → vr_done r = false → rd_wf src → vr_wf (set_src src r).
Proof.
  intros (_ & Hs & Hd & Hrep) Hdone Hwf. split_and!; try done. unfold reported_wf in *. simpl. by rewrite Hdone in *.
Qed.

Lemma wf_hold r src c b : vr_wf r → vr_done r = false → rd_wf src → vr_wf (hash_and_hold c b (set_src src r)).
Proof.
  intros (_ & Hs & Hd & Hrep) Hdone Hwf. split_and!; try done; [apply int64_bounds|].
  unfold reported_wf in *. simpl. by rewrite Hdone in *.
Qed.

(** Reading on from a state that owes the same. *)
Lemma spec_later k r r1 c e r' :
  vr_rest r = vr_rest r1 → vr_end r = vr_end r1 → rd_left r1 ≤ rd_left r →
  read_spec k r1 c e r' → read_spec k r c e r'.
Proof.
  intros H1 H2 H3 (Hwf & Hk & Hr & He & Hl & Hl' & Hx & Hn). unfold read_spec. rewrite H1, H2.
  split_and!; try done; [lia|]. intros Hc. specialize (Hl' Hc). lia.
Qed.

(** Bytes arrived in the buffer behind the held one. *)
Lemma arrived_spec (again : verifiedReader R → option (bytes * option ReadError * verifiedReader R)) k r c e src :
  vr_wf r → vr_done r = false → c ≠ [] → length (held r) + length c ≤ k →
  rd_wf src → rd_rest (vr_src r) = c ++ rd_rest src → rd_end src = rd_end (vr_src r) →
  rd_left src < rd_left (vr_src r) → (∀ x, e = Some x → x = rd_end (vr_src r) ∧ rd_rest src = []) →
  (∀ r1, vr_wf r1 → vr_done r1 = false → ending r1 = ending r → pending r1 = pending r →
    rd_left (vr_src r1) < rd_left (vr_src r) → ∃ c e r', again r1 = Some (c, e, r') ∧ read_spec k r c e r') →
  let p := held r ++ c in
  let r1 := hash_and_hold c (List.last p "000"%char) (set_src src r) in
  ∃ c' e' r', match e, removelast p with
    | Some EOF, _ => finish k (removelast p) r1
    | Some (Failed x), _ => Some (removelast p, Some (Failed x), set_done (Failed x) r1)
    | None, _ :: _ => Some (removelast p, None, r1)
    | None, [] => again r1
    end = Some (c', e', r') ∧ read_spec k r c' e' r'.
Proof.
  intros Hwf Hd Hc Hk Hws Hcut Hsrc Hl Hx Hagain p r1.
  assert (p = removelast p ++ [List.last p "000"%char]) as Hp.
  { apply last_split. unfold p. by destruct (held r), c. }
  assert (pending r = removelast p ++ pending r1) as Hpend.
  { unfold pending. rewrite Hcut, (assoc_L (++)). fold p. rewrite Hp at 1. by rewrite <-(assoc_L (++)). }
  assert (length (removelast p) + 1 ≤ k) as Hlen.
  { apply (f_equal length) in Hp. unfold p in Hp at 1. rewrite !length_app in Hp. simpl in Hp. lia. }
  pose proof (ending_hold r src c (List.last p "000"%char) Hcut Hsrc : ending r1 = ending r) as Hes.
  assert (vr_wf r1) as Hwf1 by (by apply wf_hold).
  assert (vr_rest r = servable (ending r) (pending r)) as Hrest by (unfold vr_rest; by rewrite Hd).
  assert (vr_end r = ending r) as Hend by (unfold vr_end; by rewrite Hd).
  assert (rd_left r = S (rd_left (vr_src r))) as Hleft by (simpl; by rewrite Hd).
  assert (rd_rest src = [] → pending r = removelast p ++ held r1) as Hlast.
  { intros Hn. rewrite Hpend. unfold pending. simpl. by rewrite Hn. }
  destruct e as [e|].
  - destruct (Hx e eq_refl) as [-> Hnil]. destruct (rd_end (vr_src r)) as [|x] eqn:Hend0.
    + eapply finish_spec; try done; [rewrite length_app; simpl; lia|by rewrite Hes, <-Hlast|by rewrite Hes|rewrite Hleft; lia].
    + eexists _, _, _. split; [done|].
      eapply fail_spec; try done; [lia|by rewrite Hes, <-Hlast|by rewrite Hes|rewrite Hleft; lia].
  - destruct (removelast p) as [|b out] eqn:Hout.
    + by apply Hagain.
    + eexists _, _, _. split; [done|]. apply hold_spec; try done; [lia|by rewrite Hes, <-Hpend|by rewrite Hes|].
      simpl. rewrite Hd. lia.
Qed.

Lemma read_loop_spec fuel k r :
  vr_wf r → 0 < k → rd_left (vr_src r) < fuel → ∃ c e r', read_loop fuel k r = Some (c, e, r') ∧ read_spec k r c e r'.
Proof.
  revert r. induction fuel as [|fuel IH]; intros r Hwf Hk Hf; [lia|]. simpl. destruct (vr_done r) eqn:Hd.
  { destruct Hwf as (H1 & H2 & H3 & H4). destruct (H3 Hd) as [x Hx]. eexists _, _, _. split; [done|].
    unfold read_spec. unfold vr_rest, vr_end. rewrite Hd, Hx. simpl. split_and!; try done; try lia; naive_solver. }
  assert (vr_rest r = servable (ending r) (pending r)) as Hrest by (unfold vr_rest; by rewrite Hd).
  assert (vr_end r = ending r) as Hend by (unfold vr_end; by rewrite Hd).
  assert (rd_left r = S (rd_left (vr_src r))) as Hleft by (simpl; by rewrite Hd).
  assert (∀ r1, vr_wf r1 → vr_done r1 = false → ending r1 = ending r → pending r1 = pending r →
    rd_left (vr_src r1) < rd_left (vr_src r) →
    ∃ c e r', read_loop fuel k r1 = Some (c, e, r') ∧ read_spec k r c e r') as Hagain.
  { intros r1 H1 H2 H3 H4 H5. destruct (IH r1 H1 Hk) as (c & e & r' & Hl & Hs); [lia|].
    eexists _, _, _. split; [done|]. eapply spec_later; [..|done].
    - rewrite Hrest. unfold vr_rest. by rewrite H2, H3, H4.
    - rewrite Hend. unfold vr_end. by rewrite H2.
    - rewrite Hleft. simpl. rewrite H2. lia. }
  assert (length (held r) ≤ k) as Hheld by (unfold held; destruct (vr_hasHeld r); simpl; lia).
  assert (∀ src e, rd_wf src → rd_rest (vr_src r) = rd_rest src → rd_end src = rd_end (vr_src r) →
    (e = None → rd_left src < rd_left (vr_src r)) → (∀ x, e = Some x → x = rd_end (vr_src r) ∧ rd_rest src = []) →
    ∃ c' e' r', match e with
      | Some EOF => finish k [] (set_src src r)
      | Some (Failed x) => Some ([], Some (Failed x), set_done (Failed x) (set_src src r))
      | None => read_loop fuel k (set_src src r)
      end = Some (c', e', r') ∧ read_spec k r c' e' r') as Hnone.
  { intros src e Hws Hcut Hsrc Hl Hx. pose proof (ending_skip r src Hcut Hsrc) as Hes. destruct e as [e|].
    - destruct (Hx e eq_refl) as [-> Hnil].
      assert (pending r = [] ++ held (set_src src r)) as Hp by (unfold pending; by rewrite Hcut, Hnil, app_nil_r).
      destruct (rd_end (vr_src r)) as [|x] eqn:Hend0.
      + eapply finish_spec; try done; [by apply wf_skip|by rewrite Hes, <-Hp|by rewrite Hes|rewrite Hleft; lia].
      + eexists _, _, _. split; [done|].
        eapply fail_spec; try done; [by apply wf_skip|simpl; lia|by rewrite Hes, <-Hp|by rewrite Hes|rewrite Hleft; lia].
    - apply Hagain; [by apply wf_skip|done|done| |by apply Hl]. unfold pending. simpl. by rewrite Hcut. }
  destruct (vr_hasHeld r && (k =? 1)) eqn:Hone.
  - apply andb_true_iff in Hone as [Hh ->%Nat.eqb_eq].
    destruct (rd_law 1 (vr_src r)) as (c & e & src & Hread & Hwf' & Hck & Hcut & Hsrc & Hl & Hl' & Hx); [apply Hwf|lia|].
    rewrite Hread. destruct c as [|b c].
    + specialize (Hnone src e). destruct e as [[|x]|]; apply Hnone; auto.
    + eexists _, _, _. split; [done|]. destruct c; [|simpl in Hck; lia]. apply hold_spec; try done.
      * by apply wf_hold.
      * rewrite ending_hold by done. rewrite Hrest. unfold pending, held. simpl. by rewrite Hh, Hcut.
      * by rewrite ending_hold.
      * simpl. rewrite Hd. destruct Hl'; [by left|lia..].
  - assert (0 < k - length (held r)) as Hroom.
    { unfold held. destruct (vr_hasHeld r); simpl in *; [|lia]. apply Nat.eqb_neq in Hone. lia. }
    destruct (rd_law _ (vr_src r) (proj1 Hwf) Hroom) as (c & e & src & Hread & Hwf' & Hck & Hcut & Hsrc & Hl & Hl' & Hx).
    rewrite Hread. destruct c as [|b c]; [specialize (Hnone src e); destruct e as [[|x]|]; apply Hnone; auto|].
    pose proof (arrived_spec (read_loop fuel k) k r (b :: c) e src Hwf Hd) as Harr.
    destruct e as [[|x]|]; apply Harr; try done; try lia; apply Hl'; by left.
Qed.

Lemma Read_spec k r : vr_wf r → 0 < k → ∃ c e r', Read k r = Some (c, e, r') ∧ read_spec k r c e r'.
Proof.
  intros Hwf Hk. unfold Read. destruct (Nat.eqb_spec k 0) as [->|_]; [lia|]. apply read_loop_spec; [done..|lia].
Qed.

Lemma verifiedReader_obeys : read_obeys vr_wf vr_rest vr_end.
Proof.
  intros k r Hwf Hk. destruct (Read_spec k r Hwf Hk) as (c & e & r' & Hr & H1 & H2 & H3 & H4 & H5 & H6 & H7 & _).
  exists c, e, r'. done.
Qed.

#[export] Instance verifiedReader_Laws : ReaderLaws (verifiedReader R) := {| rd_law := verifiedReader_obeys |}.
End laws.

(** ** Consuming a reader *)
Section consume.
Context {R : Type} `{!Reader R, !ReaderLaws R}.
Implicit Type r : R.

(** Calls of [Read] with the given buffer sizes, until one returns an error. *)
Fixpoint reads (sizes : list nat) r : option (bytes * option ReadError * R) :=
  match sizes with
  | [] => Some ([], None, r)
  | k :: sizes =>
      match rd_read k r with
      | None => None
      | Some (c, Some e, r) => Some (c, Some e, r)
      | Some (c, None, r) =>
          match reads sizes r with
          | None => None
          | Some (c', e, r) => Some (c ++ c', e, r)
          end
      end
  end.

Lemma reads_law sizes r :
  rd_wf r → Forall (lt 0) sizes →
  ∃ out e r', reads sizes r = Some (out, e, r') ∧ rd_wf r' ∧ rd_rest r = out ++ rd_rest r' ∧ rd_end r' = rd_end r ∧
    (∀ x, e = Some x → x = rd_end r ∧ rd_rest r' = []) ∧ (e = None → rd_left r' + length sizes ≤ rd_left r).
Proof.
  intros Hwf Hs. revert r Hwf. induction Hs as [|k sizes Hk Hs IH]; intros r Hwf; simpl.
  { eexists _, _, _. split_and!; try done. simpl. lia. }
  destruct (rd_law k r Hwf Hk) as (c & e & r1 & -> & Hwf1 & _ & Hr1 & He1 & _ & Hl1 & Hx1). destruct e as [e|].
  { eexists _, _, _. split_and!; naive_solver. }
  destruct (IH r1 Hwf1) as (out & e & r' & -> & Hwf' & Hr' & He' & Hx' & Hl'). eexists _, _, _.
  split_and!; try done; [by rewrite Hr1, Hr', (assoc_L (++))|congruence| |].
  - intros x Hx. destruct (Hx' x Hx). split; congruence.
  - intros Hn. specialize (Hl' Hn). destruct Hl1; [by right|lia..].
Qed.

(** [io.Copy] copies the whole stream and reports its error, the end apart. *)
Lemma copy_loop_all fuel dst r :
  rd_wf r → rd_left r < fuel →
  ∃ r', copy_loop fuel dst r =
    Some (dst ++ rd_rest r, match rd_end r with EOF => None | e => Some e end, r') ∧ rd_wf r' ∧ rd_end r' = rd_end r ∧ rd_rest r' = [].
Proof.
  revert dst r. induction fuel as [|fuel IH]; intros dst r Hwf Hf; [lia|]. simpl.
  destruct (rd_law copyBuffer r Hwf) as (c & e & r1 & -> & Hwf1 & _ & Hr1 & He1 & _ & Hl1 & Hx1); [unfold copyBuffer; lia|].
  destruct e as [e|].
  - destruct (Hx1 e eq_refl) as [-> Hn]. exists r1. rewrite Hr1, Hn, app_nil_r. destruct (rd_end r); done.
  - destruct (IH (dst ++ c) r1 Hwf1) as (r' & Hc & Hwf' & He' & Hn'); [destruct Hl1; [by right|lia..]|].
    exists r'. rewrite Hr1, (assoc_L (++)), <-He1. split_and!; congruence.
Qed.

Lemma io_Copy_all r :
  rd_wf r → ∃ r', io_Copy r = Some (rd_rest r, match rd_end r with EOF => None | e => Some e end, r') ∧
    rd_wf r' ∧ rd_end r' = rd_end r ∧ rd_rest r' = [].
Proof. intros Hwf. apply (copy_loop_all _ [] r Hwf). lia. Qed.
End consume.

(** ** Digests of content *)
Definition hashes_to (d : string) (content : bytes) : Prop := FromBytes (Digest_Algorithm d) content = Some d.

#[export] Instance hashes_to_dec d content : Decision (hashes_to d content).
Proof. unfold hashes_to. apply _. Defined.

Lemma available_hash a n : algorithms a = Some n → is_Some (Algorithm_New a).
Proof. unfold algorithms, Algorithm_New. repeat case_match; eauto; done. Qed.

Lemma NewVerifier_ok d v :
  NewVerifier d = Ok v →
  v = mkVerifier d (vf_hash v) [] 0 ∧ Digest_Validate d = Ok tt ∧ Algorithm_New (Digest_Algorithm d) = Some (vf_hash v).
Proof.
  unfold NewVerifier. pose proof (ParseDigest_ok d) as Hok. unfold Digest_Validate.
  destruct (ParseDigest d) eqn:Hp; simpl; [|done]. intros [= <-]. split_and!; [done..|].
  destruct (proj1 Hok eq_refl) as (algorithm & hex & n & Hf). unfold Digest_Algorithm.
  rewrite (digest_form_cut _ _ _ _ Hf). destruct Hf as (_ & Ha & _). destruct (available_hash _ _ Ha) as [h ->]. done.
Qed.

(** Verification is exactly the comparison of the content's digest. *)
Lemma Verify_iff d v content :
  NewVerifier d = Ok v →
  match Verifier_Verify (Verifier_Write content v) with
  | Ok _ => hashes_to d content
  | Err e => ¬ hashes_to d content ∧ ∃ actual, FromBytes (Digest_Algorithm d) content = Some actual ∧
      e = Mismatch d actual (add64 0 (Z.of_nat (length content)))
  end.
Proof.
  intros (Hv & _ & Hh)%NewVerifier_ok. rewrite Hv. unfold Verifier_Verify, Verifier_Digest, hashes_to, FromBytes.
  rewrite Hh. simpl. destruct (String.eqb_spec (digestOf (Digest_Algorithm d) (vf_hash v) content) d) as [->|Hne]; [done|].
  split; [congruence|]. eauto.
Qed.

(** The blob drivers' [Copy]: everything the source has, and success exactly when
    it ended cleanly and hashes to the digest. *)
Lemma Copy_exact {R} `{!Reader R, !ReaderLaws R} (src : R) d :
  rd_wf src → Digest_Validate d = Ok tt →
  ∃ res src', Copy src d = Some (rd_rest src, res, src') ∧
    match res with
    | Ok _ => rd_end src = EOF ∧ hashes_to d (rd_rest src)
    | Err e => match rd_end src with
        | Failed x => e = x
        | EOF => ¬ hashes_to d (rd_rest src) ∧ ∃ actual, FromBytes (Digest_Algorithm d) (rd_rest src) = Some actual ∧
            e = Mismatch d actual (add64 0 (Z.of_nat (length (rd_rest src))))
        end
    end.
Proof.
  intros Hwf Hd. unfold Copy. destruct (NewVerifier d) as [v|e] eqn:Hv; [|unfold NewVerifier in Hv; by rewrite Hd in Hv].
  destruct (io_Copy_all src Hwf) as (r' & -> & _). pose proof (Verify_iff d v (rd_rest src) Hv) as Hiff.
  destruct (rd_end src) as [|x]; [|by eexists _, _]. eexists _, _. split; [done|].
  destruct (Verifier_Verify _); done.
Qed.

(** ** The verified read *)
Section verified.
Context {R : Type} `{!Reader R, !ReaderLaws R}.

Lemma NewVerifiedReader_ok (src : R) desc hook r :
  rd_wf src → NewVerifiedReader src desc hook = Ok r →
  rd_wf r ∧ vr_src r = src ∧ vr_desc r = desc ∧ vr_hook r = hook ∧ rd_left r = S (rd_left src) ∧
  rd_rest r = servable (rd_end r) (rd_rest src) ∧
  match rd_end r with
  | EOF => rd_end src = EOF ∧ hashes_to (ds_digest desc) (rd_rest src)
  | Failed x =>
      rd_end src = Failed x ∨ (rd_end src = EOF ∧ ¬ hashes_to (ds_digest desc) (rd_rest src) ∧
        ∃ actual, FromBytes (Digest_Algorithm (ds_digest desc)) (rd_rest src) = Some actual ∧
          x = Mismatch (ds_digest desc) actual (add64 0 (Z.of_nat (length (rd_rest src)))))
  end.
Proof.
  unfold NewVerifiedReader. intros Hwf Hr. destruct (NewVerifier (ds_digest desc)) as [v|] eqn:Hv; simpl in Hr; [|done].
  injection Hr as <-. pose proof (Verify_iff _ v (rd_rest src) Hv) as Hiff. destruct (NewVerifier_ok _ _ Hv) as (Hv' & _ & _).
  split_and!; try done.
  - split_and!; try done. rewrite Hv'. by unfold int64_range.
  - simpl. unfold vr_end, ending. simpl. destruct (rd_end src) as [|x] eqn:Hend; [|by left].
    destruct (Verifier_Verify _); [done|]. by right.
Qed.

Lemma servable_prefix e (p : bytes) : ∃ t, p = servable e p ++ t.
Proof.
  destruct e; simpl; [exists []; by rewrite app_nil_r|]. destruct p as [|b p]; [by exists []|].
  eexists. by apply (last_split _ "000"%char).
Qed.

Lemma removelast_short (p q : bytes) : p ≠ [] → removelast p = p ++ q → False.
Proof.
  intros Hp Hq. pose proof (f_equal length (last_split p "000"%char Hp)) as Hl.
  apply (f_equal length) in Hq. rewrite length_app in Hl, Hq. simpl in Hl. lia.
Qed.

(** A read that returned no error left a byte behind. *)
Lemma reads_hold sizes (r : verifiedReader R) out r' :
  rd_wf r → Forall (lt 0) sizes → reads sizes r = Some (out, None, r') → sizes = [] ∨ (vr_done r' = false ∧ vr_hasHeld r' = true).
Proof.
  intros Hwf Hs. revert r out Hwf. induction Hs as [|k sizes Hk Hs IH]; intros r out Hwf Hr; [by left|right].
  simpl in Hr. destruct (Read_spec k r Hwf Hk) as (c & e & r1 & Hread & H1 & _ & _ & _ & _ & _ & _ & Hn).
  rewrite Hread in Hr. destruct e as [e|]; [done|]. destruct (reads sizes r1) as [[[c' e'] r'']|] eqn:Hr'; [|done].
  simplify_eq. destruct (IH r1 c' H1 Hr') as [->|?]; [|done]. simpl in Hr'. simplify_eq. auto.
Qed.

End verified.

(** C14: reading a blob through the verified reader, whatever pieces the source
    arrives in and whatever buffers the caller reads with: no call panics or
    fails to return; the bytes handed over are a prefix of the stored ones; the
    last stored byte is handed over only together with a clean end of stream, and
    a clean end means that all of the content was handed over and that it hashes
    to the digest asked for; content that does not hash to it, or a source that
    fails, ends one byte short with the mismatch or the source's own error; and
    the stream does end, within one call more than the source needs. *)
Theorem verified_read_contract {R} `{!Reader R, !ReaderLaws R} (src : R) desc hook r sizes :
  rd_wf src → NewVerifiedReader src desc hook = Ok r → Forall (lt 0) sizes →
  ∃ out e r', reads sizes r = Some (out, e, r') ∧
    (∃ rest, rd_rest src = out ++ rest) ∧
    (e = Some EOF → out = rd_rest src ∧ rd_end src = EOF ∧ hashes_to (ds_digest desc) out) ∧
    (e ≠ Some EOF → rd_rest src ≠ [] → out ≠ rd_rest src) ∧
    (∀ x, e = Some (Failed x) → out = removelast (rd_rest src) ∧
       (rd_end src = Failed x ∨ (rd_end src = EOF ∧ ¬ hashes_to (ds_digest desc) (rd_rest src) ∧
          ∃ actual, FromBytes (Digest_Algorithm (ds_digest desc)) (rd_rest src) = Some actual ∧
            x = Mismatch (ds_digest desc) actual (add64 0 (Z.of_nat (length (rd_rest src))))))) ∧
    (S (rd_left src) < length sizes → e ≠ None).
Proof.
  intros Hwf Hr Hs.
  destruct (NewVerifiedReader_ok src desc hook r Hwf Hr) as (Hwfr & Hsrc & _ & _ & Hleft & Hserv & Hcase).
  destruct (reads_law sizes r Hwfr Hs) as (out & e & r' & Hreads & Hwf' & Hrest & Hend & Hx & Hl).
  exists out, e, r'. split; [done|]. rewrite Hserv in Hrest. split_and!.
  - destruct (servable_prefix (rd_end r) (rd_rest src)) as [t Ht]. rewrite Hrest, <-(assoc_L (++)) in Ht. eauto.
  - intros ->. destruct (Hx EOF eq_refl) as [He Hn]. rewrite <-He in Hcase, Hrest. destruct Hcase as [H1 H2].
    rewrite Hn, app_nil_r in Hrest. simpl in Hrest. by rewrite <-Hrest.
  - intros He Hne ->. destruct (rd_end r) as [|x] eqn:Her; simpl in Hrest.
    + destruct e as [x|]; [by destruct (Hx x eq_refl) as [-> _]|].
      apply (f_equal length) in Hrest. rewrite length_app in Hrest.
      destruct (reads_hold sizes r _ r' Hwfr Hs Hreads) as [->|[Hd Hh]]; [by simplify_eq/=|].
      change (rd_rest r') with (vr_rest r') in Hrest. change (rd_end r') with (vr_end r') in Hend.
      unfold vr_rest in Hrest. unfold vr_end in Hend. rewrite Hd in Hrest, Hend. rewrite Hend in Hrest.
      simpl in Hrest. unfold pending, held in Hrest. rewrite Hh in Hrest. simpl in Hrest. lia.
    + by apply (removelast_short (rd_rest src) (rd_rest r')).
  - intros x ->. destruct (Hx _ eq_refl) as [He Hn]. rewrite <-He in Hcase, Hrest.
    rewrite Hn, app_nil_r in Hrest. done.
  - intros Hlen ->. specialize (Hl eq_refl). lia.
Qed.

(** A three-byte blob that arrives in two pieces, read two bytes at a time: good
    content arrives whole, and content stored under another digest stops one
    byte short. *)
Definition abc_digest : string := "sha256:ba7816bf8f01cfea414140de5dae2223b00361a396177a9cb410ff61f20015ad".
Definition abc_body (last : string) : Body :=
  mkBody [String.list_ascii_of_string "ab"; String.list_ascii_of_string last] true EOF.

Definition abc_reader (last : string) : result BlobError (verifiedReader Body) :=
  NewVerifiedReader (abc_body last) (mkDescriptor abc_digest 3) true.

(** What two reads of two bytes give, and how often the hook was called. *)
Definition read_twice (r : result BlobError (verifiedReader Body)) : option (string * bool * nat) :=
  match r with
  | Err _ => None
  | Ok r =>
      match reads [2; 2] r with
      | None => None
      | Some (out, e, r') =>
          Some (String.string_of_list_ascii out, match e with Some EOF => true | _ => false end, length (vr_reported r'))
      end
  end.

Lemma verified_read_contract_witness :
  (∃ r out r', abc_reader "c" = Ok r ∧ reads [2; 2] r = Some (out, Some EOF, r') ∧
    out = String.list_ascii_of_string "abc" ∧ hashes_to abc_digest out) ∧
  read_twice (abc_reader "d") = Some ("ab", false, 1).
Proof.
  split; [|vm_compute; reflexivity].
  assert (read_twice (abc_reader "c") = Some ("abc", true, 0)) as Hread by (vm_compute; reflexivity).
  destruct (abc_reader "c") as [r|] eqn:Hr; [|done].
  destruct (verified_read_contract (abc_body "c") (mkDescriptor abc_digest 3) true r [2; 2])
    as (out & e & r' & Hreads & _ & Heof & _); [exact I|exact Hr|repeat constructor|].
  unfold read_twice in Hread. rewrite Hreads in Hread. destruct e as [[|]|]; try discriminate Hread.
  destruct (Heof eq_refl) as (Hout & _ & Hh). exists r, out, r'. split_and!; [reflexivity|exact Hreads|exact Hout|exact Hh].
Defined.

(** ** A computed digest is of the grammar *)
Lemma hex_digit_lower n : n < 16 → isLowerHex (hex_digit n) = true.
Proof. intros Hn. do 16 (destruct n as [|n]; [reflexivity|]). lia. Qed.

Lemma hex_bytes_lower bs : all_bytes isLowerHex (hex_bytes bs) = true.
Proof.
  induction bs as [|b bs IH]; [done|]. cbn [hex_bytes all_bytes].
  assert (nat_of_ascii b < 256) as Hb by apply nat_ascii_bounded.
  rewrite !hex_digit_lower, IH; [done|apply Nat.mod_upper_bound; lia|apply Nat.Div0.div_lt_upper_bound; lia].
Qed.

Lemma FromBytes_valid algo data d :
  FromBytes algo data = Some d → Digest_Validate d = Ok tt ∧ Digest_Algorithm d = algo ∧ hashes_to d data.
Proof.
  unfold FromBytes. destruct (Algorithm_New algo) as [h|] eqn:Hh; [|done]. intros [= <-].
  assert (∃ n, digest_form (digestOf algo h data) algo (hex_bytes (sum h data)) n) as [n Hf].
  { unfold Algorithm_New in Hh. destruct (String.eqb_spec algo SHA256) as [->|].
    - simplify_eq. exists 64. split_and!; [done|done| |apply hex_bytes_lower].
      by rewrite hex_bytes_length, sum_length.
    - destruct (String.eqb_spec algo SHA512) as [->|]; [|done]. simplify_eq. exists 128.
      split_and!; [done|done| |apply hex_bytes_lower]. by rewrite hex_bytes_length, sum_length. }
  assert (Digest_Algorithm (digestOf algo h data) = algo) as Ha.
  { unfold Digest_Algorithm. by rewrite (digest_form_cut _ _ _ _ Hf). }
  assert (is_ok (ParseDigest (digestOf algo h data)) = true) as Hok by (apply ParseDigest_ok; eauto).
  split_and!; [|done|unfold hashes_to, FromBytes; by rewrite Ha, Hh].
  unfold Digest_Validate. by destruct (ParseDigest _).
Qed.
