(* ===== verification/BlobStore.v ===== *)
(** * The in-memory blob store (src/internal/blob/memory/memory.go)

    The reference driver of the interface of blob/store.go: committed blobs by
    digest, and upload sessions. A session is an object a caller keeps a pointer
    to across calls, so sessions live on a heap and the upload table maps an
    identifier to an address. Each method runs under the store's or the session's
    lock and is one atomic step. Methods that consume a reader return an option:
    [None] is a reader whose [Read] panics or never returns; [Put] also returns the
    reader as it left it, which its caller may still hold. *)
From S2P Require Import Prelude RepoName Digest Sha2 Verify.

Record session : Type := mkSession { se_id : string; se_buf : bytes; se_closed : bool }.

Record Store : Type := mkStore {
  blobs : gmap string bytes;
  uploads : gmap string nat;
  heap : list session;
  onCorrupt : bool;
}.

Definition New (hook : bool) : Store := mkStore ∅ ∅ [] hook.

Definition set_blobs (x : gmap string bytes) (s : Store) : Store := mkStore x (uploads s) (heap s) (onCorrupt s).
Definition set_uploads (x : gmap string nat) (s : Store) : Store := mkStore (blobs s) x (heap s) (onCorrupt s).
Definition set_session (a : nat) (u : session) (s : Store) : Store :=
  mkStore (blobs s) (uploads s) (<[a := u]> (heap s)) (onCorrupt s).

(** The guards every method by digest starts with. *)
Definition checked (ctx : bool) (digest : string) : result BlobError unit :=
  if ctx then Err BlobCanceled
  else match Digest_Validate digest with
  | Err reason => Err (BlobInvalidDigest reason)
  | Ok _ => Ok tt
  end.

(** Publishing: the first content stored under a digest stays. *)
Definition publish (digest : string) (content : bytes) (s : Store) : Store :=
  match blobs s !! digest with
  | Some _ => s
  | None => set_blobs (<[digest := content]> (blobs s)) s
  end.

(** ** Blobs *)
Definition Put {R} `{!Reader R} (ctx : bool) (expected : string) (r : R) (s : Store)
    : option (result BlobError unit * R * Store) :=
  match checked ctx expected with
  | Err e => Some (Err e, r, s)
  | Ok _ =>
      match Copy r expected with
      | None => None
      | Some (_, Err e, r) => Some (Err e, r, s)
      | Some (buf, Ok _, r) => Some (Ok tt, r, publish expected buf s)
      end
  end.

Definition Get (ctx : bool) (digest : string) (s : Store) : result BlobError (verifiedReader BytesReader) :=
  check! checked ctx digest in
  match blobs s !! digest with
  | None => Err (BlobNotFound "blob" digest)
  | Some data =>
      NewVerifiedReader (mkBytesReader data) (mkDescriptor digest (int64 (Z.of_nat (length data)))) (onCorrupt s)
  end.

Definition Stat (ctx : bool) (digest : string) (s : Store) : result BlobError Descriptor :=
  check! checked ctx digest in
  match blobs s !! digest with
  | None => Err (BlobNotFound "blob" digest)
  | Some data => Ok (mkDescriptor digest (int64 (Z.of_nat (length data))))
  end.

Definition Delete (ctx : bool) (digest : string) (s : Store) : result BlobError Store :=
  check! checked ctx digest in
  match blobs s !! digest with
  | None => Err (BlobNotFound "blob" digest)
  | Some _ => Ok (set_blobs (delete digest (blobs s)) s)
  end.

(** [Walk]: a snapshot of the descriptors, then the callback on each, with the
    context looked at before every one ([cancelled n] before the [n]-th); the
    callback's effects are a state it threads. *)
Definition descriptors (s : Store) : list Descriptor :=
  (λ kv : string * bytes, mkDescriptor kv.1 (int64 (Z.of_nat (length kv.2)))) <$> map_to_list (blobs s).

Fixpoint walk {A} (cancelled : nat → bool) (fn : A → Descriptor → result BlobError A) (n : nat) (l : list Descriptor) (a : A)
    : result BlobError A :=
  match l with
  | [] => Ok a
  | desc :: l =>
      if cancelled n then Err BlobCanceled
      else let! a' := fn a desc in walk cancelled fn (S n) l a'
  end.

Definition Walk {A} (ctx : bool) (cancelled : nat → bool) (fn : A → Descriptor → result BlobError A) (a : A) (s : Store)
    : result BlobError A :=
  if ctx then Err BlobCanceled else walk cancelled fn 0 (descriptors s) a.

(** ** Upload sessions *)
Definition CreateUpload (ctx : bool) (id : string) (s : Store) : result BlobError (nat * Store) :=
  if ctx then Err BlobCanceled
  else if String.eqb id "" then Err (BlobInvalid "id" "must not be empty")
  else match uploads s !! id with
  | Some _ => Err (BlobInvalid "id" "upload session already exists")
  | None =>
      let a := length (heap s) in
      Ok (a, mkStore (blobs s) (<[id := a]> (uploads s)) (heap s ++ [mkSession id [] false]) (onCorrupt s))
  end.

Definition OpenUpload (ctx : bool) (id : string) (s : Store) : result BlobError nat :=
  if ctx then Err BlobCanceled
  else match uploads s !! id with
  | None => Err (BlobNotFound "upload" id)
  | Some a => Ok a
  end.

(** A pointer a caller holds always points at a session. *)
Definition deref (a : nat) (s : Store) : session := default (mkSession "" [] true) (heap s !! a).

Definition Offset (a : nat) (s : Store) : Z := int64 (Z.of_nat (length (se_buf (deref a s)))).

(** The new offset, the error beside it, and the store: what arrived is kept
    even when the reader failed. *)
Definition Write {R} `{!Reader R} (ctx : bool) (r : R) (a : nat) (s : Store) : option (Z * option BlobError * Store) :=
  let u := deref a s in
  if ctx then Some (0%Z, Some BlobCanceled, s)
  else if se_closed u then Some (0%Z, Some (BlobNotFound "upload" (se_id u)), s)
  else
    match io_Copy r with
    | None => None
    | Some (chunk, e, _) =>
        let buf := se_buf u ++ chunk in
        Some (int64 (Z.of_nat (length buf)), match e with Some (Failed x) => Some x | _ => None end,
              set_session a (mkSession (se_id u) buf false) s)
    end.

(** Dropping a session's bytes and its registration. *)
Definition discard (a : nat) (s : Store) : Store :=
  let u := deref a s in
  set_session a (mkSession (se_id u) [] true) (set_uploads (delete (se_id u) (uploads s)) s).

Definition Commit (ctx : bool) (expected : string) (a : nat) (s : Store) : result BlobError Descriptor * Store :=
  let u := deref a s in
  if ctx then (Err BlobCanceled, s)
  else if se_closed u then (Err (BlobNotFound "upload" (se_id u)), s)
  else match NewVerifier expected with
  | Err e => (Err e, s)
  | Ok verifier =>
      match Verifier_Verify (Verifier_Write (se_buf u) verifier) with
      | Err e => (Err e, discard a s)
      | Ok _ =>
          let s' := publish expected (se_buf u) s in
          (Ok (mkDescriptor expected (int64 (Z.of_nat (length (se_buf u))))),
           set_session a (mkSession (se_id u) [] true) (set_uploads (delete (se_id u) (uploads s')) s'))
      end
  end.

Definition Cancel (ctx : bool) (a : nat) (s : Store) : result BlobError Store :=
  if ctx then Err BlobCanceled else Ok (discard a s).
