(* ===== verification/BlobStoreSpec.v ===== *)
(** * What the in-memory blob store guarantees

    Histories of the store, the invariant every history keeps, what becomes
    visible and when, and the equivalence of a chunked upload with one [Put] of
    the whole content. *)
From S2P Require Import Prelude RepoName Digest Sha2 Verify VerifySpec BlobStore.

(** ** Histories: any interleaving of calls by any number of clients. The bodies
    are request bodies; an address is a session pointer some client holds. *)
Inductive BlobOp : Type :=
| OpPut (ctx : bool) (d : string) (body : Body)
| OpDelete (ctx : bool) (d : string)
| OpCreate (ctx : bool) (id : string)
| OpWrite (ctx : bool) (a : nat) (body : Body)
| OpCommit (ctx : bool) (d : string) (a : nat)
| OpCancel (ctx : bool) (a : nat).

Definition keep_on_error {E} (r : result E Store) (s : Store) : Store :=
  match r with Ok s' => s' | Err _ => s end.

Definition step (s : Store) (op : BlobOp) : Store :=
  match op with
  | OpPut ctx d body => match Put ctx d body s with Some (_, _, s') => s' | None => s end
  | OpDelete ctx d => keep_on_error (Delete ctx d s) s
  | OpCreate ctx id => match CreateUpload ctx id s with Ok (_, s') => s' | Err _ => s end
  | OpWrite ctx a body => match Write ctx body a s with Some (_, _, s') => s' | None => s end
  | OpCommit ctx d a => (Commit ctx d a s).2
  | OpCancel ctx a => keep_on_error (Cancel ctx a s) s
  end.

Definition history (ops : list BlobOp) (s : Store) : Store := foldl step s ops.

(** ** The invariant *)
Definition content_wf (s : Store) : Prop :=
  ∀ d b, blobs s !! d = Some b → Digest_Validate d = Ok tt ∧ hashes_to d b.
Definition uploads_wf (s : Store) : Prop :=
  ∀ id a, uploads s !! id = Some a → id ≠ "" ∧ ∃ u, heap s !! a = Some u ∧ se_id u = id ∧ se_closed u = false.
Definition sessions_wf (s : Store) : Prop :=
  ∀ a u, heap s !! a = Some u → se_closed u = true → se_buf u = [].
Definition wf (s : Store) : Prop := content_wf s ∧ uploads_wf s ∧ sessions_wf s.

Lemma New_wf hook : wf (New hook).
Proof. split_and!; [intros ??|intros ??|intros ??]; simpl; by rewrite ?lookup_empty, ?lookup_nil. Qed.

Lemma checked_ok ctx d : checked ctx d = Ok tt ↔ ctx = false ∧ Digest_Validate d = Ok tt.
Proof. unfold checked. destruct ctx; [naive_solver|]. destruct (Digest_Validate d) as [[]|]; naive_solver. Qed.

Lemma publish_lookup d b s d' :
  blobs (publish d b s) !! d' =
  match blobs s !! d' with Some b' => Some b' | None => if decide (d = d') then Some b else None end.
Proof.
  unfold publish. destruct (blobs s !! d) eqn:Hd; simpl.
  - case_decide; subst; [by rewrite Hd|]. by destruct (blobs s !! d').
  - destruct (decide (d = d')) as [->|Hne]; [by rewrite lookup_insert_eq, Hd|].
    rewrite lookup_insert_ne by done. by destruct (blobs s !! d').
Qed.

Lemma publish_rest d b s : uploads (publish d b s) = uploads s ∧ heap (publish d b s) = heap s.
Proof. unfold publish. by destruct (blobs s !! d). Qed.

Lemma publish_wf d b s : wf s → Digest_Validate d = Ok tt → hashes_to d b → wf (publish d b s).
Proof.
  intros (Hc & Hu & Hs) Hd Hh. destruct (publish_rest d b s) as [E1 E2].
  split_and!; [|intros id a; rewrite E1, E2; apply Hu|intros a u; rewrite E2; apply Hs].
  intros d' b' H. rewrite publish_lookup in H. destruct (blobs s !! d') eqn:E; [simplify_eq; eauto|].
  case_decide; naive_solver.
Qed.

(** Closing the session at an address, whatever it was. *)
Lemma close_wf a s : wf s → wf (discard a s).
Proof.
  intros (Hc & Hu & Hs). unfold discard. split_and!; [done|..].
  - intros id a' H. simpl in *. apply lookup_delete_Some in H as [Hne H]. destruct (Hu id a' H) as (? & u & Hl & Hid & Ho).
    split; [done|]. exists u. split_and!; try done. rewrite list_lookup_insert_ne; [done|]. intros ->.
    unfold deref in Hne. rewrite Hl in Hne. done.
  - intros a' u. simpl. intros H. apply list_lookup_insert_Some in H as [(_ & <- & _)|[_ H]]; [done|]. by apply (Hs a').
Qed.

Lemma write_wf a id buf s :
  wf s → se_id (deref a s) = id → se_closed (deref a s) = false → wf (set_session a (mkSession id buf false) s).
Proof.
  intros (Hc & Hu & Hs) Hid Ho. split_and!; [done|..].
  - intros id' a' H. destruct (Hu id' a' H) as (? & u & Hl & Hid' & Ho'). split; [done|]. simpl.
    destruct (decide (a = a')) as [->|Hne].
    + rewrite list_lookup_insert_eq by (by eapply lookup_lt_Some). unfold deref in Hid. rewrite Hl in Hid. naive_solver.
    + rewrite list_lookup_insert_ne by done. eauto.
  - intros a' u. simpl. intros H. apply list_lookup_insert_Some in H as [(_ & <- & _)|[_ H]]; [done|]. by apply (Hs a').
Qed.

Lemma create_wf ctx id s a s' : wf s → CreateUpload ctx id s = Ok (a, s') → wf s'.
Proof.
  unfold CreateUpload. intros (Hc & Hu & Hs) H. destruct ctx; [done|]. destruct (String.eqb_spec id ""); [done|].
  destruct (uploads s !! id) eqn:Hid; [done|]. simplify_eq. split_and!; [done|..].
  - intros id' a' H. simpl in *. apply lookup_insert_Some in H as [[<- <-]|[Hne H]].
    + split; [done|]. eexists. by rewrite lookup_snoc_Some; naive_solver.
    + destruct (Hu id' a' H) as (? & u & Hl & ?). split; [done|]. exists u. split; [|done]. by apply lookup_app_l_Some.
  - intros a' u H. simpl in *. apply lookup_snoc_Some in H as [[_ H]|[_ <-]]; [by apply (Hs a')|done].
Qed.

(** ** What each operation does *)
Lemma Put_cases {R} `{!Reader R, !ReaderLaws R} ctx d (r : R) s :
  rd_wf r →
  ∃ res r' s', Put ctx d r s = Some (res, r', s') ∧
    match res with
    | Ok _ => checked ctx d = Ok tt ∧ rd_end r = EOF ∧ hashes_to d (rd_rest r) ∧ s' = publish d (rd_rest r) s
    | Err _ => s' = s
    end.
Proof.
  intros Hwf. unfold Put. destruct (checked ctx d) as [[]|e] eqn:Hc; [|by exists (Err e), r, s].
  apply checked_ok in Hc as [-> Hd]. destruct (Copy_exact r d Hwf Hd) as (res & r' & -> & Hres).
  destruct res as [[]|e].
  - destruct Hres. eexists (Ok tt), _, _. by split_and!.
  - by exists (Err e), r', s.
Qed.

Lemma Write_cases {R} `{!Reader R, !ReaderLaws R} ctx (r : R) a s :
  rd_wf r →
  ∃ off e s', Write ctx r a s = Some (off, e, s') ∧
    (s' = s ∨ (ctx = false ∧ se_closed (deref a s) = false ∧
               s' = set_session a (mkSession (se_id (deref a s)) (se_buf (deref a s) ++ rd_rest r) false) s)).
Proof.
  intros Hwf. unfold Write. destruct ctx; [eauto 10|]. destruct (se_closed (deref a s)) eqn:Ho; [eauto 10|].
  destruct (io_Copy_all r Hwf) as (r' & -> & _). eauto 10.
Qed.

Lemma deref_publish d b a s : deref a (publish d b s) = deref a s.
Proof. unfold deref. by rewrite (proj2 (publish_rest d b s)). Qed.

Lemma Commit_cases ctx d a s :
  let buf := se_buf (deref a s) in
  match Commit ctx d a s with
  | (Ok desc, s') => ctx = false ∧ se_closed (deref a s) = false ∧ Digest_Validate d = Ok tt ∧ hashes_to d buf ∧
      desc = mkDescriptor d (int64 (Z.of_nat (length buf))) ∧ s' = discard a (publish d buf s)
  | (Err e, s') => s' = s ∨ s' = discard a s
  end.
Proof.
  unfold Commit. destruct ctx; [by left|]. destruct (se_closed (deref a s)); [by left|].
  destruct (NewVerifier d) as [v|e] eqn:Hv; [|by left]. pose proof (Verify_iff d v (se_buf (deref a s)) Hv) as Hiff.
  destruct (Verifier_Verify _); [|by right]. destruct (NewVerifier_ok _ _ Hv) as (_ & Hd & _).
  split_and!; try done. unfold discard. by rewrite deref_publish.
Qed.

Lemma blob_step_wf s op : wf s → wf (step s op).
Proof.
  intros Hwf. destruct op as [ctx d body|ctx d|ctx id|ctx a body|ctx d a|ctx a]; simpl.
  - destruct (Put_cases ctx d body s (body_wf body)) as (res & body' & s' & -> & Hres). destruct res; [|by subst].
    destruct Hres as ([_ Hd]%checked_ok & _ & Hh & ->). by apply publish_wf.
  - unfold Delete. destruct (checked ctx d); simpl; [|done]. destruct (blobs s !! d); [|done]. simpl.
    destruct Hwf as (Hc & Hu & Hs). split_and!; try done. intros d' b H. simpl in H.
    apply lookup_delete_Some in H as [_ H]. by apply Hc.
  - destruct (CreateUpload ctx id s) as [[a s']|] eqn:H; [|done]. by eapply create_wf.
  - destruct (Write_cases ctx body a s (body_wf body)) as (off & e & s' & -> & [->|(_ & Ho & ->)]); [done|]. by apply write_wf.
  - pose proof (Commit_cases ctx d a s) as H. destruct (Commit ctx d a s) as [[desc|e] s']; simpl.
    + destruct H as (_ & _ & Hd & Hh & _ & ->). by apply close_wf, publish_wf.
    + destruct H as [->| ->]; [done|]. by apply close_wf.
  - unfold Cancel. destruct ctx; [done|]. by apply close_wf.
Qed.

Lemma history_wf ops s : wf s → wf (history ops s).
Proof. revert s. induction ops as [|op ops IH]; intros s H; [done|]. by apply IH, blob_step_wf. Qed.

(** How a step changes what is visible under a digest. *)
Lemma step_visible s op d :
  blobs (step s op) !! d = blobs s !! d ∨
  (op = OpDelete false d ∧ blobs (step s op) !! d = None) ∨
  (blobs s !! d = None ∧ ∃ b, blobs (step s op) !! d = Some b ∧ hashes_to d b ∧
    ((∃ body, op = OpPut false d body ∧ rd_rest body = b ∧ rd_end body = EOF) ∨
     (∃ a, op = OpCommit false d a ∧ se_buf (deref a s) = b ∧ se_closed (deref a s) = false))).
Proof.
  destruct op as [ctx d' body|ctx d'|ctx id|ctx a body|ctx d' a|ctx a]; simpl.
  - destruct (Put_cases ctx d' body s (body_wf body)) as (res & body' & s' & -> & Hres). destruct res; [|subst; by left].
    destruct Hres as ([-> Hd]%checked_ok & He & Hh & ->). rewrite publish_lookup.
    destruct (blobs s !! d) eqn:E; [by left|]. destruct (decide (d' = d)) as [->|]; [|by left].
    right; right. split; [done|]. exists (rd_rest body). eauto 10.
  - unfold Delete. destruct (checked ctx d') as [[]|] eqn:Hc; simpl; [|by left]. apply checked_ok in Hc as [-> _].
    destruct (blobs s !! d') eqn:E; [|by left]. simpl. destruct (decide (d' = d)) as [->|].
    + right; left. by rewrite lookup_delete_eq.
    + left. by rewrite lookup_delete_ne.
  - left. unfold CreateUpload. repeat case_match; by simplify_eq.
  - left. destruct (Write_cases ctx body a s (body_wf body)) as (off & e & s' & -> & [->|(_ & Ho & ->)]); done.
  - pose proof (Commit_cases ctx d' a s) as H. destruct (Commit ctx d' a s) as [[desc|e] s']; simpl.
    + destruct H as (-> & Ho & _ & Hh & _ & ->). simpl. rewrite publish_lookup.
      destruct (blobs s !! d) eqn:E; [by left|]. destruct (decide (d' = d)) as [->|]; [|by left].
      right; right. split; [done|]. eexists. eauto 10.
    + left. by destruct H as [->| ->].
  - left. unfold Cancel. by destruct ctx.
Qed.

(** Reading a blob whose bytes hash to its digest gives all of them. *)
Lemma Get_reads_all s d content sizes r :
  blobs s !! d = Some content → hashes_to d content → Get false d s = Ok r →
  Forall (lt 0) sizes → S (length content) < length sizes → ∃ r', reads sizes r = Some (content, Some EOF, r').
Proof.
  unfold Get. intros Hb Hh Hget Hs Hl. destruct (checked false d); simpl in Hget; [|done]. rewrite Hb in Hget.
  apply NewVerifiedReader_ok in Hget as (Hwf & _ & _ & _ & Hleft & Hrest & Hend); [|done]. simpl in Hrest, Hleft.
  assert (rd_end r = EOF) as He by (destruct (rd_end r); [done|destruct Hend as [?|(_ & ? & _)]; done]).
  destruct (reads_law sizes r Hwf Hs) as (out & e & r' & -> & _ & Hr & _ & Hx & Hn).
  destruct e as [x|]; [|specialize (Hn eq_refl); simpl in *; lia]. destruct (Hx x eq_refl) as [-> Hnil].
  exists r'. change (rd_rest r) with (vr_rest r) in Hr. simpl in *. rewrite He in *. rewrite Hnil, app_nil_r in Hr.
  simpl in Hrest. congruence.
Qed.

(** C15: whatever clients do, in any interleaving of uploads, chunks, commits,
    cancellations, whole puts and deletes, with readers that fail at any point:
    a digest that can be opened gives back, through reads of any size, one
    content that hashes to it, whole and ended cleanly; that content appears in
    one step, a put or a commit of exactly those bytes; and it stays the same
    until a delete of that digest. *)
Theorem stored_content_is_verified ops hook d :
  let s := history ops (New hook) in
  (∀ r, Get false d s = Ok r →
    ∃ content, blobs s !! d = Some content ∧ hashes_to d content ∧
      ∀ sizes, Forall (lt 0) sizes → S (length content) < length sizes →
        ∃ r', reads sizes r = Some (content, Some EOF, r')) ∧
  (∀ op content, blobs s !! d = None → blobs (step s op) !! d = Some content →
    hashes_to d content ∧
    ((∃ body, op = OpPut false d body ∧ rd_rest body = content ∧ rd_end body = EOF) ∨
     (∃ a, op = OpCommit false d a ∧ se_buf (deref a s) = content ∧ se_closed (deref a s) = false))) ∧
  (∀ op content, blobs s !! d = Some content → op ≠ OpDelete false d → blobs (step s op) !! d = Some content).
Proof.
  intros s. assert (wf s) as Hwf by apply history_wf, New_wf. clearbody s. destruct Hwf as (Hc & _). split_and!.
  - intros r Hget. destruct (blobs s !! d) as [content|] eqn:Hb.
    + exists content. destruct (Hc d content Hb). split_and!; [done..|]. intros. by eapply Get_reads_all.
    + unfold Get in Hget. destruct (checked false d); simpl in Hget; [|done]. by rewrite Hb in Hget.
  - intros op content Hn Hs. destruct (step_visible s op d) as [E|[[_ E]|(_ & b & E & Hh & H)]]; [congruence..|].
    rewrite Hs in E. simplify_eq. done.
  - intros op content Hs Hne. destruct (step_visible s op d) as [E|[[E _]|(E & _)]]; congruence.
Qed.

(** ** Chunked uploads *)
Fixpoint write_all (bodies : list Body) (a : nat) (s : Store) : option Store :=
  match bodies with
  | [] => Some s
  | body :: bodies =>
      match Write false body a s with
      | Some (_, _, s') => write_all bodies a s'
      | None => None
      end
  end.

Lemma write_all_spec bodies a s id :
  a < length (heap s) → se_id (deref a s) = id → se_closed (deref a s) = false →
  write_all bodies a s =
    Some (set_session a (mkSession id (se_buf (deref a s) ++ concat (rd_rest <$> bodies)) false) s).
Proof.
  revert s. induction bodies as [|body bodies IH]; intros s Ha Hid Ho.
  - simpl. rewrite app_nil_r. f_equal. unfold set_session, deref in *. destruct (lookup_lt_is_Some_2 _ _ Ha) as [u Hu].
    rewrite Hu in *. simpl in *. rewrite list_insert_id; [by destruct s|]. rewrite Hu. destruct u. simpl in *. by subst.
  - simpl. unfold Write. rewrite Ho. destruct (io_Copy_all body (body_wf body)) as (b' & -> & _).
    set (s1 := set_session _ _ _).
    assert (deref a s1 = mkSession id (se_buf (deref a s) ++ rd_rest body) false) as Hd.
    { unfold deref, s1. simpl. rewrite list_lookup_insert_eq by done. by rewrite <-Hid. }
    rewrite (IH s1); [|by simpl; rewrite length_insert|by rewrite Hd..].
    rewrite Hd. simpl. rewrite <-(assoc_L (++)). f_equal. unfold set_session. simpl. by rewrite list_insert_insert_eq.
Qed.

(** C34: an upload in chunks is the same as one put of everything that arrived.
    However many chunks there are, however they are cut into reads and even if
    connections drop between or inside them, creating a session, writing the
    chunks and committing under a digest gives the answer that [Put] of the
    concatenation gives, and leaves the same blobs and upload table. *)
Theorem chunked_upload_is_put s id d bodies :
  id ≠ "" → uploads s !! id = None → Digest_Validate d = Ok tt →
  let content := concat (rd_rest <$> bodies) in
  ∃ a s1 s2 res s3 putRes rest s4,
    CreateUpload false id s = Ok (a, s1) ∧ write_all bodies a s1 = Some s2 ∧ Commit false d a s2 = (res, s3) ∧
    Put false d (mkBytesReader content) s = Some (putRes, rest, s4) ∧
    match res with
    | Ok desc => putRes = Ok tt ∧ desc = mkDescriptor d (int64 (Z.of_nat (length content)))
    | Err e => putRes = Err e
    end ∧
    blobs s3 = blobs s4 ∧ uploads s3 = uploads s4.
Proof.
  intros Hid Hn Hd content.
  unfold CreateUpload. destruct (String.eqb_spec id ""); [done|]. rewrite Hn.
  set (s1 := mkStore _ _ _ _). exists (length (heap s)), s1.
  assert (deref (length (heap s)) s1 = mkSession id [] false) as Hd1.
  { unfold deref, s1. simpl. by rewrite list_lookup_middle. }
  set (s2 := set_session (length (heap s)) (mkSession id content false) s1). exists s2.
  assert (write_all bodies (length (heap s)) s1 = Some s2) as Hw.
  { rewrite (write_all_spec _ _ _ id), Hd1; [done|unfold s1; simpl; rewrite length_app; simpl; lia|by rewrite Hd1..]. }
  assert (deref (length (heap s)) s2 = mkSession id content false) as Hd2.
  { unfold deref, s2. simpl. rewrite list_lookup_insert_eq; [done|]. rewrite length_app. simpl. lia. }
  assert (delete id (<[id := length (heap s)]> (uploads s)) = uploads s) as Hup by by apply delete_insert_id.
  unfold Put. rewrite (proj2 (checked_ok false d)) by done.
  destruct (Copy_exact (mkBytesReader content) d (bytes_reader_wf _) Hd) as (res & rest & -> & Hres). simpl in Hres.
  unfold Commit. rewrite Hd2. simpl. destruct (NewVerifier d) as [v|] eqn:Hv; [|unfold NewVerifier in Hv; by rewrite Hd in Hv].
  pose proof (Verify_iff d v content Hv) as Hiff.
  destruct (Verifier_Verify _) as [[]|e].
  - destruct res as [[]|e']; [|by destruct Hres]. eexists _, _, _, _, _. split_and!; try done; simpl.
    + apply map_eq. intros d'. rewrite !publish_lookup. done.
    + rewrite (proj1 (publish_rest _ _ _)). by rewrite (proj1 (publish_rest _ _ _)).
  - destruct res as [[]|e']; [by destruct Hiff, Hres|]. destruct Hiff as [_ (act & Ha & ->)], Hres as [_ (act' & Ha' & ->)].
    rewrite Ha in Ha'. simplify_eq. eexists _, _, _, _, _. split_and!; try done. simpl. by rewrite Hd2.
Qed.

(** ** Examples *)
Definition text (t : string) : Body := mkBody [String.list_ascii_of_string t] false EOF.

(** Two chunks, the first over a connection that drops after its bytes. *)
Definition two_chunks : list Body :=
  [mkBody [String.list_ascii_of_string "ab"] true (Failed (ReadFailed "connection reset")); text "c"].

Lemma chunked_upload_is_put_witness :
  ∃ a s1 s2 desc s3, CreateUpload false "u1" (New true) = Ok (a, s1) ∧ write_all two_chunks a s1 = Some s2 ∧
    Commit false abc_digest a s2 = (Ok desc, s3) ∧ ds_size desc = 3%Z ∧
    blobs s3 !! abc_digest = Some (String.list_ascii_of_string "abc").
Proof.
  destruct (chunked_upload_is_put (New true) "u1" abc_digest two_chunks)
    as (a & s1 & s2 & res & s3 & putRes & rest & s4 & Hc & Hw & Hco & Hput & Hres & Hb & _);
    [done|done|vm_compute; reflexivity|].
  assert (option_map (λ x, (is_ok x.1.1, blobs x.2 !! abc_digest))
    (Put false abc_digest (mkBytesReader (concat (rd_rest <$> two_chunks))) (New true)) =
    Some (true, Some (String.list_ascii_of_string "abc"))) as Hp by (vm_compute; reflexivity).
  rewrite Hput in Hp. simpl in Hp. exists a, s1, s2. destruct res as [desc|e].
  - destruct Hres as [-> ->]. exists (mkDescriptor abc_digest 3), s3. rewrite Hb.
    split_and!; [exact Hc|exact Hw|rewrite Hco; vm_compute; reflexivity|reflexivity|simpl in Hp; injection Hp as Hp; exact Hp].
  - rewrite Hres in Hp. discriminate Hp.
Defined.

(** One client uploads in chunks while another puts and deletes. *)
Definition demo_ops : list BlobOp :=
  [OpCreate false "u1"; OpWrite false 0 (text "ab"); OpPut false abc_digest (text "abd"); OpCreate false "u2";
   OpWrite false 0 (text "c"); OpWrite false 1 (text "abd"); OpCommit false abc_digest 1; OpCommit false abc_digest 0].

Lemma stored_content_is_verified_witness :
  ∃ r content, Get false abc_digest (history demo_ops (New true)) = Ok r ∧ hashes_to abc_digest content ∧
    ∃ r', reads [2; 2; 2; 2; 2; 2] r = Some (content, Some EOF, r').
Proof.
  destruct (Get false abc_digest (history demo_ops (New true))) as [r|] eqn:Hg.
  - destruct (stored_content_is_verified demo_ops true abc_digest) as [Hopen _].
    destruct (Hopen r Hg) as (content & Hb & Hh & Hall). exists r, content. split_and!; [done..|].
    assert (blobs (history demo_ops (New true)) !! abc_digest = Some (String.list_ascii_of_string "abc")) as Hb'
      by (vm_compute; reflexivity).
    assert (content = String.list_ascii_of_string "abc") as -> by congruence.
    apply Hall; [repeat constructor|simpl; lia].
  - assert (is_ok (Get false abc_digest (history demo_ops (New true))) = true) as H by (vm_compute; reflexivity).
    rewrite Hg in H. discriminate H.
Defined.

(** A caller that cancels a session it has already committed cancels the session
    another caller has opened under the same identifier since: [discard] removes
    the registration by identifier. store.go documents a late [Cancel] as safe. *)
Lemma late_Cancel_drops_another_session :
  let s := history [OpCreate false "u"; OpWrite false 0 (text "abc"); OpCommit false abc_digest 0;
                    OpCreate false "u"; OpWrite false 1 (text "d")] (New true) in
  OpenUpload false "u" s = Ok 1 ∧
  ∃ s', Cancel false 0 s = Ok s' ∧ OpenUpload false "u" s' = Err (BlobNotFound "upload" "u") ∧
    se_closed (deref 1 s') = false.
Proof. split; [vm_compute; reflexivity|]. eexists. split; [reflexivity|]. vm_compute. done. Qed.
