(* ===== verification/GoStrings.v ===== *)
(** * What the handlers use of Go's strings, strconv and net/url

    Decimal formatting and parsing of an int64, trimming of white space, and the
    escaping of query values. *)
From S2P Require Import Prelude.
Local Open Scope Z_scope.

(** ** strconv *)
Definition digit (n : Z) : ascii := ascii_of_nat (48 + Z.to_nat n).

(** The decimal digits of [n] in front of [acc]. Twenty digits are enough for any
    int64. *)
Fixpoint format_digits (fuel : nat) (n : Z) (acc : string) : string :=
  match fuel with
  | O => acc
  | S fuel =>
      let acc := String (digit (n mod 10)) acc in
      if n <? 10 then acc else format_digits fuel (n / 10) acc
  end.

(** [strconv.FormatInt(n, 10)] and [strconv.Itoa]. *)
Definition FormatInt (n : Z) : string :=
  if n <? 0 then String "-" (format_digits 20 (- n) "") else format_digits 20 n "".

Definition digit_value (c : ascii) : option Z :=
  let n := Z.of_nat (nat_of_ascii c) in if (48 <=? n) && (n <=? 57) then Some (n - 48) else None.

Fixpoint parse_digits (acc : Z) (s : string) : option Z :=
  match s with
  | EmptyString => Some acc
  | String c s => match digit_value c with None => None | Some d => parse_digits (acc * 10 + d) s end
  end.

(** [strconv.ParseInt(s, 10, 64)] and [strconv.Atoi]: [None] for a syntax error
    and for a value outside the range. *)
Definition ParseInt (s : string) : option Z :=
  let '(negative, digits) :=
    match s with
    | String c rest =>
        if Ascii.eqb c "-" then (true, rest) else if Ascii.eqb c "+" then (false, rest) else (false, s)
    | EmptyString => (false, s)
    end in
  match digits with
  | EmptyString => None
  | _ =>
      match parse_digits 0 digits with
      | None => None
      | Some n =>
          let n := if negative : bool then - n else n in
          if (- 2 ^ 63 <=? n) && (n <? 2 ^ 63) then Some n else None
      end
  end.

(** ** strings.TrimSpace: the ASCII white space, and the UTF-8 encodings of the
    other runes that [unicode.IsSpace] accepts *)
Definition ascii_space (c : ascii) : bool :=
  let n := nat_of_ascii c in ((9 <=? n) && (n <=? 13))%nat || (n =? 32)%nat.

Definition byte_string (ns : list nat) : string := String.string_of_list_ascii (ascii_of_nat <$> ns).

Definition wide_spaces : list string :=
  byte_string <$>
    [[194; 133]; [194; 160]; [225; 154; 128];
     [226; 128; 128]; [226; 128; 129]; [226; 128; 130]; [226; 128; 131]; [226; 128; 132]; [226; 128; 133];
     [226; 128; 134]; [226; 128; 135]; [226; 128; 136]; [226; 128; 137]; [226; 128; 138];
     [226; 128; 168]; [226; 128; 169]; [226; 128; 175]; [226; 129; 159]; [227; 128; 128]]%nat.

(** One white-space rune off the front, or off the back. *)
Definition trim_one_left (s : string) : option string :=
  match s with
  | EmptyString => None
  | String c rest =>
      if ascii_space c then Some rest
      else match list_find (λ w, HasPrefix s w = true) wide_spaces with
      | Some (_, w) => Some (String.substring (String.length w) (String.length s - String.length w) s)
      | None => None
      end
  end.

Definition trim_one_right (s : string) : option string :=
  let spaces := (String (ascii_of_nat 32) "" :: (byte_string <$> [[9]; [10]; [11]; [12]; [13]]%nat)) ++ wide_spaces in
  match list_find (λ w, HasSuffix s w = true) spaces with
  | Some (_, w) => Some (String.substring 0 (String.length s - String.length w) s)
  | None => None
  end.

Fixpoint repeat_trim (trim : string → option string) (fuel : nat) (s : string) : string :=
  match fuel with
  | O => s
  | S fuel => match trim s with Some s' => repeat_trim trim fuel s' | None => s end
  end.

Definition TrimSpace (s : string) : string :=
  let s := repeat_trim trim_one_left (String.length s) s in
  repeat_trim trim_one_right (String.length s) s.

(** ** net/url: QueryEscape and Values.Encode *)
Definition unreserved (c : ascii) : bool :=
  let n := nat_of_ascii c in
  ((48 <=? n) && (n <=? 57) || (65 <=? n) && (n <=? 90) || (97 <=? n) && (n <=? 122) ||
   (n =? 45) || (n =? 95) || (n =? 46) || (n =? 126))%nat.

Definition upper_hex (n : nat) : ascii := ascii_of_nat (if (n <? 10)%nat then 48 + n else 55 + n)%nat.

Fixpoint QueryEscape (s : string) : string :=
  match s with
  | EmptyString => ""
  | String c s =>
      if (nat_of_ascii c =? 32)%nat then String "+" (QueryEscape s)
      else if unreserved c then String c (QueryEscape s)
      else String "%" (String (upper_hex (nat_of_ascii c / 16)) (String (upper_hex (nat_of_ascii c mod 16)) (QueryEscape s)))
  end.

(** Sorted by key, as [Encode] writes them: the pairs come in that order. *)
Fixpoint encode_values (pairs : list (string * string)) : string :=
  match pairs with
  | [] => ""
  | [(k, v)] => QueryEscape k +:+ "=" +:+ QueryEscape v
  | (k, v) :: pairs => QueryEscape k +:+ "=" +:+ QueryEscape v +:+ "&" +:+ encode_values pairs
  end.

(** ** Round trips *)
Lemma digit_value_digit n : 0 ≤ n < 10 → digit_value (digit n) = Some n.
Proof.
  intros Hn. unfold digit_value, digit. rewrite nat_ascii_embedding by lia.
  replace (Z.of_nat (48 + Z.to_nat n)) with (48 + n) by lia.
  destruct (Z.leb_spec 48 (48 + n)); [|lia]. destruct (Z.leb_spec (48 + n) 57); [|lia]. simpl. f_equal. lia.
Qed.

Lemma parse_format fuel n acc :
  0 ≤ n < 10 ^ Z.of_nat fuel → (0 < fuel)%nat → parse_digits 0 (format_digits fuel n acc) = parse_digits n acc.
Proof.
  revert n acc. induction fuel as [|fuel IH]; intros n acc Hn Hf; [lia|]. cbn [format_digits].
  pose proof (Z.mod_pos_bound n 10). pose proof (Z.div_mod n 10).
  destruct (Z.ltb_spec n 10).
  - cbn [parse_digits]. rewrite digit_value_digit by lia. rewrite Z.mod_small by lia. done.
  - rewrite Nat2Z.inj_succ, Z.pow_succ_r in Hn by lia.
    assert (0 ≤ n / 10 < 10 ^ Z.of_nat fuel) by (split; [apply Z.div_pos; lia|apply Z.div_lt_upper_bound; lia]).
    destruct fuel as [|fuel]; [change (Z.of_nat 0) with 0 in Hn; rewrite Z.pow_0_r in Hn; lia|]. rewrite IH by lia.
    cbn [parse_digits]. rewrite digit_value_digit by lia. f_equal. lia.
Qed.

Lemma digit_not_sign n : 0 ≤ n < 10 → digit n ≠ "-"%char ∧ digit n ≠ "+"%char.
Proof.
  intros Hn. assert (digit_value (digit n) = Some n) as H by by apply digit_value_digit.
  split; intros Hd; rewrite Hd in H; vm_compute in H; done.
Qed.

Lemma format_head fuel n acc : 0 ≤ n → (0 < fuel)%nat →
  ∃ d rest, 0 ≤ d < 10 ∧ format_digits fuel n acc = String (digit d) rest.
Proof.
  revert n acc. induction fuel as [|fuel IH]; intros n acc Hn Hf; [lia|]. cbn [format_digits].
  destruct (n <? 10) eqn:E.
  - exists (n mod 10), acc. split; [apply Z.mod_pos_bound; lia|done].
  - destruct fuel as [|fuel]; [simpl; exists (n mod 10), acc; split; [apply Z.mod_pos_bound; lia|done]|].
    apply IH; [apply Z.div_pos; lia|lia].
Qed.

(** Every int64 survives being written and read back. *)
Lemma ParseInt_FormatInt n : int64_range n → ParseInt (FormatInt n) = Some n.
Proof.
  intros [Hlo Hhi]. unfold FormatInt.
  assert (2 ^ 63 < 10 ^ Z.of_nat 20) as Hbig by (vm_compute; done).
  assert ((- 2 ^ 63 <=? n) && (n <? 2 ^ 63) = true) as Hrange.
  { apply andb_true_iff. split; [apply Z.leb_le|apply Z.ltb_lt]; lia. }
  destruct (Z.ltb_spec n 0).
  - assert (parse_digits 0 (format_digits 20 (- n) "") = Some (- n)) as Hp by (rewrite parse_format; [done|lia|lia]).
    destruct (format_head 20 (- n) "") as (d & rest & Hd & Hf); [lia|lia|].
    unfold ParseInt. rewrite Hf in *. cbn [Ascii.eqb Bool.eqb]. rewrite Hp, Z.opp_involutive, Hrange. reflexivity.
  - assert (parse_digits 0 (format_digits 20 n "") = Some n) as Hp by (rewrite parse_format; [done|lia|lia]).
    destruct (format_head 20 n "") as (d & rest & Hd & Hf); [lia|lia|].
    rewrite Hf in *. destruct (digit_not_sign d Hd) as [H1 H2]. unfold ParseInt.
    rewrite (proj2 (Ascii.eqb_neq _ _) H1), (proj2 (Ascii.eqb_neq _ _) H2), Hp, Hrange. reflexivity.
Qed.
