(* ===== verification/Artifact.v ===== *)
(** * Manifests and artifact kinds (src/internal/artifact: mediatypes.go, parse.go, kinds.go)

    Parsing of a pushed manifest payload and the labelling of what it holds.
    Decoding JSON into the wire shapes and parsing a Content-Type header are
    arguments of [Parse]: the theorems hold for every decoder. *)
From S2P Require Import Prelude Digest GoStrings.

(** ** Media types *)
Definition MediaTypeOCIManifest := "application/vnd.oci.image.manifest.v1+json".
Definition MediaTypeOCIIndex := "application/vnd.oci.image.index.v1+json".
Definition MediaTypeDockerManifest := "application/vnd.docker.distribution.manifest.v2+json".
Definition MediaTypeDockerList := "application/vnd.docker.distribution.manifest.list.v2+json".

Definition IsSupported (mediaType : string) : bool :=
  String.eqb mediaType MediaTypeOCIManifest || String.eqb mediaType MediaTypeOCIIndex ||
  String.eqb mediaType MediaTypeDockerManifest || String.eqb mediaType MediaTypeDockerList.

Definition IsIndex (mediaType : string) : bool :=
  String.eqb mediaType MediaTypeOCIIndex || String.eqb mediaType MediaTypeDockerList.

Definition isOCI (mediaType : string) : bool :=
  String.eqb mediaType MediaTypeOCIManifest || String.eqb mediaType MediaTypeOCIIndex.

(** ** Parsed and wire shapes *)
Record Descriptor : Type := mkDescriptor {
  de_mediaType : string; de_digest : string; de_size : Z; de_external : bool;
}.

Record Manifest : Type := mkManifest {
  am_mediaType : string;
  am_artifactType : string;
  am_subject : option Descriptor;
  am_config : option Descriptor;
  am_layers : list Descriptor;
  am_children : list Descriptor;
}.

Record wireDescriptor : Type := mkWireDescriptor {
  wd_mediaType : string; wd_digest : string; wd_size : option Z; wd_urls : list string;
}.

Record wireManifest : Type := mkWireManifest {
  wm_schemaVersion : Z;
  wm_mediaType : string;
  wm_artifactType : string;
  wm_config : option wireDescriptor;
  wm_layers : list wireDescriptor;
  wm_manifests : list wireDescriptor;
  wm_subject : option wireDescriptor;
}.

(** Why a payload was refused: every reason is an [InvalidError]. *)
Inductive ManifestError : Type :=
| BadContentType (contentType : string)
| BadJSON
| NoMediaType
| MediaTypeMismatch (inPayload declared : string)
| UnsupportedMediaType (mediaType : string)
| BadSchemaVersion (version : Z)
| BadArtifactType (artifactType : string)
| NoConfig
| BadDescriptorDigest (field : string) (reason : DigestError)
| NoDescriptorSize (field digest : string)
| NegativeDescriptorSize (field digest : string) (size : Z).

Definition descriptor (field : string) (wire : wireDescriptor) : result ManifestError Descriptor :=
  match ParseDigest (wd_digest wire) with
  | Err reason => Err (BadDescriptorDigest field reason)
  | Ok digest =>
      match wd_size wire with
      | None => Err (NoDescriptorSize field digest)
      | Some size =>
          if (size <? 0)%Z then Err (NegativeDescriptorSize field digest size)
          else Ok (mkDescriptor (wd_mediaType wire) digest size (negb (length (wd_urls wire) =? 0)))
      end
  end.

(** The field of an element is its list's name and position. *)
Definition element (field : string) (i : nat) : string := field +:+ "[" +:+ FormatInt (Z.of_nat i) +:+ "]".

Fixpoint descriptors_from (field : string) (i : nat) (wires : list wireDescriptor) : result ManifestError (list Descriptor) :=
  match wires with
  | [] => Ok []
  | w :: wires =>
      let! d := descriptor (element field i) w in
      let! ds := descriptors_from field (S i) wires in
      Ok (d :: ds)
  end.

Definition descriptors (field : string) (wires : list wireDescriptor) : result ManifestError (list Descriptor) :=
  descriptors_from field 0 wires.

(** ** Parse *)
Section parse.
(** [mime.ParseMediaType] and [json.Unmarshal] into [wireManifest]; [None] is
    their error. *)
Context (ParseMediaType : string → option string) (Unmarshal : string → option wireManifest).

Definition declared_type (contentType : string) : result ManifestError string :=
  if String.eqb contentType "" then Ok ""
  else match ParseMediaType contentType with
  | None => Err (BadContentType contentType)
  | Some parsed => Ok parsed
  end.

Definition effective_type (declared inPayload : string) : result ManifestError string :=
  if String.eqb declared "" && String.eqb inPayload "" then Err NoMediaType
  else if String.eqb declared "" then Ok inPayload
  else if negb (String.eqb inPayload "") && negb (String.eqb inPayload declared) then Err (MediaTypeMismatch inPayload declared)
  else Ok declared.

(** The fields of an index. *)
Definition parse_index (mediaType : string) (wire : wireManifest) : result ManifestError Manifest :=
  let! children := descriptors "manifests" (wm_manifests wire) in
  Ok (mkManifest mediaType (if isOCI mediaType then wm_artifactType wire else "") None None [] children).

(** The fields of an image or artifact manifest. *)
Definition parse_image (mediaType : string) (wire : wireManifest) : result ManifestError Manifest :=
  match wm_config wire with
  | None => Err NoConfig
  | Some wireConfig =>
      let! config := descriptor "config" wireConfig in
      let! layers := descriptors "layers" (wm_layers wire) in
      let artifactType :=
        if negb (isOCI mediaType) || String.eqb (wm_artifactType wire) "" then de_mediaType config
        else wm_artifactType wire in
      Ok (mkManifest mediaType artifactType None (Some config) layers [])
  end.

Definition parse_subject (mediaType : string) (wire : wireManifest) (m : Manifest) : result ManifestError Manifest :=
  match wm_subject wire with
  | Some wireSubject =>
      if isOCI mediaType then
        let! subject := descriptor "subject" wireSubject in
        Ok (mkManifest (am_mediaType m) (am_artifactType m) (Some subject) (am_config m) (am_layers m) (am_children m))
      else Ok m
  | None => Ok m
  end.

Definition Parse (contentType payload : string) : result ManifestError Manifest :=
  let! declared := declared_type contentType in
  match Unmarshal payload with
  | None => Err BadJSON
  | Some wire =>
      let! mediaType := effective_type declared (wm_mediaType wire) in
      if negb (IsSupported mediaType) then Err (UnsupportedMediaType mediaType)
      else if negb (wm_schemaVersion wire =? 2)%Z then Err (BadSchemaVersion (wm_schemaVersion wire))
      else if negb (String.eqb (wm_artifactType wire) "") && negb (ContainsByte (wm_artifactType wire) "/")
      then Err (BadArtifactType (wm_artifactType wire))
      else
        let! m := if IsIndex mediaType then parse_index mediaType wire else parse_image mediaType wire in
        parse_subject mediaType wire m
  end.
End parse.

(** ** Kinds (kinds.go) *)
Inductive Kind : Type :=
| KindImage | KindIndex | KindHelmChart | KindSBOM | KindSignature | KindAttestation | KindUnknown.

#[export] Instance Kind_eq_dec : EqDecision Kind.
Proof. solve_decision. Defined.

Definition MediaTypeHelmConfig := "application/vnd.cncf.helm.config.v1+json".
Definition MediaTypeOCIImageConfig := "application/vnd.oci.image.config.v1+json".
Definition MediaTypeDockerImageConfig := "application/vnd.docker.container.image.v1+json".

Definition ArtifactTypeSPDX := "application/spdx+json".
Definition ArtifactTypeCycloneDX := "application/vnd.cyclonedx+json".
Definition ArtifactTypeCosignSignature := "application/vnd.dev.cosign.simplesigning.v1+json".
Definition ArtifactTypeInTotoAttestation := "application/vnd.in-toto+json".

Definition artifactTypeKinds (base : string) : option Kind :=
  if String.eqb base ArtifactTypeSPDX then Some KindSBOM
  else if String.eqb base ArtifactTypeCycloneDX then Some KindSBOM
  else if String.eqb base ArtifactTypeCosignSignature then Some KindSignature
  else if String.eqb base ArtifactTypeInTotoAttestation then Some KindAttestation
  else None.

Definition kindOfConfigType (configMediaType : string) : Kind :=
  if String.eqb configMediaType MediaTypeHelmConfig then KindHelmChart
  else if String.eqb configMediaType MediaTypeOCIImageConfig || String.eqb configMediaType MediaTypeDockerImageConfig
  then KindImage
  else KindUnknown.

(** The type without its parameters. *)
Definition base_type (artifactType : string) : string :=
  let base := TrimSpace artifactType in
  let '(before, _, found) := Cut base ";" in
  if found then TrimSpace before else base.

Definition kindOfArtifactType (artifactType : string) : Kind :=
  if String.eqb artifactType "" then KindUnknown
  else
    let base := base_type artifactType in
    match artifactTypeKinds base with
    | Some kind => kind
    | None =>
        if HasPrefix base "application/vnd.cyclonedx" then KindSBOM
        else if HasPrefix base "application/spdx" then KindSBOM
        else if HasPrefix base "application/vnd.dev.cosign" || HasPrefix base "application/vnd.dev.sigstore" then KindSignature
        else if HasPrefix base "application/vnd.in-toto" || HasPrefix base "application/vnd.slsa" then KindAttestation
        else KindUnknown
    end.

Definition KindOf (mediaType artifactType configMediaType : string) : Kind :=
  if IsIndex mediaType then KindIndex
  else match kindOfArtifactType artifactType with
  | KindUnknown =>
      match kindOfConfigType artifactType with
      | KindUnknown => kindOfConfigType configMediaType
      | kind => kind
      end
  | kind => kind
  end.

Definition KindOfStored (mediaType artifactType : string) : Kind := KindOf mediaType artifactType "".

Definition Manifest_Kind (m : Manifest) : Kind :=
  KindOf (am_mediaType m) (am_artifactType m) (match am_config m with Some c => de_mediaType c | None => "" end).

Definition IsSignature (k : Kind) : bool := match k with KindSignature => true | _ => false end.

(** ** What an accepted manifest looks like *)
Definition descriptor_wf (d : Descriptor) : Prop := Digest_Validate (de_digest d) = Ok tt ∧ (0 ≤ de_size d)%Z.

Lemma ParseDigest_id d d' : ParseDigest d = Ok d' → d' = d ∧ Digest_Validate d = Ok tt.
Proof.
  intros H. unfold Digest_Validate. rewrite H. split; [|done]. unfold ParseDigest in H.
  destruct (Cut d ":") as [[a h] [|]]; [|done]. simpl in H. destruct (algorithms a); [|done].
  repeat case_match; by simplify_eq.
Qed.

Lemma descriptor_ok field w d :
  descriptor field w = Ok d ↔
  Digest_Validate (wd_digest w) = Ok tt ∧ ∃ size, wd_size w = Some size ∧ (0 ≤ size)%Z ∧
    d = mkDescriptor (wd_mediaType w) (wd_digest w) size (negb (length (wd_urls w) =? 0)).
Proof.
  unfold descriptor, Digest_Validate. destruct (ParseDigest (wd_digest w)) as [d'|e] eqn:Hp; simpl.
  - apply ParseDigest_id in Hp as [-> _]. destruct (wd_size w) as [size|]; [|naive_solver].
    destruct (Z.ltb_spec size 0); [naive_solver lia|]. naive_solver.
  - naive_solver.
Qed.

Lemma descriptors_ok field i ws ds :
  descriptors_from field i ws = Ok ds → Forall descriptor_wf ds ∧ de_digest <$> ds = wd_digest <$> ws.
Proof.
  revert i ds. induction ws as [|w ws IH]; intros i ds H; simpl in H; [by simplify_eq|].
  destruct (descriptor _ w) as [d|] eqn:Hd; simpl in H; [|done].
  destruct (descriptors_from field (S i) ws) as [ds'|] eqn:Hds; simpl in H; [|done]. simplify_eq.
  destruct (IH _ _ Hds) as [H1 H2]. apply descriptor_ok in Hd as (Hv & size & _ & Hs & ->).
  split; [constructor; [split; done|done]|]. csimpl. by rewrite H2.
Qed.

(** Where the media type came from: the header, the payload, or both agreeing. *)
Lemma effective_type_ok declared inPayload t :
  effective_type declared inPayload = Ok t ↔
  t ≠ "" ∧ (declared = t ∧ (inPayload = "" ∨ inPayload = t) ∨ declared = "" ∧ inPayload = t).
Proof.
  unfold effective_type. destruct (String.eqb_spec declared "") as [->|Hd]; simpl.
  - destruct (String.eqb_spec inPayload "") as [->|Hp]; simpl; split; naive_solver.
  - destruct (String.eqb_spec inPayload "") as [->|Hp]; simpl; [split; naive_solver|].
    destruct (String.eqb_spec inPayload declared) as [->|Hne]; simpl; split; naive_solver.
Qed.

(** The references a parsed manifest makes, all of them. *)
Definition all_descriptors (m : Manifest) : list Descriptor :=
  option_list (am_config m) ++ am_layers m ++ am_children m ++ option_list (am_subject m).

Lemma parse_body_ok mediaType wire m :
  (if IsIndex mediaType then parse_index mediaType wire else parse_image mediaType wire) = Ok m →
  am_mediaType m = mediaType ∧ am_subject m = None ∧ Forall descriptor_wf (all_descriptors m) ∧
  if IsIndex mediaType then
    am_config m = None ∧ am_layers m = [] ∧ de_digest <$> am_children m = wd_digest <$> wm_manifests wire ∧
    am_artifactType m = (if isOCI mediaType then wm_artifactType wire else "")
  else
    am_children m = [] ∧ (∃ c, am_config m = Some c ∧
      am_artifactType m = (if negb (isOCI mediaType) || String.eqb (wm_artifactType wire) "" then de_mediaType c else wm_artifactType wire)) ∧
    de_digest <$> am_layers m = wd_digest <$> wm_layers wire.
Proof.
  destruct (IsIndex mediaType).
  - unfold parse_index, descriptors. intros H. inv_result. apply descriptors_ok in Heqr as [Hw Hd].
    split_and!; try done. unfold all_descriptors. simpl. by rewrite app_nil_r.
  - unfold parse_image, descriptors. intros H. destruct (wm_config wire) as [wc|]; [|done]. inv_result.
    apply descriptor_ok in Heqr as (Hv & size & _ & Hs & ->). apply descriptors_ok in Heqr0 as [Hw Hd].
    split_and!; try done; [|by eexists]. unfold all_descriptors. simpl. rewrite !app_nil_r. constructor; [done|exact Hw].
Qed.

Lemma parse_subject_ok mediaType wire body m :
  parse_subject mediaType wire body = Ok m → am_mediaType body = mediaType → am_subject body = None →
  Forall descriptor_wf (all_descriptors body) →
  am_mediaType m = mediaType ∧ am_artifactType m = am_artifactType body ∧ am_config m = am_config body ∧
  am_layers m = am_layers body ∧ am_children m = am_children body ∧
  de_digest <$> am_subject m = (if isOCI mediaType then wd_digest <$> wm_subject wire else None) ∧
  Forall descriptor_wf (all_descriptors m).
Proof.
  intros H Hmt Hsub Hall. unfold parse_subject in H. destruct (wm_subject wire) as [ws|].
  - destruct (isOCI mediaType); [|simplify_eq; split_and!; try done; by rewrite Hsub].
    inv_result. apply descriptor_ok in Heqr as (Hv & size & _ & Hs & ->). split_and!; try done.
    unfold all_descriptors in *. simpl. rewrite Hsub in Hall. simpl in Hall. rewrite app_nil_r in Hall.
    rewrite !(assoc_L (++)) in *. apply Forall_app. split; [done|]. by constructor.
  - simplify_eq. split_and!; try done. rewrite Hsub. by destruct (isOCI _).
Qed.

(** What is parsed refers only to well-formed digests and sizes. *)
Lemma Parse_wf ParseMediaType Unmarshal contentType payload m :
  Parse ParseMediaType Unmarshal contentType payload = Ok m → Forall descriptor_wf (all_descriptors m).
Proof.
  unfold Parse. intros H. inv_result. destruct (Unmarshal payload) as [wire|]; [|done]. inv_result.
  destruct (negb _); [done|]. destruct (negb _); [done|]. destruct (negb _ && _); [done|]. inv_result.
  apply parse_body_ok in Heqr1 as (Hmt & Hsub & Hall & _). by eapply parse_subject_ok.
Qed.

(** A payload that is accepted is what its media type says: the type is one
    of the four supported ones and the header and the payload do not contradict
    each other about it; every digest it names is of the digest grammar with a
    size that is not negative; an index has children and neither config nor
    layers, anything else has a config and no children; a subject is kept exactly
    on the OCI types; the artifact type is the payload's, or the config's where
    the payload has none or its type defines none; and the label computed from
    the two stored columns is the label of the parsed manifest, except that an
    artifact type of its own that is not recognised hides a recognised config. *)
Theorem parsed_manifest_shape ParseMediaType Unmarshal contentType payload m :
  Parse ParseMediaType Unmarshal contentType payload = Ok m →
  ∃ wire, Unmarshal payload = Some wire ∧ wm_schemaVersion wire = 2%Z ∧
    IsSupported (am_mediaType m) = true ∧
    (wm_mediaType wire = "" ∨ wm_mediaType wire = am_mediaType m) ∧
    (contentType = "" ∨ ParseMediaType contentType = Some (am_mediaType m) ∨
      (ParseMediaType contentType = Some "" ∧ wm_mediaType wire = am_mediaType m)) ∧
    Forall descriptor_wf (all_descriptors m) ∧
    (if IsIndex (am_mediaType m) then
       am_config m = None ∧ am_layers m = [] ∧ de_digest <$> am_children m = wd_digest <$> wm_manifests wire
     else am_children m = [] ∧ is_Some (am_config m) ∧ de_digest <$> am_layers m = wd_digest <$> wm_layers wire) ∧
    de_digest <$> am_subject m = (if isOCI (am_mediaType m) then wd_digest <$> wm_subject wire else None) ∧
    (KindOfStored (am_mediaType m) (am_artifactType m) = Manifest_Kind m ∨
      (KindOfStored (am_mediaType m) (am_artifactType m) = KindUnknown ∧
       am_artifactType m = wm_artifactType wire ∧ wm_artifactType wire ≠ "" ∧ isOCI (am_mediaType m) = true)).
Proof.
  unfold Parse, declared_type. intros H. inv_result. rename a into declared.
  destruct (Unmarshal payload) as [wire|]; [|done]. exists wire. inv_result. rename a into mediaType.
  apply effective_type_ok in Heqr0 as [Hne Htype].
  destruct (IsSupported mediaType) eqn:Hsup; simpl in H; [|done].
  destruct (Z.eqb_spec (wm_schemaVersion wire) 2); simpl in H; [|done].
  destruct (negb _ && _); [done|]. inv_result. rename a into body.
  apply parse_body_ok in Heqr0 as (Hmt & Hsub & Hall & Hbody).
  destruct (parse_subject_ok _ _ _ _ H Hmt Hsub Hall) as (H1 & H2 & H3 & H4 & H5 & H6 & H7).
  rewrite H1. split_and!; try done.
  - destruct Htype as [[_ ?]|[_ ?]]; naive_solver.
  - destruct (String.eqb_spec contentType ""); [by left|]. destruct (ParseMediaType contentType) as [t|]; [|done].
    simplify_eq. naive_solver.
  - rewrite H3, H4, H5. destruct (IsIndex mediaType); [naive_solver|]. destruct Hbody as (? & (c & -> & _) & ?). by eauto.
  - unfold Manifest_Kind. rewrite H1, H3. unfold KindOfStored, KindOf. destruct (IsIndex mediaType) eqn:Hi; [by left|].
    destruct Hbody as (_ & (c & -> & Ha) & _). rewrite H2. destruct (kindOfArtifactType (am_artifactType body)) eqn:E1; try by left.
    destruct (kindOfConfigType (am_artifactType body)) eqn:E2; try by left.
    destruct (isOCI mediaType) eqn:Ho; simpl in Ha.
    + destruct (String.eqb_spec (wm_artifactType wire) ""); [|by right].
      left. rewrite Ha in E2. rewrite E2. done.
    + left. rewrite Ha in E2. rewrite E2. done.
Qed.

(** ** Examples: a chart pushed with an artifact type of its own. The decoders
    answer for this one payload. *)
Definition sample_digest : string := "sha256:" +:+ byte_string (replicate 64 48).
Definition sample_wire (artifactType : string) : wireManifest :=
  mkWireManifest 2 MediaTypeOCIManifest artifactType (Some (mkWireDescriptor MediaTypeHelmConfig sample_digest (Some 2%Z) []))
    [mkWireDescriptor "application/gzip" sample_digest (Some 7%Z) ["https://elsewhere"]] []
    (Some (mkWireDescriptor "" sample_digest (Some 0%Z) [])).
Definition sample_parse (artifactType : string) : result ManifestError Manifest :=
  Parse Some (λ p, if String.eqb p "{}" then Some (sample_wire artifactType) else None) MediaTypeOCIManifest "{}".

Lemma parsed_manifest_shape_witness :
  ∃ m, sample_parse "" = Ok m ∧ IsSupported (am_mediaType m) = true ∧ KindOfStored (am_mediaType m) (am_artifactType m) = KindHelmChart.
Proof.
  destruct (sample_parse "") as [m|] eqn:H; [|vm_compute in H; discriminate H].
  destruct (parsed_manifest_shape Some (λ p, if String.eqb p "{}" then Some (sample_wire "") else None) MediaTypeOCIManifest "{}" m H) as (wire & _ & _ & Hs & _). exists m. split_and!; [done|done|].
  vm_compute in H. injection H as <-. vm_compute. reflexivity.
Defined.

(** The stored columns label it unknown, the parsed manifest a chart. *)
Lemma stored_label_loses_the_config :
  match sample_parse "application/vnd.acme.bundle" with
  | Ok m => KindOfStored (am_mediaType m) (am_artifactType m) = KindUnknown ∧ Manifest_Kind m = KindHelmChart
  | Err _ => False
  end.
Proof. vm_compute. done. Qed.
