(* ===== verification/Http.v ===== *)
(** * Requests, responses and the stores behind them
    (src/internal/registry: errors.go, and what the handlers share)

    A handler is a program whose steps are its calls of the metadata store, the
    blob store, the bindings, the clock and the random source. Each call is
    atomic; between two calls of one request anything else may happen. A program
    is therefore data, an inductive tree: [run] executes one alone, and [pool]
    steps any number of them in any order. *)
From S2P Require Import Prelude RepoName Digest Sha2 Verify GoStrings Authz Meta Group Memory Identity Guard BlobStore Artifact.

(** ** Requests *)
Record Request : Type := mkRequest {
  rq_name : string;                        (* server.OCIName *)
  rq_value : string → string;              (* server.OCIValue *)
  rq_query : string → string;              (* URL.Query().Get *)
  rq_header : string → string;             (* Header.Get *)
  rq_body : Body;
  rq_contentLength : Z;
  rq_subject : option AuthnSubject;        (* server.SubjectFrom *)
  rq_visibility : option Visibility;       (* server.VisibilityFrom *)
}.

(** ** Responses *)
Definition CodeBlobUnknown := "BLOB_UNKNOWN".
Definition CodeBlobUploadInvalid := "BLOB_UPLOAD_INVALID".
Definition CodeBlobUploadUnknown := "BLOB_UPLOAD_UNKNOWN".
Definition CodeDigestInvalid := "DIGEST_INVALID".
Definition CodeManifestBlobUnknown := "MANIFEST_BLOB_UNKNOWN".
Definition CodeManifestInvalid := "MANIFEST_INVALID".
Definition CodeManifestUnknown := "MANIFEST_UNKNOWN".
Definition CodeNameInvalid := "NAME_INVALID".
Definition CodeNameUnknown := "NAME_UNKNOWN".
Definition CodeDenied := "DENIED".
Definition CodeUnauthorized := "UNAUTHORIZED".
Definition CodeUnsupported := "UNSUPPORTED".
Definition CodeTooManyRequests := "TOOMANYREQUESTS".
Definition CodeUnknown := "UNKNOWN".

(** The message of an error: a fixed text, or what the text is rendered from. *)
Inductive Message : Type :=
| Text (s : string)
| DigestText (reason : DigestError)
| BlobText (e : BlobError)
| ManifestText (e : ManifestError)
| QuotaText (s : string)
| OffsetText (offset : Z)
| InvalidTag (tag : string)
| TooLarge (limit : Z)
| UnknownReference (digest : string)
| WrongSize (digest : string) (stated actual : Z)
| IndexedBy (member : string) (indexes : list string)
| ReferencedText (e : MetaError)
| BadPageSize (raw : string).

Record referrerDescriptor : Type := mkReferrer {
  rd_mediaType : string; rd_digest : string; rd_size : Z; rd_artifactType : string;
  rd_annotations : option (list (string * string));
}.

Inductive RespBody : Type :=
| NoBody
| SpecError (code : string) (message : Message)
| Content (b : bytes)
| TagList (name : string) (tags : list string)
| CatalogList (names : list string)
| ReferrerIndex (mediaType : string) (manifests : list referrerDescriptor).

Record Response : Type := mkResponse { rs_status : Z; rs_headers : list (string * string); rs_body : RespBody }.

(** [writeError], after the headers already set. *)
Definition writeErrorWith (headers : list (string * string)) (status : Z) (code : string) (message : Message) : Response :=
  mkResponse status (headers ++ [("Content-Type", "application/json")]) (SpecError code message).
Definition writeError := writeErrorWith [].

Definition internalError : Response := writeError 500 CodeUnknown (Text "internal error").
Definition nameUnknown : Response := writeError 404 CodeNameUnknown (Text "repository name not known to registry").

(** [SpecErrors]: the guard's refusals in the distribution envelope. A handler
    that was served has no refusal. *)
Definition SpecErrors (refusal : Guard.Response) : option Response :=
  match refusal with
  | Guard.Unauthorized challenge =>
      Some (writeErrorWith (if String.eqb challenge "" then [] else [("WWW-Authenticate", challenge)])
              401 CodeUnauthorized (Text "authentication required"))
  | Guard.Forbidden => Some (writeError 403 CodeDenied (Text "requested access to the resource is denied"))
  | Guard.NotFoundResponse => Some nameUnknown
  | Guard.BadRequest reason => Some (writeError 400 CodeNameInvalid (Text reason))
  | Guard.TooManyRequests retryAfter =>
      Some (writeErrorWith [("Retry-After", FormatInt (retrySeconds retryAfter))]
              429 CodeTooManyRequests (Text "too many requests"))
  | Guard.RotationRequired =>
      Some (writeError 403 CodeDenied
              (Text "password rotation required: change it with POST /api/v1/auth/password, then retry"))
  | Guard.Internal => Some internalError
  | Guard.Served _ _ _ => None
  end.

(** ** Programs *)
(** [w_pulls] are the observations handed to the pull recorder. *)
Record World : Type := mkWorld {
  w_meta : Memory.Store; w_blobs : BlobStore.Store; w_ids : IdStore; w_pulls : list (string * string);
}.

Definition set_meta (s : Memory.Store) (w : World) : World := mkWorld s (w_blobs w) (w_ids w) (w_pulls w).
Definition set_blobs (s : BlobStore.Store) (w : World) : World := mkWorld (w_meta w) s (w_ids w) (w_pulls w).
Definition add_pull (o : string * string) (w : World) : World :=
  mkWorld (w_meta w) (w_blobs w) (w_ids w) (w_pulls w ++ [o]).

(** A store call gets the cancellation of the request's context as it is then. *)
Inductive Prog (A : Type) : Type :=
| Ret (a : A)
| MetaCall {B : Type} (op : bool → Memory.Store → result MetaError (Memory.Store * B)) (k : result MetaError B → Prog A)
| BlobCall {B : Type} (op : bool → BlobStore.Store → option (B * BlobStore.Store)) (k : B → Prog A)
| BindingsCall (subject : string) (k : result MetaError (list Authz.Binding) → Prog A)
| NowCall (k : Z → Prog A)
| RandCall (k : option bytes → Prog A)
| PullCall (name reference : string) (k : Prog A).
Arguments Ret {A} a.
Arguments MetaCall {A B} op k.
Arguments BlobCall {A B} op k.
Arguments BindingsCall {A} subject k.
Arguments NowCall {A} k.
Arguments RandCall {A} k.
Arguments PullCall {A} name reference k.

Fixpoint prog_bind {A B} (p : Prog A) (f : A → Prog B) : Prog B :=
  match p with
  | Ret a => f a
  | MetaCall op k => MetaCall op (λ r, prog_bind (k r) f)
  | BlobCall op k => BlobCall op (λ r, prog_bind (k r) f)
  | BindingsCall subject k => BindingsCall subject (λ r, prog_bind (k r) f)
  | NowCall k => NowCall (λ t, prog_bind (k t) f)
  | RandCall k => RandCall (λ b, prog_bind (k b) f)
  | PullCall name reference k => PullCall name reference (prog_bind k f)
  end.

(** A store method that only reads, and one that only writes. *)
Definition reads_meta {B} (op : bool → Memory.Store → result MetaError B) : Prog (result MetaError B) :=
  MetaCall (λ ctx s, let! b := op ctx s in Ok (s, b)) Ret.
Definition writes_meta (op : bool → Memory.Store → result MetaError Memory.Store) : Prog (result MetaError unit) :=
  MetaCall (λ ctx s, let! s' := op ctx s in Ok (s', tt)) Ret.
Definition reads_blobs {B} (op : bool → BlobStore.Store → B) : Prog B :=
  BlobCall (λ ctx s, Some (op ctx s, s)) Ret.
Definition calls_blobs {B} (op : bool → BlobStore.Store → option (B * BlobStore.Store)) : Prog B := BlobCall op Ret.
Definition the_time : Prog Z := NowCall Ret.
Definition random_bytes : Prog (option bytes) := RandCall Ret.
Definition the_bindings (subject : string) : Prog (result MetaError (list Authz.Binding)) := BindingsCall subject Ret.

(** Sequencing, and sequencing after a helper that may have answered already. *)
Definition prog_try {A} (p : Prog (result Response A)) (k : A → Prog Response) : Prog Response :=
  prog_bind p (λ r, match r with Err resp => Ret resp | Ok a => k a end).
Definition prog_tryE {A B} (p : Prog (result Response A)) (k : A → Prog (result Response B)) : Prog (result Response B) :=
  prog_bind p (λ r, match r with Err resp => Ret (Err resp) | Ok a => k a end).

Notation "'do!' x ':=' p 'in' k" := (prog_bind p (λ x, k)) (at level 10, x name, p at level 100, k at level 200) : trove_scope.
Notation "'try!' x ':=' p 'in' k" := (prog_try p (λ x, k)) (at level 10, x name, p at level 100, k at level 200) : trove_scope.
Notation "'tryE!' x ':=' p 'in' k" := (prog_tryE p (λ x, k)) (at level 10, x name, p at level 100, k at level 200) : trove_scope.

(** ** One request alone: nothing interferes and nothing is cancelled *)
Section run.
Context (now : Z) (rand : option bytes).

Fixpoint run {A} (p : Prog A) (w : World) : option (A * World) :=
  match p with
  | Ret a => Some (a, w)
  | MetaCall op k =>
      match op false (w_meta w) with
      | Ok (s, b) => run (k (Ok b)) (set_meta s w)
      | Err e => run (k (Err e)) w
      end
  | BlobCall op k =>
      match op false (w_blobs w) with
      | Some (b, s) => run (k b) (set_blobs s w)
      | None => None
      end
  | BindingsCall subject k => run (k (FetchBindings false (λ _, w_ids w) subject)) w
  | NowCall k => run (k now) w
  | RandCall k => run (k rand) w
  | PullCall name reference k => run k (add_pull (name, reference) w)
  end.
End run.

(** ** Any number of requests, interleaved *)
Inductive call_step {A} : Prog A → World → Prog A → World → Prop :=
| step_meta_ok B (op : bool → _ → result MetaError (Memory.Store * B)) k ctx s b w :
    op ctx (w_meta w) = Ok (s, b) → call_step (MetaCall op k) w (k (Ok b)) (set_meta s w)
| step_meta_err B (op : bool → _ → result MetaError (Memory.Store * B)) k ctx e w :
    op ctx (w_meta w) = Err e → call_step (MetaCall op k) w (k (Err e)) w
| step_blob B (op : bool → _ → option (B * BlobStore.Store)) k ctx s b w :
    op ctx (w_blobs w) = Some (b, s) → call_step (BlobCall op k) w (k b) (set_blobs s w)
| step_bindings subject k answer w : call_step (BindingsCall subject k) w (k answer) w
| step_now k t w : call_step (NowCall k) w (k t) w
| step_rand k b w : call_step (RandCall k) w (k b) w
| step_pull name reference k w : call_step (PullCall name reference k) w k (add_pull (name, reference) w).

(** The server: requests arrive, and any of the running ones makes its next call;
    one that was answered stays as its answer. [accepts] says which programs
    requests start. *)
Inductive pool_step (accepts : Prog Response → Prop) : World * list (Prog Response) → World * list (Prog Response) → Prop :=
| pool_arrive w ps p : accepts p → pool_step accepts (w, ps) (w, ps ++ [p])
| pool_call w ps i p p' w' :
    ps !! i = Some p → call_step p w p' w' → pool_step accepts (w, ps) (w', <[i := p']> ps).
