(* ===== verification/Uploads.v ===== *)
(** * Blob pulls and pushes (src/internal/registry: blobs.go, dispatch.go, uploads.go, upload_reaper.go)

    The blob routes of the distribution API as programs over the stores: reads of
    hosted and delegated blobs, upload sessions from start to commit, the
    cross-repository mount, and the reaper of abandoned sessions. *)
From S2P Require Import Prelude RepoName Digest Sha2 Verify GoStrings Authz Meta Group Memory Identity Guard BlobStore Artifact Http.

(** ** Delegates (dispatch.go) *)
Inductive ServeError : Type :=
| ErrContentUnknown
| ErrUpstreamUnavailable
| ErrUpstreamThrottled
| OtherServeError (what : string).

Record ServedManifest : Type := mkServedManifest { sm_digest : string; sm_mediaType : string; sm_payload : string }.
Record ServedBlob : Type := mkServedBlob { sb_content : Body; sb_size : Z; sb_digest : string }.

(** What a delegate answers, per repository and reference. *)
Record ContentServer : Type := mkContentServer {
  cs_Manifest : string → string → result ServeError ServedManifest;
  cs_Blob : string → string → result ServeError ServedBlob;
}.

Record ContentServers : Type := mkContentServers { sv_proxy : option ContentServer; sv_group : option ContentServer }.

Definition serverFor (s : ContentServers) (typ : string) : option ContentServer :=
  if String.eqb typ Proxy then sv_proxy s else if String.eqb typ Meta.Group then sv_group s else None.

(** [None] for a hosted repository; [Some None] for a type with no delegate. *)
Definition delegated (s : ContentServers) (typ : string) : option (option ContentServer) :=
  if String.eqb typ Hosted then None else Some (serverFor s typ).

Definition notFoundCodeFor (kind : string) : string :=
  if String.eqb kind "blob" then CodeBlobUnknown else CodeManifestUnknown.

Definition writeDelegateError (kind : string) (err : ServeError) : Response :=
  match err with
  | ErrContentUnknown => writeError 404 (notFoundCodeFor kind) (Text (kind +:+ " unknown to registry"))
  | ErrUpstreamThrottled => writeError 429 CodeTooManyRequests (Text "upstream is rate limiting this registry")
  | ErrUpstreamUnavailable => writeError 504 CodeUnknown (Text "upstream unavailable")
  | OtherServeError _ => internalError
  end.

(** ** Resolving the repository (blobs.go) *)
Definition routeToEntity (r : Request) : Prog (result Response (string * Repository)) :=
  match Split (rq_name r) with
  | Err _ => Ret (Err nameUnknown)
  | Ok (entity, _) =>
      do! found := reads_meta (λ ctx, GetRepository ctx entity) in
      match found with
      | Err (NotFound _ _) => Ret (Err nameUnknown)
      | Err _ => Ret (Err internalError)
      | Ok record => Ret (Ok (rq_name r, record))
      end
  end.

Definition hostedRepo (r : Request) : Prog (result Response string) :=
  tryE! routed := routeToEntity r in
  if negb (Writable (rp_type routed.2))
  then Ret (Err (writeError 403 CodeDenied (Text "repository does not accept client writes")))
  else Ret (Ok routed.1).

Definition knownRepo (r : Request) : Prog (result Response (string * Repository)) := routeToEntity r.

Definition parsedDigest (raw : string) : result Response string :=
  match ParseDigest raw with
  | Err reason => Err (writeError 400 CodeDigestInvalid (DigestText reason))
  | Ok digest => Ok digest
  end.

Definition blobHeaders (digest : string) (size : Z) : list (string * string) :=
  (if (0 <=? size)%Z then [("Content-Length", FormatInt size)] else []) ++
  [("Docker-Content-Digest", digest); ("Content-Type", "application/octet-stream")].

(** What [io.Copy] to the client writes before it stops. *)
Definition streamed {R} `{!Reader R} (src : R) : bytes :=
  match io_Copy src with Some (written, _, _) => written | None => [] end.

Section blobs.
Context (servers : ContentServers).

Definition statThrough (delegate : option ContentServer) (name digest : string) : Response :=
  match delegate with
  | None => nameUnknown
  | Some d =>
      match cs_Blob d name digest with
      | Err err => writeDelegateError "blob" err
      | Ok served => mkResponse 200 (blobHeaders (sb_digest served) (sb_size served)) NoBody
      end
  end.

Definition getThrough (delegate : option ContentServer) (name digest : string) : Response :=
  match delegate with
  | None => nameUnknown
  | Some d =>
      match cs_Blob d name digest with
      | Err err => writeDelegateError "blob" err
      | Ok served => mkResponse 200 (blobHeaders (sb_digest served) (sb_size served)) (Content (streamed (sb_content served)))
      end
  end.

Definition blobUnknown : Response := writeError 404 CodeBlobUnknown (Text "blob unknown to registry").

Definition stat (r : Request) : Prog Response :=
  try! known := knownRepo r in
  match parsedDigest (rq_value r "digest") with
  | Err resp => Ret resp
  | Ok digest =>
      match delegated servers (rp_type known.2) with
      | Some delegate => Ret (statThrough delegate known.1 digest)
      | None =>
          do! found := reads_meta (λ ctx, GetBlob ctx digest) in
          match found with
          | Err (NotFound _ _) => Ret blobUnknown
          | Err _ => Ret internalError
          | Ok record => Ret (mkResponse 200 (blobHeaders digest (bb_size record)) NoBody)
          end
      end
  end.

Definition get (r : Request) : Prog Response :=
  try! known := knownRepo r in
  match parsedDigest (rq_value r "digest") with
  | Err resp => Ret resp
  | Ok digest =>
      match delegated servers (rp_type known.2) with
      | Some delegate => Ret (getThrough delegate known.1 digest)
      | None =>
          do! found := reads_meta (λ ctx, GetBlob ctx digest) in
          match found with
          | Err (NotFound _ _) => Ret blobUnknown
          | Err _ => Ret internalError
          | Ok _ =>
              do! opened := reads_blobs (λ ctx, Get ctx digest) in
              match opened with
              | Err _ => Ret internalError
              | Ok reader => Ret (mkResponse 200 (blobHeaders digest (ds_size (vr_desc reader))) (Content (streamed reader)))
              end
          end
      end
  end.

Definition refuseDelete (r : Request) : Prog Response :=
  try! _known := knownRepo r in
  match parsedDigest (rq_value r "digest") with
  | Err resp => Ret resp
  | Ok _ =>
      Ret (writeErrorWith [("Allow", "GET, HEAD")] 405 CodeUnsupported
             (Text ("this registry does not delete blobs directly: unreferenced blobs are reclaimed by garbage collection, "
                    +:+ "which cannot orphan a manifest that still lists them")))
  end.
End blobs.

(** ** Uploads (uploads.go) *)
Definition uploadLocation (name id : string) : string := "/v2/" +:+ name +:+ "/blobs/uploads/" +:+ id.

Definition rangeHeader (offset : Z) : string :=
  if (offset =? 0)%Z then "0-0" else "0-" +:+ FormatInt (offset - 1).

Definition contentRangeStart (header : string) : option Z :=
  let '(start, _, found) := Cut header "-" in
  if found then ParseInt (TrimSpace start) else None.

Definition blobCreated (name digest : string) : Response :=
  mkResponse 201 [("Location", "/v2/" +:+ name +:+ "/blobs/" +:+ digest); ("Docker-Content-Digest", digest)] NoBody.

(** Sixteen random bytes in hex. *)
Definition newUploadID : Prog (option string) :=
  do! raw := random_bytes in Ret (hex_bytes <$> raw).

(** The reader that counts what [Put] consumed. *)
Record countingReader : Type := mkCountingReader { cn_r : Body; cn_n : Z }.

#[export] Instance countingReader_Reader : Reader countingReader := {|
  rd_read k c :=
    match rd_read k (cn_r c) with
    | None => None
    | Some (p, e, b) => Some (p, e, mkCountingReader b (add64 (cn_n c) (Z.of_nat (length p))))
    end;
  rd_left c := rd_left (cn_r c);
|}.

Section uploads.
Context (quota : string → Z → option string).

Definition uploadUnknown : Response := writeError 404 CodeBlobUploadUnknown (Text "blob upload unknown to registry").

Definition monolithic (r : Request) (name raw : string) : Prog Response :=
  match parsedDigest raw with
  | Err resp => Ret resp
  | Ok digest =>
      match quota name (rq_contentLength r) with
      | Some why => Ret (writeError 403 CodeDenied (QuotaText why))
      | None =>
          do! stored := calls_blobs (λ ctx s,
            match Put ctx digest (mkCountingReader (rq_body r) 0) s with
            | None => None
            | Some (res, counted, s) => Some ((res, counted), s)
            end) in
          match stored.1 with
          | Err (Mismatch e a n) => Ret (writeError 400 CodeDigestInvalid (BlobText (Mismatch e a n)))
          | Err _ => Ret internalError
          | Ok _ =>
              do! now := the_time in
              do! recorded := writes_meta (λ ctx, PutBlob ctx (mkBlob digest (cn_n stored.2) now)) in
              match recorded with
              | Err _ => Ret internalError
              | Ok _ => Ret (blobCreated name digest)
              end
          end
      end
  end.

(** [Some] response when the mount was answered. *)
Definition mount (r : Request) (name rawDigest from : string) : Prog (option Response) :=
  match ParseDigest rawDigest, Authz.Repository from, rq_subject r with
  | Ok digest, Ok source, Some subject =>
      do! bindings := the_bindings (as_name subject) in
      match bindings with
      | Err _ => Ret None
      | Ok bindings =>
          if negb (Allows bindings RepoRead source) then Ret None
          else match Split from with
          | Err _ => Ret None
          | Ok (sourceEntity, _) =>
              do! entity := reads_meta (λ ctx, GetRepository ctx sourceEntity) in
              match entity with
              | Err _ => Ret None
              | Ok _ =>
                  do! found := reads_meta (λ ctx, GetBlob ctx digest) in
                  match found with
                  | Err _ => Ret None
                  | Ok _ => Ret (Some (blobCreated name digest))
                  end
              end
          end
      end
  | _, _, _ => Ret None
  end.

(** The rest of [start], once no mount answered. *)
Definition open_session (r : Request) (name : string) : Prog Response :=
  match quota name (rq_contentLength r) with
  | Some why => Ret (writeError 403 CodeDenied (QuotaText why))
  | None =>
      do! minted := newUploadID in
      match minted with
      | None => Ret internalError
      | Some id =>
          do! now := the_time in
          do! recorded := writes_meta (λ ctx, Memory.CreateUpload ctx (mkUpload id name "" 0 now now)) in
          match recorded with
          | Err _ => Ret internalError
          | Ok _ =>
              do! opened := calls_blobs (λ ctx s,
                match BlobStore.CreateUpload ctx id s with
                | Ok (a, s') => Some (Ok a, s')
                | Err e => Some (Err e, s)
                end) in
              match opened with
              | Err _ =>
                  do! _cleared := writes_meta (λ ctx, DeleteUpload ctx id) in Ret internalError
              | Ok _ =>
                  Ret (mkResponse 202 [("Location", uploadLocation name id); ("Range", "0-0"); ("Docker-Upload-UUID", id)] NoBody)
              end
          end
      end
  end.

Definition start (r : Request) : Prog Response :=
  try! name := hostedRepo r in
  if negb (String.eqb (rq_query r "digest") "") then monolithic r name (rq_query r "digest")
  else if negb (String.eqb (rq_query r "mount") "") then
    do! mounted := mount r name (rq_query r "mount") (rq_query r "from") in
    match mounted with
    | Some resp => Ret resp
    | None => open_session r name
    end
  else open_session r name.

(** The address of the session and its identifier. *)
Definition openSession (r : Request) (name : string) : Prog (result Response (nat * string)) :=
  let id := rq_value r "id" in
  if negb (ValidateUploadID id) then Ret (Err uploadUnknown)
  else
    do! row := reads_meta (λ ctx, GetUpload ctx id) in
    match row with
    | Err (NotFound _ _) => Ret (Err uploadUnknown)
    | Err _ => Ret (Err internalError)
    | Ok row =>
        if negb (String.eqb (up_repository row) name) then Ret (Err uploadUnknown)
        else
          do! session := reads_blobs (λ ctx, OpenUpload ctx id) in
          match session with
          | Err (BlobNotFound _ _) => Ret (Err uploadUnknown)
          | Err _ => Ret (Err internalError)
          | Ok a => Ret (Ok (a, id))
          end
    end.

(** A chunk that states where it starts must start where the session ends. The
    response of a mismatch reads the offset again, twice. *)
Definition check_range (r : Request) (a : nat) : Prog (result Response unit) :=
  let header := rq_header r "Content-Range" in
  if String.eqb header "" then Ret (Ok tt)
  else
    let refuse : Prog (result Response unit) :=
      do! offset := reads_blobs (λ _, Offset a) in
      do! stated := reads_blobs (λ _, Offset a) in
      Ret (Err (writeErrorWith [("Range", rangeHeader offset)] 416 CodeBlobUploadInvalid (OffsetText stated))) in
    match contentRangeStart header with
    | None => refuse
    | Some start =>
        do! offset := reads_blobs (λ _, Offset a) in
        if (start =? offset)%Z then Ret (Ok tt) else refuse
    end.

Definition write_body (r : Request) (a : nat) : Prog (Z * option BlobError) :=
  calls_blobs (λ ctx s, match Write ctx (rq_body r) a s with None => None | Some (off, e, s) => Some ((off, e), s) end).

Definition patch (r : Request) : Prog Response :=
  try! name := hostedRepo r in
  try! session := openSession r name in
  try! _ok := check_range r session.1 in
  match quota name (rq_contentLength r) with
  | Some why => Ret (writeError 403 CodeDenied (QuotaText why))
  | None =>
      do! written := write_body r session.1 in
      match written.2 with
      | Some _ => Ret internalError
      | None =>
          do! now := the_time in
          do! updated := writes_meta (λ ctx, UpdateUpload ctx session.2 written.1 now) in
          match updated with
          | Err _ => Ret internalError
          | Ok _ =>
              Ret (mkResponse 202 [("Location", uploadLocation name session.2); ("Range", rangeHeader written.1);
                                   ("Docker-Upload-UUID", session.2)] NoBody)
          end
      end
  end.

Definition commit (r : Request) : Prog Response :=
  try! name := hostedRepo r in
  match parsedDigest (rq_query r "digest") with
  | Err resp => Ret resp
  | Ok digest =>
      try! session := openSession r name in
      do! written := write_body r session.1 in
      match written.2 with
      | Some _ => Ret internalError
      | None =>
          do! committed := calls_blobs (λ ctx s, Some (Commit ctx digest session.1 s)) in
          match committed with
          | Err (Mismatch e a n) =>
              do! _cleared := writes_meta (λ ctx, DeleteUpload ctx session.2) in
              Ret (writeError 400 CodeDigestInvalid (BlobText (Mismatch e a n)))
          | Err _ => Ret internalError
          | Ok desc =>
              do! now := the_time in
              do! recorded := writes_meta (λ ctx, PutBlob ctx (mkBlob digest (ds_size desc) now)) in
              match recorded with
              | Err _ => Ret internalError
              | Ok _ =>
                  do! _cleared := writes_meta (λ ctx, DeleteUpload ctx session.2) in
                  Ret (blobCreated name digest)
              end
          end
      end
  end.

Definition status (r : Request) : Prog Response :=
  try! name := hostedRepo r in
  try! session := openSession r name in
  do! offset := reads_blobs (λ _, Offset session.1) in
  Ret (mkResponse 204 [("Location", uploadLocation name session.2); ("Range", rangeHeader offset);
                       ("Docker-Upload-UUID", session.2)] NoBody).

Definition cancel (r : Request) : Prog Response :=
  try! name := hostedRepo r in
  try! session := openSession r name in
  do! cancelled := calls_blobs (λ ctx s,
    match Cancel ctx session.1 s with Ok s' => Some (Ok tt, s') | Err e => Some (Err e, s) end) in
  match cancelled : result BlobError unit with
  | Err _ => Ret internalError
  | Ok _ =>
      do! _cleared := writes_meta (λ ctx, DeleteUpload ctx session.2) in
      Ret (mkResponse 204 [] NoBody)
  end.
End uploads.

(** ** The reaper of abandoned sessions (upload_reaper.go) *)
Definition DefaultUploadSessionTTL : Z := (24 * 3600 * 1000000000)%Z.
Definition uploadReapBatch : Z := 256.

Inductive ReapError : Type := ReapCanceled | ReapMeta (e : MetaError) | ReapBlob (e : BlobError).

Definition reaper_ttl (ttl : Z) : Z := if (ttl <=? 0)%Z then DefaultUploadSessionTTL else ttl.

Definition cancelStaging (id : string) : Prog (option ReapError) :=
  do! staged := reads_blobs (λ ctx, OpenUpload ctx id) in
  match staged with
  | Err (BlobNotFound _ _) => Ret None
  | Err e => Ret (Some (ReapBlob e))
  | Ok a =>
      do! cancelled := calls_blobs (λ ctx s,
        match Cancel ctx a s with Ok s' => Some (Ok tt, s') | Err e => Some (Err e, s) end) in
      match cancelled : result BlobError unit with
      | Ok _ | Err (BlobNotFound _ _) => Ret None
      | Err e => Ret (Some (ReapBlob e))
      end
  end.

Definition reap (session : UploadSession) : Prog (option ReapError) :=
  do! failed := cancelStaging (up_id session) in
  match failed with
  | Some e => Ret (Some e)
  | None =>
      do! deleted := writes_meta (λ ctx, DeleteUpload ctx (up_id session)) in
      match deleted with
      | Ok _ | Err (NotFound _ _) => Ret None
      | Err e => Ret (Some (ReapMeta e))
      end
  end.

(** One page: how many were collected, and what failed. *)
Fixpoint reap_batch (batch : list UploadSession) (collected : nat) (errs : list ReapError) : Prog (nat * list ReapError) :=
  match batch with
  | [] => Ret (collected, errs)
  | session :: batch =>
      do! failed := reap session in
      match failed with
      | Some e => reap_batch batch collected (errs ++ [e])
      | None => reap_batch batch (S collected) errs
      end
  end.

(** The loop over pages; [None] is running out of [fuel] of them. The context is
    looked at before each. *)
Fixpoint reap_loop (fuel : nat) (cutoff : Z) (reaped : nat) (errs : list ReapError) : Prog (option (nat * list ReapError)) :=
  match fuel with
  | O => Ret None
  | S fuel =>
      do! cancelled := reads_blobs (λ ctx _, ctx) in
      if cancelled : bool then Ret (Some (reaped, errs ++ [ReapCanceled]))
      else
        do! listed := reads_meta (λ ctx, ListStaleUploads ctx cutoff uploadReapBatch) in
        match listed with
        | Err e => Ret (Some (reaped, errs ++ [ReapMeta e]))
        | Ok batch =>
            do! done := reap_batch batch 0 errs in
            let reaped := reaped + done.1 in
            if (Z.of_nat (length batch) <? uploadReapBatch)%Z || (done.1 =? 0) then Ret (Some (reaped, done.2))
            else reap_loop fuel cutoff reaped done.2
        end
  end.

Definition ReapOnce (fuel : nat) (ttl : Z) : Prog (option (nat * list ReapError)) :=
  do! now := the_time in reap_loop fuel (now - reaper_ttl ttl)%Z 0 [].
