(* ===== verification/Manifests.v ===== *)
(** * Manifests, tags, referrers and the catalog
    (src/internal/registry: manifests.go, hosted.go, tags.go, referrers.go, catalog.go, and
    manifestThrough of dispatch.go)

    The manifest routes of the distribution API as programs over the stores. The
    two decoders of a manifest payload, the annotations decoder, the size limit,
    the delegates and whether pulls are recorded are the handler's configuration. *)
From S2P Require Import Prelude RepoName Digest Sha2 Verify GoStrings Authz Meta Group Memory Identity Guard BlobStore Artifact Http Uploads.

(** ** References *)
Definition DefaultManifestMaxBytes : Z := 4 * 2 ^ 20.

Definition tag_first (c : ascii) : bool :=
  in_range "a" "z" c || in_range "A" "Z" c || in_range "0" "9" c || Ascii.eqb c "_".
Definition tag_rest (c : ascii) : bool := tag_first c || Ascii.eqb c "." || Ascii.eqb c "-".

(** [tagPattern]: a first byte and up to 127 more. *)
Definition tagPattern (s : string) : bool :=
  match s with
  | EmptyString => false
  | String c rest => tag_first c && all_bytes tag_rest rest && (String.length rest <=? 127)
  end.

Definition isDigestReference (reference : string) : bool := ContainsByte reference ":".

(** The digest of a stored payload. *)
Definition payload_digest (algo payload : string) : option string := FromBytes algo (String.list_ascii_of_string payload).

(** ** Reading a hosted manifest (hosted.go) *)
Inductive HostedError : Type :=
| HostedUnknown                                  (* ErrContentUnknown *)
| Unparseable (reason : DigestError)             (* errUnparseableDigest *)
| Drift                                          (* errManifestDrift *)
| HostedFailed (e : MetaError).

Definition drifted (record : Meta.Manifest) : bool :=
  match ParseDigest (mf_digest record) with
  | Err _ => true
  | Ok stored => negb (bool_decide (payload_digest (Digest_Algorithm stored) (mf_payload record) = Some stored))
  end.

(** The digest a reference names. *)
Definition reference_digest (name reference : string) : Prog (result HostedError string) :=
  if isDigestReference reference then
    match ParseDigest reference with
    | Err reason => Ret (Err (Unparseable reason))
    | Ok digest => Ret (Ok digest)
    end
  else if negb (tagPattern reference) then Ret (Err HostedUnknown)
  else
    do! tag := reads_meta (λ ctx, GetTag ctx name reference) in
    match tag with
    | Err (NotFound _ _) => Ret (Err HostedUnknown)
    | Err e => Ret (Err (HostedFailed e))
    | Ok tag => Ret (Ok (tg_digest tag))
    end.

Definition resolveHostedManifest (name reference : string) : Prog (result HostedError Meta.Manifest) :=
  do! digest := reference_digest name reference in
  match digest with
  | Err e => Ret (Err e)
  | Ok digest =>
      do! found := reads_meta (λ ctx, GetManifest ctx name digest) in
      match found with
      | Err (NotFound _ _) => Ret (Err (if isDigestReference reference then HostedUnknown else Drift))
      | Err e => Ret (Err (HostedFailed e))
      | Ok record => if drifted record then Ret (Err Drift) else Ret (Ok record)
      end
  end.

(** [HostedContent]: the delegate contract over hosted storage. *)
Definition HostedContent_Manifest (name reference : string) : Prog (result ServeError ServedManifest) :=
  do! resolved := resolveHostedManifest name reference in
  match resolved with
  | Ok record => Ret (Ok (mkServedManifest (mf_digest record) (mf_mediaType record) (mf_payload record)))
  | Err (Unparseable _) | Err HostedUnknown => Ret (Err ErrContentUnknown)
  | Err Drift => Ret (Err (OtherServeError "drift"))
  | Err (HostedFailed _) => Ret (Err (OtherServeError "store"))
  end.

Definition HostedContent_Blob (digest : string) : Prog (result ServeError (verifiedReader BytesReader * Z)) :=
  do! found := reads_meta (λ ctx, GetBlob ctx digest) in
  match found with
  | Err (NotFound _ _) => Ret (Err ErrContentUnknown)
  | Err _ => Ret (Err (OtherServeError "store"))
  | Ok record =>
      do! opened := reads_blobs (λ ctx, Get ctx digest) in
      match opened with
      | Err _ => Ret (Err (OtherServeError "open"))
      | Ok reader => Ret (Ok (reader, bb_size record))
      end
  end.

(** ** The manifest handlers (manifests.go) *)
Definition writeManifestHeaders (mediaType : string) (size : Z) (digest : string) : list (string * string) :=
  [("Content-Type", mediaType); ("Content-Length", FormatInt size); ("Docker-Content-Digest", digest)].
Definition manifestHeaders (record : Meta.Manifest) : list (string * string) :=
  writeManifestHeaders (mf_mediaType record) (mf_size record) (mf_digest record).

Definition manifestUnknown : Response := writeError 404 CodeManifestUnknown (Text "manifest unknown to registry").

(** [io.LimitReader]: at most [lr_n] more bytes. *)
Record LimitedBody : Type := mkLimitedBody { lr_r : Body; lr_n : nat }.

#[export] Instance LimitedBody_Reader : Reader LimitedBody := {|
  rd_read k l :=
    match lr_n l with
    | O => Some ([], Some EOF, l)
    | n =>
        match rd_read (Nat.min k n) (lr_r l) with
        | None => None
        | Some (c, e, b) => Some (c, e, mkLimitedBody b (n - length c))
        end
    end;
  rd_left l := rd_left (lr_r l);
|}.

Section manifests.
Context (ParseMediaType : string → option string) (Unmarshal : string → option wireManifest).
Context (maxBytes : Z) (records_pulls : bool) (servers : ContentServers).

Definition limit : Z := if (maxBytes <=? 0)%Z then DefaultManifestMaxBytes else maxBytes.

(** Checking one blob descriptor: nothing to record for an external one. *)
Definition blobDescriptor (kind : string) (desc : Artifact.Descriptor) (refs : list ManifestRef)
    : Prog (result Response (list ManifestRef)) :=
  if de_external desc then Ret (Ok refs)
  else
    do! found := reads_meta (λ ctx, GetBlob ctx (de_digest desc)) in
    match found with
    | Err (NotFound _ _) => Ret (Err (writeError 404 CodeManifestBlobUnknown (UnknownReference (de_digest desc))))
    | Err _ => Ret (Err internalError)
    | Ok record =>
        if negb (bb_size record =? de_size desc)%Z
        then Ret (Err (writeError 400 CodeManifestInvalid (WrongSize (de_digest desc) (de_size desc) (bb_size record))))
        else Ret (Ok (refs ++ [mkManifestRef (de_digest desc) kind]))
    end.

Fixpoint verify_layers (layers : list Artifact.Descriptor) (refs : list ManifestRef) : Prog (result Response (list ManifestRef)) :=
  match layers with
  | [] => Ret (Ok refs)
  | layer :: layers => tryE! refs := blobDescriptor RefLayer layer refs in verify_layers layers refs
  end.

Fixpoint verify_children (name : string) (children : list Artifact.Descriptor) (refs : list ManifestRef)
    : Prog (result Response (list ManifestRef)) :=
  match children with
  | [] => Ret (Ok refs)
  | child :: children =>
      do! found := reads_meta (λ ctx, GetManifest ctx name (de_digest child)) in
      match found with
      | Err (NotFound _ _) => Ret (Err (writeError 404 CodeManifestBlobUnknown (UnknownReference (de_digest child))))
      | Err _ => Ret (Err internalError)
      | Ok record =>
          if negb (mf_size record =? de_size child)%Z
          then Ret (Err (writeError 400 CodeManifestInvalid (WrongSize (de_digest child) (de_size child) (mf_size record))))
          else verify_children name children (refs ++ [mkManifestRef (de_digest child) RefChild])
      end
  end.

Definition verifyReferences (name : string) (parsed : Artifact.Manifest) : Prog (result Response (list ManifestRef)) :=
  tryE! refs := match am_config parsed with
                | Some config => blobDescriptor RefConfig config []
                | None => Ret (Ok [])
                end in
  tryE! refs := verify_layers (am_layers parsed) refs in
  tryE! refs := verify_children name (am_children parsed) refs in
  Ret (Ok (refs ++ match am_subject parsed with
                   | Some subject => [mkManifestRef (de_digest subject) RefSubject]
                   | None => []
                   end)).

(** The reference of a push: a digest, or a tag ([None]). *)
Definition put_reference (reference : string) : result Response (option string) :=
  if isDigestReference reference then
    match parsedDigest reference with
    | Err resp => Err resp
    | Ok digest => Ok (Some digest)
    end
  else if tagPattern reference then Ok None
  else Err (writeError 400 CodeManifestInvalid (InvalidTag reference)).

(** The algorithm of the stored digest: the reference's, when it is one. *)
Definition put_algorithm (byDigest : option string) : string :=
  match byDigest with Some d => Digest_Algorithm d | None => SHA256 end.

(** [io.ReadAll] of the body cut at one byte over the limit. *)
Definition read_payload (body : Body) : option (bytes * option ReadError) :=
  match io_Copy (mkLimitedBody body (Z.to_nat (add64 limit 1))) with
  | Some (payload, e, _) => Some (payload, e)
  | None => None
  end.

Definition put (r : Request) : Prog Response :=
  try! name := hostedRepo r in
  let reference := rq_value r "reference" in
  match put_reference reference with
  | Err resp => Ret resp
  | Ok byDigest =>
      match read_payload (rq_body r) with
      | None | Some (_, Some _) => Ret internalError
      | Some (raw, None) =>
          if (limit <? Z.of_nat (length raw))%Z then Ret (writeError 400 CodeManifestInvalid (TooLarge limit))
          else
            let payload := String.string_of_list_ascii raw in
            match Parse ParseMediaType Unmarshal (rq_header r "Content-Type") payload with
            | Err e => Ret (writeError 400 CodeManifestInvalid (ManifestText e))
            | Ok parsed =>
                let digest := default "" (FromBytes (put_algorithm byDigest) raw) in
                if match byDigest with Some d => negb (String.eqb digest d) | None => false end
                then Ret (writeError 400 CodeDigestInvalid (Text "manifest payload does not match the digest reference"))
                else
                  try! refs := verifyReferences name parsed in
                  do! now := the_time in
                  let record := Meta.mkManifest name digest (am_mediaType parsed) (am_artifactType parsed)
                    (match am_subject parsed with Some s => de_digest s | None => "" end)
                    payload (int64 (Z.of_nat (length raw))) now in
                  do! stored := writes_meta (λ ctx, PutManifest ctx record refs) in
                  match stored with
                  | Err (NotFound _ _) => Ret nameUnknown
                  | Err _ => Ret internalError
                  | Ok _ =>
                      let created := Ret (mkResponse 201
                        ([("Location", "/v2/" +:+ name +:+ "/manifests/" +:+ digest); ("Docker-Content-Digest", digest)] ++
                         match am_subject parsed with Some s => [("OCI-Subject", de_digest s)] | None => [] end) NoBody) in
                      match byDigest with
                      | Some _ => created
                      | None =>
                          do! now := the_time in
                          do! pointed := writes_meta (λ ctx, PutTag ctx (mkTag name reference digest now now)) in
                          match pointed with
                          | Err _ => Ret internalError
                          | Ok _ => created
                          end
                      end
                  end
            end
      end
  end.

Definition resolve (r : Request) (name : string) : Prog (result Response Meta.Manifest) :=
  do! resolved := resolveHostedManifest name (rq_value r "reference") in
  match resolved with
  | Ok record => Ret (Ok record)
  | Err (Unparseable reason) => Ret (Err (writeError 400 CodeDigestInvalid (DigestText reason)))
  | Err HostedUnknown => Ret (Err manifestUnknown)
  | Err Drift | Err (HostedFailed _) => Ret (Err internalError)
  end.

(** Handing an observation to the recorder, when there is one. *)
Definition record_pull {A} (name reference : string) (k : Prog A) : Prog A :=
  if records_pulls then PullCall name reference k else k.

Definition manifestThrough (delegate : option ContentServer) (name reference : string) (body : bool) : Prog Response :=
  match delegate with
  | None => Ret nameUnknown
  | Some d =>
      match cs_Manifest d name reference with
      | Err err => Ret (writeDelegateError "manifest" err)
      | Ok served =>
          let headers := writeManifestHeaders (sm_mediaType served)
            (Z.of_nat (String.length (sm_payload served))) (sm_digest served) in
          if body then
            record_pull name reference (Ret (mkResponse 200 headers (Content (String.list_ascii_of_string (sm_payload served)))))
          else Ret (mkResponse 200 headers NoBody)
      end
  end.

Definition head (r : Request) : Prog Response :=
  try! known := knownRepo r in
  match delegated servers (rp_type known.2) with
  | Some delegate => manifestThrough delegate known.1 (rq_value r "reference") false
  | None =>
      try! record := resolve r known.1 in
      Ret (mkResponse 200 (manifestHeaders record) NoBody)
  end.

Definition get_manifest (r : Request) : Prog Response :=
  try! known := knownRepo r in
  match delegated servers (rp_type known.2) with
  | Some delegate => manifestThrough delegate known.1 (rq_value r "reference") true
  | None =>
      try! record := resolve r known.1 in
      record_pull known.1 (rq_value r "reference")
        (Ret (mkResponse 200 (manifestHeaders record) (Content (String.list_ascii_of_string (mf_payload record)))))
  end.

(** *** Deleting a manifest and what is attached to it *)

(** One level: the digests attached to [current] not seen before, in order. *)
Fixpoint next_level (name : string) (current : list string) (seen : gset string) (next : list string)
    : Prog (result Response (gset string * list string)) :=
  match current with
  | [] => Ret (Ok (seen, next))
  | digest :: current =>
      do! referrers := reads_meta (λ ctx, ListReferrers ctx name digest "") in
      match referrers with
      | Err _ => Ret (Err internalError)
      | Ok referrers =>
          let '(seen, next) := foldl (λ '(seen, next) (m : Meta.Manifest),
            if bool_decide (mf_digest m ∈ seen) then (seen, next)
            else ({[mf_digest m]} ∪ seen, next ++ [mf_digest m])) (seen, next) referrers in
          next_level name current seen next
      end
  end.

(** The loop over levels; [None] is running out of [fuel] of them. *)
Fixpoint collect_levels (fuel : nat) (name : string) (current : list string) (seen : gset string) (levels : list (list string))
    : Prog (result Response (option (list (list string)))) :=
  match current with
  | [] => Ret (Ok (Some levels))
  | _ =>
      match fuel with
      | O => Ret (Ok None)
      | S fuel =>
          tryE! level := next_level name current seen [] in
          let '(seen, next) := level in
          collect_levels fuel name next seen (match next with [] => levels | _ => levels ++ [next] end)
      end
  end.

Definition collectReferrerTree (fuel : nat) (name subject : string) : Prog (result Response (option (list (list string)))) :=
  collect_levels fuel name [subject] {[subject]} [[subject]].

Fixpoint refuse_members (name : string) (inTree : list string) (members : list string) : Prog (result Response unit) :=
  match members with
  | [] => Ret (Ok tt)
  | member :: members =>
      do! parents := reads_meta (λ ctx, ListIndexParents ctx name member) in
      match parents with
      | Err _ => Ret (Err internalError)
      | Ok parents =>
          match filter (λ p, p ∉ inTree) parents with
          | [] => refuse_members name inTree members
          | outside => Ret (Err (writeError 403 CodeDenied (IndexedBy member outside)))
          end
      end
  end.

Definition refuseIfIndexed (name : string) (levels : list (list string)) : Prog (result Response unit) :=
  refuse_members name (concat levels) (concat levels).

Fixpoint delete_members (name : string) (members : list string) : Prog Response :=
  match members with
  | [] => Ret (mkResponse 202 [] NoBody)
  | member :: members =>
      do! deleted := writes_meta (λ ctx, DeleteManifest ctx name member) in
      match deleted with
      | Ok _ | Err (NotFound _ _) => delete_members name members
      | Err (Referenced kind id by_) => Ret (writeError 403 CodeDenied (ReferencedText (Referenced kind id by_)))
      | Err _ => Ret internalError
      end
  end.

(** Deepest level first. [fuel] bounds the levels of the tree; with more of it than
    there are manifests it never runs out, and the internal error for that case is
    not reached. *)
Definition delete_ (fuel : nat) (r : Request) : Prog Response :=
  try! name := hostedRepo r in
  match parsedDigest (rq_value r "reference") with
  | Err resp => Ret resp
  | Ok digest =>
      do! found := reads_meta (λ ctx, GetManifest ctx name digest) in
      match found with
      | Err (NotFound _ _) => Ret manifestUnknown
      | Err _ => Ret internalError
      | Ok _ =>
          try! collected := collectReferrerTree fuel name digest in
          match collected with
          | None => Ret internalError
          | Some levels =>
              try! _clear := refuseIfIndexed name levels in
              delete_members name (concat (reverse levels))
          end
      end
  end.

Definition deleteTag (r : Request) : Prog Response :=
  try! name := hostedRepo r in
  let tag := rq_value r "reference" in
  if negb (tagPattern tag) then Ret manifestUnknown
  else
    do! deleted := writes_meta (λ ctx, DeleteTag ctx name tag) in
    match deleted with
    | Err (NotFound _ _) => Ret manifestUnknown
    | Err _ => Ret internalError
    | Ok _ => Ret (mkResponse 202 [] NoBody)
    end.
End manifests.

(** ** Tags (tags.go) *)

(** The page size a query asks for; [None] for one that is refused. *)
Definition pageSize (raw : string) : option Z :=
  if String.eqb raw "" then Some 0%Z
  else match ParseInt raw with
  | Some n => if (n <? 0)%Z then None else Some n
  | None => None
  end.

Definition tagPageSize (r : Request) : result Response Z :=
  match pageSize (rq_query r "n") with
  | Some n => Ok n
  | None => Err (writeError 400 CodeUnsupported (BadPageSize (rq_query r "n")))
  end.

Definition page_query (cursor : string) (limit : Z) : string :=
  encode_values (("last", cursor) :: if (0 <? limit)%Z then [("n", FormatInt limit)] else []).

Definition relNext : string := ">; rel=" +:+ quote +:+ "next" +:+ quote.

Definition tagPageLink (name cursor : string) (limit : Z) : string :=
  "</v2/" +:+ name +:+ "/tags/list?" +:+ page_query cursor limit +:+ relNext.

(** The name of the request's subject; outside a guarded route, no name. *)
Definition subject_name (r : Request) : string :=
  match rq_subject r with Some subject => as_name subject | None => "" end.

Definition list_tags (r : Request) : Prog Response :=
  try! known := knownRepo r in
  match tagPageSize r with
  | Err resp => Ret resp
  | Ok limit =>
      do! bindings := the_bindings (subject_name r) in
      match bindings with
      | Err _ => Ret internalError
      | Ok bindings =>
          do! page := reads_meta (λ ctx, ListTags ctx known.1
            (mkListOptions (VisibilityFor bindings RepoRead) limit (rq_query r "last"))) in
          match page with
          | Err (NotFound _ _) => Ret nameUnknown
          | Err _ => Ret internalError
          | Ok (tags, next) =>
              Ret (mkResponse 200
                ((if String.eqb next "" then [] else [("Link", tagPageLink known.1 next limit)]) ++
                 [("Content-Type", "application/json")]) (TagList known.1 (tg_name <$> tags)))
          end
      end
  end.

(** ** Referrers (referrers.go) *)
Section referrers.
(** The annotations of a payload, decoded; [None] for one that does not parse or
    has none. *)
Context (annotations : string → option (list (string * string))).

Definition readsSubjectRepository (r : Request) (name : string) : Prog (result Response unit) :=
  do! bindings := the_bindings (subject_name r) in
  match bindings with
  | Err _ => Ret (Err internalError)
  | Ok bindings =>
      match Authz.Repository name with
      | Err _ => Ret (Err nameUnknown)
      | Ok resource => if Allows bindings RepoRead resource then Ret (Ok tt) else Ret (Err nameUnknown)
      end
  end.

Definition referrer_of (row : Meta.Manifest) : referrerDescriptor :=
  mkReferrer (mf_mediaType row) (mf_digest row) (mf_size row) (mf_artifactType row) (annotations (mf_payload row)).

Definition list_referrers (r : Request) : Prog Response :=
  try! known := knownRepo r in
  try! _may := readsSubjectRepository r known.1 in
  match parsedDigest (rq_value r "digest") with
  | Err resp => Ret resp
  | Ok digest =>
      let artifactType := rq_query r "artifactType" in
      do! rows := reads_meta (λ ctx, ListReferrers ctx known.1 digest artifactType) in
      match rows with
      | Err _ => Ret internalError
      | Ok rows =>
          Ret (mkResponse 200
            (("Content-Type", MediaTypeOCIIndex) :: if String.eqb artifactType "" then [] else [("OCI-Filters-Applied", "artifactType")])
            (ReferrerIndex MediaTypeOCIIndex (referrer_of <$> rows)))
      end
  end.
End referrers.

(** ** The catalog (catalog.go) *)
Definition catalogPageSize (raw : string) : result Response Z :=
  match pageSize raw with
  | Some n => Ok n
  | None => Err (writeError 400 CodeUnsupported (Text "the n parameter must be a non-negative integer"))
  end.

Definition catalogNextLink (cursor : string) (limit : Z) : string :=
  "</v2/_catalog?" +:+ page_query cursor limit +:+ relNext.

Definition catalog (r : Request) : Prog Response :=
  match rq_visibility r with
  | None => Ret internalError
  | Some visibility =>
      match catalogPageSize (rq_query r "n") with
      | Err resp => Ret resp
      | Ok limit =>
          do! page := reads_meta (λ ctx, ListContentNames ctx (mkListOptions visibility limit (rq_query r "last"))) in
          match page with
          | Err _ => Ret internalError
          | Ok (names, next) =>
              Ret (mkResponse 200
                ((if String.eqb next "" then [] else [("Link", catalogNextLink next limit)]) ++
                 [("Content-Type", "application/json")]) (CatalogList names))
          end
      end
  end.
