(* ===== verification/RegistryInv.v ===== *)
(** * What concurrent requests keep true of the stores

    An invariant of the two stores together, and a relation every call of every
    handler respects (nothing stored disappears). [wp] is what a program does
    when any other well-behaved call may happen between two of its own: the
    invariant and the relation are what it may rely on and what it must keep. *)
From S2P Require Import Prelude RepoName Digest Sha2 Verify VerifySpec GoStrings Authz Meta Group Memory MemoryInv Identity Guard.
From S2P Require Import BlobStore BlobStoreSpec Artifact Http Uploads Manifests.

(** ** The invariant *)

(** A blob row has bytes behind it, and its size is that of content of the digest. *)
Definition rows_backed (s : Memory.Store) (b : BlobStore.Store) : Prop :=
  ∀ d row, Memory.blobs s !! d = Some row →
    bb_digest row = d ∧ is_Some (BlobStore.blobs b !! d) ∧
    ∃ content, hashes_to d content ∧ bb_size row = int64 (Z.of_nat (length content)).

(** A stored manifest is filed under the digest and the size of its payload. *)
Definition manifests_hashed (s : Memory.Store) : Prop :=
  ∀ repo d m, get2 (manifests s) repo d = Some m →
    mf_repository m = repo ∧ mf_digest m = d ∧ Digest_Validate d = Ok tt ∧
    payload_digest (Digest_Algorithm d) (mf_payload m) = Some d ∧
    mf_size m = int64 (Z.of_nat (String.length (mf_payload m))).

(** Every config and layer a stored manifest records is a blob row. *)
Definition blob_edge (e : ManifestRef) : Prop := ref_kind e = RefConfig ∨ ref_kind e = RefLayer.
Definition edges_backed (s : Memory.Store) : Prop :=
  ∀ repo d edges e, get2 (refs s) repo d = Some edges → e ∈ edges → blob_edge e → is_Some (Memory.blobs s !! ref_child e).

Definition inv (w : World) : Prop :=
  BlobStoreSpec.wf (w_blobs w) ∧ rows_backed (w_meta w) (w_blobs w) ∧ manifests_hashed (w_meta w) ∧ edges_backed (w_meta w).

(** ** The relation: stored bytes and blob rows stay *)
Definition extends (w w' : World) : Prop :=
  (∀ d, is_Some (BlobStore.blobs (w_blobs w) !! d) → is_Some (BlobStore.blobs (w_blobs w') !! d)) ∧
  (∀ d row, Memory.blobs (w_meta w) !! d = Some row → Memory.blobs (w_meta w') !! d = Some row).

#[export] Instance extends_preorder : PreOrder extends.
Proof. split; [done|]. intros w1 w2 w3 [H1 H2] [H3 H4]. split; eauto. Qed.

(** ** Programs beside others *)
Fixpoint wp {A} (p : Prog A) (w : World) (Q : A → World → Prop) : Prop :=
  match p with
  | Ret a => Q a w
  | MetaCall op k =>
      ∀ w' ctx, inv w' → extends w w' →
        match op ctx (w_meta w') with
        | Ok (s, b) => inv (set_meta s w') ∧ extends w' (set_meta s w') ∧ wp (k (Ok b)) (set_meta s w') Q
        | Err e => wp (k (Err e)) w' Q
        end
  | BlobCall op k =>
      ∀ w' ctx, inv w' → extends w w' →
        match op ctx (w_blobs w') with
        | Some (b, s) => inv (set_blobs s w') ∧ extends w' (set_blobs s w') ∧ wp (k b) (set_blobs s w') Q
        | None => True
        end
  | BindingsCall _ k => ∀ answer, wp (k answer) w Q
  | NowCall k => ∀ t, wp (k t) w Q
  | RandCall k => ∀ b, wp (k b) w Q
  | PullCall name reference k => wp k (add_pull (name, reference) w) Q
  end.

(** An assertion about a result that other calls cannot break. *)
Definition stable {A} (Q : A → World → Prop) : Prop := ∀ a w w', extends w w' → Q a w → Q a w'.

Lemma wp_extends {A} (p : Prog A) w w' Q : stable Q → extends w w' → wp p w Q → wp p w' Q.
Proof.
  intros HQ. revert w w'. induction p as [a|B op k IH|B op k IH|subject k IH|k IH|k IH|name reference k IH]; intros w w' He Hp; simpl in *.
  - by eapply HQ.
  - intros w'' ctx Hi He'. apply Hp; [done|]. by transitivity w'.
  - intros w'' ctx Hi He'. apply Hp; [done|]. by transitivity w'.
  - intros answer. eapply IH; [done|]. apply Hp.
  - intros t. eapply IH; [done|]. apply Hp.
  - intros b. eapply IH; [done|]. apply Hp.
  - eapply IH; [|exact Hp]. exact He.
Qed.

Lemma wp_impl {A} (p : Prog A) w (Q Q' : A → World → Prop) : (∀ a w, Q a w → Q' a w) → wp p w Q → wp p w Q'.
Proof.
  intros HQ. revert w. induction p as [a|B op k IH|B op k IH|subject k IH|k IH|k IH|name reference k IH]; intros w Hp; simpl in *; auto.
  - intros w' ctx Hi He. specialize (Hp w' ctx Hi He). destruct (op ctx (w_meta w')) as [[s b]|e]; naive_solver.
  - intros w' ctx Hi He. specialize (Hp w' ctx Hi He). destruct (op ctx (w_blobs w')) as [[b s]|]; naive_solver.
Qed.

Lemma wp_bind {A B} (p : Prog A) (f : A → Prog B) w Q :
  wp p w (λ a w', wp (f a) w' Q) → wp (prog_bind p f) w Q.
Proof.
  revert w. induction p as [a|C op k IH|C op k IH|subject k IH|k IH|k IH|name reference k IH]; intros w Hp; simpl in *; auto.
  - intros w' ctx Hi He. specialize (Hp w' ctx Hi He). destruct (op ctx (w_meta w')) as [[s b]|e]; naive_solver.
  - intros w' ctx Hi He. specialize (Hp w' ctx Hi He). destruct (op ctx (w_blobs w')) as [[b s]|]; naive_solver.
Qed.

(** Reading leaves the world as it was found. *)
Lemma wp_reads_meta {B} (op : bool → Memory.Store → result MetaError B) w Q :
  (∀ w' ctx, inv w' → extends w w' → Q (op ctx (w_meta w')) w') → wp (reads_meta op) w Q.
Proof.
  intros H w' ctx Hi He. simpl. specialize (H w' ctx Hi He). destruct (op ctx (w_meta w')); simpl; [|done].
  assert (set_meta (w_meta w') w' = w') as -> by by destruct w'. done.
Qed.

Lemma wp_reads_blobs {B} (op : bool → BlobStore.Store → B) w Q :
  (∀ w' ctx, inv w' → extends w w' → Q (op ctx (w_blobs w')) w') → wp (reads_blobs op) w Q.
Proof.
  intros H w' ctx Hi He. simpl. specialize (H w' ctx Hi He).
  assert (set_blobs (w_blobs w') w' = w') as -> by by destruct w'. done.
Qed.

(** A write of the metadata store: what it must keep, and what is known after. *)
Lemma wp_writes_meta (op : bool → Memory.Store → result MetaError Memory.Store) w Q :
  (∀ w' ctx, inv w' → extends w w' →
    match op ctx (w_meta w') with
    | Ok s => inv (set_meta s w') ∧ extends w' (set_meta s w') ∧ Q (Ok tt) (set_meta s w')
    | Err e => Q (Err e) w'
    end) → wp (writes_meta op) w Q.
Proof. intros H w' ctx Hi He. specialize (H w' ctx Hi He). simpl. by destruct (op ctx (w_meta w')). Qed.

Lemma wp_calls_blobs {B} (op : bool → BlobStore.Store → option (B * BlobStore.Store)) w Q :
  (∀ w' ctx, inv w' → extends w w' →
    match op ctx (w_blobs w') with
    | Some (b, s) => inv (set_blobs s w') ∧ extends w' (set_blobs s w') ∧ Q b (set_blobs s w')
    | None => True
    end) → wp (calls_blobs op) w Q.
Proof. intros H. exact H. Qed.

(** ** The pool *)
Lemma call_step_wp {A} (p p' : Prog A) w w' Q :
  call_step p w p' w' → inv w → wp p w Q → inv w' ∧ extends w w' ∧ wp p' w' Q.
Proof.
  intros Hs Hi Hp. destruct Hs; simpl in Hp.
  - specialize (Hp w ctx Hi (reflexivity w)). by rewrite H in Hp.
  - specialize (Hp w ctx Hi (reflexivity w)). by rewrite H in Hp.
  - specialize (Hp w ctx Hi (reflexivity w)). by rewrite H in Hp.
  - done.
  - done.
  - done.
  - done.
Qed.

(** Requests whose programs are safe keep the invariant, whatever the order of
    their calls. *)
Definition safe (p : Prog Response) : Prop := ∀ w, wp p w (λ _ _, True).

Lemma pool_inv (accepts : Prog Response → Prop) (Q : nat → Response → World → Prop) w ps w' ps' :
  (∀ p, accepts p → safe p) → (∀ i, stable (Q i)) → (∀ i resp w, length ps ≤ i → Q i resp w) →
  rtc (pool_step accepts) (w, ps) (w', ps') →
  inv w → (∀ i p, ps !! i = Some p → wp p w (Q i)) →
  inv w' ∧ extends w w' ∧ ∀ i p, ps' !! i = Some p → wp p w' (Q i).
Proof.
  intros Hacc HQ Hnew Hsteps. remember (w, ps) as c eqn:Hc. remember (w', ps') as c' eqn:Hc'.
  revert w ps Hc Hnew. induction Hsteps as [c|c c1 c2 Hstep Hsteps IH]; intros w ps -> Hnew Hi Hps; [by simplify_eq|].
  inv Hstep.
  - apply (IH eq_refl w (ps ++ [p])); [done| |done|].
    + intros i resp w1 Hl. apply Hnew. rewrite length_app in Hl. lia.
    + intros i q Hq. apply lookup_snoc_Some in Hq as [[_ Hq]|[-> <-]]; [by apply Hps|].
      eapply wp_impl; [|by apply Hacc]. intros resp w1 _. by apply Hnew.
  - match goal with H : ps !! i = Some p |- _ => rename H into Hp end.
    match goal with H : call_step _ _ _ _ |- _ => rename H into Hcall end.
    destruct (call_step_wp _ _ _ _ _ Hcall Hi (Hps i p Hp)) as (Hi1 & He1 & Hwp1).
    destruct (IH eq_refl _ _ eq_refl) as (? & ? & ?); [by rewrite length_insert|done| |split_and!; [done|by etransitivity|done]].
    intros j q Hq. apply list_lookup_insert_Some in Hq as [(<- & <- & _)|[_ Hq]]; [done|].
    eapply wp_extends; [apply HQ|done|by apply Hps].
Qed.

(** ** The calls handlers make *)
Section calls.
Implicit Type w : World.

(** A write that leaves blob rows, manifests and edges alone. *)
Lemma meta_frame w s :
  Memory.blobs s = Memory.blobs (w_meta w) → manifests s = manifests (w_meta w) → refs s = refs (w_meta w) →
  inv w → inv (set_meta s w) ∧ extends w (set_meta s w).
Proof.
  intros Hb Hm Hr (H1 & H2 & H3 & H4). split; [|split; [done|simpl; by rewrite Hb]]. split_and!; simpl; [done|..].
  - intros d row. rewrite Hb. apply H2.
  - intros repo d m. rewrite Hm. apply H3.
  - intros repo d edges e. rewrite Hr, Hb. apply H4.
Qed.

Lemma PutBlob_keeps w ctx d size now s content :
  inv w → is_Some (BlobStore.blobs (w_blobs w) !! d) → hashes_to d content → size = int64 (Z.of_nat (length content)) →
  PutBlob ctx (mkBlob d size now) (w_meta w) = Ok s →
  inv (set_meta s w) ∧ extends w (set_meta s w) ∧ is_Some (Memory.blobs s !! d).
Proof.
  intros (H1 & H2 & H3 & H4) Hd Hh -> H. unfold PutBlob in H. inv_result. simpl in H.
  destruct (String.eqb d ""); [done|]. destruct (_ <? 0)%Z; [done|].
  destruct (Memory.blobs (w_meta w) !! d) as [row|] eqn:E; simplify_eq.
  { assert (set_meta (w_meta w) w = w) as -> by by destruct w. split_and!; [done|done|eauto]. }
  split_and!; [split_and!; simpl|split; simpl|simpl; rewrite lookup_insert_eq; eauto]; try done.
  - intros d' row. simpl. rewrite lookup_insert_Some. intros [[<- <-]|[_ Hrow]]; [|by apply H2]. simpl. eauto.
  - intros repo d' edges e Hg He Hk. destruct (H4 repo d' edges e Hg He Hk) as [row Hrow]. simpl.
    destruct (decide (d = ref_child e)) as [<-|]; [rewrite lookup_insert_eq; eauto|]. rewrite lookup_insert_ne by done. eauto.
  - intros d' row Hrow. simpl. rewrite lookup_insert_ne; [done|]. congruence.
Qed.

Lemma PutManifest_keeps w ctx m edges s :
  inv w →
  Digest_Validate (mf_digest m) = Ok tt → payload_digest (Digest_Algorithm (mf_digest m)) (mf_payload m) = Some (mf_digest m) →
  mf_size m = int64 (Z.of_nat (String.length (mf_payload m))) →
  (∀ e, e ∈ edges → blob_edge e → is_Some (Memory.blobs (w_meta w) !! ref_child e)) →
  PutManifest ctx m edges (w_meta w) = Ok s → inv (set_meta s w) ∧ extends w (set_meta s w).
Proof.
  intros (H1 & H2 & H3 & H4) Hv Hp Hs He H. unfold PutManifest in H. inv_result.
  destruct (negb _); [done|]. destruct (String.eqb _ _); [done|]. inv_result.
  split; [|by split]. split_and!; try done; simpl.
  - intros repo d m'. simpl. rewrite get2_put2. case_decide as Hd; [|apply H3]. destruct Hd as [<- <-]. intros [= <-]. done.
  - intros repo d edges' e. simpl. rewrite get2_put2. case_decide as Hd; [intros [= <-]; apply He|].
    intros Hg. apply (H4 repo d). revert Hg. destruct (manifests (w_meta w) !! mf_repository m); [done|]. unfold get2.
    destruct (decide (mf_repository m = repo)) as [<-|]; [by rewrite lookup_insert_eq|by rewrite lookup_insert_ne].
Qed.

Lemma DeleteManifest_keeps w ctx repo d s :
  inv w → DeleteManifest ctx repo d (w_meta w) = Ok s → inv (set_meta s w) ∧ extends w (set_meta s w).
Proof.
  intros (H1 & H2 & H3 & H4) H. unfold DeleteManifest in H. inv_result.
  destruct (get2 (manifests (w_meta w)) repo d); [|done]. destruct (sort_strings _); [|done]. inv_result.
  split; [|by split]. split_and!; try done; simpl.
  - intros repo' d' m'. simpl. rewrite get2_delete2. case_decide; [done|]. apply H3.
  - intros repo' d' edges e. simpl. rewrite get2_delete2. case_decide; [done|]. apply H4.
Qed.

(** Calls of the blob store add bytes or leave them. *)
Lemma blobs_grow w b :
  inv w → BlobStoreSpec.wf b → (∀ d, is_Some (BlobStore.blobs (w_blobs w) !! d) → is_Some (BlobStore.blobs b !! d)) →
  inv (set_blobs b w) ∧ extends w (set_blobs b w).
Proof.
  intros (H1 & H2 & H3 & H4) Hb Hg. split; [|by split]. split_and!; try done. simpl.
  intros d row Hrow. destruct (H2 d row Hrow) as (? & ? & ?). eauto.
Qed.

Lemma publish_grows d content b d' :
  is_Some (BlobStore.blobs b !! d') → is_Some (BlobStore.blobs (publish d content b) !! d').
Proof. intros [c Hc]. rewrite publish_lookup, Hc. eauto. Qed.

Lemma publish_has d content b : is_Some (BlobStore.blobs (publish d content b) !! d).
Proof. rewrite publish_lookup. destruct (_ !! d); [eauto|]. rewrite decide_True by done. eauto. Qed.
End calls.

(** ** The counting reader gives what its body gives, and counts it *)
Lemma countingReader_obeys :
  read_obeys (λ _ : countingReader, True) (λ c, rd_rest (cn_r c)) (λ c, rd_end (cn_r c)).
Proof.
  intros k [b n] _ Hk. destruct (rd_law k b (body_wf b) Hk) as (c & e & b' & Hr & _ & H1 & H2 & H3 & H4 & H5 & H6).
  eexists c, e, _. cbn [rd_read countingReader_Reader cn_r]. rewrite Hr. split_and!; done.
Qed.

#[export] Instance countingReader_Laws : ReaderLaws countingReader := {| rd_law := countingReader_obeys |}.

Lemma counting_wf (c : countingReader) : rd_wf c.
Proof. exact I. Qed.

Lemma copy_loop_counts fuel dst (c : countingReader) out e c' :
  int64_range (cn_n c) → copy_loop fuel dst c = Some (out, e, c') →
  cn_n c' = add64 (cn_n c) (Z.of_nat (length out) - Z.of_nat (length dst)) ∧ int64_range (cn_n c').
Proof.
  revert dst c. induction fuel as [|fuel IH]; intros dst c Hn H; [done|]. cbn [copy_loop] in H.
  cbn [rd_read countingReader_Reader] in H. destruct (rd_read copyBuffer (cn_r c)) as [[[p e'] b]|]; [|done].
  assert (∀ (out : bytes) (e1 e : option ReadError), Some (dst ++ p, e1, mkCountingReader b (add64 (cn_n c) (Z.of_nat (length p)))) = Some (out, e, c') →
    cn_n c' = add64 (cn_n c) (Z.of_nat (length out) - Z.of_nat (length dst)) ∧ int64_range (cn_n c')) as Hlast.
  { intros out' e1 e'' H'. simplify_eq. simpl. split; [|apply int64_bounds]. rewrite length_app. f_equal. lia. }
  destruct e' as [[|x]|]; [exact (Hlast _ _ _ H)..|].
  apply IH in H as [H Hr]; [|apply int64_bounds]. simpl in H. split; [|done].
  rewrite H, add64_add. f_equal. rewrite length_app. lia.
Qed.

(** A whole put: what the metadata row will say is true of the content. *)
Lemma Put_counts ctx d body b res counted b' :
  Put ctx d (mkCountingReader body 0) b = Some (res, counted, b') → res = Ok tt →
  hashes_to d (rd_rest body) ∧ cn_n counted = int64 (Z.of_nat (length (rd_rest body))) ∧ b' = publish d (rd_rest body) b.
Proof.
  intros H ->. destruct (Put_cases ctx d (mkCountingReader body 0) b (counting_wf _)) as (res & c' & s' & Hput & Hres).
  rewrite H in Hput. simplify_eq. destruct Hres as (_ & _ & Hh & ->). split_and!; try done.
  unfold Put in H. destruct (checked ctx d); [|done]. unfold Copy in H.
  destruct (NewVerifier d); [|done].
  destruct (io_Copy (mkCountingReader body 0)) as [[[out e] c]|] eqn:Hc; [|done].
  pose proof (io_Copy_all (mkCountingReader body 0) (counting_wf _)) as (r' & Hall & _). rewrite Hc in Hall. simplify_eq.
  apply copy_loop_counts in Hc as [Hn _]; [|by unfold int64_range].
  destruct (match rd_end _ with EOF => _ | _ => _ end) as [[|x]|]; repeat case_match; simplify_eq; rewrite Hn; unfold add64; f_equal; simpl; lia.
Qed.
