(* ===== verification/RegistrySafe.v ===== *)
(** * Every handler keeps the invariant

    Handlers that only read are [quiet]; the others are followed call by call. *)
From S2P Require Import Prelude RepoName Digest Sha2 Verify VerifySpec GoStrings Authz Meta Group Memory MemoryInv Identity Guard.
From S2P Require Import BlobStore BlobStoreSpec Artifact Http Uploads Manifests RegistryInv.

(** ** Programs that only read *)
Definition quiet {A} (p : Prog A) : Prop :=
  ∀ w (Q : A → World → Prop), (∀ a w', extends w w' → Q a w') → wp p w Q.

Create HintDb quiet.

Lemma quiet_ret {A} (a : A) : quiet (Ret a).
Proof. intros w Q H. by apply H. Qed.

Lemma quiet_bind {A B} (p : Prog A) (f : A → Prog B) : quiet p → (∀ a, quiet (f a)) → quiet (prog_bind p f).
Proof. intros Hp Hf w Q H. apply wp_bind, Hp. intros a w' He. apply Hf. intros b w'' He'. apply H. by transitivity w'. Qed.

Lemma quiet_try {A} (p : Prog (result Response A)) (f : A → Prog Response) : quiet p → (∀ a, quiet (f a)) → quiet (prog_try p f).
Proof. intros Hp Hf. apply quiet_bind; [done|]. intros [a|resp]; [done|apply quiet_ret]. Qed.

Lemma quiet_tryE {A B} (p : Prog (result Response A)) (f : A → Prog (result Response B)) :
  quiet p → (∀ a, quiet (f a)) → quiet (prog_tryE p f).
Proof. intros Hp Hf. apply quiet_bind; [done|]. intros [a|resp]; [done|apply quiet_ret]. Qed.

Lemma quiet_reads_meta {B} (op : bool → Memory.Store → result MetaError B) : quiet (reads_meta op).
Proof. intros w Q H. apply wp_reads_meta. auto. Qed.

Lemma quiet_reads_blobs {B} (op : bool → BlobStore.Store → B) : quiet (reads_blobs op).
Proof. intros w Q H. apply wp_reads_blobs. auto. Qed.

Lemma quiet_bindings subject : quiet (the_bindings subject).
Proof. intros w Q H answer. by apply H. Qed.

Lemma quiet_time : quiet the_time.
Proof. intros w Q H t. by apply H. Qed.

Lemma quiet_random : quiet random_bytes.
Proof. intros w Q H t. by apply H. Qed.

Lemma quiet_pull {A} records name reference (k : Prog A) : quiet k → quiet (record_pull records name reference k).
Proof. intros Hk w Q H. unfold record_pull. destruct records; simpl; apply Hk; intros a w' He; by apply H. Qed.

#[export] Hint Resolve quiet_ret quiet_reads_meta quiet_reads_blobs quiet_bindings quiet_time quiet_random : quiet.

(** Descend into a reading program, taking every branch. *)
Ltac solve_quiet :=
  repeat (intros; first
    [ solve [eauto 2 with quiet nocore]
    | apply quiet_try | apply quiet_tryE | apply quiet_bind | apply quiet_pull
    | match goal with |- quiet (match ?x with _ => _ end) => destruct x end ]).

Lemma quiet_route r : quiet (routeToEntity r).
Proof. unfold routeToEntity. solve_quiet. Qed.
#[export] Hint Resolve quiet_route : quiet.

Lemma quiet_hostedRepo r : quiet (hostedRepo r).
Proof. unfold hostedRepo. solve_quiet. Qed.
#[export] Hint Resolve quiet_hostedRepo : quiet.

Lemma quiet_openSession r name : quiet (openSession r name).
Proof. unfold openSession. solve_quiet. Qed.
#[export] Hint Resolve quiet_openSession : quiet.

Lemma quiet_check_range r a : quiet (check_range r a).
Proof. unfold check_range. cbv zeta. solve_quiet. Qed.
#[export] Hint Resolve quiet_check_range : quiet.

Lemma quiet_mount r name d from : quiet (mount r name d from).
Proof. unfold mount. solve_quiet. Qed.
#[export] Hint Resolve quiet_mount : quiet.

Lemma quiet_newUploadID : quiet newUploadID.
Proof. unfold newUploadID. solve_quiet. Qed.
#[export] Hint Resolve quiet_newUploadID : quiet.

Lemma quiet_reference_digest name reference : quiet (reference_digest name reference).
Proof. unfold reference_digest. solve_quiet. Qed.
#[export] Hint Resolve quiet_reference_digest : quiet.

Lemma quiet_resolveHosted name reference : quiet (resolveHostedManifest name reference).
Proof. unfold resolveHostedManifest. solve_quiet. Qed.
#[export] Hint Resolve quiet_resolveHosted : quiet.

Lemma quiet_resolve r name : quiet (resolve r name).
Proof. unfold resolve. solve_quiet. Qed.
#[export] Hint Resolve quiet_resolve : quiet.

Lemma quiet_manifestThrough records d name reference body : quiet (manifestThrough records d name reference body).
Proof. unfold manifestThrough. cbv zeta. solve_quiet. Qed.
#[export] Hint Resolve quiet_manifestThrough : quiet.

Lemma quiet_readsSubject r name : quiet (readsSubjectRepository r name).
Proof. unfold readsSubjectRepository. solve_quiet. Qed.
#[export] Hint Resolve quiet_readsSubject : quiet.

Lemma quiet_next_level name current seen next : quiet (next_level name current seen next).
Proof.
  revert seen next. induction current as [|d current IH]; intros seen next; simpl; [apply quiet_ret|].
  apply (quiet_bind (reads_meta _)); [apply quiet_reads_meta|]. intros [rows|e]; [|apply quiet_ret].
  destruct (foldl _ _ rows) as [seen' next']. apply IH.
Qed.
#[export] Hint Resolve quiet_next_level : quiet.

Lemma quiet_collect fuel name current seen levels : quiet (collect_levels fuel name current seen levels).
Proof.
  revert current seen levels. induction fuel as [|fuel IH]; intros [|d current] seen levels; try apply quiet_ret.
  simpl. apply quiet_tryE; [apply (quiet_next_level name (d :: current))|]. intros [seen' next']. apply IH.
Qed.

Lemma quiet_refuse name inTree members : quiet (refuse_members name inTree members).
Proof.
  induction members as [|m members IH]; simpl; [apply quiet_ret|].
  apply (quiet_bind (reads_meta _)); [apply quiet_reads_meta|]. intros [parents|e]; [|apply quiet_ret].
  destruct (filter _ parents); [apply IH|apply quiet_ret].
Qed.

(** The routes that only read. *)
Lemma quiet_stat servers r : quiet (stat servers r).
Proof. unfold stat, knownRepo. solve_quiet. Qed.
Lemma quiet_get servers r : quiet (get servers r).
Proof. unfold get, knownRepo. solve_quiet. Qed.
Lemma quiet_refuseDelete r : quiet (refuseDelete r).
Proof. unfold refuseDelete, knownRepo. solve_quiet. Qed.
Lemma quiet_status r : quiet (status r).
Proof. unfold status. solve_quiet. Qed.
Lemma quiet_head records servers r : quiet (head records servers r).
Proof. unfold head, knownRepo. solve_quiet. Qed.
Lemma quiet_get_manifest records servers r : quiet (get_manifest records servers r).
Proof. unfold get_manifest, knownRepo. solve_quiet. Qed.
Lemma quiet_list_tags r : quiet (list_tags r).
Proof. unfold list_tags, knownRepo. solve_quiet. Qed.
Lemma quiet_list_referrers annotations r : quiet (list_referrers annotations r).
Proof. unfold list_referrers, knownRepo. cbv zeta. solve_quiet. Qed.
Lemma quiet_catalog r : quiet (catalog r).
Proof. unfold catalog. solve_quiet. Qed.
#[export] Hint Resolve quiet_stat quiet_get quiet_refuseDelete quiet_status quiet_head quiet_get_manifest quiet_list_tags
  quiet_list_referrers quiet_catalog : quiet.

Lemma quiet_safe p : quiet p → safe p.
Proof. intros Hq w. by apply Hq. Qed.

(** ** Programs that write *)
Section writers.
Implicit Type w : World.
Local Notation anything := (λ (_ : Response) (_ : World), True).

Lemma wp_quiet {A B} (p : Prog A) (f : A → Prog B) w Q :
  quiet p → (∀ a w', extends w w' → wp (f a) w' Q) → wp (prog_bind p f) w Q.
Proof. intros Hq Hf. apply wp_bind, Hq. exact Hf. Qed.

Lemma wp_quiet_try {A} (p : Prog (result Response A)) (f : A → Prog Response) w :
  quiet p → (∀ a w', extends w w' → wp (f a) w' anything) → wp (prog_try p f) w anything.
Proof. intros Hq Hf. apply wp_quiet; [done|]. intros [a|resp] w' He; [by apply Hf|done]. Qed.

(** Uploads rows and tags are outside the invariant: such a write goes through. *)
Definition frames (op : bool → Memory.Store → result MetaError Memory.Store) : Prop :=
  ∀ ctx s s', op ctx s = Ok s' →
    Memory.blobs s' = Memory.blobs s ∧ manifests s' = manifests s ∧ refs s' = refs s.

Lemma quiet_frames op : frames op → quiet (writes_meta op).
Proof.
  intros Hf w Q H. apply wp_writes_meta. intros w' ctx Hi He. destruct (op ctx (w_meta w')) as [s|e] eqn:Ho; [|by apply H].
  destruct (Hf _ _ _ Ho) as (H1 & H2 & H3). destruct (meta_frame w' s H1 H2 H3 Hi) as [Hi' He'].
  split_and!; [done|done|]. apply H. by transitivity w'.
Qed.

Lemma CreateUpload_frames session : frames (λ ctx, Memory.CreateUpload ctx session).
Proof. intros ctx s s' H. unfold Memory.CreateUpload in H. inv_result. repeat case_match; by simplify_eq. Qed.
Lemma UpdateUpload_frames id n at_ : frames (λ ctx, UpdateUpload ctx id n at_).
Proof. intros ctx s s' H. unfold UpdateUpload in H. inv_result. repeat case_match; by simplify_eq. Qed.
Lemma DeleteUpload_frames id : frames (λ ctx, DeleteUpload ctx id).
Proof. intros ctx s s' H. unfold DeleteUpload in H. inv_result. repeat case_match; by simplify_eq. Qed.
Lemma PutTag_frames tag : frames (λ ctx, PutTag ctx tag).
Proof. intros ctx s s' H. unfold PutTag in H. inv_result. repeat case_match; by simplify_eq. Qed.
Lemma DeleteTag_frames repo name : frames (λ ctx, DeleteTag ctx repo name).
Proof. intros ctx s s' H. unfold DeleteTag in H. inv_result. repeat case_match; by simplify_eq. Qed.

(** Blob-store calls that cannot publish are quiet too. *)
Lemma quiet_write_body r a : quiet (write_body r a).
Proof.
  intros w Q H. apply wp_calls_blobs. intros w' ctx Hi He.
  destruct (Write_cases ctx (rq_body r) a (w_blobs w') (body_wf _)) as (off & e & s & -> & Hs).
  assert (inv (set_blobs s w') ∧ extends w' (set_blobs s w')) as [H1 H2].
  { apply blobs_grow; [done|..]; destruct Hs as [->|(_ & Ho & ->)]; try done; [apply Hi|]. apply write_wf; [apply Hi|done..]. }
  split_and!; [done|done|]. apply H. by transitivity w'.
Qed.

Lemma discard_quiet w a : inv w → inv (set_blobs (discard a (w_blobs w)) w) ∧ extends w (set_blobs (discard a (w_blobs w)) w).
Proof. intros Hi. apply blobs_grow; [done| |done]. apply close_wf, Hi. Qed.

Lemma quiet_cancel_session a :
  quiet (calls_blobs (λ ctx s, match Cancel ctx a s with Ok s' => Some (Ok tt : result BlobError unit, s') | Err e => Some (Err e, s) end)).
Proof.
  intros w Q H. apply wp_calls_blobs. intros w' ctx Hi He. unfold Cancel. destruct ctx.
  - assert (set_blobs (w_blobs w') w' = w') as -> by by destruct w'. split_and!; [done|done|by apply H].
  - destruct (discard_quiet w' a Hi) as [H1 H2]. split_and!; [done|done|]. apply H. by transitivity w'.
Qed.

Lemma quiet_create_session id :
  quiet (calls_blobs (λ ctx s, match BlobStore.CreateUpload ctx id s with Ok (a, s') => Some (Ok a : result BlobError nat, s') | Err e => Some (Err e, s) end)).
Proof.
  intros w Q H. apply wp_calls_blobs. intros w' ctx Hi He. destruct (BlobStore.CreateUpload ctx id (w_blobs w')) as [[a s]|e] eqn:Hc.
  - assert (BlobStore.blobs s = BlobStore.blobs (w_blobs w')) as Hb.
    { unfold BlobStore.CreateUpload in Hc. repeat case_match; by simplify_eq. }
    destruct (blobs_grow w' s Hi) as [H1 H2]; [by eapply create_wf; [apply Hi|]|by rewrite Hb|].
    split_and!; [done|done|]. apply H. by transitivity w'.
  - assert (set_blobs (w_blobs w') w' = w') as -> by by destruct w'. split_and!; [done|done|by apply H].
Qed.

(** The row of a blob whose bytes are there already. *)
Lemma wp_record_blob {A} d size now content w (f : result MetaError unit → Prog A) Q :
  is_Some (BlobStore.blobs (w_blobs w) !! d) → hashes_to d content → size = int64 (Z.of_nat (length content)) →
  (∀ res w', extends w w' → (res = Ok tt → is_Some (Memory.blobs (w_meta w') !! d)) → wp (f res) w' Q) →
  wp (prog_bind (writes_meta (λ ctx, PutBlob ctx (mkBlob d size now))) f) w Q.
Proof.
  intros Hb Hh Hs Hf. apply wp_bind, wp_writes_meta. intros w' ctx Hi He.
  destruct (PutBlob ctx (mkBlob d size now) (w_meta w')) as [s|e] eqn:Hp; [|by apply Hf].
  destruct (PutBlob_keeps w' ctx d size now s content Hi) as (H1 & H2 & H3); try done; [by apply He|].
  split_and!; [done|done|]. apply Hf; [by transitivity w'|done].
Qed.

(** A push was acknowledged: a blob row of the digest it named exists. *)
Definition acknowledged (raw : string) (resp : Response) (w : World) : Prop :=
  rs_status resp = 201%Z → ∃ d, ParseDigest raw = Ok d ∧ is_Some (Memory.blobs (w_meta w) !! d).

Lemma acknowledged_stable raw : stable (acknowledged raw).
Proof. intros resp w w' [_ He] H Hs. destruct (H Hs) as (d & Hd & row & Hrow). exists d. split; [done|]. eauto. Qed.

(** Helpers that answer do so with something else. *)
Definition refuses {A} (p : Prog (result Response A)) : Prop :=
  ∀ w (Q : result Response A → World → Prop),
    (∀ res w', extends w w' → match res with Err resp => rs_status resp ≠ 201%Z | Ok _ => True end → Q res w') → wp p w Q.

Lemma refuses_ret {A} (res : result Response A) :
  match res with Err resp => rs_status resp ≠ 201%Z | Ok _ => True end → refuses (Ret res).
Proof. intros H w Q HQ. by apply HQ. Qed.

Lemma refuses_bind {A B} (p : Prog A) (f : A → Prog (result Response B)) :
  quiet p → (∀ a, refuses (f a)) → refuses (prog_bind p f).
Proof. intros Hp Hf w Q HQ. apply wp_bind, Hp. intros a w' He. apply Hf. intros res w'' He'. apply HQ. by transitivity w'. Qed.

Lemma refuses_tryE {A B} (p : Prog (result Response A)) (f : A → Prog (result Response B)) :
  refuses p → (∀ a, refuses (f a)) → refuses (prog_tryE p f).
Proof.
  intros Hp Hf w Q HQ. apply wp_bind, Hp. intros [a|resp] w' He H; [|by apply HQ].
  apply Hf. intros res w'' He'. apply HQ. by transitivity w'.
Qed.

Ltac solve_refuses :=
  repeat (intros; first
    [ apply refuses_ret; (exact I || discriminate)
    | apply refuses_tryE | (apply refuses_bind; [solve [eauto 2 with quiet nocore]|])
    | match goal with |- refuses (match ?x with _ => _ end) => destruct x end ]).

Lemma hostedRepo_refuses r : refuses (hostedRepo r).
Proof. unfold hostedRepo, routeToEntity. solve_refuses. Qed.
Lemma openSession_refuses r name : refuses (openSession r name).
Proof. unfold openSession. solve_refuses. Qed.

Lemma wp_refuses {A} (p : Prog (result Response A)) (f : A → Prog Response) raw w :
  refuses p → (∀ a w', extends w w' → wp (f a) w' (acknowledged raw)) → wp (prog_try p f) w (acknowledged raw).
Proof.
  intros Hp Hf. apply wp_bind, Hp. intros [a|resp] w' He H; [by apply Hf|]. intros Hs. done.
Qed.

Lemma monolithic_wp quota r name raw w : wp (monolithic quota r name raw) w (acknowledged raw).
Proof.
  unfold monolithic, parsedDigest. destruct (ParseDigest raw) as [d|] eqn:Hraw; [|done]. destruct (quota _ _); [done|].
  apply wp_bind, wp_calls_blobs. intros w1 ctx Hi He.
  destruct (Put ctx d (mkCountingReader (rq_body r) 0) (w_blobs w1)) as [[[res counted] s]|] eqn:Hput; [|done].
  destruct (Put_cases ctx d (mkCountingReader (rq_body r) 0) (w_blobs w1) (counting_wf _)) as (res' & c' & s' & Hput' & Hres).
  rewrite Hput in Hput'. simplify_eq. destruct res' as [[]|e].
  - destruct Hres as ([_ Hd]%checked_ok & _ & Hh & ->). destruct (Put_counts _ _ _ _ _ _ _ Hput eq_refl) as (_ & Hn & _).
    destruct (blobs_grow w1 (publish d (rd_rest (rq_body r)) (w_blobs w1)) Hi) as [H1 H2];
      [by apply publish_wf; [apply Hi|..]|intros; by apply publish_grows|].
    split_and!; [done|done|]. simpl fst. apply wp_quiet; [apply quiet_time|]. intros now w2 He2.
    apply (wp_record_blob d _ now (rd_rest (rq_body r))); [|done|done|].
    + apply He2, publish_has.
    + intros [[]|e] w3 He3 Hrow; [|done]. intros _. exists d. split; [done|]. by apply Hrow.
  - subst s'. assert (set_blobs (w_blobs w1) w1 = w1) as -> by by destruct w1.
    split_and!; [done|done|]. by destruct e.
Qed.

(** The digest a start names: of a whole push, or of a mount. *)
Definition start_digest (r : Request) : string :=
  if String.eqb (rq_query r "digest") "" then rq_query r "mount" else rq_query r "digest".

Lemma mount_wp r name raw from w :
  wp (mount r name raw from) w (λ res w', extends w w' ∧ match res with Some resp => acknowledged raw resp w' | None => True end).
Proof.
  unfold mount. destruct (ParseDigest raw) as [d|] eqn:Hraw; [|done]. destruct (Authz.Repository from); [|done].
  destruct (rq_subject r); [|done]. apply wp_quiet; [auto with quiet|]. intros [bindings|e] w1 He1; [|done].
  destruct (negb _); [done|]. destruct (Split from) as [[entity rest]|]; [|done].
  apply wp_quiet; [apply quiet_reads_meta|]. intros [record|e] w2 He2; [|split; [by transitivity w1|done]].
  apply wp_bind, wp_reads_meta. intros w3 ctx Hi He3. assert (extends w w3) by (transitivity w1; [done|by transitivity w2]).
  destruct (GetBlob ctx d (w_meta w3)) as [row|e] eqn:Hg; [|done]. split; [done|]. intros _. exists d. split; [done|].
  unfold GetBlob in Hg. inv_result. destruct (Memory.blobs (w_meta w3) !! d) eqn:E; [by eexists|done].
Qed.

Lemma open_session_wp quota r name raw w : wp (open_session quota r name) w (acknowledged raw).
Proof.
  unfold open_session. destruct (quota _ _); [done|]. apply wp_quiet; [apply quiet_newUploadID|]. intros [id|] w1 He1; [|done].
  apply wp_quiet; [apply quiet_time|]. intros now w2 He2.
  apply wp_quiet; [apply quiet_frames, CreateUpload_frames|]. intros [[]|e] w3 He3; [|done].
  apply wp_quiet; [apply quiet_create_session|]. intros [a|e] w4 He4; [done|].
  by apply wp_quiet; [apply quiet_frames, DeleteUpload_frames|].
Qed.

Lemma start_wp quota r w : wp (start quota r) w (acknowledged (start_digest r)).
Proof.
  unfold start, start_digest. apply wp_refuses; [apply hostedRepo_refuses|]. intros name w1 He1.
  destruct (String.eqb (rq_query r "digest") ""); [|apply monolithic_wp].
  simpl negb. cbv iota. destruct (negb _); [|apply open_session_wp].
  apply wp_bind. eapply wp_impl; [|apply mount_wp]. intros [resp|] w2 [He2 Hack]; [done|apply open_session_wp].
Qed.

Lemma start_safe quota r : safe (start quota r).
Proof. intros w. by eapply wp_impl, start_wp. Qed.

Lemma patch_safe quota r : safe (patch quota r).
Proof.
  intros w. unfold patch. do 3 (apply wp_quiet_try; [auto with quiet|]; intros ? ? ?). destruct (quota _ _); [done|].
  apply wp_quiet; [apply quiet_write_body|]. intros [off [e|]] w1 He1; [done|].
  apply wp_quiet; [apply quiet_time|]. intros now w2 He2.
  apply wp_quiet; [apply quiet_frames, UpdateUpload_frames|]. by intros [[]|e] w3 He3.
Qed.

Lemma commit_wp r w : wp (commit r) w (acknowledged (rq_query r "digest")).
Proof.
  unfold commit. apply wp_refuses; [apply hostedRepo_refuses|]. intros name w1 He1.
  unfold parsedDigest. destruct (ParseDigest _) as [d|] eqn:Hraw; [|done].
  apply wp_refuses; [apply openSession_refuses|]. intros [a id] w2 He2.
  apply wp_quiet; [apply quiet_write_body|]. intros [off [e|]] w3 He3; [done|].
  apply wp_bind, wp_calls_blobs. intros w4 ctx Hi He4. cbn [fst snd].
  pose proof (Commit_cases ctx d a (w_blobs w4)) as Hc. destruct (Commit ctx d a (w_blobs w4)) as [[desc|e] s].
  - destruct Hc as (_ & _ & Hd & Hh & -> & ->).
    destruct (blobs_grow w4 (discard a (publish d (se_buf (deref a (w_blobs w4))) (w_blobs w4))) Hi) as [H1 H2].
    { apply close_wf, publish_wf; [apply Hi|done..]. }
    { intros. by apply publish_grows. }
    split_and!; [done|done|]. apply wp_quiet; [apply quiet_time|]. intros now w5 He5.
    eapply (wp_record_blob d); [|exact Hh|done|].
    + apply He5. simpl. apply publish_has.
    + intros [[]|e] w6 He6 Hrow; [|done]. apply wp_quiet; [apply quiet_frames, DeleteUpload_frames|].
      intros _ w7 He7 _. exists d. split; [done|]. destruct (Hrow eq_refl) as [row ?]. exists row. by apply He7.
  - destruct (blobs_grow w4 s Hi) as [H1 H2]; [destruct Hc as [->| ->]; [apply Hi|apply close_wf, Hi]|by destruct Hc as [->| ->]|].
    split_and!; [done|done|]. destruct e; try done. by apply wp_quiet; [apply quiet_frames, DeleteUpload_frames|].
Qed.

Lemma commit_safe r : safe (commit r).
Proof. intros w. by eapply wp_impl, commit_wp. Qed.

Lemma cancel_safe r : safe (cancel r).
Proof.
  intros w. unfold cancel. do 2 (apply wp_quiet_try; [auto with quiet|]; intros ? ? ?).
  apply wp_quiet; [apply quiet_cancel_session|]. intros [[]|e] w1 He1; [|done].
  by apply wp_quiet; [apply quiet_frames, DeleteUpload_frames|].
Qed.

(** *** Manifests *)
Definition edges_in (refs : list ManifestRef) w : Prop :=
  ∀ e, e ∈ refs → blob_edge e → is_Some (Memory.blobs (w_meta w) !! ref_child e).

(** Helpers that return the edges checked so far, or an answer. *)
Definition checked_edges (w : World) (res : result Response (list ManifestRef)) (w' : World) : Prop :=
  extends w w' ∧ match res with Ok refs => edges_in refs w' | Err _ => True end.

Lemma edges_in_extends refs w w' : extends w w' → edges_in refs w → edges_in refs w'.
Proof. intros [_ He] H e Hin Hk. destruct (H e Hin Hk) as [row Hrow]. eauto. Qed.

Lemma wp_tryE_edges p (f : list ManifestRef → Prog (result Response (list ManifestRef))) w w0 :
  extends w0 w → wp p w (checked_edges w) →
  (∀ refs w', extends w0 w' → edges_in refs w' → wp (f refs) w' (checked_edges w')) → wp (prog_tryE p f) w (checked_edges w0).
Proof.
  intros H0 Hp Hf. apply wp_bind. eapply wp_impl; [|exact Hp]. intros [refs|resp] w' [He Hr].
  - eapply wp_impl; [|apply Hf; [by transitivity w|done]]. intros res w'' [He' Hr']. split; [|done].
    transitivity w; [done|]. by transitivity w'.
  - split; [by transitivity w|done].
Qed.

Lemma blobDescriptor_edges kind desc refs w :
  edges_in refs w → wp (blobDescriptor kind desc refs) w (checked_edges w).
Proof.
  intros Hr. unfold blobDescriptor. destruct (de_external desc); [done|].
  apply wp_bind, wp_reads_meta. intros w' ctx Hi He. destruct (GetBlob ctx (de_digest desc) (w_meta w')) as [row|e] eqn:Hg.
  - destruct (negb _); [done|]. split; [done|]. intros e Hin Hk. apply elem_of_app in Hin as [Hin|Hin].
    + by eapply edges_in_extends.
    + apply list_elem_of_singleton in Hin as ->. simpl. unfold GetBlob in Hg. inv_result.
      destruct (Memory.blobs (w_meta w') !! de_digest desc) eqn:E; [eauto|done].
  - by destruct e.
Qed.

Lemma verify_layers_edges layers refs w : edges_in refs w → wp (verify_layers layers refs) w (checked_edges w).
Proof.
  revert refs w. induction layers as [|layer layers IH]; intros refs w Hr; [done|].
  cbn [verify_layers]. apply wp_tryE_edges; [done|by apply blobDescriptor_edges|]. intros refs' w' _ Hr'. by apply IH.
Qed.

Lemma verify_children_edges name children refs w : edges_in refs w → wp (verify_children name children refs) w (checked_edges w).
Proof.
  intros Hr. assert (∀ w0, extends w0 w → wp (verify_children name children refs) w (checked_edges w0)) as H; [|by apply H].
  revert refs w Hr. induction children as [|child children IH]; intros refs w Hr w0 H0; [done|]. cbn [verify_children].
  apply wp_bind, wp_reads_meta. intros w' ctx Hi He.
  destruct (GetManifest ctx name (de_digest child) (w_meta w')) as [m|e];
    [|destruct e; (split; [by transitivity w|done])].
  destruct (negb _); [split; [by transitivity w|done]|]. apply IH; [|by transitivity w].
  intros e Hin Hk. apply elem_of_app in Hin as [Hin|Hin]; [by eapply edges_in_extends|].
  apply list_elem_of_singleton in Hin as ->. destruct Hk; discriminate.
Qed.

Lemma verifyReferences_edges name parsed w : wp (verifyReferences name parsed) w (checked_edges w).
Proof.
  assert (∀ w, edges_in [] w) as Hnil by (intros w' e Hin; by apply not_elem_of_nil in Hin).
  unfold verifyReferences. apply wp_tryE_edges; [done|destruct (am_config parsed); [by apply blobDescriptor_edges|done]|].
  intros refs w1 He1 Hr1. apply wp_tryE_edges; [done|by apply verify_layers_edges|].
  intros refs2 w2 He2 Hr2. apply wp_tryE_edges; [done|by apply verify_children_edges|].
  intros refs3 w3 He3 Hr3. split; [done|]. intros e Hin Hk. apply elem_of_app in Hin as [Hin|Hin]; [by apply Hr3|].
  destruct (am_subject parsed); [|by apply not_elem_of_nil in Hin]. apply list_elem_of_singleton in Hin as ->.
  destruct Hk; discriminate.
Qed.

Lemma payload_facts raw :
  String.list_ascii_of_string (String.string_of_list_ascii raw) = raw ∧ String.length (String.string_of_list_ascii raw) = length raw.
Proof. induction raw as [|c raw [IH1 IH2]]; [done|]. simpl. by rewrite IH1, IH2. Qed.

Lemma put_algorithm_available reference byDigest :
  put_reference reference = Ok byDigest → is_Some (Algorithm_New (put_algorithm byDigest)).
Proof.
  unfold put_reference, parsedDigest. destruct (isDigestReference reference); [|destruct (tagPattern reference); intros; simplify_eq; by eexists].
  pose proof (ParseDigest_ok reference) as Hok. destruct (ParseDigest reference) as [d|] eqn:Hp; [|done]. intros [= <-].
  apply ParseDigest_id in Hp as [-> _]. destruct (proj1 Hok eq_refl) as (a & hex & n & Hf).
  unfold put_algorithm, Digest_Algorithm. rewrite (digest_form_cut _ _ _ _ Hf). destruct Hf as (_ & Ha & _). by eapply available_hash.
Qed.

Lemma put_safe PM U maxBytes r : safe (put PM U maxBytes r).
Proof.
  intros w. unfold put. apply wp_quiet_try; [auto with quiet|]. intros name w1 He1.
  destruct (put_reference _) as [byDigest|] eqn:Href; [|done].
  destruct (read_payload _ _) as [[raw [e|]]|]; [done| |done]. destruct (_ <? _)%Z; [done|].
  destruct (Parse _ _ _ _) as [parsed|e]; [|done].
  set (algo := put_algorithm byDigest).
  set (digest := default "" (FromBytes algo raw)). destruct (match byDigest with Some d => _ | None => false end) eqn:Hsame; [done|].
  assert (FromBytes algo raw = Some digest) as Hd.
  { destruct (put_algorithm_available _ _ Href) as [h Hh]. unfold digest, FromBytes. fold algo in Hh. by rewrite Hh. }
  clearbody digest algo. apply FromBytes_valid in Hd as (Hv & Ha & Hh).
  apply wp_bind. eapply wp_impl; [|apply verifyReferences_edges]. intros [refs|resp] w2 [He2 Hr2]; [|done].
  apply wp_quiet; [apply quiet_time|]. intros now w3 He3. cbv zeta.
  apply wp_bind, wp_writes_meta. intros w4 ctx Hi4 He4.
  destruct (PutManifest ctx _ refs (w_meta w4)) as [s|e] eqn:Hput; [|by destruct e].
  destruct (payload_facts raw) as (Hp & Hl).
  eapply PutManifest_keeps in Hput as [H1 H2]; [split_and!; [done|done|]|..]; try done.
  - destruct byDigest; [done|]. apply wp_quiet; [apply quiet_time|]. intros now' w5 He5.
    apply wp_quiet; [apply quiet_frames, PutTag_frames|]. by intros [[]|e] w6 He6.
  - unfold payload_digest. simpl. rewrite Hp. exact Hh.
  - simpl. by rewrite Hl.
  - apply (edges_in_extends refs w2); [by transitivity w3|done].
Qed.

Lemma delete_members_safe name members w : wp (delete_members name members) w anything.
Proof.
  revert w. induction members as [|member members IH]; intros w; [done|]. cbn [delete_members].
  apply wp_bind, wp_writes_meta. intros w' ctx Hi He.
  destruct (DeleteManifest ctx name member (w_meta w')) as [s|e] eqn:Hd.
  - destruct (DeleteManifest_keeps _ _ _ _ _ Hi Hd). split_and!; [done|done|]. apply IH.
  - destruct e; try done.
Qed.

Lemma delete_safe fuel r : safe (delete_ fuel r).
Proof.
  intros w. unfold delete_. apply wp_quiet_try; [auto with quiet|]. intros name w1 He1.
  destruct (parsedDigest _) as [d|]; [|done]. apply wp_quiet; [apply quiet_reads_meta|]. intros [m|e] w2 He2; [|by destruct e].
  apply wp_quiet_try; [apply quiet_collect|]. intros [levels|] w3 He3; [|done].
  apply wp_quiet_try; [apply quiet_refuse|]. intros [] w4 He4. apply delete_members_safe.
Qed.

Lemma deleteTag_safe r : safe (deleteTag r).
Proof.
  intros w. unfold deleteTag. apply wp_quiet_try; [auto with quiet|]. intros name w1 He1. cbv zeta.
  destruct (negb _); [done|]. apply wp_quiet; [apply quiet_frames, DeleteTag_frames|]. intros [[]|e] w2 He2; [done|by destruct e].
Qed.

(** *** The reaper *)
Lemma quiet_reap session : quiet (reap session).
Proof.
  unfold reap, cancelStaging. apply quiet_bind.
  - apply quiet_bind; [apply quiet_reads_blobs|]. intros [a|e]; [|destruct e; apply quiet_ret].
    apply quiet_bind; [apply quiet_cancel_session|]. intros [[]|e]; [apply quiet_ret|destruct e; apply quiet_ret].
  - intros [e|]; [apply quiet_ret|]. apply quiet_bind; [apply quiet_frames, DeleteUpload_frames|].
    intros [[]|e]; [apply quiet_ret|destruct e; apply quiet_ret].
Qed.

Lemma quiet_reap_batch batch collected errs : quiet (reap_batch batch collected errs).
Proof.
  revert collected errs. induction batch as [|u batch IH]; intros collected errs; [apply quiet_ret|].
  cbn [reap_batch]. apply quiet_bind; [apply quiet_reap|]. intros [e|]; apply IH.
Qed.

Lemma quiet_ReapOnce fuel ttl : quiet (ReapOnce fuel ttl).
Proof.
  unfold ReapOnce. apply quiet_bind; [apply quiet_time|]. intros now.
  generalize (now - reaper_ttl ttl)%Z as cutoff, 0 as reaped, ([] : list ReapError) as errs. intros cutoff.
  induction fuel as [|fuel IH]; intros reaped errs; [apply quiet_ret|]. cbn [reap_loop].
  apply quiet_bind; [apply quiet_reads_blobs|]. intros []; [apply quiet_ret|].
  apply quiet_bind; [apply quiet_reads_meta|]. intros [batch|e]; [|apply quiet_ret].
  apply quiet_bind; [apply quiet_reap_batch|]. intros [n es]. cbv zeta. destruct (_ || _); [apply quiet_ret|apply IH].
Qed.
End writers.
