(* ===== verification/RegistrySpec.v ===== *)
(** * What the distribution API guarantees

    Theorems about concurrent requests (any interleaving of the calls of any
    number of them), and about single requests: acknowledged pushes can be
    pulled, drift is never served, sessions stay in their repository, chunks are
    in order, and a pushed manifest comes back. *)
From S2P Require Import Prelude RepoName Digest Sha2 Verify VerifySpec GoStrings Authz Meta Group Memory MemoryInv Identity Guard.
From S2P Require Import BlobStore BlobStoreSpec Artifact Http Uploads Manifests RegistryInv RegistrySafe.

(** ** The routes *)
Section routes.
Context (ParseMediaType : string → option string) (Unmarshal : string → option wireManifest)
  (annotations : string → option (list (string * string))) (quota : string → Z → option string)
  (maxBytes : Z) (records : bool) (servers : ContentServers).

(** A running reaper is one more program; it has no client to answer. *)
Definition reaper (fuel : nat) (ttl : Z) : Prog Response :=
  do! _swept := ReapOnce fuel ttl in Ret (mkResponse 0 [] NoBody).

Inductive route : Prog Response → Prop :=
| route_stat r : route (stat servers r)
| route_get r : route (get servers r)
| route_refuseDelete r : route (refuseDelete r)
| route_start r : route (start quota r)
| route_patch r : route (patch quota r)
| route_commit r : route (commit r)
| route_status r : route (status r)
| route_cancel r : route (cancel r)
| route_head r : route (head records servers r)
| route_get_manifest r : route (get_manifest records servers r)
| route_put r : route (put ParseMediaType Unmarshal maxBytes r)
| route_delete fuel r : route (delete_ fuel r)
| route_deleteTag r : route (deleteTag r)
| route_tags r : route (list_tags r)
| route_referrers r : route (list_referrers annotations r)
| route_catalog r : route (catalog r)
| route_reaper fuel ttl : route (reaper fuel ttl).

Lemma route_safe p : route p → safe p.
Proof.
  destruct 1; auto using start_safe, patch_safe, commit_safe, cancel_safe, put_safe, delete_safe, deleteTag_safe;
    apply quiet_safe; auto with quiet.
  unfold reaper. apply quiet_bind; [apply quiet_ReapOnce|]. intros ?. apply quiet_ret.
Qed.

Lemma routes_wp w ps : Forall route ps → ∀ i p, ps !! i = Some p → wp p w (λ _ _, True).
Proof. intros Hr i p Hp. apply route_safe. by eapply Forall_lookup_1. Qed.

(** C7: any number of requests to any of the routes, and the reaper, with their
    store calls interleaved in any way, contexts cancelled and bodies cut off at
    any point: at every moment no blob row is without bytes that hash to its
    digest and its size is that of such content, every stored manifest is filed
    under the digest and the size of its payload, every config and layer it
    records is a blob row, and neither a row nor bytes once there have gone. *)
Theorem concurrent_requests_keep_content w ps w' ps' :
  inv w → Forall route ps → rtc (pool_step route) (w, ps) (w', ps') →
  (∀ d row, Memory.blobs (w_meta w') !! d = Some row →
    ∃ content, BlobStore.blobs (w_blobs w') !! d = Some content ∧ hashes_to d content ∧
      ∃ sized, hashes_to d sized ∧ bb_size row = int64 (Z.of_nat (length sized))) ∧
  (∀ name d m, get2 (manifests (w_meta w')) name d = Some m →
    payload_digest (Digest_Algorithm d) (mf_payload m) = Some d ∧
    mf_size m = int64 (Z.of_nat (String.length (mf_payload m)))) ∧
  (∀ name d edges e, get2 (refs (w_meta w')) name d = Some edges → e ∈ edges →
    ref_kind e = RefConfig ∨ ref_kind e = RefLayer → is_Some (Memory.blobs (w_meta w') !! ref_child e)) ∧
  (∀ d row, Memory.blobs (w_meta w) !! d = Some row → Memory.blobs (w_meta w') !! d = Some row) ∧
  (∀ d, is_Some (BlobStore.blobs (w_blobs w) !! d) → is_Some (BlobStore.blobs (w_blobs w') !! d)).
Proof.
  intros Hi Hr Hs. apply (pool_inv route (λ _ _ _, True)) in Hs as ((Hwf & Hrows & Hm & He) & [Hx1 Hx2] & _);
    [|by intros; apply route_safe|done..|by apply routes_wp].
  split_and!; [|intros name d m Hg; by apply (Hm name d m)|exact He|exact Hx2|exact Hx1].
  intros d row Hrow. destruct (Hrows d row Hrow) as (_ & [content Hc] & Hsized). exists content.
  destruct (proj1 Hwf d content Hc). done.
Qed.

(** ** Pushing and pulling *)

(** A request for a repository that exists and is hosted, in an open store. *)
Definition reaches_hosted (r : Request) (w : World) : Prop :=
  Memory.closed (w_meta w) = false ∧
  ∃ entity remainder record, Split (rq_name r) = Ok (entity, remainder) ∧
    repos (w_meta w) !! entity = Some record ∧ rp_type record = Hosted.

Lemma reaches_enter r w : reaches_hosted r w → enter false (w_meta w) = Ok tt.
Proof. intros [Hc _]. unfold enter. by rewrite Hc. Qed.

(** Programs one after the other. *)
Lemma run_bind {A B} now rand (p : Prog A) (f : A → Prog B) w :
  run now rand (prog_bind p f) w = match run now rand p w with Some (a, w') => run now rand (f a) w' | None => None end.
Proof.
  revert w. induction p as [a|C op k IH|C op k IH|subject k IH|k IH|k IH|name reference k IH]; intros w; simpl; auto.
  - destruct (op false (w_meta w)) as [[s b]|e]; apply IH.
  - destruct (op false (w_blobs w)) as [[b s]|]; [apply IH|done].
Qed.

Lemma set_meta_id w : set_meta (w_meta w) w = w.
Proof. by destruct w. Qed.
Lemma set_blobs_id w : set_blobs (w_blobs w) w = w.
Proof. by destruct w. Qed.

Lemma run_reads_meta {B} now rand (op : bool → Memory.Store → result MetaError B) w :
  run now rand (reads_meta op) w = Some (op false (w_meta w), w).
Proof. simpl. destruct (op false (w_meta w)); simpl; [by rewrite set_meta_id|done]. Qed.

Lemma run_reads_blobs {B} now rand (op : bool → BlobStore.Store → B) w :
  run now rand (reads_blobs op) w = Some (op false (w_blobs w), w).
Proof. simpl. by rewrite set_blobs_id. Qed.

Lemma run_writes_meta now rand op w :
  run now rand (writes_meta op) w =
  match op false (w_meta w) with Ok s => Some (Ok tt, set_meta s w) | Err e => Some (Err e, w) end.
Proof. simpl. by destruct (op false (w_meta w)). Qed.

Lemma run_route now rand r w :
  reaches_hosted r w → ∃ record, run now rand (routeToEntity r) w = Some (Ok (rq_name r, record), w) ∧ rp_type record = Hosted.
Proof.
  intros (Hc & entity & remainder & record & Hs & Hr & Ht). exists record. split; [|done]. unfold routeToEntity.
  rewrite Hs, run_bind, run_reads_meta. unfold GetRepository, enter. by rewrite Hc, Hr.
Qed.

Lemma run_hostedRepo now rand r w : reaches_hosted r w → run now rand (hostedRepo r) w = Some (Ok (rq_name r), w).
Proof.
  intros Hr. destruct (run_route now rand r w Hr) as (record & Hrun & Ht). unfold hostedRepo, prog_tryE.
  rewrite run_bind, Hrun. simpl. by rewrite Ht.
Qed.

Lemma streamed_all {R} `{!Reader R, !ReaderLaws R} (src : R) : rd_wf src → streamed src = rd_rest src.
Proof. intros Hwf. unfold streamed. by destruct (io_Copy_all src Hwf) as (r' & -> & _). Qed.

(** What [GET] answers for a blob that is there. *)
Lemma run_get now rand r w d content :
  reaches_hosted r w → rq_value r "digest" = d → BlobStoreSpec.wf (w_blobs w) →
  is_Some (Memory.blobs (w_meta w) !! d) → BlobStore.blobs (w_blobs w) !! d = Some content →
  run now rand (get servers r) w =
    Some (mkResponse 200 (blobHeaders d (int64 (Z.of_nat (length content)))) (Content content), w).
Proof.
  intros Hr Hd Hwf [row Hrow] Hc. destruct (run_route now rand r w Hr) as (record & Hrun & Ht).
  destruct (proj1 Hwf d content Hc) as [Hv Hh]. unfold get, prog_try, knownRepo. rewrite run_bind, Hrun. cbn [fst snd].
  unfold parsedDigest. rewrite Hd. unfold Digest_Validate in Hv. destruct (ParseDigest d) as [d'|] eqn:Hp; [|done].
  apply ParseDigest_id in Hp as [-> Hv']. unfold delegated. rewrite Ht. simpl (String.eqb Hosted Hosted). cbv iota.
  rewrite run_bind, run_reads_meta. unfold GetBlob. rewrite (reaches_enter r w Hr). simpl result_bind. rewrite Hrow.
  rewrite run_bind, run_reads_blobs. unfold Get, checked. rewrite Hv'. simpl result_bind. rewrite Hc.
  destruct (NewVerifiedReader _ _ _) as [reader|e] eqn:Hn.
  - pose proof (NewVerifiedReader_ok _ _ _ _ (bytes_reader_wf _) Hn) as (Hwfr & _ & Hdesc & _ & _ & Hrest & Hend).
    simpl. rewrite Hdesc, (streamed_all reader Hwfr). simpl.
    assert (rd_end reader = EOF) as He by (destruct (rd_end reader); [done|destruct Hend as [?|(_ & ? & _)]; done]).
    rewrite He in Hrest. simpl in Hrest. rewrite Hrest. done.
  - unfold NewVerifiedReader, NewVerifier in Hn. simpl in Hn. by rewrite Hv' in Hn.
Qed.

(** A push: the program, and the digest its client names. *)
Inductive pushes : Prog Response → string → Prop :=
| push_commit r : pushes (commit r) (rq_query r "digest")
| push_whole r : pushes (start quota r) (start_digest r).

Lemma pushes_wp p raw w : pushes p raw → route p ∧ wp p w (acknowledged raw).
Proof. destruct 1; split; auto using route_commit, route_start, commit_wp, start_wp. Qed.

(** C8: a push that was acknowledged can be pulled. When a commit, a whole push
    or a mount among any number of interleaved requests has been answered with
    201, then from that moment on [GET] of the digest the client named, through
    any hosted repository, answers 200 with content that hashes to the digest and
    with its length. *)
Theorem acknowledged_push_can_be_pulled w ps i p raw w' ps' resp :
  inv w → Forall route ps → ps !! i = Some p → pushes p raw →
  rtc (pool_step route) (w, ps) (w', ps') → ps' !! i = Some (Ret resp) → rs_status resp = 201%Z →
  ∃ d content, ParseDigest raw = Ok d ∧ hashes_to d content ∧
    ∀ now rand r, reaches_hosted r w' → rq_value r "digest" = d →
      run now rand (get servers r) w' =
        Some (mkResponse 200 (blobHeaders d (int64 (Z.of_nat (length content)))) (Content content), w').
Proof.
  intros Hi Hr Hp Hpush Hs Hresp H201. destruct (pushes_wp p raw w Hpush) as [_ Hwp].
  assert (i < length ps) by (by eapply lookup_lt_Some).
  apply (pool_inv route (λ j, if decide (j = i) then acknowledged raw else λ _ _, True)) in Hs as (Hi' & _ & Hps');
    [|by intros; apply route_safe|intros j; case_decide; [apply acknowledged_stable|done]
     |intros j resp' w1 Hj; rewrite decide_False by lia; done|done|].
  - specialize (Hps' i _ Hresp). rewrite decide_True in Hps' by done.
    destruct (Hps' H201) as (d & Hd & row & Hrow). destruct Hi' as (Hwf & Hrows & _).
    destruct (Hrows d row Hrow) as (_ & [content Hc] & _). exists d, content. split_and!; [done|by apply (proj1 Hwf)|].
    intros now rand r Hreach Hval. apply run_get; by eauto.
  - intros j q Hq. case_decide as Hj; [subst; by simplify_eq|]. by eapply routes_wp.
Qed.
End routes.

(** A request running alone is one of the interleavings. *)
Lemma pool_next {accepts} (p p' : Prog Response) w w1 w' ps i resp :
  ps !! i = Some p → call_step p w p' w1 →
  (∀ ps', ps' !! i = Some p' → rtc (pool_step accepts) (w1, ps') (w', <[i := Ret resp]> ps')) →
  rtc (pool_step accepts) (w, ps) (w', <[i := Ret resp]> ps).
Proof.
  intros Hp Hc Hr. eapply rtc_l; [exact (pool_call accepts w ps i p p' w1 Hp Hc)|]. rewrite <-(list_insert_insert_eq ps i (Ret resp) p'). apply Hr.
  apply list_lookup_insert_eq. by eapply lookup_lt_Some.
Qed.

Lemma run_pool {accepts} now rand p w ps i resp w' :
  ps !! i = Some p → run now rand p w = Some (resp, w') →
  rtc (pool_step accepts) (w, ps) (w', <[i := Ret resp]> ps).
Proof.
  revert w ps. induction p as [a|C op k IH|C op k IH|subject k IH|k IH|k IH|name reference k IH]; intros w ps Hp Hr; simpl in Hr.
  - simplify_eq. rewrite list_insert_id by done. constructor.
  - destruct (op false (w_meta w)) as [[s b]|e] eqn:Ho.
    + eapply pool_next; [done|exact (step_meta_ok _ op k false s b w Ho)|]. intros. by apply (IH (Ok b)).
    + eapply pool_next; [done|exact (step_meta_err _ op k false e w Ho)|]. intros. by apply (IH (Err e)).
  - destruct (op false (w_blobs w)) as [[b s]|] eqn:Ho; [|done].
    eapply pool_next; [done|exact (step_blob _ op k false s b w Ho)|]. intros. by apply (IH b).
  - eapply pool_next; [done|apply (step_bindings subject k (FetchBindings false (λ _, w_ids w) subject))|]. intros. by apply (IH (FetchBindings false (λ _, w_ids w) subject)).
  - eapply pool_next; [done|apply (step_now k now)|]. intros. by apply (IH now).
  - eapply pool_next; [done|apply (step_rand k rand)|]. intros. by apply (IH rand).
  - eapply pool_next; [done|apply step_pull|]. intros. by apply IH.
Qed.

(** ** A registry with one hosted repository *)
Definition demo_meta : Memory.Store :=
  match CreateRepository false (mkRepository "team" Hosted "{}" 0 1 1) newEmpty with Ok (s, _) => s | Err _ => newEmpty end.
Definition demo_world : World := mkWorld demo_meta (BlobStore.New true) Identity.New [].

Lemma demo_inv : inv demo_world.
Proof.
  split_and!; [apply BlobStoreSpec.New_wf|..].
  - intros d row H. vm_compute in H. discriminate H.
  - intros name d m H. vm_compute in H. discriminate H.
  - intros name d edges e H. vm_compute in H. discriminate H.
Qed.

Definition value_of (l : list (string * string)) (k : string) : string :=
  match list_find (λ kv : string * string, kv.1 = k) l with Some (_, kv) => kv.2 | None => "" end.

Definition request (values : list (string * string)) (query : list (string * string)) (headers : list (string * string)) (body : Body)
    : Request :=
  mkRequest "team/app" (value_of values) (value_of query) (value_of headers) body 0 None None.

(** A client pushes three bytes in a chunk and a commit, while another has started
    an upload of its own; the second then pulls. *)
Definition id_of (resp : Response) : string := value_of (rs_headers resp) "Docker-Upload-UUID".
Definition demo_start : Request := request [] [] [] (mkBody [] false EOF).
Definition demo_id : string := hex_bytes (replicate 16 "a"%char).
Definition demo_commit : Request := request [("id", demo_id)] [("digest", abc_digest)] [] (text "abc").
Definition demo_get : Request := request [("digest", abc_digest)] [] [] (mkBody [] false EOF).

Definition no_quota : string → Z → option string := λ _ _, None.
Definition no_servers : ContentServers := mkContentServers None None.

Definition demo_programs : list (Prog Response) := [start no_quota demo_start; commit demo_commit].

(** The state after the session was opened, and the answer and state of the commit. *)
Definition demo_run : option (World * Response * World) :=
  match run 1 (Some (replicate 16 "a"%char)) (start no_quota demo_start) demo_world with
  | Some (_, w1) =>
      match run 2 None (commit demo_commit) w1 with
      | Some (resp, w2) => Some (w1, resp, w2)
      | None => None
      end
  | None => None
  end.

Definition demo_route : Prog Response → Prop :=
  route Some (λ _, None) (λ _, None) no_quota 0 true no_servers.

Lemma demo_steps : ∃ resp1 resp w', rs_status resp = 201%Z ∧ reaches_hosted demo_get w' ∧
  rtc (pool_step demo_route) (demo_world, demo_programs) (w', [Ret resp1; Ret resp]).
Proof.
  destruct (run 1 (Some (replicate 16 "a"%char)) (start no_quota demo_start) demo_world) as [[resp1 w1]|] eqn:H1;
    [|vm_compute in H1; discriminate H1].
  assert (option_map (λ x, (rs_status x.1.2, Memory.closed (w_meta x.2), repos (w_meta x.2) !! "team")) demo_run =
    Some (201%Z, false, Some (mkRepository "team" Hosted "{}" 1 1 1))) as Hst by (vm_compute; reflexivity).
  unfold demo_run in Hst. rewrite H1 in Hst. destruct (run 2 None (commit demo_commit) w1) as [[resp w2]|] eqn:H2; [|discriminate Hst].
  injection Hst as H201 Hcl Hrepo.
  exists resp1, resp, w2. split; [exact H201|]. split.
  { split; [exact Hcl|]. by exists "team", "app", (mkRepository "team" Hosted "{}" 1 1 1). }
  etransitivity; [apply (run_pool 1 (Some (replicate 16 "a"%char)) (start no_quota demo_start) demo_world demo_programs 0 resp1 w1); [reflexivity|exact H1]|].
  apply (run_pool 2 None (commit demo_commit) w1 [Ret resp1; commit demo_commit] 1 resp w2); [reflexivity|exact H2].
Qed.

Lemma demo_routes : Forall demo_route demo_programs.
Proof. repeat constructor. Qed.

Lemma concurrent_requests_keep_content_witness : ∃ ps' w', rtc (pool_step demo_route) (demo_world, demo_programs) (w', ps') ∧
  ∀ d row, Memory.blobs (w_meta w') !! d = Some row → is_Some (BlobStore.blobs (w_blobs w') !! d).
Proof.
  destruct demo_steps as (resp1 & resp & w' & _ & _ & Hsteps). exists [Ret resp1; Ret resp], w'. split; [exact Hsteps|].
  destruct (concurrent_requests_keep_content Some (λ _, None) (λ _, None) no_quota 0 true no_servers
    demo_world demo_programs w' _ demo_inv demo_routes Hsteps) as [Hrows _].
  intros d row Hrow. destruct (Hrows d row Hrow) as (content & Hc & _). exists content. exact Hc.
Defined.

Lemma acknowledged_push_can_be_pulled_witness : ∃ w' d content, ParseDigest abc_digest = Ok d ∧ hashes_to d content ∧
  ∃ resp, run 3 None (get no_servers demo_get) w' = Some (resp, w') ∧ rs_body resp = Content content.
Proof.
  destruct demo_steps as (resp1 & resp & w' & H201 & Hreach & Hsteps).
  destruct (acknowledged_push_can_be_pulled Some (λ _, None) (λ _, None) no_quota 0 true no_servers
    demo_world demo_programs 1 (commit demo_commit) abc_digest w' _ resp demo_inv demo_routes eq_refl
    (push_commit no_quota demo_commit) Hsteps eq_refl H201) as (d & content & Hd & Hh & Hget).
  exists w', d, content. split_and!; [exact Hd|exact Hh|].
  assert (d = abc_digest) as -> by (apply ParseDigest_id in Hd as [-> _]; reflexivity).
  eexists. split; [apply (Hget 3%Z None demo_get Hreach eq_refl)|reflexivity].
Defined.
