(* ===== verification/RegistryExact.v ===== *)
(** * What single requests do, exactly

    Sessions belong to their repository, a chunk continues where the session
    ends, drift is never served, and a manifest that was pushed is pulled back as
    it was sent. *)
From S2P Require Import Prelude RepoName Digest Sha2 Verify VerifySpec GoStrings Authz Meta Group Memory MemoryInv Identity Guard.
From S2P Require Import BlobStore BlobStoreSpec Artifact Http Uploads Manifests RegistryInv RegistrySafe RegistrySpec.

(** ** Running a helper that may answer *)
Lemma run_try {A} now rand (p : Prog (result Response A)) (f : A → Prog Response) w :
  run now rand (prog_try p f) w =
  match run now rand p w with
  | Some (Ok a, w') => run now rand (f a) w'
  | Some (Err resp, w') => Some (resp, w')
  | None => None
  end.
Proof. unfold prog_try. rewrite run_bind. by destruct (run now rand p w) as [[[a|resp] w']|]. Qed.

Lemma run_tryE {A B} now rand (p : Prog (result Response A)) (f : A → Prog (result Response B)) w :
  run now rand (prog_tryE p f) w =
  match run now rand p w with
  | Some (Ok a, w') => run now rand (f a) w'
  | Some (Err resp, w') => Some (Err resp, w')
  | None => None
  end.
Proof. unfold prog_tryE. rewrite run_bind. by destruct (run now rand p w) as [[[a|resp] w']|]. Qed.

(** ** Sessions and repositories *)
Definition foreign_session (r : Request) (w : World) : Prop :=
  ∀ row, Memory.uploads (w_meta w) !! rq_value r "id" = Some row → up_repository row ≠ rq_name r.

Lemma run_openSession_foreign now rand r w :
  reaches_hosted r w → foreign_session r w → run now rand (openSession r (rq_name r)) w = Some (Err uploadUnknown, w).
Proof.
  intros Hr Hf. unfold openSession. destruct (negb _); [done|]. rewrite run_bind, run_reads_meta. unfold GetUpload.
  rewrite (reaches_enter r w Hr). simpl result_bind. destruct (Memory.uploads (w_meta w) !! rq_value r "id") as [row|] eqn:E; [|done].
  destruct (String.eqb_spec (up_repository row) (rq_name r)) as [Heq|]; [|done]. by destruct (Hf row E).
Qed.

(** An upload session is unknown outside the repository it was started
    under: continuing, committing, asking for or cancelling it through any other
    hosted repository answers the 404 an identifier that never existed gets, and
    changes nothing. *)
Theorem sessions_stay_in_their_repository now rand quota r w :
  reaches_hosted r w → foreign_session r w →
  run now rand (patch quota r) w = Some (uploadUnknown, w) ∧
  run now rand (status r) w = Some (uploadUnknown, w) ∧
  run now rand (cancel r) w = Some (uploadUnknown, w) ∧
  run now rand (commit r) w =
    Some (match ParseDigest (rq_query r "digest") with
          | Ok _ => uploadUnknown
          | Err reason => writeError 400 CodeDigestInvalid (DigestText reason)
          end, w).
Proof.
  intros Hr Hf. unfold patch, status, cancel, commit, parsedDigest.
  rewrite !run_try, !(run_hostedRepo now rand r w Hr), !run_try, !(run_openSession_foreign now rand r w Hr Hf).
  split_and!; try done. destruct (ParseDigest (rq_query r "digest")); [|done].
  by rewrite run_try, (run_openSession_foreign now rand r w Hr Hf).
Qed.

(** ** Chunks *)

(** The request names an open session of its repository, at address [a]. *)
Definition names_session (r : Request) (a : nat) (row : UploadSession) (w : World) : Prop :=
  ValidateUploadID (rq_value r "id") = true ∧
  Memory.uploads (w_meta w) !! rq_value r "id" = Some row ∧ up_repository row = rq_name r ∧
  BlobStore.uploads (w_blobs w) !! rq_value r "id" = Some a.

Lemma run_openSession now rand r a row w :
  reaches_hosted r w → names_session r a row w →
  run now rand (openSession r (rq_name r)) w = Some (Ok (a, rq_value r "id"), w).
Proof.
  intros Hr (Hid & Hrow & Hname & Ha). unfold openSession. rewrite Hid. cbn [negb]. rewrite run_bind, run_reads_meta. unfold GetUpload.
  rewrite (reaches_enter r w Hr). simpl result_bind. rewrite Hrow. rewrite Hname, String.eqb_refl. cbn [negb].
  rewrite run_bind, run_reads_blobs. unfold OpenUpload. by rewrite Ha.
Qed.

(** A chunk may state where it starts; if so it must be the session's offset. *)
Definition in_order (r : Request) (offset : Z) : Prop :=
  rq_header r "Content-Range" = "" ∨ contentRangeStart (rq_header r "Content-Range") = Some offset.

Lemma run_check_range now rand r a w :
  let offset := Offset a (w_blobs w) in
  (in_order r offset → run now rand (check_range r a) w = Some (Ok tt, w)) ∧
  (¬ in_order r offset → run now rand (check_range r a) w =
    Some (Err (writeErrorWith [("Range", rangeHeader offset)] 416 CodeBlobUploadInvalid (OffsetText offset)), w)).
Proof.
  intros offset. unfold in_order, check_range. destruct (String.eqb_spec (rq_header r "Content-Range") "") as [->|Hne].
  { split; [done|]. intros []. by left. }
  assert (run now rand (do! offset := reads_blobs (λ _, Offset a) in
      do! stated := reads_blobs (λ _, Offset a) in
      Ret (Err (writeErrorWith [("Range", rangeHeader offset)] 416 CodeBlobUploadInvalid (OffsetText stated)))) w =
    Some (Err (writeErrorWith [("Range", rangeHeader offset)] 416 CodeBlobUploadInvalid (OffsetText offset)) : result Response unit, w)) as Href.
  { rewrite run_bind, run_reads_blobs, run_bind, run_reads_blobs. done. }
  destruct (contentRangeStart _) as [start|]; [|split; [naive_solver|done]].
  rewrite run_bind, run_reads_blobs. fold offset. destruct (Z.eqb_spec start offset) as [->|Hs]; split; try done; naive_solver.
Qed.

Lemma run_write_body now rand r a w :
  let u := deref a (w_blobs w) in
  let buf := se_buf u ++ rd_rest (rq_body r) in
  se_closed u = false → rd_end (rq_body r) = EOF →
  run now rand (write_body r a) w =
    Some ((int64 (Z.of_nat (length buf)), None), set_blobs (set_session a (mkSession (se_id u) buf false) (w_blobs w)) w).
Proof.
  intros u buf Ho Hend. unfold write_body, calls_blobs. cbn [run]. unfold Write. fold u. rewrite Ho.
  destruct (io_Copy_all (rq_body r) (body_wf _)) as (b' & -> & _). by rewrite Hend.
Qed.

(** A chunk is accepted exactly when it states no range or one that starts
    where the session ends. Accepted, its bytes are appended to the session and
    to nothing else, the row records the new offset and the time, and the answer
    tells the client the range held so far; otherwise the answer is 416 with the
    range to continue from, and nothing changes. *)
Theorem chunk_appends_in_order now rand r a row w :
  reaches_hosted r w → names_session r a row w → BlobStoreSpec.wf (w_blobs w) →
  rd_end (rq_body r) = EOF → (Z.of_nat (length (se_buf (deref a (w_blobs w)) ++ rd_rest (rq_body r))) < 2 ^ 63)%Z →
  let id := rq_value r "id" in
  let u := deref a (w_blobs w) in
  let buf := se_buf u ++ rd_rest (rq_body r) in
  let offset := Z.of_nat (length (se_buf u)) in
  if bool_decide (in_order r offset) then
    run now rand (patch (λ _ _, None) r) w =
      Some (mkResponse 202 [("Location", uploadLocation (rq_name r) id); ("Range", rangeHeader (Z.of_nat (length buf)));
                            ("Docker-Upload-UUID", id)] NoBody,
            set_meta (Memory.set_uploads (<[id := mkUpload (up_id row) (up_repository row) (up_digest row)
                        (Z.of_nat (length buf)) (up_startedAt row) now]> (Memory.uploads (w_meta w))) (w_meta w))
              (set_blobs (set_session a (mkSession (se_id u) buf false) (w_blobs w)) w))
  else
    run now rand (patch (λ _ _, None) r) w =
      Some (writeErrorWith [("Range", rangeHeader offset)] 416 CodeBlobUploadInvalid (OffsetText offset), w).
Proof.
  intros Hr Hs Hwf Hend Hlen id u buf offset. fold u buf in Hlen.
  assert (int64_range (Z.of_nat (length buf))) as Hrange by (unfold int64_range; lia).
  assert (Offset a (w_blobs w) = offset) as Hoff.
  { apply int64_small. unfold int64_range, offset in *. unfold buf in Hlen. rewrite length_app in Hlen. lia. }
  destruct (run_check_range now rand r a w) as [Hin Hout]. rewrite Hoff in Hin, Hout.
  assert (se_closed u = false) as Ho.
  { destruct Hs as (_ & _ & _ & Ha). destruct (proj1 (proj2 Hwf) _ _ Ha) as (_ & u' & Hu & _ & Ho). unfold u, deref. by rewrite Hu. }
  assert (run now rand (patch (λ _ _, None) r) w = match run now rand (check_range r a) w with
    | Some (Ok _, w') => run now rand (prog_bind (write_body r a) (λ written,
        match written.2 with
        | Some _ => Ret internalError
        | None =>
            do! now := the_time in
            do! updated := writes_meta (λ ctx, UpdateUpload ctx id written.1 now) in
            match updated with
            | Err _ => Ret internalError
            | Ok _ => Ret (mkResponse 202 [("Location", uploadLocation (rq_name r) id); ("Range", rangeHeader written.1);
                ("Docker-Upload-UUID", id)] NoBody)
            end
        end)) w'
    | Some (Err resp, w') => Some (resp, w')
    | None => None end) as ->.
  { unfold patch. by rewrite run_try, (run_hostedRepo now rand r w Hr), run_try, (run_openSession now rand r a row w Hr Hs), run_try. }
  case_bool_decide as Hord; [rewrite (Hin Hord)|by rewrite (Hout Hord)].
  rewrite run_bind, (run_write_body now rand r a w Ho Hend). fold u buf. simpl.
  unfold UpdateUpload. rewrite (reaches_enter r w Hr). simpl. destruct Hs as (_ & Hrow & _ & _). fold id in Hrow.
  rewrite Hrow, int64_small by done. destruct (Z.ltb_spec (Z.of_nat (length buf)) 0); [lia|]. done.
Qed.

(** ** Reading manifests *)

(** The digest a reference stands for in a store. *)
Definition names_digest (s : Memory.Store) (name reference d : string) : Prop :=
  if isDigestReference reference then ParseDigest reference = Ok d
  else tagPattern reference = true ∧ ∃ tag, get2 (tags s) name reference = Some tag ∧ tg_digest tag = d.

Lemma drifted_spec m : drifted m = false ↔ Digest_Validate (mf_digest m) = Ok tt ∧ hashes_to (mf_digest m) (String.list_ascii_of_string (mf_payload m)).
Proof.
  unfold drifted, Digest_Validate, hashes_to, payload_digest. destruct (ParseDigest (mf_digest m)) as [d|] eqn:Hp; simpl; [|naive_solver].
  apply ParseDigest_id in Hp as [-> _]. rewrite negb_false_iff, bool_decide_eq_true. naive_solver.
Qed.

(** What reading a reference gives. *)
Lemma run_resolveHosted now rand name reference w :
  Memory.closed (w_meta w) = false →
  ∃ res, run now rand (resolveHostedManifest name reference) w = Some (res, w) ∧
    match res with
    | Ok m => ∃ d, names_digest (w_meta w) name reference d ∧ get2 (manifests (w_meta w)) name d = Some m ∧ drifted m = false
    | Err HostedUnknown => ∀ d, names_digest (w_meta w) name reference d → get2 (manifests (w_meta w)) name d = None
    | Err Drift => ∃ d, names_digest (w_meta w) name reference d ∧
        match get2 (manifests (w_meta w)) name d with Some m => drifted m = true | None => isDigestReference reference = false end
    | Err (Unparseable reason) => isDigestReference reference = true ∧ ParseDigest reference = Err reason
    | Err (HostedFailed _) => False
    end.
Proof.
  intros Hc. unfold resolveHostedManifest. rewrite run_bind.
  assert (enter false (w_meta w) = Ok tt) as Hen by (unfold enter; by rewrite Hc).
  assert (∀ d, (names_digest (w_meta w) name reference d ∧ ∀ d', names_digest (w_meta w) name reference d' → d' = d) →
    ∃ res, run now rand (do! found := reads_meta (λ ctx, GetManifest ctx name d) in
        match found with
        | Err (NotFound _ _) => Ret (Err (if isDigestReference reference then HostedUnknown else Drift))
        | Err e => Ret (Err (HostedFailed e))
        | Ok record => if drifted record then Ret (Err Drift) else Ret (Ok record)
        end) w = Some (res, w) ∧
    match res with
    | Ok m => ∃ d, names_digest (w_meta w) name reference d ∧ get2 (manifests (w_meta w)) name d = Some m ∧ drifted m = false
    | Err HostedUnknown => ∀ d, names_digest (w_meta w) name reference d → get2 (manifests (w_meta w)) name d = None
    | Err Drift => ∃ d, names_digest (w_meta w) name reference d ∧
        match get2 (manifests (w_meta w)) name d with Some m => drifted m = true | None => isDigestReference reference = false end
    | Err (Unparseable reason) => isDigestReference reference = true ∧ ParseDigest reference = Err reason
    | Err (HostedFailed _) => False
    end) as Hgo.
  { intros d [Hd Huniq]. rewrite run_bind, run_reads_meta. unfold GetManifest. rewrite Hen. simpl result_bind.
    destruct (get2 (manifests (w_meta w)) name d) as [m|] eqn:Hm.
    - destruct (drifted m) eqn:Hdr; eexists; (split; [done|]); exists d; rewrite ?Hm; done.
    - eexists. split; [done|]. destruct (isDigestReference reference) eqn:Hi.
      + intros d' Hd'. by rewrite (Huniq d' Hd').
      + exists d. by rewrite Hm. }
  unfold reference_digest. unfold names_digest in *. destruct (isDigestReference reference) eqn:Hi.
  - destruct (ParseDigest reference) as [d|reason] eqn:Hp.
    + apply Hgo. split; [done|]. naive_solver.
    + by eexists.
  - destruct (tagPattern reference); simpl negb; cbv iota.
    + rewrite run_bind, run_reads_meta. unfold GetTag. rewrite Hen. simpl result_bind.
      destruct (get2 (tags (w_meta w)) name reference) as [tag|] eqn:Ht.
      * apply (Hgo (tg_digest tag)). split; [by eauto|]. naive_solver.
      * eexists. split; [done|]. naive_solver.
    + eexists. split; [done|]. naive_solver.
Qed.

(** C16: a manifest is never served under a digest its bytes do not have. In any
    state of the store, a pull from a hosted repository answers 200 only with the
    payload filed under what the reference names, whose bytes hash to the digest
    in the response; a row whose payload does not match its digest answers 500;
    content is reported unknown only when it is not there; and only a served pull
    is counted. *)
Theorem drift_is_never_served now rand records servers r w :
  reaches_hosted r w →
  ∃ resp, run now rand (get_manifest records servers r) w =
      Some (resp, if (rs_status resp =? 200)%Z && records then add_pull (rq_name r, rq_value r "reference") w else w) ∧
    (rs_status resp = 200%Z → ∃ d m, names_digest (w_meta w) (rq_name r) (rq_value r "reference") d ∧
       get2 (manifests (w_meta w)) (rq_name r) d = Some m ∧
       hashes_to (mf_digest m) (String.list_ascii_of_string (mf_payload m)) ∧
       resp = mkResponse 200 [("Content-Type", mf_mediaType m); ("Content-Length", FormatInt (mf_size m));
                              ("Docker-Content-Digest", mf_digest m)] (Content (String.list_ascii_of_string (mf_payload m)))) ∧
    (∀ d m, names_digest (w_meta w) (rq_name r) (rq_value r "reference") d →
       get2 (manifests (w_meta w)) (rq_name r) d = Some m → rs_status resp = if drifted m then 500%Z else 200%Z) ∧
    (rs_status resp = 404%Z → ∀ d, names_digest (w_meta w) (rq_name r) (rq_value r "reference") d →
       get2 (manifests (w_meta w)) (rq_name r) d = None).
Proof.
  intros Hr. destruct (run_route now rand r w Hr) as (record & Hrun & Ht).
  destruct (run_resolveHosted now rand (rq_name r) (rq_value r "reference") w (proj1 Hr)) as (res & Hres & Hspec).
  assert (∀ d d', names_digest (w_meta w) (rq_name r) (rq_value r "reference") d →
    names_digest (w_meta w) (rq_name r) (rq_value r "reference") d' → d = d') as Huniq.
  { intros d d'. unfold names_digest. destruct (isDigestReference _); [congruence|].
    intros (_ & t & H & <-) (_ & t' & H' & <-). congruence. }
  unfold get_manifest, knownRepo. rewrite run_try, Hrun. unfold delegated. cbn [snd fst]. rewrite Ht. simpl (String.eqb Hosted Hosted).
  cbv iota. rewrite run_try. unfold resolve. rewrite run_bind, Hres. destruct res as [m|e].
  - destruct Hspec as (d & Hd & Hm & Hdr). exists (mkResponse 200 (manifestHeaders m) (Content (String.list_ascii_of_string (mf_payload m)))).
    split; [by destruct records|]. split_and!; try done.
    + intros _. exists d, m. split_and!; try done. apply drifted_spec in Hdr as [_ Hh]. exact Hh.
    + intros d' m' Hd' Hm'. rewrite (Huniq d' d Hd' Hd), Hm in Hm'. simplify_eq. by rewrite Hdr.
  - destruct e as [|reason| |]; [exists manifestUnknown|exists (writeError 400 CodeDigestInvalid (DigestText reason))|exists internalError|done];
      (split; [done|]); split_and!; try done.
    + intros d m Hd Hm. rewrite (Hspec d Hd) in Hm. done.
    + intros d m Hd. unfold names_digest in Hd. destruct Hspec as [Hi Hp]. by rewrite Hi, Hp in Hd.
    + intros d m Hd Hm. destruct Hspec as (d' & Hd' & Hs). rewrite (Huniq d' d Hd' Hd), Hm in Hs. by rewrite Hs.
Qed.

(** What [GET] answers for a manifest that is there and intact. *)
Lemma run_get_manifest now rand records servers r w d m :
  reaches_hosted r w → names_digest (w_meta w) (rq_name r) (rq_value r "reference") d →
  get2 (manifests (w_meta w)) (rq_name r) d = Some m → drifted m = false →
  ∃ w', run now rand (get_manifest records servers r) w =
    Some (mkResponse 200 (manifestHeaders m) (Content (String.list_ascii_of_string (mf_payload m))), w') ∧ w_meta w' = w_meta w.
Proof.
  intros Hr Hd Hm Hdr. destruct (run_route now rand r w Hr) as (record & Hrun & Ht).
  unfold get_manifest, knownRepo. rewrite run_try, Hrun. unfold delegated. cbn [snd fst]. rewrite Ht. simpl (String.eqb Hosted Hosted).
  cbv iota. rewrite run_try. unfold resolve, resolveHostedManifest. rewrite run_bind.
  assert (enter false (w_meta w) = Ok tt) as Hen by by apply (reaches_enter r).
  rewrite run_bind. assert (run now rand (reference_digest (rq_name r) (rq_value r "reference")) w = Some (Ok d, w)) as ->.
  { unfold reference_digest. unfold names_digest in Hd. destruct (isDigestReference _); [by rewrite Hd|].
    destruct Hd as (-> & tag & Ht' & <-). cbn [negb]. rewrite run_bind, run_reads_meta. unfold GetTag. rewrite Hen. simpl result_bind.
    by rewrite Ht'. }
  cbv beta iota. rewrite run_bind, run_reads_meta. unfold GetManifest. rewrite Hen. simpl result_bind. rewrite Hm. cbv beta iota.
  rewrite Hdr. cbn [run].
  unfold record_pull. destruct records; simpl; by eexists.
Qed.

(** ** Pushing manifests *)
Definition blob_refs (kind : string) (descs : list Artifact.Descriptor) : list ManifestRef :=
  (λ desc, mkManifestRef (de_digest desc) kind) <$> filter (λ desc, de_external desc = false) descs.

(** The edges a parsed manifest is to be stored with. *)
Definition expected_refs (parsed : Artifact.Manifest) : list ManifestRef :=
  blob_refs RefConfig (option_list (am_config parsed)) ++ blob_refs RefLayer (am_layers parsed) ++
  ((λ child, mkManifestRef (de_digest child) RefChild) <$> am_children parsed) ++
  ((λ subject, mkManifestRef (de_digest subject) RefSubject) <$> option_list (am_subject parsed)).

(** What it refers to is there, with the sizes it states. *)
Definition blob_present (s : Memory.Store) (desc : Artifact.Descriptor) : Prop :=
  de_external desc = false → ∃ row, Memory.blobs s !! de_digest desc = Some row ∧ bb_size row = de_size desc.
Definition child_present (s : Memory.Store) (name : string) (desc : Artifact.Descriptor) : Prop :=
  ∃ m, get2 (manifests s) name (de_digest desc) = Some m ∧ mf_size m = de_size desc.
Definition references_present (s : Memory.Store) (name : string) (parsed : Artifact.Manifest) : Prop :=
  Forall (blob_present s) (option_list (am_config parsed) ++ am_layers parsed) ∧ Forall (child_present s name) (am_children parsed).

(** How a check ends: with the edges, or with a refusal and the reason. *)
Definition checks {A} (now : Z) (rand : option bytes) (p : Prog (result Response A)) (w : World) (P : Prop) (a : A) : Prop :=
  (P ∧ run now rand p w = Some (Ok a, w)) ∨
  (¬ P ∧ ∃ resp, run now rand p w = Some (Err resp, w) ∧ (rs_status resp = 404 ∨ rs_status resp = 400)%Z).

Lemma checks_tryE {A B} now rand (p : Prog (result Response A)) (f : A → Prog (result Response B)) w P P' a b :
  checks now rand p w P a → checks now rand (f a) w P' b → checks now rand (prog_tryE p f) w (P ∧ P') b.
Proof.
  unfold checks. rewrite run_tryE. intros [[HP ->]|[HP (resp & -> & Hs)]] Hf; [|right; naive_solver].
  destruct Hf as [[HP' ->]|[HP' (resp & -> & Hs)]]; [left|right]; naive_solver.
Qed.

Lemma checks_iff {A} now rand (p : Prog (result Response A)) w P P' a : (P ↔ P') → checks now rand p w P a → checks now rand p w P' a.
Proof. unfold checks. naive_solver. Qed.

Section push.
Context (now : Z) (rand : option bytes) (w : World) (name : string).
Hypothesis open_store : Memory.closed (w_meta w) = false.

Lemma opened : enter false (w_meta w) = Ok tt.
Proof. unfold enter. by rewrite open_store. Qed.

Lemma checks_blobDescriptor kind desc refs :
  checks now rand (blobDescriptor kind desc refs) w (blob_present (w_meta w) desc) (refs ++ blob_refs kind [desc]).
Proof.
  unfold checks, blobDescriptor, blob_present, blob_refs. rewrite filter_cons. destruct (de_external desc) eqn:Hx.
  { left. rewrite decide_False by done. split; [done|]. by rewrite app_nil_r. }
  rewrite decide_True by done. rewrite run_bind, run_reads_meta. unfold GetBlob. rewrite opened. simpl result_bind.
  destruct (Memory.blobs (w_meta w) !! de_digest desc) as [row|]; [|right; split; [naive_solver|]; eexists; split; [done|by left]].
  cbv beta iota.
  destruct (Z.eqb_spec (bb_size row) (de_size desc)) as [He|Hne]; [left; split; [eauto|done]|right].
  split; [naive_solver|]. eexists. split; [done|by right].
Qed.

Lemma checks_layers layers refs :
  checks now rand (verify_layers layers refs) w (Forall (blob_present (w_meta w)) layers) (refs ++ blob_refs RefLayer layers).
Proof.
  revert refs. induction layers as [|layer layers IH]; intros refs.
  { left. simpl. rewrite app_nil_r. auto. }
  cbn [verify_layers]. replace (refs ++ blob_refs RefLayer (layer :: layers))
    with ((refs ++ blob_refs RefLayer [layer]) ++ blob_refs RefLayer layers).
  - eapply checks_iff; [symmetry; apply Forall_cons|]. eapply checks_tryE; [apply checks_blobDescriptor|apply IH].
  - rewrite <-(assoc_L (++)). f_equal. unfold blob_refs. rewrite <-fmap_app, <-filter_app. done.
Qed.

Lemma checks_children children refs :
  checks now rand (verify_children name children refs) w (Forall (child_present (w_meta w) name) children)
    (refs ++ ((λ child, mkManifestRef (de_digest child) RefChild) <$> children)).
Proof.
  revert refs. induction children as [|child children IH]; intros refs.
  { left. simpl. rewrite app_nil_r. auto. }
  eapply checks_iff; [symmetry; apply Forall_cons|]. unfold checks. cbn [verify_children].
  rewrite run_bind, run_reads_meta. unfold GetManifest. rewrite opened. simpl result_bind. unfold child_present at 1 3.
  destruct (get2 (manifests (w_meta w)) name (de_digest child)) as [m|]; [|right; split; [naive_solver|]; eexists; split; [done|by left]].
  destruct (Z.eqb_spec (mf_size m) (de_size child)) as [He|Hne]; cbn [negb].
  - destruct (IH (refs ++ [mkManifestRef (de_digest child) RefChild])) as [[HF Hrun]|[HF Hrun]].
    + left. split; [eauto|]. rewrite Hrun. by rewrite <-(assoc_L (++)).
    + right. split; [naive_solver|done].
  - right. split; [naive_solver|]. eexists. split; [done|by right].
Qed.

Lemma checks_references parsed :
  checks now rand (verifyReferences name parsed) w (references_present (w_meta w) name parsed) (expected_refs parsed).
Proof.
  unfold verifyReferences. apply (checks_iff _ _ _ _ (Forall (blob_present (w_meta w)) (option_list (am_config parsed)) ∧
    Forall (blob_present (w_meta w)) (am_layers parsed) ∧ Forall (child_present (w_meta w) name) (am_children parsed) ∧ True)).
  { unfold references_present. rewrite Forall_app. tauto. }
  eapply (checks_tryE _ _ _ _ _ _ _ (blob_refs RefConfig (option_list (am_config parsed)))).
  { destruct (am_config parsed) as [c|]; [|by left].
    eapply checks_iff; [|apply (checks_blobDescriptor RefConfig c [])]. simpl. by rewrite Forall_singleton. }
  eapply checks_tryE; [apply checks_layers|]. eapply checks_tryE; [apply checks_children|]. left. split; [done|].
  unfold expected_refs. rewrite !(assoc_L (++)). by destruct (am_subject parsed).
Qed.
End push.

(** *** Reading the payload: a body within the limit is read whole *)
Lemma LimitedBody_obeys :
  read_obeys (λ l : LimitedBody, rd_end (lr_r l) = EOF) (λ l, take (lr_n l) (rd_rest (lr_r l))) (λ _, EOF).
Proof.
  intros k [b n] Hb Hk. cbn [rd_read LimitedBody_Reader lr_n lr_r]. destruct n as [|n].
  { eexists [], (Some EOF), _. split_and!; try done; [simpl; lia|naive_solver|naive_solver]. }
  destruct (rd_law (Nat.min k (S n)) b (body_wf b)) as (c & e & b' & Hr & _ & Hc & Hrest & He & Hl1 & Hl2 & Hx); [lia|].
  eexists c, e, _. rewrite Hr. split_and!; try done; cbn [lr_n lr_r].
  - by rewrite He.
  - lia.
  - rewrite Hrest, take_app. f_equal. rewrite take_ge by lia. done.
  - intros x Hxe. destruct (Hx x Hxe) as [-> Hn]. rewrite Hn. split; [done|apply take_nil].
Qed.

#[export] Instance LimitedBody_Laws : ReaderLaws LimitedBody := {| rd_law := LimitedBody_obeys |}.

Lemma read_payload_ok maxBytes body :
  rd_end body = EOF → (limit maxBytes < 2 ^ 63 - 1)%Z →
  read_payload maxBytes body = Some (take (Z.to_nat (limit maxBytes + 1)) (rd_rest body), None).
Proof.
  intros He Hl. unfold read_payload. unfold add64. rewrite int64_small.
  2:{ unfold int64_range, limit in *. destruct (Z.leb_spec maxBytes 0); unfold DefaultManifestMaxBytes in *; lia. }
  destruct (io_Copy_all (mkLimitedBody body (Z.to_nat (limit maxBytes + 1)))) as (r' & -> & _); done.
Qed.

Lemma Digest_nonempty d : Digest_Validate d = Ok tt → d ≠ "".
Proof. by intros H ->. Qed.

Lemma Digest_colon d : Digest_Validate d = Ok tt → ContainsByte d ":" = true.
Proof.
  unfold Digest_Validate, ParseDigest. pose proof (Cut_spec d ":") as Hc. destruct (Cut d ":") as [[a h] [|]]; [|done].
  intros _. destruct Hc as [-> _]. induction a as [|c a IH]; simpl; [done|]. by rewrite IH, orb_true_r.
Qed.

Lemma check_ref_ok child kind : RefKind_Valid kind = true → Digest_Validate child = Ok tt → check_ref (mkManifestRef child kind) = Ok tt.
Proof.
  intros Hk Hc. unfold check_ref. simpl. rewrite Hk. destruct (String.eqb_spec child "") as [->|]; [|done]. by apply Digest_nonempty in Hc.
Qed.

Lemma foldM_checks edges : Forall (λ e, check_ref e = Ok tt) edges → foldM (λ _ r, check_ref r) tt edges = Ok tt.
Proof. induction 1 as [|e edges He _ IH]; simpl; [done|]. by rewrite He. Qed.

Lemma wf_refs_ok kind descs :
  RefKind_Valid kind = true → Forall descriptor_wf descs →
  Forall (λ e, check_ref e = Ok tt) ((λ desc, mkManifestRef (de_digest desc) kind) <$> descs).
Proof. intros Hk Hd. apply Forall_fmap. eapply Forall_impl; [exact Hd|]. intros d [Hv _]. by apply check_ref_ok. Qed.

Lemma blob_refs_ok kind descs :
  RefKind_Valid kind = true → Forall descriptor_wf descs → Forall (λ e, check_ref e = Ok tt) (blob_refs kind descs).
Proof.
  intros Hk Hd. apply wf_refs_ok; [done|]. rewrite Forall_forall in *. intros d [_ Hin]%list_elem_of_filter. auto.
Qed.

(** The edges of what was parsed are edges the store takes. *)
Lemma expected_refs_ok parsed :
  Forall descriptor_wf (all_descriptors parsed) → Forall (λ e, check_ref e = Ok tt) (expected_refs parsed).
Proof.
  unfold all_descriptors, expected_refs. rewrite !Forall_app. intros (Hc & Hl & Hch & Hs).
  split_and!; auto using blob_refs_ok, wf_refs_ok.
Qed.

Lemma Split_prefix name entity remainder : Split name = Ok (entity, remainder) → Prefix name = entity.
Proof.
  unfold Split, Prefix. destruct (Validate name); simpl; [|done]. pose proof (Cut_spec name "/") as Hc.
  destruct (Cut name "/") as [[first rest] [|]]; intros [= <- <-]; [done|]. by destruct Hc as [-> _].
Qed.

Lemma reaches_exists r w : reaches_hosted r w → repoExists (w_meta w) (entityOf (rq_name r)) = true.
Proof.
  intros (_ & entity & remainder & record & Hs & Hr & _). unfold entityOf. rewrite (Split_prefix _ _ _ Hs).
  unfold repoExists. rewrite Hr. by apply bool_decide_eq_true.
Qed.

(** The two writes of a push. *)
Lemma PutManifest_stores m edges s :
  Memory.closed s = false → repoExists s (entityOf (mf_repository m)) = true → mf_digest m ≠ "" →
  Forall (λ e, check_ref e = Ok tt) edges →
  ∃ s', PutManifest false m edges s = Ok s' ∧ Memory.closed s' = false ∧ repos s' = repos s ∧ tags s' = tags s ∧
    manifests s' = put2 (mf_repository m) (mf_digest m) m (manifests s) ∧
    get2 (refs s') (mf_repository m) (mf_digest m) = Some edges.
Proof.
  intros Hc Hr Hd He. unfold PutManifest, enter. rewrite Hc. simpl result_bind. rewrite Hr. cbn [negb].
  destruct (String.eqb_spec (mf_digest m) "") as [|_]; [done|]. rewrite (foldM_checks _ He). simpl result_bind.
  eexists. split; [done|]. simpl. split_and!; try done. rewrite get2_put2, decide_True by done. done.
Qed.

Lemma PutTag_stores tag m s :
  Memory.closed s = false → repoExists s (entityOf (tg_repository tag)) = true → tg_name tag ≠ "" →
  get2 (manifests s) (tg_repository tag) (tg_digest tag) = Some m →
  ∃ row, PutTag false tag s = Ok (set_tags (put2 (tg_repository tag) (tg_name tag) row (tags s)) s) ∧ tg_digest row = tg_digest tag.
Proof.
  intros Hc Hr Hn Hm. unfold PutTag, enter. rewrite Hc. simpl result_bind. destruct (String.eqb_spec (tg_name tag) "") as [|_]; [done|].
  rewrite Hr. cbn [negb]. rewrite Hm. destruct (get2 (tags s) (tg_repository tag) (tg_name tag)); by eexists.
Qed.

(** What a push is refused or accepted on. *)
Definition accepts ParseMediaType Unmarshal (maxBytes : Z) (r : Request) (w : World) (byDigest : option string)
    (parsed : Artifact.Manifest) : Prop :=
  let raw := rd_rest (rq_body r) in
  put_reference (rq_value r "reference") = Ok byDigest ∧
  (Z.of_nat (length raw) ≤ limit maxBytes)%Z ∧
  Parse ParseMediaType Unmarshal (rq_header r "Content-Type") (String.string_of_list_ascii raw) = Ok parsed ∧
  (∀ d, byDigest = Some d → hashes_to d raw) ∧
  references_present (w_meta w) (rq_name r) parsed.

(** The manifest a push leaves behind. *)
Definition pushed_record (r : Request) (parsed : Artifact.Manifest) (d : string) (now : Z) : Meta.Manifest :=
  Meta.mkManifest (rq_name r) d (am_mediaType parsed) (am_artifactType parsed)
    (match am_subject parsed with Some s => de_digest s | None => "" end)
    (String.string_of_list_ascii (rd_rest (rq_body r))) (Z.of_nat (length (rd_rest (rq_body r)))) now.

Lemma put_digest reference byDigest raw :
  put_reference reference = Ok byDigest →
  ∃ digest, FromBytes (put_algorithm byDigest) raw = Some digest ∧ Digest_Validate digest = Ok tt ∧ hashes_to digest raw ∧
    (∀ d, byDigest = Some d → (digest = d ↔ hashes_to d raw)) ∧
    match byDigest with
    | Some d => isDigestReference reference = true ∧ ParseDigest reference = Ok d
    | None => isDigestReference reference = false ∧ tagPattern reference = true
    end.
Proof.
  intros H. assert (is_Some (Algorithm_New (put_algorithm byDigest)) ∧ match byDigest with
    | Some d => isDigestReference reference = true ∧ ParseDigest reference = Ok d
    | None => isDigestReference reference = false ∧ tagPattern reference = true end) as [[h Hh] Hm].
  { unfold put_reference, parsedDigest in H. destruct (isDigestReference reference).
    - destruct (ParseDigest reference) as [d|] eqn:Hp; simplify_eq. split; [|done]. simpl.
      pose proof Hp as [-> _]%ParseDigest_id. destruct (proj1 (ParseDigest_ok reference)) as (a & hex & n & Hf); [by rewrite Hp|].
      unfold Digest_Algorithm. rewrite (digest_form_cut _ _ _ _ Hf). destruct Hf as (_ & Ha & _). by eapply available_hash.
    - destruct (tagPattern reference); simplify_eq. split; [|done]. by eapply (available_hash SHA256). }
  destruct (FromBytes (put_algorithm byDigest) raw) as [digest|] eqn:Hd; [|unfold FromBytes in Hd; by rewrite Hh in Hd].
  exists digest. pose proof (FromBytes_valid _ _ _ Hd) as (Hv & Ha & Hhash). split_and!; try done.
  intros d ->. simpl in Hd. unfold hashes_to. rewrite Hd. naive_solver.
Qed.

Section round_trip.
Context (ParseMediaType : string → option string) (Unmarshal : string → option wireManifest) (maxBytes : Z).
Context (now : Z) (rand : option bytes) (r : Request) (w : World).
Hypothesis reached : reaches_hosted r w.
Hypothesis whole : rd_end (rq_body r) = EOF.
Hypothesis limited : (limit maxBytes < 2 ^ 63 - 1)%Z.

(** What is in the store after a push that was taken. *)
Definition stored_push (parsed : Artifact.Manifest) (d : string) (w' : World) : Prop :=
  hashes_to d (rd_rest (rq_body r)) ∧ reaches_hosted r w' ∧
  names_digest (w_meta w') (rq_name r) (rq_value r "reference") d ∧
  manifests (w_meta w') = put2 (rq_name r) d (pushed_record r parsed d now) (manifests (w_meta w)) ∧
  get2 (refs (w_meta w')) (rq_name r) d = Some (expected_refs parsed) ∧
  ∀ name t, (name, t) ≠ (rq_name r, rq_value r "reference") → get2 (tags (w_meta w')) name t = get2 (tags (w_meta w)) name t.

Definition put_outcome (p : Prog Response) : Prop :=
  (∃ byDigest parsed d w' headers, accepts ParseMediaType Unmarshal maxBytes r w byDigest parsed ∧
     run now rand p w = Some (mkResponse 201 (("Location", "/v2/" +:+ rq_name r +:+ "/manifests/" +:+ d) ::
       ("Docker-Content-Digest", d) :: headers) NoBody, w') ∧ stored_push parsed d w') ∨
  ((∀ byDigest parsed, ¬ accepts ParseMediaType Unmarshal maxBytes r w byDigest parsed) ∧
   ∃ resp, run now rand p w = Some (resp, w) ∧ (rs_status resp = 404 ∨ rs_status resp = 400)%Z).

Lemma limit_nonneg : (0 ≤ limit maxBytes)%Z.
Proof. unfold limit. destruct (Z.leb_spec maxBytes 0); unfold DefaultManifestMaxBytes; lia. Qed.

Lemma refuse p resp :
  (∀ byDigest parsed, ¬ accepts ParseMediaType Unmarshal maxBytes r w byDigest parsed) →
  run now rand p w = Some (resp, w) → (rs_status resp = 404 ∨ rs_status resp = 400)%Z → put_outcome p.
Proof. intros. right. eauto. Qed.

(** The last part of a push: everything has been checked. *)
Lemma run_store byDigest parsed digest :
  let raw := rd_rest (rq_body r) in
  accepts ParseMediaType Unmarshal maxBytes r w byDigest parsed → FromBytes (put_algorithm byDigest) raw = Some digest →
  ∃ s', PutManifest false (Meta.mkManifest (rq_name r) digest (am_mediaType parsed) (am_artifactType parsed)
      (match am_subject parsed with Some s => de_digest s | None => "" end)
      (String.string_of_list_ascii raw) (int64 (Z.of_nat (length raw))) now) (expected_refs parsed) (w_meta w) = Ok s' ∧
    match byDigest with
    | Some _ => stored_push parsed digest (set_meta s' w)
    | None => ∃ s'', PutTag false (mkTag (rq_name r) (rq_value r "reference") digest now now) s' = Ok s'' ∧
        stored_push parsed digest (set_meta s'' (set_meta s' w))
    end.
Proof.
  intros raw (Href & Hlen & Hparse & Hmatch & _) Hdig.
  destruct (put_digest _ _ raw Href) as (digest' & Hdig' & Hv & Hh & Hsame & Hkind). rewrite Hdig in Hdig'. simplify_eq.
  pose proof reached as (Hc & entity & remainder & record & Hs & Hr & Ht).
  rewrite int64_small by (pose proof limit_nonneg; unfold int64_range; fold raw in Hlen; lia).
  destruct (PutManifest_stores (pushed_record r parsed digest' now) (expected_refs parsed) (w_meta w)) as (s' & Hput & Hc' & Hrepos & Htags & Hms & Hedges);
    [done|by apply reaches_exists|by apply Digest_nonempty|by eapply expected_refs_ok, Parse_wf|].
  exists s'. split; [exact Hput|]. assert (reaches_hosted r (set_meta s' w)) as Hreach.
  { split; [done|]. exists entity, remainder, record. simpl. by rewrite Hrepos. }
  destruct byDigest as [d|].
  - destruct Hkind as [Hi Hp]. rewrite (proj2 (Hsame d eq_refl) (Hmatch d eq_refl)) in *. split_and!; try done.
    + unfold names_digest. by rewrite Hi.
    + intros name t _. simpl. by rewrite Htags.
  - destruct Hkind as [Hi Hp]. destruct (PutTag_stores (mkTag (rq_name r) (rq_value r "reference") digest' now now) (pushed_record r parsed digest' now) s')
      as (row & Htag & Hrow); [done|by apply (reaches_exists r (set_meta s' w))|simpl; by intros He; rewrite He in Hp
      |rewrite Hms, get2_put2; by rewrite decide_True|].
    eexists. split; [exact Htag|]. split_and!; try done.
    + unfold names_digest. rewrite Hi. split; [done|]. exists row. simpl. rewrite get2_put2. by rewrite decide_True.
    + intros name t Hne. simpl. rewrite get2_put2, decide_False by naive_solver. by rewrite Htags.
Qed.

Lemma run_put : put_outcome (put ParseMediaType Unmarshal maxBytes r).
Proof.
  assert (Memory.closed (w_meta w) = false) as Hc by apply reached.
  pose proof limit_nonneg. set (raw := rd_rest (rq_body r)).
  unfold put_outcome, put. rewrite run_try, (run_hostedRepo now rand r w reached).
  destruct (put_reference (rq_value r "reference")) as [byDigest|resp] eqn:Href.
  2:{ apply (refuse (Ret resp) resp); [intros ?? (? & _); congruence|done|].
      unfold put_reference, parsedDigest in Href. destruct (isDigestReference _); repeat case_match; simplify_eq; by right. }
  rewrite (read_payload_ok _ _ whole limited). fold raw.
  destruct (Z.ltb_spec (limit maxBytes) (Z.of_nat (length (take (Z.to_nat (limit maxBytes + 1)) raw)))) as [Hlong|Hshort]; [rewrite length_take in Hlong|rewrite length_take in Hshort].
  { eapply (refuse (Ret _)); [|done|by right]. intros ?? (_ & Hlen & _). fold raw in Hlen. lia. }
  rewrite take_ge by lia.
  destruct (Parse ParseMediaType Unmarshal (rq_header r "Content-Type") (String.string_of_list_ascii raw)) as [parsed|e] eqn:Hparse.
  2:{ eapply (refuse (Ret _)); [|done|by right]. intros ?? (_ & _ & Hp & _). fold raw in Hp. congruence. }
  destruct (put_digest _ _ raw Href) as (digest & Hdig & Hv & Hh & Hsame & Hkind). rewrite Hdig. simpl default.
  assert (∀ bd pa, accepts ParseMediaType Unmarshal maxBytes r w bd pa → bd = byDigest ∧ pa = parsed) as Huniq.
  { intros bd pa (H1 & _ & H3 & _). fold raw in H3. split; congruence. }
  destruct (match byDigest with Some d => negb (String.eqb digest d) | None => false end) eqn:Hmis.
  { eapply (refuse (Ret _)); [|done|by right]. intros bd pa Hacc. destruct (Huniq _ _ Hacc) as [-> ->].
    destruct Hacc as (_ & _ & _ & Hm & _). destruct byDigest as [d|]; [|done].
    apply negb_true_iff, String.eqb_neq in Hmis. by apply Hmis, (Hsame d), Hm. }
  destruct (checks_references now rand w (rq_name r) Hc parsed) as [[Hpres Hrun]|[Habs (resp & Hrun & Hst)]].
  2:{ eapply refuse; [|by rewrite run_try, Hrun|done]. intros bd pa Hacc. destruct (Huniq _ _ Hacc) as [-> ->].
      by destruct Hacc as (_ & _ & _ & _ & ?). }
  assert (accepts ParseMediaType Unmarshal maxBytes r w byDigest parsed) as Hacc.
  { split_and!; try done; [fold raw; lia|]. intros d ->. apply (Hsame d eq_refl). by apply negb_false_iff, String.eqb_eq in Hmis. }
  destruct (run_store byDigest parsed digest Hacc Hdig) as (s' & Hput & Hafter). fold raw in Hput.
  left. exists byDigest, parsed, digest. rewrite run_try, Hrun. cbv beta iota. unfold the_time. cbn [prog_bind run].
  rewrite run_bind, run_writes_meta, Hput. cbv beta iota. destruct byDigest as [d|].
  - by eexists _, _.
  - destruct Hafter as (s'' & Htag & Hst). cbn [prog_bind run]. rewrite run_bind, run_writes_meta. simpl w_meta. rewrite Htag. by eexists _, _.
Qed.
End round_trip.

(** C9: pushing a manifest and pulling it back gives the bytes that were sent. A
    push is taken exactly when its reference is a tag or a digest of the payload,
    the payload is within the limit and parses, and every config, layer and child
    it names is stored with the size it states. Taken, the store holds the payload
    under its digest with exactly the parsed edges, the reference names it, no
    other tag moves, and a pull by the reference or by the digest answers the same
    bytes with the parsed media type; refused, nothing changes. *)
Theorem pushed_manifest_round_trip ParseMediaType Unmarshal maxBytes now rand r w :
  reaches_hosted r w → rd_end (rq_body r) = EOF → (limit maxBytes < 2 ^ 63 - 1)%Z →
  (∃ byDigest parsed d w' headers, accepts ParseMediaType Unmarshal maxBytes r w byDigest parsed ∧
     run now rand (put ParseMediaType Unmarshal maxBytes r) w =
       Some (mkResponse 201 (("Location", "/v2/" +:+ rq_name r +:+ "/manifests/" +:+ d) ::
         ("Docker-Content-Digest", d) :: headers) NoBody, w') ∧
     stored_push now r w parsed d w' ∧
     ∀ now' rand' records servers r', rq_name r' = rq_name r →
       rq_value r' "reference" = rq_value r "reference" ∨ rq_value r' "reference" = d →
       ∃ w'', run now' rand' (get_manifest records servers r') w' =
         Some (mkResponse 200 [("Content-Type", am_mediaType parsed); ("Content-Length", FormatInt (Z.of_nat (length (rd_rest (rq_body r)))));
                               ("Docker-Content-Digest", d)] (Content (rd_rest (rq_body r))), w'')) ∨
  ((∀ byDigest parsed, ¬ accepts ParseMediaType Unmarshal maxBytes r w byDigest parsed) ∧
   ∃ resp, run now rand (put ParseMediaType Unmarshal maxBytes r) w = Some (resp, w) ∧
     (rs_status resp = 404 ∨ rs_status resp = 400)%Z).
Proof.
  intros Hr Hend Hl. destruct (run_put ParseMediaType Unmarshal maxBytes now rand r w Hr Hend Hl)
    as [(byDigest & parsed & d & w' & headers & Hacc & Hrun & Hst)|Href]; [left|by right].
  exists byDigest, parsed, d, w', headers. split_and!; [done..|]. intros now' rand' records servers r' Hname Href.
  destruct Hst as (Hh & (Hc & entity & rem & record & Hs & Hrec & Ht) & Hnames & Hms & _).
  assert (Digest_Validate d = Ok tt) as Hv.
  { destruct Hacc as (Hpr & _). destruct (FromBytes_valid _ _ _ Hh) as [Hv _]. done. }
  destruct (run_get_manifest now' rand' records servers r' w' d (pushed_record r parsed d now)) as (w'' & Hget & _).
  - split; [done|]. exists entity, rem, record. by rewrite Hname.
  - rewrite Hname. destruct Href as [->| ->]; [done|]. unfold names_digest, isDigestReference.
    rewrite (Digest_colon d Hv). unfold Digest_Validate in Hv. destruct (ParseDigest d) eqn:Hp; [|done]. by apply ParseDigest_id in Hp as [-> _].
  - rewrite Hms, get2_put2, Hname. by rewrite decide_True.
  - apply drifted_spec. simpl. rewrite String.list_ascii_of_string_of_list_ascii. done.
  - exists w''. rewrite Hget. unfold manifestHeaders. simpl. by rewrite String.list_ascii_of_string_of_list_ascii.
Qed.

(** ** Examples: an open session, and a manifest whose config has been pushed *)
Definition demo_upload : UploadSession := mkUpload demo_id "team/app" "" 0 1 1.
Definition session_meta : Memory.Store :=
  match Memory.CreateUpload false demo_upload demo_meta with Ok s => s | Err _ => demo_meta end.
Definition session_world : World :=
  match BlobStore.CreateUpload false demo_id (BlobStore.New true) with
  | Ok (_, s) => mkWorld session_meta s Identity.New []
  | Err _ => demo_world
  end.
Definition team : Repository := mkRepository "team" Hosted "{}" 1 1 1.

Lemma session_wf : BlobStoreSpec.wf (w_blobs session_world).
Proof.
  unfold session_world. destruct (BlobStore.CreateUpload false demo_id (BlobStore.New true)) as [[a s]|] eqn:H; [|apply BlobStoreSpec.New_wf].
  simpl. by eapply create_wf; [apply BlobStoreSpec.New_wf|].
Qed.

(** A chunk sent through another repository of the same entity. *)
Definition foreign_chunk : Request :=
  mkRequest "team/other" (value_of [("id", demo_id)]) (value_of []) (value_of []) (text "abc") 3 None None.

Lemma sessions_stay_in_their_repository_witness :
  run 2 None (patch no_quota foreign_chunk) session_world = Some (uploadUnknown, session_world).
Proof.
  apply (sessions_stay_in_their_repository 2 None no_quota foreign_chunk session_world).
  - split; [reflexivity|]. exists "team", "other", team. split_and!; vm_compute; reflexivity.
  - intros row Hrow.
    assert (up_repository <$> Memory.uploads (w_meta session_world) !! rq_value foreign_chunk "id" = Some "team/app") as Hr by (vm_compute; reflexivity).
    rewrite Hrow in Hr. injection Hr as ->. discriminate.
Defined.

Definition demo_chunk : Request := request [("id", demo_id)] [] [("Content-Range", "0-2")] (text "abc").

Lemma chunk_appends_in_order_witness :
  ∃ w', run 2 None (patch no_quota demo_chunk) session_world = Some (mkResponse 202
    [("Location", uploadLocation "team/app" demo_id); ("Range", "0-2"); ("Docker-Upload-UUID", demo_id)] NoBody, w').
Proof.
  eexists. apply (chunk_appends_in_order 2 None demo_chunk 0 demo_upload session_world).
  - split; [reflexivity|]. exists "team", "app", team. split_and!; vm_compute; reflexivity.
  - split_and!; vm_compute; reflexivity.
  - exact session_wf.
  - reflexivity.
  - vm_compute. reflexivity.
Defined.

(** A row whose payload is not what its digest says: one byte differs. *)
Definition drifted_row : Meta.Manifest := Meta.mkManifest "team/app" abc_digest MediaTypeOCIManifest "" "" "abd" 3 1.
Definition drifted_world : World :=
  mkWorld (set_manifests (put2 "team/app" abc_digest drifted_row (manifests demo_meta)) demo_meta) (BlobStore.New true) Identity.New [].
Definition pull_digest : Request := request [("reference", abc_digest)] [] [] (mkBody [] false EOF).

Lemma drift_is_never_served_witness :
  ∃ resp, run 2 None (get_manifest true no_servers pull_digest) drifted_world = Some (resp, drifted_world) ∧ rs_status resp = 500%Z.
Proof.
  destruct (drift_is_never_served 2 None true no_servers pull_digest drifted_world) as (resp & Hrun & _ & Hst & _).
  - split; [reflexivity|]. exists "team", "app", team. split_and!; vm_compute; reflexivity.
  - specialize (Hst abc_digest drifted_row). assert (drifted drifted_row = true) as Hd by (vm_compute; reflexivity). rewrite Hd in Hst.
    exists resp. rewrite Hst in Hrun by (vm_compute; reflexivity). split; [exact Hrun|]. apply Hst; vm_compute; reflexivity.
Defined.

(** A manifest with one config, the three bytes pushed before; the decoder
    answers for this one payload. *)
Definition demo_wire : wireManifest :=
  mkWireManifest 2 MediaTypeOCIManifest "" (Some (mkWireDescriptor MediaTypeHelmConfig abc_digest (Some 3%Z) [])) [] [] None.
Definition decode (p : string) : option wireManifest := if String.eqb p "{}" then Some demo_wire else None.
Definition config_meta : Memory.Store :=
  match PutBlob false (mkBlob abc_digest 3 1) demo_meta with Ok s => s | Err _ => demo_meta end.
Definition config_world : World := mkWorld config_meta (BlobStore.New true) Identity.New [].
Definition push_v1 : Request := request [("reference", "v1")] [] [("Content-Type", MediaTypeOCIManifest)] (text "{}").

Lemma pushed_manifest_round_trip_witness :
  ∃ d w' w'', hashes_to d (String.list_ascii_of_string "{}") ∧
    run 3 None (get_manifest true no_servers push_v1) w' =
      Some (mkResponse 200 [("Content-Type", MediaTypeOCIManifest); ("Content-Length", "2"); ("Docker-Content-Digest", d)]
        (Content (String.list_ascii_of_string "{}")), w'').
Proof.
  destruct (pushed_manifest_round_trip Some decode 1000 2 None push_v1 config_world)
    as [(byDigest & parsed & d & w' & headers & Hacc & _ & Hst & Hget)|[_ (resp & Hrun & Hs)]].
  - split; [reflexivity|]. exists "team", "app", team. split_and!; vm_compute; reflexivity.
  - reflexivity.
  - reflexivity.
  - destruct Hacc as (_ & _ & Hp & _). destruct Hst as [Hh _].
    destruct (Hget 3%Z None true no_servers push_v1 eq_refl (or_introl eq_refl)) as (w'' & Hrun).
    exists d, w', w''. split; [exact Hh|]. rewrite Hrun. vm_compute in Hp. injection Hp as <-. reflexivity.
  - exfalso. assert (option_map (λ x, rs_status x.1) (run 2 None (put Some decode 1000 push_v1) config_world) = Some 201%Z) as H201
      by (vm_compute; reflexivity).
    rewrite Hrun in H201. injection H201 as H201. rewrite H201 in Hs. destruct Hs; discriminate.
Defined.

(** ** A cascade that refuses itself

    An image with two attachments, one of them an index that lists the other.
    Both are in the tree, so the check for indexes outside it passes, and the
    attachment is deleted before the index that lists it: the store refuses, and
    the answer blames an index the same request was going to delete. *)
Definition digest_of_byte (n : nat) : string := "sha256:" +:+ byte_string (replicate 64 n).
Definition subject_digest := digest_of_byte 48.
Definition attachment_digest := digest_of_byte 49.
Definition bundle_digest := digest_of_byte 50.
Definition with_manifest (d mediaType subject : string) (edges : list ManifestRef) (s : Memory.Store) : Memory.Store :=
  match PutManifest false (Meta.mkManifest "team/app" d mediaType "" subject "{}" 2 1) edges s with Ok s' => s' | Err _ => s end.
Definition bundled_meta : Memory.Store :=
  with_manifest bundle_digest MediaTypeOCIIndex subject_digest
    [mkManifestRef attachment_digest RefChild; mkManifestRef subject_digest RefSubject]
  (with_manifest attachment_digest MediaTypeOCIManifest subject_digest [mkManifestRef subject_digest RefSubject]
  (with_manifest subject_digest MediaTypeOCIManifest "" [] demo_meta)).
Definition delete_subject : Request := request [("reference", subject_digest)] [] [] (mkBody [] false EOF).

Lemma cascade_refused_by_its_own_index :
  let w := mkWorld bundled_meta (BlobStore.New true) Identity.New [] in
  match run 2 None (delete_ 5 delete_subject) w with
  | Some (resp, w') => rs_status resp = 403%Z ∧ manifests (w_meta w') = manifests (w_meta w)
  | None => False
  end.
Proof. vm_compute. split; reflexivity. Qed.
