(* ===== verification/Base64.v ===== *)
(** * Go's encoding/base64

    The encodings the repository uses: standard with padding (keys, sealed
    values, basic credentials), standard without (password verifiers) and
    URL-safe without (generated passwords). The decoder is Go's lenient one: it
    skips carriage returns and line feeds and ignores the unused low bits of a
    last group, so several texts decode to one value; the encoder picks one of
    them. *)
From S2P Require Import Prelude Sha2 Digest.
Local Open Scope Z_scope.

Record Encoding : Type := mkEncoding {
  enc_62 : ascii;
  enc_63 : ascii;
  enc_padded : bool;
}.

Definition StdEncoding : Encoding := mkEncoding "+" "/" true.
Definition RawStdEncoding : Encoding := mkEncoding "+" "/" false.
Definition RawURLEncoding : Encoding := mkEncoding "-" "_" false.

Section encoding.
Context (e : Encoding).

Definition base64_digit (n : Z) : ascii :=
  if n <? 26 then Z_byte (65 + n)
  else if n <? 52 then Z_byte (71 + n)
  else if n <? 62 then Z_byte (n - 4)
  else if n =? 62 then enc_62 e else enc_63 e.

Definition base64_value (c : ascii) : option Z :=
  let n := byte_Z c in
  if (65 <=? n) && (n <=? 90) then Some (n - 65)
  else if (97 <=? n) && (n <=? 122) then Some (n - 71)
  else if (48 <=? n) && (n <=? 57) then Some (n + 4)
  else if Ascii.eqb c (enc_62 e) then Some 62
  else if Ascii.eqb c (enc_63 e) then Some 63 else None.

(** The last group of one or two bytes. *)
Definition pad_with (s : string) : string := if enc_padded e then s else "".

Fixpoint EncodeToString (src : list ascii) : string :=
  match src with
  | [] => ""
  | [a] =>
      let n := byte_Z a * 16 in
      String (base64_digit (n / 64)) (String (base64_digit (n mod 64)) (pad_with "=="))
  | [a; b] =>
      let n := (byte_Z a * 256 + byte_Z b) * 4 in
      String (base64_digit (n / 4096)) (String (base64_digit (n / 64 mod 64))
        (String (base64_digit (n mod 64)) (pad_with "=")))
  | a :: b :: c :: rest =>
      let n := (byte_Z a * 256 + byte_Z b) * 256 + byte_Z c in
      String (base64_digit (n / 262144)) (String (base64_digit (n / 4096 mod 64))
        (String (base64_digit (n / 64 mod 64)) (String (base64_digit (n mod 64)) (EncodeToString rest))))
  end.

Definition newline (c : ascii) : bool := (byte_Z c =? 10) || (byte_Z c =? 13).

Fixpoint skip_newlines (s : string) : list ascii :=
  match s with
  | EmptyString => []
  | String c s => if newline c then skip_newlines s else c :: skip_newlines s
  end.

(** The bytes of a group of two, three and four digits. *)
Definition group2 (a b : ascii) : option (list ascii) :=
  v ← base64_value a; w ← base64_value b; Some [Z_byte ((v * 64 + w) / 16)].
Definition group3 (a b c : ascii) : option (list ascii) :=
  v ← base64_value a; w ← base64_value b; x ← base64_value c;
  let n := (v * 64 + w) * 64 + x in Some [Z_byte (n / 1024); Z_byte (n / 4)].
Definition group4 (a b c d : ascii) : option (list ascii) :=
  v ← base64_value a; w ← base64_value b; x ← base64_value c; y ← base64_value d;
  let n := ((v * 64 + w) * 64 + x) * 64 + y in Some [Z_byte (n / 65536); Z_byte (n / 256); Z_byte n].

Definition is_pad (c : ascii) : bool := enc_padded e && Ascii.eqb c "=".

(** [decodeQuantum] over the remaining input: padding may only close it. *)
Fixpoint decode_groups (src : list ascii) : option (list ascii) :=
  match src with
  | [] => Some []
  | [a; b] => if enc_padded e then None else group2 a b
  | [a; b; c] => if enc_padded e then None else group3 a b c
  | a :: b :: c :: d :: rest =>
      if is_pad c then if is_pad d && match rest with [] => true | _ => false end then group2 a b else None
      else if is_pad d then match rest with [] => group3 a b c | _ => None end
      else head ← group4 a b c d; tail ← decode_groups rest; Some (head ++ tail)
  | _ => None
  end.

Definition DecodeString (s : string) : option (list ascii) := decode_groups (skip_newlines s).
End encoding.

(** ** Decoding inverts encoding *)

(** Printable, and none of the bytes the texts around an encoding use. *)
Definition plain (c : ascii) : bool :=
  let n := byte_Z c in
  (33 <=? n) && (n <=? 126) && negb (Ascii.eqb c ":") && negb (Ascii.eqb c "$") && negb (Ascii.eqb c "#").

(** The two marks of an alphabet are not digits of the other kinds, padding or
    line ends. *)
Definition alphabet_ok (e : Encoding) : bool :=
  forallb (λ n, match base64_value e (base64_digit e n) with Some v => v =? n | None => false end
                && negb (Ascii.eqb (base64_digit e n) "=") && plain (base64_digit e n))
    (seqZ 0 64).

Lemma standard_alphabets : Forall (λ e, alphabet_ok e = true) [StdEncoding; RawStdEncoding; RawURLEncoding].
Proof. repeat constructor; vm_compute; reflexivity. Qed.

Lemma byte_Z_range c : 0 ≤ byte_Z c < 256.
Proof. unfold byte_Z. pose proof (nat_ascii_bounded c). lia. Qed.

Lemma Z_byte_Z c : Z_byte (byte_Z c) = c.
Proof.
  unfold Z_byte. pose proof (byte_Z_range c). rewrite Z.mod_small by lia. unfold byte_Z.
  by rewrite Nat2Z.id, ascii_nat_embedding.
Qed.

Lemma byte_Z_byte n : 0 ≤ n < 256 → byte_Z (Z_byte n) = n.
Proof. intros H. unfold Z_byte, byte_Z. rewrite Z.mod_small by lia. rewrite nat_ascii_embedding; lia. Qed.

Section roundtrip.
Context (e : Encoding) (Hok : alphabet_ok e = true).

Lemma plain_no_newline c : plain c = true → newline c = false.
Proof.
  unfold plain, newline. rewrite !andb_true_iff. intros ((((H & _) & _) & _) & _). apply Z.leb_le in H.
  apply orb_false_iff. split; apply Z.eqb_neq; lia.
Qed.

Lemma digit_facts n : 0 ≤ n < 64 →
  base64_value e (base64_digit e n) = Some n ∧ Ascii.eqb (base64_digit e n) "=" = false ∧
  plain (base64_digit e n) = true.
Proof.
  intros H. unfold alphabet_ok in Hok. rewrite forallb_forall in Hok.
  specialize (Hok n). rewrite <- list_elem_of_In, elem_of_seqZ in Hok.
  specialize (Hok ltac:(lia)). destruct (base64_value e (base64_digit e n)) as [v|]; [|done].
  rewrite !andb_true_iff, !negb_true_iff, Z.eqb_eq in Hok. naive_solver.
Qed.

Lemma value_digit n : 0 ≤ n < 64 → base64_value e (base64_digit e n) = Some n.
Proof. intros H. by apply digit_facts. Qed.

Lemma digit_plain n : 0 ≤ n < 64 → plain (base64_digit e n) = true.
Proof. intros H. by apply digit_facts. Qed.

Lemma digit_no_pad n : 0 ≤ n < 64 → is_pad e (base64_digit e n) = false.
Proof. intros H. unfold is_pad. destruct (digit_facts n H) as (_ & -> & _). apply andb_false_r. Qed.

Ltac digits :=
  repeat match goal with
  | |- context [newline (base64_digit e ?n)] =>
      rewrite (plain_no_newline _ (digit_plain n ltac:(Z.div_mod_to_equations; lia)))
  | |- context [plain (base64_digit e ?n)] => rewrite (digit_plain n) by (Z.div_mod_to_equations; lia)
  | |- context [is_pad e (base64_digit e ?n)] => rewrite (digit_no_pad n) by (Z.div_mod_to_equations; lia)
  | |- context [base64_value e (base64_digit e ?n)] => rewrite (value_digit n) by (Z.div_mod_to_equations; lia)
  end.

Lemma skip_pad s : s = "=" ∨ s = "==" →
  skip_newlines (pad_with e s) = if enc_padded e then String.list_ascii_of_string s else [].
Proof. unfold pad_with. intros [->| ->]; by destruct (enc_padded e). Qed.

Lemma Z_byte_eq n c : n mod 256 = byte_Z c → Z_byte n = c.
Proof.
  intros H. rewrite <- (Z_byte_Z c). unfold Z_byte. rewrite H, Z.mod_small; [done|]. apply byte_Z_range.
Qed.

Lemma DecodeString_Encode bs : DecodeString e (EncodeToString e bs) = Some bs.
Proof.
  unfold DecodeString. revert bs. fix IH 1. intros [|a [|b [|c bs]]]; [done| | |].
  - pose proof (byte_Z_range a). cbn [EncodeToString skip_newlines]. digits.
    rewrite skip_pad by auto. unfold group2.
    destruct (enc_padded e) eqn:Hp; cbn [String.list_ascii_of_string decode_groups]; unfold is_pad; rewrite Hp;
      cbn [andb]; unfold group2; digits; cbn [mbind option_bind].
    all: try (change (Ascii.eqb "=" "=") with true; cbn [andb]; unfold group2; digits; cbn [mbind option_bind]).
    all: do 2 f_equal; apply Z_byte_eq; Z.div_mod_to_equations; lia.
  - pose proof (byte_Z_range a). pose proof (byte_Z_range b). cbn [EncodeToString skip_newlines]. digits.
    rewrite skip_pad by auto.
    destruct (enc_padded e) eqn:Hp; cbn [String.list_ascii_of_string decode_groups]; rewrite ?Hp; digits; unfold group3; digits;
      cbn [mbind option_bind].
    all: try (unfold is_pad; rewrite Hp; change (Ascii.eqb "=" "=") with true; cbn [andb]).
    all: do 2 f_equal; [|f_equal]; apply Z_byte_eq; Z.div_mod_to_equations; lia.
  - pose proof (byte_Z_range a). pose proof (byte_Z_range b). pose proof (byte_Z_range c).
    cbn [EncodeToString skip_newlines]. digits. cbn [decode_groups]. digits. unfold group4. digits.
    cbn [mbind option_bind]. rewrite IH. cbn [mbind option_bind app]. do 2 f_equal; [|f_equal; [|f_equal]];
      apply Z_byte_eq; Z.div_mod_to_equations; lia.
Qed.

Lemma pad_with_plain s : s = "=" ∨ s = "==" → all_bytes plain (pad_with e s) = true.
Proof. unfold pad_with. intros [->| ->]; by destruct (enc_padded e). Qed.

Lemma EncodeToString_plain bs : all_bytes plain (EncodeToString e bs) = true.
Proof.
  revert bs. fix IH 1. intros [|a [|b [|c bs]]]; [done| | |].
  all: pose proof (byte_Z_range a); cbn [EncodeToString all_bytes].
  - digits. by rewrite pad_with_plain by auto.
  - pose proof (byte_Z_range b). digits. by rewrite pad_with_plain by auto.
  - pose proof (byte_Z_range b). pose proof (byte_Z_range c). digits. by rewrite IH.
Qed.

Lemma EncodeToString_nil bs : EncodeToString e bs = "" → bs = [].
Proof. by destruct bs as [|a [|b [|c bs]]]. Qed.
End roundtrip.
