(* ===== verification/HostPattern.v ===== *)
(** * Hosts a client may be sent to (src/internal/hostpattern, src/internal/proxy/redirect.go)

    Host patterns as an operator writes them, the IP literals of the net package,
    and the redirect policy: which URL a redirect or an authentication realm may
    name. *)
From S2P Require Import Prelude RepoName Digest GoStrings.

(** ** Strings *)

(** [strings.ToLower]: bytewise on ASCII, the Unicode mapping elsewhere. *)
Class Unicode : Type := { wide_lower : string → string }.

Definition ascii_only (s : string) : bool := all_bytes (λ c, (nat_of_ascii c <? 128)%nat) s.

Definition lower `{!Unicode} (s : string) : string := if ascii_only s then ToLower s else wide_lower s.

Fixpoint Contains (s sub : string) : bool :=
  HasPrefix s sub || match s with EmptyString => false | String _ s' => Contains s' sub end.

Definition ContainsAny (s : string) (bytes : list ascii) : bool := existsb (ContainsByte s) bytes.

(** [strings.CutPrefix]. *)
Definition CutPrefix (s prefix : string) : option string :=
  if HasPrefix s prefix then Some (String.substring (String.length prefix) (String.length s - String.length prefix) s) else None.

(** [strings.LastIndexByte] with what is before and from it. *)
Fixpoint CutLast (s : string) (sep : ascii) : option (string * string) :=
  match s with
  | EmptyString => None
  | String c s' =>
      match CutLast s' sep with
      | Some (before, after) => Some (String c before, after)
      | None => if Ascii.eqb c sep then Some ("", s') else None
      end
  end.

(** ** Addresses (net.ParseIP) *)
Definition dec_value (c : ascii) : option Z := digit_value c.

Definition hex_value (c : ascii) : option Z :=
  let n := Z.of_nat (nat_of_ascii c) in
  if in_range "0" "9" c then Some (n - 48)%Z
  else if in_range "a" "f" c then Some (n - 87)%Z
  else if in_range "A" "F" c then Some (n - 55)%Z
  else None.

(** One field of a dotted quad: digits, no leading zero, at most 255. *)
Fixpoint v4_field (digits : nat) (val : Z) (s : string) : option Z :=
  match s with
  | EmptyString => if (digits =? 0)%nat then None else Some val
  | String c s' =>
      match dec_value c with
      | None => None
      | Some d =>
          if (digits =? 1)%nat && (val =? 0)%Z then None
          else
            let val' := (val * 10 + d)%Z in
            if (255 <? val')%Z then None else v4_field (S digits) val' s'
      end
  end.

Definition parse_v4 (s : string) : option (list Z) :=
  let fields := SplitByte s "." in
  if (length fields =? 4)%nat then mapM (v4_field 0 0) fields else None.

(** The hex digits a group starts with: their value, their number and what
    follows; [None] for more than four. *)
Fixpoint v6_group (digits : nat) (acc : Z) (s : string) : option (Z * nat * string) :=
  match s with
  | EmptyString => Some (acc, digits, s)
  | String c s' =>
      match hex_value c with
      | None => Some (acc, digits, s)
      | Some d => if (3 <? digits)%nat then None else v6_group (S digits) (acc * 16 + d)%Z s'
      end
  end.

(** The loop over groups. [bytes] are those written so far and [ellipsis] where
    the double colon was; the answer is both at the end of the string. *)
Fixpoint v6_loop (fuel : nat) (bytes : list Z) (ellipsis : option nat) (s : string) : option (list Z * option nat) :=
  if (16 <=? length bytes)%nat then (if String.eqb s "" then Some (bytes, ellipsis) else None)
  else match fuel with
  | O => None
  | S fuel =>
      match v6_group 0 0 s with
      | None | Some (_, O, _) => None
      | Some (acc, _, rest) =>
          if HasPrefix rest "." then
            if (match ellipsis with None => negb (length bytes =? 12)%nat | Some _ => false end) || (16 <? length bytes + 4)%nat then None
            else quad ← parse_v4 s; Some (bytes ++ quad, ellipsis)
          else
            let bytes := bytes ++ [(acc / 256)%Z; (acc mod 256)%Z] in
            match rest with
            | EmptyString => Some (bytes, ellipsis)
            | String c after =>
                if negb (Ascii.eqb c ":") then None
                else match after with
                | EmptyString => None
                | String c2 after2 =>
                    if Ascii.eqb c2 ":" then
                      match ellipsis with
                      | Some _ => None
                      | None => if String.eqb after2 "" then Some (bytes, Some (length bytes)) else v6_loop fuel bytes (Some (length bytes)) after2
                      end
                    else v6_loop fuel bytes ellipsis after
                end
            end
      end
  end.

Definition parse_v6 (s : string) : option (list Z) :=
  let answer := match CutPrefix s "::" with
                | Some "" => Some ([], Some 0)
                | Some rest => v6_loop 9 [] (Some 0) rest
                | None => v6_loop 9 [] None s
                end in
  '(bytes, ellipsis) ← answer;
  match ellipsis with
  | None => if (length bytes =? 16)%nat then Some bytes else None
  | Some at_ =>
      if (length bytes =? 16)%nat then None
      else Some (take at_ bytes ++ replicate (16 - length bytes) 0%Z ++ drop at_ bytes)
  end.

(** The first dot, colon or percent sign says which family it is; a zone makes it
    no plain address. *)
Fixpoint first_of (s : string) : option ascii :=
  match s with
  | EmptyString => None
  | String c s' => if Ascii.eqb c "." || Ascii.eqb c ":" || Ascii.eqb c "%" then Some c else first_of s'
  end.

(** Sixteen bytes, an IPv4 address in its mapped form. *)
Definition v4_prefix : list Z := replicate 10 0%Z ++ [255; 255]%Z.
Definition ParseIP (s : string) : option (list Z) :=
  match first_of s with
  | Some "."%char => app v4_prefix <$> parse_v4 s
  | Some ":"%char => if ContainsByte s "%" then None else parse_v6 s
  | _ => None
  end.

Definition To4 (ip : list Z) : option (list Z) :=
  if bool_decide (take 12 ip = v4_prefix) then Some (drop 12 ip) else None.

Definition byte_at (ip : list Z) (i : nat) : Z := default 0%Z (ip !! i).

Definition IsLoopback (ip : list Z) : bool :=
  match To4 ip with
  | Some v4 => (byte_at v4 0 =? 127)%Z
  | None => bool_decide (ip = replicate 15 0%Z ++ [1%Z])
  end.
Definition IsPrivate (ip : list Z) : bool :=
  match To4 ip with
  | Some v4 =>
      (byte_at v4 0 =? 10)%Z ||
      ((byte_at v4 0 =? 172)%Z && (Z.land (byte_at v4 1) 240 =? 16)%Z) ||
      ((byte_at v4 0 =? 192)%Z && (byte_at v4 1 =? 168)%Z)
  | None => (Z.land (byte_at ip 0) 254 =? 252)%Z
  end.
Definition IsUnspecified (ip : list Z) : bool :=
  match To4 ip with
  | Some v4 => bool_decide (v4 = replicate 4 0%Z)
  | None => bool_decide (ip = replicate 16 0%Z)
  end.
Definition IsLinkLocalUnicast (ip : list Z) : bool :=
  match To4 ip with
  | Some v4 => (byte_at v4 0 =? 169)%Z && (byte_at v4 1 =? 254)%Z
  | None => (byte_at ip 0 =? 254)%Z && (Z.land (byte_at ip 1) 192 =? 128)%Z
  end.
Definition IsLinkLocalMulticast (ip : list Z) : bool :=
  match To4 ip with
  | Some v4 => (byte_at v4 0 =? 224)%Z && (byte_at v4 1 =? 0)%Z && (byte_at v4 2 =? 0)%Z
  | None => (byte_at ip 0 =? 255)%Z && (Z.land (byte_at ip 1) 15 =? 2)%Z
  end.
Definition IsInterfaceLocalMulticast (ip : list Z) : bool :=
  (byte_at ip 0 =? 255)%Z && (Z.land (byte_at ip 1) 15 =? 1)%Z.
Definition IsMulticast (ip : list Z) : bool :=
  match To4 ip with
  | Some v4 => (Z.land (byte_at v4 0) 240 =? 224)%Z
  | None => (byte_at ip 0 =? 255)%Z
  end.

Definition isGlobalUnicast (ip : list Z) : bool :=
  negb (IsLoopback ip || IsPrivate ip || IsUnspecified ip || IsLinkLocalUnicast ip || IsLinkLocalMulticast ip ||
        IsInterfaceLocalMulticast ip || IsMulticast ip).

(** ** Host and port (net.SplitHostPort, url.URL.Hostname) *)
Definition SplitHostPort (hostport : string) : option (string * string) :=
  '(before, port) ← CutLast hostport ":";
  match CutPrefix hostport "[" with
  | Some inner =>
      let '(host, after, found) := Cut inner "]" in
      (* the bracket closes just before the last colon *)
      if found && String.eqb after (String ":" port) && negb (ContainsByte port ":") then
        if ContainsByte inner "[" || ContainsByte after "]" then None else Some (host, port)
      else None
  | None =>
      if ContainsByte before ":" || ContainsByte hostport "[" || ContainsByte hostport "]" then None
      else Some (before, port)
  end.

Definition is_digit (c : ascii) : bool := in_range "0" "9" c.

Definition Hostname (host : string) : string :=
  let host := match CutLast host ":" with
              | Some (before, port) => if all_bytes is_digit port then before else host
              | None => host
              end in
  match CutPrefix host "[" with
  | Some inner => match CutSuffix inner "]" with (name, true) => name | _ => host end
  | None => host
  end.

(** ** Patterns (hostpattern.go) *)
Definition maxNameLength : nat := 253.
Definition maxLabelLength : nat := 63.

Inductive PatternReason : Type :=
| PatternSpace | PatternEmpty | PatternLong | PatternURL | PatternPath | PatternCredentials | PatternPort
| PatternNoDomain | PatternStar | PatternWildcardIP | LabelEmpty | LabelLong | LabelHyphen | LabelRune.

Definition isHostRune (c : ascii) : bool :=
  in_range "a" "z" c || in_range "A" "Z" c || in_range "0" "9" c || Ascii.eqb c "-".

Definition check_label (label : string) : result PatternReason unit :=
  if String.eqb label "" then Err LabelEmpty
  else if (maxLabelLength <? String.length label)%nat then Err LabelLong
  else if HasPrefix label "-" || HasSuffix label "-" then Err LabelHyphen
  else if all_bytes isHostRune label then Ok tt else Err LabelRune.

Definition PatternValidate (pattern : string) : result PatternReason unit :=
  if negb (String.eqb (TrimSpace pattern) pattern) then Err PatternSpace
  else if String.eqb pattern "" then Err PatternEmpty
  else if (maxNameLength <? String.length pattern)%nat then Err PatternLong
  else if Contains pattern "://" then Err PatternURL
  else if ContainsAny pattern ["/"; "?"; "#"]%char then Err PatternPath
  else if ContainsByte pattern "@" then Err PatternCredentials
  else if ContainsByte pattern ":" then Err PatternPort
  else
    let! host := match CutPrefix pattern "*." with
                 | Some suffix => if String.eqb suffix "" then Err PatternNoDomain else Ok suffix
                 | None => Ok pattern
                 end in
    if ContainsByte host "*" then Err PatternStar
    else match ParseIP host with
    | Some _ => if String.eqb pattern host then Ok tt else Err PatternWildcardIP
    | None => foldM (λ _ label, check_label label) tt (SplitByte host ".")
    end.

Section policy.
Context `{!Unicode}.

Definition Match (host pattern : string) : bool :=
  let pattern := lower (TrimSpace pattern) in
  let host := lower (TrimSpace host) in
  if String.eqb pattern "" || String.eqb host "" then false
  else
    let pattern := match SplitHostPort pattern with Some (h, _) => h | None => pattern end in
    match CutPrefix pattern "*." with
    | Some suffix => negb (String.eqb suffix "") && HasSuffix host ("." +:+ suffix)
    | None => String.eqb host pattern
    end.

(** ** The redirect policy (redirect.go) *)

(** What the policy reads of a parsed URL. *)
Record URL : Type := mkURL {
  u_scheme : string; u_host : string; u_user : bool; u_path : string; u_query : string; u_fragment : string;
}.

Definition DefaultMaxRedirects : Z := 5.

Record RedirectPolicy : Type := mkRedirectPolicy { rp_max : Z; rp_trusted : list string; rp_downgrade : bool }.

Inductive RefusalReason : Type :=
| TooManyHops (limit : Z)
| Downgrade
| BadScheme (scheme : string)
| NoHost
| UserInURL
| PrivateAddress
| OutsideFamily (upstream : string)
| UnusableLocation.

Definition maxHops (p : RedirectPolicy) : Z := if (rp_max p =? 0)%Z then DefaultMaxRedirects else rp_max p.

(** The host's own name, lowered. *)
Definition host_of (u : URL) : string := lower (Hostname (u_host u)).

Definition Allow (p : RedirectPolicy) (upstream u : URL) : result RefusalReason unit :=
  if negb (String.eqb (u_scheme u) "http") && negb (String.eqb (u_scheme u) "https") then Err (BadScheme (u_scheme u))
  else if String.eqb (u_host u) "" then Err NoHost
  else if u_user u then Err UserInURL
  else
    let host := host_of u in
    let upstreamHost := host_of upstream in
    if String.eqb host upstreamHost then Ok tt
    else if match ParseIP host with Some ip => negb (isGlobalUnicast ip) | None => false end then Err PrivateAddress
    else if HasSuffix host ("." +:+ upstreamHost) && negb (String.eqb upstreamHost "") then Ok tt
    else if existsb (Match host) (rp_trusted p) then Ok tt
    else Err (OutsideFamily upstreamHost).

(** [strings.EqualFold(s, "https")]; the long s folds to s. *)
Definition folds_to_https (s : string) : bool :=
  String.eqb (ToLower s) "https" || String.eqb (ToLower s) ("http" +:+ byte_string [197; 191]).

Definition Follow (p : RedirectPolicy) (upstream from to : URL) (hop : Z) : result RefusalReason unit :=
  if (maxHops p <? hop)%Z then Err (TooManyHops (maxHops p))
  else if String.eqb (u_scheme to) "http" && negb (rp_downgrade p) &&
          (folds_to_https (u_scheme from) || folds_to_https (u_scheme upstream)) then Err Downgrade
  else Allow p upstream to.
End policy.

(** ** Lemmas on strings *)
Lemma all_bytes_mono (p q : ascii → bool) s : (∀ c, p c = true → q c = true) → all_bytes p s = true → all_bytes q s = true.
Proof. intros Hpq. induction s as [|c s IH]; simpl; [done|]. rewrite !andb_true_iff. intuition. Qed.

Lemma SplitByte_bytes (p : ascii → bool) s sep :
  Forall (λ seg, all_bytes p seg = true) (SplitByte s sep) → all_bytes (λ c, p c || Ascii.eqb c sep) s = true.
Proof.
  induction s as [|c s IH]; simpl; [done|]. destruct (Ascii.eqb c sep) eqn:E.
  - intros [_ Hs]%Forall_cons. rewrite orb_true_r. simpl. auto.
  - destruct (SplitByte s sep) as [|seg rest] eqn:Hsp; intros [Hseg Hrest]%Forall_cons; simpl in Hseg.
    + rewrite andb_true_r in Hseg. rewrite Hseg. simpl. auto.
    + apply andb_true_iff in Hseg as [Hc Hseg]. rewrite Hc. simpl. apply IH. by constructor.
Qed.

Lemma lower_byte_fixes c d : in_range "a" "z" d = false → in_range "A" "Z" d = false → lower_byte c = d → c = d.
Proof.
  intros Hd1 Hd2 H. destruct (in_range "A" "Z" c) eqn:E; unfold lower_byte in H; rewrite E in H; [|done].
  exfalso. subst d. revert Hd1 E. clear. destruct c as [[][][][][][][][]]; vm_compute; congruence.
Qed.

Lemma ToLower_contains s d :
  in_range "a" "z" d = false → in_range "A" "Z" d = false → ContainsByte (ToLower s) d = ContainsByte s d.
Proof.
  intros H1 H2. induction s as [|c s IH]; simpl; [done|]. rewrite IH. f_equal.
  destruct (Ascii.eqb_spec (lower_byte c) d) as [He|Hne].
  - apply lower_byte_fixes in He as ->; [|done..]. by rewrite Ascii.eqb_refl.
  - destruct (Ascii.eqb_spec c d) as [->|]; [|done]. destruct Hne. unfold lower_byte. by rewrite H2.
Qed.

Lemma HasPrefix_cons s c p : HasPrefix s (String c p) = match s with EmptyString => false | String c' s' => Ascii.eqb c c' && HasPrefix s' p end.
Proof.
  unfold HasPrefix. destruct s as [|c' s']; simpl; [done|]. destruct (ascii_dec c c') as [->|Hne]; [by rewrite Ascii.eqb_refl|].
  by destruct (Ascii.eqb_spec c c').
Qed.

Lemma CutPrefix_spec s p : match CutPrefix s p with Some rest => s = p +:+ rest | None => HasPrefix s p = false end.
Proof.
  unfold CutPrefix. destruct (HasPrefix s p) eqn:H; [|done]. apply HasPrefix_iff in H as [t ->].
  f_equal. rewrite str_length_app. replace (String.length p + String.length t - String.length p) with (String.length t) by lia.
  by rewrite substring_app_r.
Qed.

Lemma CutPrefix_app p rest : CutPrefix (p +:+ rest) p = Some rest.
Proof.
  unfold CutPrefix. rewrite (proj2 (HasPrefix_iff _ _)) by eauto. rewrite str_length_app.
  replace (String.length p + String.length rest - String.length p) with (String.length rest) by lia. by rewrite substring_app_r.
Qed.

Lemma ToLower_app a b : ToLower (a +:+ b) = ToLower a +:+ ToLower b.
Proof. induction a as [|c a IH]; simpl; [done|]. by rewrite str_app_cons, <-IH. Qed.

(** A wildcard survives lowering, and lowering makes none. *)
Lemma CutPrefix_lower s : CutPrefix (ToLower s) "*." = ToLower <$> CutPrefix s "*.".
Proof.
  pose proof (CutPrefix_spec s "*.") as H. destruct (CutPrefix s "*.") as [rest|]; simpl.
  - rewrite H, ToLower_app. apply (CutPrefix_app "*.").
  - pose proof (CutPrefix_spec (ToLower s) "*.") as Hl. destruct (CutPrefix (ToLower s) "*.") as [rest|]; [|done].
    exfalso. destruct s as [|c [|c' s]]; simpl in Hl; try discriminate Hl. injection Hl as H1 H2 _.
    apply lower_byte_fixes in H1; [|done..]. apply lower_byte_fixes in H2; [|done..]. subst. rewrite !HasPrefix_cons in H. unfold HasPrefix in H. simpl in H. by destruct s.
Qed.

(** ** What a stored pattern covers *)
Lemma digit_value_digit_byte c d : digit_value c = Some d → is_digit c = true.
Proof. destruct c as [[][][][][][][][]]; vm_compute; congruence. Qed.

Lemma v4_field_digits n val s x : v4_field n val s = Some x → all_bytes is_digit s = true.
Proof.
  revert n val. induction s as [|c s IH]; intros n val; simpl; [done|]. unfold dec_value.
  destruct (digit_value c) as [d|] eqn:Hd; [|done]. rewrite (digit_value_digit_byte c d Hd). simpl. intros H.
  repeat case_match; try done. by eapply IH.
Qed.

Lemma parse_v4_bytes s ip : parse_v4 s = Some ip → all_bytes (λ c, is_digit c || Ascii.eqb c ".") s = true.
Proof.
  unfold parse_v4. destruct (_ =? 4)%nat; [|done]. intros H. apply SplitByte_bytes. apply mapM_Some_1 in H.
  apply Forall_forall. intros seg Hseg. apply list_elem_of_lookup_1 in Hseg as [i Hi].
  destruct (Forall2_lookup_l _ _ _ _ _ H Hi) as (x & _ & Hx). by eapply v4_field_digits.
Qed.

Lemma check_label_ok label : check_label label = Ok tt → all_bytes isHostRune label = true.
Proof. unfold check_label. repeat case_match; done. Qed.

Lemma foldM_labels labels :
  foldM (λ _ label, check_label label) tt labels = Ok tt → Forall (λ label, all_bytes isHostRune label = true) labels.
Proof.
  induction labels as [|label labels IH]; simpl; [constructor|]. destruct (check_label label) as [[]|] eqn:E; simpl; [|done].
  constructor; [by apply check_label_ok|auto].
Qed.

Definition pattern_byte (c : ascii) : bool := isHostRune c || Ascii.eqb c ".".

Lemma host_bytes host :
  ContainsByte host ":" = false →
  match ParseIP host with Some _ => True | None => foldM (λ _ label, check_label label) tt (SplitByte host ".") = Ok tt end →
  all_bytes pattern_byte host = true.
Proof.
  intros Hcolon. destruct (ParseIP host) as [ip|] eqn:Hip; intros H.
  - unfold ParseIP in Hip. destruct (first_of host) as [c|] eqn:Hf; [|done].
    assert (c ≠ ":"%char) as Hc.
    { clear Hip. revert Hf Hcolon. induction host as [|x host IH]; simpl; [done|]. destruct (Ascii.eqb_spec x ":") as [->|Hx]; [done|].
      destruct (Ascii.eqb x "." || false || Ascii.eqb x "%"); [by intros [= <-]|exact IH]. }
    destruct (ascii_dec c ".") as [->|Hne].
    + destruct (parse_v4 host) as [q|] eqn:Hq; [|done]. eapply all_bytes_mono; [|by eapply parse_v4_bytes].
      intros x. unfold pattern_byte, isHostRune, is_digit. destruct (in_range "0" "9" x); [by rewrite !orb_true_r|]. simpl. intros ->. by rewrite orb_true_r.
    + exfalso. destruct c as [[][][][][][][][]]; done.
  - by apply SplitByte_bytes, foldM_labels.
Qed.

Lemma pattern_byte_ascii c : pattern_byte c = true → (nat_of_ascii c <? 128)%nat = true.
Proof. destruct c as [[][][][][][][][]]; vm_compute; congruence. Qed.

Lemma PatternValidate_ok pattern :
  PatternValidate pattern = Ok tt →
  TrimSpace pattern = pattern ∧ pattern ≠ "" ∧ ContainsByte pattern ":" = false ∧ ascii_only pattern = true ∧
  match CutPrefix pattern "*." with Some d => d ≠ "" | None => True end.
Proof.
  unfold PatternValidate. destruct (String.eqb_spec (TrimSpace pattern) pattern) as [Ht|]; cbn [negb]; [|done].
  destruct (String.eqb_spec pattern "") as [|Hne]; [done|]. destruct (maxNameLength <? String.length pattern)%nat; [done|].
  destruct (Contains pattern "://"); [done|]. destruct (ContainsAny pattern ["/"; "?"; "#"]%char); [done|]. destruct (ContainsByte pattern "@"); [done|].
  destruct (ContainsByte pattern ":") eqn:Hcolon; [done|]. intros H.
  assert (∃ host, (pattern = host ∨ pattern = "*." +:+ host) ∧ all_bytes pattern_byte host = true ∧
    match CutPrefix pattern "*." with Some d => d ≠ "" | None => True end) as (host & Hp & Hb & Hd).
  { pose proof (CutPrefix_spec pattern "*.") as Hcut. destruct (CutPrefix pattern "*.") as [suffix|].
    - destruct (String.eqb_spec suffix "") as [|Hs]; [done|]. simpl in H. exists suffix. split_and!; [by right| |done].
      destruct (ContainsByte suffix "*"); [done|]. apply host_bytes; [by rewrite Hcut in Hcolon|by destruct (ParseIP suffix)].
    - simpl in H. exists pattern. split_and!; [by left| |done]. destruct (ContainsByte pattern "*"); [done|].
      apply host_bytes; [done|by destruct (ParseIP pattern)]. }
  split_and!; try done. apply (all_bytes_mono _ _ host pattern_byte_ascii) in Hb. by destruct Hp as [->| ->].
Qed.

Lemma lower_ascii `{!Unicode} s : ascii_only s = true → lower s = ToLower s.
Proof. unfold lower. by intros ->. Qed.

Lemma SplitHostPort_plain s : ContainsByte s ":" = false → SplitHostPort s = None.
Proof.
  intros H. unfold SplitHostPort. assert (CutLast s ":" = None) as ->; [|done].
  induction s as [|c s IH]; simpl in *; [done|]. apply orb_false_iff in H as [H1 H2]. by rewrite (IH H2), H1.
Qed.

(** A host pattern that configuration accepts covers exactly what it spells:
    without a wildcard that one host, whatever the case; with one, the names under
    that domain and not the domain itself. *)
Theorem stored_pattern_meaning `{!Unicode} pattern host :
  PatternValidate pattern = Ok tt →
  Match host pattern = true ↔
    match CutPrefix pattern "*." with
    | Some domain => domain ≠ "" ∧ ∃ label, lower (TrimSpace host) = label +:+ "." +:+ ToLower domain
    | None => lower (TrimSpace host) = ToLower pattern
    end.
Proof.
  intros (Ht & Hne & Hcolon & Ha & Hd)%PatternValidate_ok. unfold Match. rewrite Ht, (lower_ascii pattern Ha).
  destruct (String.eqb_spec (ToLower pattern) "") as [He|_]; [by destruct pattern|]. simpl.
  rewrite (SplitHostPort_plain (ToLower pattern)) by by rewrite ToLower_contains. rewrite CutPrefix_lower.
  destruct (CutPrefix pattern "*.") as [domain|] eqn:Hcut; simpl.
  - destruct (String.eqb_spec (lower (TrimSpace host)) "") as [->|_].
    + split; [done|]. intros [_ [label Hl]]. destruct label; discriminate Hl.
    + destruct (String.eqb_spec (ToLower domain) "") as [He|_]; [by destruct domain|]. simpl. rewrite HasSuffix_iff. naive_solver.
  - destruct (String.eqb_spec (lower (TrimSpace host)) "") as [->|_]; [|by rewrite String.eqb_eq].
    split; [done|]. intros He. by destruct pattern.
Qed.

(** ASCII names only. *)
Definition ascii_names : Unicode := {| wide_lower := id |}.

Lemma stored_pattern_meaning_witness :
  @Match ascii_names "CDN.Docker.com" "*.docker.com" = true ∧ ¬ @Match ascii_names "docker.com" "*.docker.com" = true.
Proof.
  split.
  - apply (@stored_pattern_meaning ascii_names "*.docker.com" "CDN.Docker.com"); [reflexivity|]. simpl. split; [discriminate|].
    by exists "cdn".
  - intros H. apply (@stored_pattern_meaning ascii_names "*.docker.com" "docker.com") in H; [|reflexivity]. simpl in H.
    destruct H as [_ [label Hl]]. vm_compute in Hl. destruct label as [|c1 [|c2 label]]; try discriminate Hl.
    apply (f_equal String.length) in Hl. simpl in Hl. rewrite str_length_app in Hl. simpl in Hl. lia.
Defined.
