(* ===== verification/Effects.v ===== *)
(** * Programs of calls

    Code that talks to stores, clocks and the network is a tree of operations
    with a continuation for every answer. [obeys] is what holds of a program
    whatever its environment does within [answers]: of every operation it makes
    and of every value it returns; [along] is the same where both depend on what has
    happened so far. [exec] runs a program against a handler. *)
From S2P Require Import Prelude.

Inductive prog (E : Type → Type) (A : Type) : Type :=
| Done (a : A)
| Do {B : Type} (e : E B) (k : B → prog E A).
Arguments Done {E A} a.
Arguments Do {E A B} e k.

Section prog.
Context {E : Type → Type}.

Fixpoint bind {A B} (p : prog E A) (f : A → prog E B) : prog E B :=
  match p with
  | Done a => f a
  | Do e k => Do e (λ b, bind (k b) f)
  end.

Definition call {B} (e : E B) : prog E B := Do e Done.

(** Sequencing after a step that may have failed. *)
Definition bindE {X A B} (p : prog E (result X A)) (f : A → prog E (result X B)) : prog E (result X B) :=
  bind p (λ r, match r with Ok a => f a | Err e => Done (Err e) end).

(** ** All environments *)
Section obeys.
Context (answers : ∀ B, E B → B → Prop) (may : ∀ B, E B → Prop).

Fixpoint obeys {A} (Q : A → Prop) (p : prog E A) : Prop :=
  match p with
  | Done a => Q a
  | Do e k => may _ e ∧ ∀ b, answers _ e b → obeys Q (k b)
  end.

Lemma obeys_mono {A} (Q Q' : A → Prop) p : (∀ a, Q a → Q' a) → obeys Q p → obeys Q' p.
Proof. intros HQ. induction p as [a|B e k IH]; simpl; [auto|]. intros [He Hk]. split; auto. Qed.

Lemma obeys_bind {A B} (Q : A → Prop) (Q' : B → Prop) p f :
  obeys Q p → (∀ a, Q a → obeys Q' (f a)) → obeys Q' (bind p f).
Proof. intros Hp Hf. induction p as [a|C e k IH]; simpl in *; [auto|]. destruct Hp as [He Hk]. split; auto. Qed.

Lemma obeys_bindE {X A B} (Q : A → Prop) (Q' : result X B → Prop) p f :
  obeys (λ r, match r with Ok a => Q a | Err e => Q' (Err e) end) p → (∀ a, Q a → obeys Q' (f a)) → obeys Q' (bindE p f).
Proof. intros Hp Hf. eapply obeys_bind; [exact Hp|]. intros [a|e] Ha; [auto|exact Ha]. Qed.

Lemma obeys_call {B} (Q : B → Prop) (e : E B) : may _ e → (∀ b, answers _ e b → Q b) → obeys Q (call e).
Proof. done. Qed.

Lemma obeys_then {A B} (Q : B → Prop) (p : prog E A) k : obeys (λ _, True) p → (∀ a, obeys Q (k a)) → obeys Q (bind p k).
Proof. intros Hp Hk. eapply obeys_bind; [exact Hp|]. intros a _. apply Hk. Qed.

Lemma obeys_thenE {X A B} (Q : result X B → Prop) (p : prog E (result X A)) k :
  obeys (λ r, match r with Ok _ => True | Err e => Q (Err e) end) p → (∀ a, obeys Q (k a)) → obeys Q (bindE p k).
Proof. intros Hp Hk. apply (obeys_bindE (λ _, True)); auto. Qed.

Lemma obeys_and {A} (Q1 Q2 : A → Prop) p : obeys Q1 p → obeys Q2 p → obeys (λ a, Q1 a ∧ Q2 a) p.
Proof. induction p as [a|B e k IH]; simpl; [auto|]. intros [? ?] [? ?]. split; auto. Qed.
End obeys.

(** Fewer answers, and more permitted, is weaker. *)
Lemma obeys_weaken {A} (answers answers' : ∀ B, E B → B → Prop) (may may' : ∀ B, E B → Prop) (Q : A → Prop) p :
  (∀ B e b, answers' B e b → answers B e b) → (∀ B e, may B e → may' B e) →
  obeys answers may Q p → obeys answers' may' Q p.
Proof. intros Ha Hm. induction p as [a|B e k IH]; simpl; [done|]. intros [He Hk]. split; auto. Qed.

(** ** One environment: a handler of every operation, which may have no answer *)
Section exec.
Context {S : Type} (handle : ∀ B, E B → S → option (B * S)).

Fixpoint exec {A} (p : prog E A) (s : S) : option (A * S) :=
  match p with
  | Done a => Some (a, s)
  | Do e k => match handle _ e s with Some (b, s') => exec (k b) s' | None => None end
  end.

Lemma exec_bind {A B} (p : prog E A) (f : A → prog E B) s :
  exec (bind p f) s = match exec p s with Some (a, s') => exec (f a) s' | None => None end.
Proof. revert s. induction p as [a|C e k IH]; intros s; simpl; [done|]. destruct (handle C e s) as [[b s']|]; [apply IH|done]. Qed.

Lemma exec_call {B} (e : E B) s : exec (call e) s = handle _ e s.
Proof. simpl. by destruct (handle B e s) as [[]|]. Qed.

Lemma exec_bindE {X A B} (p : prog E (result X A)) (f : A → prog E (result X B)) s :
  exec (bindE p f) s =
  match exec p s with Some (Ok a, s') => exec (f a) s' | Some (Err e, s') => Some (Err e, s') | None => None end.
Proof. unfold bindE. rewrite exec_bind. by destruct (exec p s) as [[[a|e] s']|]. Qed.

(** What every environment allows holds of a run whose handler is one of them;
    [inv] is what the handler keeps of its state. *)
Lemma exec_obeys {A} (inv : S → Prop) (answers : ∀ B, E B → B → Prop) (may : ∀ B, E B → Prop) (Q : A → Prop) p s a s' :
  (∀ B (e : E B) s b s', inv s → may B e → handle B e s = Some (b, s') → answers B e b ∧ inv s') →
  inv s → obeys answers may Q p → exec p s = Some (a, s') → Q a ∧ inv s'.
Proof.
  intros Hh. revert s. induction p as [x|B e k IH]; intros s Hi Hp Hx; simpl in *; [by simplify_eq|]. destruct Hp as [He Hk].
  destruct (handle B e s) as [[b s1]|] eqn:Hb; [|done]. destruct (Hh B e s b s1 Hi He Hb) as [Ha Hi1]. by eapply IH; eauto.
Qed.
End exec.
(** ** Histories: what was called and answered so far, the latest first *)
Inductive event : Type :=
| Ev {B : Type} (e : E B) (b : B).

(** A run of a program from one history to another. *)
Inductive ran {A} : prog E A → list event → A → list event → Prop :=
| ran_done a h : ran (Done a) h a h
| ran_do B (e : E B) (k : B → prog E A) b h a h' : ran (k b) (Ev e b :: h) a h' → ran (Do e k) h a h'.

(** [obeys] for environments and promises that depend on the history. *)
Section along.
Context (answers : list event → ∀ B, E B → B → Prop) (may : list event → ∀ B, E B → Prop).

Fixpoint along {A} (Q : list event → A → Prop) (h : list event) (p : prog E A) : Prop :=
  match p with
  | Done a => Q h a
  | Do e k => may h _ e ∧ ∀ b, answers h _ e b → along Q (Ev e b :: h) (k b)
  end.

Lemma along_mono {A} (Q Q' : list event → A → Prop) h p : (∀ h a, Q h a → Q' h a) → along Q h p → along Q' h p.
Proof. intros HQ. revert h. induction p as [a|B e k IH]; intros h; simpl; [auto|]. intros [He Hk]. split; auto. Qed.

Lemma along_bind {A B} (Q : list event → A → Prop) (Q' : list event → B → Prop) h p f :
  along Q h p → (∀ h a, Q h a → along Q' h (f a)) → along Q' h (bind p f).
Proof. intros Hp Hf. revert h Hp. induction p as [a|C e k IH]; intros h Hp; simpl in *; [auto|]. destruct Hp as [He Hk]. split; auto. Qed.

Lemma along_bindE {X A B} (Q : list event → A → Prop) (Q' : list event → result X B → Prop) h p f :
  along (λ h r, match r with Ok a => Q h a | Err e => Q' h (Err e) end) h p → (∀ h a, Q h a → along Q' h (f a)) → along Q' h (bindE p f).
Proof. intros Hp Hf. eapply along_bind; [exact Hp|]. intros h' [a|e] Ha; [auto|exact Ha]. Qed.

Lemma along_ran {A} (Q : list event → A → Prop) h p : along Q h p → along (λ h' a, ran p h a h' ∧ h `suffix_of` h' ∧ Q h' a) h p.
Proof.
  revert h. induction p as [a|B e k IH]; intros h; simpl; [intros HQ; split_and!; [constructor|done..]|]. intros [He Hk]. split; [done|].
  intros b Hb. eapply along_mono; [|by apply IH, Hk]. intros h' a (Hr & Hs & Ha). split_and!; [by eapply ran_do| |done].
  etrans; [|exact Hs]. by exists [Ev e b].
Qed.

(** What holds of every history holds along one. *)
Lemma obeys_along {A} (answers' : ∀ B, E B → B → Prop) (may' : ∀ B, E B → Prop) (Q : A → Prop) h p :
  (∀ h B e b, answers h B e b → answers' B e b) → (∀ h B e, may' B e → may h B e) →
  obeys answers' may' Q p → along (λ _, Q) h p.
Proof. intros Ha Hm. revert h. induction p as [a|B e k IH]; intros h; simpl; [done|]. intros [He Hk]. split; [by apply Hm|]. eauto. Qed.
End along.
End prog.

Notation "'fx!' x ':=' p 'in' k" := (bind p (λ x, k)) (at level 10, x name, p at level 100, k at level 200) : trove_scope.
Notation "'fxE!' x ':=' p 'in' k" := (bindE p (λ x, k)) (at level 10, x name, p at level 100, k at level 200) : trove_scope.
