(* ===== verification/Upstream.v ===== *)
(** * The upstream client (src/internal/proxy: client.go, auth.go, ratelimit.go, registryclient.go)

    One configured upstream, spoken to over HTTP: conditional tag resolution,
    manifests and blobs by digest, redirects under the policy, the token
    exchange, and what the upstream says of its quota. The network, the clock and
    the credential source are operations with any answer. *)
From S2P Require Import Prelude RepoName Digest Sha2 Verify VerifySpec GoStrings Meta Memory BlobStore Artifact Limiter Http Manifests.
From S2P Require Import HostPattern Effects Base64.

(** ** Failures (client.go) *)

(** What went wrong below HTTP. *)
Inductive NetFailure : Type :=
| DNSFailure (timeout : bool)
| NetFailed (timeout : bool)
| OtherFailure (what : string).

Inductive TransportCause : Type :=
| HeaderTimeout                           (* our own deadline *)
| Net (f : NetFailure)
| BuildRequest
| ReadBody (e : BlobError).

Inductive AuthReason : Type :=
| NoChallenge | NoCredentials | CredentialsUnread | NoRealm | BadRealm | TokenRejected | TokenNeedsCredentials
| TokenUnreadable | NoToken.

Inductive UpstreamError : Type :=
| StatusErr (status : Z) (method path : string)
| RateLimited (retryAfter : Z) (has : bool) (path : string)
| Transport (cause : TransportCause)
| Refused (reason : RefusalReason)
| Reference (kind value : string)
| TooLarge (limit : Z) (path : string)
| AuthFailed (reason : AuthReason)
| MismatchErr (e : BlobError)
| Unusable (repository digest : string) (reason : ManifestError)
| ContextDone                             (* the caller's own cancellation or deadline *)
| Remembered (repository reference : string)
| StoreFailed (e : MetaError)
| BlobsFailed (e : BlobError)
| CoalescerType
| Looping.                                (* a redirect chain longer than the policy allows: never returned *)

Inductive Sentinel : Type :=
| SNotFound | SUnauthorized | SRateLimited | SDigestMismatch | SUpstreamUnavailable | SRedirectRefused | SInvalidReference
| SManifestTooLarge.

#[export] Instance Sentinel_eq_dec : EqDecision Sentinel.
Proof. solve_decision. Defined.

(** The status codes of each sentinel. *)
Definition status_is (status : Z) (target : Sentinel) : bool :=
  match target with
  | SNotFound => (status =? 404)%Z || (status =? 410)%Z
  | SUnauthorized => (status =? 401)%Z || (status =? 403)%Z
  | SUpstreamUnavailable =>
      negb (status =? 404)%Z && negb (status =? 410)%Z && negb (status =? 401)%Z && negb (status =? 403)%Z
  | _ => false
  end.

(** [errors.Is] over the errors of this package. *)
Definition ErrIs (e : UpstreamError) (target : Sentinel) : bool :=
  match e with
  | StatusErr status _ _ => status_is status target
  | RateLimited _ _ _ => bool_decide (target = SRateLimited)
  | Transport _ | Unusable _ _ _ | CoalescerType => bool_decide (target = SUpstreamUnavailable)
  | Refused _ => bool_decide (target = SRedirectRefused)
  | Reference _ _ => bool_decide (target = SInvalidReference)
  | TooLarge _ _ => bool_decide (target = SManifestTooLarge)
  | AuthFailed _ => bool_decide (target = SUnauthorized)
  | MismatchErr (Mismatch _ _ _) => bool_decide (target = SDigestMismatch)
  | Remembered _ _ => bool_decide (target = SNotFound)
  | MismatchErr _ | ContextDone | StoreFailed _ | BlobsFailed _ | Looping => false
  end.

(** ** What is asked and what is answered (client.go) *)
Record Conditional : Type := mkConditional { cd_digest : string; cd_etag : string }.
Definition IsZero (c : Conditional) : bool := String.eqb (cd_digest c) "" && String.eqb (cd_etag c) "".

Record Resolution : Type := mkResolution {
  rv_changed : bool; rv_digest : string; rv_mediaType : string; rv_etag : string; rv_size : Z; rv_manifest : bytes;
}.

Record RateLimitState : Type := mkRateLimitState {
  rl_known : bool; rl_limit : Z; rl_remaining : Z; rl_window : Z; rl_retryAfter : Z; rl_until : Z; rl_observed : Z;
}.

Record HttpRequest : Type := mkHttp { hq_method : string; hq_url : URL; hq_headers : list (string * string) }.

(** [ha_header] is the values of a header, [ha_length] the content length. *)
Record HttpResponse : Type := mkHttpResponse {
  ha_status : Z; ha_header : string → list string; ha_length : Z; ha_body : Body;
}.

Definition header_get (resp : HttpResponse) (key : string) : string :=
  match ha_header resp key with value :: _ => value | [] => "" end.

(** A request that failed: the caller's context when it is over, whether our
    timer fired, and what the network said. *)
Record TransportFailure : Type := mkTransportFailure { tf_ctx : bool; tf_timedOut : bool; tf_net : NetFailure }.

(** What the client learns while running, under its lock. *)
Record ClientState : Type := mkClientState {
  cs_auth : gmap string (string * Z);       (* scope: header and expiry *)
  cs_basicUntil : Z;
  cs_rate : RateLimitState;
}.

Definition new_state : ClientState := mkClientState ∅ 0 (mkRateLimitState false 0 0 0 0 0 0).

(** ** The operations of the proxy subsystem *)

(** A manifest served from a proxy repository, and what a tag resolves to. *)
Record ManifestResult : Type := mkManifestResult {
  mr_digest : string; mr_mediaType : string; mr_payload : bytes; mr_hit : bool; mr_cached : bool;
}.

Record TagResolution : Type := mkTagResolution {
  tr_digest : string; tr_hit : bool; tr_revalidated : bool; tr_changed : bool; tr_stale : bool; tr_staleFor : Z;
}.

(** The untyped value a flight hands to everybody waiting on it. *)
Inductive any : Type :=
| AnyManifest (r : ManifestResult)
| AnyTag (r : TagResolution)
| AnyOther.

(** What joining the flight of a key gives: to run it, or what another run gave. *)
Inductive Joined : Type :=
| Lead
| LeadGone                               (* runs it, but its own context ends before the work does *)
| Shared (r : result UpstreamError any)
| Left.                                  (* the caller's own context ended first *)

Record backoffState : Type := mkBackoffState { bs_failures : Z; bs_until : Z }.

(** Events of the proxy: filled, corrupt upstream content, stale content served. *)
Inductive ProxyEvent : Type :=
| CacheFilled (repository upstream digest : string) (size : Z)
| UpstreamCorrupt (repository digest : string)
| StaleServed (repository upstream tag digest : string) (staleSeconds : Z) (cause : string).

(** What a client is built from (registryclient.go). *)
Record ClientOptions : Type := mkClientOptions {
  co_upstream : string; co_creds : bool; co_redirects : RedirectPolicy; co_timeout : Z; co_maxManifest : Z; co_userAgent : string;
}.

(** One entity's client in the cache (clients.go): what it was built from, and the
    version of the configuration that was. *)
Record cachedClient : Type := mkCachedClient { cc_options : ClientOptions; cc_version : Z }.

Inductive op : Type → Type :=
| OpHttp (req : HttpRequest) : op (result TransportFailure HttpResponse)
| OpNow : op Z
| OpRand : op bytes
| OpJitter : op (Z → Z)
| OpCreds : op (option (string * string))
| OpClient {B} (f : ClientState → B * ClientState) : op B
| OpMeta {B} (f : bool → Memory.Store → result MetaError (Memory.Store * B)) : op (result MetaError B)
| OpBlobs {B} (f : bool → BlobStore.Store → option (B * BlobStore.Store)) : op B
| OpBackoff {B} (f : gmap string backoffState → B * gmap string backoffState) : op B
| OpJoin (key : string) : op Joined
| OpPublish (e : ProxyEvent) : op unit
| OpClients {B} (f : gmap string cachedClient → B * gmap string cachedClient) : op B
| OpTouch (repo digest kind : string) : op unit.

Abbreviation up := (prog op).

Definition now_ : up Z := call OpNow.
Definition locked {B} (f : ClientState → B * ClientState) : up B := call (OpClient f).

(** ** The client interface (client.go) *)
Record Client : Type := mkClientOps {
  ask_ResolveTag : string → string → Conditional → up (result UpstreamError Resolution);
  ask_FetchManifest : string → string → up (result UpstreamError (bytes * string));
  ask_FetchBlob : string → string → up (result UpstreamError (verifiedReader Body * Z));
}.

(** Any answer at all, and any operation. *)
Definition anything : ∀ B, op B → B → Prop := λ _ _ _, True.
Definition anyhow : ∀ B, op B → Prop := λ _ _, True.

(** What a client does: it talks to the network and keeps its own state. *)
Definition client_op (B : Type) (e : op B) : Prop :=
  match e with OpHttp _ | OpNow | OpCreds | OpClient _ => True | _ => False end.

(** What callers rely on, whatever the network answers: a client touches neither
    store, content is verified before it is returned or as it streams, and an
    unchanged tag is the one asked about. *)
Class ClientLaws (cl : Client) : Prop := {
  resolve_law repository tag cond : obeys anything client_op (λ r, match r with
    | Ok rv => (rv_manifest rv ≠ [] → hashes_to (rv_digest rv) (rv_manifest rv)) ∧
               (rv_changed rv = true → Digest_Validate (rv_digest rv) = Ok tt) ∧
               (rv_changed rv = false → rv_digest rv = cd_digest cond)
    | Err _ => True
    end) (ask_ResolveTag cl repository tag cond);
  manifest_law repository digest : obeys anything client_op (λ r, match r with
    | Ok (payload, _) => hashes_to digest payload
    | Err _ => True
    end) (ask_FetchManifest cl repository digest);
  blob_law repository digest : obeys anything client_op (λ r, match r with
    | Ok (reader, size) => ∃ body, NewVerifiedReader body (Verify.mkDescriptor digest size) false = Ok reader
    | Err _ => True
    end) (ask_FetchBlob cl repository digest);
}.

(** ** Rate limits (ratelimit.go) *)
Definition second : Z := 1000000000.

(** The window of the parameters of one policy: the last [w] that is positive. *)
Definition window_param (acc : Z) (lower : string → string) (param : string) : Z :=
  let '(key, val, found) := Cut param "=" in
  if negb found || negb (String.eqb (TrimSpace (lower key)) "w") then acc
  else match ParseInt (TrimSpace val) with
  | Some seconds => if (0 <? seconds)%Z then int64 (seconds * second) else acc
  | None => acc
  end.

(** ** Challenges (auth.go) *)
Definition maxChallengeParams : nat := 32.
Definition maxTokenBytes : Z := 2 ^ 20.
Definition defaultTokenLifetime : Z := (60 * second)%Z.
Definition tokenExpirySkew : Z := (10 * second)%Z.
Definition basicAuthMemory : Z := (5 * 60 * second)%Z.

(** [strings.TrimLeft] with an ASCII cutset. *)
Fixpoint TrimLeft (cut : ascii → bool) (s : string) : string :=
  match s with
  | String c s' => if cut c then TrimLeft cut s' else s
  | EmptyString => s
  end.

Definition blank (c : ascii) : bool := Ascii.eqb c " " || Ascii.eqb c (ascii_of_nat 9).

(** A quoted string without its opening quote, and what follows it. *)
Fixpoint scan_quoted (escaped : bool) (s : string) : string * string :=
  match s with
  | EmptyString => ("", "")
  | String c s' =>
      if escaped then let '(out, rest) := scan_quoted false s' in (String c out, rest)
      else if Ascii.eqb c "092" then scan_quoted true s'
      else if Ascii.eqb c "034" then ("", s')
      else let '(out, rest) := scan_quoted false s' in (String c out, rest)
  end.

Definition scanQuoted (s : string) : string * string :=
  match s with String _ s' => scan_quoted false s' | EmptyString => ("", "") end.

(** ** Basic credentials: standard base64 with padding *)
Definition basicValue (username password : string) : string :=
  EncodeToString StdEncoding (String.list_ascii_of_string (username +:+ ":" +:+ password)).

Section client.
Context `{!Unicode}.

(** Parsing and joining of URLs, query strings, token documents and HTTP dates. *)
Context (url_Parse : string → option URL) (url_Resolve : URL → string → option URL).
Context (set_query : string → list (string * string) → string).
Context (buildable : URL → bool).
Context (decode_token : bytes → option (string * string * Z)).
Context (http_ParseTime : string → option Z).

Definition parseRateLimitHeader (value : string) : option (Z * Z) :=
  let value := TrimSpace value in
  if String.eqb value "" then None
  else
    let '(first, _, _) := Cut value "," in
    let '(countPart, rest, _) := Cut first ";" in
    match ParseInt (TrimSpace countPart) with
    | None => None
    | Some count => Some (count, foldl (λ acc param, window_param acc lower param) 0%Z (SplitByte rest ";"))
    end.

Definition parseRetryAfter (value : string) (now : Z) : option Z :=
  let value := TrimSpace value in
  if String.eqb value "" then None
  else match ParseInt value with
  | Some seconds => if (seconds <? 0)%Z then Some 0%Z else Some (int64 (seconds * second))
  | None =>
      match http_ParseTime value with
      | None => None
      | Some when => let delay := time_sub when now in Some (if (0 <? delay)%Z then delay else 0%Z)
      end
  end.

Definition observed (now : Z) (status : Z) (limit remaining : option (Z * Z)) (retryAfter : option Z) (r : RateLimitState)
    : RateLimitState :=
  let r := mkRateLimitState (rl_known r) (rl_limit r) (rl_remaining r) (rl_window r) (rl_retryAfter r) (rl_until r) now in
  let r := match limit with
           | Some (n, w) => mkRateLimitState true n (rl_remaining r) (if (0 <? w)%Z then w else rl_window r) (rl_retryAfter r) (rl_until r) now
           | None => r
           end in
  let r := match remaining with
           | Some (n, w) => mkRateLimitState true (rl_limit r) n (if (0 <? w)%Z then w else rl_window r) (rl_retryAfter r) (rl_until r) now
           | None => r
           end in
  if (status =? 429)%Z then
    let d := default 0%Z retryAfter in mkRateLimitState (rl_known r) (rl_limit r) (rl_remaining r) (rl_window r) d (now + d)%Z now
  else r.

Definition observeRateLimit (resp : HttpResponse) : up unit :=
  fx! now := now_ in
  let limit := parseRateLimitHeader (header_get resp "RateLimit-Limit") in
  let remaining := parseRateLimitHeader (header_get resp "RateLimit-Remaining") in
  let retryAfter := parseRetryAfter (header_get resp "Retry-After") now in
  match limit, remaining, retryAfter with
  | None, None, None => Done tt
  | _, _, _ =>
      locked (λ c, (tt, mkClientState (cs_auth c) (cs_basicUntil c) (observed now (ha_status resp) limit remaining retryAfter (cs_rate c))))
  end.

(** One pass per parameter; every pass that goes on consumes at least the equals
    sign, so the string bounds them. *)
Fixpoint challenge_params (fuel : nat) (s : string) (params : gmap string string) : gmap string string :=
  match fuel with
  | O => params
  | S fuel =>
      if (maxChallengeParams <=? size params)%nat then params
      else
        let s := TrimLeft (λ c, blank c || Ascii.eqb c ",") s in
        if String.eqb s "" then params
        else
          let '(key, rest, found) := Cut s "=" in
          if negb found then params
          else
            let key := lower (TrimSpace key) in
            let rest := TrimLeft blank rest in
            let '(value, rest) :=
              if HasPrefix rest (String "034" "") then scanQuoted rest
              else let '(value, rest, _) := Cut rest "," in (TrimSpace value, rest) in
            let params :=
              if negb (String.eqb key "") && negb (ContainsAny key [" "; ascii_of_nat 9]%char) then <[key := value]> params else params in
            challenge_params fuel rest params
  end.

Definition parseChallengeParams (s : string) : gmap string string := challenge_params (S (String.length s)) s ∅.

Record challenge : Type := mkChallenge { ch_scheme : string; ch_params : gmap string string }.

Fixpoint parse_challenges (values : list string) (basic : option challenge) : option challenge :=
  match values with
  | [] => basic
  | value :: values =>
      let '(scheme, rest, _) := Cut (TrimSpace value) " " in
      if String.eqb (lower scheme) "bearer" then Some (mkChallenge "bearer" (parseChallengeParams rest))
      else if String.eqb (lower scheme) "basic" then
        parse_challenges values
          (match basic with Some _ => basic | None => Some (mkChallenge "basic" (parseChallengeParams rest)) end)
      else parse_challenges values basic
  end.

Definition parseChallenge (values : list string) : option challenge := parse_challenges values None.

Definition param (ch : challenge) (key : string) : string := default "" (ch_params ch !! key).

Definition scopeFor (repository : string) : string := "repository:" +:+ repository +:+ ":pull".

(** ** The client (registryclient.go) *)
Definition DefaultRequestTimeout : Z := (30 * second)%Z.
Definition DefaultMaxManifestBytes : Z := 4 * 2 ^ 20.

Definition acceptManifests : string :=
  MediaTypeOCIManifest +:+ ", " +:+ MediaTypeOCIIndex +:+ ", " +:+ MediaTypeDockerManifest +:+ ", " +:+ MediaTypeDockerList.

(** [cl_creds] is whether a credential source is configured. *)
Record RegistryClient : Type := mkClient {
  cl_base : URL; cl_creds : bool; cl_redirects : RedirectPolicy; cl_timeout : Z; cl_maxManifest : Z; cl_userAgent : string;
}.

Definition NewClient (opts : ClientOptions) : result UpstreamError RegistryClient :=
  let bad := Err (Reference "upstream" (co_upstream opts)) in
  if String.eqb (co_upstream opts) "" then bad
  else match url_Parse (co_upstream opts) with
  | None => bad
  | Some base =>
      if negb (String.eqb (u_scheme base) "http") && negb (String.eqb (u_scheme base) "https") then bad
      else if String.eqb (u_host base) "" then bad
      else if u_user base then bad
      else if negb (String.eqb (u_path base) "") && negb (String.eqb (u_path base) "/") then bad
      else if negb (String.eqb (u_query base) "") || negb (String.eqb (u_fragment base) "") then bad
      else Ok (mkClient (mkURL (u_scheme base) (u_host base) false "" "" "") (co_creds opts) (co_redirects opts)
             (if (co_timeout opts <=? 0)%Z then DefaultRequestTimeout else co_timeout opts)
             (if (co_maxManifest opts <=? 0)%Z then DefaultMaxManifestBytes else co_maxManifest opts) (co_userAgent opts))
  end.

Definition isRedirect (status : Z) : bool :=
  (status =? 301)%Z || (status =? 302)%Z || (status =? 303)%Z || (status =? 307)%Z || (status =? 308)%Z.

Definition mediaTypeOf (resp : HttpResponse) : string :=
  let '(value, _, _) := Cut (header_get resp "Content-Type") ";" in TrimSpace value.

Definition firstNonEmpty (a b : string) : string := if String.eqb a "" then b else a.

Definition manifestPath (repository reference : string) : string := "/v2/" +:+ repository +:+ "/manifests/" +:+ reference.

Definition validateRepository (repository : string) : result UpstreamError unit :=
  if Valid repository then Ok tt else Err (Reference "repository" repository).

Definition validateTag (tag : string) : result UpstreamError unit :=
  if tagPattern tag then Ok tt else Err (Reference "tag" tag).

Definition validateDigest (digest : string) : result UpstreamError unit :=
  match Digest_Validate digest with Ok _ => Ok tt | Err _ => Err (Reference "digest" digest) end.

Section requests.
Context (c : RegistryClient).

Definition sameFamily (u : URL) : bool :=
  let host := host_of u in
  let base := host_of (cl_base c) in
  String.eqb host base || (negb (String.eqb base "") && HasSuffix host ("." +:+ base)).

(** Headers are lists of values per key; an [Authorization] among them is the
    credential when there is no other. *)
Definition pick_credential (auth : string) (header : list (string * list string)) : string :=
  foldl (λ credential '(key, values),
    if String.eqb (ToLower key) "authorization" then
      (if String.eqb credential "" then match values with value :: _ => value | [] => credential end else credential)
    else credential) auth header.

Definition plain_headers (header : list (string * list string)) : list (string * string) :=
  header ≫= λ '(key, values), if String.eqb (ToLower key) "authorization" then [] else (λ value, (key, value)) <$> values.

Definition applyHeaders (header : list (string * list string)) (auth : string) (current : URL) (trustHost : bool)
    : list (string * string) :=
  let credential := pick_credential auth header in
  plain_headers header ++
  (if String.eqb (cl_userAgent c) "" then [] else [("User-Agent", cl_userAgent c)]) ++
  (if negb (String.eqb credential "") && (trustHost || sameFamily current) then [("Authorization", credential)] else []).

Definition transportError (f : TransportFailure) : UpstreamError :=
  if tf_ctx f then ContextDone else if tf_timedOut f then Transport HeaderTimeout else Transport (Net (tf_net f)).

(** [more] redirects may still be followed. *)
Fixpoint send_loop (more : nat) (method : string) (current : URL) (header : list (string * list string)) (auth : string)
    (credentialHost : string) (hop : Z) : up (result UpstreamError HttpResponse) :=
  if negb (buildable current) then Done (Err (Transport BuildRequest))
  else
    let headers := applyHeaders header auth current ((hop =? 0)%Z && negb (String.eqb credentialHost "")) in
    fx! answer := call (OpHttp (mkHttp method current headers)) in
    match answer with
    | Err f => Done (Err (transportError f))
    | Ok resp =>
        if negb (isRedirect (ha_status resp)) then fx! _seen := observeRateLimit resp in Done (Ok resp)
        else
          let location := header_get resp "Location" in
          match url_Resolve current location with
          | None => Done (Err (Refused UnusableLocation))
          | Some next =>
              if String.eqb location "" then Done (Err (Refused UnusableLocation))
              else match Follow (cl_redirects c) (cl_base c) current next (hop + 1) with
              | Err reason => Done (Err (Refused reason))
              | Ok _ =>
                  match more with
                  | O => Done (Err Looping)
                  | S more => send_loop more method next header auth credentialHost (hop + 1)
                  end
              end
          end
    end.

Definition send (method : string) (target : URL) (header : list (string * list string)) (auth credentialHost : string)
    : up (result UpstreamError HttpResponse) :=
  send_loop (Z.to_nat (maxHops (cl_redirects c))) method target header auth credentialHost 0.

Definition statusError (resp : HttpResponse) (method path : string) : up UpstreamError :=
  if (ha_status resp =? 429)%Z then
    fx! now := now_ in
    let retryAfter := parseRetryAfter (header_get resp "Retry-After") now in
    Done (RateLimited (default 0%Z retryAfter) (bool_decide (is_Some retryAfter)) path)
  else Done (StatusErr (ha_status resp) method path).

(** ** Authorization (auth.go) *)
Definition basicAuthorization : up (result UpstreamError string) :=
  if negb (cl_creds c) then Done (Err (AuthFailed NoCredentials))
  else
    fx! pair := call OpCreds in
    match pair with
    | None => Done (Err (AuthFailed CredentialsUnread))
    | Some (username, password) => Done (Ok ("Basic " +:+ basicValue username password))
    end.

(** The empty header is anonymous. *)
Definition authorizationFor (scope : string) : up (result UpstreamError string) :=
  fx! known := locked (λ s, ((cs_auth s !! scope, cs_basicUntil s), s)) in
  fx! now := now_ in
  match known.1 with
  | Some (header, expires) =>
      if (now <? expires)%Z then Done (Ok header)
      else if negb (known.2 =? 0)%Z && (now <? known.2)%Z && cl_creds c then basicAuthorization
      else Done (Ok "")
  | None =>
      if negb (known.2 =? 0)%Z && (now <? known.2)%Z && cl_creds c then basicAuthorization
      else Done (Ok "")
  end.

Definition read_token (resp : HttpResponse) : option (bytes * option ReadError) :=
  match io_Copy (mkLimitedBody (ha_body resp) (Z.to_nat maxTokenBytes)) with
  | Some (body, e, _) => Some (body, e)
  | None => None
  end.

Definition token_lifetime (expiresIn : Z) : Z :=
  let lifetime := if (0 <? expiresIn)%Z then int64 (expiresIn * second) else defaultTokenLifetime in
  if (tokenExpirySkew <? lifetime)%Z then (lifetime - tokenExpirySkew)%Z else lifetime.

(** The body of a token response is decoded and remembered under the scope. *)
Definition accept_token (scope : string) (resp : HttpResponse) : up (result UpstreamError string) :=
  match read_token resp with
  | None => Done (Err (Transport (ReadBody (ReadFailed ""))))
  | Some (_, Some (Failed e)) => Done (Err (Transport (ReadBody e)))
  | Some (body, _) =>
      match decode_token body with
      | None => Done (Err (AuthFailed TokenUnreadable))
      | Some (token, accessToken, expiresIn) =>
          let token := firstNonEmpty token accessToken in
          if String.eqb token "" then Done (Err (AuthFailed NoToken))
          else
            let header := "Bearer " +:+ token in
            fx! now := now_ in
            fx! _kept := locked (λ s, (tt, mkClientState (<[scope := (header, now + token_lifetime expiresIn)%Z]> (cs_auth s))
                                     (cs_basicUntil s) (cs_rate s))) in
            Done (Ok header)
      end
  end.

Definition token_query (ch : challenge) (scope : string) : list (string * string) :=
  let requested := firstNonEmpty (param ch "scope") scope in
  (if String.eqb (param ch "service") "" then [] else [("service", param ch "service")]) ++
  (if String.eqb requested "" then [] else [("scope", requested)]).

Definition token_url (realm : URL) (ch : challenge) (scope : string) : URL :=
  mkURL (u_scheme realm) (u_host realm) (u_user realm) (u_path realm) (set_query (u_query realm) (token_query ch scope)) (u_fragment realm).

Definition fetchToken (ch : challenge) (scope : string) : up (result UpstreamError string) :=
  if String.eqb (param ch "realm") "" then Done (Err (AuthFailed NoRealm))
  else match url_Parse (param ch "realm") with
  | None => Done (Err (AuthFailed BadRealm))
  | Some realm =>
      match Allow (cl_redirects c) (cl_base c) realm with
      | Err reason => Done (Err (Refused reason))
      | Ok _ =>
          let tokenURL := token_url realm ch scope in
          fxE! header :=
            if cl_creds c then fxE! basic := basicAuthorization in Done (Ok [("Authorization", [basic])])
            else Done (Ok []) in
          fxE! resp := send "GET" tokenURL header "" (Hostname (u_host realm)) in
          if (ha_status resp =? 401)%Z || (ha_status resp =? 403)%Z then
            Done (Err (AuthFailed (if cl_creds c then TokenRejected else TokenNeedsCredentials)))
          else if negb (ha_status resp =? 200)%Z then fx! e := statusError resp "GET" (u_path tokenURL) in Done (Err e)
          else accept_token scope resp
      end
  end.

Definition authorize (ch : challenge) (scope : string) : up (result UpstreamError string) :=
  if String.eqb (ch_scheme ch) "basic" then
    fxE! auth := basicAuthorization in
    fx! now := now_ in
    fx! _kept := locked (λ s, (tt, mkClientState (cs_auth s) (now + basicAuthMemory)%Z (cs_rate s))) in
    Done (Ok auth)
  else fetchToken ch scope.

Definition with_path (path : string) : URL :=
  mkURL (u_scheme (cl_base c)) (u_host (cl_base c)) (u_user (cl_base c)) path (u_query (cl_base c)) (u_fragment (cl_base c)).

(** One logical request: a 401 is answered once. *)
Definition request (method path : string) (header : list (string * list string)) (scope : string)
    : up (result UpstreamError HttpResponse) :=
  fxE! auth := authorizationFor scope in
  fxE! resp := send method (with_path path) header auth "" in
  if negb (ha_status resp =? 401)%Z then Done (Ok resp)
  else match parseChallenge (ha_header resp "Www-Authenticate") with
  | None => Done (Err (AuthFailed NoChallenge))
  | Some ch =>
      fxE! auth := authorize ch scope in
      send method (with_path path) header auth ""
  end.

(** ** Reading what came back *)
Definition readManifest (resp : HttpResponse) (path : string) : result UpstreamError bytes :=
  match io_Copy (mkLimitedBody (ha_body resp) (Z.to_nat (add64 (cl_maxManifest c) 1))) with
  | None => Err (Transport (ReadBody (ReadFailed "")))
  | Some (_, Some (Failed e), _) => Err (Transport (ReadBody e))
  | Some (body, _, _) => if (cl_maxManifest c <? Z.of_nat (length body))%Z then Err (TooLarge (cl_maxManifest c) path) else Ok body
  end.

Definition verifyBytes (body : bytes) (digest : string) : result UpstreamError unit :=
  match Copy (mkBytesReader body) digest with
  | Some (_, Ok _, _) => Ok tt
  | Some (_, Err e, _) => Err (MismatchErr e)
  | None => Err (MismatchErr (ReadFailed ""))
  end.

Definition conditional_header (cond : Conditional) : list (string * list string) :=
  ("Accept", [acceptManifests]) :: (if String.eqb (cd_etag cond) "" then [] else [("If-None-Match", [cd_etag cond])]).

(** The tag is as the caller knew it. *)
Definition unchanged (cond : Conditional) (resp : HttpResponse) (size : Z) : Resolution :=
  mkResolution false (cd_digest cond) (mediaTypeOf resp) (firstNonEmpty (header_get resp "ETag") (cd_etag cond)) size [].

(** [None] is not settled: the caller fetches. *)
Definition revalidate (path scope : string) (cond : Conditional) : up (result UpstreamError (option Resolution)) :=
  fxE! resp := request "HEAD" path (conditional_header cond) scope in
  let status := ha_status resp in
  if (status =? 304)%Z then Done (Ok (Some (unchanged cond resp (ha_length resp))))
  else if (status =? 200)%Z then
    let declared := header_get resp "Docker-Content-Digest" in
    if String.eqb declared "" || String.eqb (cd_digest cond) "" then Done (Ok None)
    else match ParseDigest declared with
    | Err _ => Done (Ok None)
    | Ok digest => if String.eqb digest (cd_digest cond) then Done (Ok (Some (unchanged cond resp (ha_length resp)))) else Done (Ok None)
    end
  else if (status =? 404)%Z || (status =? 410)%Z then fx! e := statusError resp "HEAD" path in Done (Err e)
  else
    fx! e := statusError resp "HEAD" path in
    if ErrIs e SUnauthorized || ErrIs e SRateLimited then Done (Err e) else Done (Ok None).

(** The digest of a body, checked against the declared one when there is one. *)
Definition computed_digest (body : bytes) (declared : string) : result UpstreamError string :=
  if String.eqb declared "" then Ok (default "" (FromBytes SHA256 body))
  else match ParseDigest declared with
  | Err _ => Err (Reference "digest" declared)
  | Ok parsed => let! _ok := verifyBytes body parsed in Ok parsed
  end.

Definition fetchTag (path scope : string) (cond : Conditional) : up (result UpstreamError Resolution) :=
  fxE! resp := request "GET" path (conditional_header cond) scope in
  if (ha_status resp =? 304)%Z then Done (Ok (unchanged cond resp (-1)))
  else if negb (ha_status resp =? 200)%Z then fx! e := statusError resp "GET" path in Done (Err e)
  else match readManifest resp path with
  | Err e => Done (Err e)
  | Ok body =>
      match computed_digest body (header_get resp "Docker-Content-Digest") with
      | Err e => Done (Err e)
      | Ok digest =>
          let changed := negb (String.eqb digest (cd_digest cond)) in
          Done (Ok (mkResolution changed digest (mediaTypeOf resp) (header_get resp "ETag") (int64 (Z.of_nat (length body)))
                 (if changed then body else [])))
      end
  end.

(** A failed check before anything is sent. *)
Definition checking {A} (check : result UpstreamError unit) (k : up (result UpstreamError A)) : up (result UpstreamError A) :=
  match check with Err e => Done (Err e) | Ok _ => k end.

Definition ResolveTag (repository tag : string) (cond : Conditional) : up (result UpstreamError Resolution) :=
  checking (validateRepository repository)
  (checking (validateTag tag)
  (checking (if String.eqb (cd_digest cond) "" then Ok tt else validateDigest (cd_digest cond))
  (let path := manifestPath repository tag in
   let scope := scopeFor repository in
   if IsZero cond then fetchTag path scope cond
   else
     fxE! settled := revalidate path scope cond in
     match settled with
     | Some resolution => Done (Ok resolution)
     | None => fetchTag path scope cond
     end))).

Definition FetchManifest (repository digest : string) : up (result UpstreamError (bytes * string)) :=
  checking (validateRepository repository)
  (checking (validateDigest digest)
  (let path := manifestPath repository digest in
   fxE! resp := request "GET" path [("Accept", [acceptManifests])] (scopeFor repository) in
   if negb (ha_status resp =? 200)%Z then fx! e := statusError resp "GET" path in Done (Err e)
   else match readManifest resp path with
   | Err e => Done (Err e)
   | Ok body => match verifyBytes body digest with Err e => Done (Err e) | Ok _ => Done (Ok (body, mediaTypeOf resp)) end
   end)).

Definition FetchBlob (repository digest : string) : up (result UpstreamError (verifiedReader Body * Z)) :=
  checking (validateRepository repository)
  (checking (validateDigest digest)
  (let path := "/v2/" +:+ repository +:+ "/blobs/" +:+ digest in
   fxE! resp := request "GET" path [] (scopeFor repository) in
   if negb (ha_status resp =? 200)%Z then fx! e := statusError resp "GET" path in Done (Err e)
   else match NewVerifiedReader (ha_body resp) (Verify.mkDescriptor digest (ha_length resp)) false with
   | Err _ => Done (Err (Reference "digest" digest))
   | Ok reader => Done (Ok (reader, ha_length resp))
   end)).

Definition RateLimit : up RateLimitState := locked (λ s, (cs_rate s, s)).

(** The client behind the interface. *)
Definition registry_client : Client := mkClientOps ResolveTag FetchManifest FetchBlob.
End requests.
End client.
