(* ===== verification/UpstreamSpec.v ===== *)
(** * What the upstream client may do, whatever it is told

    Every theorem is over all answers of the network, the clock and the
    credential source: where requests and credentials can go, how many there are,
    and what may be returned. *)
From S2P Require Import Prelude RepoName Digest Sha2 Verify VerifySpec GoStrings Meta Memory BlobStore Artifact Limiter Http Manifests.
From S2P Require Import HostPattern Effects Upstream.

(** ** The policy, as a predicate on hosts *)
Section policy.
Context `{!Unicode}.

(** The upstream's own host and its subdomains. *)
Definition family (base u : URL) : Prop :=
  host_of u = host_of base ∨ (host_of base ≠ "" ∧ ∃ label, host_of u = label +:+ "." +:+ host_of base).

(** No IP literal that is not globally routable. *)
Definition public (u : URL) : Prop := ∀ ip, ParseIP (host_of u) = Some ip → isGlobalUnicast ip = true.

Definition trusted (p : RedirectPolicy) (u : URL) : Prop := Exists (λ pattern, Match (host_of u) pattern = true) (rp_trusted p).

(** Where the policy lets the client go. *)
Definition permitted (p : RedirectPolicy) (base u : URL) : Prop :=
  host_of u = host_of base ∨ (public u ∧ (family base u ∨ trusted p u)).

Definition web_scheme (u : URL) : Prop := u_scheme u = "http" ∨ u_scheme u = "https".

Lemma Allow_permitted p base u : Allow p base u = Ok tt → permitted p base u ∧ web_scheme u.
Proof.
  unfold Allow. intros Hok.
  assert (web_scheme u) as Hw.
  { unfold web_scheme. destruct (String.eqb_spec (u_scheme u) "http"), (String.eqb_spec (u_scheme u) "https"); simpl in Hok; auto; done. }
  split; [|done]. destruct (negb _ && negb _); [done|]. destruct (String.eqb (u_host u) ""); [done|]. destruct (u_user u); [done|].
  destruct (String.eqb_spec (host_of u) (host_of base)) as [|Hne]; [by left|]. right.
  assert (public u) as Hp.
  { intros ip Hip. rewrite Hip in Hok. by destruct (isGlobalUnicast ip). }
  split; [done|]. destruct (match ParseIP (host_of u) with Some ip => _ | None => _ end); [done|].
  destruct (HasSuffix (host_of u) ("." +:+ host_of base) && negb (String.eqb (host_of base) "")) eqn:Hs.
  - apply andb_true_iff in Hs as [[label Hl]%HasSuffix_iff Hb]. left. right. split; [by apply negb_true_iff, String.eqb_neq in Hb|by exists label].
  - right. destruct (existsb (Match (host_of u)) (rp_trusted p)) eqn:He; [|done]. apply existsb_exists in He as (x & Hx & Hm).
    apply Exists_exists. exists x. by rewrite list_elem_of_In.
Qed.

Lemma Follow_ok p base from to hop :
  Follow p base from to hop = Ok tt →
  (hop ≤ maxHops p)%Z ∧ Allow p base to = Ok tt ∧
  (u_scheme to = "http" → rp_downgrade p = true ∨ (folds_to_https (u_scheme from) = false ∧ folds_to_https (u_scheme base) = false)).
Proof.
  unfold Follow. destruct (Z.ltb_spec (maxHops p) hop); [done|].
  destruct (String.eqb_spec (u_scheme to) "http") as [E|E]; simpl.
  - destruct (rp_downgrade p); simpl; [by auto|].
    destruct (folds_to_https (u_scheme from)), (folds_to_https (u_scheme base)); simpl; auto; done.
  - by auto.
Qed.
End policy.

(** ** Counting requests *)
Definition is_http {B} (e : op B) : bool := match e with OpHttp _ => true | _ => false end.

Fixpoint at_most {A} (n : nat) (p : up A) : Prop :=
  match p with
  | Done _ => True
  | Do e k => if is_http e then match n with O => False | S n => ∀ b, at_most n (k b) end else ∀ b, at_most n (k b)
  end.

Lemma at_most_mono {A} n m (p : up A) : n ≤ m → at_most n p → at_most m p.
Proof.
  revert n m. induction p as [a|B e k IH]; intros n m Hnm; simpl; [done|]. destruct (is_http e); [|eauto].
  destruct n as [|n], m as [|m]; try done; [lia|]. intros H b. apply (IH b n); [lia|auto].
Qed.

Lemma at_most_bind {A B} n m (p : up A) (f : A → up B) : at_most n p → (∀ a, at_most m (f a)) → at_most (n + m) (bind p f).
Proof.
  revert n. induction p as [a|C e k IH]; intros n Hp Hf; simpl in *; [apply (at_most_mono m); [lia|auto]|].
  destruct (is_http e); [|auto]. destruct n as [|n]; [done|]. simpl. auto.
Qed.

Lemma at_most_bindE {X A B} n m (p : up (result X A)) (f : A → up (result X B)) :
  at_most n p → (∀ a, at_most m (f a)) → at_most (n + m) (bindE p f).
Proof. intros Hp Hf. apply at_most_bind; [done|]. by intros [a|e]. Qed.

(** ** Where requests and credentials go *)
Section confined.
Context `{!Unicode} (url_Parse : string → option URL) (url_Resolve : URL → string → option URL).
Context (set_query : string → list (string * string) → string) (buildable : URL → bool).
Context (decode_token : bytes → option (string * string * Z)) (http_ParseTime : string → option Z).
Context (c : RegistryClient).

(** The URL of a token request: a realm some challenge named, which the policy
    allows, with its query. *)
Definition realm_url (u : URL) : Prop :=
  ∃ raw realm query, url_Parse raw = Some realm ∧ Allow (cl_redirects c) (cl_base c) realm = Ok tt ∧
    u = mkURL (u_scheme realm) (u_host realm) (u_user realm) (u_path realm) query (u_fragment realm).

Definition keeps_https (u : URL) : Prop :=
  u_scheme (cl_base c) = "https" → rp_downgrade (cl_redirects c) = false → u_scheme u = "http" → realm_url u.

Definition sent_ok (req : HttpRequest) : Prop :=
  permitted (cl_redirects c) (cl_base c) (hq_url req) ∧ keeps_https (hq_url req) ∧
  ∀ value, ("Authorization", value) ∈ hq_headers req → family (cl_base c) (hq_url req) ∨ realm_url (hq_url req).

Definition sends (B : Type) (e : op B) : Prop := client_op B e ∧ match e with OpHttp req => sent_ok req | _ => True end.

Definition confined {A} (p : up A) : Prop := obeys anything sends (λ _, True) p.

Lemma confined_done {A} (a : A) : confined (Done a).
Proof. done. Qed.
Lemma confined_call {B} (e : op B) : sends B e → confined (call e).
Proof. done. Qed.
Lemma confined_bind {A B} (p : up A) (f : A → up B) : confined p → (∀ a, confined (f a)) → confined (bind p f).
Proof. intros Hp Hf. eapply obeys_bind; [exact Hp|]. intros a _. apply Hf. Qed.
Lemma confined_bindE {X A B} (p : up (result X A)) (f : A → up (result X B)) :
  confined p → (∀ a, confined (f a)) → confined (bindE p f).
Proof. intros Hp Hf. apply confined_bind; [done|]. by intros [a|e]. Qed.

Lemma sameFamily_iff u : sameFamily c u = true ↔ family (cl_base c) u.
Proof.
  unfold sameFamily, family. rewrite orb_true_iff, andb_true_iff, String.eqb_eq, negb_true_iff, String.eqb_neq, HasSuffix_iff. done.
Qed.

Lemma applyHeaders_auth header auth current trust value :
  ("Authorization", value) ∈ applyHeaders c header auth current trust → trust = true ∨ family (cl_base c) current.
Proof.
  unfold applyHeaders, plain_headers. rewrite !elem_of_app. intros [Hin|[Hin|Hin]].
  - apply list_elem_of_bind in Hin as ([key values] & Hin & _). destruct (String.eqb_spec (ToLower key) "authorization") as [|Hne]; [by apply elem_of_nil in Hin|].
    apply list_elem_of_fmap in Hin as (v & [= <- <-] & _). by destruct Hne.
  - destruct (String.eqb _ _); [by apply elem_of_nil in Hin|]. by apply list_elem_of_singleton in Hin.
  - destruct (negb _ && (trust || sameFamily c current)) eqn:Hf; [|by apply elem_of_nil in Hin].
    apply andb_true_iff in Hf as [_ [->|Hs]%orb_true_iff]; [by left|right; by apply sameFamily_iff].
Qed.

Ltac confine :=
  repeat match goal with
  | |- confined (Done _) => apply confined_done
  | |- confined (bind _ _) => apply confined_bind; [|intros ?]
  | |- confined (bindE _ _) => apply confined_bindE; [|intros ?]
  | |- confined (call _) => apply confined_call; split; exact I
  | |- confined (let '(_, _) := ?x in _) => destruct x
  | |- confined (if ?b then _ else _) => destruct b
  | |- confined (match ?x with _ => _ end) => destruct x
  | |- confined now_ => apply confined_call; split; exact I
  | |- confined (locked _) => apply confined_call; split; exact I
  end; auto.

Lemma observeRateLimit_confined resp : confined (observeRateLimit http_ParseTime resp).
Proof. unfold observeRateLimit. confine. Qed.
Lemma statusError_confined resp method path : confined (statusError http_ParseTime resp method path).
Proof. unfold statusError. confine. Qed.
Lemma basic_confined : confined (basicAuthorization c).
Proof. unfold basicAuthorization. confine. Qed.
Hint Resolve observeRateLimit_confined statusError_confined basic_confined : core.

(** A chain starts somewhere permitted and every hop is. *)
Lemma send_loop_confined more method u header auth credentialHost hop :
  (0 ≤ hop)%Z → permitted (cl_redirects c) (cl_base c) u → keeps_https u →
  ((hop =? 0)%Z && negb (String.eqb credentialHost "") = true → realm_url u) →
  confined (send_loop url_Resolve buildable http_ParseTime c more method u header auth credentialHost hop).
Proof.
  revert u hop. induction more as [|more IH]; intros u hop Hhop Hperm Hhttps Hcred; cbn [send_loop];
    (destruct (negb (buildable u)); [done|]); (apply confined_bind;
    [apply confined_call; split; [exact I|]; split_and!; [done..|intros value [Ht|?]%applyHeaders_auth; auto]|]);
    intros [resp|f]; try done; (destruct (negb (isRedirect _)); [by confine|]);
    (destruct (url_Resolve u _) as [next|]; [|done]); (destruct (String.eqb (header_get resp "Location") ""); [done|]);
    destruct (Follow _ _ u next (hop + 1)) as [ok|reason] eqn:HF; try done.
  destruct ok. apply Follow_ok in HF as (_ & HA & Hdown). apply Allow_permitted in HA as [HA _]. apply IH; [lia|done| |].
  - intros Hb Hd Hh. destruct (Hdown Hh) as [Ht|[_ Hf]]; [congruence|]. rewrite Hb in Hf. discriminate Hf.
  - destruct (Z.eqb_spec (hop + 1) 0); [lia|done].
Qed.

Lemma send_base_confined method path header auth : confined (send url_Resolve buildable http_ParseTime c method (with_path c path) header auth "").
Proof.
  apply send_loop_confined; [done|by left| |done]. intros Hb _ Hh. simpl in Hh. congruence.
Qed.

Lemma Allow_query p base u query path fragment :
  Allow p base (mkURL (u_scheme u) (u_host u) (u_user u) path query fragment) = Allow p base u.
Proof. done. Qed.

Lemma fetchToken_confined ch scope :
  confined (fetchToken url_Parse url_Resolve set_query buildable decode_token http_ParseTime c ch scope).
Proof.
  unfold fetchToken. destruct (String.eqb _ ""); [done|]. destruct (url_Parse (param ch "realm")) as [realm|] eqn:Hp; [|done].
  destruct (Allow _ _ realm) as [[]|] eqn:HA; [|done]. apply confined_bindE; [confine|]. intros header.
  apply confined_bindE; [|intros resp; unfold accept_token; confine].
  assert (realm_url (token_url set_query realm ch scope)) as Hr by (by eexists _, realm, _).
  apply send_loop_confined; [done| |by intros ???|by intros _]. by apply Allow_permitted in HA as [HA _].
Qed.
Hint Resolve send_base_confined fetchToken_confined : core.

Lemma request_confined method path header scope :
  confined (request url_Parse url_Resolve set_query buildable decode_token http_ParseTime c method path header scope).
Proof. unfold request, authorizationFor, authorize. confine. Qed.
Hint Resolve request_confined : core.

(** C12: whatever the upstream answers, the client sends requests only to the
    upstream's own host, to its subdomains and to trusted hosts, and never to a
    private, loopback or link-local address that is not the upstream itself; from
    an https upstream it goes to plain http only for a token; and an
    Authorization header travels only within the upstream's family or to a token
    endpoint the policy allows. *)
Theorem requests_and_credentials_confined repository tag digest cond :
  confined (ResolveTag url_Parse url_Resolve set_query buildable decode_token http_ParseTime c repository tag cond) ∧
  confined (FetchManifest url_Parse url_Resolve set_query buildable decode_token http_ParseTime c repository digest) ∧
  confined (FetchBlob url_Parse url_Resolve set_query buildable decode_token http_ParseTime c repository digest).
Proof.
  unfold ResolveTag, FetchManifest, FetchBlob, checking, revalidate, fetchTag. split_and!; confine.
Qed.
End confined.

(** ** How many requests, and that a chain ends *)
Section bounded.
Context `{!Unicode} (url_Parse : string → option URL) (url_Resolve : URL → string → option URL).
Context (set_query : string → list (string * string) → string) (buildable : URL → bool).
Context (decode_token : bytes → option (string * string * Z)) (http_ParseTime : string → option Z).
Context (c : RegistryClient).

(** The requests of one chain: the first, and one per redirect. *)
Definition chain : nat := S (Z.to_nat (maxHops (cl_redirects c))).

Definition settles {A} (n : nat) (p : up (result UpstreamError A)) : Prop :=
  at_most n p ∧ obeys anything anyhow (λ r, r ≠ Err Looping) p.

Definition plain {A} (p : up A) : Prop := at_most 0 p ∧ obeys anything anyhow (λ _, True) p.

Lemma settles_done {A} (r : result UpstreamError A) n : r ≠ Err Looping → settles n (Done r).
Proof. done. Qed.

Lemma settles_mono {A} n m (p : up (result UpstreamError A)) : n ≤ m → settles n p → settles m p.
Proof. intros Hn [? ?]. split; [by eapply at_most_mono|done]. Qed.

Lemma settles_bindE {A B} n m (p : up (result UpstreamError A)) (f : A → up (result UpstreamError B)) :
  settles n p → (∀ a, settles m (f a)) → settles (n + m) (bindE p f).
Proof.
  intros [H1 H2] Hf. split; [apply at_most_bindE; [done|]; intros a; apply Hf|].
  apply (obeys_bindE _ _ (λ _, True)); [|intros a _; apply (Hf a)]. eapply obeys_mono; [|exact H2]. intros [a|e] He; [done|]. congruence.
Qed.

Lemma settles_after {A B} n (p : up A) (f : A → up (result UpstreamError B)) : plain p → (∀ a, settles n (f a)) → settles n (bind p f).
Proof.
  intros [H1 H2] Hf. split; [apply (at_most_bind 0); [done|]; intros a; apply Hf|].
  eapply obeys_bind; [exact H2|]. intros a _. apply Hf.
Qed.

Lemma plain_bind {A B} (p : up A) (f : A → up B) : plain p → (∀ a, plain (f a)) → plain (bind p f).
Proof.
  intros [H1 H2] Hf. split; [apply (at_most_bind 0 0); [done|]; intros a; apply Hf|].
  eapply obeys_bind; [exact H2|]. intros a _. apply Hf.
Qed.

Lemma statusError_plain resp method path : plain (statusError http_ParseTime resp method path).
Proof. unfold statusError. destruct (ha_status resp =? 429)%Z; by split. Qed.
Lemma statusError_then {A} n resp method path (f : UpstreamError → up (result UpstreamError A)) :
  (∀ e, e ≠ Looping → settles n (f e)) → settles n (bind (statusError http_ParseTime resp method path) f).
Proof.
  intros Hf. unfold statusError. destruct (ha_status resp =? 429)%Z; simpl; [|by apply Hf]. split.
  - intros now. by apply Hf.
  - split; [exact I|]. intros now _. by apply Hf.
Qed.
Hint Resolve statusError_plain : core.

Ltac settle :=
  repeat match goal with
  | |- settles _ (Done _) => apply settles_done; first [discriminate|congruence]
  | |- settles _ (bind (statusError _ _ _ _) _) => apply statusError_then; intros ? ?
  | |- settles _ (bind _ _) => apply settles_after; [|intros ?]
  | |- plain (bind _ _) => apply plain_bind; [|intros ?]
  | |- plain (Done _) => done
  | |- plain (call _) => done
  | |- plain now_ => done
  | |- plain (locked _) => done
  | |- settles _ (if ?b then _ else _) => destruct b
  | |- settles _ (match ?x with _ => _ end) => destruct x
  | |- plain (if ?b then _ else _) => destruct b
  | |- plain (match ?x with _ => _ end) => destruct x
  end; auto.

Lemma observe_plain resp : plain (observeRateLimit http_ParseTime resp).
Proof. unfold observeRateLimit. settle. Qed.
Hint Resolve observe_plain : core.

Lemma settles_http {A} n req (k : _ → up (result UpstreamError A)) :
  (∀ b, settles n (k b)) → settles (S n) (bind (call (OpHttp req)) k).
Proof. intros Hk. split; [intros b; apply (Hk b)|]. split; [exact I|]. intros b _. apply (Hk b). Qed.

(** A redirect is followed only while the policy's count allows another. *)
Lemma send_loop_settles more method u header auth credentialHost hop :
  (0 ≤ hop)%Z → (maxHops (cl_redirects c) - hop ≤ Z.of_nat more)%Z →
  settles (S more) (send_loop url_Resolve buildable http_ParseTime c more method u header auth credentialHost hop).
Proof.
  revert u hop. induction more as [|more IH]; intros u hop Hhop Hmore; cbn [send_loop]; (destruct (negb (buildable u)); [done|]);
    apply settles_http; intros [resp|f];
    try (apply settles_done; unfold transportError; destruct (tf_ctx f), (tf_timedOut f); discriminate);
    (destruct (negb (isRedirect (ha_status resp))); [by settle|]);
    (destruct (url_Resolve u _) as [next|]; [|by settle]); (destruct (String.eqb (header_get resp "Location") ""); [by settle|]);
    destruct (Follow _ _ u next (hop + 1)) as [[]|reason] eqn:HF; try (by settle); apply Follow_ok in HF as [HF _]; [lia|].
  apply IH; lia.
Qed.

Lemma send_settles method u header auth credentialHost :
  settles chain (send url_Resolve buildable http_ParseTime c method u header auth credentialHost).
Proof. apply send_loop_settles; lia. Qed.

Lemma basic_settles : settles 0 (basicAuthorization c).
Proof. unfold basicAuthorization. settle. Qed.

Lemma fetchToken_settles ch scope :
  settles chain (fetchToken url_Parse url_Resolve set_query buildable decode_token http_ParseTime c ch scope).
Proof.
  unfold fetchToken. destruct (String.eqb (param ch "realm") ""); [by settle|]. destruct (url_Parse _) as [realm|]; [|by settle].
  destruct (Allow _ _ realm); [|by settle]. apply (settles_bindE 0 chain).
  - destruct (cl_creds c); [|by settle]. apply (settles_bindE 0 0); [apply basic_settles|]. intros basic. by settle.
  - intros header. replace chain with (chain + 0) by lia. apply settles_bindE; [apply send_settles|]. intros resp.
    unfold accept_token. settle.
Qed.

Lemma request_settles method path header scope :
  settles (3 * chain) (request url_Parse url_Resolve set_query buildable decode_token http_ParseTime c method path header scope).
Proof.
  unfold request. apply (settles_bindE 0 (3 * chain)).
  { unfold authorizationFor. settle; apply basic_settles. }
  intros auth. replace (3 * chain) with (chain + (chain + chain)) by lia. apply settles_bindE; [apply send_settles|]. intros resp.
  destruct (negb _); [by settle|]. destruct (parseChallenge _) as [ch|]; [|by settle].
  apply settles_bindE; [|intros; apply send_settles]. unfold authorize. destruct (String.eqb _ "basic"); [|apply fetchToken_settles].
  apply (settles_mono (0 + 0)); [lia|]. apply settles_bindE; [apply basic_settles|]. intros basic. by settle.
Qed.

(** Checks of what came back. *)
Lemma settles_result {A B} n (r : result UpstreamError A) (k : A → up (result UpstreamError B)) :
  r ≠ Err Looping → (∀ a, settles n (k a)) → settles n (match r with Ok a => k a | Err e => Done (Err e) end).
Proof. intros Hr Hk. destruct r as [a|e]; [done|]. apply settles_done. congruence. Qed.

Lemma readManifest_settles resp path : readManifest c resp path ≠ Err Looping.
Proof. unfold readManifest. by repeat case_match. Qed.
Lemma verifyBytes_settles body d : verifyBytes body d ≠ Err Looping.
Proof. unfold verifyBytes. by repeat case_match. Qed.
Lemma computed_settles body declared : computed_digest body declared ≠ Err Looping.
Proof.
  unfold computed_digest. destruct (String.eqb declared ""); [done|]. destruct (ParseDigest declared) as [d|]; [|done].
  pose proof (verifyBytes_settles body d). destruct (verifyBytes body d) as [[]|e]; [done|]. simpl. congruence.
Qed.
Hint Resolve readManifest_settles verifyBytes_settles computed_settles : core.

(** C35: the client never hangs in a redirect chain: whatever the upstream answers,
    a chain ends within the hops the policy allows, one logical request makes at
    most three chains (the request, a token, and the request again), a tag
    resolution at most two logical requests, and the loop's own bound is never
    what ends it. *)
Theorem upstream_requests_bounded repository tag digest cond :
  settles (6 * chain) (ResolveTag url_Parse url_Resolve set_query buildable decode_token http_ParseTime c repository tag cond) ∧
  settles (3 * chain) (FetchManifest url_Parse url_Resolve set_query buildable decode_token http_ParseTime c repository digest) ∧
  settles (3 * chain) (FetchBlob url_Parse url_Resolve set_query buildable decode_token http_ParseTime c repository digest).
Proof.
  assert (∀ r : result UpstreamError unit, match r with Err Looping => False | _ => True end → ∀ A n (k : up (result UpstreamError A)),
    settles n k → settles n (checking r k)) as Hcheck.
  { intros [[]|e] He A n k Hk; simpl; [done|]. apply settles_done. by intros [= ->]. }
  assert (∀ d, match validateDigest d with Err Looping => False | _ => True end) as Hd
    by (intros d; unfold validateDigest; by destruct (Digest_Validate d)).
  assert (∀ path scope, settles (3 * chain) (fetchTag url_Parse url_Resolve set_query buildable decode_token http_ParseTime c path scope cond)) as Htag.
  { intros path scope. unfold fetchTag. replace (3 * chain) with (3 * chain + 0) by lia.
    apply settles_bindE; [apply request_settles|]. intros resp.
    destruct (_ =? 304)%Z; [by settle|]. destruct (negb _); [by settle|]. apply settles_result; [auto|]. intros body.
    apply settles_result; [auto|]. intros digest'. by settle. }
  split_and!; (apply Hcheck; [unfold validateRepository; by destruct (Valid repository)|]).
  - apply Hcheck; [unfold validateTag; by destruct (tagPattern tag)|]. apply Hcheck; [destruct (String.eqb _ ""); [done|apply Hd]|].
    destruct (IsZero cond); [apply (settles_mono (3 * chain)); [lia|apply Htag]|].
    replace (6 * chain) with (3 * chain + 3 * chain) by lia. apply settles_bindE.
    + unfold revalidate. replace (3 * chain) with (3 * chain + 0) by lia. apply settles_bindE; [apply request_settles|].
      intros resp. settle.
    + intros [rv|]; [by settle|apply Htag].
  - apply Hcheck; [apply Hd|]. replace (3 * chain) with (3 * chain + 0) by lia. apply settles_bindE; [apply request_settles|].
    intros resp.
    destruct (negb _); [by settle|]. apply settles_result; [auto|]. intros body. apply settles_result; [auto|]. intros _. by settle.
  - apply Hcheck; [apply Hd|]. replace (3 * chain) with (3 * chain + 0) by lia. apply settles_bindE; [apply request_settles|].
    intros resp. settle.
Qed.
End bounded.

(** ** The contract of the interface *)
Definition networked {A} (p : up A) : Prop := obeys anything client_op (λ _, True) p.

Lemma obeys_after {A B} (p : up (result UpstreamError A)) (f : A → up (result UpstreamError B)) (Q : result UpstreamError B → Prop) :
  networked p → (∀ e, Q (Err e)) → (∀ a, obeys anything client_op Q (f a)) → obeys anything client_op Q (bindE p f).
Proof.
  intros Hp He Hf. apply (obeys_bindE _ _ (λ _, True)); [|auto]. eapply obeys_mono; [|exact Hp]. intros [a|e] _; auto.
Qed.

Lemma obeys_checking {A} check (k : up (result UpstreamError A)) (Q : result UpstreamError A → Prop) :
  (∀ e, Q (Err e)) → (check = Ok tt → obeys anything client_op Q k) → obeys anything client_op Q (checking check k).
Proof. intros He Hk. destruct check as [[]|e]; simpl; auto. Qed.

Lemma obeys_failed {A} (p : up UpstreamError) (Q : result UpstreamError A → Prop) :
  networked p → (∀ e, Q (Err e)) → obeys anything client_op Q (bind p (λ e, Done (Err e))).
Proof. intros Hp He. eapply obeys_bind; [exact Hp|]. intros e _. apply He. Qed.

Lemma verifyBytes_ok body d : Digest_Validate d = Ok tt → verifyBytes body d = Ok tt → hashes_to d body.
Proof.
  intros Hv. unfold verifyBytes. destruct (Copy_exact (mkBytesReader body) d (bytes_reader_wf _) Hv) as (res & src' & -> & Hres).
  destruct res; [|done]. intros _. exact (proj2 Hres).
Qed.

Lemma validateDigest_ok d : validateDigest d = Ok tt → Digest_Validate d = Ok tt.
Proof. unfold validateDigest. by destruct (Digest_Validate d) as [[]|]. Qed.

Lemma computed_digest_ok body declared d : computed_digest body declared = Ok d → hashes_to d body ∧ Digest_Validate d = Ok tt.
Proof.
  unfold computed_digest. destruct (String.eqb declared "").
  - destruct (FromBytes SHA256 body) as [d'|] eqn:Hf; [|done]. intros [= <-]. destruct (FromBytes_valid _ _ _ Hf) as (Hv & _ & Hh). done.
  - destruct (ParseDigest declared) as [parsed|] eqn:Hp; [|done]. destruct (verifyBytes body parsed) as [[]|] eqn:Hvb; [|done].
    intros [= <-]. apply ParseDigest_id in Hp as [-> Hv]. split; [|done]. by apply verifyBytes_ok.
Qed.

#[export] Instance registry_client_laws `{!Unicode} url_Parse url_Resolve set_query buildable decode_token http_ParseTime c :
  ClientLaws (registry_client url_Parse url_Resolve set_query buildable decode_token http_ParseTime c).
Proof.
  assert (∀ method path header scope, networked
    (request url_Parse url_Resolve set_query buildable decode_token http_ParseTime c method path header scope)) as Hrequest.
  { intros. eapply obeys_weaken; [| |apply request_confined]; [done|]. by intros B e []. }
  assert (∀ resp method path, networked (statusError http_ParseTime resp method path)) as Hstatus.
  { intros. unfold statusError. by destruct (_ =? 429)%Z. }
  assert (∀ path scope cond, obeys anything client_op (λ r, match r with
    | Ok rv => (rv_manifest rv ≠ [] → hashes_to (rv_digest rv) (rv_manifest rv)) ∧
               (rv_changed rv = true → Digest_Validate (rv_digest rv) = Ok tt) ∧ (rv_changed rv = false → rv_digest rv = cd_digest cond)
    | Err _ => True end) (fetchTag url_Parse url_Resolve set_query buildable decode_token http_ParseTime c path scope cond)) as Htag.
  { intros path scope cond. unfold fetchTag. apply obeys_after; [done..|]. intros resp. destruct (_ =? 304)%Z; [done|].
    destruct (negb _); [by apply obeys_failed|]. destruct (readManifest c resp path) as [body|]; [|done].
    destruct (computed_digest body _) as [d|] eqn:Hd; [|done]. apply computed_digest_ok in Hd as [Hh Hv]. simpl.
    destruct (String.eqb_spec d (cd_digest cond)); simpl; done. }
  constructor.
  - intros repository tag cond. simpl. unfold ResolveTag. do 3 (apply obeys_checking; [done|intros _]).
    destruct (IsZero cond); [apply Htag|]. apply (obeys_bindE _ _ (λ settled, match settled with
      | Some rv => rv_manifest rv = [] ∧ rv_changed rv = false ∧ rv_digest rv = cd_digest cond | None => True end)).
    + unfold revalidate. apply obeys_after; [done..|]. intros resp. repeat case_match; try done; try by apply obeys_failed.
      eapply obeys_bind; [apply Hstatus|]. intros e _. by destruct (ErrIs e SUnauthorized || ErrIs e SRateLimited).
    + intros [rv|] Hrv; [|apply Htag]. simpl. destruct Hrv as (-> & -> & ->). done.
  - intros repository digest. simpl. unfold FetchManifest. apply obeys_checking; [done|intros _].
    apply obeys_checking; [done|]. intros Hv%validateDigest_ok. apply obeys_after; [done..|]. intros resp.
    destruct (negb _); [by apply obeys_failed|]. destruct (readManifest c resp _) as [body|]; [|done].
    destruct (verifyBytes body digest) as [[]|] eqn:Hb; [|done]. by apply verifyBytes_ok.
  - intros repository digest. simpl. unfold FetchBlob. apply obeys_checking; [done|intros _]. apply obeys_checking; [done|intros _].
    apply obeys_after; [done..|]. intros resp. destruct (negb _); [by apply obeys_failed|].
    destruct (NewVerifiedReader (ha_body resp) _ false) as [reader|] eqn:Hn; [|done]. by exists (ha_body resp).
Qed.

(** ** A realm over plain http

    The realm of a challenge is checked by [Allow], which does not look at the
    scheme a redirect may not be downgraded to, so the password of an https
    upstream goes to a plain http token endpoint of a host the policy trusts. *)
Definition scripted_answer (req : HttpRequest) : result TransportFailure HttpResponse :=
  if String.eqb (u_scheme (hq_url req)) "https" then
    Ok (mkHttpResponse 401
         (λ key, if String.eqb key "Www-Authenticate" then ["Bearer realm=" +:+ String "034" "http://auth.example/token" +:+ String "034" ""] else [])
         0 (mkBody [] false EOF))
  else Err (mkTransportFailure false false (OtherFailure "recorded")).

Definition handle_script (B : Type) (e : op B) : ClientState * list HttpRequest → option (B * (ClientState * list HttpRequest)) :=
  match e with
  | OpHttp req => λ w, Some (scripted_answer req, (w.1, w.2 ++ [req]))
  | OpNow => λ w, Some (0%Z, w)
  | OpCreds => λ w, Some (Some ("user", "secret"), w)
  | OpClient g => λ w, let '(b, c) := g w.1 in Some (b, (c, w.2))
  | _ => λ _, None
  end.

Definition https_client : RegistryClient :=
  mkClient (mkURL "https" "registry.example" false "" "" "") true (mkRedirectPolicy 0 ["auth.example"] false) DefaultRequestTimeout
    DefaultMaxManifestBytes "".
Definition http_realm : URL := mkURL "http" "auth.example" false "/token" "" "".

Definition realm_run : option (list (string * string * list (string * string))) :=
  match exec handle_script
    (@FetchManifest ascii_names (λ raw, if String.eqb raw "http://auth.example/token" then Some http_realm else None) (λ _ _, None) (λ q _, q)
       (λ _, true) (λ _, None) (λ _, None) https_client "library/app"
       "sha256:ba7816bf8f01cfea414140de5dae2223b00361a396177a9cb410ff61f20015ad") (new_state, []) with
  | Some (_, (_, sent)) => Some ((λ req, (u_scheme (hq_url req), u_host (hq_url req), filter (λ h, h.1 = "Authorization") (hq_headers req))) <$> sent)
  | None => None
  end.

Lemma password_goes_to_a_plain_http_realm :
  realm_run = Some [("https", "registry.example", []);
                    ("http", "auth.example", [("Authorization", "Basic " +:+ basicValue "user" "secret")])] ∧
  ¬ @Follow ascii_names (cl_redirects https_client) (cl_base https_client) (cl_base https_client) http_realm 1 = Ok tt.
Proof. split; [by vm_compute|]. by vm_compute. Qed.

(** A delay of seconds that does not fit wraps, to one that is negative. *)
Lemma retry_after_wraps : parseRetryAfter (λ _, None) "9223372037" 0 = Some (-9223372036709551616)%Z.
Proof. by vm_compute. Qed.
