(* ===== verification/Backoff.v ===== *)
(** * Backing off and degrading (src/internal/proxy: backoff.go, degraded.go)

    How long a throttled upstream is left alone, and which failures count as an
    outage that cached content may be served through. *)
From S2P Require Import Prelude RepoName Digest Sha2 Verify VerifySpec GoStrings Meta Memory BlobStore Artifact Limiter Http Manifests.
From S2P Require Import HostPattern Effects Upstream.

(** ** Backoff (backoff.go) *)
Definition DefaultBackoffBase : Z := second.
Definition DefaultBackoffMax : Z := (5 * 60 * second)%Z.

Record Backoff : Type := mkBackoff { bo_base : Z; bo_max : Z }.

Definition NewBackoff (base max : Z) : Backoff :=
  mkBackoff (if (base <=? 0)%Z then DefaultBackoffBase else base) (if (max <=? 0)%Z then DefaultBackoffMax else max).

Abbreviation standings := (gmap string backoffState).

(** [None] is ready, otherwise when it will be. *)
Definition Ready (entity : string) (now : Z) (states : standings) : option Z :=
  match states !! entity with
  | Some state => if (now <? bs_until state)%Z then Some (bs_until state) else None
  | None => None
  end.

(** The window the jitter draws from after so many refusals in a row. *)
Definition exponential (b : Backoff) (failures : Z) : Z :=
  let e := int64 (Z.shiftl (bo_base b) (Z.min (failures - 1) 32)) in
  if (bo_max b <? e)%Z || (e <=? 0)%Z then bo_max b else e.

Definition penalty (b : Backoff) (drawn retryAfter : Z) : Z :=
  let delay := if (drawn <? retryAfter)%Z then retryAfter else drawn in
  let delay := if (bo_max b <? delay)%Z then bo_max b else delay in
  if (delay <? 0)%Z then 0%Z else delay.

Definition Penalize (b : Backoff) (jitter : Z → Z) (entity : string) (now retryAfter : Z) (states : standings) : Z * standings :=
  let failures := add64 (match states !! entity with Some state => bs_failures state | None => 0%Z end) 1 in
  let until := (now + penalty b (jitter (exponential b failures)) retryAfter)%Z in
  (until, <[entity := mkBackoffState failures until]> states).

Definition Succeed (entity : string) (states : standings) : standings := delete entity states.

Record UpstreamBackoff : Type := mkUpstreamBackoff { ub_entity : string; ub_failures : Z; ub_until : Z; ub_active : bool }.

Definition Snapshot (now : Z) (states : standings) : list UpstreamBackoff :=
  sort_on String.le ub_entity
    ((λ '(entity, state), mkUpstreamBackoff entity (bs_failures state) (bs_until state) (now <? bs_until state)%Z) <$> map_to_list states).

(** ** Degraded mode (degraded.go) *)
Definition CauseUnreachable := "unreachable".
Definition CauseTimeout := "timeout".
Definition CauseUpstreamError := "upstream-error".
Definition CauseRateLimited := "rate-limited".

Section degraded.
(** Whether an error of a body being read is a timeout. *)
Context (stream_timeout : BlobError → bool).

Definition isTimeout (cause : TransportCause) : bool :=
  match cause with
  | HeaderTimeout => true
  | Net (DNSFailure timeout) | Net (NetFailed timeout) => timeout
  | ReadBody e => stream_timeout e
  | Net (OtherFailure _) | BuildRequest => false
  end.

(** [None] is not degraded. *)
Definition Classify (err : UpstreamError) : option string :=
  if ErrIs err SRateLimited then Some CauseRateLimited
  else match err with
  | Transport cause => Some (if isTimeout cause then CauseTimeout else CauseUnreachable)
  | StatusErr _ _ _ => if ErrIs err SUpstreamUnavailable then Some CauseUpstreamError else None
  | _ => if ErrIs err SUpstreamUnavailable then Some CauseUnreachable else None
  end.
End degraded.

(** ** What the backoff guarantees *)
Lemma penalty_bounds b drawn retryAfter :
  (0 ≤ bo_max b)%Z → (0 ≤ penalty b drawn retryAfter ≤ bo_max b)%Z ∧ (Z.min retryAfter (bo_max b) ≤ penalty b drawn retryAfter)%Z.
Proof.
  intros Hm. unfold penalty. destruct (Z.ltb_spec drawn retryAfter);
    match goal with |- context [(bo_max b <? ?d)%Z] => destruct (Z.ltb_spec (bo_max b) d) end;
    match goal with |- context [(?d <? 0)%Z] => destruct (Z.ltb_spec d 0) end; lia.
Qed.

Lemma exponential_bounds b failures : (0 < bo_max b)%Z → (0 < exponential b failures ≤ bo_max b)%Z.
Proof.
  intros Hm. unfold exponential. set (e := int64 _). destruct (Z.ltb_spec (bo_max b) e), (Z.leb_spec e 0); simpl; lia.
Qed.

Lemma NewBackoff_max base max : (0 < bo_max (NewBackoff base max))%Z.
Proof. unfold NewBackoff. simpl. destruct (Z.leb_spec max 0); unfold DefaultBackoffMax, second; lia. Qed.

(** What can happen to the standings, one entry per call. *)
Inductive backoff_call : Type :=
| CallPenalize (jitter : Z → Z) (entity : string) (now retryAfter : Z)
| CallSucceed (entity : string).

Definition apply_call (b : Backoff) (states : standings) (c : backoff_call) : standings :=
  match c with
  | CallPenalize jitter entity now retryAfter => (Penalize b jitter entity now retryAfter states).2
  | CallSucceed entity => Succeed entity states
  end.

Definition about (entity : string) (c : backoff_call) : Prop :=
  match c with CallPenalize _ e _ _ => e = entity | CallSucceed e => e = entity end.

Lemma other_calls b entity states calls :
  Forall (λ c, ¬ about entity c) calls → foldl (apply_call b) states calls !! entity = states !! entity.
Proof.
  intros H. revert states. induction H as [|c calls Hc _ IH]; intros states; simpl; [done|]. rewrite IH.
  destruct c; simpl in *; unfold Succeed; [by rewrite lookup_insert_ne|by rewrite lookup_delete_ne].
Qed.

(** An upstream that refused is left alone for as long as it asked, and never
    longer than the cap: after a refusal, whatever was recorded before and whatever
    other upstreams do since, it is not ready until a deadline between what it
    asked for (cut at the cap) and the cap, for any jitter; from the deadline on it
    is; and one success makes it ready at once. *)
Theorem refusal_is_honoured base max before jitter entity now retryAfter after :
  let b := NewBackoff base max in
  Forall (λ c, ¬ about entity c) after →
  ∃ until, (now ≤ until ≤ now + bo_max b)%Z ∧ (now + Z.min retryAfter (bo_max b) ≤ until)%Z ∧
    (∀ t, Ready entity t (foldl (apply_call b) ∅ (before ++ CallPenalize jitter entity now retryAfter :: after)) =
       if (t <? until)%Z then Some until else None) ∧
    (∀ t, Ready entity t (foldl (apply_call b) ∅ (before ++ CallPenalize jitter entity now retryAfter :: CallSucceed entity :: after)) = None).
Proof.
  intros b Hafter. assert (0 ≤ bo_max b)%Z as Hm by (pose proof (NewBackoff_max base max); unfold b; lia). clearbody b.
  rewrite !foldl_app. set (s := foldl (apply_call b) ∅ before). simpl.
  set (pen := penalty b _ retryAfter). assert (0 ≤ pen ≤ bo_max b ∧ Z.min retryAfter (bo_max b) ≤ pen)%Z as [H1 H2] by (by apply penalty_bounds).
  exists (now + pen)%Z. split_and!; [lia..|intros t|intros t]; unfold Ready; rewrite other_calls by done.
  - by rewrite lookup_insert_eq.
  - unfold Succeed. by rewrite lookup_delete_eq.
Qed.

Lemma refusal_is_honoured_witness :
  ∃ until, (2 + 3 * second ≤ until)%Z ∧ Ready "dockerhub" 5 (foldl (apply_call (NewBackoff 0 0)) ∅
    ([CallPenalize id "quay" 1 7; CallSucceed "dockerhub"] ++ CallPenalize (λ _, 0%Z) "dockerhub" 2 (3 * second) :: [CallPenalize id "ghcr" 4 0])) =
  Some until.
Proof.
  destruct (refusal_is_honoured 0 0 [CallPenalize id "quay" 1 7; CallSucceed "dockerhub"] (λ _, 0%Z) "dockerhub" 2 (3 * second)
    [CallPenalize id "ghcr" 4 0]) as (until & _ & Hlow & Hr & _).
  - repeat constructor. discriminate.
  - assert (2 + 3 * second ≤ until)%Z as Hu by (change (bo_max (NewBackoff 0 0)) with (5 * 60 * second)%Z in Hlow; unfold second in *; lia).
    exists until. split; [exact Hu|]. rewrite (Hr 5%Z). unfold second in Hu. destruct (Z.ltb_spec 5 until); [reflexivity|lia].
Defined.

(** With a base of its own the shift can wrap, and the window falls back below
    the cap it had reached. *)
Lemma exponential_falls : exponential (mkBackoff 4294967297 1000000000000) 20 = 1000000000000%Z ∧
  exponential (mkBackoff 4294967297 1000000000000) 33 = 4294967296%Z.
Proof. split; reflexivity. Qed.
