(* ===== verification/Fill.v ===== *)
(** * Filling the cache (src/internal/proxy: fill.go, lease.go, negative.go, coalesce.go, backoff.go)

    Manifests and blobs by digest, fetched once and kept; tags as leases that are
    confirmed when they expire; absences remembered briefly; an upstream that
    throttles left alone. The programs run against any client, and their calls of
    the stores, the clock, the backoff and the flights are operations. *)
From S2P Require Import Prelude RepoName Digest Sha2 Verify VerifySpec GoStrings Meta Memory BlobStore Artifact Limiter Http Uploads Manifests.
From S2P Require Import HostPattern Effects Upstream Backoff.

(** ** Targets (fill.go) *)
Definition ServeStale := "serve-stale".
Definition Strict := "strict".
Definition strict (mode : string) : bool := String.eqb mode Strict.

Record Target : Type := mkTarget {
  ta_repository : string; ta_upstream : string; ta_remote : string; ta_client : option Client;
  ta_tagTTL : Z; ta_negativeTTL : Z; ta_offline : string;
}.

(** The client, once the target has been checked. *)
Definition validate (t : Target) : result UpstreamError Client :=
  if String.eqb (ta_repository t) "" then Err (Reference "repository" (ta_repository t))
  else if String.eqb (ta_upstream t) "" then Err (Reference "repository" (ta_upstream t))
  else match ta_client t with
  | None => Err (Reference "repository" (ta_repository t))
  | Some cl => Ok cl
  end.

(** ** The filler *)

(** [fi_events] is whether somebody listens. *)
Record Filler : Type := mkFiller { fi_events : bool; fi_backoff : Backoff }.

(** Which of its parts the caller supplied. *)
Record FillerOptions : Type := mkFillerOptions { fo_blobs : bool; fo_meta : bool; fo_events : bool; fo_backoff : option Backoff }.

Definition NewFiller (opts : FillerOptions) : result UpstreamError Filler :=
  if negb (fo_blobs opts) then Err (Reference "blobs" "")
  else if negb (fo_meta opts) then Err (Reference "meta" "")
  else Ok (mkFiller (fo_events opts) (default (NewBackoff 0 0) (fo_backoff opts))).

(** ** Calls of the stores *)
Definition meta_get {B} (f : bool → Memory.Store → result MetaError B) : up (result MetaError B) :=
  call (OpMeta (λ ctx s, match f ctx s with Ok b => Ok (s, b) | Err e => Err e end)).
Definition meta_put (f : bool → Memory.Store → result MetaError Memory.Store) : up (result MetaError unit) :=
  call (OpMeta (λ ctx s, match f ctx s with Ok s' => Ok (s', tt) | Err e => Err e end)).
Definition blobs_call {B} (f : bool → BlobStore.Store → option (B * BlobStore.Store)) : up B := call (OpBlobs f).

(** ** Single flight (coalesce.go) *)
Definition NUL : string := String "000" "".
Definition manifestKey (repo digest : string) : string := "manifest" +:+ NUL +:+ repo +:+ NUL +:+ digest.
Definition tagKey (repo tag : string) : string := "tag" +:+ NUL +:+ repo +:+ NUL +:+ tag.

Definition as_manifest (v : any) : option ManifestResult := match v with AnyManifest r => Some r | _ => None end.
Definition as_tag (v : any) : option TagResolution := match v with AnyTag r => Some r | _ => None end.

Definition coalesce {A} (typed : any → option A) (key : string) (p : up (result UpstreamError A)) : up (result UpstreamError A) :=
  fx! joined := call (OpJoin key) in
  match joined with
  | Lead => p
  | LeadGone => fx! _r := p in Done (Err ContextDone)
  | Left => Done (Err ContextDone)
  | Shared (Err e) => Done (Err e)
  | Shared (Ok v) => match typed v with Some a => Done (Ok a) | None => Done (Err CoalescerType) end
  end.

(** The edges a cached manifest records. *)
Definition cachedRefs (parsed : Artifact.Manifest) : list ManifestRef :=
  (match am_config parsed with Some config => [mkManifestRef (de_digest config) RefConfig] | None => [] end) ++
  (am_layers parsed ≫= λ layer, if de_external layer then [] else [mkManifestRef (de_digest layer) RefLayer]) ++
  ((λ child, mkManifestRef (de_digest child) RefChild) <$> am_children parsed) ++
  (match am_subject parsed with Some subject => [mkManifestRef (de_digest subject) RefSubject] | None => [] end).

(** ** One blob streamed to a client and into the cache at once *)
Record fill : Type := mkFill {
  fl_repository : string; fl_remote : string; fl_digest : string; fl_src : verifiedReader Body; fl_session : nat;
  fl_abandoned : bool; fl_settled : bool;
}.

Definition fill_set_src (src : verifiedReader Body) (x : fill) : fill :=
  mkFill (fl_repository x) (fl_remote x) (fl_digest x) src (fl_session x) (fl_abandoned x) (fl_settled x).
Definition fill_mark (abandoned settled : bool) (x : fill) : fill :=
  mkFill (fl_repository x) (fl_remote x) (fl_digest x) (fl_src x) (fl_session x) abandoned settled.

(** What a blob is read from. *)
Inductive Stream : Type :=
| FromCache (r : verifiedReader BytesReader)
| FromUpstream (r : verifiedReader Body)
| Filling (x : fill).

Record BlobResult : Type := mkBlobResult { br_content : Stream; br_size : Z; br_hit : bool }.

Section filler.
(** [mime.ParseMediaType], [json.Unmarshal] of a manifest, and whether an error
    of a body being read is a timeout. *)
Context (ParseMediaType : string → option string) (Unmarshal : string → option wireManifest).
Context (stream_timeout : BlobError → bool).
Context (f : Filler).

Definition publish (e : ProxyEvent) : up unit := if fi_events f then call (OpPublish e) else Done tt.

Definition publishFilled (repository remote digest : string) (size : Z) : up unit :=
  publish (CacheFilled repository remote digest size).
Definition publishCorrupt (repository digest : string) : up unit := publish (UpstreamCorrupt repository digest).

Definition upstreamEntity (t : Target) : string := Prefix (ta_repository t).

(** The refusal names the upstream and its deadline. *)
Definition upstreamReady (t : Target) (now : Z) : up (result UpstreamError unit) :=
  fx! until := call (OpBackoff (λ states, (Ready (upstreamEntity t) now states, states))) in
  match until with
  | None => Done (Ok tt)
  | Some until => Done (Err (RateLimited (time_sub until now) true (ta_upstream t)))
  end.

Definition recordUpstream {A} (t : Target) (now : Z) (r : result UpstreamError A) : up unit :=
  match r with
  | Ok _ => call (OpBackoff (λ states, (tt, Succeed (upstreamEntity t) states)))
  | Err err =>
      if match Classify stream_timeout err with Some cause => String.eqb cause CauseRateLimited | None => false end then
        let retryAfter := match err with RateLimited d true _ => d | _ => 0%Z end in
        fx! jitter := call OpJitter in
        call (OpBackoff (λ states, (tt, (Penalize (fi_backoff f) jitter (upstreamEntity t) now retryAfter states).2)))
      else Done tt
  end.

(** ** Manifests *)
Definition cached_row (t : Target) (digest : string) (payload : bytes) (parsed : Artifact.Manifest) (at_ : Z) : CachedManifest :=
  mkCachedManifest (ta_repository t) digest (am_mediaType parsed) (am_artifactType parsed)
    (match am_subject parsed with Some s => de_digest s | None => "" end)
    (String.string_of_list_ascii payload) (int64 (Z.of_nat (length payload))) at_ at_.

Definition storeManifest (t : Target) (digest : string) (payload : bytes) (mediaType : string) : up (result UpstreamError ManifestResult) :=
  match Parse ParseMediaType Unmarshal mediaType (String.string_of_list_ascii payload) with
  | Err e => Done (Err (Unusable (ta_upstream t) digest e))
  | Ok parsed =>
      fx! at_ := now_ in
      let record := cached_row t digest payload parsed at_ in
      fx! put := meta_put (λ ctx, PutCachedManifest ctx record (cachedRefs parsed)) in
      match put with
      | Err _ => Done (Ok (mkManifestResult digest (am_mediaType parsed) payload false false))
      | Ok _ =>
          fx! _p := publishFilled (ta_repository t) (ta_remote t) digest (cm_size record) in
          Done (Ok (mkManifestResult digest (am_mediaType parsed) payload false true))
      end
  end.

Definition fill_manifest (cl : Client) (t : Target) (digest : string) : up (result UpstreamError ManifestResult) :=
  fx! cached := meta_get (λ ctx, GetCachedManifest ctx (ta_repository t) digest) in
  match cached with
  | Ok row => Done (Ok (mkManifestResult digest (cm_mediaType row) (String.list_ascii_of_string (cm_payload row)) true true))
  | Err (NotFound _ _) =>
      fx! now := now_ in
      fxE! _ready := upstreamReady t now in
      fx! fetched := ask_FetchManifest cl (ta_upstream t) digest in
      fx! _r := recordUpstream t now fetched in
      match fetched with
      | Err e =>
          fx! _c := if ErrIs e SDigestMismatch then publishCorrupt (ta_repository t) digest else Done tt in
          Done (Err e)
      | Ok (payload, mediaType) => storeManifest t digest payload mediaType
      end
  | Err e => Done (Err (StoreFailed e))
  end.

Definition Filler_Manifest (t : Target) (digest : string) : up (result UpstreamError ManifestResult) :=
  match validate t, Digest_Validate digest with
  | Err e, _ => Done (Err e)
  | Ok _, Err _ => Done (Err (Reference "digest" digest))
  | Ok cl, Ok _ => coalesce as_manifest (manifestKey (ta_repository t) digest) (fill_manifest cl t digest)
  end.

(** ** Blobs *)
Definition uploadID (raw : bytes) : string := "cachefill-" +:+ hex_bytes raw.

Definition tee (t : Target) (digest : string) (src : verifiedReader Body) : up Stream :=
  fx! raw := call OpRand in
  fx! session := blobs_call (λ ctx s, match CreateUpload ctx (uploadID raw) s with Ok (a, s') => Some (Ok a, s') | Err e => Some (Err e, s) end) in
  match session with
  | Err _ => Done (FromUpstream src)
  | Ok a => Done (Filling (mkFill (ta_repository t) (ta_remote t) digest src a false false))
  end.

Definition fetch_blob (cl : Client) (t : Target) (digest : string) : up (result UpstreamError BlobResult) :=
  fx! now := now_ in
  fxE! _ready := upstreamReady t now in
  fx! fetched := ask_FetchBlob cl (ta_upstream t) digest in
  fx! _r := recordUpstream t now fetched in
  match fetched with
  | Err e =>
      fx! _c := if ErrIs e SDigestMismatch then publishCorrupt (ta_repository t) digest else Done tt in
      Done (Err e)
  | Ok (upstream, size) => fx! content := tee t digest upstream in Done (Ok (mkBlobResult content size false))
  end.

Definition Filler_Blob (t : Target) (digest : string) : up (result UpstreamError BlobResult) :=
  match validate t, Digest_Validate digest with
  | Err e, _ => Done (Err e)
  | Ok _, Err _ => Done (Err (Reference "digest" digest))
  | Ok cl, Ok _ =>
      fx! row := meta_get (λ ctx, GetCachedBlob ctx (ta_repository t) digest) in
      match row with
      | Ok _ =>
          fx! got := blobs_call (λ ctx s, Some (Get ctx digest s, s)) in
          match got with
          | Ok reader => Done (Ok (mkBlobResult (FromCache reader) (Verify.ds_size (vr_desc reader)) true))
          | Err (BlobNotFound _ _) | Err (Mismatch _ _ _) => fetch_blob cl t digest
          | Err e => Done (Err (BlobsFailed e))
          end
      | Err (NotFound _ _) => fetch_blob cl t digest
      | Err e => Done (Err (StoreFailed e))
      end
  end.

(** ** Reading and closing a fill *)
Definition fill_cancel (x : fill) : up fill :=
  if fl_settled x then Done x
  else
    fx! _e := blobs_call (λ _ s, match Cancel false (fl_session x) s with Ok s' => Some (None, s') | Err e => Some (Some e, s) end) in
    Done (fill_mark (fl_abandoned x) true x).

Definition fill_abandon (x : fill) : up fill := fill_cancel (fill_mark true (fl_settled x) x).

(** The commit and the row do not end with the request. *)
Definition fill_complete (x : fill) : up fill :=
  if fl_settled x || fl_abandoned x then Done x
  else
    let x := fill_mark (fl_abandoned x) true x in
    fx! committed := blobs_call (λ _ s, Some (Commit false (fl_digest x) (fl_session x) s)) in
    match committed with
    | Err _ => Done x
    | Ok desc =>
        fx! at_ := now_ in
        fx! put := meta_put (λ _, PutCachedBlob false (mkCachedBlob (fl_repository x) (fl_digest x) (Verify.ds_size desc) at_ at_)) in
        match put with
        | Err _ => Done x
        | Ok _ => fx! _p := publishFilled (fl_repository x) (fl_remote x) (fl_digest x) (Verify.ds_size desc) in Done x
        end
    end.

Definition is_mismatch (e : BlobError) : bool := match e with Mismatch _ _ _ => true | _ => false end.

(** [None] is a reader that makes no progress. *)
Definition fill_Read (k : nat) (x : fill) : up (option (bytes * option ReadError * fill)) :=
  match Verify.Read k (fl_src x) with
  | None => Done None
  | Some (p, err, src) =>
      let x := fill_set_src src x in
      fx! x := if (0 <? length p) && negb (fl_abandoned x) then
                 fx! wErr := blobs_call (λ ctx s, match Write ctx (mkBytesReader p) (fl_session x) s with
                                                  | Some (_, e, s') => Some (e, s') | None => None end) in
                 match wErr with Some _ => fill_abandon x | None => Done x end
               else Done x in
      fx! x := match err with
               | Some EOF => fill_complete x
               | Some (Failed e) =>
                   fx! _c := if is_mismatch e then publishCorrupt (fl_repository x) (fl_digest x) else Done tt in
                   fill_cancel x
               | None => Done x
               end in
      Done (Some (p, err, x))
  end.

(** The upstream's body is closed too, which has no effect here. *)
Definition fill_Close (x : fill) : up fill := fill_cancel x.

(** ** Absences (negative.go) *)
Definition negative (t : Target) (reference : string) : up (result UpstreamError (option NegativeEntry)) :=
  fx! entry := meta_get (λ ctx, GetNegativeEntry ctx (ta_repository t) reference) in
  Done (match entry with Ok entry => Ok (Some entry) | Err (NotFound _ _) => Ok None | Err e => Err (StoreFailed e) end).

Definition negativeFresh (entry : NegativeEntry) (ttl now : Z) : bool :=
  if (ttl <=? 0)%Z then false else (time_sub now (ne_observedAt entry) <? ttl)%Z.

Definition recordNegative (t : Target) (reference : string) (at_ : Z) : up unit :=
  if (ta_negativeTTL t <=? 0)%Z then Done tt
  else
    fx! _e := meta_put (λ ctx, PutNegativeEntry ctx (mkNegativeEntry (ta_repository t) reference at_ (ta_negativeTTL t))) in
    Done tt.

Definition dropNegative (t : Target) (reference : string) : up unit :=
  fx! _e := meta_put (λ ctx, DeleteNegativeEntry ctx (ta_repository t) reference) in Done tt.

Definition negativeAnswer (t : Target) (reference : string) : UpstreamError := Remembered (ta_upstream t) reference.

(** ** Leases (lease.go) *)
Definition lease (t : Target) (tag : string) : up (result UpstreamError (option TagLease)) :=
  fx! lease := meta_get (λ ctx, GetTagLease ctx (ta_repository t) tag) in
  Done (match lease with Ok lease => Ok (Some lease) | Err (NotFound _ _) => Ok None | Err e => Err (StoreFailed e) end).

Definition fresh (lease : TagLease) (ttl now : Z) : bool :=
  if (ttl <=? 0)%Z then false else (time_sub now (tl_fetchedAt lease) <? ttl)%Z.

Definition writeLease (lease : TagLease) : up unit := fx! _e := meta_put (λ ctx, PutTagLease ctx lease) in Done tt.
Definition dropLease (t : Target) (tag : string) : up unit :=
  fx! _e := meta_put (λ ctx, DeleteTagLease ctx (ta_repository t) tag) in Done tt.

Definition publishStale (t : Target) (tag digest : string) (staleFor : Z) (cause : string) : up unit :=
  publish (StaleServed (ta_repository t) (ta_remote t) tag digest (Z.quot staleFor second) cause).

(** How far past its deadline a lease is. *)
Definition stale_for (lease : TagLease) (ttl now : Z) : Z :=
  let staleFor := int64 (time_sub now (tl_fetchedAt lease) - ttl) in if (staleFor <? 0)%Z then 0%Z else staleFor.

Definition mark_stale (lease : TagLease) : TagLease :=
  mkTagLease (tl_repository lease) (tl_tag lease) (tl_digest lease) (tl_etag lease) (tl_fetchedAt lease) (tl_ttl lease) true.

Definition resolveFailed (t : Target) (tag : string) (held : option TagLease) (err : UpstreamError) (now : Z)
    : up (result UpstreamError TagResolution) :=
  if ErrIs err SNotFound then
    fx! _d := match held with Some _ => dropLease t tag | None => Done tt end in
    fx! _n := recordNegative t tag now in
    Done (Err err)
  else match Classify stream_timeout err, held with
  | Some cause, Some lease =>
      if strict (ta_offline t) then Done (Err err)
      else
        let staleFor := stale_for lease (ta_tagTTL t) now in
        fx! _m := if tl_stale lease then Done tt else writeLease (mark_stale lease) in
        fx! _p := publishStale t tag (tl_digest lease) staleFor cause in
        Done (Ok (mkTagResolution (tl_digest lease) false false false true staleFor))
  | _, _ => Done (Err err)
  end.

Definition cacheResolved (t : Target) (rv : Resolution) : up (result UpstreamError unit) :=
  match rv_manifest rv with
  | [] => fxE! _m := Filler_Manifest t (rv_digest rv) in Done (Ok tt)
  | _ => fxE! _m := storeManifest t (rv_digest rv) (rv_manifest rv) (rv_mediaType rv) in Done (Ok tt)
  end.

Definition refreshed (lease : TagLease) (ttl now : Z) (etag : string) : TagLease :=
  mkTagLease (tl_repository lease) (tl_tag lease) (tl_digest lease) (if String.eqb etag "" then tl_etag lease else etag) now ttl false.

(** What the upstream answered about a tag. *)
Definition resolved (t : Target) (tag : string) (held : option TagLease) (rv : Resolution) (now : Z)
    : up (result UpstreamError TagResolution) :=
  match rv_changed rv, held with
  | false, Some lease =>
      fx! _w := writeLease (refreshed lease (ta_tagTTL t) now (rv_etag rv)) in
      Done (Ok (mkTagResolution (tl_digest lease) false true false false 0))
  | _, _ =>
      fxE! _c := cacheResolved t rv in
      fx! _w := writeLease (mkTagLease (ta_repository t) tag (rv_digest rv) (rv_etag rv) now (ta_tagTTL t) false) in
      Done (Ok (mkTagResolution (rv_digest rv) false true true false 0))
  end.

Definition conditional (held : option TagLease) : Conditional :=
  match held with Some lease => mkConditional (tl_digest lease) (tl_etag lease) | None => mkConditional "" "" end.

(** Asking the upstream, once neither a lease nor an absence answers. *)
Definition ask_tag (cl : Client) (t : Target) (tag : string) (held : option TagLease) (recorded : bool) (now : Z)
    : up (result UpstreamError TagResolution) :=
  fx! ready := upstreamReady t now in
  match ready with
  | Err e => resolveFailed t tag held e now
  | Ok _ =>
      fx! answer := ask_ResolveTag cl (ta_upstream t) tag (conditional held) in
      fx! _r := recordUpstream t now answer in
      match answer with
      | Err e => resolveFailed t tag held e now
      | Ok rv =>
          fx! _n := if recorded then dropNegative t tag else Done tt in
          resolved t tag held rv now
      end
  end.

Definition resolveTag (cl : Client) (t : Target) (tag : string) : up (result UpstreamError TagResolution) :=
  fxE! held := lease t tag in
  fx! now := now_ in
  match (match held with Some l => if fresh l (ta_tagTTL t) now then Some l else None | None => None end) with
  | Some l => Done (Ok (mkTagResolution (tl_digest l) true false false false 0))
  | None =>
      fxE! absent := negative t tag in
      if match absent with Some entry => negativeFresh entry (ta_negativeTTL t) now | None => false end
      then Done (Err (negativeAnswer t tag))
      else ask_tag cl t tag held (bool_decide (is_Some absent)) now
  end.

Definition Filler_ResolveTag (t : Target) (tag : string) : up (result UpstreamError TagResolution) :=
  match validate t with
  | Err e => Done (Err e)
  | Ok cl => if String.eqb tag "" then Done (Err (Reference "tag" tag)) else coalesce as_tag (tagKey (ta_repository t) tag) (resolveTag cl t tag)
  end.
End filler.
