(* ===== verification/FillSpec.v ===== *)
(** * What a fill may store and serve

    The programs of the filler against every environment: any answers of the
    upstream, any interleaving with other requests over the same stores, failing
    stores, and flights shared with others. *)
From S2P Require Import Prelude RepoName Digest Sha2 Verify VerifySpec GoStrings Meta Memory MemoryInv BlobStore BlobStoreSpec Artifact Limiter Http Uploads Manifests.
From S2P Require Import HostPattern Effects Upstream UpstreamSpec Backoff Fill.

(** ** The cache's invariant, and what may be relied on *)

(** Every cached manifest hashes to the digest it is filed under, and every lease
    names a digest. *)
Record cache_ok (s : Memory.Store) : Prop := {
  rows_hash repo digest m : get2 (cachedManifests s) repo digest = Some m → hashes_to digest (String.list_ascii_of_string (cm_payload m));
  leases_name repo tag l : get2 (tagLeases s) repo tag = Some l → Digest_Validate (tl_digest l) = Ok tt;
}.

(** Everything a filler has no business with. *)
Definition hosted (s : Memory.Store) :=
  (repos s, members s, configHistory s, proxyCredentials s, manifests s, refs s, tags s, Memory.blobs s, Memory.uploads s, gcRuns s, pullStats s).

(** What a flight may hand over: the work of its key, and nothing unverified. *)
Definition flight_ok (key : string) (v : any) : Prop :=
  match v with
  | AnyManifest r => ∀ repo digest, Digest_Validate digest = Ok tt → key = manifestKey repo digest → mr_digest r = digest ∧ hashes_to digest (mr_payload r)
  | AnyTag r => Digest_Validate (tr_digest r) = Ok tt
  | AnyOther => True
  end.

(** The stores answer from some state that keeps the invariants, cancelled or
    not; a flight answers with what a run of its key may return; anything else
    answers anything. *)
Definition rely (B : Type) (e : op B) : B → Prop :=
  match e with
  | OpMeta f => λ r, ∃ ctx s, store_wf s ∧ cache_ok s ∧ r = match f ctx s with Ok (_, b) => Ok b | Err e => Err e end
  | OpBlobs f => λ b, ∃ ctx s s', BlobStoreSpec.wf s ∧ f ctx s = Some (b, s')
  | OpJoin key => λ j, match j with Shared (Ok v) => flight_ok key v | _ => True end
  | _ => λ _, True
  end.

(** Every call keeps the invariants and leaves hosted content alone. *)
Definition keeps (B : Type) (e : op B) : Prop :=
  match e with
  | OpMeta f => ∀ ctx s s' b, store_wf s → cache_ok s → f ctx s = Ok (s', b) → store_wf s' ∧ cache_ok s' ∧ hosted s' = hosted s
  | OpBlobs f => ∀ ctx s b s', BlobStoreSpec.wf s → f ctx s = Some (b, s') → BlobStoreSpec.wf s'
  | _ => True
  end.

(** *** The keys keep flights apart *)
Lemma last_separator c (a b a' b' : string) :
  ContainsByte b c = false → ContainsByte b' c = false → a +:+ String c b = a' +:+ String c b' → a = a' ∧ b = b'.
Proof.
  assert (∀ x y, ContainsByte (x +:+ String c y) c = true) as Hin.
  { intros x y. rewrite ContainsByte_app. simpl. by rewrite Ascii.eqb_refl, orb_true_r. }
  intros Hb Hb'. revert a'. induction a as [|ch a IH]; intros [|ch' a'] [= H]; subst; [done| | |].
  - by rewrite Hin in Hb.
  - by rewrite Hin in Hb'.
  - by destruct (IH a' ltac:(done)) as [-> ->].
Qed.

Lemma digest_no_NUL d : Digest_Validate d = Ok tt → ContainsByte d "000" = false.
Proof.
  intros Hd. assert (is_ok (ParseDigest d) = true) as (algorithm & hex & n & -> & Ha & _ & Hh)%ParseDigest_ok.
  { unfold Digest_Validate in Hd. by destruct (ParseDigest d). }
  rewrite !ContainsByte_app, (all_bytes_contains isLowerHex hex "000" Hh eq_refl), orb_false_r. simpl.
  unfold algorithms in Ha. destruct (String.eqb_spec algorithm SHA256) as [->|]; [done|].
  by destruct (String.eqb_spec algorithm SHA512) as [->|].
Qed.

Lemma manifestKey_inj repo digest repo' digest' :
  Digest_Validate digest = Ok tt → Digest_Validate digest' = Ok tt →
  manifestKey repo digest = manifestKey repo' digest' → repo = repo' ∧ digest = digest'.
Proof.
  intros Hd Hd' [= H]. apply last_separator in H as [H ->]; [by split|by apply digest_no_NUL..].
Qed.

(** What a run of a key returns is what the key's flight may hand over. *)
Lemma run_is_flight_ok repo digest m :
  Digest_Validate digest = Ok tt → mr_digest m = digest → hashes_to digest (mr_payload m) → flight_ok (manifestKey repo digest) (AnyManifest m).
Proof. intros Hd Hm Hh repo' digest' Hd' [_ <-]%manifestKey_inj; done. Qed.

(** ** Calls that keep the invariant *)
Lemma put_manifest_keeps ctx m edges s s' :
  cache_ok s → hashes_to (cm_digest m) (String.list_ascii_of_string (cm_payload m)) → PutCachedManifest ctx m edges s = Ok s' →
  cache_ok s' ∧ hosted s' = hosted s.
Proof.
  intros [Hr Hl] Hm. unfold PutCachedManifest. intros H. inv_result. destruct (String.eqb (cm_digest m) ""); [done|]. inv_result.
  split; [|done]. constructor; [|done]. intros repo digest row. simpl. rewrite get2_put2. case_decide as Hk; [|apply Hr].
  intros [= <-]. by destruct Hk as [_ <-].
Qed.

Lemma put_lease_keeps ctx l s s' :
  cache_ok s → Digest_Validate (tl_digest l) = Ok tt → PutTagLease ctx l s = Ok s' → cache_ok s' ∧ hosted s' = hosted s.
Proof.
  intros [Hr Hl] Hd. unfold PutTagLease. intros H. inv_result. destruct (String.eqb (tl_tag l) ""); [done|].
  destruct (String.eqb (tl_digest l) ""); [done|]. injection H as <-. split; [|done]. constructor; [done|].
  intros repo tag row. simpl. rewrite get2_put2. case_decide; [by intros [= <-]|apply Hl].
Qed.

Lemma drop_lease_keeps ctx repo tag s s' : cache_ok s → DeleteTagLease ctx repo tag s = Ok s' → cache_ok s' ∧ hosted s' = hosted s.
Proof.
  intros [Hr Hl]. unfold DeleteTagLease. intros H. inv_result. destruct (get2 (tagLeases s) repo tag); [|done]. injection H as <-.
  split; [|done]. constructor; [done|]. intros repo' tag' row. simpl. rewrite get2_delete2. case_decide; [done|apply Hl].
Qed.

Lemma put_blob_keeps ctx b s s' : cache_ok s → PutCachedBlob ctx b s = Ok s' → cache_ok s' ∧ hosted s' = hosted s.
Proof.
  intros [Hr Hl]. unfold PutCachedBlob. intros H. inv_result. destruct (String.eqb (cb_digest b) ""); [done|]. by injection H as <-.
Qed.

Lemma put_negative_keeps ctx n s s' : cache_ok s → PutNegativeEntry ctx n s = Ok s' → cache_ok s' ∧ hosted s' = hosted s.
Proof.
  intros [Hr Hl]. unfold PutNegativeEntry. intros H. inv_result. destruct (String.eqb (ne_reference n) ""); [done|]. by injection H as <-.
Qed.

Lemma drop_negative_keeps ctx repo reference s s' :
  cache_ok s → DeleteNegativeEntry ctx repo reference s = Ok s' → cache_ok s' ∧ hosted s' = hosted s.
Proof.
  intros [Hr Hl]. unfold DeleteNegativeEntry. intros H. inv_result. destruct (get2 (negativeCache s) repo reference); [|done].
  by injection H as <-.
Qed.

(** ** Programs of such calls *)
Abbreviation safely := (obeys rely keeps).

Lemma safely_get {B} (f : bool → Memory.Store → result MetaError B) (Q : result MetaError B → Prop) :
  (∀ ctx s, store_wf s → cache_ok s → Q (f ctx s)) → safely Q (meta_get f).
Proof.
  intros HQ. apply obeys_call.
  - intros ctx s s' b Hw Hc. destruct (f ctx s); [|done]. by intros [= <- <-].
  - intros r (ctx & s & Hw & Hc & ->). specialize (HQ ctx s Hw Hc). by destruct (f ctx s).
Qed.

Lemma safely_put (f : bool → Memory.Store → result MetaError Memory.Store) :
  (∀ ctx s s', store_wf s → f ctx s = Ok s' → store_wf s') →
  (∀ ctx s s', cache_ok s → f ctx s = Ok s' → cache_ok s' ∧ hosted s' = hosted s) →
  safely (λ _, True) (meta_put f).
Proof.
  intros Hw Hc. apply obeys_call; [|done]. intros ctx s s' b Hs Hk Hf. destruct (f ctx s) as [s1|] eqn:E; [|done]. simplify_eq.
  split; [by eapply Hw|by eapply Hc].
Qed.

Lemma safely_any {A} (p : up A) (Q : A → Prop) : obeys anything client_op Q p → safely Q p.
Proof. apply obeys_weaken; [done|]. intros B e. by destruct e. Qed.

Lemma safely_then {A B} (p : up A) (k : A → up B) (Q : B → Prop) : safely (λ _, True) p → (∀ a, safely Q (k a)) → safely Q (bind p k).
Proof. apply obeys_then. Qed.

Lemma safely_call {B} (e : op B) : keeps B e → safely (λ _, True) (call e).
Proof. intros He. by apply obeys_call. Qed.

Lemma safely_now {B} (k : Z → up B) (Q : B → Prop) : (∀ t, safely Q (k t)) → safely Q (bind now_ k).
Proof. intros Hk. by apply safely_then. Qed.

Lemma safely_blobs {B} (f : bool → BlobStore.Store → option (B * BlobStore.Store)) :
  (∀ ctx s b s', BlobStoreSpec.wf s → f ctx s = Some (b, s') → BlobStoreSpec.wf s') → safely (λ _, True) (blobs_call f).
Proof. intros Hf. apply safely_call. exact Hf. Qed.

(** Joining a flight: the run, or what the flight hands over. *)
Lemma coalesce_obeys (answers : ∀ B, op B → B → Prop) (may : ∀ B, op B → Prop) {A} (typed : any → option A) key p (Q : result UpstreamError A → Prop) :
  may _ (OpJoin key) → Q (Err ContextDone) →
  obeys answers may Q p →
  (∀ j, answers _ (OpJoin key) j → match j with
    | Shared (Err e) => Q (Err e)
    | Shared (Ok v) => Q (match typed v with Some a => Ok a | None => Err CoalescerType end)
    | _ => True
    end) →
  obeys answers may Q (coalesce typed key p).
Proof.
  intros Hmay Hgone Hp Hj. split; [done|]. intros j Hans. specialize (Hj j Hans). destruct j as [| |[v|e]|]; try done.
  - change (obeys answers may Q (bind p (λ _, Done (Err ContextDone)))). eapply obeys_bind; [exact Hp|]. done.
  - change (obeys answers may Q (match typed v with Some a => Done (Ok a) | None => Done (Err CoalescerType) end)). by destruct (typed v).
Qed.

(** ** The filler *)
Section filler.
Context (ParseMediaType : string → option string) (Unmarshal : string → option wireManifest).
Context (stream_timeout : BlobError → bool) (f : Filler).

Definition verified (digest : string) (r : result UpstreamError ManifestResult) : Prop :=
  match r with Ok m => mr_digest m = digest ∧ hashes_to digest (mr_payload m) | Err _ => True end.

(** What is streamed is a verifying reader of the digest. *)
Definition verifying (digest : string) (x : Stream) : Prop :=
  match x with
  | FromCache r => ∃ data size hook, NewVerifiedReader (mkBytesReader data) (Verify.mkDescriptor digest size) hook = Ok r
  | FromUpstream r => ∃ body size, NewVerifiedReader body (Verify.mkDescriptor digest size) false = Ok r
  | Filling x => fl_digest x = digest ∧ ∃ body size, NewVerifiedReader body (Verify.mkDescriptor digest size) false = Ok (fl_src x)
  end.

Lemma publish_safely e : safely (λ _, True) (publish f e).
Proof. unfold publish. by destruct (fi_events f). Qed.

Lemma upstreamReady_safely t now (Q : result UpstreamError unit → Prop) :
  Q (Ok tt) → (∀ e, Q (Err e)) → safely Q (upstreamReady t now).
Proof. intros H1 H2. split; [done|]. intros [until|] _; simpl; auto. Qed.

Lemma recordUpstream_safely {A} t now (r : result UpstreamError A) : safely (λ _, True) (recordUpstream stream_timeout f t now r).
Proof. unfold recordUpstream. destruct r as [a|e]; [done|]. destruct (match Classify stream_timeout e with Some cause => _ | None => _ end); [|done]. split; [done|]. by intros jitter _. Qed.

Lemma coalesce_safely {A} (typed : any → option A) key p (Q : result UpstreamError A → Prop) :
  (∀ e, Q (Err e)) → (∀ v a, flight_ok key v → typed v = Some a → Q (Ok a)) → safely Q p → safely Q (coalesce typed key p).
Proof.
  intros He Hv Hp. apply coalesce_obeys; [done..|]. intros [| |[v|e]|] Hj; try done. destruct (typed v) eqn:Ht; eauto.
Qed.

Lemma storeManifest_safely t digest payload mediaType :
  hashes_to digest payload → safely (verified digest) (storeManifest ParseMediaType Unmarshal f t digest payload mediaType).
Proof.
  intros Hh. unfold storeManifest. destruct (Parse _ _ _ _) as [parsed|]; [|done]. apply safely_now. intros at_.
  apply safely_then; [apply safely_put|].
  - intros. by eapply PutCachedManifest_wf.
  - intros. eapply put_manifest_keeps; [done| |done]. simpl. by rewrite String.list_ascii_of_string_of_list_ascii.
  - intros [[]|]; [|done]. apply safely_then; [apply publish_safely|done].
Qed.

Lemma manifest_safely cl t digest : ClientLaws cl →
  safely (verified digest) (fill_manifest ParseMediaType Unmarshal stream_timeout f cl t digest).
Proof.
  intros Hcl. unfold fill_manifest. eapply obeys_bind; [apply (safely_get _ (λ r, match r with
    | Ok row => hashes_to digest (String.list_ascii_of_string (cm_payload row)) | Err _ => True end))|].
  - intros ctx s _ [Hr _]. unfold GetCachedManifest. destruct (enter ctx s); simpl; [|done].
    destruct (get2 (cachedManifests s) (ta_repository t) digest) eqn:E; [|done]. by eapply Hr.
  - intros [row|e] Hrow; [done|]. destruct e; try done. apply safely_now. intros now.
    apply (obeys_bindE _ _ (λ _, True)); [by apply upstreamReady_safely|]. intros _ _.
    eapply obeys_bind; [apply safely_any, manifest_law|]. intros fetched Hf.
    apply safely_then; [apply recordUpstream_safely|]. intros _. destruct fetched as [[payload mediaType]|e]; [by apply storeManifest_safely|].
    apply safely_then; [|done]. destruct (ErrIs e SDigestMismatch); [apply publish_safely|done].
Qed.

Lemma Manifest_safely t digest : (∀ cl, ta_client t = Some cl → ClientLaws cl) →
  safely (verified digest) (Filler_Manifest ParseMediaType Unmarshal stream_timeout f t digest).
Proof.
  intros Hcl. unfold Filler_Manifest, validate. destruct (String.eqb _ _); [done|]. destruct (String.eqb _ _); [done|].
  destruct (ta_client t) as [cl|]; [|done]. destruct (Digest_Validate digest) as [[]|] eqn:Hd; [|done].
  apply coalesce_safely; [done| |by apply manifest_safely, Hcl]. intros v a Hv Ha. destruct v; simplify_eq/=. by eapply Hv.
Qed.

Lemma tee_safely t digest src size body :
  NewVerifiedReader body (Verify.mkDescriptor digest size) false = Ok src → safely (verifying digest) (tee t digest src).
Proof.
  intros Hsrc. apply safely_then; [done|]. intros raw. apply safely_then.
  - apply safely_blobs. intros ctx s b s' Hs. destruct (CreateUpload ctx _ s) as [[a s1]|] eqn:E; intros [= <- <-]; [by eapply create_wf|done].
  - intros [a|e]; simpl; eauto.
Qed.

Lemma fetch_blob_safely cl t digest : ClientLaws cl →
  safely (λ r, match r with Ok b => verifying digest (br_content b) | Err _ => True end) (fetch_blob stream_timeout f cl t digest).
Proof.
  intros Hcl. apply safely_now. intros now. apply (obeys_bindE _ _ (λ _, True)); [by apply upstreamReady_safely|]. intros _ _.
  eapply obeys_bind; [apply safely_any, blob_law|]. intros fetched Hf. apply safely_then; [apply recordUpstream_safely|]. intros _.
  destruct fetched as [[reader size]|e].
  - destruct Hf as [body Hb]. eapply obeys_bind; [by eapply tee_safely|]. done.
  - apply safely_then; [|done]. destruct (ErrIs e SDigestMismatch); [apply publish_safely|done].
Qed.

Lemma Blob_safely t digest : (∀ cl, ta_client t = Some cl → ClientLaws cl) →
  safely (λ r, match r with Ok b => verifying digest (br_content b) | Err _ => True end) (Filler_Blob stream_timeout f t digest).
Proof.
  intros Hcl. unfold Filler_Blob, validate. destruct (String.eqb _ _); [done|]. destruct (String.eqb _ _); [done|].
  destruct (ta_client t) as [cl|] eqn:Ht; [|done]. destruct (Digest_Validate digest) as [[]|] eqn:Hd; [|done].
  apply safely_then; [by apply safely_get|]. intros [row|e]; [|destruct e; try done; by apply fetch_blob_safely, Hcl].
  eapply (obeys_bind _ _ (λ got, match got with Ok reader => verifying digest (FromCache reader) | Err _ => True end)).
  - apply obeys_call; [by intros ctx s b s' Hs [= <- <-]|]. intros got (ctx & s & s' & Hs & [= <- <-]). unfold Get.
    destruct (checked ctx digest); simpl; [|done]. destruct (BlobStore.blobs s !! digest) as [data|]; [|done].
    destruct (NewVerifiedReader _ _ _) as [r|] eqn:E; [|done]. eauto.
  - intros [reader|e] Hgot; [done|]. destruct e; try done; by apply fetch_blob_safely, Hcl.
Qed.

(** *** A fill being read *)
Lemma cancel_safely x : safely (λ _, True) (fill_cancel x).
Proof.
  unfold fill_cancel. destruct (fl_settled x); [done|]. apply safely_then; [|done]. apply safely_blobs.
  intros ctx s b s' Hs [= <- <-]. by apply close_wf.
Qed.

Lemma complete_safely x : safely (λ _, True) (fill_complete f x).
Proof.
  unfold fill_complete. destruct (fl_settled x || fl_abandoned x); [done|]. apply safely_then.
  - apply safely_blobs. intros ctx s b s' Hs [= E].
    pose proof (blob_step_wf s (OpCommit false (fl_digest x) (fl_session x)) Hs) as H. simpl in H. by rewrite E in H.
  - intros [desc|e]; [|done]. apply safely_now. intros at_. apply safely_then.
    + apply safely_put; [intros; by eapply PutCachedBlob_wf|intros; by eapply put_blob_keeps].
    + intros [[]|]; [|done]. apply safely_then; [apply publish_safely|done].
Qed.

Lemma Read_safely k x : safely (λ _, True) (fill_Read f k x).
Proof.
  unfold fill_Read. destruct (Verify.Read k (fl_src x)) as [[[p err] src]|]; [|done]. apply safely_then.
  - destruct (_ && _); [|done]. apply safely_then; [|intros [e|]; [apply cancel_safely|done]]. apply safely_blobs.
    intros ctx s b s' Hs.
    destruct (Write_cases ctx (mkBytesReader p) (fl_session (fill_set_src src x)) s (bytes_reader_wf _)) as (off & e & s1 & -> & Hw).
    intros [= <- <-]. destruct Hw as [->|(_ & Ho & ->)]; [done|]. by apply write_wf.
  - intros y. apply safely_then; [|done]. destruct err as [[|e]|]; [apply complete_safely| |done].
    apply safely_then; [destruct (is_mismatch e); [apply publish_safely|done]|]. intros _. apply cancel_safely.
Qed.

(** *** Tags *)
Definition named (r : result UpstreamError TagResolution) : Prop :=
  match r with Ok r => Digest_Validate (tr_digest r) = Ok tt | Err _ => True end.
Definition held_ok (held : option TagLease) : Prop :=
  match held with Some l => Digest_Validate (tl_digest l) = Ok tt | None => True end.

Lemma writeLease_safely l : Digest_Validate (tl_digest l) = Ok tt → safely (λ _, True) (writeLease l).
Proof.
  intros Hl. apply safely_then; [|done]. apply safely_put; [intros; by eapply PutTagLease_wf|intros; by eapply put_lease_keeps].
Qed.

Lemma dropLease_safely t tag : safely (λ _, True) (dropLease t tag).
Proof.
  apply safely_then; [|done]. apply safely_put; [intros; by eapply DeleteTagLease_wf|intros; by eapply drop_lease_keeps].
Qed.

Lemma recordNegative_safely t tag now : safely (λ _, True) (recordNegative t tag now).
Proof.
  unfold recordNegative. destruct (_ <=? 0)%Z; [done|]. apply safely_then; [|done].
  apply safely_put; [intros; by eapply PutNegativeEntry_wf|intros; by eapply put_negative_keeps].
Qed.

Lemma dropNegative_safely t tag : safely (λ _, True) (dropNegative t tag).
Proof.
  apply safely_then; [|done]. apply safely_put; [intros; by eapply DeleteNegativeEntry_wf|intros; by eapply drop_negative_keeps].
Qed.

Lemma resolveFailed_safely t tag held err now :
  held_ok held → safely named (resolveFailed stream_timeout f t tag held err now).
Proof.
  intros Hheld. unfold resolveFailed. destruct (ErrIs err SNotFound).
  - apply safely_then; [destruct held; [apply dropLease_safely|done]|]. intros _.
    apply safely_then; [apply recordNegative_safely|done].
  - destruct (Classify stream_timeout err); [|done]. destruct held as [l|]; [|done]. destruct (strict _); [done|].
    apply safely_then; [destruct (tl_stale l); [done|by apply writeLease_safely]|]. intros _.
    apply safely_then; [apply publish_safely|done].
Qed.

Lemma resolved_safely t tag held rv now :
  (∀ cl, ta_client t = Some cl → ClientLaws cl) → held_ok held →
  (rv_manifest rv ≠ [] → hashes_to (rv_digest rv) (rv_manifest rv)) → (rv_changed rv = true → Digest_Validate (rv_digest rv) = Ok tt) →
  (rv_changed rv = false → rv_digest rv = cd_digest (conditional held)) →
  safely named (resolved ParseMediaType Unmarshal stream_timeout f t tag held rv now).
Proof.
  intros Hcl Hheld Hm Hch Hsame. unfold resolved.
  assert (Digest_Validate (rv_digest rv) = Ok tt → safely named
    (fxE! _c := cacheResolved ParseMediaType Unmarshal stream_timeout f t rv in
     fx! _w := writeLease (mkTagLease (ta_repository t) tag (rv_digest rv) (rv_etag rv) now (ta_tagTTL t) false) in
     Done (Ok (mkTagResolution (rv_digest rv) false true true false 0)))) as Hnew.
  { intros Hd. apply (obeys_bindE _ _ (λ _, True)); [|intros _ _; apply safely_then; [by apply writeLease_safely|done]].
    unfold cacheResolved. destruct (rv_manifest rv) as [|b bs] eqn:E; apply (obeys_bindE _ _ (λ _, True)); try done.
    - eapply obeys_mono; [|by apply Manifest_safely]. by intros [].
    - rewrite <-E in *. eapply obeys_mono; [|apply storeManifest_safely, Hm; by rewrite E]. by intros []. }
  destruct (rv_changed rv); [by apply Hnew, Hch|]. destruct held as [l|].
  - apply safely_then; [by apply writeLease_safely|done].
  - specialize (Hsame eq_refl). simpl in Hsame. unfold cacheResolved. rewrite Hsame.
    rewrite Hsame in Hm. destruct (rv_manifest rv) as [|b bs]; [|by specialize (Hm ltac:(done))].
    unfold Filler_Manifest. destruct (validate t); done.
Qed.

Lemma resolveTag_safely cl t tag :
  ClientLaws cl → (∀ cl, ta_client t = Some cl → ClientLaws cl) →
  safely named (resolveTag ParseMediaType Unmarshal stream_timeout f cl t tag).
Proof.
  intros Hcl Hall. unfold resolveTag. apply (obeys_bindE _ _ held_ok).
  - eapply obeys_bind; [apply (safely_get _ (λ r, match r with Ok l => Digest_Validate (tl_digest l) = Ok tt | Err _ => True end))|].
    + intros ctx s _ [_ Hl]. unfold GetTagLease. destruct (enter ctx s); simpl; [|done].
      destruct (get2 (tagLeases s) _ tag) eqn:E; [|done]. by eapply Hl.
    + intros [l|e] Hl; [done|]. by destruct e.
  - intros held Hheld. apply safely_now. intros now.
    destruct (match held with Some l => _ | None => _ end) as [l|] eqn:Hfresh.
    { destruct held as [l'|]; [|done]. destruct (fresh l' _ now); simplify_eq. exact Hheld. }
    apply (obeys_bindE _ _ (λ _, True)).
    { apply safely_then; [by apply safely_get|]. intros [n|e]; [done|]. by destruct e. }
    intros absent _. destruct (match absent with Some entry => _ | None => _ end); [done|]. unfold ask_tag.
    eapply obeys_bind; [by apply (upstreamReady_safely t now (λ _, True))|]. intros [[]|e] _; [|by apply resolveFailed_safely].
    eapply obeys_bind; [apply safely_any, resolve_law|]. intros answer Ha. apply safely_then; [apply recordUpstream_safely|].
    intros _. destruct answer as [rv|e]; [|by apply resolveFailed_safely]. destruct Ha as (H1 & H2 & H3).
    apply safely_then; [destruct (bool_decide _); [apply dropNegative_safely|done]|]. intros _. by apply resolved_safely.
Qed.

Lemma ResolveTag_safely t tag : (∀ cl, ta_client t = Some cl → ClientLaws cl) →
  safely named (Filler_ResolveTag ParseMediaType Unmarshal stream_timeout f t tag).
Proof.
  intros Hcl. unfold Filler_ResolveTag, validate. destruct (String.eqb _ _); [done|]. destruct (String.eqb _ _); [done|].
  destruct (ta_client t) as [cl|] eqn:Ht; [|done]. destruct (String.eqb tag ""); [done|].
  apply coalesce_safely; [done| |by apply resolveTag_safely; [apply Hcl|rewrite Ht]]. intros v a Hv Ha. by destruct v; simplify_eq/=.
Qed.

(** C10: whatever the upstream answers, however requests interleave and whatever the
    stores refuse, a manifest served through a proxy hashes to the digest it was
    asked by, a blob is streamed through a reader that verifies it, and a tag
    resolves to a digest; and every write the filler makes, while filling, reading
    or closing, keeps every cached row hashing to its digest and leaves hosted
    content and configuration untouched. What is assumed of a shared flight is what
    the runs of its key return. *)
Theorem fills_store_and_serve_verified_content t digest tag k x :
  (∀ cl, ta_client t = Some cl → ClientLaws cl) →
  safely (verified digest) (Filler_Manifest ParseMediaType Unmarshal stream_timeout f t digest) ∧
  safely (λ r, match r with Ok b => verifying digest (br_content b) | Err _ => True end) (Filler_Blob stream_timeout f t digest) ∧
  safely named (Filler_ResolveTag ParseMediaType Unmarshal stream_timeout f t tag) ∧
  safely (λ _, True) (fill_Read f k x) ∧ safely (λ _, True) (fill_Close x) ∧
  (∀ m, Digest_Validate digest = Ok tt → verified digest (Ok m) → flight_ok (manifestKey (ta_repository t) digest) (AnyManifest m)).
Proof.
  intros Hcl.
  split_and!; [by apply Manifest_safely|by apply Blob_safely|by apply ResolveTag_safely|apply Read_safely|apply cancel_safely|
    intros m Hd []; by apply run_is_flight_ok].
Qed.
End filler.

(** ** Examples: Docker Hub through the registry client, and a client that holds one manifest *)
Definition hub_client : Client :=
  @registry_client ascii_names (λ _, None) (λ _ _, None) (λ q _, q) (λ _, true) (λ _, None) (λ _, None)
    (mkClient (mkURL "https" "registry-1.docker.io" false "" "" "") false (mkRedirectPolicy 0 [] false) DefaultRequestTimeout
       DefaultMaxManifestBytes "").

Definition hub_target (cl : Client) : Target :=
  mkTarget "hub/library/app" "library/app" "docker.io" (Some cl) (60 * second) (60 * second) ServeStale.

Lemma fills_store_and_serve_verified_content_witness :
  safely (verified abc_digest) (Filler_Manifest (λ m, Some m) (λ _, None) (λ _, false) (mkFiller true (NewBackoff 0 0)) (hub_target hub_client) abc_digest).
Proof.
  refine (proj1 (fills_store_and_serve_verified_content (λ m, Some m) (λ _, None) (λ _, false) (mkFiller true (NewBackoff 0 0)) (hub_target hub_client)
    abc_digest "latest" 1 (mkFill "" "" "" (mkVerifiedReader (mkBody [] false EOF) (Verify.mkDescriptor "" 0)
      (mkVerifier "" sha256_params [] 0) "000" false false None false []) 0 false false) _)).
  intros cl [= <-]. apply registry_client_laws.
Defined.

Definition abc : bytes := String.list_ascii_of_string "abc".

Definition demo_client : Client := mkClientOps
  (λ _ _ cond, Done (Ok (let same := String.eqb abc_digest (cd_digest cond) in
                         mkResolution (negb same) abc_digest MediaTypeOCIManifest "" 3 (if same then [] else abc))))
  (λ _ digest, Done (if String.eqb digest abc_digest then Ok (abc, MediaTypeOCIManifest) else Err (StatusErr 404 "GET" digest)))
  (λ _ digest, Done (match NewVerifiedReader (abc_body "c") (Verify.mkDescriptor digest 3) false with
                     | Ok r => Ok (r, 3%Z) | Err _ => Err (Reference "digest" digest) end)).

#[export] Instance demo_client_laws : ClientLaws demo_client.
Proof.
  assert (hashes_to abc_digest abc) as Hh by (by vm_compute). constructor.
  - intros repository tag cond. cbn [ask_ResolveTag demo_client obeys rv_manifest rv_digest rv_changed].
    destruct (String.eqb_spec abc_digest (cd_digest cond)) as [He|_]; cbn [negb].
    + split; [intros Hn; exfalso; by apply Hn|]. split; [discriminate|]. intros _. exact He.
    + split; [intros _; exact Hh|]. split; [intros _; by vm_compute|discriminate].
  - intros repository digest. cbn [ask_FetchManifest demo_client obeys].
    destruct (String.eqb_spec digest abc_digest) as [->|_]; [exact Hh|exact I].
  - intros repository digest. cbn [ask_FetchBlob demo_client obeys].
    destruct (NewVerifiedReader _ _ false) as [r|] eqn:Hr; [|done]. by exists (abc_body "c").
Qed.

(** A config that names URLs is an edge of the cached manifest, and none of the
    pushed one. *)
Lemma external_config_is_an_edge_only_when_cached :
  let config := Artifact.mkDescriptor MediaTypeOCIImageConfig abc_digest 3 true in
  Fill.cachedRefs (Artifact.mkManifest MediaTypeOCIManifest "" None (Some config) [] []) = [mkManifestRef abc_digest RefConfig] ∧
  verifyReferences "team/app" (Artifact.mkManifest MediaTypeOCIManifest "" None (Some config) [] []) = Ret (Ok []).
Proof. by split. Qed.
