(* ===== verification/LeaseSpec.v ===== *)
(** * What a tag answer means

    A resolution is judged by its own history: the clock readings, the answers of
    the backoff and the runs of the client it made itself. [confirmed] and
    [missing] are whatever other resolutions have established before; the rows
    only ever keep such moments, or the reading this resolution took last before
    the upstream confirmed or denied the tag, under any interleaving. *)
From S2P Require Import Prelude RepoName Digest Sha2 Verify VerifySpec GoStrings Meta Memory MemoryInv BlobStore BlobStoreSpec Artifact Limiter Http Uploads Manifests.
From S2P Require Import HostPattern Effects Upstream UpstreamSpec Backoff Fill FillSpec.

Abbreviation history := (list (event (E:=op))).

(** The clock in a history. *)
Definition reading (e : event (E:=op)) : option Z :=
  match e with Ev o b => match o in op B return B → option Z with OpNow => Some | _ => λ _, None end b end.
Definition readings (h : history) : list Z := omap reading h.

Section lease.
Context (ParseMediaType : string → option string) (Unmarshal : string → option wireManifest).
Context (stream_timeout : BlobError → bool) (f : Filler) (t : Target) (tag : string).

(** The moments at which others found the upstream to confirm a digest, or to
    deny a tag. *)
Context (confirmed : string → string → string → Z → Prop) (missing : string → string → Z → Prop).

(** In this history the upstream was asked about the tag and gave this answer;
    [at_] was the last reading of the clock before it was asked. *)
Definition asked (h : history) (at_ : Z) (r : result UpstreamError Resolution) : Prop :=
  ∃ cl cond h0 h1, ta_client t = Some cl ∧ readings h0 !! 0 = Some at_ ∧
    ran (ask_ResolveTag cl (ta_upstream t) tag cond) h0 r h1 ∧ h1 `suffix_of` h.

Definition confirmed_by (h : history) (repo tg digest : string) (at_ : Z) : Prop :=
  confirmed repo tg digest at_ ∨ repo = ta_repository t ∧ tg = tag ∧ ∃ rv, asked h at_ (Ok rv) ∧ rv_digest rv = digest.
Definition missing_by (h : history) (repo tg : string) (at_ : Z) : Prop :=
  missing repo tg at_ ∨ repo = ta_repository t ∧ tg = tag ∧ ∃ e, asked h at_ (Err e) ∧ ErrIs e SNotFound = true.

Record recorded (h : history) (s : Memory.Store) : Prop := {
  leases_confirmed repo tg l : get2 (tagLeases s) repo tg = Some l → confirmed_by h repo tg (tl_digest l) (tl_fetchedAt l);
  negatives_missing repo tg n : get2 (negativeCache s) repo tg = Some n → missing_by h repo tg (ne_observedAt n);
}.

(** The upstream is degraded: in this history the backoff held it back, or it was
    asked and failed in one of the ways that cached content is served through. *)
Definition degraded (h : history) (now : Z) : Prop :=
  (∃ until, Ev (OpBackoff (λ states, (Ready (upstreamEntity t) now states, states))) (Some until) ∈ h) ∨
  ∃ err, asked h now (Err err) ∧ is_Some (Classify stream_timeout err).

Definition current (h : history) (r : TagResolution) : Prop :=
  ∃ now, now ∈ readings h ∧
    if tr_revalidated r then tr_stale r = false ∧ tr_hit r = false ∧ ∃ rv, asked h now (Ok rv) ∧ rv_digest rv = tr_digest r
    else ∃ at_, confirmed_by h (ta_repository t) tag (tr_digest r) at_ ∧
      if tr_stale r then strict (ta_offline t) = false ∧ tr_hit r = false ∧ degraded h now ∧
        tr_staleFor r = Z.max 0 (int64 (time_sub now at_ - ta_tagTTL t))
      else tr_hit r = true ∧ (0 < ta_tagTTL t)%Z ∧ (time_sub now at_ < ta_tagTTL t)%Z.

(** The client itself failed with the error, or a flight that was joined did. *)
Definition failed_with (h : history) (err : UpstreamError) : Prop :=
  (∃ at_, asked h at_ (Err err)) ∨
  (∃ cl digest h0 h1, ta_client t = Some cl ∧ ran (ask_FetchManifest cl (ta_upstream t) digest) h0 (Err err) h1 ∧ h1 `suffix_of` h) ∨
  ∃ key, Ev (OpJoin key) (Shared (Err err)) ∈ h.

(** An absence answered from memory is a recent one. *)
Definition excused (h : history) (err : UpstreamError) : Prop :=
  err = negativeAnswer t tag → failed_with h err ∨
    ∃ at_ now, missing_by h (ta_repository t) tag at_ ∧ now ∈ readings h ∧ (0 < ta_negativeTTL t)%Z ∧ (time_sub now at_ < ta_negativeTTL t)%Z.

(** An answer is this resolution's own, or that of the flight it joined. *)
Definition answer_ok (h : history) (r : result UpstreamError TagResolution) : Prop :=
  match r with
  | Ok r => current h r ∨ Ev (OpJoin (tagKey (ta_repository t) tag)) (Shared (Ok (AnyTag r))) ∈ h
  | Err e => excused h e
  end.

(** The metadata store answers from some state whose rows are on record,
    cancelled or not; anything else answers anything. *)
Definition told (h : history) (B : Type) (e : op B) : B → Prop :=
  match e with
  | OpMeta f => λ r, ∃ ctx s, store_wf s ∧ recorded h s ∧ r = match f ctx s with Ok (_, b) => Ok b | Err e => Err e end
  | _ => λ _, True
  end.

Definition records (h : history) (B : Type) (e : op B) : Prop :=
  match e with
  | OpMeta f => ∀ ctx s s' b, store_wf s → recorded h s → f ctx s = Ok (s', b) → store_wf s' ∧ recorded h s'
  | _ => True
  end.

Abbreviation truly := (along told records).

(** ** Histories grow *)
Lemma asked_grows h h' at_ r : h `suffix_of` h' → asked h at_ r → asked h' at_ r.
Proof. intros Hs (cl & cond & h0 & h1 & ? & ? & ? & ?). exists cl, cond, h0, h1. split_and!; try done. by etrans. Qed.

Lemma confirmed_grows h h' repo tg d at_ : h `suffix_of` h' → confirmed_by h repo tg d at_ → confirmed_by h' repo tg d at_.
Proof. intros Hs [?|(? & ? & rv & ? & ?)]; [by left|right]. split_and!; try done. exists rv. split; [by eapply asked_grows|done]. Qed.

Lemma missing_grows h h' repo tg at_ : h `suffix_of` h' → missing_by h repo tg at_ → missing_by h' repo tg at_.
Proof. intros Hs [?|(? & ? & e & ? & ?)]; [by left|right]. split_and!; try done. exists e. split; [by eapply asked_grows|done]. Qed.

Lemma event_grows (e : event (E:=op)) (h h' : history) : h `suffix_of` h' → e ∈ h → e ∈ h'.
Proof. intros [l ->] He. apply elem_of_app. by right. Qed.

Lemma readings_grow now (h h' : history) : h `suffix_of` h' → now ∈ readings h → now ∈ readings h'.
Proof. intros Hs (e & He & Hr)%list_elem_of_omap. apply list_elem_of_omap. exists e. split; [by eapply event_grows|done]. Qed.

Lemma degraded_grows h h' now : h `suffix_of` h' → degraded h now → degraded h' now.
Proof.
  intros Hs [(u & Hu)|(e & He & Hc)]; [left; exists u; by eapply event_grows|right].
  exists e. split; [by eapply asked_grows|done].
Qed.

Lemma failed_grows h h' err : h `suffix_of` h' → failed_with h err → failed_with h' err.
Proof.
  intros Hs [(n & H)|[(cl & d & h0 & h1 & ? & ? & ?)|(k & H)]].
  - left. exists n. by eapply asked_grows.
  - right; left. exists cl, d, h0, h1. split_and!; try done. by etrans.
  - right; right. exists k. by eapply event_grows.
Qed.

(** ** Calls *)
Lemma truly_then {A B} (Q : history → B → Prop) h (p : up A) k :
  truly (λ _ _, True) h p → (∀ h' a, h `suffix_of` h' → truly Q h' (k a)) → truly Q h (bind p k).
Proof. intros Hp%along_ran Hk. eapply along_bind; [exact Hp|]. intros h' a (_ & Hs & _). by apply Hk. Qed.

Lemma truly_thenE {X A B} (Q : history → result X B → Prop) h (p : up (result X A)) k :
  truly (λ h r, match r with Ok _ => True | Err e => Q h (Err e) end) h p →
  (∀ h' a, h `suffix_of` h' → truly Q h' (k a)) → truly Q h (bindE p k).
Proof. intros Hp%along_ran Hk. eapply along_bind; [exact Hp|]. intros h' [a|e] (_ & Hs & Ha); [by apply Hk|exact Ha]. Qed.

Lemma truly_get {B} h (g : bool → Memory.Store → result MetaError B) (Q : result MetaError B → Prop) :
  (∀ ctx s, store_wf s → recorded h s → Q (g ctx s)) →
  truly (λ h' r, h `suffix_of` h' ∧ readings h' = readings h ∧ Q r) h (meta_get g).
Proof.
  intros HQ. split.
  - intros ctx s s' b Hw Hc. destruct (g ctx s); [|done]. by intros [= <- <-].
  - intros r (ctx & s & Hw & Hc & ->). specialize (HQ ctx s Hw Hc). simpl. split_and!; [by eexists [_]|done|].
    by destruct (g ctx s).
Qed.

Lemma truly_put h (g : bool → Memory.Store → result MetaError Memory.Store) :
  (∀ ctx s s', store_wf s → g ctx s = Ok s' → store_wf s') → (∀ ctx s s', recorded h s → g ctx s = Ok s' → recorded h s') →
  truly (λ _ _, True) h (meta_put g).
Proof.
  intros Hw Hc. split; [|done]. intros ctx s s' b Hs Hk Hf. destruct (g ctx s) as [s1|] eqn:E; [|done]. simplify_eq.
  split; [by eapply Hw|by eapply Hc].
Qed.

Lemma truly_now {B} (Q : history → B → Prop) h (k : Z → up B) : (∀ now, truly Q (Ev OpNow now :: h) (k now)) → truly Q h (bind now_ k).
Proof. intros Hk. split; [done|]. intros b _. apply Hk. Qed.

Lemma truly_writeLease h l : confirmed_by h (tl_repository l) (tl_tag l) (tl_digest l) (tl_fetchedAt l) → truly (λ _ _, True) h (writeLease l).
Proof.
  intros Hl. apply truly_then; [|done]. apply truly_put; [intros; by eapply PutTagLease_wf|]. intros ctx s s' [H1 H2].
  unfold PutTagLease. intros H. inv_result. destruct (String.eqb (tl_tag l) ""); [done|]. destruct (String.eqb (tl_digest l) ""); [done|].
  injection H as <-. constructor; [|done]. intros repo tg row. simpl. rewrite get2_put2. case_decide as Hk; [|apply H1].
  intros [= <-]. by destruct Hk as [<- <-].
Qed.

Lemma truly_dropLease h : truly (λ _ _, True) h (dropLease t tag).
Proof.
  apply truly_then; [|done]. apply truly_put; [intros; by eapply DeleteTagLease_wf|]. intros ctx s s' [H1 H2].
  unfold DeleteTagLease. intros H. inv_result. destruct (get2 (tagLeases s) _ tag); [|done]. injection H as <-. constructor; [|done].
  intros repo' tag' row. simpl. rewrite get2_delete2. case_decide; [done|apply H1].
Qed.

Lemma truly_recordNegative h now : missing_by h (ta_repository t) tag now → truly (λ _ _, True) h (recordNegative t tag now).
Proof.
  intros Hm. unfold recordNegative. destruct (_ <=? 0)%Z; [done|]. apply truly_then; [|done].
  apply truly_put; [intros; by eapply PutNegativeEntry_wf|]. intros ctx s s' [H1 H2]. unfold PutNegativeEntry. intros H. inv_result.
  destruct (String.eqb _ ""); [done|]. injection H as <-. constructor; [done|]. intros repo ref row. simpl. rewrite get2_put2.
  case_decide as Hk; [|apply H2]. intros [= <-]. by destruct Hk as [<- <-].
Qed.

Lemma truly_dropNegative h : truly (λ _ _, True) h (dropNegative t tag).
Proof.
  apply truly_then; [|done]. apply truly_put; [intros; by eapply DeleteNegativeEntry_wf|]. intros ctx s s' [H1 H2].
  unfold DeleteNegativeEntry. intros H. inv_result. destruct (get2 (negativeCache s) _ tag); [|done]. injection H as <-.
  constructor; [done|]. intros repo' tag' row. simpl. rewrite get2_delete2. case_decide; [done|apply H2].
Qed.

Lemma truly_publish h e : truly (λ _ _, True) h (publish f e).
Proof. unfold publish. by destruct (fi_events f). Qed.

Lemma truly_recordUpstream {A} h now (r : result UpstreamError A) : truly (λ _ _, True) h (recordUpstream stream_timeout f t now r).
Proof.
  unfold recordUpstream. destruct r as [a|e]; [done|].
  destruct (match Classify stream_timeout e with Some cause => _ | None => _ end); [|done]. split; [done|]. by intros jitter _.
Qed.

Lemma truly_any {A} h (p : up A) (Q : A → Prop) : obeys anything client_op Q p → truly (λ _, Q) h p.
Proof. apply obeys_along; [done|]. intros h' B e. by destruct e. Qed.

Lemma not_remembered h err : err ≠ negativeAnswer t tag → excused h err.
Proof. by intros H ->. Qed.
Lemma failed_excused h err : failed_with h err → excused h err.
Proof. by left. Qed.
Ltac not_mine := apply not_remembered; discriminate.

(** Joining a flight: the run, or what the flight hands over. *)
Lemma truly_coalesce {A} h (typed : any → option A) key p (Q : history → result UpstreamError A → Prop) :
  (∀ h, Q h (Err ContextDone)) → (∀ h, Q h (Err CoalescerType)) →
  (∀ j, truly Q (Ev (OpJoin key) j :: h) p) →
  (∀ e, Q (Ev (OpJoin key) (Shared (Err e)) :: h) (Err e)) →
  (∀ v a, typed v = Some a → Q (Ev (OpJoin key) (Shared (Ok v)) :: h) (Ok a)) →
  truly Q h (coalesce typed key p).
Proof.
  intros Hgone Htype Hp He Hv. split; [done|]. intros j _. destruct j as [| |[v|e]|].
  - apply (Hp Lead).
  - change (truly Q (Ev (OpJoin key) LeadGone :: h) (bind p (λ _, Done (Err ContextDone)))).
    eapply along_bind; [exact (Hp LeadGone)|]. intros h' a _. apply Hgone.
  - change (truly Q (Ev (OpJoin key) (Shared (Ok v)) :: h) (match typed v with Some a => Done (Ok a) | None => Done (Err CoalescerType) end)).
    destruct (typed v) eqn:Ht; [by apply Hv|apply Htype].
  - apply He.
  - apply Hgone.
Qed.

Lemma truly_store h digest payload mediaType :
  truly (λ h r, match r with Ok _ => True | Err e => excused h e end) h (storeManifest ParseMediaType Unmarshal f t digest payload mediaType).
Proof.
  unfold storeManifest. destruct (Parse _ _ _ _) as [parsed|]; [|not_mine]. apply truly_now. intros at_.
  apply truly_then; [apply truly_put; [intros; by eapply PutCachedManifest_wf|]|].
  - intros ctx s s' [H1 H2]. unfold PutCachedManifest. intros H. inv_result. destruct (String.eqb _ ""); [done|]. inv_result. by constructor.
  - intros h' [[]|] _; [|done]. by apply truly_then; [apply truly_publish|].
Qed.

Lemma truly_fill h cl digest :
  ta_client t = Some cl → ClientLaws cl →
  truly (λ h r, match r with Ok _ => True | Err e => excused h e end) h (fill_manifest ParseMediaType Unmarshal stream_timeout f cl t digest).
Proof.
  intros Ht Hcl. apply truly_then; [eapply along_mono; [|by apply (truly_get _ _ (λ _, True))]; done|].
  intros h1 [row|e] _; [done|]. destruct e; try not_mine. apply truly_now. intros now.
  apply truly_thenE; [split; [done|]; intros [until|] _; [not_mine|done]|]. intros h2 _ _.
  eapply along_bind; [apply along_ran, truly_any, manifest_law|]. intros h3 fetched (Hran & Hs & _).
  apply truly_then; [apply truly_recordUpstream|]. intros h4 _ Hs4. destruct fetched as [[payload mediaType]|e]; [apply truly_store|].
  apply truly_then; [destruct (ErrIs e SDigestMismatch); [apply truly_publish|done]|]. intros h5 _ Hs5. apply failed_excused.
  right; left. exists cl, digest, h2, h3. split_and!; try done. by etrans.
Qed.

Lemma truly_manifest h digest :
  (∀ cl, ta_client t = Some cl → ClientLaws cl) →
  truly (λ h r, match r with Ok _ => True | Err e => excused h e end) h (Filler_Manifest ParseMediaType Unmarshal stream_timeout f t digest).
Proof.
  intros Hcl. unfold Filler_Manifest, validate. destruct (String.eqb _ _); [not_mine|]. destruct (String.eqb _ _); [not_mine|].
  destruct (ta_client t) as [cl|] eqn:Ht; [|not_mine]. destruct (Digest_Validate digest) as [[]|] eqn:Hd; [|not_mine].
  apply truly_coalesce; [intros; not_mine..|intros; apply truly_fill; auto| |done].
  intros e. apply failed_excused. right; right. exists (manifestKey (ta_repository t) digest). by left.
Qed.

(** ** Resolution *)
Definition held_confirmed (h : history) (held : option TagLease) : Prop :=
  match held with
  | Some l => tl_repository l = ta_repository t ∧ tl_tag l = tag ∧ confirmed_by h (ta_repository t) tag (tl_digest l) (tl_fetchedAt l)
  | None => True
  end.

Lemma held_grows h h' held : h `suffix_of` h' → held_confirmed h held → held_confirmed h' held.
Proof. intros Hs. destruct held as [l|]; [|done]. intros (? & ? & ?). split_and!; try done. by eapply confirmed_grows. Qed.

Lemma stale_for_max l ttl now : stale_for l ttl now = Z.max 0 (int64 (time_sub now (tl_fetchedAt l) - ttl)).
Proof. unfold stale_for. destruct (Z.ltb_spec (int64 (time_sub now (tl_fetchedAt l) - ttl)) 0); lia. Qed.

(** Why a resolution failed: the backoff, or the upstream's own answer. *)
Definition why (h : history) (now : Z) (err : UpstreamError) : Prop :=
  (∃ until, err = RateLimited (time_sub until now) true (ta_upstream t) ∧
    Ev (OpBackoff (λ states, (Ready (upstreamEntity t) now states, states))) (Some until) ∈ h) ∨
  asked h now (Err err).

Lemma truly_resolveFailed h held err now :
  now ∈ readings h → held_confirmed h held → why h now err →
  truly answer_ok h (resolveFailed stream_timeout f t tag held err now).
Proof.
  intros Hnow Hheld Hwhy.
  assert (∀ h', h `suffix_of` h' → excused h' err) as Hx.
  { intros h' Hs. destruct Hwhy as [(u & -> & _)|Ha]; [not_mine|]. apply failed_excused. left. exists now. by eapply asked_grows. }
  unfold resolveFailed. destruct (ErrIs err SNotFound) eqn:Hn.
  - apply truly_then; [destruct held; [apply truly_dropLease|done]|]. intros h1 _ Hs1.
    apply truly_then; [|intros h2 _ Hs2; apply Hx; by etrans]. apply truly_recordNegative. right. split_and!; try done. exists err.
    split; [|done]. destruct Hwhy as [(u & -> & _)|Ha]; [done|]. by eapply asked_grows.
  - destruct (Classify stream_timeout err) as [cause|] eqn:Hc; [|by apply Hx]. destruct held as [l|]; [|by apply Hx].
    destruct (strict (ta_offline t)) eqn:Hst; [by apply Hx|]. destruct Hheld as (Hr & Ht & Hl).
    apply truly_then; [destruct (tl_stale l); [done|apply truly_writeLease; simpl; by rewrite Hr, Ht]|]. intros h1 _ Hs1.
    apply truly_then; [apply truly_publish|]. intros h2 _ Hs2. assert (h `suffix_of` h2) as Hs by (by etrans).
    left. exists now. split; [by eapply readings_grow|]. exists (tl_fetchedAt l). cbn [tr_stale tr_hit tr_revalidated tr_staleFor tr_digest].
    split_and!; try done; [by eapply confirmed_grows| |apply stale_for_max].
    eapply degraded_grows; [exact Hs|]. destruct Hwhy as [(u & _ & Hu)|Ha]; [left; by exists u|right]. exists err. split; [done|by eexists].
Qed.

Lemma truly_resolved h held rv now :
  (∀ cl, ta_client t = Some cl → ClientLaws cl) → now ∈ readings h → held_confirmed h held → asked h now (Ok rv) →
  (rv_changed rv = false → rv_digest rv = cd_digest (conditional held)) →
  truly answer_ok h (resolved ParseMediaType Unmarshal stream_timeout f t tag held rv now).
Proof.
  intros Hcl Hnow Hheld Hrv Hsame. unfold resolved.
  assert (∀ h' digest, h `suffix_of` h' → rv_digest rv = digest →
    confirmed_by h' (ta_repository t) tag digest now ∧ ∀ changed, answer_ok h' (Ok (mkTagResolution digest false true changed false 0))) as Hans.
  { intros h' digest Hs Hd. split; [right; split_and!; try done; exists rv; split; [by eapply asked_grows|done]|]. intros changed. left.
    exists now. split; [by eapply readings_grow|]. split_and!; try done. exists rv. split; [by eapply asked_grows|done]. }
  assert (truly answer_ok h
    (fxE! _c := cacheResolved ParseMediaType Unmarshal stream_timeout f t rv in
     fx! _w := writeLease (mkTagLease (ta_repository t) tag (rv_digest rv) (rv_etag rv) now (ta_tagTTL t) false) in
     Done (Ok (mkTagResolution (rv_digest rv) false true true false 0)))) as Hnew.
  { apply truly_thenE.
    - unfold cacheResolved. destruct (rv_manifest rv); apply truly_thenE; [by apply truly_manifest|done|apply truly_store|done].
    - intros h1 _ Hs1. apply truly_then; [apply truly_writeLease, (Hans h1 (rv_digest rv)); done|]. intros h2 _ Hs2.
      apply (Hans h2 (rv_digest rv)); [by etrans|done]. }
  destruct (rv_changed rv); [exact Hnew|]. destruct held as [l|]; [|exact Hnew]. destruct Hheld as (Hr & Ht & _).
  specialize (Hsame eq_refl). simpl in Hsame.
  apply truly_then; [apply truly_writeLease; simpl; rewrite Hr, Ht; by apply (Hans h)|]. intros h1 _ Hs1. by apply Hans.
Qed.

Lemma truly_lease h :
  truly (λ h' r, h `suffix_of` h' ∧ match r with Ok held => held_confirmed h' held | Err e => excused h' e end) h (lease t tag).
Proof.
  eapply along_bind; [apply (truly_get _ _ (λ r, match r with Ok l => held_confirmed h (Some l) | Err _ => True end))|].
  - intros ctx s Hwf [Hl _]. unfold GetTagLease. destruct (enter ctx s); simpl; [|done].
    destruct (get2 (tagLeases s) (ta_repository t) tag) eqn:E; [|done]. destruct (cw_lease _ _ _ _ _ _ (sw_cached _ Hwf) _ _ _ E) as (_ & ? & ? & _).
    split_and!; [done..|]. by eapply Hl.
  - intros h1 [l|e] (Hs & _ & Hl); (split; [done|]); [by apply (held_grows h)|]. destruct e; try done; not_mine.
Qed.

Lemma truly_negative h :
  truly (λ h' r, h `suffix_of` h' ∧ readings h' = readings h ∧ match r with
    | Ok (Some n) => missing_by h' (ta_repository t) tag (ne_observedAt n) | Ok None => True | Err e => excused h' e end) h (negative t tag).
Proof.
  eapply along_bind; [apply (truly_get _ _ (λ r, match r with Ok n => missing_by h (ta_repository t) tag (ne_observedAt n) | Err _ => True end))|].
  - intros ctx s _ [_ Hn]. unfold GetNegativeEntry. destruct (enter ctx s); simpl; [|done].
    destruct (get2 (negativeCache s) (ta_repository t) tag) eqn:E; [|done]. by eapply Hn.
  - intros h1 [l|e] (Hs & Hr & Hl); (split_and!; [done..|]); [by eapply missing_grows|]. destruct e; try done; not_mine.
Qed.

(** Asking, with the clock read last at [now]. *)
Lemma truly_ask h cl held absent now :
  ta_client t = Some cl → (∀ cl, ta_client t = Some cl → ClientLaws cl) → readings h !! 0 = Some now → held_confirmed h held →
  truly answer_ok h (ask_tag ParseMediaType Unmarshal stream_timeout f cl t tag held absent now).
Proof.
  intros Ht Hcl Hlast Hheld. assert (now ∈ readings h) as Hnow by (by eapply list_elem_of_lookup_2).
  split; [done|]. intros deadline _. set (h1 := Ev _ deadline :: h). assert (h `suffix_of` h1) as Hs1 by (by eexists [_]).
  destruct deadline as [deadline|].
  { apply truly_resolveFailed; [done|by eapply held_grows|]. left. exists deadline. split; [done|by left]. }
  change (truly answer_ok h1 (bind (ask_ResolveTag cl (ta_upstream t) tag (conditional held)) (λ answer,
    fx! _r := recordUpstream stream_timeout f t now answer in
    match answer with
    | Err e => resolveFailed stream_timeout f t tag held e now
    | Ok rv =>
        fx! _n := if absent then dropNegative t tag else Done tt in
        resolved ParseMediaType Unmarshal stream_timeout f t tag held rv now
    end))).
  pose proof (Hcl cl Ht) as Hlaws.
  eapply along_bind; [apply along_ran, truly_any, (resolve_law (cl:=cl))|].
  intros h2 answer (Hran & Hs2 & Hlaw). apply truly_then; [apply truly_recordUpstream|]. intros h3 _ Hs3.
  assert (asked h3 now answer) as Hasked by (exists cl, (conditional held), h1, h2; by split_and!).
  assert (h `suffix_of` h3) as Hs by (etrans; [exact Hs1|by etrans]).
  assert (now ∈ readings h3) as Hnow3 by (by eapply readings_grow). destruct answer as [rv|e].
  - apply truly_then; [destruct absent; [apply truly_dropNegative|done]|]. intros h4 _ Hs4.
    apply truly_resolved; [done|by eapply readings_grow|eapply held_grows; [|done]; by etrans|by eapply asked_grows|apply Hlaw].
  - apply truly_resolveFailed; [done|by eapply held_grows|by right].
Qed.

Lemma truly_resolveTag h cl :
  ta_client t = Some cl → (∀ cl, ta_client t = Some cl → ClientLaws cl) →
  truly answer_ok h (resolveTag ParseMediaType Unmarshal stream_timeout f cl t tag).
Proof.
  intros Ht Hcl. unfold resolveTag. apply (along_bindE _ _ held_confirmed);
    [eapply along_mono; [|apply truly_lease]; by intros h' [] []|].
  intros h1 held Hheld. apply truly_now. intros now. set (h2 := Ev OpNow now :: h1).
  assert (h1 `suffix_of` h2) as Hs2 by (by eexists [_]). assert (now ∈ readings h2) as Hnow by (by left).
  destruct (match held with Some l => _ | None => _ end) as [l|] eqn:Hfresh.
  { destruct held as [l'|]; [|done]. destruct (fresh l' _ now) eqn:Hf; simplify_eq. destruct Hheld as (_ & _ & Hl).
    unfold fresh in Hf. destruct (Z.leb_spec (ta_tagTTL t) 0); [done|]. apply Z.ltb_lt in Hf. left. exists now. split; [done|].
    exists (tl_fetchedAt l). split_and!; try done. by eapply confirmed_grows. }
  apply (along_bindE _ _ (λ h absent, h2 `suffix_of` h ∧ readings h = readings h2 ∧
      match absent with Some n => missing_by h (ta_repository t) tag (ne_observedAt n) | None => True end));
    [eapply along_mono; [|apply truly_negative]; intros h' [[n|]|e] (? & ? & ?); [by split_and!..|done]|].
  intros h3 absent (Hs3 & Hr3 & Habs). destruct (match absent with Some entry => _ | None => _ end) eqn:Hneg.
  { destruct absent as [n|]; [|done]. unfold negativeFresh in Hneg. destruct (Z.leb_spec (ta_negativeTTL t) 0); [done|].
    apply Z.ltb_lt in Hneg. intros _. right. exists (ne_observedAt n), now. split_and!; try done. by rewrite Hr3. }
  apply truly_ask; [done..|by rewrite Hr3|]. eapply held_grows; [|done]. by etrans.
Qed.

(** C11: a tag answer is as current as it claims, under any interleaving and with
    any failures. Unless it is the answer of a flight it joined, a resolution that
    is not stale was confirmed within one TTL before the clock reading it took, or
    by the upstream itself when asked right after that reading; a stale one was
    confirmed at a recorded moment, is served only in a mode that is not strict and
    only because in this very resolution the backoff held the upstream back or the
    upstream, asked after that reading, failed in a way [Classify] puts down to
    degradation, and says how far past its deadline the recorded moment is. A
    remembered absence was observed within the negative TTL. And the rows it writes
    keep only moments on record before, or the last clock reading before the
    upstream confirmed (for a lease) or denied (for an absence) this tag. *)
Theorem tag_answers_are_current :
  (∀ cl, ta_client t = Some cl → ClientLaws cl) →
  truly answer_ok [] (Filler_ResolveTag ParseMediaType Unmarshal stream_timeout f t tag).
Proof.
  intros Hcl. unfold Filler_ResolveTag, validate. destruct (String.eqb _ _); [not_mine|]. destruct (String.eqb _ _); [not_mine|].
  destruct (ta_client t) as [cl|] eqn:Ht; [|not_mine]. destruct (String.eqb tag ""); [not_mine|].
  apply truly_coalesce; [intros; not_mine..| | |].
  - intros j. apply truly_resolveTag; [done|]. by rewrite Ht.
  - intros e. apply failed_excused. right; right. exists (tagKey (ta_repository t) tag). by left.
  - intros v a Ha. destruct v; simplify_eq/=. right. by left.
Qed.
End lease.

(** The example client, with nothing on record. *)
Lemma tag_answers_are_current_witness :
  along (told (hub_target demo_client) "latest" (λ _ _ _ _, False) (λ _ _ _, False))
    (records (hub_target demo_client) "latest" (λ _ _ _ _, False) (λ _ _ _, False))
    (answer_ok (λ _, false) (hub_target demo_client) "latest" (λ _ _ _ _, False) (λ _ _ _, False)) []
    (Filler_ResolveTag (λ m, Some m) (λ _, None) (λ _, false) (mkFiller true (NewBackoff 0 0)) (hub_target demo_client) "latest").
Proof. apply tag_answers_are_current. intros cl [= <-]. apply demo_client_laws. Defined.
