(* ===== verification/FillStream.v ===== *)
(** * Streaming a blob to a client and into the cache at once

    What the client reads is what the upstream's verified stream gives, whatever
    the cache does; and what one request alone leaves in the cache is all of it,
    verified, or nothing: with its row, unless the metadata refuses the row, when
    the bytes stay for the sweep of orphans. *)
From S2P Require Import Prelude RepoName Digest Sha2 Verify VerifySpec GoStrings Meta Memory MemoryInv BlobStore BlobStoreSpec Artifact Limiter Http Uploads Manifests.
From S2P Require Import HostPattern Effects Upstream UpstreamSpec Backoff Fill FillSpec.

(** ** Reading a fill with given buffer sizes, until an error *)
Fixpoint fill_reads (f : Filler) (sizes : list nat) (x : fill) : up (option (bytes * option ReadError * fill)) :=
  match sizes with
  | [] => Done (Some ([], None, x))
  | k :: sizes =>
      fx! out := fill_Read f k x in
      match out with
      | None => Done None
      | Some (c, Some e, x) => Done (Some (c, Some e, x))
      | Some (c, None, x) =>
          fx! rest := fill_reads f sizes x in
          Done (match rest with None => None | Some (c', e, x) => Some (c ++ c', e, x) end)
      end
  end.

(** ** Whatever the cache does, the client sees the source *)
Definition as_source (src : option (bytes * option ReadError * verifiedReader Body)) (out : option (bytes * option ReadError * fill)) : Prop :=
  option_map (λ '(c, e, x), (c, e, fl_src x)) out = src.

Abbreviation always := (obeys anything anyhow).

Lemma cancel_source x : always (λ y, fl_src y = fl_src x) (fill_cancel x).
Proof. unfold fill_cancel. destruct (fl_settled x); [done|]. split; [done|]. by intros e _. Qed.

Lemma complete_source f x : always (λ y, fl_src y = fl_src x) (fill_complete f x).
Proof.
  unfold fill_complete. destruct (_ || _); [done|]. split; [done|]. intros [desc|e] _; [|done]. split; [done|]. intros at_ _.
  split; [done|]. intros [[]|e] _; [|done]. unfold publishFilled, publish. destruct (fi_events f); [|done]. split; [done|]. by intros b _.
Qed.

Lemma Read_source f k x : always (as_source (Verify.Read k (fl_src x))) (fill_Read f k x).
Proof.
  unfold fill_Read, as_source. destruct (Verify.Read k (fl_src x)) as [[[p err] src]|]; [|done].
  eapply (obeys_bind _ _ (λ y, fl_src y = src)).
  - destruct (_ && _); [|done]. split; [done|]. intros [e|] _; [|done]. apply (cancel_source (fill_mark true _ (fill_set_src src x))).
  - intros y <-. eapply (obeys_bind _ _ (λ z, fl_src z = fl_src y)); [|by intros z <-].
    destruct err as [[|e]|]; [apply complete_source| |done].
    eapply (obeys_then); [|intros _; apply cancel_source]. destruct (is_mismatch e); [|done].
    unfold publishCorrupt, publish. by destruct (fi_events f).
Qed.

Lemma reads_source f sizes x : always (as_source (reads sizes (fl_src x))) (fill_reads f sizes x).
Proof.
  revert x. induction sizes as [|k sizes IH]; intros x; [done|]. cbn [fill_reads reads]. eapply obeys_bind; [apply Read_source|].
  intros out Hout. unfold as_source in Hout. cbn [rd_read verifiedReader_Reader]. rewrite <-Hout.
  destruct out as [[[c [e|]] y]|]; [done| |done]. simpl. eapply obeys_bind; [apply IH|]. intros rest Hrest. unfold as_source in *.
  rewrite <-Hrest. by destruct rest as [[[c' e] z]|].
Qed.

(** ** One request alone over the two stores *)

(** [fw_gone] says, call by call, whether the request's context was over. *)
Record FillWorld : Type := mkFillWorld { fw_meta : Memory.Store; fw_blobs : BlobStore.Store; fw_gone : list bool; fw_time : Z }.

Definition gone (w : FillWorld) : bool := match fw_gone w with b :: _ => b | [] => false end.

Definition handle (B : Type) (e : op B) : FillWorld → option (B * FillWorld) :=
  match e with
  | OpNow => λ w, Some (fw_time w, w)
  | OpMeta f => λ w,
      match f (gone w) (fw_meta w) with
      | Ok (s, b) => Some (Ok b, mkFillWorld s (fw_blobs w) (tail (fw_gone w)) (fw_time w))
      | Err e => Some (Err e, mkFillWorld (fw_meta w) (fw_blobs w) (tail (fw_gone w)) (fw_time w))
      end
  | OpBlobs f => λ w,
      match f (gone w) (fw_blobs w) with
      | Some (b, s) => Some (b, mkFillWorld (fw_meta w) s (tail (fw_gone w)) (fw_time w))
      | None => None
      end
  | OpPublish _ => λ w, Some (tt, w)
  | _ => λ _, None
  end.

Abbreviation alone := (exec handle).

Section stream.
Context (f : Filler).

Lemma alone_publish e w : alone (publish f e) w = Some (tt, w).
Proof. unfold publish. by destruct (fi_events f). Qed.

(** The session of a fill: open with what was read, or closed and forgotten. *)
Definition live (id : string) (got : bytes) (x : fill) (w : FillWorld) : Prop :=
  fl_settled x = false ∧ fl_abandoned x = false ∧ heap (fw_blobs w) !! fl_session x = Some (mkSession id got false).
Definition over (id : string) (x : fill) (w : FillWorld) : Prop :=
  fl_settled x = true ∧ heap (fw_blobs w) !! fl_session x = Some (mkSession id [] true) ∧ BlobStore.uploads (fw_blobs w) !! id = None.
Definition kept (w w' : FillWorld) : Prop :=
  BlobStore.blobs (fw_blobs w') = BlobStore.blobs (fw_blobs w) ∧ fw_meta w' = fw_meta w ∧ fw_time w' = fw_time w ∧ fw_gone w' ⊆ fw_gone w.

(** The bytes are published and the row is written, or was refused. *)
Definition stored (x : fill) (got : bytes) (w w' : FillWorld) : Prop :=
  BlobStore.blobs (fw_blobs w') = BlobStore.blobs (BlobStore.publish (fl_digest x) got (fw_blobs w)) ∧
  let row := mkCachedBlob (fl_repository x) (fl_digest x) (int64 (Z.of_nat (length got))) (fw_time w) (fw_time w) in
  match PutCachedBlob false row (fw_meta w) with Ok s => fw_meta w' = s | Err _ => fw_meta w' = fw_meta w end.

Definition same_fill (x y : fill) : Prop :=
  fl_repository y = fl_repository x ∧ fl_digest y = fl_digest x ∧ fl_session y = fl_session x.

Lemma discard_session a id buf s :
  heap s !! a = Some (mkSession id buf false) →
  heap (discard a s) !! a = Some (mkSession id [] true) ∧ BlobStore.uploads (discard a s) !! id = None ∧
  BlobStore.blobs (discard a s) = BlobStore.blobs s.
Proof.
  intros H. unfold discard, deref. rewrite H. simpl. split_and!; [|apply lookup_delete_eq|done].
  apply list_lookup_insert_eq. by eapply lookup_lt_Some.
Qed.

Lemma cancel_live id got x w :
  fl_settled x = false → heap (fw_blobs w) !! fl_session x = Some (mkSession id got false) →
  ∃ y w', alone (fill_cancel x) w = Some (y, w') ∧ over id y w' ∧ kept w w' ∧ same_fill x y ∧ fl_src y = fl_src x ∧ fl_abandoned y = fl_abandoned x.
Proof.
  intros Hs Hh. unfold fill_cancel. rewrite Hs. simpl. eexists _, _. split; [done|].
  destruct (discard_session _ _ _ _ Hh) as (H1 & H2 & H3). split_and!; try done. split_and!; try done. simpl. by destruct (fw_gone w); set_solver.
Qed.

Lemma complete_live id got x w :
  live id got x w → hashes_to (fl_digest x) got → Digest_Validate (fl_digest x) = Ok tt →
  ∃ y w', alone (fill_complete f x) w = Some (y, w') ∧ over id y w' ∧ stored x got w w' ∧ same_fill x y ∧ fl_src y = fl_src x.
Proof.
  intros (Hs & Ha & Hh) Hhash Hd. unfold fill_complete. rewrite Hs, Ha. cbn [orb]. rewrite exec_bind. unfold blobs_call.
  rewrite exec_call. cbn [handle fill_mark fl_digest fl_session fl_repository].
  pose proof (Commit_cases false (fl_digest x) (fl_session x) (fw_blobs w)) as Hc.
  assert (deref (fl_session x) (fw_blobs w) = mkSession id got false) as Hderef by (unfold deref; by rewrite Hh).
  rewrite Hderef in Hc. cbv zeta in Hc. cbn [se_buf se_closed] in Hc.
  assert (∃ v, NewVerifier (fl_digest x) = Ok v ∧ Verifier_Verify (Verifier_Write got v) = Ok tt) as (v & Hv & Hok).
  { destruct (NewVerifier (fl_digest x)) as [v|e] eqn:Hv; [|unfold NewVerifier in Hv; by rewrite Hd in Hv].
    exists v. split; [done|]. pose proof (Verify_iff _ v got Hv) as Hi. destruct (Verifier_Verify (Verifier_Write got v)) as [[]|] eqn:E; [reflexivity|]. by destruct Hi. }
  destruct (Commit false (fl_digest x) (fl_session x) (fw_blobs w)) as [[desc|e] s'] eqn:HC;
    [|unfold Commit in HC; rewrite Hderef, Hv in HC; simpl in HC; by rewrite Hok in HC].
  destruct Hc as (_ & _ & _ & _ & -> & ->).
  assert (heap (BlobStore.publish (fl_digest x) got (fw_blobs w)) !! fl_session x = Some (mkSession id got false)) as Hp
    by (by rewrite (proj2 (publish_rest _ _ _))).
  destruct (discard_session _ _ _ _ Hp) as (H1 & H2 & H3).
  unfold now_. rewrite exec_bind, exec_call. cbn [handle fw_time]. unfold meta_put. rewrite exec_bind, exec_call. cbn [handle fw_meta Verify.ds_size].
  set (row := mkCachedBlob _ _ _ _ _). destruct (PutCachedBlob false row (fw_meta w)) as [m|e] eqn:Hput.
  - rewrite exec_bind. unfold publishFilled. rewrite alone_publish. simpl. eexists _, _. split; [done|].
    split_and!; try done. split; [done|]. cbv zeta. unfold row in Hput. by rewrite Hput.
  - simpl. eexists _, _. split; [done|]. split_and!; try done. split; [done|]. cbv zeta. unfold row in Hput. by rewrite Hput.
Qed.

(** ** Reading *)

(** What has been handed over, together with what is to come, hashes to the
    digest when the stream will end well. *)
Definition promise (got : bytes) (x : fill) : Prop :=
  vr_wf (fl_src x) ∧ Digest_Validate (fl_digest x) = Ok tt ∧
  (vr_end (fl_src x) = EOF → hashes_to (fl_digest x) (got ++ vr_rest (fl_src x))).

(** While nothing has ended: filling, or given up because the request was over. *)
Definition phase (id : string) (got : bytes) (x : fill) (w0 w : FillWorld) : Prop :=
  kept w0 w ∧ (live id got x w ∨ (over id x w ∧ fl_abandoned x = true ∧ true ∈ fw_gone w0)).

(** After the end of the stream. *)
Definition finished (id : string) (got : bytes) (e : ReadError) (x : fill) (w0 w : FillWorld) : Prop :=
  over id x w ∧ match e with
  | EOF => stored x got w0 w ∨ (kept w0 w ∧ true ∈ fw_gone w0)
  | Failed _ => kept w0 w
  end.

Lemma kept_refl w : kept w w.
Proof. by split_and!. Qed.
Lemma kept_trans w1 w2 w3 : kept w1 w2 → kept w2 w3 → kept w1 w3.
Proof. intros (?&?&?&?) (?&?&?&?). split_and!; try congruence. set_solver. Qed.

Lemma gone_in w : gone w = true → true ∈ fw_gone w.
Proof. unfold gone. destruct (fw_gone w) as [|b l]; [done|]. intros ->. by left. Qed.

Lemma same_fill_trans x y z : same_fill x y → same_fill y z → same_fill x z.
Proof. intros (?&?&?) (?&?&?). split_and!; congruence. Qed.

(** The cache's share of one read: the bytes are appended, or caching is given up. *)
Lemma write_phase id got x w0 w p :
  phase id got x w0 w →
  ∃ y w', alone (if (0 <? length p) && negb (fl_abandoned x) then
      fx! wErr := blobs_call (λ ctx s, match Write ctx (mkBytesReader p) (fl_session x) s with Some (_, e, s') => Some (e, s') | None => None end) in
      match wErr with Some _ => fill_abandon x | None => Done x end
    else Done x) w = Some (y, w') ∧ phase id (got ++ p) y w0 w' ∧ same_fill x y ∧ fl_src y = fl_src x.
Proof.
  intros [Hk [Hl|(Ho & Ha & Hg)]]; [|rewrite Ha, andb_false_r; exists x, w; split_and!; try done; split; [done|by right]].
  destruct Hl as (Hs & Ha & Hh). rewrite Ha, andb_true_r. destruct (Nat.ltb_spec 0 (length p)) as [Hp|Hp].
  2: { destruct p; [|simpl in Hp; lia]. exists x, w. rewrite app_nil_r. split_and!; try done. split; [done|]. by left. }
  rewrite exec_bind. unfold blobs_call. rewrite exec_call. cbn [handle].
  assert (deref (fl_session x) (fw_blobs w) = mkSession id got false) as Hderef by (unfold deref; by rewrite Hh).
  assert (∀ w', fw_gone w' = tail (fw_gone w) → fw_gone w' ⊆ fw_gone w) as Htail.
  { intros w' ->. destruct (fw_gone w); simpl; set_solver. }
  unfold Write. destruct (gone w) eqn:Hgone.
  - unfold fill_abandon. set (w1 := mkFillWorld _ _ _ _).
    destruct (cancel_live id got (fill_mark true (fl_settled x) x) w1) as (y & w' & Hrun & Hov & Hk' & Hsame & Hsrc & Hab); [done|done|].
    exists y, w'. split; [exact Hrun|]. split; [split|by split].
    + apply (kept_trans w0 w); [done|]. apply (kept_trans w w1); [|done]. split_and!; try done. by apply Htail.
    + right. split_and!; try done. apply gone_in in Hgone. destruct Hk as (_ & _ & _ & Hsub). set_solver.
  - rewrite Hderef. cbn [se_closed se_buf se_id]. destruct (io_Copy_all (mkBytesReader p) (bytes_reader_wf _)) as (r' & -> & _).
    simpl. eexists x, _. split; [done|]. split; [split|by split].
    + apply (kept_trans w0 w); [done|]. split_and!; try done. by apply Htail.
    + left. split_and!; try done. simpl. apply list_lookup_insert_eq. by eapply lookup_lt_Some.
Qed.

Lemma Read_phase id got x w0 w k :
  phase id got x w0 w → promise got x → 0 < k →
  ∃ c e y w', alone (fill_Read f k x) w = Some (Some (c, e, y), w') ∧ same_fill x y ∧ promise (got ++ c) y ∧
    match e with None => phase id (got ++ c) y w0 w' | Some e => finished id (got ++ c) e y w0 w' end.
Proof.
  intros Hph (Hwf & Hd & Hpr) Hk. destruct (Read_spec k (fl_src x) Hwf Hk) as (c & e & src & Hread & Hwf' & _ & Hrest & Hend & _ & _ & Hx & _).
  unfold fill_Read. rewrite Hread. assert (phase id got (fill_set_src src x) w0 w) as Hph1 by exact Hph.
  destruct (write_phase id got (fill_set_src src x) w0 w c Hph1) as (y & w1 & Hrun & Hphy & Hsame & Hsrc).
  rewrite exec_bind, Hrun. assert (promise (got ++ c) y) as Hpy.
  { destruct Hsame as (_ & Hdg & _). unfold promise. rewrite Hsrc, Hdg, <-(assoc_L (++)). simpl. rewrite Hend, <-Hrest. by split_and!. }
  assert (∀ z, same_fill y z → fl_src z = fl_src y → promise (got ++ c) z) as Hpz.
  { intros z (_ & Hdg & _) Hs. destruct Hpy as (?&?&?). unfold promise. rewrite Hs, Hdg. by split_and!. }
  assert (∀ z, same_fill y z → same_fill x z) as Hxz by (intros z; apply same_fill_trans, Hsame).
  destruct e as [e|]; [|simpl; by exists c, None, y, w1].
  destruct (Hx e eq_refl) as [-> Hnil]. destruct Hphy as [Hkept Hphy]. destruct (vr_end (fl_src x)) as [|err] eqn:He.
  - destruct Hphy as [Hl|(Ho & Ha & Hg)].
    + destruct Hpy as (Hwfy & Hdy & Hhy). rewrite Hsrc in Hhy. simpl in Hhy. rewrite Hend, Hnil, app_nil_r in Hhy.
      destruct (complete_live id (got ++ c) y w1 Hl (Hhy eq_refl) Hdy) as (z & w' & Hrunz & Hov & [Hb Hm] & Hsz & Hsrcz).
      rewrite exec_bind, Hrunz. simpl. exists c, (Some EOF), z, w'. split_and!; auto. split; [done|]. left.
      destruct Hkept as (Hkb & Hkm & Hkt & _). destruct Hsz as (E1 & E2 & _). split.
      * rewrite Hb, E2. unfold BlobStore.publish. rewrite Hkb. by destruct (BlobStore.blobs (fw_blobs w0) !! _).
      * rewrite E1, E2, <-Hkt, <-Hkm. exact Hm.
    + unfold fill_complete. destruct Ho as (Hset & Ho). rewrite Hset. simpl. exists c, (Some EOF), y, w1. split_and!; try done. split; [done|]. by right.
  - rewrite exec_bind. assert (alone (if is_mismatch err then publishCorrupt f (fl_repository y) (fl_digest y) else Done tt) w1 = Some (tt, w1)) as Hpub.
    { destruct (is_mismatch err); [apply alone_publish|done]. }
    rewrite exec_bind, Hpub. destruct Hphy as [(Hs & Ha & Hh)|(Ho & Ha & Hg)].
    + destruct (cancel_live id (got ++ c) y w1 Hs Hh) as (z & w' & -> & Hov & Hk' & Hsz & Hsrcz & _). simpl.
      exists c, (Some (Failed err)), z, w'. split_and!; auto. split; [done|]. by eapply kept_trans.
    + unfold fill_cancel. destruct Ho as (Hset & Ho). rewrite Hset. simpl. by exists c, (Some (Failed err)), y, w1.
Qed.

Lemma reads_phase id sizes got x w0 w :
  phase id got x w0 w → promise got x → Forall (lt 0) sizes →
  ∃ out e y w', alone (fill_reads f sizes x) w = Some (Some (out, e, y), w') ∧ same_fill x y ∧
    match e with None => phase id (got ++ out) y w0 w' | Some e => finished id (got ++ out) e y w0 w' end.
Proof.
  intros Hph Hpr Hs. revert got x w Hph Hpr. induction Hs as [|k sizes Hk Hs IH]; intros got x w Hph Hpr; simpl.
  { exists [], None, x, w. rewrite app_nil_r. by split_and!. }
  destruct (Read_phase id got x w0 w k Hph Hpr Hk) as (c & e & y & w1 & Hrun & Hsame & Hpr1 & He). rewrite exec_bind, Hrun.
  destruct e as [e|]; [by exists c, (Some e), y, w1|].
  destruct (IH (got ++ c) y w1 He Hpr1) as (out & e & z & w2 & Hrun2 & Hsame2 & He2). rewrite exec_bind, Hrun2. simpl.
  exists (c ++ out), e, z, w2. rewrite (assoc_L (++)). split_and!; try done. by eapply same_fill_trans.
Qed.

Lemma Close_ends id got e x w0 w :
  match e with None => phase id got x w0 w | Some e => finished id got e x w0 w end →
  ∃ y w', alone (fill_Close x) w = Some (y, w') ∧ over id y w' ∧
    match e with Some EOF => w' = w ∧ fl_repository y = fl_repository x | _ => kept w0 w' end.
Proof.
  assert (over id x w → alone (fill_Close x) w = Some (x, w)) as Hset.
  { intros (Hs & _). unfold fill_Close, fill_cancel. by rewrite Hs. }
  destruct e as [e|].
  - intros [Hov He]. exists x, w. split_and!; [auto|done|]. by destruct e.
  - intros [Hk [(Hs & Ha & Hh)|(Ho & _ & _)]]; [|exists x, w; by auto].
    destruct (cancel_live id got x w Hs Hh) as (y & w' & Hrun & Hov & Hk' & _). exists y, w'. split_and!; try done. by eapply kept_trans.
Qed.

(** The bytes are published, and their row is added and nothing else. *)
Definition filed (x : fill) (got : bytes) (w w' : FillWorld) : Prop :=
  BlobStore.blobs (fw_blobs w') = BlobStore.blobs (BlobStore.publish (fl_digest x) got (fw_blobs w)) ∧
  let row := mkCachedBlob (fl_repository x) (fl_digest x) (int64 (Z.of_nat (length got))) (fw_time w) (fw_time w) in
  fw_meta w' = set_cachedBlobs (put2 (fl_repository x) (fl_digest x) row (cachedBlobs (fw_meta w))) (fw_meta w).

(** The bytes are published without a row: the metadata store is closed, or the
    repository is not a proxy's, or no longer there. *)
Definition orphaned (x : fill) (got : bytes) (w w' : FillWorld) : Prop :=
  BlobStore.blobs (fw_blobs w') = BlobStore.blobs (BlobStore.publish (fl_digest x) got (fw_blobs w)) ∧ fw_meta w' = fw_meta w ∧
  (closed (fw_meta w) = true ∨ is_ok (requireProxyEntity (fl_repository x) (fw_meta w)) = false).

Lemma stored_cases x got w w' : Digest_Validate (fl_digest x) = Ok tt → stored x got w w' → filed x got w w' ∨ orphaned x got w w'.
Proof.
  intros Hd [Hb Hm]. cbv zeta in Hm. unfold PutCachedBlob, enter in Hm. cbn [cb_repository cb_digest] in Hm.
  destruct (closed (fw_meta w)) eqn:Hc; [right; split_and!; [done..|by left]|]. cbn [result_bind] in Hm.
  destruct (requireProxyEntity (fl_repository x) (fw_meta w)) as [[]|e] eqn:Hr; [|right; split_and!; [done..|right; by rewrite Hr]].
  destruct (String.eqb_spec (fl_digest x) "") as [E|_]; [by rewrite E in Hd|]. by left.
Qed.

(** C13: a blob pulled through a proxy. Whatever the stores, the clock and the
    other requests do at each step, the client reads exactly what the upstream's
    verified stream gives. For one request alone over the two stores, with any
    buffer sizes, its context ended at any calls, read and then closed: the reads
    return, and the session is closed and forgotten; unless the stream ended
    cleanly, blobs and metadata are what they were; and when it did, what the
    client read hashes to the digest, and there are three outcomes: the bytes are
    in the store and their row is added; or the bytes are there and the row was
    refused, which happens only with the metadata store closed or no proxy of that
    name; or, when the context was over at some call, nothing was kept. *)
Theorem fills_are_transparent_and_whole repository remote digest size body src a id sizes w :
  let x := mkFill repository remote digest src a false false in
  NewVerifiedReader body (Verify.mkDescriptor digest size) false = Ok src →
  heap (fw_blobs w) !! a = Some (mkSession id [] false) → Forall (lt 0) sizes →
  always (as_source (reads sizes src)) (fill_reads f sizes x) ∧
  ∃ out e y w' z w'', alone (fill_reads f sizes x) w = Some (Some (out, e, y), w') ∧ alone (fill_Close y) w' = Some (z, w'') ∧
    over id z w'' ∧
    match e with
    | Some EOF => hashes_to digest out ∧ (filed x out w w'' ∨ orphaned x out w w'' ∨ (kept w w'' ∧ true ∈ fw_gone w))
    | _ => kept w w''
    end.
Proof.
  intros x Hsrc Hh Hs. split; [apply (reads_source f sizes x)|].
  destruct (NewVerifiedReader_ok body _ false src (body_wf body) Hsrc) as (Hwf & _ & _ & _ & _ & Hserv & Hcase).
  assert (Digest_Validate digest = Ok tt) as Hd.
  { unfold NewVerifiedReader in Hsrc. simpl in Hsrc. destruct (NewVerifier digest) as [v|] eqn:Hv; [|done]. by destruct (NewVerifier_ok _ _ Hv) as (_ & ? & _). }
  assert (rd_end src = EOF → hashes_to digest (rd_rest src)) as Hgood.
  { intros He. rewrite Hserv. rewrite He in *. apply Hcase. }
  destruct (reads_phase id sizes [] x w w) as (out & e & y & w1 & Hrun & Hsame & He).
  { split; [apply kept_refl|left; done]. }
  { split_and!; [exact Hwf|exact Hd|exact Hgood]. }
  { done. }
  destruct (Close_ends id _ e y w w1 He) as (z & w2 & Hclose & Hov & Hk). exists out, e, y, w1, z, w2. split_and!; try done.
  destruct e as [[|err]|]; try done. destruct Hk as [-> _]. destruct He as [_ He]. split; [|].
  - destruct (reads_law sizes src Hwf Hs) as (out' & e' & r' & Hreads & _ & Hrest & _ & Hx & _).
    assert (as_source (reads sizes src) (Some (out, Some EOF, y))) as Has.
    { eapply (exec_obeys handle (λ _, True)); [|done|apply (reads_source f sizes x)|exact Hrun]. done. }
    rewrite Hreads in Has. injection Has as <- <- <-. destruct (Hx EOF eq_refl) as [Hend Hnil].
    rewrite Hnil, app_nil_r in Hrest. rewrite <-Hrest. by apply Hgood.
  - destruct He as [[Hb Hm]|He]; [|by right; right]. destruct Hsame as (E1 & E2 & _).
    assert (stored x out w w1) as Hst by (split; [by rewrite Hb, E2|by rewrite E1, E2 in Hm]).
    destruct (stored_cases x out w w1 Hd Hst); [by left|by right; left].
Qed.
End stream.

(** ** A layer of three bytes, filled *)
Definition demo_session : BlobStore.Store :=
  match CreateUpload false "cachefill-1" (BlobStore.New false) with Ok (_, s) => s | Err _ => BlobStore.New false end.
Definition demo_world (gone : list bool) : FillWorld :=
  mkFillWorld (set_repos {["hub" := mkRepository "hub" Proxy "" 1 0 0]} newEmpty) demo_session gone 5.
Definition demo_source : result BlobError (verifiedReader Body) :=
  NewVerifiedReader (abc_body "c") (Verify.mkDescriptor abc_digest 3) false.
Definition demo_fill (src : verifiedReader Body) : fill := mkFill "hub/app" "docker.io" abc_digest src 0 false false.

Lemma fills_are_transparent_and_whole_witness :
  ∃ src out e y w' z w'', demo_source = Ok src ∧
    alone (fill_reads (mkFiller true (NewBackoff 0 0)) [2; 7; 7] (demo_fill src)) (demo_world []) = Some (Some (out, e, y), w') ∧
    alone (fill_Close y) w' = Some (z, w'') ∧ over "cachefill-1" z w''.
Proof.
  destruct demo_source as [src|] eqn:Hsrc; [|exfalso; by vm_compute in Hsrc].
  destruct (fills_are_transparent_and_whole (mkFiller true (NewBackoff 0 0)) "hub/app" "docker.io" abc_digest 3 (abc_body "c") src 0
    "cachefill-1" [2; 7; 7] (demo_world [])) as [_ (out & e & y & w' & z & w'' & H1 & H2 & H3 & _)].
  - exact Hsrc.
  - by vm_compute.
  - repeat constructor; lia.
  - exists src, out, e, y, w', z, w''. by split_and!.
Defined.

(** What is cached after reading it: the bytes and the row's size. *)
Definition demo_cached (sizes : list nat) (gone : list bool) : option (option bytes * option Z) :=
  match demo_source with
  | Err _ => None
  | Ok src =>
      match alone (fill_reads (mkFiller true (NewBackoff 0 0)) sizes (demo_fill src)) (demo_world gone) with
      | Some (_, w) => Some (BlobStore.blobs (fw_blobs w) !! abc_digest, cb_size <$> get2 (cachedBlobs (fw_meta w)) "hub/app" abc_digest)
      | None => None
      end
  end.

(** Read whole, it is cached; read in part, or while the request goes away, it is not. *)
Lemma demo_cached_cases :
  demo_cached [2; 7; 7] [] = Some (Some (String.list_ascii_of_string "abc"), Some 3%Z) ∧
  demo_cached [2] [] = Some (None, None) ∧ demo_cached [2; 7; 7] [true] = Some (None, None).
Proof. by vm_compute. Qed.
