(* ===== verification/FillQuiet.v ===== *)
(** * When the upstream is not asked

    Programs that send nothing, whatever client they are given: a throttled
    upstream is left alone, and what the cache holds is answered from it. *)
From S2P Require Import Prelude RepoName Digest Sha2 Verify VerifySpec GoStrings Meta Memory MemoryInv BlobStore BlobStoreSpec Artifact Limiter Http Uploads Manifests.
From S2P Require Import HostPattern Effects Upstream UpstreamSpec Backoff Fill FillSpec.

(** Environments whose metadata, standings and clock are always within bounds. *)
Definition within (metadata : Memory.Store → Prop) (standing : standings → Prop) (clock : Z → Prop) (B : Type) (e : op B) : B → Prop :=
  match e with
  | OpNow => clock
  | OpMeta f => λ r, ∃ ctx s, metadata s ∧ r = match f ctx s with Ok (_, b) => Ok b | Err e => Err e end
  | OpBackoff f => λ b, ∃ states, standing states ∧ b = (f states).1
  | _ => λ _, True
  end.

Definition silent (B : Type) (e : op B) : Prop := match e with OpHttp _ | OpCreds => False | _ => True end.

Definition anywhere {A} (_ : A) : Prop := True.

Section quiet.
Context (ParseMediaType : string → option string) (Unmarshal : string → option wireManifest).
Context (stream_timeout : BlobError → bool) (f : Filler) (t : Target) (clock : Z → Prop).

Definition quietly (metadata : Memory.Store → Prop) (standing : standings → Prop) {A} (p : up A) : Prop :=
  obeys (within metadata standing clock) silent (λ _, True) p.

(** The upstream asked to be left alone, and its deadline has not come. *)
Definition throttled (states : standings) : Prop := ∀ now, clock now → is_Some (Ready (upstreamEntity t) now states).

Section env.
Context (metadata : Memory.Store → Prop) (standing : standings → Prop).
Abbreviation quiet := (quietly metadata standing).

Lemma quiet_then {A B} (p : up A) (k : A → up B) : quiet p → (∀ a, quiet (k a)) → quiet (bind p k).
Proof. apply obeys_then. Qed.

Lemma quiet_thenE {X A B} (p : up (result X A)) (k : A → up (result X B)) : quiet p → (∀ a, quiet (k a)) → quiet (bindE p k).
Proof. intros Hp Hk. apply quiet_then; [done|]. by intros [a|e]. Qed.

Lemma quiet_now {B} (k : Z → up B) : (∀ now, clock now → quiet (k now)) → quiet (bind now_ k).
Proof. by split. Qed.

Lemma quiet_publish e : quiet (publish f e).
Proof. unfold publish. by destruct (fi_events f). Qed.

Lemma quiet_coalesce {A} (typed : any → option A) key p : quiet p → quiet (coalesce typed key p).
Proof. intros Hp. apply coalesce_obeys; [done..|]. by intros [| |[v|e]|]. Qed.

Lemma quiet_resolveFailed tag held err now : quiet (resolveFailed stream_timeout f t tag held err now).
Proof.
  assert (∀ g, quiet (bind (meta_put g) (λ _, Done tt))) as Hput by (intros g; by apply quiet_then).
  unfold resolveFailed. destruct (ErrIs err SNotFound).
  - apply quiet_then; [destruct held; [apply Hput|done]|]. intros _. apply quiet_then; [|done].
    unfold recordNegative. destruct (_ <=? 0)%Z; [done|apply Hput].
  - destruct (Classify stream_timeout err); [|done]. destruct held as [l|]; [|done]. destruct (strict _); [done|].
    apply quiet_then; [destruct (tl_stale l); [done|apply Hput]|]. intros _. apply quiet_then; [apply quiet_publish|done].
Qed.
End env.

(** ** A throttled upstream *)
Section throttled.
Context (metadata : Memory.Store → Prop).

Lemma quiet_ready {A} now (k : result UpstreamError unit → up A) :
  clock now → (∀ e, quietly metadata throttled (k (Err e))) → quietly metadata throttled (bind (upstreamReady t now) k).
Proof.
  intros Hnow Hk. apply (obeys_bind _ _ (λ r, ∃ e, r = Err e)); [|intros r [e ->]; apply Hk]. split; [done|].
  intros deadline (states & Hst & ->). destruct (Hst now Hnow) as [u Hu]. simpl. rewrite Hu. simpl. eauto.
Qed.

Lemma quiet_ask cl tag held recorded now :
  clock now → quietly metadata throttled (ask_tag ParseMediaType Unmarshal stream_timeout f cl t tag held recorded now).
Proof. intros Hnow. apply quiet_ready; [done|]. intros e. apply quiet_resolveFailed. Qed.

Lemma quiet_fetch_blob cl digest : quietly metadata throttled (fetch_blob stream_timeout f cl t digest).
Proof. apply quiet_now. intros now Hnow. by apply quiet_ready. Qed.
End throttled.

(** ** What is held *)
Definition holds {A} (row : Memory.Store → option A) (P : A → Prop) (s : Memory.Store) : Prop := ∃ a, row s = Some a ∧ P a.

Definition has_manifest (digest : string) : Memory.Store → Prop :=
  holds (λ s, get2 (cachedManifests s) (ta_repository t) digest) (λ _, True).
Definition has_lease (tag : string) : Memory.Store → Prop :=
  holds (λ s, get2 (tagLeases s) (ta_repository t) tag) (λ l, ∀ now, clock now → fresh l (ta_tagTTL t) now = true).
Definition has_absence (tag : string) : Memory.Store → Prop :=
  holds (λ s, get2 (negativeCache s) (ta_repository t) tag) (λ n, ∀ now, clock now → negativeFresh n (ta_negativeTTL t) now = true).

Lemma quiet_Manifest metadata standing digest :
  (∀ cl, quietly metadata standing (fill_manifest ParseMediaType Unmarshal stream_timeout f cl t digest)) →
  quietly metadata standing (Filler_Manifest ParseMediaType Unmarshal stream_timeout f t digest).
Proof.
  intros Hk. unfold Filler_Manifest. destruct (validate t) as [cl|]; [|done]. destruct (Digest_Validate digest); [|done].
  by apply quiet_coalesce.
Qed.

Lemma quiet_ResolveTag metadata standing tag :
  (∀ cl, quietly metadata standing (resolveTag ParseMediaType Unmarshal stream_timeout f cl t tag)) →
  quietly metadata standing (Filler_ResolveTag ParseMediaType Unmarshal stream_timeout f t tag).
Proof.
  intros Hk. unfold Filler_ResolveTag. destruct (validate t) as [cl|]; [|done]. destruct (String.eqb tag ""); [done|].
  by apply quiet_coalesce.
Qed.

(** The rest of a resolution, once neither row answers. *)
Lemma quiet_resolveTag metadata standing cl tag :
  (∀ held absent recorded now, clock now →
     quietly metadata standing (if match absent with Some n => negativeFresh n (ta_negativeTTL t) now | None => false end
       then Done (Err (negativeAnswer t tag)) else ask_tag ParseMediaType Unmarshal stream_timeout f cl t tag held recorded now)) →
  quietly metadata standing (resolveTag ParseMediaType Unmarshal stream_timeout f cl t tag).
Proof.
  intros Hk. apply quiet_thenE; [by apply quiet_then|]. intros held. apply quiet_now. intros now Hnow.
  destruct (match held with Some l => _ | None => _ end); [done|]. apply quiet_thenE; [by apply quiet_then|]. intros absent. by apply Hk.
Qed.

(** A read of a row that is there finds it or fails otherwise. *)
Lemma found_row {A} (row : Memory.Store → option A) (P : A → Prop) kind name standing :
  obeys (within (holds row P) standing clock) silent (λ r, match r with Ok a => P a | Err (NotFound _ _) => False | Err _ => True end)
    (meta_get (λ ctx s, check! enter ctx s in match row s with None => Err (NotFound kind name) | Some a => Ok a end)).
Proof.
  split; [done|]. intros r (ctx & s & (a & Ha & HP) & ->). destruct (enter ctx s) as [[]|e] eqn:E; simpl; [by rewrite Ha|].
  unfold enter in E. destruct ctx, (closed s); by simplify_eq.
Qed.

(** C18: whatever client is configured, the upstream is not asked and no
    credential is read while it is backing off, for a manifest, a blob or a tag;
    nor for a manifest the cache has, for a tag whose lease is inside its TTL, or
    for one whose absence was observed inside the negative TTL. *)
Theorem upstream_left_alone digest tag :
  (quietly anywhere throttled (Filler_Manifest ParseMediaType Unmarshal stream_timeout f t digest) ∧
   quietly anywhere throttled (Filler_Blob stream_timeout f t digest) ∧
   quietly anywhere throttled (Filler_ResolveTag ParseMediaType Unmarshal stream_timeout f t tag)) ∧
  quietly (has_manifest digest) anywhere (Filler_Manifest ParseMediaType Unmarshal stream_timeout f t digest) ∧
  quietly (has_lease tag) anywhere (Filler_ResolveTag ParseMediaType Unmarshal stream_timeout f t tag) ∧
  quietly (has_absence tag) anywhere (Filler_ResolveTag ParseMediaType Unmarshal stream_timeout f t tag).
Proof.
  split_and!.
  - apply quiet_Manifest. intros cl. apply quiet_then; [done|]. intros [row|e]; [done|]. destruct e; try done. apply quiet_now.
    intros now Hnow. by apply quiet_ready.
  - unfold Filler_Blob. destruct (validate t) as [cl|]; [|done]. destruct (Digest_Validate digest); [|done].
    apply quiet_then; [done|]. intros [row|e]; [|destruct e; try done; apply quiet_fetch_blob].
    apply quiet_then; [done|]. intros [r|e]; [done|]. destruct e; try done; apply quiet_fetch_blob.
  - apply quiet_ResolveTag. intros cl. apply quiet_resolveTag. intros held absent recorded now Hnow.
    destruct (match absent with Some n => _ | None => _ end); [done|]. by apply quiet_ask.
  - apply quiet_Manifest. intros cl. eapply obeys_bind; [apply found_row|]. intros [row|e] Hr; [done|]. by destruct e.
  - apply quiet_ResolveTag. intros cl.
    apply (obeys_bindE _ _ (λ held, ∃ l, held = Some l ∧ ∀ now, clock now → fresh l (ta_tagTTL t) now = true)).
    + eapply obeys_bind; [apply found_row|]. intros [l|e] Hr; simpl; [eauto|]. by destruct e.
    + intros held (l & -> & Hl). apply quiet_now. intros now Hnow. by rewrite (Hl now Hnow).
  - apply quiet_ResolveTag. intros cl. apply quiet_thenE; [by apply quiet_then|]. intros held. apply quiet_now. intros now Hnow.
    destruct (match held with Some l => _ | None => _ end); [done|].
    apply (obeys_bindE _ _ (λ absent, ∃ n, absent = Some n ∧ ∀ now, clock now → negativeFresh n (ta_negativeTTL t) now = true)).
    + eapply obeys_bind; [apply found_row|]. intros [n|e] Hr; simpl; [eauto|]. by destruct e.
    + intros absent (n & -> & Hn). by rewrite (Hn now Hnow).
Qed.
End quiet.
