(* ===== verification/RepoConfig.v ===== *)
(** * Repository configuration (src/internal/repo: config.go, presets.go)

    What a proxy, hosted or group entity may be configured with, and the shipped
    presets. Decoding of the JSON document, of URLs and of durations are
    parameters. *)
From S2P Require Import Prelude RepoName Meta Authz Group GoStrings Digest Sha2 Verify VerifySpec Memory BlobStore Artifact Limiter Http Manifests.
From S2P Require Import HostPattern Effects Upstream.

(** ** Validation (config.go) *)
Inductive FieldReason : Type :=
| Required | BadURL | BadScheme (scheme : string) | NoHostName | CarriesCredentials | NotTheRoot | CarriesQuery
| BadNamespace (e : InvalidError)
| BadPattern (e : InvalidScopeError) | SystemPattern
| BadTrustedHost (e : PatternReason)
| BadDuration | NegativeDuration
| BadOfflineMode (mode : string)
| BadDocument | MoreDocuments
| UnknownType (typ : string).

Record FieldError : Type := fieldErr { fe_field : string; fe_reason : FieldReason }.

(** Reports each value of a list until one is refused. *)
Fixpoint each {A} (check : A → result FieldError unit) (l : list A) : result FieldError unit :=
  match l with [] => Ok tt | a :: l => check! check a in each check l end.

Definition check_pattern (field pattern : string) : result FieldError unit :=
  let! scope := result_map_err (λ e, fieldErr field (BadPattern e)) (ParseScope pattern) in
  if String.eqb scope SystemScope then Err (fieldErr field SystemPattern) else Ok tt.

Definition check_trusted (host : string) : result FieldError unit :=
  result_map_err (λ e, fieldErr "trusted_hosts" (BadTrustedHost e)) (PatternValidate host).

Section config.
Context (url_Parse : string → option URL) (ParseDuration : string → option Z).

(** [json.Decoder] with unknown fields refused, on a non-empty document into the
    zero configuration of each type: the decoded value and whether another
    document follows, or an error. *)
Context (decode_proxy : string → option (ProxyConfig * bool)) (decode_empty : string → option bool).

Definition check_upstream (upstream : string) : result FieldError unit :=
  let bad reason := Err (fieldErr "upstream" reason) in
  if String.eqb upstream "" then bad Required
  else match url_Parse upstream with
  | None => bad BadURL
  | Some parsed =>
      if negb (String.eqb (u_scheme parsed) "http") && negb (String.eqb (u_scheme parsed) "https") then bad (BadScheme (u_scheme parsed))
      else if String.eqb (u_host parsed) "" then bad NoHostName
      else if u_user parsed then bad CarriesCredentials
      else if negb (String.eqb (u_path parsed) "") && negb (String.eqb (u_path parsed) "/") then bad NotTheRoot
      else if negb (String.eqb (u_query parsed) "") || negb (String.eqb (u_fragment parsed) "") then bad CarriesQuery
      else Ok tt
  end.

Definition check_ttl (field value : string) : result FieldError unit :=
  if String.eqb value "" then Ok tt
  else match ParseDuration value with
  | None => Err (fieldErr field BadDuration)
  | Some d => if (d <? 0)%Z then Err (fieldErr field NegativeDuration) else Ok tt
  end.

Definition ProxyConfig_Validate (c : ProxyConfig) : result FieldError unit :=
  check! check_upstream (pc_upstream c) in
  check! (if String.eqb (pc_defaultNamespace c) "" then Ok tt
          else result_map_err (λ e, fieldErr "default_namespace" (BadNamespace e)) (Validate (pc_defaultNamespace c))) in
  check! each (check_pattern "allow") (pc_allow c) in
  check! each (check_pattern "block") (pc_block c) in
  check! each check_trusted (pc_trustedHosts c) in
  check! check_ttl "tag_ttl" (pc_tagTTL c) in
  check! check_ttl "negative_ttl" (pc_negativeTTL c) in
  if negb (String.eqb (pc_offlineMode c) "") && negb (String.eqb (pc_offlineMode c) "serve-stale") && negb (String.eqb (pc_offlineMode c) "strict")
  then Err (fieldErr "offline_mode" (BadOfflineMode (pc_offlineMode c)))
  else Ok tt.

(** One concrete type per entity type. *)
Inductive Config : Type :=
| HostedConfig
| AProxyConfig (c : ProxyConfig)
| GroupConfig.

Definition Config_Validate (c : Config) : result FieldError unit :=
  match c with AProxyConfig c => ProxyConfig_Validate c | HostedConfig | GroupConfig => Ok tt end.

Definition zero_proxy : ProxyConfig := mkProxyConfig "" "" [] [] false [] "" "" "".

(** Decoding into the zero value of a type; an empty document leaves it. *)
Definition decode (raw : string) (zero : Config) (doc : option (Config * bool)) : result FieldError Config :=
  let! cfg := if String.eqb raw "" then Ok zero
              else match doc with
              | None => Err (fieldErr "config" BadDocument)
              | Some (_, true) => Err (fieldErr "config" MoreDocuments)
              | Some (cfg, false) => Ok cfg
              end in
  check! Config_Validate cfg in Ok cfg.

Definition ParseConfig (typ raw : string) : result FieldError Config :=
  if String.eqb typ Hosted then decode raw HostedConfig ((λ more, (HostedConfig, more)) <$> decode_empty raw)
  else if String.eqb typ Proxy then decode raw (AProxyConfig zero_proxy) ((λ '(c, more), (AProxyConfig c, more)) <$> decode_proxy raw)
  else if String.eqb typ Meta.Group then decode raw GroupConfig ((λ more, (GroupConfig, more)) <$> decode_empty raw)
  else Err (fieldErr "type" (UnknownType typ)).

Definition ParseProxyConfig (raw : string) : result FieldError ProxyConfig :=
  let! parsed := ParseConfig Proxy raw in
  match parsed with
  | AProxyConfig config => Ok config
  | _ => Err (fieldErr "config" BadDocument)
  end.
End config.

(** ** Presets (presets.go) *)
Record Preset : Type := mkPreset { pr_name : string; pr_title : string; pr_description : string; pr_config : ProxyConfig }.

Definition preset_config (upstream namespace : string) (trusted : list string) : ProxyConfig :=
  mkProxyConfig upstream namespace [] [] false trusted "" "" "".

Definition presets : list Preset := [
  mkPreset "dockerhub" "Docker Hub"
    "The default registry for `docker pull`, including the official `library/` images."
    (preset_config "https://registry-1.docker.io" "library" ["auth.docker.io"; "*.docker.com"]);
  mkPreset "gcr" "Google Container Registry"
    "Google's older public registry, still serving distroless and GKE images."
    (preset_config "https://gcr.io" "" ["storage.googleapis.com"]);
  mkPreset "ghcr" "GitHub Container Registry"
    "Images published from GitHub repositories, under `ghcr.io/<owner>/<name>`."
    (preset_config "https://ghcr.io" "" ["pkg-containers.githubusercontent.com"]);
  mkPreset "k8s" "Kubernetes Registry"
    "The community registry for Kubernetes images (kube-apiserver, etcd, pause)."
    (preset_config "https://registry.k8s.io" "" ["*.pkg.dev"; "*.googleapis.com"; "*.amazonaws.com"]);
  mkPreset "quay" "Quay.io"
    "Red Hat's public registry: RHEL, OpenShift, Ceph, and community images."
    (preset_config "https://quay.io" "" [])].

Definition Presets : list Preset := presets.

(** [None] is the error that lists the names. *)
Definition PresetByName (name : string) : option Preset := snd <$> list_find (λ p, pr_name p = name) presets.

(** ** What validation leaves *)
Lemma each_ok {A} (check : A → result FieldError unit) l : each check l = Ok tt ↔ Forall (λ a, check a = Ok tt) l.
Proof.
  induction l as [|a l IH]; simpl; [by split|]. destruct (check a) as [[]|] eqn:E; simpl; [|split; [done|intros H; inversion H; congruence]].
  rewrite IH. split; [by constructor|by inversion 1].
Qed.

Lemma check_pattern_ok field pattern : check_pattern field pattern = Ok tt → ParseScope pattern = Ok pattern ∧ pattern ≠ SystemScope.
Proof.
  unfold check_pattern. destruct (ParseScope pattern) as [scope|] eqn:E; simpl; [|done]. apply ParseScope_iff in E as HE.
  destruct HE as [-> _]. destruct (String.eqb_spec pattern SystemScope); [done|]. by split.
Qed.

Lemma foldM_snoc_ok (field : string) patterns acc :
  Forall (λ p, ParseScope p = Ok p ∧ p ≠ SystemScope) patterns →
  foldM (λ into pattern,
    let! scope := result_map_err (λ e, configErr field (ConfigScope e)) (ParseScope pattern) in
    if String.eqb scope SystemScope then Err (configErr field ConfigSystemScope) else Ok (into ++ [scope])) acc patterns = Ok (acc ++ patterns).
Proof.
  intros H. revert acc. induction H as [|p l [Hp Hs] _ IH]; intros acc; simpl; [by rewrite app_nil_r|].
  rewrite Hp. simpl. destruct (String.eqb_spec p SystemScope); [done|]. simpl. by rewrite IH, <-(assoc_L (++)).
Qed.

Section usable.
Context (url_Parse : string → option URL) (ParseDuration : string → option Z).
Context (decode_proxy : string → option (ProxyConfig * bool)) (decode_empty : string → option bool).

(** A stored TTL is empty or a duration that is not negative. *)
Definition ttl_ok (value : string) : Prop := value = "" ∨ ∃ d, ParseDuration value = Some d ∧ (0 ≤ d)%Z.

Lemma check_ttl_ok field value : check_ttl ParseDuration field value = Ok tt → ttl_ok value.
Proof.
  unfold check_ttl, ttl_ok. destruct (String.eqb_spec value ""); [by left|]. destruct (ParseDuration value) as [d|]; [|done].
  destruct (Z.ltb_spec d 0); [done|]. eauto.
Qed.

Lemma Validate_parts c :
  ProxyConfig_Validate url_Parse ParseDuration c = Ok tt →
  check_upstream url_Parse (pc_upstream c) = Ok tt ∧ (pc_defaultNamespace c = "" ∨ Valid (pc_defaultNamespace c) = true) ∧
  Forall (λ p, ParseScope p = Ok p ∧ p ≠ SystemScope) (pc_allow c) ∧ Forall (λ p, ParseScope p = Ok p ∧ p ≠ SystemScope) (pc_block c) ∧
  Forall (λ h, PatternValidate h = Ok tt) (pc_trustedHosts c) ∧ ttl_ok (pc_tagTTL c) ∧ ttl_ok (pc_negativeTTL c) ∧
  pc_offlineMode c ∈ [""; "serve-stale"; "strict"].
Proof.
  unfold ProxyConfig_Validate. intros H. inv_result. repeat match goal with x : unit |- _ => destruct x end.
  split; [done|]. split.
  { destruct (String.eqb_spec (pc_defaultNamespace c) ""); [by left|]. right. unfold Valid. by destruct (Validate (pc_defaultNamespace c)). }
  split_and!; try (eapply Forall_impl; [by apply each_ok|]; intros x; apply check_pattern_ok); try (by eapply check_ttl_ok).
  - eapply Forall_impl; [by apply each_ok|]. intros h. unfold check_trusted. by destruct (PatternValidate h) as [[]|].
  - destruct (String.eqb_spec (pc_offlineMode c) ""), (String.eqb_spec (pc_offlineMode c) "serve-stale"), (String.eqb_spec (pc_offlineMode c) "strict");
      simpl in H; try done; set_solver.
Qed.

(** The options of the client a configuration is served with. *)
Definition client_options (creds : bool) (c : ProxyConfig) : ClientOptions :=
  mkClientOptions (pc_upstream c) creds (mkRedirectPolicy 0 (pc_trustedHosts c) false) 0 0 "".

(** C36: nothing unusable is stored. A configuration that is accepted for a type is
    one of that type; a proxy's builds an upstream client on the host it names,
    over http or https and without credentials, its routing rules compile to
    exactly its patterns, its redirect patterns are all valid, its TTLs are
    durations that are not negative, and its mode is one the filler knows. A proxy
    without an upstream is refused. *)
Theorem accepted_configuration_is_usable typ raw config :
  ParseConfig url_Parse ParseDuration decode_proxy decode_empty typ raw = Ok config →
  match config with
  | AProxyConfig c =>
      typ = Proxy ∧ raw ≠ "" ∧
      (∀ creds, ∃ client, NewClient url_Parse (client_options creds c) = Ok client ∧ u_host (cl_base client) ≠ "" ∧ u_user (cl_base client) = false ∧
         (u_scheme (cl_base client) = "http" ∨ u_scheme (cl_base client) = "https") ∧ rp_trusted (cl_redirects client) = pc_trustedHosts c ∧
         rp_downgrade (cl_redirects client) = false) ∧
      CompileRoutingRules c = Ok (mkRoutingRules (pc_allow c) (pc_block c) (pc_defaultDeny c)) ∧
      Forall (λ h, PatternValidate h = Ok tt) (pc_trustedHosts c) ∧ ttl_ok (pc_tagTTL c) ∧ ttl_ok (pc_negativeTTL c) ∧
      pc_offlineMode c ∈ [""; "serve-stale"; "strict"]
  | HostedConfig => typ = Hosted
  | GroupConfig => typ = Meta.Group
  end.
Proof.
  unfold ParseConfig. destruct (String.eqb_spec typ Hosted) as [->|_].
  { unfold decode. destruct (String.eqb raw ""); [by intros [= <-]|]. by destruct (decode_empty raw) as [[]|]; simpl; intros [= <-]. }
  destruct (String.eqb_spec typ Proxy) as [->|_].
  2: { destruct (String.eqb_spec typ Meta.Group) as [->|_]; [|done]. unfold decode.
       destruct (String.eqb raw ""); [by intros [= <-]|]. by destruct (decode_empty raw) as [[]|]; simpl; intros [= <-]. }
  unfold decode. destruct (String.eqb_spec raw "") as [->|Hraw]; [done|]. destruct (decode_proxy raw) as [[c []]|]; simpl; try done.
  destruct (ProxyConfig_Validate url_Parse ParseDuration c) as [[]|] eqn:Hv; simpl; [|done]. intros [= <-].
  destruct (Validate_parts c Hv) as (Hu & _ & Ha & Hb & Ht & Htag & Hneg & Hoff). split_and!; try done.
  - intros creds. unfold NewClient, client_options. simpl. unfold check_upstream in Hu.
    destruct (String.eqb (pc_upstream c) ""); [done|]. destruct (url_Parse (pc_upstream c)) as [parsed|]; [|done].
    destruct (String.eqb_spec (u_scheme parsed) "http") as [E1|E1], (String.eqb_spec (u_scheme parsed) "https") as [E2|E2]; try congruence; simpl in *; try done;
      (destruct (String.eqb_spec (u_host parsed) ""); [done|]); (destruct (u_user parsed) eqn:E3; [done|]);
      destruct (negb _ && negb _); try done; destruct (negb _ || negb _); try done; eexists; (split; [done|]); simpl; auto.
  - unfold CompileRoutingRules, compile_patterns. rewrite !foldM_snoc_ok by done. done.
Qed.
End usable.

(** ** The presets *)
Definition host_byte (c : ascii) : bool :=
  let n := nat_of_ascii c in ((97 <=? n) && (n <=? 122)) || ((48 <=? n) && (n <=? 57)) || (n =? 45) || (n =? 46).

(** [url.Parse] of a plain host over https. *)
Definition parses_hosts (url_Parse : string → option URL) : Prop :=
  ∀ host, host ≠ "" → all_bytes host_byte host = true → url_Parse ("https://" +:+ host) = Some (mkURL "https" host false "" "" "").

(** Every shipped preset can be created as it is: its configuration is
    accepted, its name is a legal entity name, and asking for that name gives it
    and no other; the names are distinct and in order, and a name that is not
    shipped gives nothing. *)
Theorem presets_are_creatable url_Parse ParseDuration :
  parses_hosts url_Parse →
  Forall (λ p, ProxyConfig_Validate url_Parse ParseDuration (pr_config p) = Ok tt ∧ ValidateEntityName (pr_name p) = Ok tt ∧
               PresetByName (pr_name p) = Some p) Presets ∧
  pr_name <$> Presets = ["dockerhub"; "gcr"; "ghcr"; "k8s"; "quay"] ∧
  ∀ name p, PresetByName name = Some p → p ∈ Presets ∧ pr_name p = name.
Proof.
  intros Hurl. split_and!; [|done|].
  - repeat constructor; try by vm_compute.
    all: unfold ProxyConfig_Validate, check_upstream; cbn [pr_config preset_config pc_upstream].
    + assert (url_Parse "https://registry-1.docker.io" = Some (mkURL "https" "registry-1.docker.io" false "" "" "")) as -> by (by apply (Hurl "registry-1.docker.io")). by vm_compute.
    + assert (url_Parse "https://gcr.io" = Some (mkURL "https" "gcr.io" false "" "" "")) as -> by (by apply (Hurl "gcr.io")). by vm_compute.
    + assert (url_Parse "https://ghcr.io" = Some (mkURL "https" "ghcr.io" false "" "" "")) as -> by (by apply (Hurl "ghcr.io")). by vm_compute.
    + assert (url_Parse "https://registry.k8s.io" = Some (mkURL "https" "registry.k8s.io" false "" "" "")) as -> by (by apply (Hurl "registry.k8s.io")). by vm_compute.
    + assert (url_Parse "https://quay.io" = Some (mkURL "https" "quay.io" false "" "" "")) as -> by (by apply (Hurl "quay.io")). by vm_compute.
  - intros name p. unfold PresetByName. destruct (list_find _ presets) as [[i q]|] eqn:E; [|done]. intros [= ->].
    apply list_find_Some in E as (Hl & Hn & _). split; [by eapply list_elem_of_lookup_2|done].
Qed.

(** [url.Parse] of https URLs of a plain host. *)
Definition demo_Parse (raw : string) : option URL :=
  match CutPrefix raw "https://" with
  | Some host => if all_bytes host_byte host then Some (mkURL "https" host false "" "" "") else None
  | None => None
  end.

Lemma demo_Parse_hosts : parses_hosts demo_Parse.
Proof. intros host _ H. unfold demo_Parse. by rewrite CutPrefix_app, H. Qed.

Lemma presets_are_creatable_witness :
  ∃ p, PresetByName "dockerhub" = Some p ∧ ProxyConfig_Validate demo_Parse (λ _, None) (pr_config p) = Ok tt.
Proof.
  destruct (presets_are_creatable demo_Parse (λ _, None) demo_Parse_hosts) as (H & _ & _). inversion H as [|p l (H1 & _ & H2) _]; subst.
  eexists. split; [exact H2|exact H1].
Defined.

Lemma accepted_configuration_is_usable_witness :
  ∃ client, NewClient demo_Parse (client_options true (preset_config "https://ghcr.io" "" ["pkg-containers.githubusercontent.com"])) = Ok client ∧
    u_host (cl_base client) ≠ "".
Proof.
  destruct (accepted_configuration_is_usable demo_Parse (λ _, None)
    (λ _, Some (preset_config "https://ghcr.io" "" ["pkg-containers.githubusercontent.com"], false)) (λ _, None) Proxy "{}"
    (AProxyConfig (preset_config "https://ghcr.io" "" ["pkg-containers.githubusercontent.com"]))) as (_ & _ & H & _); [by vm_compute|].
  destruct (H true) as (client & Hc & Hh & _). by exists client.
Defined.
