(* ===== verification/ProxyServe.v ===== *)
(** * Serving a proxy repository (src/internal/proxyserve: proxyserve.go, clients.go)

    From a content name to a fill: the entity's configuration, the namespace
    rewrite, the routing rules, the client built from that configuration, and the
    three answers a registry client can act on. *)
From S2P Require Import Prelude RepoName Digest Sha2 Verify VerifySpec GoStrings Meta Authz Group Memory MemoryInv BlobStore BlobStoreSpec Artifact Limiter Http Uploads Manifests.
From S2P Require Import HostPattern Effects Upstream UpstreamSpec Backoff Fill FillSpec RepoConfig.

(** The deployment's defaults, whether hits are recorded, and whether there is a
    keyring to open stored credentials with. *)
Record ProxyServer : Type := mkProxyServer {
  ps_tagTTL : Z; ps_negativeTTL : Z; ps_offline : string; ps_touches : bool; ps_keys : bool;
}.

(** A blob that is streamed. *)
Record ServedStream : Type := mkServedStream { ss_content : Stream; ss_size : Z; ss_digest : string }.

Definition rewriteNamespace (namespace remainder : string) : string :=
  if String.eqb namespace "" || ContainsByte remainder "/" then remainder else namespace +:+ "/" +:+ remainder.

Definition TrimPrefix (s prefix : string) : string := default s (CutPrefix s prefix).
Definition remoteName (upstream : string) : string := TrimPrefix (TrimPrefix upstream "https://") "http://".

Definition offlineOr (override fallback : string) : string :=
  if String.eqb override ServeStale || String.eqb override Strict then override else fallback.

(** The three answers; anything else is an internal error. *)
Definition classify (err : UpstreamError) : ServeError :=
  if ErrIs err SNotFound then ErrContentUnknown
  else if ErrIs err SRateLimited then ErrUpstreamThrottled
  else if ErrIs err SUpstreamUnavailable then ErrUpstreamUnavailable
  else if ErrIs err SDigestMismatch then ErrUpstreamUnavailable
  else if ErrIs err SUnauthorized then ErrUpstreamUnavailable
  else OtherServeError "unclassified".

Section server.
Context (url_Parse : string → option URL) (ParseDuration : string → option Z).
Context (decode_proxy : string → option (ProxyConfig * bool)) (decode_empty : string → option bool).
Context (ParseMediaType : string → option string) (Unmarshal : string → option wireManifest).
Context (stream_timeout : BlobError → bool).
(** How a client is built from options. *)
Context (build : ClientOptions → result UpstreamError Client).
Context (srv : ProxyServer) (f : Filler).

(** An override that does not parse is zero. *)
Definition durationOr (override : string) (fallback : Z) : Z :=
  if String.eqb override "" then fallback else default 0%Z (ParseDuration override).

Definition parse_stored (raw : string) : result FieldError ProxyConfig := ParseProxyConfig url_Parse ParseDuration decode_proxy decode_empty raw.

(** ** Clients (clients.go) *)

(** Under the cache's lock: the entity's client, rebuilt when the version moved. *)
Definition client_slot (entity : string) (record : Meta.Repository) (clients : gmap string cachedClient)
    : result ServeError ClientOptions * gmap string cachedClient :=
  let rebuilt :=
    match parse_stored (rp_config record) with
    | Err _ => (Err (OtherServeError "parse the configuration"), clients)
    | Ok config =>
        let options := client_options (ps_keys srv) config in
        match build options with
        | Err _ => (Err (OtherServeError "build the upstream client"), clients)
        | Ok _ => (Ok options, <[entity := mkCachedClient options (rp_configVersion record)]> clients)
        end
    end in
  match clients !! entity with
  | Some cached => if (cc_version cached =? rp_configVersion record)%Z then (Ok (cc_options cached), clients) else rebuilt
  | None => rebuilt
  end.

Definition ClientFor (entity : string) : up (result ServeError Client) :=
  fx! found := meta_get (λ ctx, GetRepository ctx entity) in
  match found with
  | Err _ => Done (Err (OtherServeError "read the configuration"))
  | Ok record =>
      if negb (String.eqb (rp_type record) Proxy) then Done (Err (OtherServeError "not a proxy"))
      else
        fx! slot := call (OpClients (client_slot entity record)) in
        match slot with
        | Err e => Done (Err e)
        | Ok options =>
            match build options with
            | Err _ => Done (Err (OtherServeError "build the upstream client"))
            | Ok cl => Done (Ok cl)
            end
        end
  end.

(** ** Targets *)
Definition route (config : ProxyConfig) (remainder : string) : result ServeError string :=
  let upstreamPath := rewriteNamespace (pc_defaultNamespace config) remainder in
  match CompileRoutingRules config with
  | Err _ => Err (OtherServeError "compile the routing rules")
  | Ok rules =>
      match RoutingRules_Evaluate rules upstreamPath with
      | Err _ => Err ErrContentUnknown
      | Ok decision => if rd_allowed decision then Ok upstreamPath else Err ErrContentUnknown
      end
  end.

Definition target (name : string) : up (result ServeError Target) :=
  match Split name with
  | Err _ => Done (Err ErrContentUnknown)
  | Ok (entity, remainder) =>
      fx! found := meta_get (λ ctx, GetRepository ctx entity) in
      match found with
      | Err (NotFound _ _) => Done (Err ErrContentUnknown)
      | Err _ => Done (Err (OtherServeError "read the repository configuration"))
      | Ok record =>
          if negb (String.eqb (rp_type record) Proxy) then Done (Err ErrContentUnknown)
          else match parse_stored (rp_config record) with
          | Err _ => Done (Err (OtherServeError "parse the configuration"))
          | Ok config =>
              match route config remainder with
              | Err e => Done (Err e)
              | Ok upstreamPath =>
                  fxE! client := ClientFor entity in
                  Done (Ok (mkTarget name upstreamPath (remoteName (pc_upstream config)) (Some client)
                    (durationOr (pc_tagTTL config) (ps_tagTTL srv)) (durationOr (pc_negativeTTL config) (ps_negativeTTL srv))
                    (offlineOr (pc_offlineMode config) (ps_offline srv))))
              end
          end
      end
  end.

(** ** Reads *)
Definition touch (name digest kind : string) : up unit := if ps_touches srv then call (OpTouch name digest kind) else Done tt.

Definition classified {A} (p : up (result UpstreamError A)) : up (result ServeError A) :=
  fx! r := p in Done (match r with Ok a => Ok a | Err e => Err (classify e) end).

Definition Server_Manifest (name reference : string) : up (result ServeError ServedManifest) :=
  fxE! t := target name in
  fxE! digest := match ParseDigest reference with
                 | Ok digest => Done (Ok digest)
                 | Err _ =>
                     fxE! resolution := classified (Filler_ResolveTag ParseMediaType Unmarshal stream_timeout f t reference) in
                     Done (Ok (tr_digest resolution))
                 end in
  fxE! m := classified (Filler_Manifest ParseMediaType Unmarshal stream_timeout f t digest) in
  fx! _t := if mr_hit m then touch name digest CachedManifestKind else Done tt in
  Done (Ok (mkServedManifest (mr_digest m) (mr_mediaType m) (String.string_of_list_ascii (mr_payload m)))).

Definition Server_Blob (name digest : string) : up (result ServeError ServedStream) :=
  fxE! t := target name in
  fxE! b := classified (Filler_Blob stream_timeout f t digest) in
  fx! _t := if br_hit b then touch name digest CachedBlobKind else Done tt in
  Done (Ok (mkServedStream (br_content b) (br_size b) digest)).

(** ** What is served *)
Lemma classified_obeys answers may {A} (p : up (result UpstreamError A)) (Q : result UpstreamError A → Prop) (Q' : result ServeError A → Prop) :
  (∀ r, Q r → Q' (match r with Ok a => Ok a | Err e => Err (classify e) end)) → obeys answers may Q p → obeys answers may Q' (classified p).
Proof. intros HQ Hp. eapply obeys_bind; [exact Hp|]. intros r Hr. by apply HQ. Qed.

(** Any property of the clients a target can carry. *)
Definition target_client (P : Client → Prop) (r : result ServeError Target) : Prop :=
  match r with Ok t => ∀ cl, ta_client t = Some cl → P cl | Err _ => True end.

Lemma ClientFor_safely entity : safely (λ r, match r with Ok cl => ∃ options, build options = Ok cl | Err _ => True end) (ClientFor entity).
Proof.
  apply obeys_then; [by apply safely_get|]. intros [record|e]; [|done]. destruct (negb _); [done|]. apply obeys_then; [done|].
  intros [options|e]; [|done]. destruct (build options) eqn:E; [|done]. by exists options.
Qed.

Lemma target_safely name :
  (∀ options cl, build options = Ok cl → ClientLaws cl) → safely (target_client ClientLaws) (target name).
Proof.
  intros Hb. unfold target. destruct (Split name) as [[entity remainder]|]; [|done].
  apply obeys_then; [by apply safely_get|]. intros [record|e]; [|by destruct e]. destruct (negb _); [done|].
  destruct (parse_stored _) as [config|]; [|done]. destruct (route config remainder); [|done].
  eapply obeys_bindE; [eapply obeys_mono; [|apply ClientFor_safely]|].
  - intros [cl|e] H; [exact H|done].
  - intros client [options Ho]. intros cl [= <-]. by eapply Hb.
Qed.

(** A manifest served through a proxy hashes to the digest it is served under,
    which is the one asked for when the reference is a digest; a blob is streamed
    through a reader that verifies the digest asked for; whatever the upstream
    answers, the stores do and other requests change, and with the cache's rows
    kept verified and hosted content untouched at every write. *)
Theorem proxy_serves_verified_content name reference digest :
  (∀ options cl, build options = Ok cl → ClientLaws cl) →
  safely (λ r, match r with
    | Ok m => hashes_to (sm_digest m) (String.list_ascii_of_string (sm_payload m)) ∧ ∀ d, ParseDigest reference = Ok d → sm_digest m = d
    | Err _ => True end) (Server_Manifest name reference) ∧
  safely (λ r, match r with Ok b => ss_digest b = digest ∧ verifying digest (ss_content b) | Err _ => True end) (Server_Blob name digest).
Proof.
  intros Hb. assert (∀ n d k, safely (λ _, True) (touch n d k)) as Htouch by (intros; unfold touch; by destruct (ps_touches srv)).
  split; (eapply obeys_bindE; [eapply obeys_mono; [|by apply target_safely]; intros [t|e] Ht; [exact Ht|done]|]); intros t Ht.
  - eapply (obeys_bindE _ _ (λ d, ∀ d', ParseDigest reference = Ok d' → d = d')).
    + destruct (ParseDigest reference) as [d|]; [by intros d' [= <-]|]. apply obeys_thenE; [|done].
      eapply classified_obeys; [|apply ResolveTag_safely, Ht]. by intros [].
    + intros d Hd. eapply (obeys_bindE _ _ (λ m, mr_digest m = d ∧ hashes_to d (mr_payload m))).
      * eapply classified_obeys; [|apply Manifest_safely, Ht]. by intros [].
      * intros m [Hm Hh]. apply obeys_then; [by destruct (mr_hit m)|]. intros _. simpl.
        rewrite String.list_ascii_of_string_of_list_ascii, Hm. by split.
  - eapply (obeys_bindE _ _ (λ b, verifying digest (br_content b))).
    + eapply classified_obeys; [|apply Blob_safely, Ht]. by intros [].
    + intros b Hv. apply obeys_then; [by destruct (br_hit b)|]. intros _. by split.
Qed.

(** ** What may be asked of an upstream *)

(** Operations that do not leave the process. *)
Definition inside (B : Type) (e : op B) : Prop := match e with OpHttp _ | OpCreds => False | _ => True end.

Section walk.
Context (answers : ∀ B, op B → B → Prop) (may : ∀ B, op B → Prop).
Hypothesis may_inside : ∀ B e, inside B e → may B e.
Abbreviation permitted := (obeys answers may (λ _, True)).

Lemma perm_call {B} (e : op B) : inside B e → permitted (call e).
Proof. intros He. split; [by apply may_inside|done]. Qed.
Lemma perm_then {A B} (p : up A) (k : A → up B) : permitted p → (∀ a, permitted (k a)) → permitted (bind p k).
Proof. apply obeys_then. Qed.
Lemma perm_thenE {X A B} (p : up (result X A)) (k : A → up (result X B)) : permitted p → (∀ a, permitted (k a)) → permitted (bindE p k).
Proof. intros Hp Hk. apply perm_then; [done|]. by intros [a|e]. Qed.
Lemma perm_coalesce {A} (typed : any → option A) key p : permitted p → permitted (coalesce typed key p).
Proof. intros Hp. apply coalesce_obeys; [by apply may_inside|done..|]. by intros [| |[v|e]|]. Qed.

(** Whatever the client may do for the target's own path is all a fill does. *)
Context (t : Target).
Hypothesis asks : ∀ cl, ta_client t = Some cl →
  (∀ tag cond, permitted (ask_ResolveTag cl (ta_upstream t) tag cond)) ∧
  (∀ digest, permitted (ask_FetchManifest cl (ta_upstream t) digest)) ∧ (∀ digest, permitted (ask_FetchBlob cl (ta_upstream t) digest)).

Ltac walk :=
  repeat match goal with
  | |- permitted (Done _) => done
  | |- permitted (bind _ _) => apply perm_then; [|intros ?]
  | |- permitted (bindE _ _) => apply perm_thenE; [|intros ?]
  | |- permitted (call _) => apply perm_call; exact I
  | |- permitted (meta_get _) => apply perm_call; exact I
  | |- permitted (meta_put _) => apply perm_call; exact I
  | |- permitted (blobs_call _) => apply perm_call; exact I
  | |- permitted now_ => apply perm_call; exact I
  | |- permitted (if ?b then _ else _) => destruct b
  | |- permitted (match ?x with _ => _ end) => destruct x
  end; auto.

Lemma walk_store digest payload mediaType : permitted (storeManifest ParseMediaType Unmarshal f t digest payload mediaType).
Proof. unfold storeManifest, publishFilled, publish. walk. Qed.
Lemma walk_ready now : permitted (upstreamReady t now).
Proof. unfold upstreamReady. walk. Qed.
Lemma walk_record {A} now (r : result UpstreamError A) : permitted (recordUpstream stream_timeout f t now r).
Proof. unfold recordUpstream. walk. Qed.
Hint Resolve walk_store walk_ready walk_record : core.

Lemma walk_client {A} (k : Client → up (result UpstreamError A)) :
  (∀ cl, ta_client t = Some cl → permitted (k cl)) → permitted (match validate t with Err e => Done (Err e) | Ok cl => k cl end).
Proof.
  intros Hk. unfold validate. destruct (String.eqb _ _); [done|]. destruct (String.eqb _ _); [done|]. destruct (ta_client t); auto. done.
Qed.

Lemma walk_Manifest digest : permitted (Filler_Manifest ParseMediaType Unmarshal stream_timeout f t digest).
Proof.
  unfold Filler_Manifest. pose proof (walk_client (λ cl, match Digest_Validate digest with
    | Err _ => Done (Err (Reference "digest" digest))
    | Ok _ => coalesce as_manifest (manifestKey (ta_repository t) digest) (fill_manifest ParseMediaType Unmarshal stream_timeout f cl t digest) end)) as H.
  destruct (validate t) as [cl|]; [|done]. apply H. intros cl' Hcl. destruct (asks cl' Hcl) as (_ & Hm & _).
  destruct (Digest_Validate digest); [|done]. apply perm_coalesce. unfold fill_manifest, publishCorrupt, publish. walk.
Qed.

Lemma walk_Blob digest : permitted (Filler_Blob stream_timeout f t digest).
Proof.
  unfold Filler_Blob. destruct (Digest_Validate digest) as [[]|]; [|by destruct (validate t)].
  apply walk_client. intros cl Hcl. destruct (asks cl Hcl) as (_ & _ & Hb).
  unfold fetch_blob, tee, publishCorrupt, publish. walk.
Qed.

Lemma walk_ResolveTag tag : permitted (Filler_ResolveTag ParseMediaType Unmarshal stream_timeout f t tag).
Proof.
  unfold Filler_ResolveTag. apply walk_client. intros cl Hcl. destruct (asks cl Hcl) as (Ht & _ & _).
  destruct (String.eqb tag ""); [done|]. apply perm_coalesce. pose proof walk_Manifest as HM.
  assert (∀ held e now, permitted (resolveFailed stream_timeout f t tag held e now)) as Hf.
  { intros. unfold resolveFailed, dropLease, recordNegative, writeLease, publishStale, publish. walk. }
  unfold resolveTag, lease, negative, ask_tag, dropNegative, resolved, cacheResolved, writeLease. walk.
Qed.
End walk.

(** *** Only what the rules admit *)
Section relay.
(** The rows an entity may have at any time. *)
Context (known : string → Meta.Repository → Prop).

Definition from_rows (B : Type) (e : op B) : B → Prop :=
  match e with
  | OpMeta g => λ r, ∃ ctx s, (∀ n row, repos s !! n = Some row → known n row) ∧ r = match g ctx s with Ok (_, b) => Ok b | Err e => Err e end
  | _ => λ _, True
  end.

(** A path the routing rules of a configuration of the entity let through, after
    the namespace rewrite. *)
Definition admitted (name path : string) : Prop :=
  ∃ entity remainder row config rules decision, Split name = Ok (entity, remainder) ∧ known entity row ∧ rp_type row = Proxy ∧
    parse_stored (rp_config row) = Ok config ∧ CompileRoutingRules config = Ok rules ∧
    path = rewriteNamespace (pc_defaultNamespace config) remainder ∧ RoutingRules_Evaluate rules path = Ok decision ∧ rd_allowed decision = true.

Lemma row_known entity ctx s :
  (∀ n row, repos s !! n = Some row → known n row) →
  match GetRepository ctx entity s with Ok row => known entity row | Err _ => True end.
Proof.
  intros Hk. unfold GetRepository. destruct (enter ctx s); simpl; [|done]. destruct (repos s !! entity) eqn:E; [by apply Hk|done].
Qed.

Lemma get_row may entity : (∀ B e, inside B e → may B e) →
  obeys from_rows may (λ r, match r with Ok row => known entity row | Err _ => True end) (meta_get (λ ctx, GetRepository ctx entity)).
Proof.
  intros Hm. split; [by apply Hm|]. intros r (ctx & s & Hk & ->). pose proof (row_known entity ctx s Hk) as H. by destruct (GetRepository ctx entity s).
Qed.

Lemma route_admits name entity remainder row config path :
  Split name = Ok (entity, remainder) → known entity row → rp_type row = Proxy → parse_stored (rp_config row) = Ok config →
  route config remainder = Ok path → admitted name path.
Proof.
  intros Hs Hk Hp Hc. unfold route. destruct (CompileRoutingRules config) as [rules|] eqn:Hr; [|done].
  destruct (RoutingRules_Evaluate _ _) as [decision|] eqn:He; [|done]. destruct (rd_allowed decision) eqn:Ha; [|done]. intros [= <-].
  by exists entity, remainder, row, config, rules, decision.
Qed.

(** C17: a proxy is not an open relay. Whatever a client may do for the paths the
    entity's rules admit after the rewrite is all that serving a name does:
    clients are never asked about any other path, and without one nothing leaves
    the process. *)
Theorem only_admitted_paths_are_fetched may name reference digest :
  (∀ B e, inside B e → may B e) →
  (∀ options cl path, build options = Ok cl → admitted name path →
     (∀ tag cond, obeys from_rows may (λ _, True) (ask_ResolveTag cl path tag cond)) ∧
     (∀ d, obeys from_rows may (λ _, True) (ask_FetchManifest cl path d)) ∧
     (∀ d, obeys from_rows may (λ _, True) (ask_FetchBlob cl path d))) →
  obeys from_rows may (λ _, True) (Server_Manifest name reference) ∧ obeys from_rows may (λ _, True) (Server_Blob name digest).
Proof.
  intros Hin Hasks.
  assert (obeys from_rows may (λ r, match r with
    | Ok t => admitted name (ta_upstream t) ∧ ∀ cl, ta_client t = Some cl → ∃ options, build options = Ok cl
    | Err _ => True end) (target name)) as Htarget.
  { unfold target. destruct (Split name) as [[entity remainder]|] eqn:Hs; [|done]. eapply obeys_bind; [by apply get_row|].
    intros [row|e] Hk; [|by destruct e]. destruct (String.eqb_spec (rp_type row) Proxy) as [Hp|]; [|done]. cbn [negb].
    destruct (parse_stored (rp_config row)) as [config|] eqn:Hc; [|done]. destruct (route config remainder) as [path|] eqn:Hr; [|done].
    eapply (obeys_bindE _ _ (λ cl, ∃ options, build options = Ok cl)).
    - eapply obeys_bind; [by apply get_row|]. intros [row'|e] _; [|done]. destruct (negb _); [done|].
      apply obeys_then; [by split; [apply Hin|]|]. intros [options|e]; [|done]. destruct (build options) eqn:Hb; [|done]. by exists options.
    - intros cl Hcl. split; [by eapply route_admits|]. by intros cl' [= <-]. }
  assert (∀ n d k, obeys from_rows may (λ _, True) (touch n d k)) as Htouch.
  { intros. unfold touch. destruct (ps_touches srv); [|done]. split; [by apply Hin|done]. }
  assert (∀ t, admitted name (ta_upstream t) ∧ (∀ cl, ta_client t = Some cl → ∃ options, build options = Ok cl) →
    ∀ cl, ta_client t = Some cl → (∀ tag cond, obeys from_rows may (λ _, True) (ask_ResolveTag cl (ta_upstream t) tag cond)) ∧
      (∀ d, obeys from_rows may (λ _, True) (ask_FetchManifest cl (ta_upstream t) d)) ∧
      (∀ d, obeys from_rows may (λ _, True) (ask_FetchBlob cl (ta_upstream t) d))) as Ht.
  { intros t [Ha Hcl] cl [options Ho]%Hcl. by apply (Hasks options). }
  split; (eapply obeys_bindE; [eapply obeys_mono; [|exact Htarget]; intros [t|e] H; [exact H|done]|]); intros t Hok; pose proof (Ht t Hok) as Hask.
  - apply obeys_thenE; [|intros d].
    + destruct (ParseDigest reference); [done|]. apply obeys_thenE; [|done]. eapply classified_obeys; [|by apply walk_ResolveTag]. by intros [].
    + apply obeys_thenE; [eapply classified_obeys; [|by apply walk_Manifest]; by intros []|]. intros m.
      apply obeys_then; [by destruct (mr_hit m)|done].
  - apply obeys_thenE; [eapply classified_obeys; [|by apply walk_Blob]; by intros []|]. intros b. apply obeys_then; [by destruct (br_hit b)|done].
Qed.
End relay.

(** *** The client of a configuration *)
Section clients.
Context (known : string → Meta.Repository → Prop).

(** A version names one configuration of an entity. *)
Definition versioned : Prop :=
  ∀ entity row row', known entity row → known entity row' → rp_configVersion row = rp_configVersion row' → rp_config row = rp_config row'.

(** Every cached client was built from a row of its entity, at its version. *)
Definition clients_ok (clients : gmap string cachedClient) : Prop :=
  ∀ entity c, clients !! entity = Some c → ∃ row config, known entity row ∧ parse_stored (rp_config row) = Ok config ∧
    cc_options c = client_options (ps_keys srv) config ∧ cc_version c = rp_configVersion row.

Definition from_cache (B : Type) (e : op B) : B → Prop :=
  match e with
  | OpClients g => λ b, ∃ clients, clients_ok clients ∧ b = (g clients).1
  | e => from_rows known _ e
  end.

Definition keeps_clients (B : Type) (e : op B) : Prop :=
  match e with OpClients g => ∀ clients, clients_ok clients → clients_ok (g clients).2 | _ => True end.

Lemma client_slot_ok entity row clients :
  versioned → known entity row → clients_ok clients →
  clients_ok (client_slot entity row clients).2 ∧
  match (client_slot entity row clients).1 with
  | Ok options => ∃ config, parse_stored (rp_config row) = Ok config ∧ options = client_options (ps_keys srv) config
  | Err _ => True
  end.
Proof.
  intros Hv Hk Hc.
  assert (∀ config, parse_stored (rp_config row) = Ok config →
    clients_ok (<[entity := mkCachedClient (client_options (ps_keys srv) config) (rp_configVersion row)]> clients)) as Hins.
  { intros config Hp entity' c. rewrite lookup_insert_Some. intros [[<- <-]|[_ H]]; [|by apply Hc]. by exists row, config. }
  unfold client_slot. destruct (clients !! entity) as [c|] eqn:E; [destruct (Z.eqb_spec (cc_version c) (rp_configVersion row)) as [Ev|]|].
  - split; [done|]. destruct (Hc entity c E) as (row' & config & Hk' & Hp & Ho & Hver). exists config. simpl. split; [|done].
    rewrite (Hv entity row row' Hk Hk'); [done|congruence].
  - destruct (parse_stored (rp_config row)) as [config|] eqn:Hp; [|done]. destruct (build _); [|done]. split; [by apply Hins|by exists config].
  - destruct (parse_stored (rp_config row)) as [config|] eqn:Hp; [|done]. destruct (build _); [|done]. split; [by apply Hins|by exists config].
Qed.

(** As long as a version names one configuration, the client an entity is
    served with is the one its current configuration builds, whatever earlier and
    concurrent requests left in the cache: a change of the upstream or of the
    trusted hosts is in force for the next request. *)
Theorem clients_follow_the_configuration entity :
  versioned →
  obeys from_cache keeps_clients (λ r, match r with
    | Ok cl => ∃ row config, known entity row ∧ rp_type row = Proxy ∧ parse_stored (rp_config row) = Ok config ∧
                 build (client_options (ps_keys srv) config) = Ok cl
    | Err _ => True
    end) (ClientFor entity).
Proof.
  intros Hv. unfold ClientFor. eapply (obeys_bind _ _ (λ r, match r with Ok row => known entity row | Err _ => True end)).
  { split; [done|]. intros r (ctx & s & Hk & ->). pose proof (row_known known entity ctx s Hk) as H. by destruct (GetRepository ctx entity s). }
  intros [row|e] Hk; [|done]. destruct (String.eqb_spec (rp_type row) Proxy) as [Hp|]; [|done]. cbn [negb].
  eapply (obeys_bind _ _ (λ slot, match slot with
    | Ok options => ∃ config, parse_stored (rp_config row) = Ok config ∧ options = client_options (ps_keys srv) config | Err _ => True end)).
  - split; [intros clients Hc; by apply client_slot_ok|]. intros slot (clients & Hc & ->). by apply client_slot_ok.
  - intros [options|e]; [|done]. intros (config & Hc & ->). destruct (build _) as [cl|] eqn:Hb; [|done]. by exists row, config.
Qed.
End clients.
End server.

(** ** Examples *)
Definition demo_server : ProxyServer := mkProxyServer (60 * second) (60 * second) ServeStale true true.
Definition demo_filler : Filler := mkFiller true (NewBackoff 0 0).
(** A configuration document that is just the upstream. *)
Definition demo_decode (raw : string) : option (ProxyConfig * bool) := Some (preset_config raw "library" [], false).

Lemma proxy_serves_verified_content_witness :
  safely (λ r, match r with
    | Ok m => hashes_to (sm_digest m) (String.list_ascii_of_string (sm_payload m)) ∧ ∀ d, ParseDigest "latest" = Ok d → sm_digest m = d
    | Err _ => True end)
    (Server_Manifest demo_Parse (λ _, None) demo_decode (λ _, None) (λ m, Some m) (λ _, None) (λ _, false) (λ _, Ok demo_client)
       demo_server demo_filler "hub/app" "latest").
Proof.
  refine (proj1 (proxy_serves_verified_content demo_Parse (λ _, None) demo_decode (λ _, None) (λ m, Some m) (λ _, None) (λ _, false)
    (λ _, Ok demo_client) demo_server demo_filler "hub/app" "latest" abc_digest _)).
  intros options cl [= <-]. apply demo_client_laws.
Defined.

Lemma only_admitted_paths_are_fetched_witness :
  obeys (from_rows (λ _ _, True)) inside (λ _, True)
    (Server_Manifest demo_Parse (λ _, None) demo_decode (λ _, None) (λ m, Some m) (λ _, None) (λ _, false) (λ _, Ok demo_client)
       demo_server demo_filler "hub/app" "latest").
Proof.
  refine (proj1 (only_admitted_paths_are_fetched demo_Parse (λ _, None) demo_decode (λ _, None) (λ m, Some m) (λ _, None) (λ _, false)
    (λ _, Ok demo_client) demo_server demo_filler (λ _ _, True) inside "hub/app" "latest" abc_digest _ _)).
  - done.
  - intros options cl path [= <-] _. split; [intros; exact I|]. split; intros; exact I.
Defined.

Definition demo_row (upstream : string) : Meta.Repository := mkRepository "hub" Proxy upstream 1 0 0.

Lemma clients_follow_the_configuration_witness :
  obeys (from_cache demo_Parse (λ _, None) demo_decode (λ _, None) demo_server (λ _ row, row = demo_row "https://quay.io"))
    (keeps_clients demo_Parse (λ _, None) demo_decode (λ _, None) demo_server (λ _ row, row = demo_row "https://quay.io"))
    (λ r, match r with
     | Ok cl => ∃ row config, row = demo_row "https://quay.io" ∧ rp_type row = Proxy ∧
         parse_stored demo_Parse (λ _, None) demo_decode (λ _, None) (rp_config row) = Ok config ∧ Ok demo_client = (Ok cl : result UpstreamError Client)
     | Err _ => True end)
    (ClientFor demo_Parse (λ _, None) demo_decode (λ _, None) (λ _, Ok demo_client) demo_server "hub").
Proof.
  apply (clients_follow_the_configuration demo_Parse (λ _, None) demo_decode (λ _, None) (λ _, Ok demo_client) demo_server
    (λ _ row, row = demo_row "https://quay.io") "hub").
  by intros entity row row' -> ->.
Defined.

(** *** A proxy deleted and created again *)

(** A client that fails with the upstream it was built for. *)
Definition named_client (options : ClientOptions) : Client :=
  let failed {A} : up (result UpstreamError A) := Done (Err (Reference "upstream" (co_upstream options))) in
  mkClientOps (λ _ _ _, failed) (λ _ _, failed) (λ _ _, failed).

Definition rows_and_clients : Type := Memory.Store * gmap string cachedClient.

Definition handle_clients (B : Type) (e : op B) : rows_and_clients → option (B * rows_and_clients) :=
  match e with
  | OpMeta g => λ w, match g false w.1 with Ok (s, b) => Some (Ok b, (s, w.2)) | Err e => Some (Err e, w) end
  | OpClients g => λ w, let '(b, c) := g w.2 in Some (b, (w.1, c))
  | _ => λ _, None
  end.

(** The upstream the entity's client talks to. *)
Definition serving_upstream (w : rows_and_clients) : option (string * rows_and_clients) :=
  match exec handle_clients (ClientFor demo_Parse (λ _, None) demo_decode (λ _, None) (λ o, Ok (named_client o)) demo_server "hub") w with
  | Some (Ok cl, w) =>
      match ask_FetchManifest cl "" "" with Done (Err (Reference _ upstream)) => Some (upstream, w) | _ => None end
  | _ => None
  end.

Definition recreate (upstream : string) (w : rows_and_clients) : option rows_and_clients :=
  match DeleteRepository false "hub" w.1 with
  | Ok s => match CreateRepository false (demo_row upstream) s with Ok (s, _) => Some (s, w.2) | Err _ => None end
  | Err _ => None
  end.

(** A version restarts at one when an entity is created again under its old name,
    so the cache keeps serving it through the client of the deleted one. *)
Lemma recreated_proxy_keeps_its_old_client :
  let first := (set_repos {["hub" := demo_row "https://old.example"]} newEmpty, ∅) in
  match serving_upstream first with
  | Some (u1, w) =>
      u1 = "https://old.example" ∧
      match recreate "https://new.example" w with
      | Some w => (rp_config <$> repos w.1 !! "hub") = Some "https://new.example" ∧ fst <$> serving_upstream w = Some "https://old.example"
      | None => False
      end
  | None => False
  end.
Proof. by vm_compute. Qed.

(** An override that does not parse is zero, not the deployment's default. *)
Lemma malformed_override_is_zero : durationOr (λ _, None) "soon" (60 * second) = 0%Z.
Proof. reflexivity. Qed.
