(* ===== verification/Crypto.v ===== *)
(** * AES-256, GCM and HMAC-SHA-256

    What src/internal/secretbox uses of Go's crypto/aes, crypto/cipher and
    crypto/hmac: the forward cipher of FIPS 197 with a 256-bit key, Galois
    counter mode of SP 800-38D with a 96-bit nonce and a 128-bit tag, and the
    keyed hash of RFC 2104. A block is a 128-bit integer, big-endian; the cipher
    works on its sixteen bytes. *)
From S2P Require Import Prelude Sha2.
Local Open Scope Z_scope.

(** ** The field of AES *)
Definition xtime (b : Z) : Z := if 128 <=? b then Z.lxor (wrap 8 (2 * b)) 27 else 2 * b.

Fixpoint gf_mul (bits : nat) (a b : Z) : Z :=
  match bits with
  | O => 0
  | S bits => Z.lxor (if Z.odd b then a else 0) (gf_mul bits (xtime a) (b / 2))
  end.

(** The inverse is the 254th power; 0 goes to 0. *)
Definition gf_inverse (x : Z) : Z := Nat.iter 254 (gf_mul 8 x) 1.
Definition rotl8 (n x : Z) : Z := Z.lor (wrap 8 (Z.shiftl x n)) (Z.shiftr x (8 - n)).

Definition sbox : list Z := Eval vm_compute in
  (λ x, let i := gf_inverse x in
        Z.lxor i (Z.lxor (rotl8 1 i) (Z.lxor (rotl8 2 i) (Z.lxor (rotl8 3 i) (Z.lxor (rotl8 4 i) 99)))))
  <$> seqZ 0 256.

Definition SubBytes (bs : list Z) : list Z := (λ b, nth (Z.to_nat b) sbox 0) <$> bs.
Definition xor_bytes : list Z → list Z → list Z := zip_with Z.lxor.

(** Column-major: the byte of row [r] and column [c] is at [4 * c + r]. *)
Definition ShiftRows (st : list Z) : list Z :=
  (λ i, nth ((i + 4 * (i mod 4)) mod 16)%nat st 0) <$> seq 0 16.

Definition mix_column (col : list Z) : list Z :=
  match col with
  | [a; b; c; d] =>
      let three x := Z.lxor (xtime x) x in
      [Z.lxor (Z.lxor (xtime a) (three b)) (Z.lxor c d); Z.lxor (Z.lxor a (xtime b)) (Z.lxor (three c) d);
       Z.lxor (Z.lxor a b) (Z.lxor (xtime c) (three d)); Z.lxor (Z.lxor (three a) b) (Z.lxor c (xtime d))]
  | _ => col
  end.

Definition MixColumns (st : list Z) : list Z := chunks (length st) 4 st ≫= mix_column.

(** ** Key schedule

    [recent] is the last eight words, newest first; a word is four bytes. *)
Definition next_word (i : nat) (rcon : Z) (recent : list (list Z)) : list Z :=
  let temp := nth 0 recent [] in
  let temp :=
    if (i mod 8 =? 0)%nat then xor_bytes (SubBytes (tl temp ++ take 1 temp)) [rcon; 0; 0; 0]
    else if (i mod 8 =? 4)%nat then SubBytes temp else temp in
  xor_bytes (nth 7 recent []) temp.

Fixpoint expand (fuel i : nat) (rcon : Z) (recent : list (list Z)) : list (list Z) :=
  match fuel with
  | O => []
  | S fuel =>
      let word := next_word i rcon recent in
      word :: expand fuel (S i) (if (i mod 8 =? 0)%nat then xtime rcon else rcon) (word :: take 7 recent)
  end.

(** Fifteen round keys of sixteen bytes: the eight words of the key and
    fifty-two more. *)
Definition KeyExpansion (key : list ascii) : list (list Z) :=
  let first := chunks 8 4 (map byte_Z key) in
  let words := first ++ expand 52 8 1 (rev first) in
  @concat Z <$> chunks 15 4 words.

Fixpoint rounds (st : list Z) (keys : list (list Z)) : list Z :=
  match keys with
  | [] => st
  | [k] => xor_bytes (ShiftRows (SubBytes st)) k
  | k :: keys => rounds (xor_bytes (MixColumns (ShiftRows (SubBytes st))) k) keys
  end.

Definition block_bytes (block : Z) : list Z := map byte_Z (put_bytes 16 block).
Definition block_of (bs : list Z) : Z := foldl (λ acc b, acc * 256 + b) 0 bs.

(** [Block.Encrypt], on one block. *)
Definition Encrypt (keys : list (list Z)) (block : Z) : Z :=
  match keys with
  | [] => block
  | k :: keys => block_of (rounds (xor_bytes (block_bytes block) k) keys)
  end.

(** ** GHASH *)
Definition gcm_double (v : Z) : Z := if Z.odd v then Z.lxor (Z.div2 v) (Z.shiftl 225 120) else Z.div2 v.

(** The product of [x] and [v], from the [i]-th bit of [x] down. *)
Fixpoint gcm_mul (i : nat) (x v : Z) : Z :=
  match i with
  | O => 0
  | S i => Z.lxor (if Z.testbit x (Z.of_nat i) then v else 0) (gcm_mul i x (gcm_double v))
  end.

Definition zero_pad (bs : list ascii) : list ascii :=
  bs ++ replicate (Z.to_nat ((- Z.of_nat (length bs)) mod 16)) (Z_byte 0).

Definition ghash (h : Z) (bs : list ascii) : Z :=
  foldl (λ y block, gcm_mul 128 (Z.lxor y (read_word block)) h) 0 (chunks (length bs) 16 bs).

(** ** Counter mode *)
Definition inc32 (counter : Z) : Z := Z.shiftl (Z.shiftr counter 32) 32 + wrap 32 (counter + 1).

Definition byte_xor (a b : ascii) : ascii :=
  let '(Ascii a0 a1 a2 a3 a4 a5 a6 a7) := a in
  let '(Ascii b0 b1 b2 b3 b4 b5 b6 b7) := b in
  Ascii (xorb a0 b0) (xorb a1 b1) (xorb a2 b2) (xorb a3 b3) (xorb a4 b4) (xorb a5 b5) (xorb a6 b6) (xorb a7 b7).

Fixpoint key_stream (blocks : nat) (keys : list (list Z)) (counter : Z) : list ascii :=
  match blocks with
  | O => []
  | S blocks => put_bytes 16 (Encrypt keys counter) ++ key_stream blocks keys (inc32 counter)
  end.

Definition ctr (keys : list (list Z)) (counter : Z) (data : list ascii) : list ascii :=
  zip_with byte_xor data (key_stream ((length data + 15) / 16) keys counter).

(** ** [cipher.NewGCM]: [NonceSize], [Overhead], [Seal] and [Open] *)
Definition NonceSize : nat := 12.
Definition Overhead : nat := 16.
Definition gcm_max : Z := (2 ^ 32 - 2) * 16.

Definition gcm_tag (keys : list (list Z)) (j0 : Z) (ciphertext additional : list ascii) : list ascii :=
  let h := Encrypt keys 0 in
  let s := ghash h (zero_pad additional ++ zero_pad ciphertext ++
                    put_bytes 8 (8 * Z.of_nat (length additional)) ++ put_bytes 8 (8 * Z.of_nat (length ciphertext))) in
  put_bytes 16 (Z.lxor s (Encrypt keys j0)).

Definition first_counter (nonce : list ascii) : Z := read_word nonce * 2 ^ 32 + 1.

(** [None] where Go panics: a message too large for the mode. *)
Definition gcm_Seal (keys : list (list Z)) (nonce plaintext additional : list ascii) : option (list ascii) :=
  if gcm_max <? Z.of_nat (length plaintext) then None
  else
    let j0 := first_counter nonce in
    let ciphertext := ctr keys (inc32 j0) plaintext in
    Some (ciphertext ++ gcm_tag keys j0 ciphertext additional).

Definition gcm_Open (keys : list (list Z)) (nonce sealed additional : list ascii) : option (list ascii) :=
  if (length sealed <? Overhead)%nat then None
  else if gcm_max + 16 <? Z.of_nat (length sealed) then None
  else
    let ciphertext := take (length sealed - Overhead) sealed in
    let tag := drop (length sealed - Overhead) sealed in
    let j0 := first_counter nonce in
    if decide (tag = gcm_tag keys j0 ciphertext additional)
    then Some (ctr keys (inc32 j0) ciphertext) else None.

(** ** HMAC over SHA-256 *)
Definition hmac_block (key : list ascii) : list ascii :=
  let key := if (64 <? length key)%nat then sum sha256_params key else key in
  key ++ replicate (64 - length key) (Z_byte 0).

Definition hmac (key message : list ascii) : list ascii :=
  let block := hmac_block key in
  sum sha256_params ((map (byte_xor (Z_byte 92)) block) ++
    sum sha256_params ((map (byte_xor (Z_byte 54)) block) ++ message)).

(** ** Opening inverts sealing *)
Lemma byte_xor_cancel a b : byte_xor (byte_xor a b) b = a.
Proof.
  destruct a, b. unfold byte_xor. by rewrite !xorb_assoc, !xorb_nilpotent, !xorb_false_r.
Qed.

Lemma zip_with_cancel (data stream : list ascii) :
  zip_with byte_xor (zip_with byte_xor data stream) stream = take (length stream) data.
Proof.
  revert stream. induction data as [|d data IH]; intros [|s stream]; [done..|]. cbn. by rewrite byte_xor_cancel, IH.
Qed.

Lemma key_stream_length blocks keys counter : length (key_stream blocks keys counter) = (16 * blocks)%nat.
Proof.
  revert counter. induction blocks as [|n IH]; intros counter; [done|]. cbn [key_stream].
  rewrite length_app, IH, put_bytes_length. lia.
Qed.

Lemma key_stream_enough (data : list ascii) keys counter :
  (length data ≤ length (key_stream ((length data + 15) / 16) keys counter))%nat.
Proof. rewrite key_stream_length. pose proof (Nat.div_mod_eq (length data + 15) 16). pose proof (Nat.mod_upper_bound (length data + 15) 16). lia. Qed.

Lemma ctr_length keys counter data : length (ctr keys counter data) = length data.
Proof. unfold ctr. rewrite length_zip_with. pose proof (key_stream_enough data keys counter). lia. Qed.

Lemma ctr_cancel keys counter data : ctr keys counter (ctr keys counter data) = data.
Proof.
  unfold ctr at 1. rewrite ctr_length. unfold ctr. rewrite zip_with_cancel. apply take_ge, key_stream_enough.
Qed.

Lemma gcm_tag_length keys j0 ciphertext additional : length (gcm_tag keys j0 ciphertext additional) = Overhead.
Proof. apply put_bytes_length. Qed.

(** A ciphertext is its plaintext's length and a tag. *)
Lemma gcm_Seal_length keys nonce plaintext additional sealed :
  gcm_Seal keys nonce plaintext additional = Some sealed → length sealed = (length plaintext + Overhead)%nat.
Proof.
  unfold gcm_Seal. destruct (_ <? _); [done|]. intros [= <-]. by rewrite length_app, ctr_length, gcm_tag_length.
Qed.

Lemma gcm_Open_Seal keys nonce plaintext additional sealed :
  gcm_Seal keys nonce plaintext additional = Some sealed → gcm_Open keys nonce sealed additional = Some plaintext.
Proof.
  unfold gcm_Seal. destruct (Z.ltb_spec gcm_max (Z.of_nat (length plaintext))) as [|Hmax]; [done|]. intros [= <-].
  set (j0 := first_counter nonce). set (c := ctr keys (inc32 j0) plaintext).
  assert (length c = length plaintext) as Hc by apply ctr_length.
  unfold gcm_Open. fold j0. rewrite length_app, gcm_tag_length, Nat.add_sub.
  destruct (Nat.ltb_spec (length c + Overhead) Overhead) as [|_]; [lia|].
  destruct (Z.ltb_spec (gcm_max + 16) (Z.of_nat (length c + Overhead))) as [|_]; [unfold Overhead in *; lia|].
  rewrite take_app_length, drop_app_length, decide_True by done. unfold c. by rewrite ctr_cancel.
Qed.

(** Only what carries the tag of its nonce, content and associated data opens. *)
Lemma gcm_Open_authentic keys nonce sealed additional plaintext :
  gcm_Open keys nonce sealed additional = Some plaintext →
  gcm_Seal keys nonce plaintext additional = Some sealed.
Proof.
  unfold gcm_Open, gcm_Seal. destruct (Nat.ltb_spec (length sealed) Overhead) as [|Hl]; [done|].
  destruct (Z.ltb_spec (gcm_max + 16) (Z.of_nat (length sealed))) as [|Hm]; [done|].
  case_decide as Ht; [|done]. intros [= <-]. rewrite ctr_length, length_take.
  destruct (Z.ltb_spec gcm_max (Z.of_nat ((length sealed - Overhead) `min` length sealed))) as [|_]; [unfold Overhead in *; lia|].
  rewrite ctr_cancel, <- Ht. by rewrite take_drop.
Qed.

Lemma hmac_length key message : length (hmac key message) = 32%nat.
Proof. unfold hmac. by rewrite sum_length by done. Qed.

(** ** Test vectors *)
Definition unhex_digit (c : ascii) : Z :=
  let n := byte_Z c in if n <=? 57 then n - 48 else n - 87.
Fixpoint unhex (s : string) : list ascii :=
  match s with
  | String a (String b s) => Z_byte (16 * unhex_digit a + unhex_digit b) :: unhex s
  | _ => []
  end.

(** FIPS 197, C.3. *)
Example aes256_vector :
  hex_bytes (put_bytes 16 (Encrypt (KeyExpansion (Z_byte <$> seqZ 0 32)) (read_word (unhex "00112233445566778899aabbccddeeff")))) =
  "8ea2b7ca516745bfeafc49904b496089".
Proof. vm_compute. reflexivity. Qed.

(** Test cases 14 and 16 of the mode's specification. *)
Example gcm_zero_vector :
  hex_bytes <$> gcm_Seal (KeyExpansion (replicate 32 (Z_byte 0))) (replicate 12 (Z_byte 0)) (replicate 16 (Z_byte 0)) [] =
  Some "cea7403d4d606b6e074ec5d3baf39d18d0d1c8a799996bf0265b98b5d48ab919".
Proof. vm_compute. reflexivity. Qed.

Example gcm_vector :
  hex_bytes <$> gcm_Seal (KeyExpansion (unhex "feffe9928665731c6d6a8f9467308308feffe9928665731c6d6a8f9467308308"))
    (unhex "cafebabefacedbaddecaf888")
    (unhex "d9313225f88406e5a55909c5aff5269a86a7a9531534f7da2e4c303d8a318a721c3c0c95956809532fcf0e2449a6b525b16aedf5aa0de657ba637b39")
    (unhex "feedfacedeadbeeffeedfacedeadbeefabaddad2") =
  Some "522dc1f099567d07f47f37a32a84427d643a8cdcbfe5c0c97598a2bd2555d1aa8cb08e48590dbb3da7b08b1056828838c5f61e6393ba7a0abcc9f66276fc6ece0f4e1768cddf8853bb2d551b".
Proof. vm_compute. reflexivity. Qed.

(** RFC 4231, case 2. *)
Example hmac_vector :
  hex_bytes (hmac (String.list_ascii_of_string "Jefe") (String.list_ascii_of_string "what do ya want for nothing?")) =
  "5bdcc146bf60754e6a042426089575c75a003f089d2739839dec58b964ec3843".
Proof. vm_compute. reflexivity. Qed.
