(* ===== verification/Secretbox.v ===== *)
(** * Sealed secrets

    src/internal/secretbox: keys and their identifiers (key.go), the keyring and
    its file format (keyring.go), sealing and opening (secretbox.go) and keyed
    digests (mac.go). A nil keyring is [None]. A source of randomness is the bytes
    it will give before it fails; what a call does not take is left for the next. *)
From S2P Require Import Prelude RepoName Sha2 Digest GoStrings Base64 Crypto.
Local Open Scope Z_scope.

(** ** Errors *)
Inductive InvalidKeyReason : Type :=
| KeyLength (got : nat)
| KeyNotBase64
| KeyNotBuilt
| KeyRepeated (id : string)
| KeyfileTooLarge.

Inductive MalformedReason : Type :=
| SealedShape | SealedKeyID | SealedBase64 | SealedNotCanonical | SealedShort.

Inductive InvalidContextReason : Type :=
| ContextEmpty | ContextLong (got : nat) | ContextUnfinished | ContextNotPrintable.

Inductive SecretError : Type :=
| ErrNoKey
| InvalidKeyError (reason : InvalidKeyReason)
| UnknownKeyError (id : string)
| MalformedError (reason : MalformedReason)
| ErrUnsupportedVersion
| AuthenticationError (id : string)
| InvalidContextError (reason : InvalidContextReason)
| ErrRandom                  (* the source of randomness failed *)
| ErrTooLarge.               (* the cipher panics: the plaintext is beyond its limit *)

(** ** Randomness: [io.ReadFull] *)
Definition Random : Type := list ascii.

Definition ReadFull (random : Random) (n : nat) : option (list ascii * Random) :=
  if (n <=? length random)%nat then Some (take n random, drop n random) else None.

(** ** key.go *)
Definition KeySize : nat := 32.
Definition KeyIDLength : nat := 8.

Record Key : Type := mkKey {
  k_material : list ascii;
  k_id : string;
}.

Definition keyID (material : list ascii) : string :=
  String.substring 0 KeyIDLength (hex_bytes (sum sha256_params material)).

Definition NewKey (material : list ascii) : result SecretError Key :=
  if negb (length material =? KeySize)%nat then Err (InvalidKeyError (KeyLength (length material)))
  else Ok (mkKey material (keyID material)).

Definition generateKey (random : Random) : result SecretError (Key * Random) :=
  match ReadFull random KeySize with
  | None => Err ErrRandom
  | Some (material, random) => let! k := NewKey material in Ok (k, random)
  end.

Definition DecodeKey (line : string) : result SecretError Key :=
  match DecodeString StdEncoding (TrimSpace line) with
  | None => Err (InvalidKeyError KeyNotBase64)
  | Some material => NewKey material
  end.

Definition Key_Encode (k : Key) : string := EncodeToString StdEncoding (k_material k).
Definition Key_String (k : Key) : string := "secretbox.Key(" +:+ k_id k +:+ ")".

Definition isKeyID (s : string) : bool :=
  if negb (String.length s =? KeyIDLength)%nat then false else all_bytes isLowerHex s.

(** ** keyring.go *)
Record entry : Type := mkEntry {
  e_key : Key;
  e_aead : list (list Z);                (* the round keys of its cipher *)
}.

Record Keyring : Type := mkKeyring {
  kr_entries : list entry;
  kr_byID : gmap string nat;
}.

Definition add_key (r : Keyring) (k : Key) : result SecretError Keyring :=
  if String.eqb (k_id k) "" then Err (InvalidKeyError KeyNotBuilt)
  else if bool_decide (is_Some (kr_byID r !! k_id k)) then Err (InvalidKeyError (KeyRepeated (k_id k)))
  else Ok (mkKeyring (kr_entries r ++ [mkEntry k (KeyExpansion (k_material k))])
                     (<[k_id k := length (kr_entries r)]> (kr_byID r))).

Definition newKeyring (keys : list Key) : result SecretError Keyring :=
  match keys with
  | [] => Err ErrNoKey
  | _ => foldM add_key (mkKeyring [] ∅) keys
  end.

(** [KeyfileError]: the line, from 1, or 0 for the file as a whole. *)
Record KeyfileError : Type := mkKeyfileError {
  kf_path : string;
  kf_line : nat;
  kf_err : SecretError;
}.

Definition keyfile_line (acc : list Key * nat) (line : string) : result KeyfileError (list Key * nat) :=
  let '(keys, i) := acc in
  let line := TrimSpace line in
  if String.eqb line "" || HasPrefix line "#" then Ok (keys, S i)
  else match DecodeKey line with
  | Err e => Err (mkKeyfileError "" (S i) e)
  | Ok k => Ok (keys ++ [k], S i)
  end.

Definition parseKeyring (data : string) : result KeyfileError Keyring :=
  let! parsed := foldM keyfile_line ([], 0%nat) (SplitByte data "010") in
  match parsed.1 with
  | [] => Err (mkKeyfileError "" 0 ErrNoKey)
  | keys => result_map_err (mkKeyfileError "" 0) (newKeyring keys)
  end.

Definition Keys (r : option Keyring) : list Key :=
  match r with None => [] | Some r => e_key <$> kr_entries r end.

Definition Encode (r : option Keyring) : string :=
  foldl (λ b k, b +:+ Key_Encode k +:+ String "010" "") "" (Keys r).

Definition ActiveKeyID (r : option Keyring) : string :=
  match r with
  | None => ""
  | Some r => match kr_entries r with [] => "" | e :: _ => k_id (e_key e) end
  end.

Definition KeyIDs (r : option Keyring) : list string := k_id <$> Keys r.

Definition Rotate (r : option Keyring) (key : Key) : result SecretError Keyring := newKeyring (key :: Keys r).

(** ** secretbox.go *)
Definition Version : string := "v1".
Definition MaxContextLength : nat := 255.

Definition ProxyCredential (repoID : string) : string := "proxy-credential:" +:+ repoID.
Definition WebhookSecret (subscriptionID : string) : string := "webhook-secret:" +:+ subscriptionID.
Definition RobotSecret (robotID : string) : string := "robot-secret:" +:+ robotID.

Definition printable (c : ascii) : bool := (32 <=? byte_Z c) && (byte_Z c <=? 126).

Definition Context_Validate (c : string) : result SecretError unit :=
  if String.eqb c "" then Err (InvalidContextError ContextEmpty)
  else if (MaxContextLength <? String.length c)%nat then Err (InvalidContextError (ContextLong (String.length c)))
  else if HasSuffix c ":" then Err (InvalidContextError ContextUnfinished)
  else if all_bytes printable c then Ok tt else Err (InvalidContextError ContextNotPrintable).

Definition Seal (r : option Keyring) (random : Random) (plaintext : list ascii) (ctx : string)
    : result SecretError (string * Random) :=
  let! _ := Context_Validate ctx in
  match r with
  | None => Err ErrNoKey
  | Some r =>
      match kr_entries r with
      | [] => Err ErrNoKey
      | active :: _ =>
          match ReadFull random NonceSize with
          | None => Err ErrRandom
          | Some (nonce, random) =>
              match gcm_Seal (e_aead active) nonce plaintext (String.list_ascii_of_string ctx) with
              | None => Err ErrTooLarge
              | Some sealed =>
                  Ok (Version +:+ ":" +:+ k_id (e_key active) +:+ ":" +:+ EncodeToString StdEncoding (nonce ++ sealed), random)
              end
          end
      end
  end.

Definition parseSealed (value : string) : result SecretError (string * list ascii) :=
  match SplitByte value ":" with
  | [version; id; text] =>
      if negb (String.eqb version Version) then Err ErrUnsupportedVersion
      else if negb (isKeyID id) then Err (MalformedError SealedKeyID)
      else match DecodeString StdEncoding text with
      | None => Err (MalformedError SealedBase64)
      | Some payload =>
          if negb (String.eqb (EncodeToString StdEncoding payload) text) then Err (MalformedError SealedNotCanonical)
          else Ok (id, payload)
      end
  | _ => Err (MalformedError SealedShape)
  end.

Definition Open (r : option Keyring) (value ctx : string) : result SecretError (list ascii) :=
  let! _ := Context_Validate ctx in
  let! parsed := parseSealed value in
  let '(id, payload) := parsed in
  match r with
  | None => Err ErrNoKey
  | Some r =>
      match kr_byID r !! id with
      | None => Err (UnknownKeyError id)
      | Some index =>
          match kr_entries r !! index with
          | None => Err (UnknownKeyError id)      (* an index out of range would panic: see [keyring_ok] *)
          | Some e =>
              if (length payload <? NonceSize + Overhead)%nat then Err (MalformedError SealedShort)
              else match gcm_Open (e_aead e) (take NonceSize payload) (drop NonceSize payload) (String.list_ascii_of_string ctx) with
              | None => Err (AuthenticationError id)
              | Some plaintext => Ok plaintext
              end
          end
      end
  end.

Definition KeyIDOf (value : string) : result SecretError string :=
  let! parsed := parseSealed value in Ok parsed.1.

Definition NeedsReseal (r : option Keyring) (value : string) : result SecretError bool :=
  let! id := KeyIDOf value in Ok (negb (String.eqb id (ActiveKeyID r))).

Definition Redact (value : string) : string :=
  match KeyIDOf value with
  | Err _ => "<redacted>"
  | Ok id => "<redacted:" +:+ id +:+ ">"
  end.

(** ** mac.go *)
Definition MACSize : nat := KeyIDLength + 32.

(** [binary.PutUvarint]: seven bits a byte, least significant first. Ten bytes
    are enough for 64 bits. *)
Fixpoint uvarint (fuel : nat) (n : Z) : list ascii :=
  match fuel with
  | O => []
  | S fuel => if 128 <=? n then Z_byte (128 + n mod 128) :: uvarint fuel (n / 128) else [Z_byte n]
  end.

Definition mac_input (ctx : string) (value : list ascii) : list ascii :=
  uvarint 10 (Z.of_nat (String.length ctx)) ++ String.list_ascii_of_string ctx ++ value.

Definition computeMAC (key : Key) (ctx : string) (value : list ascii) : list ascii :=
  hmac (k_material key) (mac_input ctx value).

Definition MAC (r : option Keyring) (value : list ascii) (ctx : string) : result SecretError (list ascii) :=
  let! _ := Context_Validate ctx in
  match r with
  | None => Err ErrNoKey
  | Some r =>
      match kr_entries r with
      | [] => Err ErrNoKey
      | active :: _ =>
          Ok (String.list_ascii_of_string (k_id (e_key active)) ++ computeMAC (e_key active) ctx value)
      end
  end.

Definition VerifyMAC (r : option Keyring) (value : list ascii) (ctx : string) (digest : list ascii) : bool :=
  match Context_Validate ctx, r with
  | Ok _, Some r =>
      if negb (length digest =? MACSize)%nat then false
      else match kr_byID r !! String.string_of_list_ascii (take KeyIDLength digest) with
      | None => false
      | Some index =>
          match kr_entries r !! index with
          | None => false
          | Some e => bool_decide (drop KeyIDLength digest = computeMAC (e_key e) ctx value)
          end
      end
  | _, _ => false
  end.
