(* ===== verification/SecretboxSpec.v ===== *)
(** * What sealing promises

    A keyring opens exactly the values that were sealed under one of its keys and
    the context it is asked with, in one spelling each; rotations keep every value
    readable, and once no value asks for re-sealing the retired keys can go. The
    keyfile format is a round trip, and a keyed digest verifies exactly under the
    key that made it, over an encoding that keeps context and value apart. *)
From S2P Require Import Prelude RepoName Sha2 Digest VerifySpec GoStrings Base64 Crypto Secretbox.
Local Open Scope Z_scope.

(** ** Keys and keyrings as the package makes them *)
Definition key_ok (k : Key) : Prop := length (k_material k) = KeySize ∧ k_id k = keyID (k_material k).

Inductive built : Keyring → Prop :=
| built_new keys r : Forall (λ k, ∃ m, NewKey m = Ok k) keys → newKeyring keys = Ok r → built r
| built_parse data r : parseKeyring data = Ok r → built r
| built_rotate r m k r' : built r → NewKey m = Ok k → Rotate (Some r) k = Ok r' → built r'.

(** One rotation, with whatever key. *)
Definition rotates (r r' : Keyring) : Prop := ∃ m k, NewKey m = Ok k ∧ Rotate (Some r) k = Ok r'.

Record keyring_ok (r : Keyring) : Prop := {
  kro_some : kr_entries r ≠ [];
  kro_entry : ∀ e, e ∈ kr_entries r → key_ok (e_key e) ∧ e_aead e = KeyExpansion (k_material (e_key e));
  kro_byID : ∀ id i, kr_byID r !! id = Some i ↔ ∃ e, kr_entries r !! i = Some e ∧ k_id (e_key e) = id;
}.

Lemma NewKey_ok m k : NewKey m = Ok k ↔ k = mkKey m (keyID m) ∧ key_ok k.
Proof.
  unfold NewKey, key_ok. destruct (Nat.eqb_spec (length m) KeySize) as [Hl|Hl]; simpl; split.
  - by intros [= <-].
  - by intros [-> _].
  - done.
  - intros [-> [Hm _]]. by simpl in Hm.
Qed.

Lemma DecodeKey_ok line k : DecodeKey line = Ok k → key_ok k.
Proof. unfold DecodeKey. destruct (DecodeString _ _) as [m|]; [|done]. by intros [_ ?]%NewKey_ok. Qed.

(** ** Identifiers *)
Lemma all_bytes_substring p n s : all_bytes p s = true → all_bytes p (String.substring 0 n s) = true.
Proof.
  revert n. induction s as [|c s IH]; intros [|n]; [done..|]. cbn. rewrite !andb_true_iff. intros [-> Hs]. by rewrite IH.
Qed.

Lemma keyID_shape m : isKeyID (keyID m) = true.
Proof.
  unfold isKeyID, keyID. assert (String.length (hex_bytes (sum sha256_params m)) = 64%nat) as Hl.
  { rewrite hex_bytes_length, sum_length by done. done. }
  pose proof (hex_bytes_lower (sum sha256_params m)) as Hb. revert Hl Hb.
  generalize (hex_bytes (sum sha256_params m)). intros s Hl Hb. rewrite all_bytes_substring by done.
  assert (String.length (String.substring 0 KeyIDLength s) = 8%nat) as ->; [|done].
  do 8 (destruct s as [|? s]; [done|]). cbn. by destruct s.
Qed.

Lemma isKeyID_facts id : isKeyID id = true →
  String.length id = KeyIDLength ∧ id ≠ "" ∧ ContainsByte id ":" = false.
Proof.
  unfold isKeyID. destruct (Nat.eqb_spec (String.length id) KeyIDLength) as [Hl|]; [|done]. simpl. intros Hb.
  split_and!; [done|by intros ->|]. by apply (all_bytes_contains isLowerHex).
Qed.

Lemma key_ok_id k : key_ok k → isKeyID (k_id k) = true.
Proof. intros [_ ->]. apply keyID_shape. Qed.

(** ** Building a keyring keeps the keys in order and indexes them *)
Definition indexed (r : Keyring) : Prop :=
  (∀ e, e ∈ kr_entries r → key_ok (e_key e) ∧ e_aead e = KeyExpansion (k_material (e_key e))) ∧
  ∀ id i, kr_byID r !! id = Some i ↔ ∃ e, kr_entries r !! i = Some e ∧ k_id (e_key e) = id.

Lemma add_key_indexed r k r' : indexed r → key_ok k → add_key r k = Ok r' →
  indexed r' ∧ Keys (Some r') = Keys (Some r) ++ [k].
Proof.
  intros [He Hid] Hk. unfold add_key. destruct (String.eqb_spec (k_id k) "") as [|_]; [done|].
  case_bool_decide as Hd; [done|]. intros [= <-]. split; [|simpl; by rewrite fmap_app]. split; simpl.
  - intros e [H| ->%list_elem_of_singleton]%elem_of_app; [by apply He|done].
  - intros id i. destruct (decide (id = k_id k)) as [->|Hne].
    + rewrite lookup_insert_eq. split.
      * intros [= <-]. exists (mkEntry k (KeyExpansion (k_material k))). by rewrite lookup_app_r, Nat.sub_diag by lia.
      * intros (e & Hl & Hid'). apply lookup_app_Some in Hl as [Hl|[Hl Hl']].
        -- destruct Hd. exists i. apply Hid. eauto.
        -- destruct (i - length (kr_entries r))%nat eqn:Ei; [|by simpl in Hl']. f_equal. lia.
    + rewrite lookup_insert_ne by done. rewrite Hid. split.
      * intros (e & Hl & <-). exists e. split; [|done]. by apply lookup_app_l_Some.
      * intros (e & Hl & <-). exists e. split; [|done]. apply lookup_app_Some in Hl as [Hl|[_ Hl]]; [done|].
        destruct (i - length (kr_entries r))%nat; [|by simpl in Hl]. by injection Hl as <-.
Qed.

Lemma foldM_add_key keys r r' : indexed r → Forall key_ok keys → foldM add_key r keys = Ok r' →
  indexed r' ∧ Keys (Some r') = Keys (Some r) ++ keys.
Proof.
  revert r. induction keys as [|k keys IH]; intros r Hr Hk; cbn [foldM].
  - intros [= <-]. by rewrite app_nil_r.
  - apply Forall_cons in Hk as [Hk Hks]. destruct (add_key r k) as [r1|] eqn:Ha; [|done]. cbn [result_bind]. intros Hf.
    destruct (add_key_indexed _ _ _ Hr Hk Ha) as [Hr1 Hk1]. destruct (IH r1 Hr1 Hks Hf) as [Hi HK]. split; [done|].
    by rewrite HK, Hk1, <- app_assoc.
Qed.

Lemma empty_indexed : indexed (mkKeyring [] ∅).
Proof. split; simpl; [intros e H; by apply elem_of_nil in H|]. intros id i. rewrite lookup_empty. naive_solver. Qed.

Lemma newKeyring_spec keys r : Forall key_ok keys → newKeyring keys = Ok r → keyring_ok r ∧ Keys (Some r) = keys.
Proof.
  intros Hk. unfold newKeyring. destruct keys as [|k keys]; [done|]. intros Hf.
  destruct (foldM_add_key _ _ _ empty_indexed Hk Hf) as [[He Hi] HK]. split; [|done]. split; [|done..].
  intros Hn. simpl in HK. by rewrite Hn in HK.
Qed.

(** A key is refused exactly when its identifier is taken. *)
Lemma foldM_add_key_total keys r : indexed r → Forall key_ok keys →
  NoDup (k_id <$> keys) → (∀ k, k ∈ keys → kr_byID r !! k_id k = None) → ∃ r', foldM add_key r keys = Ok r'.
Proof.
  revert r. induction keys as [|k keys IH]; intros r Hr Hk Hnd Hfree; cbn [foldM]; [eauto|].
  apply Forall_cons in Hk as [Hk Hks]. cbn in Hnd. apply NoDup_cons in Hnd as [Hn Hnd].
  destruct (add_key r k) as [r1|e] eqn:Ha.
  - cbn [result_bind]. destruct (add_key_indexed _ _ _ Hr Hk Ha) as [Hr1 _]. apply IH; try done.
    intros k' Hk'. unfold add_key in Ha. destruct (String.eqb _ _); [done|]. case_bool_decide; [done|]. injection Ha as <-. simpl.
    rewrite lookup_insert_ne; [apply Hfree; by right|]. intros Heq. apply Hn. rewrite Heq. by apply list_elem_of_fmap_2.
  - unfold add_key in Ha. destruct (isKeyID_facts _ (key_ok_id k Hk)) as (_ & Hne & _).
    destruct (String.eqb_spec (k_id k) "") as [|_]; [done|]. case_bool_decide as Hd; [|done].
    rewrite (Hfree k) in Hd by left. by destruct Hd.
Qed.

Lemma newKeyring_total keys : keys ≠ [] → Forall key_ok keys → NoDup (k_id <$> keys) → ∃ r, newKeyring keys = Ok r.
Proof.
  intros Hne Hk Hnd. unfold newKeyring. destruct keys; [done|]. apply foldM_add_key_total; try done. apply empty_indexed.
Qed.

Lemma keyring_eq r r' : keyring_ok r → keyring_ok r' → Keys (Some r) = Keys (Some r') → r = r'.
Proof.
  intros [_ He Hi] [_ He' Hi'] HK. destruct r as [es m], r' as [es' m']. simpl in *.
  assert (es = es') as ->.
  { clear Hi Hi'. revert es' HK He'. induction es as [|e es IH]; intros [|e' es'] HK He'; try done. injection HK as Hk HK.
    destruct (He e) as [_ Ha]; [by left|]. destruct (He' e') as [_ Ha']; [by left|]. f_equal.
    - destruct e, e'. simpl in *. by subst.
    - apply IH; [|done|]; intros ? ?; [apply He|apply He']; by right. }
  f_equal. apply map_eq. intros id. apply option_eq. intros i. by rewrite Hi, Hi'.
Qed.

Lemma keyring_ids_NoDup r : keyring_ok r → NoDup (KeyIDs (Some r)).
Proof.
  intros [_ _ Hi]. unfold KeyIDs, Keys. rewrite <- list_fmap_compose. apply NoDup_alt. intros i j id.
  rewrite !list_lookup_fmap. intros (e & He & ->)%fmap_Some (e' & He' & Heq)%fmap_Some. simpl in Heq.
  assert (kr_byID r !! k_id (e_key e) = Some i) as H1 by (apply Hi; eauto).
  assert (kr_byID r !! k_id (e_key e) = Some j) as H2 by (apply Hi; eauto). congruence.
Qed.

(** ** The keyfile format *)
Lemma keyfile_lines_ok lines acc acc' :
  Forall key_ok acc.1 → foldM keyfile_line acc lines = Ok acc' → Forall key_ok acc'.1.
Proof.
  apply (foldM_inv (λ acc : list Key * nat, Forall key_ok acc.1)). intros [keys i] line acc1 Hk. unfold keyfile_line.
  destruct (_ || _); [by intros [= <-]|]. destruct (DecodeKey _) as [k|] eqn:Hd; [|done]. intros [= <-]. simpl.
  apply Forall_app. split; [done|]. apply Forall_singleton. by eapply DecodeKey_ok.
Qed.

Lemma result_map_err_ok {E F A} (f : E → F) (r : result E A) a : result_map_err f r = Ok a ↔ r = Ok a.
Proof. destruct r; simpl; split; congruence. Qed.

Lemma keyring_keys_ok r : keyring_ok r → Forall key_ok (Keys (Some r)).
Proof.
  intros [_ He _]. apply Forall_forall. intros k (e & -> & H)%list_elem_of_fmap. by apply He.
Qed.

Lemma Rotate_spec r m k r' : keyring_ok r → NewKey m = Ok k → Rotate (Some r) k = Ok r' →
  keyring_ok r' ∧ Keys (Some r') = k :: Keys (Some r).
Proof.
  intros Hr [_ Hk]%NewKey_ok. apply newKeyring_spec. constructor; [done|]. by apply keyring_keys_ok.
Qed.

Lemma built_ok r : built r → keyring_ok r.
Proof.
  induction 1 as [keys r Hm Hn|data r Hp|r m k r' _ IH Hk Hr].
  - eapply newKeyring_spec; [|done]. eapply Forall_impl; [exact Hm|]. intros k (m & [_ ?]%NewKey_ok). done.
  - unfold parseKeyring in Hp. destruct (foldM _ _ _) as [[keys i]|] eqn:Hf; [|done].
    apply keyfile_lines_ok in Hf; [|done]. simpl in *. destruct keys as [|k keys]; [done|].
    apply result_map_err_ok in Hp. by eapply newKeyring_spec.
  - by eapply Rotate_spec.
Qed.

Lemma rotates_keys r r' : keyring_ok r → rtc rotates r r' →
  keyring_ok r' ∧ ∃ newer, Keys (Some r') = newer ++ Keys (Some r).
Proof.
  intros Hr Hs. revert Hr. induction Hs as [r|r r1 r' (m & k & Hk & Hrot) _ IH]; intros Hr; [split; [done|by exists []]|].
  destruct (Rotate_spec _ _ _ _ Hr Hk Hrot) as [Hr1 HK]. destruct (IH Hr1) as [Hr' (newer & HK')]. split; [done|].
  exists (newer ++ [k]). by rewrite HK', HK, <- app_assoc.
Qed.

(** Encoded keys are lines of their own, without white space at their ends. *)
Lemma std_ok : alphabet_ok StdEncoding = true.
Proof. vm_compute. reflexivity. Qed.

Lemma plain_not_space c : plain c = true → ascii_space c = false.
Proof.
  unfold plain, ascii_space, byte_Z. rewrite !andb_true_iff, !Z.leb_le. intros ((((H1 & H2) & _) & _) & _).
  apply orb_false_iff. split; [apply andb_false_iff; right; apply Nat.leb_gt; lia|apply Nat.eqb_neq; lia].
Qed.

(** A text of plain bytes is its own trimming: the wide spaces of UTF-8 start and
    end outside ASCII. *)
Lemma wide_spaces_not_plain : Forall (λ w, all_bytes plain w = false) wide_spaces.
Proof. repeat constructor; vm_compute; reflexivity. Qed.

Lemma all_bytes_app p a b : all_bytes p (a +:+ b) = all_bytes p a && all_bytes p b.
Proof. induction a as [|c a IH]; [done|]. rewrite str_app_cons. cbn [all_bytes]. by rewrite IH, andb_assoc. Qed.

Lemma list_find_not_plain (test : string → bool) ws :
  (∀ w, test w = true → all_bytes plain w = true) → Forall (λ w, all_bytes plain w = false) ws →
  list_find (λ w, test w = true) ws = None.
Proof.
  intros Ht Hw. apply list_find_None. eapply Forall_impl; [exact Hw|]. intros w Hp Htest. apply Ht in Htest. congruence.
Qed.

Lemma TrimSpace_plain s : all_bytes plain s = true → TrimSpace s = s.
Proof.
  intros Hs. unfold TrimSpace. destruct s as [|c s]; [done|].
  assert (trim_one_left (String c s) = None) as Hl.
  { unfold trim_one_left. pose proof Hs as Hc. cbn [all_bytes] in Hc. apply andb_true_iff in Hc as [Hc _].
    rewrite plain_not_space by done. rewrite list_find_not_plain; [done| |apply wide_spaces_not_plain].
    intros w (t & Heq)%HasPrefix_iff. rewrite Heq, all_bytes_app, andb_true_iff in Hs. by destruct Hs. }
  assert (trim_one_right (String c s) = None) as Hr.
  { unfold trim_one_right. rewrite list_find_not_plain; [done| |].
    - intros w (t & Heq)%HasSuffix_iff. rewrite Heq, all_bytes_app, andb_true_iff in Hs. by destruct Hs.
    - apply Forall_app. split; [repeat constructor; vm_compute; reflexivity|apply wide_spaces_not_plain]. }
  cbn [String.length repeat_trim]. rewrite Hl. cbn [String.length repeat_trim]. by rewrite Hr.
Qed.

Lemma Key_Encode_plain k : all_bytes plain (Key_Encode k) = true.
Proof. apply EncodeToString_plain, std_ok. Qed.

Lemma Key_Encode_nonempty k : key_ok k → Key_Encode k ≠ "".
Proof. intros [Hl _] H%EncodeToString_nil. by rewrite H in Hl. Qed.

Lemma DecodeKey_Encode k : key_ok k → DecodeKey (Key_Encode k) = Ok k.
Proof.
  intros Hk. unfold DecodeKey. rewrite TrimSpace_plain by apply Key_Encode_plain.
  unfold Key_Encode. rewrite DecodeString_Encode by apply std_ok. destruct k as [m id], Hk as [Hl Hid]. simpl in *.
  apply NewKey_ok. subst. by split.
Qed.

Lemma keyfile_line_encoded acc i k : key_ok k → keyfile_line (acc, i) (Key_Encode k) = Ok (acc ++ [k], S i).
Proof.
  intros Hk. unfold keyfile_line. rewrite TrimSpace_plain by apply Key_Encode_plain.
  destruct (String.eqb_spec (Key_Encode k) "") as [He|_]; [by apply Key_Encode_nonempty in He|].
  destruct (HasPrefix (Key_Encode k) "#") eqn:Hp; [|by rewrite DecodeKey_Encode].
  apply HasPrefix_iff in Hp as (t & Heq). pose proof (Key_Encode_plain k) as H. by rewrite Heq in H.
Qed.

Lemma keyfile_lines_encoded keys acc i : Forall key_ok keys →
  foldM keyfile_line (acc, i) ((Key_Encode <$> keys) ++ [""]) = Ok (acc ++ keys, (S i + length keys)%nat).
Proof.
  revert acc i. induction keys as [|k keys IH]; intros acc i Hk; cbn [fmap list_fmap app foldM].
  - cbn. by rewrite app_nil_r, Nat.add_0_r.
  - apply Forall_cons in Hk as [Hk Hks]. rewrite keyfile_line_encoded by done. cbn [result_bind].
    change (list_fmap Key Key Key_Encode keys) with (Key_Encode <$> keys) || idtac.
    rewrite IH by done. rewrite <- app_assoc. simpl. do 3 f_equal. lia.
Qed.

Lemma Encode_lines keys b : Forall key_ok keys →
  foldl (λ b k, b +:+ Key_Encode k +:+ String "010" "") b keys = b +:+ strings_Join ((Key_Encode <$> keys) ++ [""]) "010".
Proof.
  revert b. induction keys as [|k keys IH]; intros b Hk; [simpl; by rewrite str_app_nil_r|].
  apply Forall_cons in Hk as [_ Hks]. cbn [foldl]. rewrite IH by done. rewrite !str_app_assoc. f_equal.
  assert (strings_Join ((Key_Encode <$> k :: keys) ++ [""]) "010" =
          Key_Encode k +:+ String "010" (strings_Join ((Key_Encode <$> keys) ++ [""]) "010")) as ->; [|done].
  cbn. by destruct keys.
Qed.

Lemma parse_encoded r : keyring_ok r → parseKeyring (Encode (Some r)) = Ok r.
Proof.
  intros Hr. pose proof (keyring_keys_ok r Hr) as Hk. unfold parseKeyring, Encode. rewrite Encode_lines by done.
  change ("" +:+ ?x) with x. set (keys := Keys (Some r)) in *.
  assert (∃ w ws, (Key_Encode <$> keys) ++ [""] = w :: ws) as (w & ws & Hw) by (destruct keys; simpl; eauto).
  rewrite Hw, SplitByte_Join, <- Hw.
  - rewrite keyfile_lines_encoded by done. cbn [result_bind fst app].
    destruct keys as [|k ks] eqn:Ek; [destruct Hr as [Hn _ _]; unfold keys in Ek; simpl in Ek; by destruct (kr_entries r)|].
    rewrite <- Ek in *. destruct (newKeyring_total keys) as (r' & Hr'); [by rewrite Ek|done|by apply keyring_ids_NoDup|].
    assert (result_map_err (mkKeyfileError "" 0) (newKeyring keys) = Ok r) as Hgoal; [|by rewrite Ek in *].
    apply result_map_err_ok. rewrite Hr'. f_equal. destruct (newKeyring_spec _ _ Hk Hr') as [Hok HK]. by apply keyring_eq.
  - rewrite <- Hw. apply Forall_app. split; [|by repeat constructor]. apply Forall_forall. intros t (k & -> & _)%list_elem_of_fmap.
    apply (all_bytes_contains plain); [apply Key_Encode_plain|done].
Qed.

(** ** One value, one spelling *)
Definition spelled (id : string) (payload : list ascii) : string :=
  Version +:+ ":" +:+ id +:+ ":" +:+ EncodeToString StdEncoding payload.

Lemma encoded_no_colon bs : ContainsByte (EncodeToString StdEncoding bs) ":" = false.
Proof. apply (all_bytes_contains plain); [apply EncodeToString_plain, std_ok|done]. Qed.

Lemma parseSealed_spelled id payload : isKeyID id = true → parseSealed (spelled id payload) = Ok (id, payload).
Proof.
  intros Hid. destruct (isKeyID_facts id Hid) as (_ & _ & Hc). unfold parseSealed, spelled.
  change (Version +:+ ":" +:+ id +:+ ":" +:+ ?t) with (strings_Join [Version; id; t] ":").
  rewrite SplitByte_Join by (repeat constructor; [done|apply encoded_no_colon]).
  simpl. rewrite Hid. simpl. rewrite DecodeString_Encode by apply std_ok. by rewrite String.eqb_refl.
Qed.

Lemma parseSealed_ok value id payload :
  parseSealed value = Ok (id, payload) → isKeyID id = true ∧ value = spelled id payload.
Proof.
  unfold parseSealed. pose proof (Join_SplitByte value ":") as Hj.
  destruct (SplitByte value ":") as [|version [|id' [|text [|? ?]]]]; try done.
  destruct (String.eqb_spec version Version) as [->|]; [|done]. destruct (isKeyID id') eqn:Hid; [|done]. cbn [negb].
  destruct (DecodeString StdEncoding text) as [p|]; [|done].
  destruct (String.eqb_spec (EncodeToString StdEncoding p) text) as [<-|]; [|done]. intros [= -> ->]. by split.
Qed.

(** ** Sealing under one key *)
Definition seal_with (k : Key) (nonce plaintext : list ascii) (ctx : string) : option string :=
  sealed ← gcm_Seal (KeyExpansion (k_material k)) nonce plaintext (String.list_ascii_of_string ctx);
  Some (spelled (k_id k) (nonce ++ sealed)).

Lemma Seal_iff r random plaintext ctx value rest : keyring_ok r →
  Seal (Some r) random plaintext ctx = Ok (value, rest) ↔
  Context_Validate ctx = Ok tt ∧ ∃ k retired nonce, Keys (Some r) = k :: retired ∧ random = nonce ++ rest ∧
    length nonce = NonceSize ∧ seal_with k nonce plaintext ctx = Some value.
Proof.
  intros [Hn He _]. unfold Seal, seal_with. destruct (Context_Validate ctx) as [[]|]; cbn [result_bind]; [|naive_solver].
  simpl Keys. destruct (kr_entries r) as [|e es]; [done|]. destruct (He e) as [Hk Ha]; [by left|]. rewrite Ha.
  unfold ReadFull. destruct (Nat.leb_spec NonceSize (length random)) as [Hl|Hl].
  - split.
    + destruct (gcm_Seal _ _ _ _) as [sealed|] eqn:Hg; [|done]. intros [= <- <-]. split; [done|].
      exists (e_key e), (e_key <$> es), (take NonceSize random). split_and!; [done|by rewrite take_drop|rewrite length_take; lia|].
      by rewrite Hg.
    + intros (_ & k & retired & nonce & [= <- _] & -> & Hnonce & Hs). rewrite <- Hnonce, take_app_length, drop_app_length.
      destruct (gcm_Seal _ _ _ _) as [sealed|]; [|done]. simpl in Hs. by injection Hs as <-.
  - split; [done|]. intros (_ & k & retired & nonce & _ & -> & Hnonce & _). rewrite length_app in Hl. lia.
Qed.

Lemma lookup_key r k : keyring_ok r → k ∈ Keys (Some r) →
  ∃ i e, kr_byID r !! k_id k = Some i ∧ kr_entries r !! i = Some e ∧ e_key e = k ∧ e_aead e = KeyExpansion (k_material k).
Proof.
  intros [_ He Hi] (e & -> & Hin)%list_elem_of_fmap. apply list_elem_of_lookup in Hin as (i & Hl). exists i, e.
  split_and!; [apply Hi; eauto|done|done|]. apply He. by eapply list_elem_of_lookup_2.
Qed.

Lemma seal_with_payload k nonce plaintext ctx value : length nonce = NonceSize → seal_with k nonce plaintext ctx = Some value →
  ∃ sealed, value = spelled (k_id k) (nonce ++ sealed) ∧ (NonceSize + Overhead ≤ length (nonce ++ sealed))%nat ∧
    gcm_Seal (KeyExpansion (k_material k)) nonce plaintext (String.list_ascii_of_string ctx) = Some sealed.
Proof.
  intros Hn. unfold seal_with. destruct (gcm_Seal _ _ _ _) as [sealed|] eqn:Hg; [|done]. simpl. intros [= <-]. exists sealed.
  split_and!; [done| |done]. apply gcm_Seal_length in Hg. rewrite length_app. unfold NonceSize, Overhead in *; lia.
Qed.

Lemma Open_iff r value ctx plaintext : keyring_ok r →
  Open (Some r) value ctx = Ok plaintext ↔
  Context_Validate ctx = Ok tt ∧ ∃ k nonce, k ∈ Keys (Some r) ∧ length nonce = NonceSize ∧
    seal_with k nonce plaintext ctx = Some value.
Proof.
  intros Hr. unfold Open. destruct (Context_Validate ctx) as [[]|]; cbn [result_bind]; [|naive_solver]. split.
  - destruct (parseSealed value) as [[id payload]|] eqn:Hp; [|done]. cbn [result_bind].
    apply parseSealed_ok in Hp as [_ ->]. destruct (kr_byID r !! id) as [i|] eqn:Hi; [|done].
    apply (kro_byID r Hr) in Hi as (e & Hl & <-). rewrite Hl. apply list_elem_of_lookup_2 in Hl.
    destruct (Nat.ltb_spec (length payload) (NonceSize + Overhead)) as [|Hlen]; [done|].
    destruct (gcm_Open _ _ _ _) as [p|] eqn:Hg; [|done]. intros [= <-]. split; [done|].
    exists (e_key e), (take NonceSize payload). split_and!; [by apply list_elem_of_fmap_2|rewrite length_take; lia|].
    unfold seal_with. destruct (kro_entry r Hr e Hl) as [_ <-]. rewrite (gcm_Open_authentic _ _ _ _ _ Hg). simpl.
    by rewrite take_drop.
  - intros (_ & k & nonce & Hk & Hn & Hs). destruct (seal_with_payload _ _ _ _ _ Hn Hs) as (sealed & -> & Hlen & Hg).
    destruct (lookup_key r k Hr Hk) as (i & e & Hi & Hl & <- & Ha).
    rewrite parseSealed_spelled by (apply key_ok_id; apply (kro_entry r Hr e); by eapply list_elem_of_lookup_2).
    cbn [result_bind]. rewrite Hi, Hl. destruct (Nat.ltb_spec (length (nonce ++ sealed)) (NonceSize + Overhead)) as [|_]; [lia|].
    rewrite <- Hn, take_app_length, drop_app_length, Ha. by rewrite (gcm_Open_Seal _ _ _ _ _ Hg).
Qed.

(** C21: A sealed secret is read back exactly. Whatever keyring was built, a value
    opens to a plaintext exactly when it is what sealing that plaintext under one
    of the keyring's keys, this context and some nonce writes: nothing else opens,
    and no other spelling of it does. Sealing takes a fresh nonce off the random
    source and writes such a value under the active key, so it opens to what was
    sealed, in this keyring and after any number of rotations. *)
Theorem sealed_secrets_open_exactly r :
  built r →
  (∀ value ctx plaintext, Open (Some r) value ctx = Ok plaintext ↔
     Context_Validate ctx = Ok tt ∧ ∃ k nonce, k ∈ Keys (Some r) ∧ length nonce = NonceSize ∧
       seal_with k nonce plaintext ctx = Some value) ∧
  (∀ random plaintext ctx value rest, Seal (Some r) random plaintext ctx = Ok (value, rest) →
     (∃ nonce, random = nonce ++ rest ∧ length nonce = NonceSize) ∧
     ∀ r', rtc rotates r r' → Open (Some r') value ctx = Ok plaintext).
Proof.
  intros Hr%built_ok. split; [intros; by apply Open_iff|].
  intros random plaintext ctx value rest (Hv & k & retired & nonce & HK & Hnonce & Hl & Hs)%Seal_iff; [|done].
  split; [eauto|]. intros r' Hrot. destruct (rotates_keys _ _ Hr Hrot) as [Hr' (newer & HK')].
  apply Open_iff; [done|]. split; [done|]. exists k, nonce. split_and!; [|done|done]. rewrite HK', HK.
  apply elem_of_app. right. by left.
Qed.

(** The file format of keys is a round trip: a keyring written to a keyfile and
    read back is the same keyring, key for key in the same order, so it seals with
    the same key and opens the same values. *)
Theorem keyfile_round_trip r : built r → parseKeyring (Encode (Some r)) = Ok r.
Proof. intros Hr%built_ok. by apply parse_encoded. Qed.

Lemma NeedsReseal_false r value : keyring_ok r → NeedsReseal (Some r) value = Ok false →
  ∃ k retired payload, Keys (Some r) = k :: retired ∧ value = spelled (k_id k) payload.
Proof.
  intros [Hn _ _]. unfold NeedsReseal, KeyIDOf. destruct (parseSealed value) as [[id payload]|] eqn:Hp; [|done]. cbn.
  destruct (kr_entries r) as [|e es]; [done|]. destruct (String.eqb_spec id (k_id (e_key e))) as [->|]; [|done].
  intros _. apply parseSealed_ok in Hp as [_ ->]. eauto.
Qed.

(** Rotation ends safely. A value sealed by the active key does not ask to be
    sealed again, and a value that does not ask opens with the active key alone
    exactly as with the whole keyring: once no stored value asks, the retired keys
    can be removed without losing one. *)
Theorem retired_keys_can_be_removed r active retired r1 value ctx :
  built r → Keys (Some r) = active :: retired → newKeyring [active] = Ok r1 →
  (∀ random plaintext rest, Seal (Some r) random plaintext ctx = Ok (value, rest) → NeedsReseal (Some r) value = Ok false) ∧
  (NeedsReseal (Some r) value = Ok false →
   ∀ plaintext, Open (Some r1) value ctx = Ok plaintext ↔ Open (Some r) value ctx = Ok plaintext).
Proof.
  intros Hr%built_ok HK H1. pose proof (keyring_keys_ok r Hr) as Hks. rewrite HK in Hks. apply Forall_cons in Hks as [Hk _].
  destruct (newKeyring_spec [active] r1 (Forall_cons_2 _ _ _ Hk (Forall_nil_2 _)) H1) as [Hr1 HK1]. split.
  - intros random plaintext rest (_ & k & retired' & nonce & HK' & _ & Hl & Hs)%Seal_iff; [|done].
    rewrite HK in HK'. injection HK' as <- <-. destruct (seal_with_payload _ _ _ _ _ Hl Hs) as (sealed & -> & _).
    unfold NeedsReseal, KeyIDOf. rewrite parseSealed_spelled by by apply key_ok_id. cbn.
    assert (ActiveKeyID (Some r) = k_id active) as Ha by (simpl in *; destruct (kr_entries r); [done|]; by injection HK as <- _).
    cbn in Ha. by rewrite Ha, String.eqb_refl.
  - intros (k & retired' & payload & HK' & ->)%NeedsReseal_false plaintext; [|done]. rewrite HK in HK'. injection HK' as <- <-.
    rewrite !Open_iff by done. f_equiv. split; intros (k & nonce & Hin & Hl & Hs); exists k, nonce; split_and!; try done.
    + rewrite HK1 in Hin. apply list_elem_of_singleton in Hin as ->. rewrite HK. by left.
    + destruct (seal_with_payload _ _ _ _ _ Hl Hs) as (sealed & Heq & _). rewrite HK1. apply list_elem_of_singleton.
      assert (k_id active = k_id k) as Hid.
      { assert (key_ok k) as Hkk by (eapply Forall_forall; [apply (keyring_keys_ok r Hr)|done]).
        assert (parseSealed (spelled (k_id active) payload) = parseSealed (spelled (k_id k) (nonce ++ sealed))) as Hp by by rewrite Heq.
        rewrite !parseSealed_spelled in Hp by by apply key_ok_id. by injection Hp. }
      assert (active ∈ Keys (Some r)) as Hact by (rewrite HK; by left).
      symmetry. eapply (nodup_key_inj k_id (Keys (Some r))); try done. by apply keyring_ids_NoDup.
Qed.

(** ** Keyed digests *)
Lemma Z_byte_inj a b : 0 ≤ a < 256 → 0 ≤ b < 256 → Z_byte a = Z_byte b → a = b.
Proof. intros Ha Hb H. apply (f_equal byte_Z) in H. by rewrite !byte_Z_byte in H. Qed.

(** No encoding of a length is the beginning of another. *)
Lemma uvarint_prefix fuel n m x y : 0 ≤ n < 128 ^ Z.of_nat fuel → 0 ≤ m < 128 ^ Z.of_nat fuel →
  uvarint fuel n ++ x = uvarint fuel m ++ y → n = m ∧ x = y.
Proof.
  revert n m. induction fuel as [|fuel IH]; intros n m Hn Hm; [simpl in *; intros ->; split; [lia|done]|]. cbn [uvarint].
  rewrite Nat2Z.inj_succ, Z.pow_succ_r in Hn, Hm by lia.
  pose proof (Z.mod_pos_bound n 128). pose proof (Z.mod_pos_bound m 128).
  destruct (Z.leb_spec 128 n), (Z.leb_spec 128 m); cbn [app]; intros [= Hb Hx];
    apply Z_byte_inj in Hb; try (Z.div_mod_to_equations; lia).
  - apply IH in Hx as [Hd ->]; [|split; [apply Z.div_pos; lia|apply Z.div_lt_upper_bound; lia]..].
    split; [|done]. pose proof (Z.div_mod n 128). pose proof (Z.div_mod m 128). lia.
  - by subst.
Qed.

Lemma list_ascii_inj a b : String.list_ascii_of_string a = String.list_ascii_of_string b → a = b.
Proof. intros H. rewrite <- (String.string_of_list_ascii_of_string a), H. apply String.string_of_list_ascii_of_string. Qed.

Lemma list_ascii_length s : length (String.list_ascii_of_string s) = String.length s.
Proof. induction s; simpl; by f_equal. Qed.

Lemma mac_input_inj ctx ctx' value value' :
  Z.of_nat (String.length ctx) < 2 ^ 63 → Z.of_nat (String.length ctx') < 2 ^ 63 →
  mac_input ctx value = mac_input ctx' value' → ctx = ctx' ∧ value = value'.
Proof.
  intros Hc Hc' H. unfold mac_input in H. apply uvarint_prefix in H as [Hl H];
    [|split; [lia|eapply Z.lt_trans; [eassumption|reflexivity]]..].
  apply app_inj_1 in H as [Hctx Hv]; [split; [by apply list_ascii_inj|done]|]. rewrite !list_ascii_length. lia.
Qed.

Lemma Context_Validate_length ctx : Context_Validate ctx = Ok tt → (String.length ctx ≤ MaxContextLength)%nat.
Proof. unfold Context_Validate. destruct (String.eqb _ _); [done|]. by destruct (Nat.ltb_spec MaxContextLength (String.length ctx)). Qed.

Definition mac_with (k : Key) (ctx : string) (value : list ascii) : list ascii :=
  String.list_ascii_of_string (k_id k) ++ computeMAC k ctx value.

Lemma VerifyMAC_iff r value ctx digest : keyring_ok r →
  VerifyMAC (Some r) value ctx digest = true ↔
  Context_Validate ctx = Ok tt ∧ ∃ k, k ∈ Keys (Some r) ∧ digest = mac_with k ctx value.
Proof.
  intros Hr. unfold VerifyMAC, mac_with. destruct (Context_Validate ctx) as [[]|]; [|naive_solver]. split.
  - destruct (Nat.eqb_spec (length digest) MACSize) as [Hl|]; [|done]. cbn [negb].
    destruct (kr_byID r !! _) as [i|] eqn:Hi; [|done]. apply (kro_byID r Hr) in Hi as (e & He & Hid). rewrite He.
    intros Hd%bool_decide_eq_true. split; [done|]. exists (e_key e). apply list_elem_of_lookup_2 in He.
    split; [by apply list_elem_of_fmap_2|]. rewrite Hid, String.list_ascii_of_string_of_list_ascii, <- Hd. by rewrite take_drop.
  - intros (_ & k & Hk & ->). destruct (lookup_key r k Hr Hk) as (i & e & Hi & Hl & <- & _).
    assert (key_ok (e_key e)) as Hok by (apply (kro_entry r Hr e); by eapply list_elem_of_lookup_2).
    destruct (isKeyID_facts _ (key_ok_id _ Hok)) as (Hlen & _ & _).
    assert (length (String.list_ascii_of_string (k_id (e_key e))) = KeyIDLength) as Hlen' by by rewrite list_ascii_length.
    rewrite length_app, Hlen'. unfold computeMAC at 1. rewrite hmac_length. cbn [Nat.eqb negb MACSize KeyIDLength Nat.add].
    rewrite <- Hlen', take_app_length, drop_app_length, String.string_of_list_ascii_of_string, Hi, Hl. by apply bool_decide_eq_true.
Qed.

(** A keyed digest is checked exactly. A digest verifies for a value and a
    context exactly when it is the identifier and the HMAC one of the keyring's
    keys gives them; the digest made under the active key therefore verifies now
    and after any rotations. What the HMAC is taken over determines the context
    and the value, so the same digest is never asked about two different pairs. *)
Theorem keyed_digests_verify_exactly r :
  built r →
  (∀ value ctx digest, VerifyMAC (Some r) value ctx digest = true ↔
     Context_Validate ctx = Ok tt ∧ ∃ k, k ∈ Keys (Some r) ∧
       digest = String.list_ascii_of_string (k_id k) ++ hmac (k_material k) (mac_input ctx value)) ∧
  (∀ value ctx digest, MAC (Some r) value ctx = Ok digest →
     ∀ r', rtc rotates r r' → VerifyMAC (Some r') value ctx digest = true) ∧
  (∀ ctx ctx' value value', Context_Validate ctx = Ok tt → Context_Validate ctx' = Ok tt →
     mac_input ctx value = mac_input ctx' value' → ctx = ctx' ∧ value = value').
Proof.
  intros Hr%built_ok. split_and!.
  - intros. by apply VerifyMAC_iff.
  - intros value ctx digest Hm r' Hrot. destruct (rotates_keys _ _ Hr Hrot) as [Hr' (newer & HK')].
    apply VerifyMAC_iff; [done|]. unfold MAC in Hm. destruct (Context_Validate ctx) as [[]|]; [|done]. cbn [result_bind] in Hm.
    split; [done|]. destruct (kr_entries r) as [|e es] eqn:He; [done|]. injection Hm as <-. exists (e_key e). split; [|done].
    rewrite HK'. apply elem_of_app. right. simpl. rewrite He. by left.
  - intros ctx ctx' value value' H1%Context_Validate_length H2%Context_Validate_length. unfold MaxContextLength in *.
    apply mac_input_inj; lia.
Qed.

(** ** Witnesses *)
Definition demo_material (n : Z) : list ascii := replicate 32 (Z_byte n).
Definition demo_key (n : Z) : Key := mkKey (demo_material n) (keyID (demo_material n)).
Definition demo_ring : Keyring :=
  match newKeyring [demo_key 2; demo_key 1] with Ok r => r | Err _ => mkKeyring [] ∅ end.

Lemma demo_key_made n : NewKey (demo_material n) = Ok (demo_key n).
Proof. apply NewKey_ok. split; [done|]. by split. Qed.

Lemma demo_newKeyring : newKeyring [demo_key 2; demo_key 1] = Ok demo_ring.
Proof.
  unfold demo_ring. destruct (newKeyring_total [demo_key 2; demo_key 1]) as (r & Hr); [done| | |by rewrite Hr].
  - repeat constructor.
  - vm_compute. apply (bool_decide_unpack _). vm_compute. constructor.
Qed.

Lemma demo_built : built demo_ring.
Proof. eapply built_new; [|apply demo_newKeyring]. repeat constructor; eexists; apply demo_key_made. Qed.

Definition demo_ctx : string := ProxyCredential "hub".
Definition demo_plain : list ascii := String.list_ascii_of_string "s3cret".
Definition demo_nonces : Random := map Z_byte (seqZ 0 24).

Definition demo_sealed : string * Random :=
  match Seal (Some demo_ring) demo_nonces demo_plain demo_ctx with Ok v => v | Err _ => ("", []) end.

Lemma demo_seal : Seal (Some demo_ring) demo_nonces demo_plain demo_ctx = Ok (demo_sealed.1, demo_sealed.2).
Proof. vm_compute. reflexivity. Qed.

(** A keyring rotated twice still opens what the first sealed; a changed byte, or
    another repository's context, does not open. *)
Definition demo_rotated : Keyring :=
  match Rotate (Some demo_ring) (demo_key 3) with Ok r => r | Err _ => demo_ring end.

Lemma demo_rotates : rtc rotates demo_ring demo_rotated.
Proof.
  apply rtc_once. exists (demo_material 3), (demo_key 3). split; [apply demo_key_made|].
  unfold demo_rotated. destruct (newKeyring_total (demo_key 3 :: Keys (Some demo_ring))) as (r & Hr); [done| | |].
  - constructor; [by split|]. apply keyring_keys_ok, built_ok, demo_built.
  - vm_compute. apply (bool_decide_unpack _). vm_compute. constructor.
  - unfold Rotate. by rewrite Hr.
Qed.

Lemma sealed_secrets_open_exactly_witness :
  (∀ value plaintext, Open (Some demo_ring) value demo_ctx = Ok plaintext ↔
     Context_Validate demo_ctx = Ok tt ∧ ∃ k nonce, k ∈ Keys (Some demo_ring) ∧ length nonce = NonceSize ∧
       seal_with k nonce plaintext demo_ctx = Some value) ∧
  Open (Some demo_rotated) demo_sealed.1 demo_ctx = Ok demo_plain.
Proof.
  split.
  - intros value plaintext. exact (proj1 (sealed_secrets_open_exactly demo_ring demo_built) value demo_ctx plaintext).
  - exact (proj2 (proj2 (sealed_secrets_open_exactly demo_ring demo_built) _ _ _ _ _ demo_seal) demo_rotated demo_rotates).
Defined.

Example demo_refused :
  Open (Some demo_ring) demo_sealed.1 (ProxyCredential "quay") = Err (AuthenticationError (ActiveKeyID (Some demo_ring))) ∧
  Open (Some demo_ring) (demo_sealed.1 +:+ String "010" "") demo_ctx = Err (MalformedError SealedNotCanonical) ∧
  Open (Some demo_ring) demo_sealed.1 (ProxyCredential "") = Err (InvalidContextError ContextUnfinished) ∧
  Open None demo_sealed.1 demo_ctx = Err ErrNoKey ∧
  Redact demo_sealed.1 = "<redacted:" +:+ k_id (demo_key 2) +:+ ">" ∧ Redact "hunter2" = "<redacted>".
Proof. vm_compute. repeat split; reflexivity. Qed.

Lemma keyfile_round_trip_witness : parseKeyring (Encode (Some demo_ring)) = Ok demo_ring.
Proof. exact (keyfile_round_trip demo_ring demo_built). Defined.

Definition demo_active : Keyring := match newKeyring [demo_key 2] with Ok r => r | Err _ => demo_ring end.

Lemma demo_active_made : newKeyring [demo_key 2] = Ok demo_active.
Proof.
  unfold demo_active. destruct (newKeyring_total [demo_key 2]) as (r & Hr); [done| | |by rewrite Hr].
  - repeat constructor.
  - apply NoDup_singleton.
Qed.

Lemma demo_keys : Keys (Some demo_ring) = [demo_key 2; demo_key 1].
Proof. eapply newKeyring_spec; [|apply demo_newKeyring]. repeat constructor. Qed.

Lemma retired_keys_can_be_removed_witness :
  NeedsReseal (Some demo_ring) demo_sealed.1 = Ok false ∧
  ∀ plaintext, Open (Some demo_active) demo_sealed.1 demo_ctx = Ok plaintext ↔ Open (Some demo_ring) demo_sealed.1 demo_ctx = Ok plaintext.
Proof.
  assert (NeedsReseal (Some demo_ring) demo_sealed.1 = Ok false) as Hn.
  { exact (proj1 (retired_keys_can_be_removed demo_ring (demo_key 2) [demo_key 1] demo_active demo_sealed.1 demo_ctx
             demo_built demo_keys demo_active_made) _ _ _ demo_seal). }
  split; [exact Hn|].
  exact (proj2 (retired_keys_can_be_removed demo_ring (demo_key 2) [demo_key 1] demo_active demo_sealed.1 demo_ctx
           demo_built demo_keys demo_active_made) Hn).
Defined.

Definition demo_mac : list ascii :=
  match MAC (Some demo_ring) demo_plain (RobotSecret "r1") with Ok d => d | Err _ => [] end.

Lemma demo_mac_made : MAC (Some demo_ring) demo_plain (RobotSecret "r1") = Ok demo_mac.
Proof. vm_compute. reflexivity. Qed.

Lemma keyed_digests_verify_exactly_witness :
  VerifyMAC (Some demo_rotated) demo_plain (RobotSecret "r1") demo_mac = true ∧
  (mac_input "a:b" [] = mac_input "a:" demo_plain → False).
Proof.
  split.
  - exact (proj1 (proj2 (keyed_digests_verify_exactly demo_ring demo_built)) _ _ _ demo_mac_made demo_rotated demo_rotates).
  - vm_compute. discriminate.
Defined.

Example demo_mac_refused :
  VerifyMAC (Some demo_ring) demo_plain (RobotSecret "r2") demo_mac = false ∧
  VerifyMAC (Some demo_ring) (demo_plain ++ ["x"%char]) (RobotSecret "r1") demo_mac = false ∧
  VerifyMAC (Some demo_active) demo_plain (RobotSecret "r1") (Z_byte 0 :: tl demo_mac) = false ∧
  VerifyMAC None demo_plain (RobotSecret "r1") demo_mac = false.
Proof. vm_compute. repeat split; reflexivity. Qed.
