(* ===== verification/Files.v ===== *)
(** * Files: what the code uses of Go's os and path/filepath

    A file system is a table of names, inodes and open handles. Every call may
    fail, and a failing write may leave part of what it was given; which of these
    happens is the [choice] the environment makes, so a call is a function of the
    choice. A crash keeps the content of files that were synced and may leave
    anything in the others; changes of names are lost from some point on, no
    earlier than the last sync of a directory: the journal of the file system the
    driver is written for records them in order and commits them together. A sync
    of a file that works covers everything written to it before, also what an
    earlier sync of it failed on; a kernel that drops such pages and then reports
    the next sync as good is not modelled.

    A path is the list of its components from the root of the file system. *)
From S2P Require Import Prelude RepoName Sha2 Verify Effects.

Abbreviation path := (list string).

(** ** path/filepath, on absolute paths *)
Definition clean_step (acc : path) (part : string) : path :=
  if String.eqb part "" || String.eqb part "." then acc
  else if String.eqb part ".." then removelast acc
  else acc ++ [part].

(** [filepath.Join(root, parts...)], [root] clean. *)
Definition Join (root : path) (parts : list string) : path :=
  foldl clean_step root (parts ≫= λ part, SplitByte part "/").

Fixpoint common (a b : path) : nat :=
  match a, b with
  | x :: a, y :: b => if String.eqb x y then S (common a b) else 0
  | _, _ => 0
  end.

(** [filepath.Rel(base, target)]: no components is the path ".". *)
Definition Rel (base target : path) : path :=
  let n := common base target in replicate (length base - n) ".." ++ drop n target.

Definition Dir (p : path) : path := removelast p.

(** ** State *)
Record inode : Type := mkInode { i_mode : Z; i_data : bytes; i_dirty : bool }.

(** [f_past] are the earlier tables of names a crash may bring back. Numbers of
    handles are not used twice, and a closed handle is not used again, so closing
    leaves its entry. *)
Record FS : Type := mkFS {
  f_names : gmap path nat;
  f_past : list (gmap path nat);
  f_inodes : gmap nat inode;
  f_open : gmap nat nat;
  f_next : nat;
}.

Definition empty_fs : FS := mkFS ∅ [] ∅ ∅ 0.

Definition set_names (f : gmap path nat → gmap path nat) (s : FS) : FS :=
  mkFS (f (f_names s)) (f_names s :: f_past s) (f_inodes s) (f_open s) (f_next s).
Definition alter_inode (f : inode → inode) (i : nat) (s : FS) : FS :=
  mkFS (f_names s) (f_past s) (alter f i (f_inodes s)) (f_open s) (f_next s).

(** A new handle on an inode, and a new empty file with a handle on it. *)
Definition open_handle (i : nat) (s : FS) : nat * FS :=
  (f_next s, mkFS (f_names s) (f_past s) (f_inodes s) (<[f_next s := i]> (f_open s)) (S (f_next s))).
Definition create_file (p : path) (mode : Z) (s : FS) : nat * FS :=
  let i := f_next s in
  open_handle i (mkFS (<[p := i]> (f_names s)) (f_names s :: f_past s) (<[i := mkInode mode [] true]> (f_inodes s)) (f_open s) (S i)).

(** ** Calls *)
Inductive errno : Type := ENOENT | EEXIST | EIO.

Inductive fsop : Type → Type :=
| MkdirAll (dir : path) : fsop (result errno unit)
| OpenExcl (p : path) (mode : Z) : fsop (result errno nat)       (* O_WRONLY|O_CREATE|O_EXCL *)
| OpenAppend (p : path) : fsop (result errno nat)                (* O_WRONLY|O_APPEND *)
| OpenRead (p : path) : fsop (result errno nat)
| CreateTemp (dir : path) (prefix suffix : string) : fsop (result errno (path * nat))
| FileWrite (fd : nat) (data : bytes) : fsop (nat * option errno)
| ReadToEnd (fd : nat) : fsop (result errno bytes)
| FileStat (fd : nat) : fsop (result errno (Z * Z))              (* mode and size *)
| FileSync (fd : nat) : fsop (result errno unit)
| FileClose (fd : nat) : fsop (result errno unit)
| StatPath (p : path) : fsop (result errno (Z * Z))
| Remove (p : path) : fsop (result errno unit)
| Rename (old new : path) : fsop (result errno unit)
| Chmod (p : path) (mode : Z) : fsop (result errno unit)
| SyncDir (dir : path) : fsop (result errno unit)
| ListTree (dir : path) : fsop (result errno (list path)).

(** [Works name]: the call does what it is for; [name] is what [os.CreateTemp] puts
    in its pattern. [Breaks n]: it fails, a write after [n] bytes. *)
Inductive choice : Type := Works (name : string) | Breaks (n : nat).

Definition broken {A} (s : FS) : result errno A * FS := (Err EIO, s).

Definition with_name {A} (p : path) (s : FS) (k : nat → result errno A * FS) : result errno A * FS :=
  match f_names s !! p with None => (Err ENOENT, s) | Some i => k i end.

(** A handle is used after it was opened and before it is closed. *)
Definition handle_data (fd : nat) (s : FS) : option inode := i ← f_open s !! fd; f_inodes s !! i.

Definition file_info (x : inode) : Z * Z := (i_mode x, Z.of_nat (length (i_data x))).

Definition append_data (data : bytes) (x : inode) : inode := mkInode (i_mode x) (i_data x ++ data) true.

Definition write_handle (fd : nat) (data : bytes) (s : FS) : FS :=
  match f_open s !! fd with None => s | Some i => alter_inode (append_data data) i s end.

Definition fs_do {B} (c : choice) (e : fsop B) (s : FS) : B * FS :=
  match e in fsop B return B * FS with
  | MkdirAll _ => match c with Works _ => (Ok tt, s) | Breaks _ => broken s end
  | OpenExcl p mode =>
      match c with
      | Breaks _ => broken s
      | Works _ =>
          match f_names s !! p with
          | Some _ => (Err EEXIST, s)
          | None => let '(fd, s) := create_file p mode s in (Ok fd, s)
          end
      end
  | OpenAppend p | OpenRead p =>
      match c with
      | Breaks _ => broken s
      | Works _ => with_name p s (λ i, let '(fd, s) := open_handle i s in (Ok fd, s))
      end
  | CreateTemp dir prefix suffix =>
      match c with
      | Breaks _ => broken s
      | Works name =>
          let p := dir ++ [prefix +:+ name +:+ suffix] in
          match f_names s !! p with
          | Some _ => broken s
          | None => if ContainsByte name "/" then broken s
                    else let '(fd, s) := create_file p 384 s in (Ok (p, fd), s)
          end
      end
  | FileWrite fd data =>
      match c with
      | Works _ => ((length data, None), write_handle fd data s)
      | Breaks n => ((length (take n data), Some EIO), write_handle fd (take n data) s)
      end
  | ReadToEnd fd =>
      match c, handle_data fd s with
      | Works _, Some x => (Ok (i_data x), s)
      | _, _ => broken s
      end
  | FileStat fd =>
      match c, handle_data fd s with
      | Works _, Some x => (Ok (file_info x), s)
      | _, _ => broken s
      end
  | FileSync fd =>
      match c, f_open s !! fd with
      | Works _, Some i => (Ok tt, alter_inode (λ x, mkInode (i_mode x) (i_data x) false) i s)
      | _, _ => broken s
      end
  | FileClose fd =>
      match c with
      | Works _ => (Ok tt, s)
      | Breaks _ => broken s
      end
  | StatPath p =>
      match c with
      | Breaks _ => broken s
      | Works _ => with_name p s (λ i, match f_inodes s !! i with Some x => (Ok (file_info x), s) | None => broken s end)
      end
  | Remove p =>
      match c with
      | Breaks _ => broken s
      | Works _ => with_name p s (λ _, (Ok tt, set_names (delete p) s))
      end
  | Rename old new =>
      match c with
      | Breaks _ => broken s
      | Works _ =>
          with_name old s (λ i, (Ok tt, if decide (old = new) then s else set_names (λ m, delete old (<[new := i]> m)) s))
      end
  | Chmod p mode =>
      match c with
      | Breaks _ => broken s
      | Works _ => with_name p s (λ i, (Ok tt, alter_inode (λ x, mkInode mode (i_data x) (i_dirty x)) i s))
      end
  | SyncDir dir =>
      match c with
      | Breaks _ => broken s
      | Works _ =>
          (Ok tt, mkFS (f_names s) [] (f_inodes s) (f_open s) (f_next s))
      end
  | ListTree dir =>
      match c with
      | Breaks _ => broken s
      | Works _ => (Ok (filter (λ p, dir `prefix_of` p) (map_to_list (f_names s)).*1), s)
      end
  end.

(** ** Crashes *)
Definition crash (s s' : FS) : Prop :=
  f_open s' = ∅ ∧ f_past s' = [] ∧ f_next s ≤ f_next s' ∧ f_names s' ∈ f_names s :: f_past s ∧
  (∀ i, match f_inodes s !! i, f_inodes s' !! i with
        | Some x, Some y => i_dirty y = false ∧ (i_dirty x = false → i_data y = i_data x)
        | None, None => True
        | _, _ => False
        end).

(** ** Programs beside others

    [safe] is what holds of a program whatever choices the environment makes and
    whatever the others do between its calls, within [rely]: each of its calls is
    a change that [guar] allows, and it ends in [Q]. *)
Section safe.
Context (rely guar : FS → FS → Prop).

Fixpoint safe {A} (Q : A → FS → Prop) (p : prog fsop A) (s : FS) : Prop :=
  match p with
  | Done a => ∀ s', rely s s' → Q a s'
  | Do e k => ∀ s' c, rely s s' → guar s' (fs_do c e s').2 ∧ safe Q (k (fs_do c e s').1) (fs_do c e s').2
  end.

Context `{!Reflexive rely, !Transitive rely}.

Lemma safe_rely {A} (Q : A → FS → Prop) p s s' : rely s s' → safe Q p s → safe Q p s'.
Proof.
  intros Hr. destruct p as [a|B e k]; simpl; intros H.
  - intros s'' Hr'. apply H. by etrans.
  - intros s'' c Hr'. apply H. by etrans.
Qed.

Lemma safe_mono {A} (Q Q' : A → FS → Prop) p s : (∀ a s, Q a s → Q' a s) → safe Q p s → safe Q' p s.
Proof.
  intros HQ. revert s. induction p as [a|B e k IH]; simpl; intros s H; [auto|].
  intros s' c Hr. destruct (H s' c Hr) as [Hg Hs]. split; [done|]. by apply IH.
Qed.

Lemma safe_bind {A B} (Q : A → FS → Prop) (Q' : B → FS → Prop) p f s :
  safe Q p s → (∀ a s, Q a s → safe Q' (f a) s) → safe Q' (bind p f) s.
Proof.
  intros Hp Hf. revert s Hp. induction p as [a|C e k IH]; simpl; intros s Hp.
  - apply Hf, Hp. reflexivity.
  - intros s' c Hr. destruct (Hp s' c Hr) as [Hg Hs]. split; [done|]. by apply IH.
Qed.

Lemma safe_file_call {B C} (Q : C → FS → Prop) (e : fsop B) (k : B → prog fsop C) s :
  (∀ s' c, rely s s' → guar s' (fs_do c e s').2 ∧ safe Q (k (fs_do c e s').1) (fs_do c e s').2) →
  safe Q (bind (call e) k) s.
Proof. done. Qed.
End safe.

(** ** One program alone, up to some call *)
Inductive prog_step {A : Type} : prog fsop A * FS → prog fsop A * FS → Prop :=
| step_call B (e : fsop B) (k : B → prog fsop A) c s : prog_step (Do e k, s) (k (fs_do c e s).1, (fs_do c e s).2).

Lemma safe_during {A} (I : FS → Prop) (Q : A → FS → Prop) p s p' s' :
  safe eq (λ _ s, I s) Q p s → I s → rtc prog_step (p, s) (p', s') → I s' ∧ ∀ a, p' = Done a → Q a s'.
Proof.
  intros Hs Hi Hr. remember (p, s) as st eqn:E. remember (p', s') as st' eqn:E'. revert p s E Hs Hi.
  induction Hr as [st|st st1 st2 Hstep _ IH]; intros p s -> Hs Hi.
  - injection E' as <- <-. split; [done|]. intros a ->. by apply Hs.
  - inversion Hstep as [B e k c s0 E1 E2]. subst. destruct (Hs s c eq_refl) as [Hg Hk]. by apply (IH eq_refl _ _ eq_refl Hk).
Qed.

(** ** Many programs: each step is a call of one of them *)
Record thread : Type := mkThread { t_answer : Type; t_prog : prog fsop t_answer }.

Definition finished (t : thread) : bool := match t_prog t with Done _ => true | Do _ _ => false end.

(** ** One run, with the choices given: for examples *)
Fixpoint run_with {A} (cs : list choice) (p : prog fsop A) (s : FS) : option (A * FS) :=
  match p, cs with
  | Done a, _ => Some (a, s)
  | Do e k, c :: cs => run_with cs (k (fs_do c e s).1) (fs_do c e s).2
  | Do _ _, [] => None
  end.
