(* ===== verification/FsStore.v ===== *)
(** * The file-system blob driver (src/internal/blob/fs)

    Blobs are files named after their digest; content arrives in a staging file,
    is verified as it is written, synced, made read-only and renamed into place.
    A method is a program of file calls. Random names are an argument: [None] is a
    source of randomness that failed. Methods that consume a reader return an
    option, [None] for a reader whose [Read] panics or never returns. *)
From S2P Require Import Prelude RepoName Digest Sha2 Verify Effects Files.

Inductive FsError : Type :=
| FsBlob (e : BlobError)
| FsIO (what : string) (e : errno)
| FsRandom.

Definition blobsDir : string := "blobs".
Definition uploadsDir : string := "uploads".
Definition quarantineDir : string := "quarantine".
Definition stagingMode : Z := 420.               (* 0o644 *)
Definition committedMode : Z := 292.             (* 0o444 *)

Record Store : Type := mkStore { st_root : path; st_onCorrupt : bool }.

(** [filepath.Abs]; [None] when the working directory cannot be found. *)
Definition Abs (cwd : option path) (p : string) : option path :=
  if HasPrefix p "/" then Some (Join [] [p])
  else match cwd with None => None | Some dir => Some (Join dir [p]) end.

Fixpoint make_dirs (root : path) (dirs : list string) : prog fsop (result FsError unit) :=
  match dirs with
  | [] => Done (Ok tt)
  | dir :: dirs =>
      fx! r := call (MkdirAll (Join root [dir])) in
      match r with Err e => Done (Err (FsIO "create" e)) | Ok _ => make_dirs root dirs end
  end.

Definition New (cwd : option path) (root : string) (onCorrupt : bool) : prog fsop (result FsError Store) :=
  if String.eqb root "" then Done (Err (FsBlob (BlobInvalid "root" "must not be empty")))
  else match Abs cwd root with
  | None => Done (Err (FsIO "resolve root" EIO))
  | Some root =>
      fxE! _ := make_dirs root [blobsDir; uploadsDir; quarantineDir] in
      Done (Ok (mkStore root onCorrupt))
  end.

(** ** Paths *)
Definition confine (s : Store) (parts : list string) : result BlobError path :=
  let p := Join (st_root s) parts in
  match Rel (st_root s) p with
  | first :: _ => if String.eqb first ".." then Err (BlobInvalid "path" "resolves outside the store root") else Ok p
  | [] => Ok p
  end.

Definition pathFor (s : Store) (base digest : string) : result BlobError path :=
  match Digest_Validate digest with
  | Err reason => Err (BlobInvalidDigest reason)
  | Ok _ =>
      let hex := Digest_Hex digest in
      confine s [base; Digest_Algorithm digest; String.substring 0 2 hex; hex]
  end.

Definition blobPath (s : Store) (digest : string) : result BlobError path := pathFor s blobsDir digest.
Definition quarantinePath (s : Store) (digest : string) : result BlobError path := pathFor s quarantineDir digest.

Definition digestFromPath (root p : path) : option string :=
  match Rel root p with
  | [algorithm; prefix; name] =>
      match ParseDigest (algorithm +:+ ":" +:+ name) with
      | Err _ => None
      | Ok digest => if String.eqb prefix (String.substring 0 2 name) then Some digest else None
      end
  | _ => None
  end.

Definition randomName (random : option bytes) : result FsError string :=
  match random with
  | None => Err FsRandom
  | Some raw => Ok ("staging-" +:+ hex_bytes raw)
  end.

(** ** Copying into a file *)
Section copying.
Context {R : Type} `{!Reader R}.

(** [io.Copy] into a file: what was written, the error, the reader afterwards. *)
Fixpoint copy_file (fuel fd : nat) (written : bytes) (src : R) : prog fsop (option (bytes * option FsError * R)) :=
  match fuel with
  | O => Done None
  | S fuel =>
      match rd_read copyBuffer src with
      | None => Done None
      | Some (c, e, src) =>
          let next written :=
            match e with
            | None => copy_file fuel fd written src
            | Some EOF => Done (Some (written, None, src))
            | Some (Failed e) => Done (Some (written, Some (FsBlob e), src))
            end in
          match c with
          | [] => next written
          | _ =>
              fx! w := call (FileWrite fd c) in
              match w with
              | (n, Some e) => Done (Some (written ++ take n c, Some (FsIO "write" e), src))
              | (_, None) => next (written ++ c)
              end
          end
      end
  end.

Definition io_CopyFile (fd : nat) (src : R) : prog fsop (option (bytes * option FsError * R)) :=
  copy_file (S (rd_left src)) fd [] src.

(** [blob.Copy] into a file and the verifier beside it. *)
Definition CopyFile (fd : nat) (src : R) (expected : string) : prog fsop (option (result FsError unit * R)) :=
  match NewVerifier expected with
  | Err e => Done (Some (Err (FsBlob e), src))
  | Ok verifier =>
      fx! copied := io_CopyFile fd src in
      match copied with
      | None => Done None
      | Some (_, Some e, src) => Done (Some (Err e, src))
      | Some (written, None, src) =>
          Done (Some (result_map_err FsBlob (Verifier_Verify (Verifier_Write written verifier)), src))
      end
  end.

(** ** Put *)
Definition stage (s : Store) (random : option bytes) (r : R) (expected : string)
    : prog fsop (option (result FsError path * R)) :=
  match randomName random with
  | Err e => Done (Some (Err e, r))
  | Ok name =>
      match confine s [uploadsDir; name] with
      | Err e => Done (Some (Err (FsBlob e), r))
      | Ok p =>
          fx! opened := call (OpenExcl p stagingMode) in
          match opened with
          | Err e => Done (Some (Err (FsIO "create staging file" e), r))
          | Ok fd =>
              fx! copied := CopyFile fd r expected in
              match copied with
              | None => Done None
              | Some (Err e, r) =>
                  fx! _ := call (FileClose fd) in fx! _ := call (Remove p) in Done (Some (Err e, r))
              | Some (Ok _, r) =>
                  fx! synced := call (FileSync fd) in
                  match synced with
                  | Err e =>
                      fx! _ := call (FileClose fd) in fx! _ := call (Remove p) in
                      Done (Some (Err (FsIO "sync staging file" e), r))
                  | Ok _ =>
                      fx! closed := call (FileClose fd) in
                      match closed with
                      | Err e => fx! _ := call (Remove p) in Done (Some (Err (FsIO "close staging file" e), r))
                      | Ok _ => Done (Some (Ok p, r))
                      end
                  end
              end
          end
      end
  end.
End copying.

Definition syncDir (dir : path) : prog fsop (result FsError unit) :=
  fx! r := call (SyncDir dir) in Done (result_map_err (FsIO "sync directory") r).

Definition commit (staging target : path) : prog fsop (result FsError unit) :=
  fx! there := call (StatPath target) in
  match there with
  | Ok _ => Done (Ok tt)
  | Err ENOENT =>
      fx! made := call (MkdirAll (Dir target)) in
      match made with
      | Err e => Done (Err (FsIO "create blob directory" e))
      | Ok _ =>
          fx! moded := call (Chmod staging committedMode) in
          match moded with
          | Err e => Done (Err (FsIO "set blob mode" e))
          | Ok _ =>
              fx! moved := call (Rename staging target) in
              match moved with
              | Err e =>
                  fx! there := call (StatPath target) in
                  match there with Ok _ => Done (Ok tt) | Err _ => Done (Err (FsIO "commit blob" e)) end
              | Ok _ => syncDir (Dir target)
              end
          end
      end
  | Err e => Done (Err (FsIO "stat target" e))
  end.

Definition Put {R} `{!Reader R} (s : Store) (ctx : bool) (random : option bytes) (expected : string) (r : R)
    : prog fsop (option (result FsError unit * R)) :=
  if ctx then Done (Some (Err (FsBlob BlobCanceled), r))
  else match blobPath s expected with
  | Err e => Done (Some (Err (FsBlob e), r))
  | Ok target =>
      fx! staged := stage s random r expected in
      match staged with
      | None => Done None
      | Some (Err e, r) => Done (Some (Err e, r))
      | Some (Ok staging, r) =>
          fx! done := commit staging target in
          fx! _ := call (Remove staging) in
          Done (Some (done, r))
      end
  end.

(** ** Get, Stat, Delete *)

(** An open blob: the verified reader runs over the bytes of the handle. *)
Definition Get (s : Store) (ctx : bool) (digest : string) : prog fsop (result FsError (nat * Descriptor)) :=
  if ctx then Done (Err (FsBlob BlobCanceled))
  else match blobPath s digest with
  | Err e => Done (Err (FsBlob e))
  | Ok p =>
      fx! opened := call (OpenRead p) in
      match opened with
      | Err ENOENT => Done (Err (FsBlob (BlobNotFound "blob" digest)))
      | Err e => Done (Err (FsIO "open blob" e))
      | Ok fd =>
          fx! info := call (FileStat fd) in
          match info with
          | Err e => fx! _ := call (FileClose fd) in Done (Err (FsIO "stat blob" e))
          | Ok (_, size) =>
              match NewVerifier digest with
              | Err e => fx! _ := call (FileClose fd) in Done (Err (FsBlob e))
              | Ok _ => Done (Ok (fd, mkDescriptor digest size))
              end
          end
      end
  end.

Definition Stat (s : Store) (ctx : bool) (digest : string) : prog fsop (result FsError Descriptor) :=
  if ctx then Done (Err (FsBlob BlobCanceled))
  else match blobPath s digest with
  | Err e => Done (Err (FsBlob e))
  | Ok p =>
      fx! info := call (StatPath p) in
      match info with
      | Err ENOENT => Done (Err (FsBlob (BlobNotFound "blob" digest)))
      | Err e => Done (Err (FsIO "stat blob" e))
      | Ok (_, size) => Done (Ok (mkDescriptor digest size))
      end
  end.

Definition Delete (s : Store) (ctx : bool) (digest : string) : prog fsop (result FsError unit) :=
  if ctx then Done (Err (FsBlob BlobCanceled))
  else match blobPath s digest with
  | Err e => Done (Err (FsBlob e))
  | Ok p =>
      fx! removed := call (Remove p) in
      match removed with
      | Err ENOENT => Done (Err (FsBlob (BlobNotFound "blob" digest)))
      | Err e => Done (Err (FsIO "delete blob" e))
      | Ok _ => Done (Ok tt)
      end
  end.

(** ** Quarantine (quarantine.go) *)
Definition quarantine (s : Store) (digest : string) : prog fsop (result FsError unit) :=
  match blobPath s digest, quarantinePath s digest with
  | Err e, _ | _, Err e => Done (Err (FsBlob e))
  | Ok source, Ok target =>
      fx! made := call (MkdirAll (Dir target)) in
      match made with
      | Err e => Done (Err (FsIO "create quarantine directory" e))
      | Ok _ =>
          fx! cleared := call (Remove target) in
          match cleared with
          | Err EEXIST => Done (Err (FsIO "clear quarantine slot" EEXIST))
          | Err EIO => Done (Err (FsIO "clear quarantine slot" EIO))
          | _ =>
              fx! moved := call (Rename source target) in
              match moved with
              | Err ENOENT => Done (Ok tt)
              | Err e => Done (Err (FsIO "quarantine blob" e))
              | Ok _ => syncDir (Dir target)
              end
          end
      end
  end.

(** [Close] of the reader [Get] returned: [corrupt] is the mismatch its hook
    recorded. The answer is the errors joined and what the operator's hook was
    called with. *)
Definition Reader_Close (s : Store) (fd : nat) (desc : Descriptor) (corrupt : option BlobError)
    : prog fsop (list FsError * option (list FsError)) :=
  fx! closed := call (FileClose fd) in
  let err := match closed with Err e => [FsIO "close" e] | Ok _ => [] end in
  match corrupt with
  | None => Done (err, None)
  | Some mismatch =>
      fx! moved := quarantine s (ds_digest desc) in
      let qerr := match moved with Err e => [e] | Ok _ => [] end in
      Done (err ++ qerr, if st_onCorrupt s then Some (FsBlob mismatch :: qerr) else None)
  end.

(** ** Walk *)
Fixpoint walk_files {A} (s : Store) (cancelled : nat → bool) (fn : A → Descriptor → result FsError A)
    (n : nat) (files : list path) (a : A) : prog fsop (result FsError A) :=
  match files with
  | [] => Done (Ok a)
  | p :: files =>
      if cancelled n then Done (Err (FsBlob BlobCanceled))
      else match digestFromPath (Join (st_root s) [blobsDir]) p with
      | None => walk_files s cancelled fn (S n) files a
      | Some digest =>
          fx! info := call (StatPath p) in
          match info with
          | Err ENOENT => walk_files s cancelled fn (S n) files a
          | Err e => Done (Err (FsIO "stat" e))
          | Ok (_, size) =>
              match fn a (mkDescriptor digest size) with
              | Err e => Done (Err e)
              | Ok a => walk_files s cancelled fn (S n) files a
              end
          end
      end
  end.

Definition Walk {A} (s : Store) (ctx : bool) (cancelled : nat → bool) (fn : A → Descriptor → result FsError A) (a : A)
    : prog fsop (result FsError A) :=
  if ctx then Done (Err (FsBlob BlobCanceled))
  else
    fx! files := call (ListTree (Join (st_root s) [blobsDir])) in
    match files with
    | Err e => Done (Err (FsIO "walk" e))
    | Ok files => walk_files s cancelled fn 0 files a
    end.

(** ** Upload sessions (upload.go) *)
Record session : Type := mkSession { u_id : string; u_path : path; u_offset : Z }.

Definition uploadPath (s : Store) (id : string) : result BlobError path :=
  if ValidateUploadID id then confine s [uploadsDir; id] else Err (BlobInvalid "id" "malformed").

Definition CreateUpload (s : Store) (ctx : bool) (id : string) : prog fsop (result FsError session) :=
  if ctx then Done (Err (FsBlob BlobCanceled))
  else match uploadPath s id with
  | Err e => Done (Err (FsBlob e))
  | Ok p =>
      fx! opened := call (OpenExcl p stagingMode) in
      match opened with
      | Err EEXIST => Done (Err (FsBlob (BlobInvalid "id" "upload session already exists")))
      | Err e => Done (Err (FsIO "create upload session" e))
      | Ok fd =>
          fx! closed := call (FileClose fd) in
          match closed with
          | Err e => Done (Err (FsIO "create upload session" e))
          | Ok _ => Done (Ok (mkSession id p 0))
          end
      end
  end.

Definition OpenUpload (s : Store) (ctx : bool) (id : string) : prog fsop (result FsError session) :=
  if ctx then Done (Err (FsBlob BlobCanceled))
  else match uploadPath s id with
  | Err e => Done (Err (FsBlob e))
  | Ok p =>
      fx! info := call (StatPath p) in
      match info with
      | Err ENOENT => Done (Err (FsBlob (BlobNotFound "upload" id)))
      | Err e => Done (Err (FsIO "open upload session" e))
      | Ok (_, size) => Done (Ok (mkSession id p size))
      end
  end.

Definition set_offset (n : Z) (u : session) : session := mkSession (u_id u) (u_path u) n.

(** The new offset, the error beside it, and the session. *)
Definition Write {R} `{!Reader R} (ctx : bool) (r : R) (u : session) : prog fsop (option (Z * option FsError * session)) :=
  if ctx then Done (Some (0%Z, Some (FsBlob BlobCanceled), u))
  else
    fx! opened := call (OpenAppend (u_path u)) in
    match opened with
    | Err ENOENT => Done (Some (0%Z, Some (FsBlob (BlobNotFound "upload" (u_id u))), u))
    | Err e => Done (Some (u_offset u, Some (FsIO "open upload session" e), u))
    | Ok fd =>
        fx! copied := io_CopyFile fd r in
        match copied with
        | None => Done None
        | Some (written, copyErr, _) =>
            let offset := add64 (u_offset u) (Z.of_nat (length written)) in
            fx! synced := call (FileSync fd) in
            let copyErr :=
              match synced, copyErr with Err e, None => Some (FsIO "sync upload session" e) | _, _ => copyErr end in
            fx! _ := call (FileClose fd) in
            Done (Some (offset, copyErr, set_offset offset u))
        end
    end.

(** The content is read to its end, which for a file that only grows is its
    content when the end was met. *)
Definition Commit (s : Store) (ctx : bool) (expected : string) (u : session) : prog fsop (result FsError Descriptor * session) :=
  if ctx then Done (Err (FsBlob BlobCanceled), u)
  else match blobPath s expected with
  | Err e => Done (Err (FsBlob e), u)
  | Ok target =>
      fx! opened := call (OpenRead (u_path u)) in
      match opened with
      | Err ENOENT => Done (Err (FsBlob (BlobNotFound "upload" (u_id u))), u)
      | Err e => Done (Err (FsIO "open upload session" e), u)
      | Ok fd =>
          fx! content := match NewVerifier expected with
                         | Err e => Done (Err (FsBlob e))
                         | Ok verifier =>
                             fx! data := call (ReadToEnd fd) in
                             Done (match data with
                                   | Err e => Err (FsIO "read" e)
                                   | Ok data =>
                                       match Verifier_Verify (Verifier_Write data verifier) with
                                       | Err e => Err (FsBlob e)
                                       | Ok _ => Ok data
                                       end
                                   end)
                         end in
          fx! closed := call (FileClose fd) in
          match content, closed with
          | Err e, _ => fx! _ := call (Remove (u_path u)) in Done (Err e, u)
          | Ok _, Err e => fx! _ := call (Remove (u_path u)) in Done (Err (FsIO "close upload session" e), u)
          | Ok data, Ok _ =>
              fx! done := commit (u_path u) target in
              match done with
              | Err e => Done (Err e, u)
              | Ok _ =>
                  fx! _ := call (Remove (u_path u)) in
                  Done (Ok (mkDescriptor expected (int64 (Z.of_nat (length data)))), set_offset 0 u)
              end
          end
      end
  end.

Definition Cancel (ctx : bool) (u : session) : prog fsop (result FsError unit * session) :=
  if ctx then Done (Err (FsBlob BlobCanceled), u)
  else
    fx! removed := call (Remove (u_path u)) in
    match removed with
    | Err EEXIST => Done (Err (FsIO "cancel upload session" EEXIST), u)
    | Err EIO => Done (Err (FsIO "cancel upload session" EIO), u)
    | _ => Done (Ok tt, set_offset 0 u)
    end.
