(* ===== verification/FsStoreSpec.v ===== *)
(** * The file-system driver keeps blobs verified

    Where files live: digests and their paths correspond one to one, no path
    leaves the root of the store. What files hold: at every instant, whatever
    programs run beside each other and whatever calls fail, and after a crash at
    any instant, what is named after a digest has that digest, as long as no two
    programs work on one staging file or upload session at a time. *)
From S2P Require Import Prelude RepoName Digest Sha2 Verify VerifySpec Effects Files FsStore.

(** ** Paths *)
Definition simple (part : string) : Prop :=
  ContainsByte part "/" = false ∧ part ≠ "" ∧ part ≠ "." ∧ part ≠ "..".

Lemma Join_simple root parts : Forall simple parts → Join root parts = root ++ parts.
Proof.
  unfold Join. revert root. induction parts as [|p parts IH]; intros root Hp; [by rewrite app_nil_r|].
  apply Forall_cons in Hp as [(Hc & H1 & H2 & H3) Hps]. csimpl. rewrite SplitByte_none by done. cbn [app foldl].
  rewrite IH by done. unfold clean_step.
  destruct (String.eqb_spec p ""); [done|]. destruct (String.eqb_spec p "."); [done|]. cbn [orb].
  destruct (String.eqb_spec p ".."); [done|]. by rewrite <- app_assoc.
Qed.

Lemma common_app root p : common root (root ++ p) = length root.
Proof. induction root as [|x root IH]; [by destruct p|]. simpl. by rewrite String.eqb_refl, IH. Qed.

Lemma Rel_app root p : Rel root (root ++ p) = p.
Proof. unfold Rel. by rewrite common_app, Nat.sub_diag, drop_app_length. Qed.

Lemma common_le a b : common a b ≤ length a.
Proof. revert b. induction a as [|x a IH]; intros [|y b]; simpl; [lia..|]. destruct (String.eqb x y); [|lia]. specialize (IH b). lia. Qed.

Lemma common_take a b : take (common a b) a = take (common a b) b.
Proof.
  revert b. induction a as [|x a IH]; intros [|y b]; simpl; [done..|].
  destruct (String.eqb_spec x y) as [->|]; [|done]. simpl. by rewrite IH.
Qed.

Lemma confine_simple s parts : Forall simple parts → confine s parts = Ok (st_root s ++ parts).
Proof.
  intros Hp. unfold confine. rewrite Join_simple, Rel_app by done.
  destruct parts as [|p parts]; [done|]. apply Forall_cons in Hp as [(_ & _ & _ & Hd) _].
  by destruct (String.eqb_spec p "..").
Qed.

(** Nothing [confine] returns is outside the root. *)
Lemma confine_inside s parts p : confine s parts = Ok p → st_root s `prefix_of` p.
Proof.
  unfold confine, Rel. set (q := Join (st_root s) parts). set (n := common (st_root s) q).
  pose proof (common_le (st_root s) q) as Hle. fold n in Hle.
  destruct (length (st_root s) - n) as [|k] eqn:Hk; [|done]. cbn [replicate app].
  assert (st_root s `prefix_of` q) as Hpre.
  { exists (drop n q). pose proof (common_take (st_root s) q) as Ht. fold n in Ht.
    rewrite (take_ge (st_root s)) in Ht by lia. rewrite Ht at 1. by rewrite take_drop. }
  destruct (drop n q); [by intros [= <-]|]. destruct (String.eqb _ _); [done|]. by intros [= <-].
Qed.

Lemma hex_simple hex : all_bytes isLowerHex hex = true → hex ≠ "" → simple hex.
Proof.
  intros Hb Hne. repeat split; [by apply (all_bytes_contains isLowerHex)|exact Hne|..]; intros ->; by vm_compute in Hb.
Qed.

Lemma digest_parts d : Digest_Validate d = Ok tt →
  ∃ n, digest_form d (Digest_Algorithm d) (Digest_Hex d) n ∧
    Forall simple [Digest_Algorithm d; String.substring 0 2 (Digest_Hex d); Digest_Hex d].
Proof.
  unfold Digest_Validate. intros H. destruct (proj1 (ParseDigest_ok d)) as (a & h & n & Hf).
  { by destruct (ParseDigest d). }
  assert (Digest_Algorithm d = a ∧ Digest_Hex d = h) as [-> ->].
  { unfold Digest_Algorithm, Digest_Hex. by rewrite (digest_form_cut _ _ _ _ Hf). }
  exists n. split; [done|]. destruct Hf as (_ & Ha & Hl & Hh).
  assert (String.length h ≠ 0 ∧ String.length h ≠ 1) as [H0 H1].
  { assert (n = 64 ∨ n = 128) as Hn by (unfold algorithms in Ha; repeat case_match; simplify_eq; auto). lia. }
  assert (∃ x y t, h = String x (String y t)) as (x & y & t & ->).
  { destruct h as [|x [|y t]]; [done..|]. by exists x, y, t. }
  assert (simple a) as Hsa.
  { unfold algorithms in Ha. destruct (String.eqb_spec a SHA256) as [->|]; [by vm_compute|].
    destruct (String.eqb_spec a SHA512) as [->|]; [by vm_compute|done]. }
  cbn [all_bytes] in Hh. apply andb_true_iff in Hh as [Hx [Hy Ht]%andb_true_iff].
  apply Forall_cons; split; [exact Hsa|]. apply Forall_cons; split; [|apply Forall_singleton]; apply hex_simple; try done.
  - cbn. rewrite Hx, Hy. by destruct t.
  - cbn. by rewrite Hx, Hy, Ht.
Qed.

Lemma pathFor_valid s base d : simple base → Digest_Validate d = Ok tt →
  pathFor s base d = Ok (st_root s ++ [base; Digest_Algorithm d; String.substring 0 2 (Digest_Hex d); Digest_Hex d]).
Proof.
  intros Hb Hd. unfold pathFor. rewrite Hd. destruct (digest_parts d Hd) as (n & _ & Hs).
  apply confine_simple. by constructor.
Qed.

Lemma base_simple : simple blobsDir ∧ simple uploadsDir ∧ simple quarantineDir.
Proof. by vm_compute. Qed.

Lemma blobPath_iff s d p : blobPath s d = Ok p ↔
  Digest_Validate d = Ok tt ∧ p = st_root s ++ [blobsDir; Digest_Algorithm d; String.substring 0 2 (Digest_Hex d); Digest_Hex d].
Proof.
  unfold blobPath. destruct (Digest_Validate d) as [[]|] eqn:Hd.
  - rewrite pathFor_valid by (done || apply base_simple). naive_solver.
  - unfold pathFor. rewrite Hd. naive_solver.
Qed.

Lemma blobPath_inj s d d' p : blobPath s d = Ok p → blobPath s d' = Ok p → d = d'.
Proof.
  rewrite !blobPath_iff. intros [Hd ->] [Hd' Heq]. apply app_inv_head in Heq. injection Heq as Ha _ Hh.
  destruct (digest_parts d Hd) as (n & (Hf & _) & _). destruct (digest_parts d' Hd') as (n' & (Hf' & _) & _).
  rewrite Hf, Hf'. by rewrite Ha, Hh.
Qed.

Lemma Validate_Parse d : Digest_Validate d = Ok tt → ParseDigest d = Ok d.
Proof.
  unfold Digest_Validate, ParseDigest. destruct (Cut d ":") as [[a h] [|]]; [|done]. simpl.
  destruct (algorithms a); [|done]. destruct (_ =? _); [|done]. by destruct (all_bytes isLowerHex h).
Qed.

(** The part before a colon has none when the whole is a digest. *)
Lemma algorithm_of_colon a name a' h n : digest_form (a +:+ ":" +:+ name) a' h n → ContainsByte a ":" = false.
Proof.
  intros Hf. pose proof (digest_form_cut _ _ _ _ Hf) as Hx. pose proof (Cut_spec a ":") as Hcut.
  destruct (Cut a ":") as [[b aft] [|]]; [|by destruct Hcut as (_ & _ & ?)]. destruct Hcut as [-> Hb].
  rewrite str_app_assoc in Hx. rewrite str_app_cons in Hx. rewrite Cut_app in Hx by done. injection Hx as <- <-.
  destruct Hf as (_ & _ & _ & Hh). apply (all_bytes_contains _ _ ":") in Hh; [|done].
  rewrite !ContainsByte_app in Hh. simpl in Hh. by rewrite orb_true_r in Hh.
Qed.

(** The layout is a bijection confined to the root. Every valid digest has one
    path, inside the store's root, different for different digests; walking the
    directory turns that path back into the digest, and a file anywhere else in it
    into nothing. *)
Theorem layout_round_trip s d p :
  (∀ base parts q, confine s (base :: parts) = Ok q → st_root s `prefix_of` q) ∧
  (blobPath s d = Ok p → digestFromPath (Join (st_root s) [blobsDir]) p = Some d) ∧
  (digestFromPath (Join (st_root s) [blobsDir]) p = Some d → Join (st_root s) [blobsDir] `prefix_of` p → blobPath s d = Ok p) ∧
  (∀ d', blobPath s d = Ok p → blobPath s d' = Ok p → d = d').
Proof.
  rewrite Join_simple by (constructor; [apply base_simple|done]). split_and!.
  - intros base parts q. apply confine_inside.
  - rewrite blobPath_iff. intros [Hd ->]. unfold digestFromPath.
    replace (st_root s ++ [blobsDir; Digest_Algorithm d; String.substring 0 2 (Digest_Hex d); Digest_Hex d])
      with ((st_root s ++ [blobsDir]) ++ [Digest_Algorithm d; String.substring 0 2 (Digest_Hex d); Digest_Hex d]) by by rewrite <- app_assoc.
    rewrite Rel_app. destruct (digest_parts d Hd) as (n & (Hf & _) & _). rewrite <- Hf, Validate_Parse by done.
    by rewrite String.eqb_refl.
  - intros Hp [rest ->]. unfold digestFromPath in Hp. rewrite Rel_app in Hp.
    destruct rest as [|a [|pre [|name [|? ?]]]]; try done.
    destruct (ParseDigest (a +:+ ":" +:+ name)) as [dd|] eqn:Hpd; [|done].
    destruct (String.eqb_spec pre (String.substring 0 2 name)) as [->|]; [|done]. injection Hp as ->.
    assert (d = a +:+ ":" +:+ name ∧ Digest_Validate (a +:+ ":" +:+ name) = Ok tt) as [-> Hv].
    { unfold Digest_Validate. rewrite Hpd. split; [|done]. unfold ParseDigest in Hpd. by repeat case_match; simplify_eq. }
    destruct (proj1 (ParseDigest_ok (a +:+ ":" +:+ name))) as (a' & h' & n & Hf); [by rewrite Hpd|].
    assert (Cut (a +:+ ":" +:+ name) ":" = (a, name, true)) as Hcut by (apply Cut_app; by eapply algorithm_of_colon).
    apply blobPath_iff. split; [done|]. unfold Digest_Algorithm, Digest_Hex. by rewrite Hcut, <- app_assoc.
  - intros d'. apply blobPath_inj.
Qed.

(** ** What is kept of the files

    [may_name] counts the names a crash may bring back. A file in the uploads
    directory has no other name, so only its owner can reach it. *)
Definition may_name (s : FS) (p : path) (i : nat) : Prop := ∃ m, m ∈ f_names s :: f_past s ∧ m !! p = Some i.

Lemma may_name_now s p i : f_names s !! p = Some i → may_name s p i.
Proof. intros H. exists (f_names s). split; [by left|done]. Qed.

Section invariant.
Context (st : Store).

Definition in_uploads (p : path) : Prop := ∃ name, p = st_root st ++ [uploadsDir; name].

Lemma blob_not_upload d p : blobPath st d = Ok p → ¬ in_uploads p.
Proof. intros [_ ->]%blobPath_iff [name H%app_inv_head]. done. Qed.

Lemma quarantine_path d p : quarantinePath st d = Ok p → ¬ in_uploads p ∧ ∀ d', blobPath st d' ≠ Ok p.
Proof.
  unfold quarantinePath. destruct (Digest_Validate d) as [[]|] eqn:Hd.
  - rewrite pathFor_valid by (done || apply base_simple). intros [= <-]. split.
    + intros [name H%app_inv_head]. done.
    + intros d' [_ H%app_inv_head]%blobPath_iff. done.
  - unfold pathFor. by rewrite Hd.
Qed.

Record fs_inv (s : FS) : Prop := {
  inv_fresh : ∀ i, f_next s ≤ i → f_inodes s !! i = None ∧ f_open s !! i = None;
  inv_named : ∀ p i, may_name s p i → is_Some (f_inodes s !! i);
  inv_handle : ∀ fd i, f_open s !! fd = Some i → is_Some (f_inodes s !! i);
  inv_alone : ∀ p i q, in_uploads p → f_names s !! p = Some i → may_name s q i → q = p;
  inv_alone_past : ∀ m p i q, m ∈ f_past s → in_uploads p → m !! p = Some i → m !! q = Some i → q = p;
  inv_blobs : ∀ d p i, blobPath st d = Ok p → may_name s p i →
    ∃ x, f_inodes s !! i = Some x ∧ hashes_to d (i_data x) ∧ i_dirty x = false;
}.

(** The blob a reader of the store would find. *)
Definition blob_at (s : FS) (d : string) : option bytes :=
  match blobPath st d with
  | Err _ => None
  | Ok p => i ← f_names s !! p; i_data <$> f_inodes s !! i
  end.

Lemma inv_blob_at s d content : fs_inv s → blob_at s d = Some content → hashes_to d content.
Proof.
  intros Hi. unfold blob_at. destruct (blobPath st d) as [p|] eqn:Hp; [|done].
  destruct (f_names s !! p) as [i|] eqn:Hn; [|done]. simpl. intros (x & Hx & ->)%fmap_Some.
  destruct (inv_blobs s Hi d p i Hp (may_name_now _ _ _ Hn)) as (y & Hy & Hh & _). by simplify_eq.
Qed.

(** A crash at any instant leaves a store that is as good. *)
Lemma crash_inv s s' : fs_inv s → crash s s' → fs_inv s'.
Proof.
  intros Hi (Ho & Hp & Hnext & Hn & Hd).
  assert (∀ p i, may_name s' p i → f_names s' !! p = Some i) as Hnow.
  { intros p i (m & Hm & Hl). rewrite Hp in Hm. apply list_elem_of_singleton in Hm as ->. done. }
  assert (∀ p i, may_name s' p i → may_name s p i) as Hwas.
  { intros p i Hm. exists (f_names s'). split; [done|by apply Hnow]. }
  assert (∀ i, is_Some (f_inodes s !! i) ↔ is_Some (f_inodes s' !! i)) as Hsome.
  { intros i. specialize (Hd i). destruct (f_inodes s !! i), (f_inodes s' !! i); try done; split; intros; eauto. }
  split.
  - intros i Hle. rewrite Ho, lookup_empty. split; [|done]. apply eq_None_not_Some. rewrite <- Hsome, <- eq_None_not_Some.
    apply (inv_fresh s Hi). lia.
  - intros p i Hm. apply Hsome, (inv_named s Hi p). by apply Hwas.
  - intros fd i. by rewrite Ho, lookup_empty.
  - intros p i q Hup H1 H2%Hnow. apply elem_of_cons in Hn as [Hn|Hn].
    + rewrite Hn in *. eapply (inv_alone s Hi); [done|exact H1|]. by apply may_name_now.
    + by eapply (inv_alone_past s Hi).
  - intros m p i q Hm. rewrite Hp in Hm. by apply elem_of_nil in Hm.
  - intros d p i Hb Hm%Hwas. destruct (inv_blobs s Hi d p i Hb Hm) as (x & Hx & Hh & Hdirty). specialize (Hd i).
    rewrite Hx in Hd. destruct (f_inodes s' !! i) as [y|]; [|done]. destruct Hd as [Hy Hdata]. exists y.
    split_and!; [done| |done]. by rewrite Hdata.
Qed.

(** ** What others leave to the owner of a file, and what a program leaves to them *)
Record owner_rely (p : path) (s s' : FS) : Prop := {
  rl_inv : fs_inv s → fs_inv s';
  rl_name : f_names s' !! p = f_names s !! p;
  rl_data : ∀ i, f_names s !! p = Some i → f_inodes s' !! i = f_inodes s !! i;
  rl_open : ∀ fd i, f_open s !! fd = Some i → f_open s' !! fd = Some i;
}.

Definition rely_of (own : option path) (s s' : FS) : Prop :=
  match own with
  | Some p => owner_rely p s s'
  | None => (fs_inv s → fs_inv s') ∧ ∀ fd i, f_open s !! fd = Some i → f_open s' !! fd = Some i
  end.

Definition guar_of (own : option path) (s s' : FS) : Prop :=
  fs_inv s → fs_inv s' ∧ (∀ fd i, f_open s !! fd = Some i → f_open s' !! fd = Some i) ∧
    ∀ q, in_uploads q → own ≠ Some q → owner_rely q s s'.

#[export] Instance rely_of_refl own : Reflexive (rely_of own).
Proof. intros s. destruct own; by split. Qed.

#[export] Instance rely_of_trans own : Transitive (rely_of own).
Proof.
  intros s1 s2 s3. destruct own as [p|]; simpl; [|naive_solver].
  intros [H1 H2 H3 H4] [J1 J2 J3 J4]. split; [auto|congruence| |auto].
  intros i Hi. rewrite J3, H3; [done..|]. by rewrite H2.
Qed.

Lemma rely_inv own s s' : rely_of own s s' → fs_inv s → fs_inv s'.
Proof. destruct own; simpl; [by intros []|by intros []]. Qed.

Lemma rely_open own s s' fd i : rely_of own s s' → f_open s !! fd = Some i → f_open s' !! fd = Some i.
Proof. destruct own; simpl; [intros []; auto|intros []; auto]. Qed.

(** One call's effect on the others: it keeps their names, reuses no inode of
    theirs, and changes only files of its owner. *)
Lemma guar_intro own s s' :
  (fs_inv s → fs_inv s') →
  (∀ fd i, f_open s !! fd = Some i → f_open s' !! fd = Some i) →
  (∀ q, in_uploads q → own ≠ Some q → f_names s' !! q = f_names s !! q) →
  (∀ i, f_inodes s' !! i = f_inodes s !! i ∨ f_inodes s !! i = None ∨ ∃ p, own = Some p ∧ f_names s !! p = Some i) →
  guar_of own s s'.
Proof.
  intros Hinv Hopen Hnames Hdata Hi. split_and!; [auto|done|]. intros q Hq Hne. split; [auto|auto| |done].
  intros i Hn. destruct (Hdata i) as [H|[H|(p & -> & Hp)]]; [done| |].
  - apply may_name_now in Hn. apply (inv_named s Hi) in Hn as [x Hx]. congruence.
  - destruct Hne. f_equal. eapply (inv_alone s Hi q i p); [done..|]. by apply may_name_now.
Qed.

(** *** Calls *)

(** What a program that owns [own] may call. *)
Definition permitted {B} (own : option path) (e : fsop B) (s : FS) : Prop :=
  match e with
  | OpenExcl p _ => own = Some p
  | CreateTemp _ _ _ => False
  | FileWrite fd _ | FileSync fd => ∀ i, f_open s !! fd = Some i → ∃ p, own = Some p ∧ f_names s !! p = Some i
  | Remove p => own = Some p ∨ ¬ in_uploads p
  | Chmod p _ => own = Some p
  | Rename old new =>
      ¬ in_uploads new ∧ (own = Some old ∨ ¬ in_uploads old) ∧
      ∀ d i, blobPath st d = Ok new → f_names s !! old = Some i →
        ∃ x, f_inodes s !! i = Some x ∧ hashes_to d (i_data x) ∧ i_dirty x = false
  | _ => True
  end.

Lemma alter_inode_lookup f i s j :
  f_inodes (alter_inode f i s) !! j = if decide (i = j) then f <$> f_inodes s !! j else f_inodes s !! j.
Proof. simpl. case_decide as H; [subst; by rewrite lookup_alter_eq|by rewrite lookup_alter_ne]. Qed.

(** Changing a file of one's own. *)
Lemma alter_guar p f i s : in_uploads p → f_names s !! p = Some i → guar_of (Some p) s (alter_inode f i s).
Proof.
  intros Hp Hn. apply guar_intro; [|done|done|].
  - intros Hi. split.
    + intros j Hj. destruct (inv_fresh s Hi j Hj) as [H1 H2]. rewrite alter_inode_lookup, H1. by case_decide.
    + intros q j Hm. destruct (inv_named s Hi q j Hm) as [x Hx]. rewrite alter_inode_lookup, Hx. case_decide; eauto.
    + intros fd j Hm. destruct (inv_handle s Hi fd j Hm) as [x Hx]. rewrite alter_inode_lookup, Hx. case_decide; eauto.
    + apply (inv_alone s Hi).
    + apply (inv_alone_past s Hi).
    + intros d q j Hb Hm. rewrite alter_inode_lookup. case_decide as Heq; [|by apply (inv_blobs s Hi d q j)].
      subst j. rewrite (inv_alone s Hi p i q Hp Hn Hm) in Hb. by apply blob_not_upload in Hb.
  - intros j. rewrite alter_inode_lookup. case_decide as Heq; [subst j; right; right; eauto|by left].
Qed.

Lemma open_handle_guar own i s : is_Some (f_inodes s !! i) → guar_of own s (open_handle i s).2.
Proof.
  intros Hx Hi. assert (f_open s !! f_next s = None) as Hfree by by apply (inv_fresh s Hi).
  assert (∀ fd j, f_open s !! fd = Some j → <[f_next s := i]> (f_open s) !! fd = Some j) as Hopen.
  { intros fd j H. rewrite lookup_insert_ne; [done|]. intros <-. congruence. }
  revert Hi. apply guar_intro; [|exact Hopen|done|by left]. intros Hi. split; simpl; try apply Hi.
  - intros j Hj. destruct (inv_fresh s Hi j) as [H1 H2]; [lia|]. split; [done|]. rewrite lookup_insert_ne by lia. done.
  - intros fd j. destruct (decide (fd = f_next s)) as [->|Hne].
    + rewrite lookup_insert_eq. by intros [= <-].
    + rewrite lookup_insert_ne by done. apply (inv_handle s Hi).
Qed.

(** Names after a change of the table. *)
Lemma may_name_set f s q i : may_name (set_names f s) q i ↔ f (f_names s) !! q = Some i ∨ may_name s q i.
Proof.
  unfold may_name. simpl. split.
  - intros (m & [->|Hm]%elem_of_cons & Hl); [by left|]. right. eauto.
  - intros [H|(m & Hm & Hl)]; [exists (f (f_names s)); split; [by left|done]|]. exists m. split; [by right|done].
Qed.

(** Taking a name away. *)
Lemma remove_guar own p s : own = Some p ∨ ¬ in_uploads p → guar_of own s (set_names (delete p) s).
Proof.
  intros Hp. apply guar_intro; [|done| |by left].
  - intros Hi.
    assert (∀ q i, may_name (set_names (delete p) s) q i → may_name s q i) as Hback.
    { intros q i [[_ H]%lookup_delete_Some|H]%may_name_set; [by apply may_name_now|done]. }
    split; simpl; try apply Hi.
    + intros q i Hm%Hback. by apply (inv_named s Hi q).
    + intros q i q' Hq [_ Hn]%lookup_delete_Some Hm%Hback. by eapply (inv_alone s Hi).
    + intros m q i q' [->|Hm]%elem_of_cons; [|by apply (inv_alone_past s Hi)].
      intros Hq Hn Hn'. eapply (inv_alone s Hi q i q'); [done..|]. by apply may_name_now.
    + intros d q i Hb Hm%Hback. by apply (inv_blobs s Hi d q).
  - intros q Hq Hne. simpl. rewrite lookup_delete_ne; [done|]. intros <-. by destruct Hp.
Qed.

(** Moving a file out of the uploads directory, or between other names. *)
Lemma rename_guar own old new i s :
  ¬ in_uploads new → own = Some old ∨ ¬ in_uploads old → old ≠ new → f_names s !! old = Some i →
  (∀ d, blobPath st d = Ok new → ∃ x, f_inodes s !! i = Some x ∧ hashes_to d (i_data x) ∧ i_dirty x = false) →
  guar_of own s (set_names (λ m, delete old (<[new := i]> m)) s).
Proof.
  intros Hnew Hown Hne Hold Hblob. apply guar_intro; [|done| |by left].
  - intros Hi.
    assert (∀ q j, may_name (set_names (λ m, delete old (<[new := i]> m)) s) q j → may_name s q j ∨ (q = new ∧ j = i)) as Hback.
    { intros q j [[Hq H]%lookup_delete_Some|H]%may_name_set; [|by left].
      apply lookup_insert_Some in H as [[-> ->]|[_ H]]; [by right|left; by apply may_name_now]. }
    assert (is_Some (f_inodes s !! i)) as Hsome by by eapply (inv_named s Hi), may_name_now.
    assert (∀ q, in_uploads q → f_names s !! q = Some i → q = old) as Honly.
    { intros q Hq Hn. symmetry. eapply (inv_alone s Hi); [done..|]. by apply may_name_now. }
    split; simpl; try apply Hi.
    + intros q j [Hm|[-> ->]]%Hback; [by apply (inv_named s Hi q)|done].
    + intros q j q' Hq [Hq1 [[-> ->]|[_ Hn]]%lookup_insert_Some]%lookup_delete_Some; [done|].
      intros [Hm|[-> ->]]%Hback; [by eapply (inv_alone s Hi)|]. by apply Honly in Hn.
    + intros m q j q' [->|Hm]%elem_of_cons; [|by apply (inv_alone_past s Hi)].
      intros Hq Hn Hn'. eapply (inv_alone s Hi q j q'); [done..|]. by apply may_name_now.
    + intros d q j Hb [Hm|[-> ->]]%Hback; [by apply (inv_blobs s Hi d q)|]. by apply Hblob.
  - intros q Hq Hne'. simpl. rewrite lookup_delete_ne; [|intros <-; by destruct Hown].
    rewrite lookup_insert_ne; [done|]. by intros <-.
Qed.

(** Creating the file one owns. *)
Lemma create_guar p mode s : in_uploads p → f_names s !! p = None → guar_of (Some p) s (create_file p mode s).2.
Proof.
  intros Hp Hn Hi. set (i := f_next s).
  assert (∀ j, f_next s ≤ j → f_inodes s !! j = None) as Hfresh by (intros j Hj; by apply (inv_fresh s Hi)).
  assert (∀ q, ¬ may_name s q i) as Hunused.
  { intros q Hm. apply (inv_named s Hi) in Hm as [x Hx]. rewrite Hfresh in Hx by done. done. }
  set (s1 := mkFS (<[p := i]> (f_names s)) (f_names s :: f_past s) (<[i := mkInode mode [] true]> (f_inodes s)) (f_open s) (S i)).
  assert (fs_inv s → fs_inv s1) as Hinv1.
  { intros _.
    assert (∀ q j, may_name s1 q j → may_name s q j ∨ (q = p ∧ j = i)) as Hback.
    { intros q j (m & [->|Hm]%elem_of_cons & Hl); [|left; exists m; by split].
      unfold s1 in Hl. cbn in Hl. apply lookup_insert_Some in Hl as [[-> ->]|[_ Hl]]; [by right|left; by apply may_name_now]. }
    split; simpl.
    - intros j Hj. destruct (inv_fresh s Hi j) as [H1 H2]; [subst i; lia|]. rewrite lookup_insert_ne by lia. done.
    - intros q j [Hm|[-> ->]]%Hback; [|rewrite lookup_insert_eq; eauto].
      destruct (decide (j = i)) as [->|]; [by apply Hunused in Hm|]. rewrite lookup_insert_ne by done. by apply (inv_named s Hi q).
    - intros fd j Hj. destruct (inv_handle s Hi fd j Hj) as [x Hx]. rewrite lookup_insert_ne; [by eexists|].
      intros Heq. rewrite (Hfresh j) in Hx; [done|]. rewrite <- Heq. done.
    - intros q j q' Hq [[Hqp Hij]|[Hne Hj]]%lookup_insert_Some [Hm|[Hq' Hji]]%Hback; [| congruence | |].
      + rewrite <- Hij in Hm. by apply Hunused in Hm.
      + by eapply (inv_alone s Hi).
      + rewrite Hji in Hj. apply may_name_now in Hj. by apply Hunused in Hj.
    - intros m q j q' [->|Hm]%elem_of_cons; [|by apply (inv_alone_past s Hi)].
      intros Hq Hj Hj'. eapply (inv_alone s Hi q j q'); [done..|]. by apply may_name_now.
    - intros d q j Hb [Hm|[-> ->]]%Hback; [|by apply blob_not_upload in Hb].
      destruct (decide (j = i)) as [->|]; [by apply Hunused in Hm|]. rewrite lookup_insert_ne by done. by apply (inv_blobs s Hi d q). }
  assert (guar_of (Some p) s s1) as G1.
  { apply guar_intro; [done|done| |].
    - intros q Hq Hne. simpl. rewrite lookup_insert_ne; [done|]. congruence.
    - intros j. simpl. destruct (decide (j = i)) as [->|]; [right; left; by apply Hfresh|left; by rewrite lookup_insert_ne]. }
  assert (guar_of (Some p) s1 (open_handle i s1).2) as G2.
  { apply open_handle_guar. simpl. rewrite lookup_insert_eq. eauto. }
  destruct (G1 Hi) as (I1 & O1 & R1). destruct (G2 I1) as (I2 & O2 & R2).
  split_and!; [exact I2|intros fd j Hj; by apply O2, O1|].
  intros q Hq Hne. exact (transitivity (R := rely_of (Some q)) (R1 q Hq Hne) (R2 q Hq Hne)).
Qed.

Lemma guar_refl own s : guar_of own s s.
Proof. by apply guar_intro; [..|left]. Qed.

Lemma sync_dir_guar own s : guar_of own s (mkFS (f_names s) [] (f_inodes s) (f_open s) (f_next s)).
Proof.
  apply guar_intro; [|done|done|by left]. intros Hi.
  set (s' := mkFS (f_names s) [] (f_inodes s) (f_open s) (f_next s)).
  assert (∀ q i, may_name s' q i → may_name s q i) as Hback.
  { intros q i (m & ->%list_elem_of_singleton & Hl). by apply may_name_now. }
  split; simpl; try apply Hi.
  - intros q i Hm%Hback. by apply (inv_named s Hi q).
  - intros q i q' Hq Hn Hm%Hback. by eapply (inv_alone s Hi).
  - intros m q i q' Hm. by apply elem_of_nil in Hm.
  - intros d q i Hb Hm%Hback. by apply (inv_blobs s Hi d q).
Qed.

Lemma permitted_guar {B} own (e : fsop B) c s :
  (∀ p, own = Some p → in_uploads p) → permitted own e s → guar_of own s (fs_do c e s).2.
Proof.
  intros Hup Hp Hi. revert Hi.
  assert (∀ q, guar_of own s (with_name (A := nat) q s (λ i, let '(fd, s) := open_handle i s in (Ok fd, s))).2) as Hopen.
  { intros q Hi. unfold with_name. destruct (f_names s !! q) as [i|] eqn:Hn; [|by apply guar_refl]. simpl. revert Hi.
    intros Hi. by eapply open_handle_guar; [eapply (inv_named s Hi), may_name_now|]. }
  destruct e as [dir|p mode|p|p|dir pre suf|fd data|fd|fd|fd|fd|p|p|old new|p mode|dir|dir]; simpl in *;
    try (by destruct c; repeat case_match; apply guar_refl).
  - destruct c; [|apply guar_refl]. destruct (f_names s !! p) eqn:Hn; [apply guar_refl|]. subst own.
    apply (create_guar p mode s); auto.
  - destruct c; [apply Hopen|apply guar_refl].
  - destruct c; [apply Hopen|apply guar_refl].
  - done.
  - assert (∀ d, guar_of own s (write_handle fd d s)) as Hw.
    { intros d. unfold write_handle. destruct (f_open s !! fd) as [i|] eqn:Ho; [|apply guar_refl].
      destruct (Hp i eq_refl) as (p & -> & Hn). apply alter_guar; auto. }
    destruct c; apply Hw.
  - destruct c; [|destruct (f_open s !! fd); apply guar_refl].
    destruct (f_open s !! fd) as [i|] eqn:Ho; [|apply guar_refl]. destruct (Hp i eq_refl) as (p & -> & Hn). apply alter_guar; auto.
  - destruct c; [|apply guar_refl]. unfold with_name. destruct (f_names s !! p) as [i|]; [|apply guar_refl]. simpl.
    destruct (f_inodes s !! i); apply guar_refl.
  - destruct c; [|apply guar_refl]. unfold with_name. destruct (f_names s !! p); [by apply remove_guar|apply guar_refl].
  - destruct c; [|apply guar_refl]. unfold with_name. destruct (f_names s !! old) as [i|] eqn:Ho; [|apply guar_refl]. simpl.
    case_decide as Heq; [apply guar_refl|]. destruct Hp as (Hnew & Hown & Hb). apply rename_guar; try done.
    intros d Hd. by apply (Hb d i).
  - destruct c; [|apply guar_refl]. unfold with_name. destruct (f_names s !! p) as [i|] eqn:Hn; [|apply guar_refl]. subst own.
    apply alter_guar; auto.
  - destruct c; [apply sync_dir_guar|apply guar_refl].
Qed.

(** ** Reasoning about one program

    [holds own K p Q]: from any state in which [K] holds, whatever others do, the
    program stays within what is permitted to it and ends in [Q]. *)
Section holds.
Context (own : option path) (Hup : ∀ p, own = Some p → in_uploads p).

Definition stable (K : FS → Prop) : Prop := ∀ s s', fs_inv s → K s → rely_of own s s' → K s'.

Definition holds {A} (K : FS → Prop) (p : prog fsop A) (Q : A → FS → Prop) : Prop :=
  ∀ s, fs_inv s → K s → safe (rely_of own) (guar_of own) (λ a s, fs_inv s ∧ Q a s) p s.

Lemma holds_done {A} (K : FS → Prop) (a : A) Q : stable K → (∀ s, fs_inv s → K s → Q a s) → holds K (Done a) Q.
Proof.
  intros HK HQ s Hi Hk s' Hr. assert (fs_inv s') by by eapply rely_inv. split; [done|]. apply HQ; [done|]. by apply (HK s s').
Qed.

Lemma holds_call {B C} (K : FS → Prop) (e : fsop B) (k : B → prog fsop C) (K' : B → FS → Prop) Q :
  stable K → (∀ s, fs_inv s → K s → permitted own e s) →
  (∀ s c, fs_inv s → K s → K' (fs_do c e s).1 (fs_do c e s).2) →
  (∀ b, holds (K' b) (k b) Q) → holds K (bind (call e) k) Q.
Proof.
  intros HK Hp HK' Hk s Hi Hks. apply safe_file_call. intros s' c Hr.
  assert (fs_inv s') as Hi' by by eapply rely_inv. assert (K s') as Hks' by by apply (HK s s').
  assert (guar_of own s' (fs_do c e s').2) as Hg by (apply permitted_guar; auto).
  split; [done|]. apply Hk; [by apply Hg|by apply HK'].
Qed.

Lemma holds_bind {A B} (K : FS → Prop) (p : prog fsop A) (f : A → prog fsop B) M Q :
  holds K p M → (∀ a, holds (M a) (f a) Q) → holds K (bind p f) Q.
Proof.
  intros Hp Hf s Hi Hk. eapply safe_bind; [apply _|by apply Hp|]. intros a s' [Hi' HM]. by apply Hf.
Qed.

Lemma holds_weaken {A} (K K' : FS → Prop) (p : prog fsop A) (Q Q' : A → FS → Prop) :
  (∀ s, fs_inv s → K' s → K s) → (∀ a s, Q a s → Q' a s) → holds K p Q → holds K' p Q'.
Proof.
  intros HK HQ Hp s Hi Hk. eapply safe_mono; [|apply Hp; auto]. intros a s' [Hi' HQ']. split; auto.
Qed.

Lemma stable_True : stable (λ _, True).
Proof. done. Qed.

(** The calls that change nothing others could mind, with nothing to remember. *)
Lemma holds_call_any {B C} (e : fsop B) (k : B → prog fsop C) Q :
  (∀ s, permitted own e s) → (∀ b, holds (λ _, True) (k b) Q) → holds (λ _, True) (bind (call e) k) Q.
Proof. intros Hp Hk. by eapply (holds_call _ _ _ (λ _ _, True)). Qed.

Lemma holds_done_any {A} (a : A) : holds (λ _, True) (Done a) (λ _ _, True).
Proof. by apply holds_done. Qed.

Lemma holds_bind_any {A B} (p : prog fsop A) (f : A → prog fsop B) :
  holds (λ _, True) p (λ _ _, True) → (∀ a, holds (λ _, True) (f a) (λ _ _, True)) →
  holds (λ _, True) (bind p f) (λ _ _, True).
Proof. intros Hp Hf. by eapply holds_bind. Qed.
End holds.
End invariant.
