(* ===== verification/FsStoreSafe.v ===== *)
(** * The methods of the file-system driver, beside each other and across crashes *)
From S2P Require Import Prelude RepoName Digest Sha2 Verify VerifySpec Effects Files FsStore FsStoreSpec.

Section methods.
Context (st : Store).

(** ** What the owner of a file knows of it *)
Definition file_has (p : path) (P : inode → Prop) (s : FS) : Prop :=
  ∃ i x, f_names s !! p = Some i ∧ f_inodes s !! i = Some x ∧ P x.
Definition handle_has (p : path) (fd : nat) (P : inode → Prop) (s : FS) : Prop :=
  ∃ i x, f_names s !! p = Some i ∧ f_open s !! fd = Some i ∧ f_inodes s !! i = Some x ∧ P x.

Lemma file_stable p P : stable st (Some p) (file_has p P).
Proof.
  intros s s' _ (i & x & Hn & Hx & HP) [_ Hn' Hd _]. exists i, x. split_and!; [congruence| |done]. by rewrite Hd.
Qed.

Lemma handle_stable p fd P : stable st (Some p) (handle_has p fd P).
Proof.
  intros s s' _ (i & x & Hn & Ho & Hx & HP) [_ Hn' Hd Ho']. exists i, x. split_and!; [congruence|by apply Ho'| |done]. by rewrite Hd.
Qed.

Lemma handle_file p fd P s : handle_has p fd P s → file_has p P s.
Proof. intros (i & x & Hn & _ & Hx & HP). by exists i, x. Qed.

Section owner.
Context (p : path) (Hp : in_uploads st p).
Local Notation own := (Some p).
Local Notation triple := (holds st own).

Lemma own_up : ∀ q, own = Some q → in_uploads st q.
Proof. by intros q [= <-]. Qed.

(** Calls that do not touch the file. *)
Definition quiet {B} (e : fsop B) : Prop :=
  match e with
  | MkdirAll _ | StatPath _ | ReadToEnd _ | FileStat _ | FileClose _ | ListTree _ => True
  | _ => False
  end.

Lemma quiet_state {B} (e : fsop B) c s : quiet e → (fs_do c e s).2 = s.
Proof. destruct e; simpl; try done; intros _; unfold with_name; by repeat case_match. Qed.

Lemma quiet_permitted {B} o (e : fsop B) s : quiet e → permitted st o e s.
Proof. by destruct e. Qed.

Lemma triple_quiet {B C} (K : FS → Prop) (e : fsop B) (k : B → prog fsop C) Q :
  quiet e → stable st own K → (∀ b, triple K (k b) Q) → triple K (bind (call e) k) Q.
Proof.
  intros He HK Hk. eapply (holds_call st own own_up K e k (λ _, K)); [done| | |done].
  - intros s _ _. by apply quiet_permitted.
  - intros s c _ H. by rewrite quiet_state.
Qed.

Lemma triple_remove {C} (K : FS → Prop) (k : _ → prog fsop C) Q :
  stable st own K → (∀ b, triple (λ _, True) (k b) Q) → triple K (bind (call (Remove p)) k) Q.
Proof. intros HK Hk. eapply (holds_call st own own_up K _ k (λ _ _, True)); [done|by left|done|done]. Qed.

Lemma triple_end {A} (K : FS → Prop) (a : A) : stable st own K → triple K (Done a) (λ _ _, True).
Proof. intros HK. by apply holds_done. Qed.

Lemma write_handle_has fd P data s :
  handle_has p fd P s → handle_has p fd (λ x, ∃ y, P y ∧ x = append_data data y) (write_handle fd data s).
Proof.
  intros (i & x & Hn & Ho & Hx & HP). unfold write_handle. rewrite Ho. exists i, (append_data data x).
  split_and!; [done|done| |eauto]. rewrite alter_inode_lookup, decide_True, Hx by done. done.
Qed.

(** ** Copying: the file holds what it held and what was copied *)
Definition copied (fd : nat) (base : bytes) {R} (out : option (bytes * option FsError * R)) (s : FS) : Prop :=
  match out with
  | Some (w, None, _) => handle_has p fd (λ x, i_data x = base ++ w) s
  | Some (_, Some _, _) => handle_has p fd (λ _, True) s
  | None => True
  end.

Lemma handle_any fd P s : handle_has p fd P s → handle_has p fd (λ _, True) s.
Proof. intros (i & x & ? & ? & ? & _). by exists i, x. Qed.

Lemma copy_file_holds {R} `{!Reader R} fuel fd base written (src : R) :
  triple (handle_has p fd (λ x, i_data x = base ++ written)) (copy_file fuel fd written src) (copied fd base).
Proof.
  revert written src. induction fuel as [|fuel IH]; intros written src; cbn [copy_file].
  { by apply holds_done; [apply handle_stable|]. }
  destruct (rd_read copyBuffer src) as [[[c e] src']|]; [|by apply holds_done; [apply handle_stable|]].
  set (next := λ w, match e with
                    | None => copy_file fuel fd w src'
                    | Some EOF => Done (Some (w, None, src'))
                    | Some (Failed e0) => Done (Some (w, Some (FsBlob e0), src'))
                    end).
  assert (∀ w, triple (handle_has p fd (λ x, i_data x = base ++ w)) (next w) (copied fd base)) as Hnext.
  { intros w. unfold next. destruct e as [[|x]|]; [..|apply IH]; apply holds_done; try apply handle_stable; [done|].
    intros s _. apply handle_any. }
  destruct c as [|b c]; [apply Hnext|].
  eapply (holds_call st own own_up _ _ _ (λ w s, match w with
      | (_, None) => handle_has p fd (λ x, i_data x = base ++ (written ++ b :: c)) s
      | (_, Some _) => handle_has p fd (λ _, True) s
      end)); [apply handle_stable| | |].
  - intros s _ (i & x & Hn & Ho & _) j Hj. exists p. split; [done|]. congruence.
  - intros s ch _ H. destruct ch as [name|n]; simpl.
    + destruct (write_handle_has fd _ (b :: c) s H) as (i & x & ? & ? & ? & y & Hy & ->). exists i, (append_data (b :: c) y).
      split_and!; try done. simpl. by rewrite Hy, <- app_assoc.
    + eapply handle_any, write_handle_has, H.
  - intros [n [err|]]; [|apply Hnext]. apply holds_done; [apply handle_stable|]. done.
Qed.

Lemma CopyFile_holds {R} `{!Reader R} fd (src : R) d :
  triple (handle_has p fd (λ x, i_data x = [])) (CopyFile fd src d)
    (λ out s, match out with Some (Ok _, _) => handle_has p fd (λ x, hashes_to d (i_data x)) s | _ => True end).
Proof.
  unfold CopyFile. destruct (NewVerifier d) as [v|] eqn:Hv; [|by apply holds_done; [apply handle_stable|]].
  eapply holds_bind; [apply (copy_file_holds (S (rd_left src)) fd [] [] src)|].
  intros [[[w [e|]] src']|]; [by apply holds_done; [apply handle_stable|]| |by apply holds_done].
  apply holds_done; [apply handle_stable|]. intros s _ (i & x & ? & ? & ? & Hd). pose proof (Verify_iff d v w Hv) as Hiff.
  destruct (Verifier_Verify _); [|done]. simpl. exists i, x. by rewrite Hd.
Qed.

(** Syncing: nothing is lost by a crash from here on. *)
Lemma sync_holds {C} fd P (k : _ → prog fsop C) Q :
  (∀ x, P x → P (mkInode (i_mode x) (i_data x) false)) →
  triple (file_has p (λ x, P x ∧ i_dirty x = false)) (k (Ok tt)) Q →
  (∀ e, triple (file_has p P) (k (Err e)) Q) →
  triple (handle_has p fd P) (bind (call (FileSync fd)) k) Q.
Proof.
  intros HP Hok Herr.
  eapply (holds_call st own own_up _ _ _ (λ r s, match r with
      | Ok _ => file_has p (λ x, P x ∧ i_dirty x = false) s
      | Err _ => file_has p P s
      end)); [apply handle_stable| | |].
  - intros s _ (i & x & Hn & Ho & _) j Hj. exists p. split; [done|]. congruence.
  - intros s ch _ H. destruct ch; [|simpl; by eapply handle_file]. destruct H as (i & x & Hn & Ho & Hx & Hq). simpl. rewrite Ho.
    exists i, (mkInode (i_mode x) (i_data x) false). split_and!; [done| |auto|done]. cbn. by rewrite lookup_alter_eq, Hx.
  - by intros [[]|e].
Qed.

(** Creating the file: empty, and ours. *)
Lemma create_holds {C} mode (k : _ → prog fsop C) Q :
  (∀ fd, triple (handle_has p fd (λ x, i_data x = [])) (k (Ok fd)) Q) →
  (∀ e, triple (λ _, True) (k (Err e)) Q) →
  triple (λ _, True) (bind (call (OpenExcl p mode)) k) Q.
Proof.
  intros Hok Herr.
  eapply (holds_call st own own_up _ _ _ (λ r s, match r with
      | Ok fd => handle_has p fd (λ x, i_data x = []) s
      | Err _ => True
      end)); [done|done| |].
  - intros s ch _ _. destruct ch; [|done]. simpl. destruct (f_names s !! p); [done|].
    exists (f_next s), (mkInode mode [] true). cbn. rewrite !lookup_insert_eq. done.
  - intros [fd|e]; [apply Hok|apply Herr].
Qed.

(** ** Publishing *)
Lemma chmod_holds {C} mode P (k : _ → prog fsop C) Q :
  (∀ x m, P x → P (mkInode m (i_data x) (i_dirty x))) → (∀ b, triple (file_has p P) (k b) Q) →
  triple (file_has p P) (bind (call (Chmod p mode)) k) Q.
Proof.
  intros HP Hk. eapply (holds_call st own own_up _ _ _ (λ _, file_has p P)); [apply file_stable|done| |done].
  intros s ch _ (i & x & Hn & Hx & HPx). destruct ch; [|by exists i, x]. simpl. unfold with_name. rewrite Hn.
  exists i, (mkInode mode (i_data x) (i_dirty x)). split_and!; [done| |auto]. cbn. by rewrite lookup_alter_eq, Hx.
Qed.

Definition ready (d : string) (x : inode) : Prop := hashes_to d (i_data x) ∧ i_dirty x = false.

Lemma commit_holds d target : blobPath st d = Ok target →
  triple (file_has p (ready d)) (commit p target) (λ _ _, True).
Proof.
  intros Hb. unfold commit. apply triple_quiet; [done|apply file_stable|]. intros [info|[]].
  1, 3, 4: apply triple_end, file_stable.
  apply triple_quiet; [done|apply file_stable|]. intros [[]|e]; [|apply triple_end, file_stable].
  apply chmod_holds; [done|]. intros [[]|e]; [|apply triple_end, file_stable].
  eapply (holds_call st own own_up _ _ _ (λ _ _, True)); [apply file_stable| |done|].
  - intros s _ (i & x & Hn & Hx & Hr). split_and!; [by eapply blob_not_upload|by left|].
    intros d' j Hb' Hj. rewrite (blobPath_inj _ _ _ _ Hb' Hb). exists x. split; [|done]. congruence.
  - intros [[]|e].
    + unfold syncDir. eapply holds_call_any; [apply own_up|done|]. intros r. by apply triple_end.
    + apply triple_quiet; [done|done|]. intros [|]; by apply triple_end.
Qed.
End owner.

(** ** The methods *)
Definition staging_path (random : option bytes) : option path :=
  match random with
  | None => None
  | Some raw => Some (st_root st ++ [uploadsDir; "staging-" +:+ hex_bytes raw])
  end.

Lemma staging_simple raw : simple ("staging-" +:+ hex_bytes raw).
Proof.
  repeat split; [|done..]. rewrite ContainsByte_app. cbn.
  apply (all_bytes_contains isLowerHex); [apply hex_bytes_lower|done].
Qed.

Lemma staging_confined raw : confine st [uploadsDir; "staging-" +:+ hex_bytes raw] = Ok (st_root st ++ [uploadsDir; "staging-" +:+ hex_bytes raw]).
Proof. apply confine_simple. repeat constructor; try apply base_simple; apply staging_simple. Qed.

Lemma Put_holds {R} `{!Reader R} ctx random d (r : R) :
  holds st (staging_path random) (λ _, True) (Put st ctx random d r) (λ _ _, True).
Proof.
  unfold Put. destruct ctx; [by apply holds_done|]. destruct (blobPath st d) as [target|] eqn:Hb; [|by apply holds_done].
  unfold stage, randomName. destruct random as [raw|]; [|by apply holds_done]. simpl staging_path. rewrite staging_confined.
  set (p := st_root st ++ [uploadsDir; "staging-" +:+ hex_bytes raw]).
  assert (in_uploads st p) as Hp by by eexists.
  eapply (holds_bind st (Some p) _ _ _ (λ out s, match out with Some (Ok q, _) => q = p ∧ file_has p (ready d) s | _ => True end)).
  - apply create_holds; [done| |by intros; apply holds_done]. intros fd.
    eapply holds_bind; [by apply CopyFile_holds|]. intros [[[[]|e] r']|]; [| |by apply holds_done].
    + apply sync_holds; [done|done| |].
      * apply triple_quiet; [done|done|apply file_stable|]. intros [[]|e]; [by apply holds_done; [apply file_stable|]|].
        apply triple_remove; [done|apply file_stable|]. intros. by apply holds_done.
      * intros e. apply triple_quiet; [done|done|apply file_stable|]. intros _.
        apply triple_remove; [done|apply file_stable|]. intros. by apply holds_done.
    + apply triple_quiet; [done|done|done|]. intros _. apply triple_remove; [done|done|]. intros. by apply holds_done.
  - intros [[[q|e] r']|]; [|by apply holds_done..].
    eapply (holds_weaken st (Some p) (λ s, q = p ∧ file_has p (ready d) s)); [done|by intros ?? H; exact H|].
    intros s Hi [-> Hr]. revert s Hi Hr. change (holds st (Some p) (file_has p (ready d))
      (bind (commit p target) (λ done, bind (call (Remove p)) (λ _, Done (Some (done, r'))))) (λ _ _, True)).
    eapply holds_bind; [by apply commit_holds|]. intros out. apply triple_remove; [done|done|]. intros. by apply holds_done.
Qed.

(** *** Sessions: a request opens the session and works on its file *)
Definition session_path (id : string) : option path :=
  if ValidateUploadID id then Some (st_root st ++ [uploadsDir; id]) else None.

Lemma upload_simple id : ValidateUploadID id = true → simple id.
Proof.
  unfold ValidateUploadID. destruct (String.eqb_spec id ""); [done|]. destruct (_ <? _); [done|].
  destruct (String.eqb_spec id "."); [done|]. destruct (String.eqb_spec id ".."); [done|]. cbn [orb]. intros Hb.
  repeat split; try done. by apply (all_bytes_contains upload_id_byte).
Qed.

Lemma uploadPath_ok id q : uploadPath st id = Ok q → session_path id = Some q ∧ in_uploads st q.
Proof.
  unfold uploadPath, session_path. destruct (ValidateUploadID id) eqn:Hv; [|done].
  rewrite confine_simple by (repeat constructor; try apply base_simple; by apply upload_simple).
  intros [= <-]. split; [done|by eexists].
Qed.

Lemma CreateUpload_holds ctx id : holds st (session_path id) (λ _, True) (CreateUpload st ctx id) (λ _ _, True).
Proof.
  unfold CreateUpload. destruct ctx; [by apply holds_done|]. destruct (uploadPath st id) as [p|] eqn:Hu; [|by apply holds_done].
  destruct (uploadPath_ok _ _ Hu) as [-> Hp]. apply create_holds; [done| |by intros []; apply holds_done].
  intros fd. apply triple_quiet; [done|done|apply handle_stable|]. intros [[]|e]; by apply holds_done; [apply handle_stable|].
Qed.

(** Appending: when no error is reported the file is synced. *)
Lemma Write_holds {R} `{!Reader R} p ctx (r : R) u : in_uploads st p → u_path u = p →
  holds st (Some p) (λ _, True) (Write ctx r u)
    (λ out s, match out with Some (_, None, u') => u_path u' = p ∧ file_has p (λ x, i_dirty x = false) s | _ => True end).
Proof.
  intros Hp Hu. unfold Write. rewrite Hu. destruct ctx; [by apply holds_done|].
  eapply (holds_call st (Some p) (own_up p Hp) _ _ _ (λ r s, match r with
      | Ok fd => ∃ base, handle_has p fd (λ x, i_data x = base) s
      | Err _ => True
      end)); [done|done| |].
  - intros s ch Hi _. destruct ch; [|done]. simpl. unfold with_name. destruct (f_names s !! p) as [i|] eqn:Hn; [|done]. simpl.
    destruct (inv_named st s Hi p i (may_name_now _ _ _ Hn)) as [x Hx]. exists (i_data x), i, x. cbn. by rewrite lookup_insert_eq.
  - intros [fd|[]]; [|by apply holds_done..]. intros s Hi [base Hb]. revert s Hi Hb.
    change (holds st (Some p) (handle_has p fd (λ x, i_data x = base)) (bind (io_CopyFile fd r) (λ copied, match copied with
      | None => Done None
      | Some (written, copyErr, _) =>
          bind (call (FileSync fd)) (λ synced, bind (call (FileClose fd)) (λ _,
            Done (Some (add64 (u_offset u) (Z.of_nat (length written)),
              match synced, copyErr with Err e, None => Some (FsIO "sync upload session" e) | _, _ => copyErr end,
              set_offset (add64 (u_offset u) (Z.of_nat (length written))) u))))
      end)) (λ out s, match out with Some (_, None, u') => u_path u' = p ∧ file_has p (λ x, i_dirty x = false) s | _ => True end)).
    eapply holds_bind.
    { eapply holds_weaken; [| |apply (copy_file_holds p Hp (S (rd_left r)) fd base [])]; [|intros ?? H; exact H].
      intros s _ H. by rewrite app_nil_r. }
    intros [[[w e] r']|]; [|by apply holds_done].
    eapply (holds_weaken st (Some p) (handle_has p fd (λ _, True))); [| intros ?? H; exact H|].
    { intros s _ H. destruct e; [exact H|]. by eapply handle_any. }
    apply sync_holds; [done|done| |].
    + apply triple_quiet; [done|done|apply file_stable|]. intros _. apply holds_done; [apply file_stable|].
      intros s _ (i & x & Hn & Hx & _ & Hd). destruct e; [done|]. split; [done|]. by exists i, x.
    + intros err. apply triple_quiet; [done|done|apply file_stable|]. intros _. apply holds_done; [apply file_stable|].
      intros s _ _. by destruct e.
Qed.

Lemma Commit_holds p ctx d u : in_uploads st p → u_path u = p →
  holds st (Some p) (file_has p (λ x, i_dirty x = false)) (Commit st ctx d u) (λ _ _, True).
Proof.
  intros Hp Hu. unfold Commit. rewrite Hu. destruct ctx; [by apply holds_done; [apply file_stable|]|].
  destruct (blobPath st d) as [target|] eqn:Hb; [|by apply holds_done; [apply file_stable|]].
  eapply (holds_call st (Some p) (own_up p Hp) _ _ _ (λ r s, match r with
      | Ok fd => handle_has p fd (λ x, i_dirty x = false) s
      | Err _ => True
      end)); [apply file_stable|done| |].
  - intros s ch _ (i & x & Hn & Hx & Hd). destruct ch; [|done]. simpl. unfold with_name. rewrite Hn. simpl.
    exists i, x. cbn. by rewrite lookup_insert_eq.
  - intros [fd|[]]; [|by apply holds_done..].
    eapply (holds_bind st (Some p) _ _ _ (λ out s, match out with Ok _ => file_has p (ready d) s | Err _ => True end)).
    + destruct (NewVerifier d) as [v|] eqn:Hv; [|by apply holds_done; [apply handle_stable|]].
      eapply (holds_call st (Some p) (own_up p Hp) _ _ _ (λ r s, match r with
          | Ok data => file_has p (λ x, i_data x = data ∧ i_dirty x = false) s
          | Err _ => True
          end)); [apply handle_stable|done| |].
      * intros s ch _ (i & x & Hn & Ho & Hx & Hd). destruct ch; [|done]. simpl. unfold handle_data. rewrite Ho. simpl. rewrite Hx.
        simpl. by exists i, x.
      * intros [data|e]; [|by apply holds_done]. apply holds_done; [apply file_stable|]. intros s _ (i & x & Hn & Hx & Hda & Hd).
        pose proof (Verify_iff d v data Hv) as Hiff. destruct (Verifier_Verify _); [|done]. exists i, x. split; [done|].
        split; [done|]. split; [rewrite Hda; exact Hiff|done].
    + intros [data|e].
      * apply triple_quiet; [done|done|apply file_stable|]. intros [[]|e].
        -- eapply holds_bind; [by apply commit_holds|]. intros [[]|e]; [|by apply holds_done].
           apply triple_remove; [done|done|]. intros. by apply holds_done.
        -- apply triple_remove; [done|apply file_stable|]. intros. by apply holds_done.
      * apply triple_quiet; [done|done|done|]. intros _. apply triple_remove; [done|done|]. intros. by apply holds_done.
Qed.

(** *** Methods without a file of their own *)
Local Notation anyone := (holds st None (λ _, True)).

Lemma none_up : ∀ q, None = Some q → in_uploads st q.
Proof. done. Qed.

Ltac calls := first
  [ by apply holds_done
  | eapply (holds_call_any st None none_up); [done|]; intros
  | apply holds_bind_any; [|intros] ].

Lemma Get_holds ctx d : anyone (Get st ctx d) (λ _ _, True).
Proof.
  unfold Get. destruct ctx; [calls|]. destruct (blobPath st d); [|calls]. calls.
  match goal with b : result _ _ |- _ => destruct b as [fd|[]]; [|calls..] end. calls.
  match goal with b : result _ (_ * _) |- _ => destruct b as [[? ?]|]; [|calls; calls] end.
  destruct (NewVerifier d); [calls|calls; calls].
Qed.

Lemma Stat_holds ctx d : anyone (Stat st ctx d) (λ _ _, True).
Proof.
  unfold Stat. destruct ctx; [calls|]. destruct (blobPath st d); [|calls]. calls.
  match goal with b : result _ _ |- _ => destruct b as [[? ?]|[]]; calls end.
Qed.

Lemma Delete_holds ctx d : anyone (Delete st ctx d) (λ _ _, True).
Proof.
  unfold Delete. destruct ctx; [calls|]. destruct (blobPath st d) as [q|] eqn:Hb; [|calls].
  eapply (holds_call_any st None none_up); [intros s; right; by eapply blob_not_upload|].
  intros [[]|[]]; calls.
Qed.

Lemma quarantine_holds d : anyone (quarantine st d) (λ _ _, True).
Proof.
  unfold quarantine. destruct (blobPath st d) as [source|] eqn:Hb; [|calls].
  destruct (quarantinePath st d) as [target|] eqn:Hq; [|calls]. destruct (quarantine_path _ _ _ Hq) as [Hnu Hnb].
  calls. match goal with b : result _ _ |- _ => destruct b as [[]|]; [|calls] end.
  eapply (holds_call_any st None none_up); [by right|]. intros b.
  assert (anyone (bind (call (Rename source target)) (λ moved, match moved with
      | Err ENOENT => Done (Ok tt)
      | Err e => Done (Err (FsIO "quarantine blob" e))
      | Ok _ => syncDir (Dir target)
      end)) (λ _ _, True)) as Hmove.
  { eapply (holds_call_any st None none_up).
    - intros s. split_and!; [done|right; by eapply blob_not_upload|]. intros d' i Hb'. by apply Hnb in Hb'.
    - intros [[]|[]]; [|calls..]. unfold syncDir. calls. calls. }
  destruct b as [[]|[]]; try exact Hmove; calls.
Qed.

Lemma Reader_Close_holds fd desc corrupt : anyone (Reader_Close st fd desc corrupt) (λ _ _, True).
Proof.
  unfold Reader_Close. calls. destruct corrupt; [|calls]. apply holds_bind_any; [apply quarantine_holds|]. intros. calls.
Qed.

Lemma Walk_holds {A} ctx cancelled (fn : A → Descriptor → result FsError A) a : anyone (Walk st ctx cancelled fn a) (λ _ _, True).
Proof.
  unfold Walk. destruct ctx; [calls|]. calls. match goal with b : result _ _ |- _ => destruct b as [files|]; [|calls] end.
  generalize 0. revert a. induction files as [|q files IH]; intros a n; cbn [walk_files]; [calls|].
  destruct (cancelled n); [calls|]. destruct (digestFromPath _ q) as [d|]; [|apply IH]. calls.
  match goal with b : result _ _ |- _ => destruct b as [[? size]|[]]; [|apply IH|calls..] end.
  destruct (fn a _); [apply IH|calls].
Qed.

(** *** Requests *)
Lemma OpenUpload_holds ctx id : holds st (session_path id) (λ _, True) (OpenUpload st ctx id)
  (λ out _, match out with Ok u => session_path id = Some (u_path u) ∧ in_uploads st (u_path u) | Err _ => True end).
Proof.
  unfold OpenUpload. destruct ctx; [by apply holds_done|]. destruct (uploadPath st id) as [p|] eqn:Hu; [|by apply holds_done].
  destruct (uploadPath_ok _ _ Hu) as [Hs Hp]. rewrite Hs. apply triple_quiet; [done..|].
  intros [[? ?]|[]]; by apply holds_done.
Qed.

Lemma Cancel_holds p ctx u : in_uploads st p → u_path u = p → holds st (Some p) (λ _, True) (Cancel ctx u) (λ _ _, True).
Proof.
  intros Hp <-. unfold Cancel. destruct ctx; [by apply holds_done|]. apply triple_remove; [done|done|].
  intros [[]|[]]; by apply holds_done.
Qed.
End methods.

(** What is asked of the driver, the way src/internal/registry asks: a chunk opens
    the session and appends, a commit appends the last chunk and stops if that
    failed. *)
Inductive request : Type :=
| RqPut (ctx : bool) (random : option bytes) (digest : string) (body : Body)
| RqCreate (ctx : bool) (id : string)
| RqPatch (ctx : bool) (id : string) (body : Body)
| RqFinish (ctx : bool) (id digest : string) (body : Body)
| RqCancel (ctx : bool) (id : string)
| RqGet (ctx : bool) (digest : string)
| RqClose (fd : nat) (desc : Descriptor) (corrupt : option BlobError)
| RqStat (ctx : bool) (digest : string)
| RqDelete (ctx : bool) (digest : string)
| RqWalk (ctx : bool) (cancelled : nat → bool).

Definition patch (st : Store) (ctx : bool) (id : string) (body : Body) : prog fsop (result FsError unit) :=
  fxE! u := OpenUpload st ctx id in
  fx! out := Write ctx body u in
  Done (match out with Some (_, None, _) => Ok tt | Some (_, Some e, _) => Err e | None => Err FsRandom end).

Definition finish (st : Store) (ctx : bool) (id digest : string) (body : Body) : prog fsop (result FsError unit) :=
  fxE! u := OpenUpload st ctx id in
  fx! out := Write ctx body u in
  match out with
  | Some (_, None, u) => fx! done := Commit st ctx digest u in Done (match done.1 with Ok _ => Ok tt | Err e => Err e end)
  | Some (_, Some e, _) => Done (Err e)
  | None => Done (Err FsRandom)
  end.

Definition cancel (st : Store) (ctx : bool) (id : string) : prog fsop (result FsError unit) :=
  fxE! u := OpenUpload st ctx id in fx! done := Cancel ctx u in Done done.1.

Definition thread_of (st : Store) (rq : request) : thread :=
  match rq with
  | RqPut ctx random d body => mkThread _ (Put st ctx random d body)
  | RqCreate ctx id => mkThread _ (CreateUpload st ctx id)
  | RqPatch ctx id body => mkThread _ (patch st ctx id body)
  | RqFinish ctx id d body => mkThread _ (finish st ctx id d body)
  | RqCancel ctx id => mkThread _ (cancel st ctx id)
  | RqGet ctx d => mkThread _ (Get st ctx d)
  | RqClose fd desc corrupt => mkThread _ (Reader_Close st fd desc corrupt)
  | RqStat ctx d => mkThread _ (Stat st ctx d)
  | RqDelete ctx d => mkThread _ (Delete st ctx d)
  | RqWalk ctx cancelled => mkThread _ (Walk st ctx cancelled (λ acc desc, Ok (acc ++ [desc])) [])
  end.

(** The file a request owns while it runs. *)
Definition owns (st : Store) (rq : request) : option path :=
  match rq with
  | RqPut _ random _ _ => staging_path st random
  | RqCreate _ id | RqPatch _ id _ | RqFinish _ id _ _ | RqCancel _ id => session_path st id
  | _ => None
  end.

Lemma owns_uploads st rq p : owns st rq = Some p → in_uploads st p.
Proof.
  destruct rq; simpl; try done; unfold staging_path, session_path; repeat case_match; intros [= <-]; by eexists.
Qed.

Lemma session_request st ctx id {A} (k : session → prog fsop (result FsError A)) :
  (∀ p u, in_uploads st p → u_path u = p → holds st (Some p) (λ _, True) (k u) (λ _ _, True)) →
  holds st (session_path st id) (λ _, True) (bindE (OpenUpload st ctx id) k) (λ _ _, True).
Proof.
  intros Hk. unfold bindE. eapply holds_bind; [apply OpenUpload_holds|]. intros [u|e]; [|by apply holds_done].
  intros s Hi [Hs Hp]. rewrite Hs. by apply Hk.
Qed.

Lemma request_holds st rq : holds st (owns st rq) (λ _, True) (t_prog (thread_of st rq)) (λ _ _, True).
Proof.
  destruct rq; simpl.
  - apply Put_holds.
  - apply CreateUpload_holds.
  - apply session_request. intros p u Hp Hu. eapply holds_bind; [by apply Write_holds|].
    intros a. eapply (holds_weaken st (Some p) (λ _, True)); [done|intros ?? H; exact H|by apply holds_done].
  - apply session_request. intros p u Hp Hu. eapply holds_bind; [by apply Write_holds|].
    intros [[[n [e|]] u']|]; [by apply holds_done| |by apply holds_done].
    intros s Hi [Hu' Hf]. revert s Hi Hf.
    change (holds st (Some p) (file_has p (λ x, i_dirty x = false))
      (bind (Commit st ctx digest u') (λ done, Done (match done.1 with Ok _ => Ok tt | Err e => Err e end))) (λ _ _, True)).
    eapply holds_bind; [by apply Commit_holds|]. intros. by apply holds_done.
  - apply session_request. intros p u Hp Hu. eapply holds_bind; [by apply Cancel_holds|]. intros. by apply holds_done.
  - apply Get_holds.
  - apply Reader_Close_holds.
  - apply Stat_holds.
  - apply Delete_holds.
  - apply Walk_holds.
Qed.

(** ** Everything together *)

(** What the service is doing: the requests taken since it was last started, and
    how far each has come. *)
Abbreviation jobs := (list (request * thread)).

(** No unfinished request works on the staging file or session that this one
    would work on. *)
Definition free (st : Store) (rq : request) (js : jobs) : Prop :=
  ∀ rq' t, (rq', t) ∈ js → finished t = false → ∀ p, owns st rq = Some p → owns st rq' ≠ Some p.

(** A request arrives, at any time; one of the requests makes its next call, which
    works or fails; the process is killed; the machine loses power. *)
Inductive serve_step (st : Store) : FS * jobs → FS * jobs → Prop :=
| serve_arrives s js rq : free st rq js → serve_step st (s, js) (s, js ++ [(rq, thread_of st rq)])
| serve_turn s js n rq A B (e : fsop B) (k : B → prog fsop A) c :
    js !! n = Some (rq, mkThread A (Do e k)) →
    serve_step st (s, js) ((fs_do c e s).2, <[n := (rq, mkThread A (k (fs_do c e s).1))]> js)
| serve_killed s js : serve_step st (s, js) (s, [])
| serve_crashes s s' js : crash s s' → serve_step st (s, js) (s', []).

(** The states of a store from the first start on. *)
Definition reachable (st : Store) (s : FS) : Prop := ∃ js, rtc (serve_step st) (empty_fs, []) (s, js).

Lemma empty_inv st : fs_inv st empty_fs.
Proof.
  assert (∀ p i, ¬ may_name empty_fs p i) as Hno.
  { intros p i (m & ->%list_elem_of_singleton & H). simpl in H. by rewrite lookup_empty in H. }
  split; simpl.
  - intros i _. by rewrite !lookup_empty.
  - intros p i H. by apply Hno in H.
  - intros fd i. by rewrite lookup_empty.
  - intros p i q _. by rewrite lookup_empty.
  - intros m p i q H. by apply elem_of_nil in H.
  - intros d p i _ H. by apply Hno in H.
Qed.

(** Unfinished requests are safe, and no two of them work on one file. *)
Record serve_inv (st : Store) (x : FS * jobs) : Prop := {
  si_files : fs_inv st x.1;
  si_safe n rq t : x.2 !! n = Some (rq, t) → finished t = false →
    safe (rely_of st (owns st rq)) (guar_of st (owns st rq)) (λ _ _, True) (t_prog t) x.1;
  si_apart n m a b ta tb p : n ≠ m → x.2 !! n = Some (a, ta) → x.2 !! m = Some (b, tb) → finished ta = false → finished tb = false →
    owns st a = Some p → owns st b ≠ Some p;
}.

Lemma serve_inv_idle st s : fs_inv st s → serve_inv st (s, []).
Proof. intros Hi. by split. Qed.

Lemma serve_inv_arrives st s js rq : serve_inv st (s, js) → free st rq js → serve_inv st (s, js ++ [(rq, thread_of st rq)]).
Proof.
  intros [Hi Hs Ha] Hf. simpl in *.
  assert (∀ n r t, (js ++ [(rq, thread_of st rq)]) !! n = Some (r, t) → js !! n = Some (r, t) ∨ n = length js ∧ r = rq ∧ t = thread_of st rq) as Hcase.
  { intros n r t [Hn|[Hle Hn]]%lookup_app_Some; [by left|right]. apply list_lookup_singleton_Some in Hn as [Hz [= -> ->]]. split; [lia|done]. }
  split; simpl; [done| |].
  - intros n r t [Hn|(_ & -> & ->)]%Hcase Hu; [by eapply Hs|]. eapply safe_mono; [|by apply request_holds]. done.
  - intros n m a b ta tb p Hne [Hn|(-> & -> & ->)]%Hcase [Hm|(-> & -> & ->)]%Hcase Hta Htb Hp; [by eapply (Ha n m)| | |done].
    + intros Hq. by eapply (Hf a ta (list_elem_of_lookup_2 _ _ _ Hn)).
    + by eapply (Hf b tb (list_elem_of_lookup_2 _ _ _ Hm)).
Qed.

Lemma serve_inv_turn st s js n rq A B (e : fsop B) (k : B → prog fsop A) c :
  serve_inv st (s, js) → js !! n = Some (rq, mkThread A (Do e k)) →
  serve_inv st ((fs_do c e s).2, <[n := (rq, mkThread A (k (fs_do c e s).1))]> js).
Proof.
  intros [Hi Hs Ha] Hn. simpl in *. destruct (Hs n _ _ Hn eq_refl s c) as [Hg Hk]; [reflexivity|].
  assert (∀ m r t, <[n := (rq, mkThread A (k (fs_do c e s).1))]> js !! m = Some (r, t) →
    (m = n ∧ r = rq ∧ t = mkThread A (k (fs_do c e s).1)) ∨ (m ≠ n ∧ js !! m = Some (r, t))) as Hcase.
  { intros m r t Hm. destruct (decide (m = n)) as [->|Hne]; [left|right].
    - rewrite list_lookup_insert_eq in Hm by by eapply lookup_lt_Some. by injection Hm as <- <-.
    - by rewrite list_lookup_insert_ne in Hm. }
  split; simpl; [by apply Hg| |].
  - intros m r t [(-> & -> & ->)|[Hne Hm]]%Hcase Hu; [done|].
    eapply (safe_rely (rely_of st (owns st r)) (guar_of st (owns st r))); [|by eapply Hs].
    destruct (Hg Hi) as (Hi2 & Ho & Hr). destruct (owns st r) as [p|] eqn:Hb; [|by split].
    apply Hr; [by eapply owns_uploads|]. intros Hq. by eapply (Ha n m).
  - intros x y a b ta tb p Hne [(-> & -> & ->)|[Hx Hja]]%Hcase [(-> & -> & ->)|[Hy Hjb]]%Hcase Hta Htb Hp; [done| | |by eapply (Ha x y)].
    + by eapply (Ha n y).
    + intros Hq. by eapply (Ha n x).
Qed.

Lemma serve_step_inv st x y : serve_step st x y → serve_inv st x → serve_inv st y.
Proof.
  intros [s js rq Hf|s js n rq A B e k c Hn|s js|s s' js Hc] H;
    [by apply serve_inv_arrives|by eapply serve_inv_turn| |]; apply serve_inv_idle; [apply H|eapply crash_inv; [apply H|done]].
Qed.

Lemma reachable_inv st s : reachable st s → fs_inv st s.
Proof.
  intros [js Hr]. assert (serve_inv st (s, js)) as H; [|by apply H].
  refine (rtc_ind_l (λ x, serve_inv st x → serve_inv st (s, js)) _ _ _ _ Hr _); [done|eauto using serve_step_inv|].
  apply serve_inv_idle, empty_inv.
Qed.

(** C20: A file named after a digest always has that content. Requests arrive at
    any time and run beside each other in any interleaving of their file calls,
    any call may fail, the process may be killed and the machine may lose power at
    any instant: in every state reached from an empty directory, what is stored
    under a digest hashes to it, and it would still do so after a power loss at that
    instant. Nothing half written, unverified or not yet on disk is ever visible.
    The one condition is on arrivals: no request arrives for an upload session on
    which another is still unfinished, and no two unfinished puts draw the same
    random staging name. A sync that succeeds is taken to cover what an earlier
    failed sync of the file left unwritten. *)
Theorem blobs_on_disk_are_always_verified st s :
  reachable st s →
  (∀ d content, blob_at st s d = Some content → hashes_to d content) ∧
  (∀ s' d content, crash s s' → blob_at st s' d = Some content → hashes_to d content).
Proof.
  intros Hi%reachable_inv. split.
  - intros d content. by apply inv_blob_at.
  - intros s' d content Hc. apply inv_blob_at. by eapply crash_inv.
Qed.

(** ** Put, undisturbed *)
Definition working : ∀ B, fsop B → FS → option (B * FS) := λ B e s, Some (fs_do (Works "") e s).

Lemma exec_call_bind {B C} (e : fsop B) (k : B → prog fsop C) s :
  exec working (bind (call e) k) s = exec working (k (fs_do (Works "") e s).1) (fs_do (Works "") e s).2.
Proof. cbn. by destruct (fs_do (Works "") e s). Qed.

(** The loop writes what [io.Copy] copies. *)
Lemma exec_copy {R} `{!Reader R} fuel fd i x base written (src : R) out e src' s :
  copy_loop fuel written src = Some (out, e, src') → f_open s !! fd = Some i → f_inodes s !! i = Some x → i_data x = base ++ written →
  ∃ y, i_data y = base ++ out ∧
    exec working (copy_file fuel fd written src) s =
    Some (Some (out, match e with Some (Failed b) => Some (FsBlob b) | _ => None end, src'),
          mkFS (f_names s) (f_past s) (<[i := y]> (f_inodes s)) (f_open s) (f_next s)).
Proof.
  revert written src s x. induction fuel as [|fuel IH]; intros written src s x Hc Ho Hx Hd; [done|]. cbn [copy_loop copy_file] in *.
  destruct (rd_read copyBuffer src) as [[[c e'] src1]|]; [|done].
  set (next := λ w, match e' with
                    | None => copy_file fuel fd w src1
                    | Some EOF => Done (Some (w, None, src1))
                    | Some (Failed e0) => Done (Some (w, Some (FsBlob e0), src1))
                    end).
  assert (∀ s x, f_open s !! fd = Some i → f_inodes s !! i = Some x → i_data x = base ++ (written ++ c) →
    ∃ y, i_data y = base ++ out ∧ exec working (next (written ++ c)) s =
      Some (Some (out, match e with Some (Failed b) => Some (FsBlob b) | _ => None end, src'),
            mkFS (f_names s) (f_past s) (<[i := y]> (f_inodes s)) (f_open s) (f_next s))) as Hnext.
  { clear s x Ho Hx Hd. intros s x Ho Hx Hd. unfold next. destruct e' as [[|b]|].
    - injection Hc as <- <- <-. exists x. split; [done|]. simpl. rewrite insert_id by done. by destruct s.
    - injection Hc as <- <- <-. exists x. split; [done|]. simpl. rewrite insert_id by done. by destruct s.
    - by apply (IH (written ++ c) src1 s x). }
  destruct c as [|b c].
  - rewrite app_nil_r in Hnext. by apply (Hnext s x).
  - rewrite exec_call_bind. cbn [fs_do fst snd]. unfold write_handle. rewrite Ho.
    destruct (Hnext (alter_inode (append_data (b :: c)) i s) (append_data (b :: c) x)) as (y & Hy & He).
    + done.
    + cbn. by rewrite lookup_alter_eq, Hx.
    + cbn. by rewrite Hd, <- app_assoc.
    + exists y. split; [done|]. unfold next in He. rewrite He. cbn. do 3 f_equal.
      apply map_eq. intros j. destruct (decide (i = j)) as [->|Hne]; [by rewrite !lookup_insert_eq|].
      by rewrite !lookup_insert_ne, lookup_alter_ne.
Qed.

(** What a table of names gives for a digest. *)
Lemma blob_at_name st s d p i x :
  blobPath st d = Ok p → f_names s !! p = Some i → f_inodes s !! i = Some x → blob_at st s d = Some (i_data x).
Proof. intros Hb Hn Hx. unfold blob_at. rewrite Hb. simpl. rewrite Hn. simpl. by rewrite Hx. Qed.

Section put_alone.
Context {R : Type} `{!Reader R, !ReaderLaws R}.
Context (st : Store) (d : string) (raw : bytes) (target : path).
Context (Htarget : blobPath st d = Ok target).
Local Notation p := (st_root st ++ [uploadsDir; "staging-" +:+ hex_bytes raw]).

(** Staging: a new file with the content, synced. *)
Lemma exec_stage (r : R) s :
  rd_wf r → rd_end r = EOF → hashes_to d (rd_rest r) → f_names s !! p = None →
  ∃ r' x, i_data x = rd_rest r ∧ i_dirty x = false ∧
    exec working (stage st (Some raw) r d) s =
    Some (Some (Ok p, r'), mkFS (<[p := f_next s]> (f_names s)) (f_names s :: f_past s) (<[f_next s := x]> (f_inodes s))
                             (<[S (f_next s) := f_next s]> (f_open s)) (S (S (f_next s)))).
Proof.
  intros Hwf He Hh Hfree. unfold stage. cbn [randomName]. rewrite staging_confined, exec_call_bind. cbn [fs_do]. rewrite Hfree.
  cbn [create_file open_handle fst snd f_names f_past f_inodes f_open f_next]. unfold CopyFile.
  destruct (NewVerifier d) as [v|] eqn:Hv; [|unfold NewVerifier in Hv; apply blobPath_iff in Htarget as [Hd _]; by rewrite Hd in Hv].
  destruct (io_Copy_all r Hwf) as (r' & Hc & _). rewrite He in Hc.
  set (s1 := mkFS _ _ _ _ _).
  destruct (exec_copy (S (rd_left r)) (S (f_next s)) (f_next s) (mkInode stagingMode [] true) [] [] r _ _ _ s1 Hc) as (y & Hy & Hx);
    [unfold s1; cbn; by rewrite lookup_insert_eq|unfold s1; cbn; by rewrite lookup_insert_eq|done|].
  rewrite !exec_bind. unfold io_CopyFile. rewrite Hx. cbn [exec].
  pose proof (Verify_iff d v (rd_rest r) Hv) as Hiff. destruct (Verifier_Verify _); [|by destruct Hiff]. cbn [result_map_err].
  rewrite exec_call_bind. unfold s1. cbn [fs_do f_open]. rewrite lookup_insert_eq. cbn [fst snd]. rewrite exec_call_bind.
  cbn [fs_do fst snd exec]. exists r', (mkInode (i_mode y) (i_data y) false). split; [exact Hy|]. split; [done|].
  do 3 f_equal. unfold alter_inode. cbn. f_equal.
  apply map_eq. intros j. destruct (decide (f_next s = j)) as [<-|Hne].
  - by rewrite lookup_alter_eq, !lookup_insert_eq.
  - by rewrite lookup_alter_ne, !lookup_insert_ne.
Qed.

Lemma p_not_target : p ≠ target.
Proof. intros Heq. apply (blob_not_upload st) in Htarget. apply Htarget. rewrite <- Heq. by eexists. Qed.

(** Publishing: the name moves and the directory is synced. *)
Lemma exec_commit i x s :
  f_names s !! p = Some i → f_names s !! target = None → f_inodes s !! i = Some x →
  exec working (commit p target) s =
  Some (Ok tt, mkFS (delete p (<[target := i]> (f_names s))) [] (<[i := mkInode committedMode (i_data x) (i_dirty x)]> (f_inodes s))
                 (f_open s) (f_next s)).
Proof.
  intros Hp Ht Hx. unfold commit. rewrite exec_call_bind. cbn [fs_do]. unfold with_name at 1 2. rewrite Ht. cbn [fst snd].
  rewrite exec_call_bind. cbn [fs_do fst snd]. rewrite exec_call_bind. cbn [fs_do]. unfold with_name at 1 2. rewrite Hp. cbn [fst snd].
  rewrite exec_call_bind. cbn [fs_do]. unfold with_name, alter_inode. cbn [f_names]. rewrite Hp. cbn [fst snd].
  rewrite decide_False by apply p_not_target. unfold syncDir. rewrite exec_call_bind. cbn. do 2 f_equal. f_equal.
  apply map_eq. intros j. destruct (decide (i = j)) as [->|Hne].
  - by rewrite lookup_alter_eq, Hx, lookup_insert_eq.
  - by rewrite lookup_alter_ne, lookup_insert_ne.
Qed.
End put_alone.

(** A put of new content is on disk when it is acknowledged. With calls that
    work, nobody else at work, a fresh staging name and no blob of that digest yet,
    putting content under its digest succeeds, the content is read back byte for
    byte, a power loss right after does not take it away, and every other blob
    stays as it was. For a digest that is already there see
    [acknowledged_duplicate_can_be_lost]. *)
Theorem put_is_durable {R} `{!Reader R, !ReaderLaws R} st s d (r : R) raw :
  fs_inv st s → Digest_Validate d = Ok tt → rd_wf r → rd_end r = EOF → hashes_to d (rd_rest r) →
  f_names s !! (st_root st ++ [uploadsDir; "staging-" +:+ hex_bytes raw]) = None → blob_at st s d = None →
  ∃ r' s', exec working (Put st false (Some raw) d r) s = Some (Some (Ok tt, r'), s') ∧
    blob_at st s' d = Some (rd_rest r) ∧ (∀ s'', crash s' s'' → blob_at st s'' d = Some (rd_rest r)) ∧
    (∀ d', d' ≠ d → blob_at st s' d' = blob_at st s d').
Proof.
  intros Hi Hd Hwf He Hh Hfree Hnew.
  destruct (blobPath st d) as [target|e] eqn:Hb; [|exfalso; pose proof (proj2 (blobPath_iff st d _) (conj Hd eq_refl)); congruence].
  set (p := st_root st ++ [uploadsDir; "staging-" +:+ hex_bytes raw]) in *.
  assert (p ≠ target) as Hne by by apply p_not_target with d.
  assert (f_names s !! target = None) as Ht.
  { destruct (f_names s !! target) as [j|] eqn:Hj; [|done]. exfalso.
    destruct (inv_named st s Hi target j (may_name_now _ _ _ Hj)) as [y Hy]. by rewrite (blob_at_name _ _ _ _ _ _ Hb Hj Hy) in Hnew. }
  destruct (exec_stage st d raw target Hb r s Hwf He Hh Hfree) as (r' & x & Hx & Hdirty & Hs).
  set (s1 := mkFS _ _ _ _ _) in Hs.
  pose proof (exec_commit st d raw target Hb (f_next s) x s1) as Hc. unfold s1 in Hc. cbn [f_names f_inodes] in Hc.
  rewrite lookup_insert_eq, lookup_insert_ne, lookup_insert_eq in Hc by done. specialize (Hc eq_refl Ht eq_refl).
  match type of Hc with _ = Some (_, ?after) => set (s2 := after) in Hc end. exists r', s2.
  assert (blob_at st s2 d = Some (rd_rest r)) as Hat.
  { rewrite (blob_at_name st s2 d target (f_next s) (mkInode committedMode (i_data x) (i_dirty x))); [by simpl; rewrite Hx|done|..].
    - unfold s2. cbn. by rewrite lookup_delete_ne, lookup_insert_eq.
    - unfold s2. cbn. by rewrite lookup_insert_eq. }
  split_and!.
  - unfold Put. rewrite Hb, exec_bind, Hs. cbv beta iota. subst p s1. rewrite exec_bind, Hc. cbv beta iota. rewrite exec_call_bind.
    cbn [fs_do]. unfold with_name. unfold s2 at 1 2. cbn [f_names]. rewrite lookup_delete_eq. done.
  - exact Hat.
  - intros s'' (Ho & Hp & _ & Hn & Hdata). unfold s2 in Hdata, Hn. cbn [f_names f_past f_inodes] in Hdata, Hn.
    apply list_elem_of_singleton in Hn. specialize (Hdata (f_next s)). rewrite lookup_insert_eq in Hdata.
    destruct (f_inodes s'' !! f_next s) as [y|] eqn:Hy; [|done]. destruct Hdata as [_ Hdata]. cbn [i_dirty i_data] in Hdata.
    rewrite (blob_at_name st s'' d target (f_next s) y); [|done| |done].
    + f_equal. rewrite Hdata by done. exact Hx.
    + rewrite Hn. by rewrite lookup_delete_ne, lookup_insert_eq.
  - intros d' Hne'. unfold blob_at. destruct (blobPath st d') as [q|] eqn:Hq; [|done]. unfold s2. cbn.
    assert (q ≠ target) as Hqt by (intros ->; apply Hne'; by eapply blobPath_inj).
    assert (q ≠ p) as Hqp by (intros ->; by apply p_not_target with (st := st) (d := d') (raw := raw) in Hq).
    rewrite lookup_delete_ne, !lookup_insert_ne by done. destruct (f_names s !! q) as [j|] eqn:Hj; [|done]. simpl.
    rewrite !lookup_insert_ne; [done|..]; intros <-.
    all: destruct (inv_named st s Hi q _ (may_name_now _ _ _ Hj)) as [y Hy].
    all: by destruct (inv_fresh st s Hi (f_next s)) as [Hn _]; [|rewrite Hn in Hy].
Qed.

(** ** Schedules: concrete interleavings, every call working *)
Inductive action : Type := Arrives (rq : request) | Turn (n : nat).

Definition act (st : Store) (a : action) (x : FS * jobs) : FS * jobs :=
  match a with
  | Arrives rq => (x.1, x.2 ++ [(rq, thread_of st rq)])
  | Turn n =>
      match x.2 !! n with
      | Some (rq, mkThread A (Do e k)) => ((fs_do (Works "") e x.1).2, <[n := (rq, mkThread A (k (fs_do (Works "") e x.1).1))]> x.2)
      | _ => x
      end
  end.

Fixpoint serve (st : Store) (schedule : list action) (x : FS * jobs) : FS * jobs :=
  match schedule with [] => x | a :: schedule => serve st schedule (act st a x) end.

(** The schedule waits for a session to be let go of. *)
Definition is_free (st : Store) (rq : request) (js : jobs) : bool :=
  forallb (λ '(rq', t), finished t || bool_decide (owns st rq = None) || bool_decide (owns st rq' ≠ owns st rq)) js.

Fixpoint orderly (st : Store) (schedule : list action) (x : FS * jobs) : bool :=
  match schedule with
  | [] => true
  | a :: schedule => match a with Arrives rq => is_free st rq x.2 | Turn _ => true end && orderly st schedule (act st a x)
  end.

Lemma is_free_free st rq js : is_free st rq js = true → free st rq js.
Proof.
  unfold is_free. rewrite forallb_forall. intros Hall rq' t Hin Hu p Hp Hq. apply list_elem_of_In, Hall in Hin.
  rewrite Hu, Hp, Hq in Hin. cbn [orb] in Hin. rewrite bool_decide_eq_false_2 in Hin by done. by apply bool_decide_eq_true_1 in Hin.
Qed.

Lemma serve_steps st schedule x : orderly st schedule x = true → rtc (serve_step st) x (serve st schedule x).
Proof.
  revert x. induction schedule as [|a schedule IH]; intros [s js]; [done|]. cbn [orderly serve]. intros [Ha Ho]%andb_true_iff.
  assert (rtc (serve_step st) (s, js) (act st a (s, js))) as H1; [|etrans; [exact H1|by apply IH]].
  destruct a as [rq|n]; simpl in *; [apply rtc_once, serve_arrives, is_free_free, Ha|].
  destruct (js !! n) as [[rq [A [a|B e k]]]|] eqn:Hn; [done| |done]. by apply rtc_once, serve_turn.
Qed.

Definition demo_store : Store := mkStore ["srv"; "trove"] false.
Definition demo_body (text : string) : Body := mkBody [String.list_ascii_of_string text] false EOF.
Definition hello_digest : string := "sha256:2cf24dba5fb0a30e26e83b2ac5b9e29e1b161e5c1fa7425e73043362938b9824".
Definition hello : bytes := String.list_ascii_of_string "hello".

(** An upload of five bytes in two requests, while a put of the same content is
    under way. *)
Definition upload_beside_put : list action :=
  [Arrives (RqPut false (Some ["a"%char]) hello_digest (demo_body "hello")); Turn 0; Turn 0; Arrives (RqCreate false "u1")] ++
  repeat (Turn 1) 5 ++ [Turn 0; Arrives (RqPatch false "u1" (demo_body "hello"))] ++ repeat (Turn 2) 20.
Definition with_session : FS * jobs := serve demo_store upload_beside_put (empty_fs, []).

Lemma with_session_reachable : reachable demo_store with_session.1.
Proof. exists with_session.2. rewrite <- surjective_pairing. apply serve_steps. vm_compute. reflexivity. Qed.

(** Two requests on one session: the second chunk opens the file before the commit
    verifies and renames it, and writes after. The commit succeeds, and the blob it
    published changes under its digest. *)
Definition late_chunk : list action :=
  [Arrives (RqCreate false "u1")] ++ repeat (Turn 0) 5 ++ [Arrives (RqPatch false "u1" (demo_body "hello"))] ++ repeat (Turn 1) 20 ++
  [Arrives (RqPatch false "u1" (demo_body " again")); Arrives (RqFinish false "u1" hello_digest (mkBody [] false EOF))] ++
  repeat (Turn 2) 2 ++ repeat (Turn 3) 20 ++ repeat (Turn 2) 4.

Lemma committed_blob_can_change :
  let x := serve demo_store late_chunk (empty_fs, []) in
  forallb finished x.2.*2 = true ∧
  blob_at demo_store x.1 hello_digest = Some (String.list_ascii_of_string "hello again") ∧
  ¬ hashes_to hello_digest (String.list_ascii_of_string "hello again").
Proof.
  split; [vm_compute; reflexivity|]. split; [vm_compute; reflexivity|].
  apply (bool_decide_eq_false_1 (hashes_to hello_digest (String.list_ascii_of_string "hello again"))). vm_compute. reflexivity.
Qed.

(** Two puts of the same content: the second finds the name the first has just
    made and succeeds before the first has synced the directory. A crash then
    loses the blob the second acknowledged. *)
Definition duplicate_puts : FS * jobs :=
  serve demo_store ([Arrives (RqPut false (Some ["a"%char]) hello_digest (demo_body "hello"));
    Arrives (RqPut false (Some ["b"%char]) hello_digest (demo_body "hello"))] ++ repeat (Turn 0) 8 ++ repeat (Turn 1) 20) (empty_fs, []).

Lemma acknowledged_duplicate_can_be_lost :
  (∃ rq A a, duplicate_puts.2 !! 1 = Some (rq, mkThread A (Done a))) ∧
  blob_at demo_store duplicate_puts.1 hello_digest = Some hello ∧
  ∃ s, crash duplicate_puts.1 s ∧ blob_at demo_store s hello_digest = None.
Proof.
  split; [eexists _, _, _; vm_compute; reflexivity|]. split; [vm_compute; reflexivity|].
  exists (mkFS ∅ [] ((λ x, mkInode (i_mode x) (i_data x) false) <$> f_inodes duplicate_puts.1) ∅ (f_next duplicate_puts.1)).
  split; [|vm_compute; reflexivity]. split_and!; [done|done|done| |].
  - apply list_elem_of_lookup. exists (length (f_past duplicate_puts.1)). vm_compute. reflexivity.
  - intros i. cbn [f_inodes]. rewrite lookup_fmap. by destruct (f_inodes duplicate_puts.1 !! i).
Qed.

(** ** Witnesses *)
Lemma layout_round_trip_witness :
  digestFromPath (Join (st_root demo_store) [blobsDir]) ["srv"; "trove"; "blobs"; "sha256"; "2c"; String.substring 7 64 hello_digest] = Some hello_digest.
Proof. apply (layout_round_trip demo_store hello_digest). vm_compute. reflexivity. Defined.

Lemma blobs_on_disk_are_always_verified_witness :
  reachable demo_store with_session.1 ∧
  ∀ d content, blob_at demo_store with_session.1 d = Some content → hashes_to d content.
Proof.
  split; [apply with_session_reachable|].
  exact (proj1 (blobs_on_disk_are_always_verified demo_store with_session.1 with_session_reachable)).
Defined.

Lemma hello_hashes : hashes_to hello_digest hello.
Proof. apply (bool_decide_eq_true_1 _). vm_compute. reflexivity. Qed.

Lemma put_is_durable_witness :
  ∃ r' s', exec working (Put demo_store false (Some ["a"%char]) hello_digest (mkBytesReader hello)) empty_fs = Some (Some (Ok tt, r'), s') ∧
    blob_at demo_store s' hello_digest = Some hello.
Proof.
  destruct (put_is_durable demo_store empty_fs hello_digest (mkBytesReader hello) ["a"%char]) as (r' & s' & H1 & H2 & _).
  - apply empty_inv.
  - vm_compute. reflexivity.
  - exact I.
  - reflexivity.
  - apply hello_hashes.
  - vm_compute. reflexivity.
  - vm_compute. reflexivity.
  - exists r', s'. split; [exact H1|exact H2].
Defined.
