(* ===== verification/Keyfile.v ===== *)
(** * The keyfile (src/internal/secretbox/keyring.go: Load, Create, Write)

    Reading a keyfile with its permissions checked on the open handle, creating the
    first one, and replacing it through a temporary file; and how the server opens
    it (src/internal/cli/serve.go, openKeyring). A failure is the typed reason; the
    path every [KeyfileError] carries is the argument. What is proved is what an
    operator relies on: a keyfile is replaced completely or not at all, whatever
    fails and whenever the machine stops, and is never replaced by a fresh key. *)
From S2P Require Import Prelude RepoName Sha2 Digest Verify GoStrings Base64 Crypto Secretbox SecretboxSpec Effects Files.

Definition MaxKeyfileSize : nat := N.to_nat 65536.
#[global] Arguments MaxKeyfileSize : simpl never.
Definition keyfileMode : Z := 384.               (* 0o600 *)

Inductive KeyError : Type :=
| KeyIO (e : errno)
| KeyInsecure (mode : Z)
| KeySecret (line : nat) (e : SecretError).

(** [mode.Perm()&0o077 != 0]. *)
Definition insecureMode (mode : Z) : bool := negb (Z.land mode 63 =? 0)%Z.

Definition of_parse (r : result KeyfileError Keyring) : result KeyError Keyring :=
  match r with Ok kr => Ok kr | Err e => Err (KeySecret (kf_line e) (kf_err e)) end.

(** [io.ReadAll(io.LimitReader(file, MaxKeyfileSize+1))] and the parse. *)
Definition parse_limited (data : bytes) : result KeyError Keyring :=
  let data := take (S MaxKeyfileSize) data in
  if MaxKeyfileSize <? length data then Err (KeySecret 0 (InvalidKeyError KeyfileTooLarge))
  else of_parse (parseKeyring (String.string_of_list_ascii data)).

Definition load (p : path) (skipPermissionCheck : bool) : prog fsop (result KeyError Keyring) :=
  fx! opened := call (OpenRead p) in
  match opened with
  | Err e => Done (Err (KeyIO e))
  | Ok fd =>
      fx! info := call (FileStat fd) in
      match info with
      | Err e => fx! _ := call (FileClose fd) in Done (Err (KeyIO e))
      | Ok (mode, _) =>
          if negb skipPermissionCheck && insecureMode mode
          then fx! _ := call (FileClose fd) in Done (Err (KeyInsecure mode))
          else
            fx! data := call (ReadToEnd fd) in
            fx! _ := call (FileClose fd) in
            Done (match data with Err e => Err (KeyIO e) | Ok data => parse_limited data end)
      end
  end.

Definition writeAndSync (fd : nat) (content : string) : prog fsop (result errno unit) :=
  fx! w := call (FileWrite fd (String.list_ascii_of_string content)) in
  match w with
  | (_, Some e) => Done (Err e)
  | (_, None) => call (FileSync fd)
  end.

Definition writeAndClose (fd : nat) (content : string) : prog fsop (result errno unit) :=
  fx! written := writeAndSync fd content in
  fx! closed := call (FileClose fd) in
  Done (match written with Err e => Err e | Ok _ => closed end).

Definition Create (p : path) (random : Random) : prog fsop (result KeyError Keyring) :=
  fx! made := call (MkdirAll (Dir p)) in
  match made with
  | Err e => Done (Err (KeyIO e))
  | Ok _ =>
      match generateKey random with
      | Err e => Done (Err (KeySecret 0 e))
      | Ok (key, _) =>
          match newKeyring [key] with
          | Err e => Done (Err (KeySecret 0 e))
          | Ok kr =>
              fx! opened := call (OpenExcl p keyfileMode) in
              match opened with
              | Err e => Done (Err (KeyIO e))
              | Ok fd =>
                  fx! written := writeAndClose fd (Encode (Some kr)) in
                  Done (match written with Err e => Err (KeyIO e) | Ok _ => Ok kr end)
              end
          end
      end
  end.

Definition Keyring_Write (r : option Keyring) (p : path) : prog fsop (result KeyError unit) :=
  if match r with None => true | Some r => match kr_entries r with [] => true | _ => false end end
  then Done (Err (KeySecret 0 ErrNoKey))
  else
    fx! made := call (MkdirAll (Dir p)) in
    match made with
    | Err e => Done (Err (KeyIO e))
    | Ok _ =>
        fx! temp := call (CreateTemp (Dir p) ".secrets-" ".key") in
        match temp with
        | Err e => Done (Err (KeyIO e))
        | Ok (tempPath, fd) =>
            fx! written := writeAndClose fd (Encode r) in
            match written with
            | Err e => fx! _ := call (Remove tempPath) in Done (Err (KeyIO e))
            | Ok _ =>
                fx! moved := call (Rename tempPath p) in
                match moved with
                | Err e => fx! _ := call (Remove tempPath) in Done (Err (KeyIO e))
                | Ok _ => Done (Ok tt)
                end
            end
        end
    end.

(** serve.go: only a keyfile that does not exist is created. *)
Definition openKeyring (p : path) (skipPermissionCheck : bool) (random : Random) : prog fsop (result KeyError Keyring) :=
  fx! ring := load p skipPermissionCheck in
  match ring with
  | Ok ring => Done (Ok ring)
  | Err (KeyIO ENOENT) => Create p random
  | Err e => Done (Err e)
  end.

(** ** Replacing the keyfile *)

(** What is at a path, in one table of names. *)
Definition at_name (s : FS) (m : gmap path nat) (p : path) : option inode := i ← m !! p; f_inodes s !! i.

(** The file at [p], now and in whatever table a crash may bring back, is on disk
    and has one of two contents. *)
Definition one_of (p : path) (old new : option bytes) (s : FS) : Prop :=
  ∀ m, m ∈ f_names s :: f_past s →
    match at_name s m p with
    | None => m !! p = None ∧ (old = None ∨ new = None)
    | Some x => i_dirty x = false ∧ (Some (i_data x) = old ∨ Some (i_data x) = new)
    end.

(** What is found at [p] in a state. *)
Definition read_at (s : FS) (p : path) : option bytes := i_data <$> at_name s (f_names s) p.

Lemma one_of_now p old new s : one_of p old new s → read_at s p = old ∨ read_at s p = new.
Proof.
  intros H. specialize (H (f_names s) ltac:(by left)). unfold read_at.
  destruct (at_name s (f_names s) p) as [x|]; simpl; [naive_solver|]. destruct H as [_ [->| ->]]; auto.
Qed.

Lemma one_of_crash p old new s s' : one_of p old new s → crash s s' → one_of p old new s'.
Proof.
  intros H (_ & Hp & _ & Hn & Hd) m Hm. rewrite Hp in Hm. apply list_elem_of_singleton in Hm as ->.
  specialize (H _ Hn). unfold at_name in *. destruct (f_names s' !! p) as [i|]; [|exact H]. simpl in *. specialize (Hd i).
  destruct (f_inodes s !! i) as [x|], (f_inodes s' !! i) as [y|]; try done.
  destruct H as [Hx H]. destruct Hd as [Hy Hdata]. rewrite Hdata by done. done.
Qed.

(** Inodes are numbered below [f_next], and names lead to them. *)
Definition sane (s : FS) : Prop :=
  (∀ i, f_next s ≤ i → f_inodes s !! i = None) ∧
  (∀ m q i, m ∈ f_names s :: f_past s → m !! q = Some i → is_Some (f_inodes s !! i)).

(** A program alone: nobody moves between its calls. *)
Lemma safe_alone {B C} (guar : FS → FS → Prop) (Q : C → FS → Prop) (e : fsop B) (k : B → prog fsop C) s :
  (∀ c, guar s (fs_do c e s).2 ∧ safe eq guar Q (k (fs_do c e s).1) (fs_do c e s).2) → safe eq guar Q (bind (call e) k) s.
Proof. intros H. apply safe_file_call. intros s' c <-. apply H. Qed.

Lemma safe_stop {A} (guar : FS → FS → Prop) (Q : A → FS → Prop) a s : Q a s → safe eq guar Q (Done a) s.
Proof. intros H s' <-. done. Qed.

Section write.
Context (p : path) (old : option bytes) (kr : Keyring).
Context (Hname : ∀ n, p ≠ Dir p ++ [".secrets-" +:+ n +:+ ".key"]).
Let text : bytes := String.list_ascii_of_string (Encode (Some kr)).
Local Notation ok := (one_of p old (Some text)).
Local Notation alone := (safe eq (λ _ s, ok s)).

(** The temporary file: ours, and not what is at [p] in any table. *)
Definition temp_file (q : path) (fd i : nat) (P : inode → Prop) (s : FS) : Prop :=
  ok s ∧ read_at s p = old ∧ q ≠ p ∧ f_names s !! q = Some i ∧ f_open s !! fd = Some i ∧
  (∀ m, m ∈ f_names s :: f_past s → m !! p ≠ Some i) ∧ ∃ x, f_inodes s !! i = Some x ∧ P x.

Lemma alter_elsewhere f i s : (∀ m, m ∈ f_names s :: f_past s → m !! p ≠ Some i) → ok s →
  ok (alter_inode f i s) ∧ read_at (alter_inode f i s) p = read_at s p.
Proof.
  intros Hno Hok.
  assert (∀ m, m ∈ f_names s :: f_past s → at_name (alter_inode f i s) m p = at_name s m p) as Hat.
  { intros m Hm. specialize (Hno m Hm). unfold at_name. destruct (m !! p) as [j|]; [|done]. simpl.
    rewrite lookup_alter_ne; [done|]. congruence. }
  split.
  - intros m Hm. rewrite (Hat m Hm). by apply Hok.
  - unfold read_at. f_equal. apply (Hat (f_names s)). by left.
Qed.

Lemma alter_temp f q fd i P P' s : (∀ x, P x → P' (f x)) → temp_file q fd i P s → temp_file q fd i P' (alter_inode f i s).
Proof.
  intros HP (Hok & Hr & Hq & Hn & Ho & Hno & x & Hx & HPx). destruct (alter_elsewhere f i s Hno Hok) as [Hok' Hr'].
  split_and!; try done; [congruence|]. exists (f x). split; [|auto]. cbn. by rewrite lookup_alter_eq, Hx.
Qed.

Lemma temp_removed q fd i P s : temp_file q fd i P s → ok (set_names (delete q) s) ∧ read_at (set_names (delete q) s) p = old.
Proof.
  intros (Hok & Hr & Hq & _). split.
  - intros m [->|Hm]%elem_of_cons; [|by apply (Hok m)]. specialize (Hok (f_names s) ltac:(by left)).
    unfold at_name in *. cbn [f_inodes f_names set_names]. rewrite lookup_delete_ne by done. exact Hok.
  - unfold read_at, at_name in *. cbn [f_names f_inodes set_names]. by rewrite lookup_delete_ne.
Qed.

Lemma give_back {A} q fd i P (a : A) s Q : temp_file q fd i P s → (∀ s, read_at s p = old → Q a s) →
  alone Q (bind (call (Remove q)) (λ _, Done a)) s.
Proof.
  intros Ht HQ. apply safe_alone. intros c. pose proof (temp_removed _ _ _ _ _ Ht) as [Hok Hr]. destruct Ht as (Hok0 & Hr0 & Hq & Hn & _).
  destruct c; cbn [fs_do].
  - unfold with_name. rewrite Hn. split; [exact Hok|]. apply safe_stop, HQ, Hr.
  - split; [exact Hok0|]. apply safe_stop, HQ, Hr0.
Qed.

Lemma temp_renamed q fd i s : temp_file q fd i (λ x, i_data x = text ∧ i_dirty x = false) s →
  let s' := set_names (λ m, delete q (<[p := i]> m)) s in ok s' ∧ read_at s' p = Some text.
Proof.
  intros (Hok & Hr & Hq & Hn & _ & Hno & x & Hx & Hd & Hdirty). split.
  - intros m [->|Hm]%elem_of_cons; [|by apply (Hok m)]. unfold at_name. cbn [f_inodes f_names set_names].
    rewrite lookup_delete_ne, lookup_insert_eq by done. simpl. rewrite Hx. split; [done|]. right. by rewrite Hd.
  - unfold read_at, at_name. cbn [f_names f_inodes set_names]. rewrite lookup_delete_ne, lookup_insert_eq by done. simpl.
    rewrite Hx. simpl. by rewrite Hd.
Qed.

Lemma created_temp n s : sane s → ok s → read_at s p = old →
  let q := Dir p ++ [".secrets-" +:+ n +:+ ".key"] in
  f_names s !! q = None → temp_file q (S (f_next s)) (f_next s) (λ x, i_data x = []) (create_file q 384 s).2.
Proof.
  intros [Hfresh Hnamed] Hok Hr q Hfree. assert (q ≠ p) as Hq by (intros Heq; by apply (Hname n)).
  assert (∀ m, m ∈ f_names s :: f_past s → at_name (create_file q 384 s).2 m p = at_name s m p ∧ m !! p ≠ Some (f_next s)) as Hat.
  { intros m Hm. unfold at_name. destruct (m !! p) as [j|] eqn:Hj; [|done]. destruct (Hnamed m p j Hm Hj) as [x Hx].
    assert (f_next s ≠ j) as Hne by (intros <-; by rewrite Hfresh in Hx). simpl. split; [|congruence]. cbn. by rewrite lookup_insert_ne. }
  assert (∀ m : gmap path nat, <[q := f_next s]> m !! p = m !! p) as Hins by (intros m; by rewrite lookup_insert_ne).
  split_and!; try done.
  - intros m [->|Hm]%elem_of_cons.
    + specialize (Hok (f_names s) ltac:(by left)). destruct (Hat (f_names s) ltac:(by left)) as [He _].
      assert (at_name (create_file q 384 s).2 (f_names (create_file q 384 s).2) p = at_name s (f_names s) p) as ->.
      { rewrite <- He. unfold at_name. cbn [f_names create_file open_handle snd]. by rewrite Hins. }
      cbn [f_names create_file open_handle snd]. rewrite Hins. exact Hok.
    + destruct (Hat m Hm) as [-> _]. by apply Hok.
  - destruct (Hat (f_names s) ltac:(by left)) as [He _]. rewrite <- Hr. unfold read_at. rewrite <- He. f_equal.
    unfold at_name. cbn [f_names create_file open_handle snd]. by rewrite Hins.
  - cbn. by rewrite lookup_insert_eq.
  - cbn. by rewrite lookup_insert_eq.
  - intros m [->|Hm]%elem_of_cons; [|by apply Hat]. cbn [f_names create_file open_handle snd]. rewrite Hins. by apply Hat; left.
  - exists (mkInode 384 [] true). cbn. by rewrite lookup_insert_eq.
Qed.

Lemma any_temp q fd i P s : temp_file q fd i P s → temp_file q fd i (λ _, True) s.
Proof. intros (? & ? & ? & ? & ? & ? & x & ? & _). split_and!; eauto. Qed.

Lemma close_same c fd s : (fs_do c (FileClose fd) s).2 = s.
Proof. by destruct c. Qed.

Lemma writeAndClose_safe q fd i s : temp_file q fd i (λ x, i_data x = []) s →
  alone (λ r s, match r with
                | Ok _ => temp_file q fd i (λ x, i_data x = text ∧ i_dirty x = false) s
                | Err _ => temp_file q fd i (λ _, True) s
                end) (writeAndClose fd (Encode (Some kr))) s.
Proof.
  intros Ht. unfold writeAndClose.
  eapply (safe_bind _ _ (λ r s, match r with
                | Ok _ => temp_file q fd i (λ x, i_data x = text ∧ i_dirty x = false) s
                | Err _ => temp_file q fd i (λ _, True) s
                end)).
  - unfold writeAndSync. apply safe_alone. intros c.
    assert (∀ bs, write_handle fd bs s = alter_inode (append_data bs) i s) as Hw.
    { intros bs. unfold write_handle. destruct Ht as (_ & _ & _ & _ & -> & _). done. }
    assert (∀ bs, temp_file q fd i (λ x, i_data x = bs) (alter_inode (append_data bs) i s)) as Hta.
    { intros bs. eapply alter_temp; [|exact Ht]. intros x Hx. simpl. by rewrite Hx. }
    destruct c as [name|k]; cbn [fs_do fst snd]; rewrite Hw; (split; [by apply Hta|]); [|apply safe_stop; by eapply any_temp].
    specialize (Hta text). set (s2 := alter_inode _ _ _) in *. intros s2' c <-. cbn [fs_do].
    assert (f_open s2 !! fd = Some i) as Ho by by destruct Hta as (_ & _ & _ & _ & ? & _). rewrite Ho.
    destruct c as [name'|k]; cbn [fst snd].
    + assert (temp_file q fd i (λ x, i_data x = text ∧ i_dirty x = false)
        (alter_inode (λ x, mkInode (i_mode x) (i_data x) false) i s2)) as Ht3.
      { eapply alter_temp; [|exact Hta]. intros y Hy. by split. }
      split; [by apply Ht3|]. by apply safe_stop.
    + split; [by apply Hta|]. apply safe_stop. by eapply any_temp.
  - intros r s2 Hr. apply safe_alone. intros c. rewrite close_same.
    split; [by destruct r; apply Hr|]. apply safe_stop. destruct r as [u|e]; [|exact Hr].
    destruct (fs_do c _ s2).1; [exact Hr|by eapply any_temp].
Qed.

Lemma Write_safe s : kr_entries kr ≠ [] → sane s → ok s → read_at s p = old →
  alone (λ r s, read_at s p = match r with Ok _ => Some text | Err _ => old end) (Keyring_Write (Some kr) p) s.
Proof.
  intros Hne Hs Hok Hr. unfold Keyring_Write. destruct (kr_entries kr); [done|].
  apply safe_alone. intros c. assert ((fs_do c (MkdirAll (Dir p)) s).2 = s) as -> by by destruct c. split; [done|].
  destruct (fs_do c _ s).1 as [[]|]; [|by apply safe_stop].
  apply safe_alone. intros c1. destruct c1 as [n|n]; cbn [fs_do]; [|split; [done|by apply safe_stop]].
  set (q := Dir p ++ [".secrets-" +:+ n +:+ ".key"]). destruct (f_names s !! q) eqn:Hfree; [split; [done|by apply safe_stop]|].
  destruct (ContainsByte n "/"); [split; [done|by apply safe_stop]|].
  pose proof (created_temp n s Hs Hok Hr Hfree) as Ht. fold q in Ht. destruct (create_file q 384 s) as [fd s1] eqn:Hc. cbn [fst snd] in *.
  assert (fd = S (f_next s)) as -> by by injection Hc as <- _. split; [by apply Ht|].
  eapply safe_bind; [apply _|by apply writeAndClose_safe|]. intros [u|err] s2 Ht2; [|by eapply give_back].
  apply safe_alone. intros c2. destruct c2 as [name|k]; cbn [fs_do fst snd]; [|split; [by apply Ht2|by eapply give_back]].
  destruct (temp_renamed q _ _ _ Ht2) as [Hok4 Hr4]. destruct Ht2 as (_ & _ & Hq & Hn & _).
  unfold with_name. rewrite Hn. cbn [fst snd]. rewrite decide_False by done. split; [exact Hok4|]. by apply safe_stop.
Qed.
End write.

Lemma one_of_grow p old new s : one_of p old old s → one_of p old new s.
Proof.
  intros H m Hm. specialize (H m Hm). destruct (at_name s m p) as [x|]; [|destruct H as [? [?|?]]; auto].
  destruct H as [? [?|?]]; auto.
Qed.

Lemma string_of_list_of s : String.string_of_list_ascii (String.list_ascii_of_string s) = s.
Proof. apply String.string_of_list_ascii_of_string. Qed.

(** What [Write] writes is what [Load] reads, up to the limit on its size. *)
Lemma parse_written kr : keyring_ok kr → String.length (Encode (Some kr)) ≤ MaxKeyfileSize →
  parse_limited (String.list_ascii_of_string (Encode (Some kr))) = Ok kr.
Proof.
  intros Hk Hl. unfold parse_limited. rewrite take_ge by (rewrite list_ascii_length; lia). rewrite list_ascii_length.
  destruct (Nat.ltb_spec MaxKeyfileSize (String.length (Encode (Some kr)))) as [|_]; [lia|].
  rewrite string_of_list_of, parse_encoded by done. done.
Qed.

(** C40: A durable keyfile is replaced as a whole or not at all. The keyfile there
    is before, or its absence, is on disk in every table of names a power loss could
    bring back (neither creating nor writing a keyfile syncs the directory, so this
    is not so right after either, see [written_keyfile_can_be_lost]), and the keyring
    is one the code builds. Then, writing it alone, whatever calls fail and whenever
    the writing stops, and even if the machine loses power then, the keyfile holds
    exactly what it held before or exactly the new keyring, which reads back key for
    key if it is no larger than a reader accepts; short of a power loss it holds the
    new one when writing reports success, and the old one when it reports an
    error. *)
Theorem keyfile_replaced_whole p kr s rest s' :
  built kr → sane s → (∀ n, p ≠ Dir p ++ [".secrets-" +:+ n +:+ ".key"]) →
  one_of p (read_at s p) (read_at s p) s →
  rtc prog_step (Keyring_Write (Some kr) p, s) (rest, s') →
  let text := String.list_ascii_of_string (Encode (Some kr)) in
  (∀ s'', s'' = s' ∨ crash s' s'' → read_at s'' p = read_at s p ∨ read_at s'' p = Some text) ∧
  (∀ r, rest = Done r → read_at s' p = match r with Ok _ => Some text | Err _ => read_at s p end) ∧
  (String.length (Encode (Some kr)) ≤ MaxKeyfileSize → parse_limited text = Ok kr).
Proof.
  intros Hb Hs Hname Hold Hrun text. apply built_ok in Hb. pose proof (kro_some _ Hb) as Hne.
  destruct (safe_during (one_of p (read_at s p) (Some text))
    (λ r s1, read_at s1 p = match r with Ok _ => Some text | Err _ => read_at s p end) (Keyring_Write (Some kr) p) s rest s') as [Hok Hq];
    [by apply Write_safe; try apply one_of_grow|by apply one_of_grow|exact Hrun|]. split_and!.
  - intros s'' [->|Hc]; [by apply one_of_now|]. eapply one_of_now, one_of_crash; done.
  - exact Hq.
  - by apply parse_written.
Qed.

(** ** Opening the keyfile at start *)
Definition unchanged (p : path) (i : nat) (x : inode) (s : FS) : Prop :=
  f_names s !! p = Some i ∧ f_inodes s !! i = Some x.

Lemma load_safe p i x skip s : unchanged p i x s → f_open s !! f_next s = None →
  safe eq (λ _ s, unchanged p i x s)
    (λ r s, unchanged p i x s ∧ r ≠ Err (KeyIO ENOENT) ∧
       ∀ kr, r = Ok kr → parse_limited (i_data x) = Ok kr ∧ (skip = true ∨ insecureMode (i_mode x) = false)) (load p skip) s.
Proof.
  intros [Hn Hx] Hfd. unfold load. apply safe_alone. intros c.
  destruct c as [name|n]; cbn [fs_do]; [|split; [done|apply safe_stop; done]].
  unfold with_name. rewrite Hn. cbn [open_handle fst snd]. split; [done|].
  set (s1 := mkFS _ _ _ _ _). assert (handle_data (f_next s) s1 = Some x) as Hh.
  { unfold handle_data, s1. cbn. rewrite lookup_insert_eq. simpl. done. }
  assert (unchanged p i x s1) as Hu by done. clearbody s1.
  assert (∀ (r : result KeyError Keyring), r ≠ Err (KeyIO ENOENT) →
    (∀ kr, r = Ok kr → parse_limited (i_data x) = Ok kr ∧ (skip = true ∨ insecureMode (i_mode x) = false)) →
    safe eq (λ _ s, unchanged p i x s)
      (λ r s, unchanged p i x s ∧ r ≠ Err (KeyIO ENOENT) ∧
         ∀ kr, r = Ok kr → parse_limited (i_data x) = Ok kr ∧ (skip = true ∨ insecureMode (i_mode x) = false))
      (bind (call (FileClose (f_next s))) (λ _, Done r)) s1) as Hclose.
  { intros r H1 H2. apply safe_alone. intros c. rewrite close_same. split; [done|]. apply safe_stop. by split_and!. }
  apply safe_alone. intros c. cbn [fs_do]. rewrite Hh. destruct c as [name'|n]; cbn [fst snd broken]; (split; [done|]); [|by apply Hclose].
  unfold file_info. destruct (negb skip && insecureMode (i_mode x)) eqn:Hsec; [by apply Hclose|].
  apply safe_alone. intros c. cbn [fs_do]. rewrite Hh. destruct c as [name''|n]; cbn [fst snd broken]; (split; [done|]); [|by apply Hclose].
  apply Hclose.
  - unfold parse_limited, of_parse. repeat case_match; done.
  - intros kr Hkr. split; [done|]. destruct skip; [by left|]. right. by apply Hsec.
Qed.

(** A keyfile that exists is never replaced by a fresh key. However opening it
    fails (permissions, a bad line, too many bytes, an I/O error), the file stays
    as it is at every step and the failure is reported; when opening succeeds, the
    keyring is what the file says, and no other account could read the file unless
    the check was waived. *)
Theorem existing_keyfile_is_never_replaced p skip random i x s rest s' :
  f_names s !! p = Some i → f_inodes s !! i = Some x → f_open s !! f_next s = None →
  rtc prog_step (openKeyring p skip random, s) (rest, s') →
  read_at s' p = Some (i_data x) ∧
  ∀ kr, rest = Done (Ok kr) → parse_limited (i_data x) = Ok kr ∧ (skip = true ∨ insecureMode (i_mode x) = false).
Proof.
  intros Hn Hx Hfd Hrun.
  destruct (safe_during (unchanged p i x) (λ r s, ∀ kr, r = Ok kr →
    parse_limited (i_data x) = Ok kr ∧ (skip = true ∨ insecureMode (i_mode x) = false)) (openKeyring p skip random) s rest s') as [[Hn' Hx'] Hq]; [|done|exact Hrun|].
  - unfold openKeyring. eapply safe_bind; [apply _|by apply load_safe|].
    intros [kr|[[]|m|line e]] s1 (Hu & He & Hk); try (apply safe_stop; done); try (by destruct He).
  - split; [|intros kr ->; by apply (Hq (Ok kr))]. unfold read_at, at_name. rewrite Hn'. simpl. by rewrite Hx'.
Qed.

(** Writing reports success before the directory is synced: a crash may bring the
    old keyfile back, and with it values sealed under the new key go unread. *)
Definition demo_path : path := ["var"; "trove"; "secrets.key"].
Definition old_inode : inode := mkInode keyfileMode (String.list_ascii_of_string (Encode (Some demo_active))) false.
Definition demo_files : FS := mkFS {[demo_path := 0]} [] {[0 := old_inode]} ∅ 1.

Fixpoint run_all {A} (fuel : nat) (p : prog fsop A) (s : FS) : prog fsop A * FS :=
  match fuel, p with
  | S fuel, Do e k => run_all fuel (k (fs_do (Works "1") e s).1) (fs_do (Works "1") e s).2
  | _, _ => (p, s)
  end.

Lemma run_all_steps {A} fuel (p : prog fsop A) s : rtc prog_step (p, s) (run_all fuel p s).
Proof.
  revert p s. induction fuel as [|fuel IH]; intros p s; [done|]. destruct p as [a|B e k]; [done|]. cbn [run_all].
  eapply rtc_l; [|apply IH]. constructor.
Qed.

Definition written : prog fsop (result KeyError unit) * FS := run_all 20 (Keyring_Write (Some demo_ring) demo_path) demo_files.

Lemma written_keyfile_can_be_lost :
  written.1 = Done (Ok tt) ∧ read_at written.2 demo_path = Some (String.list_ascii_of_string (Encode (Some demo_ring))) ∧
  ∃ s, crash written.2 s ∧ read_at s demo_path = Some (i_data old_inode).
Proof.
  split; [vm_compute; reflexivity|]. split; [vm_compute; reflexivity|].
  exists (mkFS {[demo_path := 0]} [] ((λ x, mkInode (i_mode x) (i_data x) false) <$> f_inodes written.2) ∅ (f_next written.2)).
  split; [|vm_compute; reflexivity]. split_and!; [done|done|done| |].
  - apply list_elem_of_lookup. exists (length (f_past written.2)). vm_compute. reflexivity.
  - intros i. cbn [f_inodes]. rewrite lookup_fmap. by destruct (f_inodes written.2 !! i).
Qed.

(** ** Witnesses *)
Lemma demo_sane : sane demo_files.
Proof.
  split.
  - intros i Hi. cbn in *. rewrite lookup_singleton_ne by lia. done.
  - intros m q i ->%list_elem_of_singleton H. cbn in *. apply lookup_singleton_Some in H as [_ <-]. rewrite lookup_singleton_eq. eauto.
Qed.

Lemma demo_one_of : one_of demo_path (read_at demo_files demo_path) (read_at demo_files demo_path) demo_files.
Proof. intros m ->%list_elem_of_singleton. vm_compute. split; [reflexivity|left; reflexivity]. Qed.

Lemma demo_name n : demo_path ≠ Dir demo_path ++ [".secrets-" +:+ n +:+ ".key"].
Proof. intros H. vm_compute in H. discriminate H. Qed.

Lemma keyfile_replaced_whole_witness :
  read_at written.2 demo_path = read_at demo_files demo_path ∨
  read_at written.2 demo_path = Some (String.list_ascii_of_string (Encode (Some demo_ring))).
Proof.
  refine (proj1 (keyfile_replaced_whole demo_path demo_ring demo_files written.1 written.2 demo_built demo_sane demo_name demo_one_of _) written.2 (or_introl eq_refl)).
  rewrite <- surjective_pairing. apply run_all_steps.
Defined.

Lemma existing_keyfile_is_never_replaced_witness :
  read_at (run_all 20 (openKeyring demo_path false []) demo_files).2 demo_path = Some (i_data old_inode).
Proof.
  refine (proj1 (existing_keyfile_is_never_replaced demo_path false [] 0 old_inode demo_files
    (run_all 20 (openKeyring demo_path false []) demo_files).1 _ _ _ _ _)).
  - reflexivity.
  - reflexivity.
  - reflexivity.
  - rewrite <- surjective_pairing. apply run_all_steps.
Defined.
