(* ===== verification/Password.v ===== *)
(** * Password verifiers (src/internal/authn/password.go)

    Argon2id itself is a parameter, the function of golang.org/x/crypto that
    derives a key from a password, a salt and the cost; what is modelled is
    everything around it: which costs are accepted, the PHC string a verifier is
    stored as and its strict parser, hashing, verification and the decision to
    re-hash. *)
From S2P Require Import Prelude RepoName Sha2 Digest GoStrings Base64 Secretbox.
Local Open Scope Z_scope.

Record Params : Type := mkParams {
  pa_memory : Z;         (* uint32 *)
  pa_iterations : Z;     (* uint32 *)
  pa_parallelism : Z;    (* uint8 *)
  pa_saltLength : Z;     (* uint32 *)
  pa_keyLength : Z;      (* uint32 *)
}.

#[export] Instance Params_eq_dec : EqDecision Params.
Proof. solve_decision. Defined.

Definition DefaultParams : Params := mkParams 19456 2 1 16 32.
Definition MaxMemory : Z := 2 ^ 18.
Definition MaxIterations : Z := 16.
Definition MaxWork : Z := 2 ^ 19.
Definition MaxLength : Z := 1024.

Inductive ParamsReason : Type :=
| MemoryLow | ParallelismZero | ParallelismHigh | IterationsZero | SaltShort | KeyShort
| MemoryHigh | IterationsHigh | WorkHigh | SaltLong | KeyLong.

Inductive HashReason : Type :=
| HashFields | HashAlgorithm | HashVersionUnreadable | HashVersion | HashCosts | HashCost
| HashSalt | HashDigest | HashSaltLong | HashDigestLong | HashParams (r : ParamsReason) | HashNotCanonical.

Inductive PasswordError : Type :=
| ErrPasswordMismatch
| ErrInvalidHash (r : HashReason)
| ErrInvalidParams (r : ParamsReason)
| ErrEmptyPassword
| ErrSalt.                                  (* the source of randomness failed *)

(** The product is taken in 64 bits, where two 32-bit numbers do not overflow. *)
Definition Params_Validate (p : Params) : result ParamsReason unit :=
  if pa_memory p <? 8 then Err MemoryLow
  else if pa_parallelism p =? 0 then Err ParallelismZero
  else if pa_memory p / 8 <? pa_parallelism p then Err ParallelismHigh
  else if pa_iterations p =? 0 then Err IterationsZero
  else if pa_saltLength p <? 8 then Err SaltShort
  else if pa_keyLength p <? 16 then Err KeyShort
  else if MaxMemory <? pa_memory p then Err MemoryHigh
  else if MaxIterations <? pa_iterations p then Err IterationsHigh
  else if MaxWork <? pa_memory p * pa_iterations p then Err WorkHigh
  else if MaxLength <? pa_saltLength p then Err SaltLong
  else if MaxLength <? pa_keyLength p then Err KeyLong
  else Ok tt.

(** ** The PHC string *)
Definition phcAlgorithm : string := "argon2id".
Definition phcVersion : Z := 19.

Definition encode (p : Params) (salt digest : list ascii) : string :=
  "$" +:+ phcAlgorithm +:+ "$v=" +:+ FormatInt phcVersion +:+
  "$m=" +:+ FormatInt (pa_memory p) +:+ ",t=" +:+ FormatInt (pa_iterations p) +:+ ",p=" +:+ FormatInt (pa_parallelism p) +:+
  "$" +:+ EncodeToString RawStdEncoding salt +:+ "$" +:+ EncodeToString RawStdEncoding digest.

(** [strconv.ParseUint(s, 10, bits)] on what is left after the leading-zero check. *)
Definition parseUint (s : string) (bits : Z) : option Z :=
  if String.eqb s "" || ((1 <? String.length s)%nat && HasPrefix s "0") then None
  else match parse_digits 0 s with
  | None => None
  | Some n => if n <? 2 ^ bits then Some n else None
  end.

Definition TrimPrefix (s prefix : string) : string :=
  if HasPrefix s prefix then String.substring (String.length prefix) (String.length s - String.length prefix) s else s.

(** One of the cost parameters, in its fixed place. *)
Definition parse_cost (prefix cost : string) (bits : Z) : result PasswordError Z :=
  if negb (HasPrefix cost prefix) then Err (ErrInvalidHash HashCost)
  else match parseUint (TrimPrefix cost prefix) bits with
  | None => Err (ErrInvalidHash HashCost)
  | Some n => Ok n
  end.

Definition decode (encoded : string) : result PasswordError (Params * list ascii * list ascii) :=
  match SplitByte encoded "$" with
  | [lead; algorithm; version; costs; saltText; digestText] =>
      if negb (String.eqb lead "") then Err (ErrInvalidHash HashFields)
      else if negb (String.eqb algorithm phcAlgorithm) then Err (ErrInvalidHash HashAlgorithm)
      else if negb (HasPrefix version "v=") then Err (ErrInvalidHash HashVersionUnreadable)
      else match parseUint (TrimPrefix version "v=") 32 with
      | None => Err (ErrInvalidHash HashVersionUnreadable)
      | Some v =>
          if negb (v =? phcVersion) then Err (ErrInvalidHash HashVersion)
          else match SplitByte costs "," with
          | [m; t; par] =>
              let! memory := parse_cost "m=" m 32 in
              let! iterations := parse_cost "t=" t 32 in
              let! parallelism := parse_cost "p=" par 8 in
              match DecodeString RawStdEncoding saltText with
              | None => Err (ErrInvalidHash HashSalt)
              | Some salt =>
                  match DecodeString RawStdEncoding digestText with
                  | None => Err (ErrInvalidHash HashDigest)
                  | Some digest =>
                      if MaxLength <? Z.of_nat (length salt) then Err (ErrInvalidHash HashSaltLong)
                      else if MaxLength <? Z.of_nat (length digest) then Err (ErrInvalidHash HashDigestLong)
                      else
                        let params := mkParams memory iterations parallelism (Z.of_nat (length salt)) (Z.of_nat (length digest)) in
                        match Params_Validate params with
                        | Err r => Err (ErrInvalidHash (HashParams r))
                        | Ok _ =>
                            if String.eqb (encode params salt digest) encoded then Ok (params, salt, digest)
                            else Err (ErrInvalidHash HashNotCanonical)
                        end
                  end
              end
          | _ => Err (ErrInvalidHash HashCosts)
          end
      end
  | _ => Err (ErrInvalidHash HashFields)
  end.

(** ** Hashing and verification *)

(** [argon2.IDKey(password, salt, time, memory, threads, keyLen)]: a key of the
    length asked for. *)
Class Argon2 : Type := {
  IDKey : list ascii → list ascii → Z → Z → Z → Z → list ascii;
  IDKey_length : ∀ pw salt t m p k, 0 ≤ k → length (IDKey pw salt t m p k) = Z.to_nat k;
}.

Section argon.
Context `{!Argon2}.

Definition derive (password : string) (salt : list ascii) (p : Params) : list ascii :=
  IDKey (String.list_ascii_of_string password) salt (pa_iterations p) (pa_memory p) (pa_parallelism p) (pa_keyLength p).

(** [Hasher.Hash]; the salt comes off the random source. *)
Definition Hash (params : Params) (random : Random) (password : string) : result PasswordError (string * Random) :=
  if String.eqb password "" then Err ErrEmptyPassword
  else match Params_Validate params with
  | Err r => Err (ErrInvalidParams r)
  | Ok _ =>
      match ReadFull random (Z.to_nat (pa_saltLength params)) with
      | None => Err ErrSalt
      | Some (salt, random) => Ok (encode params salt (derive password salt params), random)
      end
  end.

Definition Verify (encoded password : string) : result PasswordError unit :=
  let! decoded := decode encoded in
  let '(params, salt, want) := decoded in
  if decide (derive password salt params = want) then Ok tt else Err ErrPasswordMismatch.

Definition NeedsRehash (encoded : string) (want : Params) : result PasswordError bool :=
  let! decoded := decode encoded in
  let '(have, _, _) := decoded in
  Ok ((pa_memory have <? pa_memory want) || (pa_iterations have <? pa_iterations want) ||
      (pa_parallelism have <? pa_parallelism want) || (pa_saltLength have <? pa_saltLength want)).
End argon.

(** ** Decimal fields *)
Definition decimal (c : ascii) : bool := match digit_value c with Some _ => true | None => false end.

Lemma digit_decimal n : 0 ≤ n < 10 → decimal (digit n) = true.
Proof. intros H. unfold decimal. by rewrite digit_value_digit. Qed.

Lemma format_decimal fuel n acc : 0 ≤ n → all_bytes decimal acc = true → all_bytes decimal (format_digits fuel n acc) = true.
Proof.
  revert n acc. induction fuel as [|fuel IH]; intros n acc Hn Ha; [done|]. cbn [format_digits].
  assert (all_bytes decimal (String (digit (n mod 10)) acc) = true) as Hc.
  { cbn [all_bytes]. rewrite digit_decimal by (apply Z.mod_pos_bound; lia). done. }
  destruct (n <? 10); [done|]. apply IH; [apply Z.div_pos; lia|done].
Qed.

Lemma FormatInt_decimal n : 0 ≤ n → all_bytes decimal (FormatInt n) = true.
Proof. intros H. unfold FormatInt. destruct (Z.ltb_spec n 0); [lia|]. by apply format_decimal. Qed.

Lemma FormatInt_no_byte n c : 0 ≤ n → decimal c = false → ContainsByte (FormatInt n) c = false.
Proof. intros Hn Hc. eapply all_bytes_contains; [by apply FormatInt_decimal|done]. Qed.

Lemma format_lead fuel n acc : 0 < n < 10 ^ Z.of_nat fuel →
  ∃ d rest, 0 < d < 10 ∧ format_digits fuel n acc = String (digit d) rest.
Proof.
  revert n acc. induction fuel as [|fuel IH]; intros n acc Hn; [simpl in Hn; lia|]. cbn [format_digits].
  destruct (Z.ltb_spec n 10).
  - exists (n mod 10), acc. rewrite Z.mod_small by lia. split; [lia|done].
  - apply IH. rewrite Nat2Z.inj_succ, Z.pow_succ_r in Hn by lia.
    split; [apply Z.div_str_pos; lia|apply Z.div_lt_upper_bound; lia].
Qed.

Lemma parseUint_FormatInt n bits : 0 ≤ bits ≤ 32 → 0 ≤ n < 2 ^ bits → parseUint (FormatInt n) bits = Some n.
Proof.
  intros Hb Hn. assert (2 ^ bits ≤ 2 ^ 32) by (apply Z.pow_le_mono_r; lia).
  assert (2 ^ 32 < 10 ^ Z.of_nat 20) as Hbig by (vm_compute; done).
  destruct (decide (n = 0)) as [->|Hne].
  { change (FormatInt 0) with "0". unfold parseUint. change (parse_digits 0 "0") with (Some 0).
    change (String.eqb "0" "" || ((1 <? String.length "0")%nat && HasPrefix "0" "0")) with false. cbv iota.
    destruct (Z.ltb_spec 0 (2 ^ bits)); [done|lia]. }
  unfold FormatInt. destruct (Z.ltb_spec n 0); [lia|].
  assert (parse_digits 0 (format_digits 20 n "") = Some n) as Hp by (rewrite parse_format; [done|lia|lia]).
  destruct (format_lead 20 n "") as (d & rest & Hd & Hf); [lia|]. rewrite Hf in *. unfold parseUint.
  assert (HasPrefix (String (digit d) rest) "0" = false) as ->.
  { destruct (HasPrefix _ _) eqn:E; [|done]. apply HasPrefix_iff in E as (t & Heq). injection Heq as Hz _.
    pose proof (digit_value_digit d ltac:(lia)) as Hv. rewrite Hz in Hv. vm_compute in Hv. injection Hv as <-. lia. }
  rewrite andb_false_r. cbn [String.eqb orb]. rewrite Hp. destruct (Z.ltb_spec n (2 ^ bits)); [done|lia].
Qed.

Lemma TrimPrefix_app a b : TrimPrefix (a +:+ b) a = b.
Proof.
  unfold TrimPrefix. rewrite (proj2 (HasPrefix_iff _ _)) by eauto. rewrite str_length_app.
  replace (String.length a + String.length b - String.length a)%nat with (String.length b) by lia. apply substring_app_r.
Qed.

Lemma parse_cost_format prefix n bits : 0 ≤ bits ≤ 32 → 0 ≤ n < 2 ^ bits → parse_cost prefix (prefix +:+ FormatInt n) bits = Ok n.
Proof.
  intros Hb Hn. unfold parse_cost. rewrite (proj2 (HasPrefix_iff _ _)) by eauto. cbn [negb].
  by rewrite TrimPrefix_app, parseUint_FormatInt.
Qed.

(** ** Accepted costs *)
Lemma Params_Validate_iff p : Params_Validate p = Ok tt ↔
  8 ≤ pa_memory p ≤ MaxMemory ∧ pa_parallelism p ≠ 0 ∧ pa_parallelism p ≤ pa_memory p / 8 ∧
  pa_iterations p ≠ 0 ∧ pa_iterations p ≤ MaxIterations ∧ pa_memory p * pa_iterations p ≤ MaxWork ∧
  8 ≤ pa_saltLength p ≤ MaxLength ∧ 16 ≤ pa_keyLength p ≤ MaxLength.
Proof.
  unfold Params_Validate.
  repeat match goal with |- context [if ?a <? ?b then _ else _] => destruct (Z.ltb_spec a b)
  | |- context [if ?a =? ?b then _ else _] => destruct (Z.eqb_spec a b) end; split; try done; try lia; intros; split_and!; lia.
Qed.

(** The parameters as the struct holds them. *)
Definition widths (p : Params) : Prop :=
  0 ≤ pa_memory p < 2 ^ 32 ∧ 0 ≤ pa_iterations p < 2 ^ 32 ∧ 0 ≤ pa_parallelism p < 2 ^ 8 ∧
  0 ≤ pa_saltLength p < 2 ^ 32 ∧ 0 ≤ pa_keyLength p < 2 ^ 32.

Lemma raw_ok : alphabet_ok RawStdEncoding = true.
Proof. vm_compute. reflexivity. Qed.

Lemma raw_no_byte bs c : plain c = false → ContainsByte (EncodeToString RawStdEncoding bs) c = false.
Proof. intros Hc. eapply all_bytes_contains; [apply EncodeToString_plain, raw_ok|done]. Qed.

Definition costs_text (p : Params) : string :=
  strings_Join ["m=" +:+ FormatInt (pa_memory p); "t=" +:+ FormatInt (pa_iterations p); "p=" +:+ FormatInt (pa_parallelism p)] ",".

Lemma encode_fields p salt digest :
  encode p salt digest = strings_Join [""; phcAlgorithm; "v=19"; costs_text p;
    EncodeToString RawStdEncoding salt; EncodeToString RawStdEncoding digest] "$".
Proof.
  unfold encode, costs_text, phcAlgorithm. cbn [strings_Join]. change (FormatInt phcVersion) with "19".
  repeat first [rewrite str_app_assoc | rewrite str_app_cons]. reflexivity.
Qed.

Lemma prefixed_no_byte prefix n c : 0 ≤ n → ContainsByte prefix c = false → decimal c = false → ContainsByte (prefix +:+ FormatInt n) c = false.
Proof. intros. rewrite ContainsByte_app, FormatInt_no_byte by done. by rewrite orb_false_r. Qed.

Lemma costs_split p : widths p → SplitByte (costs_text p) "," =
  ["m=" +:+ FormatInt (pa_memory p); "t=" +:+ FormatInt (pa_iterations p); "p=" +:+ FormatInt (pa_parallelism p)].
Proof. intros (H1 & H2 & H3 & _). unfold costs_text. apply SplitByte_Join. repeat constructor; apply prefixed_no_byte; done || lia. Qed.

Lemma costs_no_dollar p : widths p → ContainsByte (costs_text p) "$" = false.
Proof.
  intros (H1 & H2 & H3 & _). unfold costs_text. cbn [strings_Join].
  repeat (change (String "," ?x) with ("," +:+ x); rewrite !ContainsByte_app, FormatInt_no_byte by (done || lia)). reflexivity.
Qed.

Lemma decode_encode p salt digest :
  widths p → Params_Validate p = Ok tt → pa_saltLength p = Z.of_nat (length salt) → pa_keyLength p = Z.of_nat (length digest) →
  decode (encode p salt digest) = Ok (p, salt, digest).
Proof.
  intros Hw Hv Hs Hk. pose proof (proj1 (Params_Validate_iff p) Hv) as (_ & _ & _ & _ & _ & _ & Hsl & Hkl).
  unfold decode. rewrite encode_fields at 1. rewrite SplitByte_Join.
  2:{ repeat constructor; try done; [by apply costs_no_dollar|by apply raw_no_byte..]. }
  cbn [String.eqb negb]. change (String.eqb phcAlgorithm phcAlgorithm) with true. cbn [negb].
  change (HasPrefix "v=19" "v=") with true. change (parseUint (TrimPrefix "v=19" "v=") 32) with (Some 19). cbn [negb].
  change (19 =? phcVersion) with true. cbn [negb]. rewrite costs_split by done.
  destruct Hw as (H1 & H2 & H3 & _). rewrite !parse_cost_format by lia. cbn [result_bind].
  rewrite !DecodeString_Encode by apply raw_ok. rewrite <- Hs, <- Hk.
  destruct (Z.ltb_spec MaxLength (pa_saltLength p)); [lia|]. destruct (Z.ltb_spec MaxLength (pa_keyLength p)); [lia|].
  destruct p as [a b c d e]. simpl in *. rewrite Hv, String.eqb_refl. done.
Qed.

Lemma parse_digits_nonneg acc s n : 0 ≤ acc → parse_digits acc s = Some n → 0 ≤ n.
Proof.
  revert acc. induction s as [|c s IH]; intros acc Ha; cbn [parse_digits]; [by intros [= <-]|].
  destruct (digit_value c) as [d|] eqn:Hd; [|done]. apply IH. unfold digit_value in Hd.
  destruct (_ && _) eqn:E; [|done]. injection Hd as <-. apply andb_true_iff in E as [E _]. apply Z.leb_le in E. lia.
Qed.

Lemma parse_cost_range prefix cost bits n : parse_cost prefix cost bits = Ok n → 0 ≤ n < 2 ^ bits.
Proof.
  unfold parse_cost, parseUint. destruct (negb _); [done|]. destruct (_ || _); [done|].
  destruct (parse_digits 0 _) as [m|] eqn:Hp; [|done]. destruct (Z.ltb_spec m (2 ^ bits)); [|done]. intros [= <-].
  apply parse_digits_nonneg in Hp; lia.
Qed.

Lemma decode_ok encoded p salt digest : decode encoded = Ok (p, salt, digest) →
  widths p ∧ Params_Validate p = Ok tt ∧ pa_saltLength p = Z.of_nat (length salt) ∧ pa_keyLength p = Z.of_nat (length digest) ∧
  encoded = encode p salt digest.
Proof.
  unfold decode. destruct (SplitByte encoded "$") as [|lead [|alg [|ver [|costs [|st [|dt [|? ?]]]]]]]; try done.
  destruct (negb _); [done|]. destruct (negb _); [done|]. destruct (negb _); [done|]. destruct (parseUint _ 32) as [v|]; [|done].
  destruct (negb _); [done|]. destruct (SplitByte costs ",") as [|m [|t [|par [|? ?]]]]; try done.
  destruct (parse_cost "m=" m 32) as [memory|] eqn:Hm; [|done]. cbn [result_bind].
  destruct (parse_cost "t=" t 32) as [iterations|] eqn:Ht; [|done]. cbn [result_bind].
  destruct (parse_cost "p=" par 8) as [parallelism|] eqn:Hp; [|done]. cbn [result_bind].
  destruct (DecodeString RawStdEncoding st) as [salt'|]; [|done]. destruct (DecodeString RawStdEncoding dt) as [digest'|]; [|done].
  destruct (Z.ltb_spec MaxLength (Z.of_nat (length salt'))); [done|]. destruct (Z.ltb_spec MaxLength (Z.of_nat (length digest'))); [done|].
  destruct (Params_Validate _) as [[]|] eqn:Hv; [|done]. destruct (String.eqb_spec (encode (mkParams memory iterations parallelism (Z.of_nat (length salt')) (Z.of_nat (length digest'))) salt' digest') encoded) as [<-|]; [|done].
  intros [= <- <- <-]. apply parse_cost_range in Hm, Ht, Hp. unfold MaxLength, widths in *.
  split_and!; simpl; try done; lia.
Qed.

(** A verifier has one spelling, and checking it has a bounded cost. A stored
    text is accepted exactly when it is the encoding of parameters within the
    limits, a salt and a digest of the lengths they declare, so the parser reads
    back what was encoded and nothing else; whatever text is stored, verifying
    against it never asks the derivation for more memory or work than the
    ceilings. *)
Theorem verifier_one_spelling encoded p salt digest :
  (decode encoded = Ok (p, salt, digest) ↔
     widths p ∧ Params_Validate p = Ok tt ∧ pa_saltLength p = Z.of_nat (length salt) ∧
     pa_keyLength p = Z.of_nat (length digest) ∧ encoded = encode p salt digest) ∧
  (decode encoded = Ok (p, salt, digest) →
     8 ≤ pa_memory p ≤ MaxMemory ∧ 1 ≤ pa_iterations p ≤ MaxIterations ∧ pa_memory p * pa_iterations p ≤ MaxWork ∧
     1 ≤ pa_parallelism p ≤ pa_memory p / 8 ∧ pa_keyLength p ≤ MaxLength).
Proof.
  split.
  - split; [apply decode_ok|]. intros (Hw & Hv & Hs & Hk & ->). by apply decode_encode.
  - intros (Hw & Hv & _)%decode_ok. apply Params_Validate_iff in Hv. destruct Hw as (_ & ? & ? & _). lia.
Qed.

Section hashing.
Context `{!Argon2}.

Lemma Hash_ok params random password encoded rest : widths params →
  Hash params random password = Ok (encoded, rest) →
  password ≠ "" ∧ Params_Validate params = Ok tt ∧ ∃ salt, random = salt ++ rest ∧
    encoded = encode params salt (derive password salt params) ∧
    decode encoded = Ok (params, salt, derive password salt params).
Proof.
  intros Hw. unfold Hash, ReadFull. destruct (String.eqb_spec password "") as [|Hne]; [done|].
  destruct (Params_Validate params) as [[]|] eqn:Hv; [|done].
  destruct (Nat.leb_spec (Z.to_nat (pa_saltLength params)) (length random)) as [Hl|]; [|done]. intros [= <- <-].
  split_and!; [done..|]. exists (take (Z.to_nat (pa_saltLength params)) random). split_and!; [by rewrite take_drop|done|].
  destruct Hw as (? & ? & ? & Hsl & Hkl). apply decode_encode; [by repeat split; try lia|done|rewrite length_take; lia|].
  unfold derive. rewrite IDKey_length by lia. lia.
Qed.
End hashing.

(** A text some hash could have been stored as. *)
Definition is_verifier (stored : string) : Prop :=
  ∃ p salt digest, widths p ∧ Params_Validate p = Ok tt ∧ pa_saltLength p = Z.of_nat (length salt) ∧
    pa_keyLength p = Z.of_nat (length digest) ∧ stored = encode p salt digest.

Lemma is_verifier_decode stored : is_verifier stored ↔ is_ok (decode stored) = true.
Proof.
  split.
  - intros (p & salt & digest & Hw & Hv & Hs & Hk & ->). by rewrite decode_encode.
  - destruct (decode stored) as [[[p salt] digest]|] eqn:Hd; [|done]. intros _. exists p, salt, digest. by apply decode_ok.
Qed.

Local Ltac bad := first [by intros [= <-]; eexists|done].

Lemma parse_cost_err prefix cost n e : parse_cost prefix cost n = Err e → ∃ r, e = ErrInvalidHash r.
Proof. unfold parse_cost. destruct (negb _); [bad|]. destruct (parseUint _ _); bad. Qed.

Lemma decode_err stored e : decode stored = Err e → ∃ r, e = ErrInvalidHash r.
Proof.
  unfold decode. destruct (SplitByte stored "$") as [|lead [|alg [|ver [|costs [|st [|dt [|? ?]]]]]]]; try bad.
  do 3 (destruct (negb _); [bad|]). destruct (parseUint _ 32); [|bad]. destruct (negb _); [bad|].
  destruct (SplitByte costs ",") as [|m [|t [|par [|? ?]]]]; try bad.
  destruct (parse_cost "m=" m 32) eqn:Hm; cbn [result_bind]; [|intros [= <-]; by eapply parse_cost_err].
  destruct (parse_cost "t=" t 32) eqn:Ht; cbn [result_bind]; [|intros [= <-]; by eapply parse_cost_err].
  destruct (parse_cost "p=" par 8) eqn:Hp; cbn [result_bind]; [|intros [= <-]; by eapply parse_cost_err].
  destruct (DecodeString _ st); [|bad]. destruct (DecodeString _ dt); [|bad]. do 2 (destruct (_ <? _); [bad|]). cbv zeta.
  destruct (Params_Validate _); [|bad]. destruct (String.eqb _ _); bad.
Qed.

(** C22: A password hashed at accepted costs verifies, and only its own derivation
    does: another password passes exactly when it derives the same key from the
    same salt. Against any stored text, verification reports the text as invalid
    exactly when it is no encoding of accepted parameters with a salt and a key of
    the lengths they declare, and never as a wrong password then. A fresh hash does
    not ask to be hashed again, neither at its own cost nor at a lower one; an empty
    password is never hashed. *)
Theorem passwords_verify_exactly `{!Argon2} params random password :
  widths params →
  (∀ encoded rest, Hash params random password = Ok (encoded, rest) →
     password ≠ "" ∧ Verify encoded password = Ok tt ∧
     (∃ salt, random = salt ++ rest ∧ length salt = Z.to_nat (pa_saltLength params) ∧
        ∀ other, Verify encoded other = Ok tt ↔ derive other salt params = derive password salt params) ∧
     (∀ other, Verify encoded other = Ok tt ∨ Verify encoded other = Err ErrPasswordMismatch) ∧
     (∀ want, pa_memory want ≤ pa_memory params → pa_iterations want ≤ pa_iterations params →
        pa_parallelism want ≤ pa_parallelism params → pa_saltLength want ≤ pa_saltLength params →
        NeedsRehash encoded want = Ok false)) ∧
  (∀ stored other,
     (¬ is_verifier stored ↔ ∃ r, Verify stored other = Err (ErrInvalidHash r)) ∧
     (is_verifier stored ↔ Verify stored other = Ok tt ∨ Verify stored other = Err ErrPasswordMismatch)) ∧
  (password = "" → Hash params random password = Err ErrEmptyPassword).
Proof.
  intros Hw. split_and!.
  - intros encoded rest Hh. destruct (Hash_ok _ _ _ _ _ Hw Hh) as (Hne & Hv & salt & -> & _ & Hd). unfold Verify, NeedsRehash. rewrite Hd.
    cbn [result_bind]. split_and!; [done|by rewrite decide_True|..].
    + exists salt. apply decode_ok in Hd as (_ & _ & Hs & _). split_and!; [done|lia|]. intros other. case_decide; naive_solver.
    + intros other. case_decide; auto.
    + intros want H1 H2 H3 H4. f_equal. rewrite !orb_false_iff, !Z.ltb_ge. lia.
  - intros stored other. rewrite is_verifier_decode. unfold Verify. destruct (decode stored) as [[[p salt] digest]|e] eqn:Hd; cbn [result_bind is_ok].
    + case_decide; naive_solver.
    + destruct (decode_err _ _ Hd) as [r ->]. naive_solver.
  - intros ->. done.
Qed.

(** ** Witnesses: a derivation that repeats its input *)
Definition toy_derive (pw salt : list ascii) (t m p k : Z) : list ascii :=
  take (Z.to_nat k) (pw ++ salt ++ replicate (Z.to_nat k) (Z_byte 0)).

Lemma toy_length pw salt t m p k : 0 ≤ k → length (toy_derive pw salt t m p k) = Z.to_nat k.
Proof. intros Hk. unfold toy_derive. rewrite length_take, !length_app, length_replicate. lia. Qed.

#[export] Instance toy_argon : Argon2 := {| IDKey := toy_derive; IDKey_length := toy_length |}.

Definition demo_random : Random := map Z_byte (seqZ 0 40).
Definition demo_verifier : string := match Hash DefaultParams demo_random "hunter2" with Ok (e, _) => e | Err _ => "" end.

Lemma default_widths : widths DefaultParams.
Proof. unfold widths. cbn. lia. Qed.

Lemma passwords_verify_exactly_witness :
  Verify demo_verifier "hunter2" = Ok tt ∧ NeedsRehash demo_verifier DefaultParams = Ok false.
Proof.
  assert (Hash DefaultParams demo_random "hunter2" = Ok (demo_verifier, drop 16 demo_random)) as H by (vm_compute; reflexivity).
  destruct (passwords_verify_exactly DefaultParams demo_random "hunter2" default_widths) as [Hall _].
  destruct (Hall demo_verifier (drop 16 demo_random) H) as (_ & H1 & _ & _ & H2). split; [exact H1|]. apply H2; vm_compute; discriminate.
Defined.

Example demo_passwords :
  Verify demo_verifier "hunter3" = Err ErrPasswordMismatch ∧
  Verify "$argon2id$v=19$m=1000002100,t=2,p=1$AAECAwQFBgcICQoLDA0ODw$aHVudGVyMgABAgMEBQYHCAkKCwwNDg8AAAAAAAAAAAA" "x" =
    Err (ErrInvalidHash (HashParams MemoryHigh)) ∧
  Verify (demo_verifier +:+ String "010" "") "hunter2" = Err (ErrInvalidHash HashNotCanonical) ∧
  Hash DefaultParams demo_random "" = Err ErrEmptyPassword.
Proof. vm_compute. repeat split; reflexivity. Qed.

Lemma verifier_one_spelling_witness :
  decode demo_verifier = Ok (DefaultParams, take 16 demo_random, derive "hunter2" (take 16 demo_random) DefaultParams).
Proof.
  apply (proj1 (verifier_one_spelling demo_verifier DefaultParams (take 16 demo_random) (derive "hunter2" (take 16 demo_random) DefaultParams))).
  split_and!; [apply default_widths|vm_compute; reflexivity..].
Defined.
