(* ===== verification/Login.v ===== *)
(** * Logging in: passwords and robot secrets
    (src/internal/authn: login.go, robot.go, and generatePassword of bootstrap.go)

    The authentication paths as programs of the calls they make: the identity
    store, the attempt limiter, the clock, the random source, and the two
    operations whose cost is the point of them, hashing and verifying a password.
    The narrow store interfaces the source declares ([CredentialSource],
    [RobotStore], [BootstrapStore]) are the store operations here, and [handle] is
    the in-memory store behind them. *)
From S2P Require Import Prelude RepoName Meta Memory Identity Limiter Sha2 Digest GoStrings Base64 Crypto Secretbox Password Effects.
Local Open Scope Z_scope.

(** ** The calls *)
Inductive authop : Type → Type :=
| GetSubjectOp (name : string) : authop (result MetaError Subject)
| ListSubjectsOp (opts : ListOptions) : authop (result MetaError (list Subject * string))
| CreateSubjectOp (subject : Subject) : authop (result MetaError unit)
| GetRoleOp (name : string) : authop (result MetaError Role)
| PutBuiltinRoleOp (role : Role) : authop (result MetaError unit)
| CreateBindingOp (binding : Binding) : authop (result MetaError unit)
| GetUserCredentialOp (subject : string) : authop (result MetaError UserCredential)
| PutUserCredentialOp (cred : UserCredential) : authop (result MetaError unit)
| GetRobotCredentialOp (subject : string) (now : Z) : authop (result MetaError RobotCredential)
| PutRobotCredentialOp (cred : RobotCredential) : authop (result MetaError unit)
| ListEffectiveBindingsOp (subject : string) : authop (result MetaError (list EffectiveBinding))
| DeleteSubjectSessionsOp (subject : string) : authop (result MetaError unit)
| Now : authop Z
| ReadRandom (n : nat) : authop (option (list ascii))
| HashOp (params : Params) (password : string) : authop (result PasswordError string)
| VerifyOp (encoded password : string) : authop (result PasswordError unit)
| AllowOp (a : Attempt) : authop (bool * Z)
| SucceedOp (a : Attempt) : authop unit.

(** What the paths fail with. *)
Inductive LoginError : Type :=
| TooManyAttempts (retryAfter : Z)
| BadCredentials
| StoreFailed (e : MetaError)
| PasswordFailed (e : PasswordError)
| SecretFailed (e : SecretError)
| RandomFailed
| NotARobot (kind : string)
| ExpiryPassed (at_ : Z)
| AdminNotAUser (kind : string)
| TooManyPages.

Notation auth := (prog authop).

Definition stored {A} (p : auth (result MetaError A)) : auth (result LoginError A) :=
  fx! r := p in Done (result_map_err StoreFailed r).

(** bootstrap.go: 192 bits in the URL-safe alphabet. *)
Definition generatePassword : auth (result LoginError string) :=
  fx! raw := call (ReadRandom 24) in
  Done (match raw with None => Err RandomFailed | Some raw => Ok (EncodeToString RawURLEncoding raw) end).

(** ** Password login (login.go) *)
Record PasswordLogin : Type := mkPasswordLogin {
  pl_limiter : bool;                  (* whether there is a limiter *)
  pl_params : Params;
  pl_decoy : string;
}.

Definition NewPasswordLogin (limiter : bool) (params : Params) : auth (result LoginError PasswordLogin) :=
  fxE! decoySecret := generatePassword in
  fx! decoy := call (HashOp params decoySecret) in
  Done (match decoy with
        | Err e => Err (PasswordFailed e)
        | Ok decoy => Ok (mkPasswordLogin limiter params decoy)
        end).

(** [if limiter != nil { if ok, wait := limiter.Allow(...); !ok ... }]. *)
Definition limited (limiter : bool) (a : Attempt) : auth (result LoginError unit) :=
  if limiter then
    fx! answer := call (AllowOp a) in
    Done (let (ok, wait) := answer : bool * Z in if ok then Ok tt else Err (TooManyAttempts wait))
  else Done (Ok tt).

Definition set_hash (cred : UserCredential) (hash : string) : UserCredential :=
  mkUserCredential (uc_subject cred) hash (uc_mustRotate cred) (uc_rotatedAt cred).

Definition upgrade (l : PasswordLogin) (cred : UserCredential) (password : string) : auth unit :=
  match NeedsRehash (uc_hash cred) (pl_params l) with
  | Ok true =>
      fx! hash := call (HashOp (pl_params l) password) in
      match hash with
      | Err _ => Done tt
      | Ok hash => fx! _ := call (PutUserCredentialOp (set_hash cred hash)) in Done tt
      end
  | _ => Done tt
  end.

Definition Authenticate (l : PasswordLogin) (username password source : string) : auth (result LoginError unit) :=
  let attempt := mkAttempt username source in
  fxE! _ := limited (pl_limiter l) attempt in
  if String.eqb username "" || String.eqb password "" then Done (Err BadCredentials)
  else
    fx! cred := call (GetUserCredentialOp username) in
    match cred with
    | Err (NotFound _ _) =>
        fx! _ := call (VerifyOp (pl_decoy l) password) in
        Done (Err BadCredentials)
    | Err e => Done (Err (StoreFailed e))
    | Ok cred =>
        fx! verified := call (VerifyOp (uc_hash cred) password) in
        match verified with
        | Err ErrPasswordMismatch => Done (Err BadCredentials)
        | Err e => Done (Err (PasswordFailed e))
        | Ok _ =>
            fx! _ := (if pl_limiter l then call (SucceedOp attempt) else Done tt) in
            fx! _ := upgrade l cred password in
            Done (Ok tt)
        end
    end.

(** ** Robot secrets (robot.go) *)
Definition RobotNamePrefix : string := "robot$".
Definition robotSecretPrefix : string := "trove_r_".
Definition DefaultRobotTTL : Z := 90 * 24 * 3600 * 1000000000.

Record RobotSecrets : Type := mkRobotSecrets {
  rs_ring : option Keyring;
  rs_limiter : bool;
}.

Definition robot_secret (id random : string) : string := robotSecretPrefix +:+ id +:+ "_" +:+ random.

Definition Mint (r : RobotSecrets) (robotName : string) (expiresAt : Z) : auth (result LoginError string) :=
  fxE! subject := stored (call (GetSubjectOp robotName)) in
  if negb (String.eqb (sj_kind subject) Robot) then Done (Err (NotARobot (sj_kind subject)))
  else
    fx! now := call Now in
    let expiresAt := if expiresAt =? 0 then now + DefaultRobotTTL else expiresAt in
    if negb (now <? expiresAt) then Done (Err (ExpiryPassed expiresAt))
    else
      fxE! random := generatePassword in
      let secret := robot_secret (sj_id subject) random in
      match MAC (rs_ring r) (String.list_ascii_of_string secret) (RobotSecret (sj_id subject)) with
      | Err e => Done (Err (SecretFailed e))
      | Ok digest =>
          fxE! _ := stored (call (PutRobotCredentialOp
                      (mkRobotCredential robotName (String.string_of_list_ascii digest) expiresAt now))) in
          Done (Ok secret)
      end.

Definition RobotSecrets_Verify (r : RobotSecrets) (robotName presented source : string) : auth (result LoginError unit) :=
  fxE! _ := limited (rs_limiter r) (mkAttempt robotName source) in
  if negb (HasPrefix presented robotSecretPrefix) then Done (Err BadCredentials)
  else
    fx! subject := call (GetSubjectOp robotName) in
    match subject with
    | Err (NotFound _ _) => Done (Err BadCredentials)
    | Err e => Done (Err (StoreFailed e))
    | Ok subject =>
        if negb (String.eqb (sj_kind subject) Robot) then Done (Err BadCredentials)
        else
          fx! now := call Now in
          fx! cred := call (GetRobotCredentialOp robotName now) in
          match cred with
          | Err (NotFound _ _) => Done (Err BadCredentials)
          | Err e => Done (Err (StoreFailed e))
          | Ok cred =>
              Done (if VerifyMAC (rs_ring r) (String.list_ascii_of_string presented) (RobotSecret (sj_id subject))
                         (String.list_ascii_of_string (rc_secretHash cred))
                    then Ok tt else Err BadCredentials)
          end
    end.

(** ** The in-memory store, the limiter, a clock and a random source *)

(** What a derivation costs is decided by its parameters. *)
Inductive work : Type :=
| Hashed (p : Params)
| Verified (p : option Params).

Record world : Type := mkWorld {
  w_ids : IdStore;
  w_limiter : AttemptLimiter;
  w_random : Random;
  w_clock : nat → Z;                  (* the readings of the clock *)
  w_reads : nat;                      (* how many were taken *)
  w_work : list work;                 (* the derivations so far *)
}.

Definition set_ids (ids : IdStore) (w : world) : world :=
  mkWorld ids (w_limiter w) (w_random w) (w_clock w) (w_reads w) (w_work w).
Definition set_limiter (l : AttemptLimiter) (reads : nat) (w : world) : world :=
  mkWorld (w_ids w) l (w_random w) (w_clock w) (w_reads w + reads) (w_work w).
Definition set_random (r : Random) (w : world) : world :=
  mkWorld (w_ids w) (w_limiter w) r (w_clock w) (w_reads w) (w_work w).
Definition tick (w : world) : world :=
  mkWorld (w_ids w) (w_limiter w) (w_random w) (w_clock w) (S (w_reads w)) (w_work w).
Definition log_work (x : work) (w : world) : world :=
  mkWorld (w_ids w) (w_limiter w) (w_random w) (w_clock w) (w_reads w) (w_work w ++ [x]).

Definition readings (w : world) (n : nat) : Z := w_clock w (w_reads w + n).

Definition costs_of (encoded : string) : option Params :=
  match decode encoded with Ok (p, _, _) => Some p | Err _ => None end.

Definition update (r : result MetaError IdStore) (w : world) : result MetaError unit * world :=
  match r with
  | Ok ids => (Ok tt, set_ids ids w)
  | Err e => (Err e, w)
  end.

Section handler.
Context `{!Argon2}.

Definition handle (B : Type) (e : authop B) : world → option (B * world) :=
  match e in authop B return world → option (B * world) with
  | GetSubjectOp name => λ w, Some (GetSubject false name (w_ids w), w)
  | ListSubjectsOp opts => λ w, Some (ListSubjects false opts (w_ids w), w)
  | CreateSubjectOp x => λ w, Some (update (CreateSubject false x (w_ids w)) w)
  | GetRoleOp name => λ w, Some (GetRole false name (w_ids w), w)
  | PutBuiltinRoleOp role => λ w, Some (update (PutBuiltinRole false role (w_ids w)) w)
  | CreateBindingOp b => λ w, Some (update (CreateBinding false b (w_ids w)) w)
  | GetUserCredentialOp name => λ w, Some (GetUserCredential false name (w_ids w), w)
  | PutUserCredentialOp cred => λ w, Some (update (PutUserCredential false cred (w_ids w)) w)
  | GetRobotCredentialOp name now => λ w, Some (GetRobotCredential false name now (w_ids w), w)
  | PutRobotCredentialOp cred => λ w, Some (update (PutRobotCredential false cred (w_ids w)) w)
  | ListEffectiveBindingsOp name => λ w, Some (ListEffectiveBindings false name (w_ids w), w)
  | DeleteSubjectSessionsOp name => λ w,
      Some (update (let! deleted := DeleteSubjectSessions false name (w_ids w) in Ok deleted.1) w)
  | Now => λ w, Some (readings w 0, tick w)
  | ReadRandom n => λ w,
      Some (match ReadFull (w_random w) n with
            | Some (raw, rest) => (Some raw, set_random rest w)
            | None => (None, w)
            end)
  | HashOp params password => λ w,
      Some (match Hash params (w_random w) password with
            | Ok (encoded, rest) => (Ok encoded, log_work (Hashed params) (set_random rest w))
            | Err e => (Err e, w)
            end)
  | VerifyOp encoded password => λ w,
      Some (Verify encoded password, log_work (Verified (costs_of encoded)) w)
  | AllowOp a => λ w,
      let '(answer, l) := AttemptLimiter_Allow a (readings w) (w_limiter w) in
      Some (answer, set_limiter l 4 w)
  | SucceedOp a => λ w, Some (tt, set_limiter (Succeed a (readings w) (w_limiter w)) 2 w)
  end.

Definition run {A} (p : auth A) (w : world) : option (A * world) := exec handle p w.

Lemma run_then {A B} (p : auth A) (f : A → auth B) w :
  run (bind p f) w = match run p w with Some (a, w') => run (f a) w' | None => None end.
Proof. apply exec_bind. Qed.

Lemma run_bindE {X A B} (p : auth (result X A)) (f : A → auth (result X B)) w :
  run (bindE p f) w =
  match run p w with Some (Ok a, w') => run (f a) w' | Some (Err e, w') => Some (Err e, w') | None => None end.
Proof. apply exec_bindE. Qed.

Lemma run_call {B} (e : authop B) w : run (call e) w = handle B e w.
Proof. apply exec_call. Qed.

Lemma run_done {A} (a : A) w : run (Done a) w = Some (a, w).
Proof. done. Qed.

Lemma run_stored {A} (p : auth (result MetaError A)) w :
  run (stored p) w = match run p w with Some (r, w') => Some (result_map_err StoreFailed r, w') | None => None end.
Proof. unfold stored. rewrite run_then. by destruct (run p w) as [[r w']|]. Qed.

(** Every call is answered, so every path returns. *)
Lemma handle_total {B} (e : authop B) w : ∃ b w', handle B e w = Some (b, w').
Proof.
  destruct e; cbn [handle]; try (by eexists _, _); try (match goal with |- context [Some ?x] => destruct x eqn:Heq end; by eexists _, _).
  destruct (AttemptLimiter_Allow _ _ _). by eexists _, _.
Qed.

Lemma run_total {A} (p : auth A) w : ∃ a w', run p w = Some (a, w').
Proof.
  revert w. induction p as [a|B e k IH]; intros w; [by eexists _, _|]. unfold run. cbn [exec].
  destruct (handle_total e w) as (b & w' & ->). apply IH.
Qed.
End handler.
