(* ===== verification/LoginSpec.v ===== *)
(** * Logging in: who gets in, and what the others learn

    A password login is decided exactly by the stored verifier, tells a wrong
    password and an unknown user apart neither by its answer nor, where verifiers
    have the current costs, by the work it does, charges every wrong guess and leaves a working verifier behind; a robot
    secret is good for its robot until it expires or is replaced. *)
From S2P Require Import Prelude RepoName Meta Memory Identity IdentityInv Limiter Sha2 Digest GoStrings Base64 Crypto Secretbox SecretboxSpec Password Effects Login.
Local Open Scope Z_scope.

Section login.
Context {argon : Argon2}.

(** ** The limiter in front *)

(** The answer of the limiter to an attempt, and the world after it. *)
Definition attempted (limiter : bool) (a : Attempt) (w : world) : (bool * Z) * world :=
  if limiter then
    let '(answer, l) := AttemptLimiter_Allow a (readings w) (w_limiter w) in (answer, set_limiter l 4 w)
  else ((true, 0), w).

Lemma run_limited limiter a w :
  run (limited limiter a) w =
  Some (if (attempted limiter a w).1.1 then Ok tt else Err (TooManyAttempts (attempted limiter a w).1.2), (attempted limiter a w).2).
Proof.
  unfold limited, attempted. destruct limiter; [|done]. rewrite run_then, run_call. cbn [handle].
  destruct (AttemptLimiter_Allow _ _ _) as [[ok wait] l]. done.
Qed.

Lemma attempted_ids limiter a w : w_ids (attempted limiter a w).2 = w_ids w.
Proof. unfold attempted. destruct limiter; [|done]. by destruct (AttemptLimiter_Allow _ _ _). Qed.

Lemma attempted_work limiter a w : w_work (attempted limiter a w).2 = w_work w.
Proof. unfold attempted. destruct limiter; [|done]. by destruct (AttemptLimiter_Allow _ _ _). Qed.

(** ** Password login *)

(** A login path as it is built: its decoy is a verifier at the current costs. *)
Definition made (l : PasswordLogin) : Prop :=
  widths (pl_params l) ∧ ∃ limiter w w', run (NewPasswordLogin limiter (pl_params l)) w = Some (Ok l, w').

Lemma made_decoy l : made l → costs_of (pl_decoy l) = Some (pl_params l).
Proof.
  intros (Hw & limiter & w & w' & H). unfold NewPasswordLogin in H. rewrite run_bindE in H.
  destruct (run generatePassword w) as [[[pw|] w1]|]; [|done..]. rewrite run_then, run_call in H. cbn [handle] in H.
  destruct (Hash (pl_params l) (w_random w1) pw) as [[decoy rest]|] eqn:Hh; [|done].
  destruct (Hash_ok _ _ _ _ _ Hw Hh) as (_ & _ & salt & _ & _ & Hd). cbn in H. injection H as <- _. cbn.
  unfold costs_of. by rewrite Hd.
Qed.

(** The row a login by this name is checked against. *)
Definition verifier_of (w : world) (username : string) : option UserCredential := userCredentials (w_ids w) !! username.

(** What a successful login leaves: the row with a verifier of the same password. *)
Definition row_after (l : PasswordLogin) (cred : UserCredential) (password : string) (cred' : UserCredential) : Prop :=
  uc_subject cred' = uc_subject cred ∧ uc_mustRotate cred' = uc_mustRotate cred ∧ uc_rotatedAt cred' = uc_rotatedAt cred ∧
  Verify (uc_hash cred') password = Ok tt ∧ (uc_hash cred' ≠ uc_hash cred → NeedsRehash (uc_hash cred) (pl_params l) = Ok true).

Lemma Hash_verifies params random password encoded rest :
  widths params → Hash params random password = Ok (encoded, rest) → Verify encoded password = Ok tt ∧ encoded ≠ "".
Proof.
  intros Hw Hh. destruct (Hash_ok _ _ _ _ _ Hw Hh) as (_ & _ & salt & _ & _ & Hd). unfold Verify. rewrite Hd. cbn [result_bind].
  rewrite decide_True by done. split; [done|]. intros ->. by vm_compute in Hd.
Qed.

Lemma set_same_row w username cred : verifier_of w username = Some cred →
  set_userCredentials (<[username := cred]> (userCredentials (w_ids w))) (w_ids w) = w_ids w.
Proof. unfold verifier_of. intros H. destruct (w_ids w). cbn in *. unfold set_userCredentials. cbn. by rewrite insert_id. Qed.

Lemma run_upgrade l username cred password w :
  widths (pl_params l) → wf (w_ids w) → verifier_of w username = Some cred → Verify (uc_hash cred) password = Ok tt →
  ∃ w' cred', run (upgrade l cred password) w = Some (tt, w') ∧ row_after l cred password cred' ∧
    w_ids w' = set_userCredentials (<[username := cred']> (userCredentials (w_ids w))) (w_ids w) ∧
    w_limiter w' = w_limiter w.
Proof.
  intros Hw Hwf Hrow Hv.
  assert (row_after l cred password cred) as Hsame by done.
  unfold upgrade. destruct (NeedsRehash _ _) as [[]|] eqn:Hn; try (exists w, cred; by rewrite set_same_row).
  rewrite run_then, run_call. cbn [handle].
  destruct (Hash (pl_params l) (w_random w) password) as [[hash rest]|] eqn:Hh; [|exists w, cred; by rewrite set_same_row].
  destruct (Hash_verifies _ _ _ _ _ Hw Hh) as [Hv' Hne]. rewrite run_then, run_call. cbn [handle log_work set_random w_ids].
  unfold PutUserCredential. destruct (id_enter false (w_ids w)) as [[]|] eqn:He.
  - cbn [result_bind set_hash uc_hash uc_subject]. destruct (String.eqb_spec hash "") as [|_]; [done|].
    destruct (wf_users _ Hwf _ _ Hrow) as (Hsub & _ & [x Hx]). rewrite Hsub, Hx. cbn [update].
    eexists _, (set_hash cred hash). split; [done|]. split; [by split_and!|]. done.
  - eexists _, cred. split; [done|]. split; [done|]. by rewrite set_same_row.
Qed.

Lemma wf_row_after l w username cred password cred' :
  wf (w_ids w) → id_closed (w_ids w) = false → verifier_of w username = Some cred → row_after l cred password cred' →
  wf (set_userCredentials (<[username := cred']> (userCredentials (w_ids w))) (w_ids w)).
Proof.
  intros Hwf Hopen Hc (Hsub & _ & _ & Hv & _). destruct (wf_users _ Hwf _ _ Hc) as (Hn & _ & [x Hx]).
  apply (PutUserCredential_wf false cred' (w_ids w)); [done|]. unfold PutUserCredential, id_enter. rewrite Hopen. cbn [result_bind].
  destruct (String.eqb_spec (uc_hash cred') "") as [He|_]; [rewrite He in Hv; by vm_compute in Hv|].
  by rewrite Hsub, Hn, Hx.
Qed.

Local Ltac outcome :=
  first [ naive_solver
        | split; [done|]; intros (_ & [?|[?|(_ & [?|(? & [= <-] & ?)])]]); congruence
        | split; [done|]; intros (_ & _ & _ & _ & ? & [= <-] & ?); congruence ].

(** What an attempt comes to, [allowed] and [charged] being the limiter's answer and
    the world after it. *)
Definition login_outcome (l : PasswordLogin) (w : world) (username password source : string)
    (r : result LoginError unit) (w' : world) : Prop :=
  let attempt := mkAttempt username source in
  let allowed := (attempted (pl_limiter l) attempt w).1.1 in
  let charged := (attempted (pl_limiter l) attempt w).2 in
  let open := id_closed (w_ids w) = false in
  (r = Ok tt ↔ allowed = true ∧ username ≠ "" ∧ password ≠ "" ∧ open ∧
     ∃ cred, verifier_of w username = Some cred ∧ Verify (uc_hash cred) password = Ok tt) ∧
  (r = Err BadCredentials ↔ allowed = true ∧ (username = "" ∨ password = "" ∨ open ∧
     (verifier_of w username = None ∨
      ∃ cred, verifier_of w username = Some cred ∧ Verify (uc_hash cred) password = Err ErrPasswordMismatch))) ∧
  (allowed = false → r = Err (TooManyAttempts (attempted (pl_limiter l) attempt w).1.2) ∧ w' = charged) ∧
  (r = Err BadCredentials →
     (username = "" ∨ password = "" → w_work w' = w_work w) ∧
     (username ≠ "" → password ≠ "" →
        w_work w' = w_work w ++ [Verified (match verifier_of w username with
                                           | None => Some (pl_params l)
                                           | Some cred => costs_of (uc_hash cred)
                                           end)])) ∧
  (r ≠ Ok tt → w_ids w' = w_ids w ∧ w_limiter w' = w_limiter charged) ∧
  (r = Ok tt →
     w_limiter w' = (if pl_limiter l then Succeed attempt (readings charged) (w_limiter charged) else w_limiter w) ∧
     ∃ cred cred', verifier_of w username = Some cred ∧ row_after l cred password cred' ∧
       w_ids w' = set_userCredentials (<[username := cred']> (userCredentials (w_ids w))) (w_ids w)).

Lemma run_Authenticate l w username password source :
  made l → wf (w_ids w) →
  ∃ r w', run (Authenticate l username password source) w = Some (r, w') ∧ login_outcome l w username password source r w'.
Proof.
  intros Hmade Hwf. unfold login_outcome, Authenticate. rewrite run_bindE, run_limited. cbv zeta.
  pose proof (attempted_ids (pl_limiter l) (mkAttempt username source) w) as Hids.
  pose proof (attempted_work (pl_limiter l) (mkAttempt username source) w) as Hwork.
  destruct (attempted (pl_limiter l) (mkAttempt username source) w) as [[allowed wait] w0] eqn:Ha. cbn [fst snd] in *.
  destruct allowed; [|eexists _, _; split; [reflexivity|]; naive_solver].
  destruct (String.eqb_spec username "") as [Hu|Hu]; [eexists _, _; split; [reflexivity|]; naive_solver|].
  destruct (String.eqb_spec password "") as [Hp|Hp]; [eexists _, _; split; [reflexivity|]; naive_solver|]. cbn [orb].
  rewrite run_then, run_call. cbn [handle]. rewrite Hids. unfold GetUserCredential, verifier_of, id_enter.
  destruct (id_closed (w_ids w)) eqn:Hopen; cbn [result_bind]; [eexists _, _; split; [reflexivity|]; naive_solver|].
  destruct (userCredentials (w_ids w) !! username) as [cred|] eqn:Hrow.
  - rewrite run_then, run_call. cbn [handle]. destruct (Verify (uc_hash cred) password) as [[]|e] eqn:Hv.
    + rewrite run_then.
      set (w1 := log_work (Verified (costs_of (uc_hash cred))) w0).
      assert (∃ w2, run (if pl_limiter l then call (SucceedOp (mkAttempt username source)) else Done tt) w1 = Some (tt, w2) ∧
        w_ids w2 = w_ids w ∧ w_limiter w2 = (if pl_limiter l then Succeed (mkAttempt username source) (readings w0) (w_limiter w0) else w_limiter w)) as (w2 & -> & Hi2 & Hl2).
      { destruct (pl_limiter l); eexists; (split; [reflexivity|]); split; try done. unfold attempted in Ha. by injection Ha as <- <-. }
      rewrite run_then. destruct (run_upgrade l username cred password w2) as (w3 & cred' & -> & Hafter & Hi3 & Hl3); try done.
      { apply Hmade. } { by rewrite Hi2. } { unfold verifier_of. by rewrite Hi2. }
      eexists _, _. split; [reflexivity|]. rewrite Hl3, Hl2, Hi3, Hi2.
      split_and!; outcome.
    + destruct e; (eexists _, _; split; [reflexivity|]); cbn; rewrite ?Hwork; split_and!; outcome.
  - rewrite run_then, run_call. cbn [handle]. eexists _, _. split; [reflexivity|]. cbn. rewrite Hwork, (made_decoy l Hmade). naive_solver.
Qed.

(** C23: A password login is decided by the stored verifier and tells nothing else.
    An attempt the limiter refuses is answered with its wait, and nothing is
    looked at. One it lets through succeeds exactly when both fields are given, the
    store is open and has a verifier of that name which the password passes; it is
    refused with the one refusal exactly when a field is blank, the user is unknown
    or the password is wrong. A blank field costs no derivation, an unknown user one
    at the current costs, and a wrong password one at the costs its stored verifier
    declares, the same wherever the store holds verifiers of the current costs.
    Whatever is not a success changes nothing in the store and stays charged; a
    success is refunded as [Succeed] does and leaves a verifier the same password
    passes, so a next attempt the limiter lets through succeeds too. *)
Theorem login_is_exact l w username password source :
  made l → wf (w_ids w) →
  ∃ r w', run (Authenticate l username password source) w = Some (r, w') ∧
    login_outcome l w username password source r w' ∧
    (r = Ok tt → ∀ source2 w2, w_ids w2 = w_ids w' →
       (attempted (pl_limiter l) (mkAttempt username source2) w2).1.1 = true →
       ∃ w3, run (Authenticate l username password source2) w2 = Some (Ok tt, w3)).
Proof.
  intros Hmade Hwf. destruct (run_Authenticate l w username password source Hmade Hwf) as (r & w' & Hr & Ho).
  exists r, w'. split; [exact Hr|]. split; [exact Ho|]. intros -> source2 w2 Hi Hallow.
  destruct Ho as (Hok & _ & _ & _ & _ & Hdone). destruct (proj1 Hok eq_refl) as (_ & Hu & Hp & Hopen & _).
  destruct (Hdone eq_refl) as (_ & cred & cred' & Hc & Hafter & Hids).
  destruct (run_Authenticate l w2 username password source2 Hmade) as (r2 & w3 & Hr2 & Hok2 & _).
  { rewrite Hi, Hids. by eapply wf_row_after. }
  exists w3. rewrite Hr2. do 2 f_equal. apply Hok2. rewrite Hi, Hids. split_and!; [done..|]. exists cred'.
  unfold verifier_of. rewrite Hi, Hids. split; [by apply lookup_insert_eq|by apply Hafter].
Qed.

(** ** Robot secrets *)
#[local] Opaque hmac.

(** Under any later keyring, a digest made by one of its keys is passed exactly by
    what that key gives the same HMAC. *)
Lemma VerifyMAC_made kr k ctx secret presented :
  keyring_ok kr → k ∈ Keys (Some kr) → Context_Validate ctx = Ok tt →
  VerifyMAC (Some kr) presented ctx (mac_with k ctx secret) = true ↔
  hmac (k_material k) (mac_input ctx presented) = hmac (k_material k) (mac_input ctx secret).
Proof.
  intros Hk Hin Hc. rewrite VerifyMAC_iff by done. split.
  - intros (_ & k' & Hin' & Heq). unfold mac_with in Heq.
    assert (∀ j, j ∈ Keys (Some kr) → length (String.list_ascii_of_string (k_id j)) = KeyIDLength) as Hlen.
    { intros j Hj. destruct (isKeyID_facts (k_id j)) as (Hl & _); [|by rewrite list_ascii_length].
      apply key_ok_id. eapply Forall_forall; [by apply keyring_keys_ok|done]. }
    apply app_inj_1 in Heq as [Hid Hm]; [|by rewrite !Hlen].
    assert (k = k') as <-; [|exact (eq_sym Hm)].
    eapply (nodup_key_inj k_id (Keys (Some kr))); [by apply keyring_ids_NoDup|done..|by apply list_ascii_inj].
  - intros Heq. split; [done|]. exists k. split; [done|]. unfold mac_with, computeMAC. f_equal. exact (eq_sym Heq).
Qed.

Lemma Mint_spec kr limiter w name expiresAt secret w1 :
  run (Mint (mkRobotSecrets (Some kr) limiter) name expiresAt) w = Some (Ok secret, w1) →
  ∃ x row k random, GetSubject false name (w_ids w) = Ok x ∧ sj_kind x = Robot ∧ k ∈ Keys (Some kr) ∧
    secret = robot_secret (sj_id x) random ∧ Context_Validate (RobotSecret (sj_id x)) = Ok tt ∧
    rc_secretHash row = String.string_of_list_ascii (mac_with k (RobotSecret (sj_id x)) (String.list_ascii_of_string secret)) ∧
    rc_expiresAt row = (if expiresAt =? 0 then readings w 0 + DefaultRobotTTL else expiresAt) ∧
    readings w 0 < rc_expiresAt row ∧
    w_ids w1 = set_robotCredentials (<[name := row]> (robotCredentials (w_ids w))) (w_ids w).
Proof.
  unfold Mint. rewrite run_bindE, run_stored, run_call. cbn [handle].
  destruct (GetSubject false name (w_ids w)) as [x|] eqn:Hx; [|done]. cbn [result_map_err].
  destruct (String.eqb_spec (sj_kind x) Robot) as [Hkind|]; [|done]. cbn [negb]. rewrite run_then, run_call. cbn [handle].
  set (e := if expiresAt =? 0 then _ else _). destruct (Z.ltb_spec (readings w 0) e) as [He|]; [|done]. cbn [negb].
  rewrite run_bindE. unfold generatePassword. rewrite run_then, run_call. cbn [handle].
  destruct (ReadFull _ 24) as [[raw rest]|]; [|done]. rewrite run_done.
  set (random := EncodeToString RawURLEncoding raw). unfold MAC.
  destruct (Context_Validate (RobotSecret (sj_id x))) as [[]|] eqn:Hc; [|done]. cbn [result_bind rs_ring].
  destruct (kr_entries kr) as [|active es] eqn:Hes; [done|]. rewrite run_bindE, run_stored, run_call. cbn [handle].
  unfold PutRobotCredential. set (row := mkRobotCredential _ _ _ _). cbn [w_ids set_random tick].
  destruct (id_enter false (w_ids w)); [|done]. cbn [result_bind].
  destruct (String.eqb (rc_secretHash row) ""); [done|]. destruct (rc_expiresAt row =? 0); [done|].
  destruct (subjects (w_ids w) !! rc_subject row) as [x'|]; [|done]. destruct (negb (String.eqb (sj_kind x') Robot)); [done|].
  cbn. intros [= <- <-]. exists x, row, (e_key active), random. split_and!; try done. simpl. rewrite Hes. by left.
Qed.

(** C24: A robot secret is good for its robot, until it expires or is replaced. What
    minting stores is a keyed digest bound to the robot; while that row is there,
    and after any rotation of the keys, a presented secret is accepted exactly when
    the digest's key gives it the same HMAC and the expiry is ahead, so the secret
    that was handed out is accepted until its expiry and not from then on. Any
    other presentation is the one refusal, and checking changes no identity. *)
Theorem robot_secret_admits_exactly kr limiter w name expiresAt secret w1 :
  built kr → run (Mint (mkRobotSecrets (Some kr) limiter) name expiresAt) w = Some (Ok secret, w1) →
  ∃ x row k, subjects (w_ids w) !! name = Some x ∧ sj_kind x = Robot ∧ k ∈ Keys (Some kr) ∧
    w_ids w1 = set_robotCredentials (<[name := row]> (robotCredentials (w_ids w))) (w_ids w) ∧
    readings w 0 < rc_expiresAt row ∧
    ∀ kr' limiter' w2 x' presented source,
      rtc rotates kr kr' → id_closed (w_ids w2) = false →
      subjects (w_ids w2) !! name = Some x' → sj_id x' = sj_id x → sj_kind x' = sj_kind x →
      robotCredentials (w_ids w2) !! name = Some row →
      (attempted limiter' (mkAttempt name source) w2).1.1 = true →
      ∃ r w3, run (RobotSecrets_Verify (mkRobotSecrets (Some kr') limiter') name presented source) w2 = Some (r, w3) ∧
        w_ids w3 = w_ids w2 ∧ (r = Ok tt ∨ r = Err BadCredentials) ∧
        let now := readings (attempted limiter' (mkAttempt name source) w2).2 0 in
        (r = Ok tt ↔ HasPrefix presented robotSecretPrefix = true ∧ now < rc_expiresAt row ∧
           hmac (k_material k) (mac_input (RobotSecret (sj_id x)) (String.list_ascii_of_string presented)) =
           hmac (k_material k) (mac_input (RobotSecret (sj_id x)) (String.list_ascii_of_string secret))) ∧
        (presented = secret → now < rc_expiresAt row → r = Ok tt).
Proof.
  intros Hb%built_ok Hm. destruct (Mint_spec _ _ _ _ _ _ _ Hm) as (x & row & k & random & Hx & Hkind & Hin & Hsec & Hc & Hhash & _ & He & Hids).
  exists x, row, k. unfold GetSubject, id_enter in Hx. destruct (id_closed (w_ids w)); [done|]. cbn in Hx.
  destruct (subjects (w_ids w) !! name) as [?|]; [|done]. injection Hx as ->. split_and!; try done.
  intros kr' limiter' w2 x' presented source Hrot Hopen Hx' Hid Hk' Hrow Hallow. rewrite Hkind in Hk'.
  destruct (rotates_keys _ _ Hb Hrot) as [Hb' (newer & HK)].
  unfold RobotSecrets_Verify. rewrite run_bindE, run_limited. cbv zeta. cbn [rs_limiter]. rewrite Hallow.
  pose proof (attempted_ids limiter' (mkAttempt name source) w2) as Hi2.
  destruct (attempted limiter' (mkAttempt name source) w2) as [answer w0]. cbn [fst snd] in *.
  assert (HasPrefix secret robotSecretPrefix = true) as Hpre by (rewrite Hsec; apply HasPrefix_iff; by eexists).
  destruct (HasPrefix presented robotSecretPrefix) eqn:Hp; cbn [negb].
  2: { eexists _, _. split; [reflexivity|]. split_and!; [done|by right|naive_solver|]. intros ->. congruence. }
  rewrite run_then, run_call. cbn [handle]. unfold GetSubject, id_enter. rewrite Hi2, Hopen. cbn [result_bind]. rewrite Hx', Hk', String.eqb_refl. cbn [negb].
  rewrite run_then, run_call. cbn [handle]. rewrite run_then, run_call. cbn [handle tick w_ids]. rewrite Hi2.
  unfold GetRobotCredential, id_enter. rewrite Hopen. cbn [result_bind]. rewrite Hrow.
  destruct (Z.ltb_spec (readings w0 0) (rc_expiresAt row)) as [Hlt|Hge]; cbn [negb].
  2: { eexists _, _. split; [reflexivity|]. cbn [w_ids tick]. split_and!; [done|by right|split; [done|lia]|lia]. }
  eexists _, _. split; [reflexivity|]. cbn [w_ids tick]. rewrite Hid, Hhash, String.list_ascii_of_string_of_list_ascii. cbn [rs_ring].
  pose proof (VerifyMAC_made kr' k (RobotSecret (sj_id x)) (String.list_ascii_of_string secret) (String.list_ascii_of_string presented) Hb') as Hv.
  rewrite HK in Hv. specialize (Hv ltac:(apply elem_of_app; by right) Hc).
  destruct (VerifyMAC _ _ _ _); split_and!; try done; try (by left); try (by right).
  - split; [|done]. intros _. split_and!; [done|done|by apply Hv].
  - split; [done|]. intros (_ & _ & Heq). by apply Hv in Heq.
  - intros -> _. discriminate (proj2 Hv eq_refl).
Qed.
End login.

(** ** A deployment to try them on *)
Definition weak_params : Params := mkParams 8 1 1 16 32.
Definition verifier (params : Params) (password : string) : string :=
  match Hash params demo_random password with Ok (e, _) => e | Err _ => "" end.

Definition demo_ids : IdStore :=
  history [OpCreateSubject false (mkSubject "u1" User "alice" false 1);
           OpPutUserCredential false (mkUserCredential "alice" (verifier weak_params "hunter2") true 0);
           OpCreateSubject false (mkSubject "r1" Robot "robot$ci" false 1)] New.

Definition demo_limiter : AttemptLimiter :=
  mkAttemptLimiter (mkLimiter DefaultAccountLimit ∅) (mkLimiter DefaultAddressLimit ∅).

Definition demo_bytes : Random := map Z_byte (seqZ 0 200).
Definition demo_world : world := mkWorld demo_ids demo_limiter demo_bytes (λ _, 1000) 0 [].

Definition demo_login : PasswordLogin :=
  match run (NewPasswordLogin true DefaultParams) demo_world with Some (Ok l, _) => l | _ => mkPasswordLogin false DefaultParams "" end.

Lemma demo_made : made demo_login.
Proof.
  split; [apply default_widths|]. exists true, demo_world. eexists. vm_compute. reflexivity.
Qed.

Lemma demo_wf : wf (w_ids demo_world).
Proof. apply id_history_wf, id_New_wf. Qed.

Lemma login_is_exact_witness :
  ∃ w', run (Authenticate demo_login "alice" "hunter2" "10.0.0.7") demo_world = Some (Ok tt, w') ∧
    ∃ cred cred', verifier_of demo_world "alice" = Some cred ∧ row_after demo_login cred "hunter2" cred'.
Proof.
  destruct (login_is_exact demo_login demo_world "alice" "hunter2" "10.0.0.7" demo_made demo_wf) as (r & w' & Hr & (Hok & _ & _ & _ & _ & Hafter) & _).
  assert (r = Ok tt) as ->.
  { apply Hok. split_and!; [vm_compute; reflexivity|done|done|vm_compute; reflexivity|].
    exists (mkUserCredential "alice" (verifier weak_params "hunter2") true 0). split; vm_compute; reflexivity. }
  exists w'. split; [exact Hr|]. destruct (Hafter eq_refl) as (_ & cred & cred' & Hc & Ha & _). exists cred, cred'. split; [exact Hc|exact Ha].
Defined.

(** The other outcomes on the same deployment. *)
Lemma demo_refusals :
  fst <$> run (Authenticate demo_login "alice" "wrong" "10.0.0.7") demo_world = Some (Err BadCredentials) ∧
  fst <$> run (Authenticate demo_login "nobody" "hunter2" "10.0.0.7") demo_world = Some (Err BadCredentials) ∧
  fst <$> run (Authenticate demo_login "alice" "" "10.0.0.7") demo_world = Some (Err BadCredentials).
Proof. split_and!; vm_compute; reflexivity. Qed.

Definition demo_secrets : RobotSecrets := mkRobotSecrets (Some demo_ring) true.
Definition demo_minted : string * world :=
  match run (Mint demo_secrets "robot$ci" 0) demo_world with Some (Ok secret, w) => (secret, w) | _ => ("", demo_world) end.

Lemma robot_secret_admits_exactly_witness :
  ∃ w3, run (RobotSecrets_Verify demo_secrets "robot$ci" demo_minted.1 "10.0.0.7") demo_minted.2 = Some (Ok tt, w3).
Proof.
  destruct (robot_secret_admits_exactly demo_ring true demo_world "robot$ci" 0 demo_minted.1 demo_minted.2 demo_built) as (x & row & k & Hx & Hk & Hin & Hids & He & H).
  { vm_compute. reflexivity. }
  assert (readings demo_world 0 < rc_expiresAt row) as He' by exact He.
  assert (robotCredentials (w_ids demo_minted.2) !! "robot$ci" = Some row) as Hrow by (rewrite Hids; apply lookup_insert_eq).
  assert (subjects (w_ids demo_minted.2) !! "robot$ci" = Some x) as Hx' by (rewrite Hids; exact Hx).
  destruct (H demo_ring true demo_minted.2 x demo_minted.1 "10.0.0.7") as (r & w3 & Hr & _ & _ & _ & Hok); [apply rtc_refl| |exact Hx'|reflexivity|reflexivity|exact Hrow| |].
  - vm_compute. reflexivity.
  - vm_compute. reflexivity.
  - assert (r = Ok tt) as ->.
    { apply Hok; [reflexivity|]. eapply Z.le_lt_trans; [|exact He']. vm_compute. discriminate. }
    exists w3. exact Hr.
Defined.

(** ** What the upgrade and the robot path miss *)
Section paused.
Context {argon : Argon2}.

(** The first calls of a program, and the rest of it. *)
Fixpoint steps {A} (n : nat) (p : auth A) (w : world) : auth A * world :=
  match n, p with
  | S n, Do e k => match handle _ e w with Some (b, w') => steps n (k b) w' | None => (p, w) end
  | _, _ => (p, w)
  end.
End paused.

(** A login reads the row of a password, checks it, hashes it anew, and writes the
    row back. A rotation in between is undone: the old password works again, the
    new one does not, and the flag that asks for a rotation is back. *)
Definition unlimited_login : PasswordLogin := mkPasswordLogin false DefaultParams (pl_decoy demo_login).
Definition mid_login : auth (result LoginError unit) * world :=
  steps 3 (Authenticate unlimited_login "alice" "hunter2" "10.0.0.7") demo_world.
Definition rotated_row : UserCredential := mkUserCredential "alice" (verifier DefaultParams "correct horse") false 2000.
Definition rotated_meanwhile : world :=
  (update (PutUserCredential false rotated_row (w_ids mid_login.2)) mid_login.2).2.

Lemma upgrade_undoes_a_rotation :
  (∃ w', run (Authenticate unlimited_login "alice" "correct horse" "10.0.0.7") rotated_meanwhile = Some (Ok tt, w')) ∧
  ∃ w, run mid_login.1 rotated_meanwhile = Some (Ok tt, w) ∧
    (uc_mustRotate <$> verifier_of w "alice") = Some true ∧
    fst <$> run (Authenticate unlimited_login "alice" "hunter2" "10.0.0.7") w = Some (Ok tt) ∧
    fst <$> run (Authenticate unlimited_login "alice" "correct horse" "10.0.0.7") w = Some (Err BadCredentials).
Proof.
  split; [eexists; vm_compute; reflexivity|]. eexists. split; [vm_compute; reflexivity|].
  split; [vm_compute; reflexivity|]. split; vm_compute; reflexivity.
Qed.

(** A robot that presents its own secret eleven times at one instant is refused. *)
Fixpoint verify_times (n : nat) (w : world) : world :=
  match n with
  | O => w
  | S n => match run (RobotSecrets_Verify demo_secrets "robot$ci" demo_minted.1 "10.0.0.7") w with
           | Some (Ok _, w') => verify_times n w'
           | _ => w
           end
  end.

Lemma robot_logins_are_charged :
  ∃ wait, fst <$> run (RobotSecrets_Verify demo_secrets "robot$ci" demo_minted.1 "10.0.0.7") (verify_times 10 demo_minted.2) =
    Some (Err (TooManyAttempts wait)).
Proof. eexists. vm_compute. reflexivity. Qed.
