(* ===== verification/Bootstrap.v ===== *)
(** * The first boot (src/internal/authn/bootstrap.go)

    Seeding the built-in roles and creating the first administrator, as programs of
    store calls. What is proved: a boot that is cut off anywhere is completed by
    the next one, the administrator it makes can do everything, and a boot that is
    not needed changes nothing but the roles. *)
From S2P Require Import Prelude RepoName Authz Roles Meta Memory MemoryInv MemorySpec Identity IdentityInv IdentitySpec Guard GuardSpec.
From S2P Require Import Limiter Sha2 Digest GoStrings Base64 Crypto Secretbox Password Effects Login LoginSpec.
Local Open Scope Z_scope.

Definition AdminName : string := "admin".
Definition AdminID : string := "admin".
Definition adminSystemBindingID : string := "bootstrap-admin-system".
Definition adminAllBindingID : string := "bootstrap-admin-all".

Record BootstrapResult : Type := mkBootstrapResult { br_adminCreated : bool; br_password : string }.

Definition sameVerbSet (a b : list string) : bool :=
  if negb (length a =? length b)%nat then false else forallb (λ verb, bool_decide (verb ∈ a)) b.

Fixpoint seed_roles (roles : list Roles.Role) : auth (result LoginError unit) :=
  match roles with
  | [] => Done (Ok tt)
  | role :: rest =>
      let put :=
        fxE! _ := Login.stored (call (PutBuiltinRoleOp (mkRole (role_name role) true (role_verbs role)))) in
        seed_roles rest in
      fx! held := call (GetRoleOp (role_name role)) in
      match held with
      | Err (NotFound _ _) => put
      | Err e => Done (Err (StoreFailed e))
      | Ok held => if rl_builtin held && sameVerbSet (rl_verbs held) (role_verbs role) then seed_roles rest else put
      end
  end.

Definition SeedBuiltinRoles : auth (result LoginError unit) := seed_roles BuiltinRoles.

(** One pass of the inner loop: whether a user was seen, and the subject called admin. *)
Definition look (acc : bool * option Subject) (subject : Subject) : bool * option Subject :=
  (acc.1 || String.eqb (sj_kind subject) User, if String.eqb (sj_name subject) AdminName then Some subject else acc.2).

(** The listing loop; a store with more pages than the fuel is [TooManyPages]. *)
Fixpoint scan (fuel : nat) (acc : bool * option Subject) (cursor : string) : auth (result LoginError (bool * option Subject)) :=
  match fuel with
  | O => Done (Err TooManyPages)
  | S fuel =>
      fxE! page := Login.stored (call (ListSubjectsOp (mkListOptions (mkVisibility false []) MaxPageSize cursor))) in
      let acc := foldl look acc (fst page) in
      if String.eqb (snd page) "" then Done (Ok acc) else scan fuel acc (snd page)
  end.

Definition adminNeeded (fuel : nat) : auth (result LoginError bool) :=
  fxE! seen := scan fuel (false, None) "" in
  match seen with
  | (hasUser, admin) =>
      match admin with
      | Some x =>
          if negb (String.eqb (sj_kind x) User) then
            Done (if hasUser : bool then Ok false else Err (AdminNotAUser (sj_kind x)))
          else if negb hasUser then Done (Ok true)
          else
            fx! cred := call (GetUserCredentialOp AdminName) in
            Done (match cred with
                  | Err (NotFound _ _) => Ok true
                  | Err e => Err (StoreFailed e)
                  | Ok _ => Ok false
                  end)
      | None => Done (Ok (negb hasUser))
      end
  end.

(** A write that tolerates having happened already. *)
Definition unless_done (p : auth (result MetaError unit)) : auth (result LoginError unit) :=
  fx! r := p in
  Done (match r with
        | Ok _ | Err (Conflict _ _) => Ok tt
        | Err e => Err (StoreFailed e)
        end).

Definition admin_binding (id scope : string) (now : Z) : Binding :=
  mkBinding id PrincipalSubject AdminID RoleAdmin scope now.

Definition create_admin (params : Params) : auth (result LoginError BootstrapResult) :=
  fxE! password := generatePassword in
  fx! hash := call (HashOp params password) in
  match hash with
  | Err e => Done (Err (PasswordFailed e))
  | Ok hash =>
      fx! now := call Now in
      fxE! _ := unless_done (call (CreateSubjectOp (mkSubject AdminID User AdminName false now))) in
      fx! t1 := call Now in
      fx! t2 := call Now in
      fxE! _ := unless_done (call (CreateBindingOp (admin_binding adminSystemBindingID "system" t1))) in
      fxE! _ := unless_done (call (CreateBindingOp (admin_binding adminAllBindingID "*" t2))) in
      fxE! _ := Login.stored (call (PutUserCredentialOp (mkUserCredential AdminName hash true 0))) in
      Done (Ok (mkBootstrapResult true password))
  end.

Definition Bootstrap (fuel : nat) (params : Params) : auth (result LoginError BootstrapResult) :=
  fxE! _ := SeedBuiltinRoles in
  fxE! needed := adminNeeded fuel in
  if negb needed then Done (Ok (mkBootstrapResult false "")) else create_admin params.

(** ** What a boot relies on *)

(** The names and identifiers of the first administrator mean that and nothing
    else, its account is not disabled, and no custom role has the name of a built-in one. *)
Definition is_admin_grant (scope : string) (b : Binding) : Prop :=
  bd_principalKind b = PrincipalSubject ∧ bd_principalID b = AdminID ∧ bd_role b = RoleAdmin ∧ bd_scope b = scope.

Record bootable (s : IdStore) : Prop := {
  bo_wf : wf s;
  bo_open : id_closed s = false;
  bo_admin : ∀ x, subjects s !! AdminName = Some x → sj_kind x = User ∧ sj_id x = AdminID ∧ sj_disabled x = false;
  bo_id : ∀ n x, subjects s !! n = Some x → sj_id x = AdminID → n = AdminName;
  bo_system : ∀ b, bindings s !! adminSystemBindingID = Some b → is_admin_grant "system" b;
  bo_all : ∀ b, bindings s !! adminAllBindingID = Some b → is_admin_grant "*" b;
  bo_roles : ∀ role x, role ∈ BuiltinRoles → roles s !! role_name role = Some x → rl_builtin x = true;
}.

(** The calls of a boot that write. *)
Definition boots (B : Type) (e : authop B) : Prop :=
  match e with
  | PutBuiltinRoleOp role => ∃ r, r ∈ BuiltinRoles ∧ role = mkRole (role_name r) true (role_verbs r)
  | CreateSubjectOp x => sj_id x = AdminID ∧ sj_kind x = User ∧ sj_name x = AdminName ∧ sj_disabled x = false
  | CreateBindingOp b => ∃ now, b = admin_binding adminSystemBindingID "system" now ∨ b = admin_binding adminAllBindingID "*" now
  | PutUserCredentialOp cred => uc_subject cred = AdminName
  | PutRobotCredentialOp _ | DeleteSubjectSessionsOp _ => False
  | _ => True
  end.

Definition anything (B : Type) (e : authop B) (b : B) : Prop := True.

Lemma seed_boots roles : (∀ r, r ∈ roles → r ∈ BuiltinRoles) → obeys anything boots (λ _, True) (seed_roles roles).
Proof.
  induction roles as [|role rest IH]; intros Hin; cbn [seed_roles]; [done|].
  specialize (IH ltac:(intros; apply Hin; by right)).
  assert (obeys anything boots (λ _, True)
    (fxE! _ := Login.stored (call (PutBuiltinRoleOp (mkRole (role_name role) true (role_verbs role)))) in seed_roles rest)) as Hput.
  { apply obeys_thenE; [|done]. simpl. split; [exists role; split; [apply Hin; by left|done]|]. intros [] _; done. }
  simpl. split; [done|]. intros [held|[]] _; try exact Hput; try done. by destruct (_ && _).
Qed.

Lemma scan_boots fuel acc cursor : obeys anything boots (λ _, True) (scan fuel acc cursor).
Proof.
  revert acc cursor. induction fuel as [|fuel IH]; intros acc cursor; cbn [scan]; [done|].
  apply obeys_thenE; [simpl; split; [done|]; by intros [] _|]. intros page. destruct (String.eqb _ _); [done|apply IH].
Qed.

Lemma Bootstrap_boots fuel params : obeys anything boots (λ _, True) (Bootstrap fuel params).
Proof.
  unfold Bootstrap. apply obeys_thenE; [eapply obeys_mono; [|by apply seed_boots]; by intros []|]. intros _.
  apply obeys_thenE.
  - unfold adminNeeded. apply obeys_thenE; [eapply obeys_mono; [|by apply scan_boots]; by intros []|]. intros [hasUser [x|]]; [|done].
    destruct (negb _); [by destruct hasUser|]. destruct hasUser; simpl; [|done]. split; [done|]. by intros [|[]] _.
  - intros [|]; simpl; [|done]. split; [done|]. intros [raw|] _; [|done]. simpl. split; [done|]. intros [hash|] _; [|done].
    simpl. split; [done|]. intros now _. split; [done|]. intros [|[]] _; try done; simpl;
    (split; [done|]; intros t1 _; split; [done|]; intros t2 _; split; [by eexists; left|]; intros [|[]] _; try done; simpl;
     (split; [by eexists; right|]; intros [|[]] _; try done; simpl; (split; [done|]; by intros [] _))).
Qed.

Section boot.
Context {argon : Argon2}.

Lemma update_cases r w b w' : update r w = (b, w') → (∃ s', r = Ok s' ∧ b = Ok tt ∧ w' = set_ids s' w) ∨ (∃ e, r = Err e ∧ b = Err e ∧ w' = w).
Proof. destruct r as [s'|e]; cbn; intros [= <- <-]; [left|right]; eauto. Qed.

(** A write of a boot keeps what the next one relies on. *)
Lemma bootable_step {B} (e : authop B) w b w' :
  boots B e → handle B e w = Some (b, w') → bootable (w_ids w) → bootable (w_ids w').
Proof.
  intros He Hh [Hwf Hopen Hadmin Hid Hsys Hall Hroles].
  destruct e; cbn [handle boots] in *; try done; try (injection Hh as <- <-; by split).
  - (* CreateSubject *) destruct He as (H1 & H2 & H3 & H4). injection Hh as Hh.
    apply update_cases in Hh as [(s' & Hs & _ & ->)|(e & _ & _ & ->)]; [|by split]. cbn [w_ids set_ids].
    pose proof (CreateSubject_wf _ _ _ _ Hwf Hs) as Hwf'. unfold CreateSubject in Hs. open_method Hs. split; cbn; try done.
    + rewrite H3. intros x. rewrite lookup_insert_eq. by intros [= <-].
    + intros n x. rewrite lookup_insert_Some. intros [[<- _]|[_ Hx]]; [done|by apply Hid].
  - (* PutBuiltinRole *) destruct He as (r & Hr & ->). injection Hh as Hh.
    apply update_cases in Hh as [(s' & Hs & _ & ->)|(e & _ & _ & ->)]; [|by split]. cbn [w_ids set_ids].
    pose proof (PutBuiltinRole_wf _ _ _ _ Hwf Hs) as Hwf'. unfold PutBuiltinRole in Hs.
    assert (s' = set_roles (<[role_name r := stored_role (mkRole (role_name r) true (role_verbs r))]> (roles (w_ids w))) (w_ids w)) as ->
      by (open_method Hs; done).
    split; cbn; try done. intros role x Hin. rewrite lookup_insert_Some. intros [[_ <-]|[_ Hx]]; [done|by eapply Hroles].
  - (* CreateBinding *) injection Hh as Hh.
    apply update_cases in Hh as [(s' & Hs & _ & ->)|(e & _ & _ & ->)]; [|by split]. cbn [w_ids set_ids].
    pose proof (CreateBinding_wf _ _ _ _ Hwf Hs) as Hwf'. unfold CreateBinding in Hs. open_method Hs. destruct He as (now & [-> | ->]).
    all: split; cbn; try done; intros b0; rewrite lookup_insert_Some; intros [[? <-]|[_ Hb]]; try done; by (apply Hsys || apply Hall).
  - (* PutUserCredential *) injection Hh as Hh.
    apply update_cases in Hh as [(s' & Hs & _ & ->)|(e & _ & _ & ->)]; [|by split]. cbn [w_ids set_ids].
    pose proof (PutUserCredential_wf _ _ _ _ Hwf Hs) as Hwf'. unfold PutUserCredential in Hs. open_method Hs. by split.
  - destruct (ReadFull _ _) as [[]|]; injection Hh as <- <-; by split.
  - destruct (Hash _ _ _) as [[]|]; injection Hh as <- <-; by split.
  - destruct (AttemptLimiter_Allow _ _ _). simplify_eq. by split.
Qed.

(** Cut off after any number of calls, a boot leaves a store the next can boot. *)
Lemma steps_obey {A} (Q : A → Prop) (p : auth A) n w :
  obeys anything boots Q p → bootable (w_ids w) → bootable (w_ids (steps n p w).2).
Proof.
  revert p w. induction n as [|n IH]; intros [a|B e k] w Hp Hw; simpl in *; try done. destruct Hp as [He Hk].
  destruct (handle B e w) as [[b w']|] eqn:Hh; [|done]. apply IH; [by apply Hk|by eapply bootable_step].
Qed.

(** ** Seeding *)
Definition seeded_role (m : gmap string Role) (role : Roles.Role) : Prop :=
  ∃ x, m !! role_name role = Some x ∧ rl_builtin x = true ∧ rl_verbs x ≡ₚ role_verbs role.
Definition seeded (s : IdStore) : Prop := ∀ role, role ∈ BuiltinRoles → seeded_role (roles s) role.

Lemma sameVerbSet_iff a b : NoDup b → sameVerbSet a b = true ↔ a ≡ₚ b.
Proof.
  intros Hb. unfold sameVerbSet. destruct (Nat.eqb_spec (length a) (length b)) as [Hl|Hl]; cbn [negb].
  - rewrite forallb_forall. setoid_rewrite bool_decide_eq_true. split.
    + intros H. symmetry. apply submseteq_length_Permutation; [|lia]. apply NoDup_submseteq; [done|].
      intros x Hx. apply H. by apply list_elem_of_In.
    + intros Hp x Hx%list_elem_of_In. by rewrite Hp.
  - split; [done|]. intros Hp%Permutation_length. done.
Qed.

Lemma builtin_facts : Forall (λ r, NoDup (role_verbs r) ∧ role_name r ≠ "") BuiltinRoles ∧ NoDup (role_name <$> BuiltinRoles).
Proof.
  split; [|apply (bool_decide_unpack _); vm_compute; exact I].
  apply (bool_decide_unpack (Forall (λ r, NoDup (role_verbs r) ∧ role_name r ≠ "") BuiltinRoles)). vm_compute. exact I.
Qed.

Lemma set_same_roles w : set_ids (set_roles (roles (w_ids w)) (w_ids w)) w = w.
Proof. by destruct w as [[] ? ? ? ? ?]. Qed.

Definition one_role (w : world) (role : Roles.Role) : gmap string Role :=
  <[role_name role := stored_role (mkRole (role_name role) true (role_verbs role))]> (roles (w_ids w)).

Definition role_put (role : Roles.Role) : authop (result MetaError unit) :=
  PutBuiltinRoleOp (mkRole (role_name role) true (role_verbs role)).

Lemma handle_put role w : role ∈ BuiltinRoles → bootable (w_ids w) →
  handle _ (role_put role) w = Some (Ok tt, set_ids (set_roles (one_role w role) (w_ids w)) w).
Proof.
  intros Hin Hb. destruct (proj1 (Forall_forall _ _) (proj1 builtin_facts) _ Hin) as [_ Hne].
  cbn [handle role_put]. unfold PutBuiltinRole, id_enter. rewrite (bo_open _ Hb).
  cbn [result_bind negb rl_builtin rl_name]. destruct (String.eqb_spec (role_name role) "") as [|_]; [done|].
  destruct (roles (w_ids w) !! role_name role) as [x|] eqn:Hx; [|done]. by rewrite (bo_roles _ Hb _ _ Hin Hx).
Qed.

Lemma run_seed_one role rest w : role ∈ BuiltinRoles → bootable (w_ids w) →
  ∃ m, run (seed_roles (role :: rest)) w = run (seed_roles rest) (set_ids (set_roles m (w_ids w)) w) ∧
    bootable (set_roles m (w_ids w)) ∧ seeded_role m role ∧ (∀ n, n ≠ role_name role → m !! n = roles (w_ids w) !! n) ∧
    (seeded_role (roles (w_ids w)) role → m = roles (w_ids w)).
Proof.
  intros Hin Hb. destruct (proj1 (Forall_forall _ _) (proj1 builtin_facts) _ Hin) as [Hnd _].
  pose proof (handle_put role w Hin Hb) as Hput. assert (bootable (set_roles (one_role w role) (w_ids w))) as Hb'.
  { by eapply (bootable_step (role_put role) w) in Hput; [|exists role|]. }
  assert (seeded_role (one_role w role) role) as Hone.
  { eexists. split; [apply lookup_insert_eq|]. split; [done|]. apply sort_strings_perm. }
  assert (∀ n, n ≠ role_name role → one_role w role !! n = roles (w_ids w) !! n) as Hother by (intros; by apply lookup_insert_ne).
  assert (∀ rest, run (fxE! _ := Login.stored (call (role_put role)) in seed_roles rest) w =
    run (seed_roles rest) (set_ids (set_roles (one_role w role) (w_ids w)) w)) as Hrun
    by (intros; by rewrite run_bindE, run_stored, run_call, Hput).
  cbn [seed_roles]. rewrite run_then, run_call. cbn [handle]. unfold GetRole, id_enter. rewrite (bo_open _ Hb). cbn [result_bind].
  destruct (roles (w_ids w) !! role_name role) as [x|] eqn:Hx.
  - pose proof (bo_roles _ Hb _ _ Hin Hx) as Hbu. rewrite Hbu. cbn [andb].
    destruct (sameVerbSet (rl_verbs x) (role_verbs role)) eqn:Hs.
    + exists (roles (w_ids w)). rewrite set_same_roles. apply sameVerbSet_iff in Hs; [|done]. split_and!; [done|by destruct (w_ids w)|by exists x|done|done].
    + exists (one_role w role). split_and!; [apply Hrun|done|done|done|].
      intros (x' & Hx' & _ & Hp). rewrite Hx in Hx'. injection Hx' as <-. apply sameVerbSet_iff in Hp; [congruence|done].
  - exists (one_role w role). split_and!; [apply Hrun|done|done|done|]. intros (x' & Hx' & _). congruence.
Qed.

Lemma run_seed todo w : (∀ r, r ∈ todo → r ∈ BuiltinRoles) → NoDup (role_name <$> todo) → bootable (w_ids w) →
  ∃ m, run (seed_roles todo) w = Some (Ok tt, set_ids (set_roles m (w_ids w)) w) ∧ bootable (set_roles m (w_ids w)) ∧
    (∀ role, role ∈ todo → seeded_role m role) ∧ (∀ n, n ∉ role_name <$> todo → m !! n = roles (w_ids w) !! n) ∧
    ((∀ role, role ∈ todo → seeded_role (roles (w_ids w)) role) → m = roles (w_ids w)).
Proof.
  revert w. induction todo as [|role todo IH]; intros w Hin Hnd Hb.
  - exists (roles (w_ids w)). rewrite set_same_roles. split_and!; [done|by destruct (w_ids w)|by intros ? ?%not_elem_of_nil|done|done].
  - cbn in Hnd. apply NoDup_cons in Hnd as [Hni Hnd].
    destruct (run_seed_one role todo w) as (m1 & Hrun & Hb1 & Hs1 & Ho1 & Hsame1); [apply Hin; by left|done|].
    destruct (IH (set_ids (set_roles m1 (w_ids w)) w)) as (m & Hm & Hbm & Hsm & Hom & Hsame); [intros; apply Hin; by right|done|done|].
    cbn [w_ids set_ids roles set_roles] in *. exists m. split_and!.
    + by rewrite Hrun, Hm.
    + done.
    + intros r [->|Hr]%elem_of_cons; [|by apply Hsm]. destruct Hs1 as (x & Hx & ?). exists x. by rewrite Hom.
    + intros n Hn. cbn in Hn. apply not_elem_of_cons in Hn as [Hn1 Hn2]. rewrite Hom by done. by apply Ho1.
    + intros Hall. rewrite <- (Hsame1 (Hall role ltac:(by left))). apply Hsame. intros r Hr.
      rewrite (Hsame1 (Hall role ltac:(by left))). apply Hall. by right.
Qed.

(** ** Looking for an administrator *)
Definition list_page (s : IdStore) (cursor : string) : list Subject * string :=
  match ListSubjects false (mkListOptions (mkVisibility false []) MaxPageSize cursor) s with Ok page => page | Err _ => ([], "") end.

Lemma run_scan fuel acc cursor w l : id_closed (w_ids w) = false →
  read_pages (list_page (w_ids w)) fuel cursor = Some l → run (scan fuel acc cursor) w = Some (Ok (foldl look acc l), w).
Proof.
  intros Hopen. revert acc cursor l. induction fuel as [|fuel IH]; intros acc cursor l Hl; [done|]. cbn [scan read_pages] in *.
  rewrite run_bindE, run_stored, run_call. cbn [handle]. unfold list_page in Hl at 1.
  assert (∃ page, ListSubjects false (mkListOptions (mkVisibility false []) MaxPageSize cursor) (w_ids w) = Ok page) as [[page next] Hp].
  { unfold ListSubjects, id_enter. rewrite Hopen. cbn [result_bind]. destruct (page_of _ _). by eexists. }
  rewrite Hp in *. cbn [result_map_err fst snd]. destruct (String.eqb next ""); [by injection Hl as <-|].
  destruct (read_pages (list_page (w_ids w)) fuel next) as [more|] eqn:Hm; [|done]. injection Hl as <-.
  rewrite foldl_app. by apply IH.
Qed.

Lemma subject_names_after s cursor :
  sort_strings (filter (λ n, str_lt cursor n = true) (map_to_list (subjects s)).*1) =
  after (sort_strings (map_to_list (subjects s)).*1) cursor.
Proof.
  unfold after. apply (StronglySorted_unique String.le).
  - apply sort_strings_sorted.
  - apply StronglySorted_filter, sort_strings_sorted.
  - by rewrite !sort_strings_perm.
Qed.

Lemma all_subjects s fuel : wf s → id_closed s = false → (size (subjects s) < fuel)%nat →
  ∃ l, read_pages (list_page s) fuel "" = Some l ∧ ∀ x, x ∈ l ↔ ∃ n, subjects s !! n = Some x.
Proof.
  intros Hwf Hopen Hf. set (names := sort_strings (map_to_list (subjects s)).*1).
  assert (∀ n, n ∈ names ↔ is_Some (subjects s !! n)) as Hn.
  { intros n. unfold names. rewrite sort_strings_elem, list_elem_of_fmap. split.
    - intros ([k x] & -> & Hk%elem_of_map_to_list). by eexists.
    - intros [x Hx]. exists (n, x). by rewrite elem_of_map_to_list. }
  assert (NoDup names) as Hnd by (unfold names; rewrite sort_strings_perm; apply NoDup_fst_map_to_list).
  assert ("" ∉ names) as Hne by (intros [x Hx]%Hn; by destruct (wf_subjects _ Hwf _ _ Hx) as (_ & ? & _)).
  exists (omap (λ n, subjects s !! n) names). split.
  - erewrite (read_pages_map (omap (λ n, subjects s !! n)) (λ c, page_of MaxPageSize (after names c))).
    + rewrite (read_pages_all names MaxPageSize).
      * by rewrite after_start.
      * apply sort_strings_sorted.
      * done.
      * done.
      * done.
      * rewrite after_start by done. unfold names. by rewrite sort_strings_perm, length_fmap, length_map_to_list.
    + intros. apply omap_app.
    + intros c. unfold list_page, ListSubjects, id_enter. rewrite Hopen. cbn [result_bind lo_cursor].
      rewrite subject_names_after. fold names. change (EffectiveLimit _) with MaxPageSize. by destruct (page_of _ _).
  - intros x. rewrite list_elem_of_omap. split; [naive_solver|]. intros [n Hx]. exists n. split; [|done]. apply Hn. by eexists.
Qed.

Lemma look_all l acc : (foldl look acc l).1 = acc.1 || existsb (λ x, String.eqb (sj_kind x) User) l ∧
  ((∀ x, x ∈ l → sj_name x ≠ AdminName) → (foldl look acc l).2 = acc.2) ∧
  (∀ x, x ∈ l → sj_name x = AdminName → (∀ y, y ∈ l → sj_name y = AdminName → y = x) → (foldl look acc l).2 = Some x).
Proof.
  revert acc. induction l as [|y l IH]; intros acc; cbn [foldl existsb].
  - split_and!; [by rewrite orb_false_r|done|by intros ? ?%not_elem_of_nil].
  - destruct (IH (look acc y)) as (H1 & H2 & H3). split_and!.
    + rewrite H1. cbn. by rewrite orb_assoc.
    + intros Hno. rewrite H2 by (intros; apply Hno; by right). cbn. destruct (String.eqb_spec (sj_name y) AdminName) as [He|]; [|done].
      by destruct (Hno y ltac:(by left)).
    + intros x Hx Hname Huniq. destruct (decide (Exists (λ z, sj_name z = AdminName) l)) as [(z & Hz & Hzn)%Exists_exists|Hno].
      * assert (z = x) as -> by (apply Huniq; [by right|done]). apply H3; [done|done|]. intros. apply Huniq; [by right|done].
      * rewrite Exists_exists in Hno. rewrite H2 by naive_solver. apply elem_of_cons in Hx as [->|Hx]; [|naive_solver].
        cbn. by rewrite Hname.
Qed.

Definition has_user (s : IdStore) : bool := any (λ x, String.eqb (sj_kind x) User) (subjects s).
Definition needs_admin (s : IdStore) : bool :=
  negb (has_user s) || bool_decide (is_Some (subjects s !! AdminName)) && bool_decide (userCredentials s !! AdminName = None).

Lemma run_adminNeeded fuel w : bootable (w_ids w) → (size (subjects (w_ids w)) < fuel)%nat →
  run (adminNeeded fuel) w = Some (Ok (needs_admin (w_ids w)), w).
Proof.
  intros Hb Hf. destruct (all_subjects (w_ids w) fuel (bo_wf _ Hb) (bo_open _ Hb) Hf) as (l & Hl & Hin).
  unfold adminNeeded. rewrite run_bindE, (run_scan _ _ _ _ l (bo_open _ Hb) Hl).
  destruct (look_all l (false, None)) as (H1 & H2 & H3). destruct (foldl look (false, None) l) as [hasUser admin]. cbn [fst snd] in *.
  assert (hasUser = has_user (w_ids w)) as ->.
  { rewrite H1. cbn [orb]. apply eq_bool_prop_intro. rewrite !Is_true_true, existsb_elem. unfold has_user. rewrite any_true. naive_solver. }
  assert (∀ x, x ∈ l → subjects (w_ids w) !! sj_name x = Some x) as Hname.
  { intros x (n & Hx)%Hin. by destruct (wf_subjects _ (bo_wf _ Hb) _ _ Hx) as (-> & _). }
  unfold needs_admin. destruct (subjects (w_ids w) !! AdminName) as [x|] eqn:Hx.
  - assert (sj_name x = AdminName) as Hn by (by destruct (wf_subjects _ (bo_wf _ Hb) _ _ Hx)).
    rewrite (H3 x); [|apply Hin; by eexists|done|intros y Hy%Hname Hyn; rewrite Hyn, Hx in Hy; by injection Hy].
    destruct (bo_admin _ Hb _ Hx) as (Hk & _ & _). rewrite Hk. change (String.eqb User User) with true. cbn [negb].
    assert (has_user (w_ids w) = true) as Hu by (apply any_true; exists AdminName, x; by rewrite Hk).
    rewrite Hu. cbn [negb orb]. rewrite bool_decide_true by by eexists. cbn [andb]. rewrite run_then, run_call. cbn [handle].
    unfold GetUserCredential, id_enter. rewrite (bo_open _ Hb). cbn [result_bind].
    by destruct (userCredentials (w_ids w) !! AdminName).
  - rewrite H2. 2: { intros y Hy%Hname Hyn. rewrite Hyn in Hy. congruence. }
    rewrite bool_decide_false by (intros []; done). cbn [andb]. by rewrite orb_false_r.
Qed.

(** ** Making the administrator *)

(** The tables a boot never writes. *)
Definition untouched (s : IdStore) :=
  (events s, subjectGroups s, groupMembers s, robotCredentials s, accessTokens s, sessions s, id_closed s).

(** Nothing of anybody else is added, lost or changed. *)
Record kept (s s' : IdStore) : Prop := {
  kept_subjects : ∀ n x, subjects s !! n = Some x → subjects s' !! n = Some x;
  kept_others : ∀ n, n ≠ AdminName → subjects s' !! n = subjects s !! n;
  kept_bindings : ∀ n b, bindings s !! n = Some b → bindings s' !! n = Some b;
  kept_grants : ∀ n, n ≠ adminSystemBindingID → n ≠ adminAllBindingID → bindings s' !! n = bindings s !! n;
  kept_users : ∀ n, n ≠ AdminName → userCredentials s' !! n = userCredentials s !! n;
  kept_roles : roles s' = roles s;
  kept_rest : untouched s' = untouched s;
}.

Lemma boot_kept_refl s : kept s s.
Proof. by split. Qed.

Lemma boot_kept_trans s1 s2 s3 : kept s1 s2 → kept s2 s3 → kept s1 s3.
Proof.
  intros [] []. split; eauto; try congruence; intros n Hn; intros; [rewrite kept_others1 by done|rewrite kept_grants1 by done|rewrite kept_users1 by done]; auto.
Qed.

Definition usable (s : IdStore) (password : string) : Prop :=
  ∃ x cred, subjects s !! AdminName = Some x ∧ sj_kind x = User ∧ sj_disabled x = false ∧
    userCredentials s !! AdminName = Some cred ∧ uc_mustRotate cred = true ∧ Verify (uc_hash cred) password = Ok tt ∧
    (∀ verb, verb ∈ verbs → permitted s AdminName verb System) ∧
    (∀ verb name, verb ∈ verbs → permitted s AdminName verb (mkResource resourceRepository name)).

(** One tolerant write: the world after it, and what it established. *)
Lemma run_unless_done e w (Q : IdStore → Prop) :
  boots _ e → bootable (w_ids w) →
  (∃ r, handle _ e w = Some (update r w) ∧
        match r with Ok s' => kept (w_ids w) s' ∧ Q s' | Err (Conflict _ _) => Q (w_ids w) | Err _ => False end) →
  ∃ s', run (unless_done (call e)) w = Some (Ok tt, set_ids s' w) ∧ bootable s' ∧ kept (w_ids w) s' ∧ Q s'.
Proof.
  intros He Hb (r & Hh & Hr). unfold unless_done. rewrite run_then, run_call, Hh.
  assert (bootable (w_ids (update r w).2)) as Hb'.
  { destruct (update r w) eqn:Hu. by eapply (bootable_step e). }
  destruct r as [s'|[]]; cbn [update] in *; try done.
  - exists s'. naive_solver.
  - exists (w_ids w). split; [by destruct w|]. split; [done|]. split; [apply boot_kept_refl|done].
Qed.

Lemma run_subject now w : bootable (w_ids w) →
  ∃ s', run (unless_done (call (CreateSubjectOp (mkSubject AdminID User AdminName false now)))) w = Some (Ok tt, set_ids s' w) ∧
    bootable s' ∧ kept (w_ids w) s' ∧ is_Some (subjects s' !! AdminName).
Proof.
  intros Hb. apply (run_unless_done _ w (λ s', is_Some (subjects s' !! AdminName))); [done|done|].
  eexists. split; [reflexivity|]. unfold CreateSubject, id_enter. rewrite (bo_open _ Hb). cbn.
  destruct (subjects (w_ids w) !! AdminName) as [x|] eqn:Hx; [by exists x|].
  destruct (any _ (subjects (w_ids w))) eqn:Ha.
  - apply any_true in Ha as (n & x & Hn & Hid%String.eqb_eq). pose proof (bo_id _ Hb _ _ Hn Hid) as ->.
    congruence.
  - split; [|cbn [subjects set_subjects]; by rewrite lookup_insert_eq].
    split; cbn [subjects set_subjects]; try done.
    + intros n x Hn. rewrite lookup_insert_ne; [done|]. intros <-. congruence.
    + intros n Hn. by rewrite lookup_insert_ne.
Qed.

Lemma run_binding id scope now w :
  boots _ (CreateBindingOp (admin_binding id scope now)) → id ≠ "" → scope ≠ "" →
  bootable (w_ids w) → is_Some (subjects (w_ids w) !! AdminName) → is_Some (roles (w_ids w) !! RoleAdmin) →
  (∀ b, bindings (w_ids w) !! id = Some b → is_admin_grant scope b) →
  ∃ s', run (unless_done (call (CreateBindingOp (admin_binding id scope now)))) w = Some (Ok tt, set_ids s' w) ∧
    bootable s' ∧ kept (w_ids w) s' ∧ ∃ k b, bindings s' !! k = Some b ∧ is_admin_grant scope b.
Proof.
  intros Hboots Hid Hscope Hb [x Hx] [role Hrole] Hres.
  apply (run_unless_done _ w (λ s', ∃ k b, bindings s' !! k = Some b ∧ is_admin_grant scope b)); [done|done|].
  eexists. split; [reflexivity|]. unfold CreateBinding, id_enter. rewrite (bo_open _ Hb). cbn [result_bind admin_binding bd_id bd_principalKind bd_principalID bd_role bd_scope].
  destruct (String.eqb_spec id "") as [|_]; [done|]. change (PrincipalKind_Valid PrincipalSubject) with true. cbn [negb].
  destruct (String.eqb_spec scope "") as [|_]; [done|].
  destruct (bindings (w_ids w) !! id) as [b|] eqn:Hbd; [by exists id, b; split; [|apply Hres]|]. rewrite Hrole.
  assert (principalExists PrincipalSubject AdminID (w_ids w) = true) as ->.
  { unfold principalExists. change (String.eqb PrincipalSubject PrincipalSubject) with true. cbn [any].
    apply any_true. exists AdminName, x. split; [done|]. apply String.eqb_eq. by apply (bo_admin _ Hb). }
  cbn [negb]. destruct (any _ (bindings (w_ids w))) eqn:Ha.
  - apply any_true in Ha as (k & b & Hk & Hs). apply same_grant_spec in Hs as (? & ? & ? & ?). by exists k, b.
  - split; [|eexists id, _; split; [apply lookup_insert_eq|done]]. split; cbn; try done.
    + intros n b Hn. rewrite lookup_insert_ne; [done|congruence].
    + intros n H1 H2. rewrite lookup_insert_ne; [done|]. destruct Hboots as (t & [Hb1|Hb1]); injection Hb1 as -> _ _; done.
Qed.

Lemma admin_permitted s scope verb resource x role :
  verb ∈ verbs → (∃ k b, bindings s !! k = Some b ∧ is_admin_grant scope b) → Scope_Matches scope resource = true →
  subjects s !! AdminName = Some x → sj_id x = AdminID → roles s !! RoleAdmin = Some role → verb ∈ rl_verbs role →
  permitted s AdminName verb resource.
Proof.
  intros Hv (k & b & Hk & H1 & H2 & H3 & H4) Hm Hx Hid Hrole Hin. split; [done|]. exists k, b, role. split_and!; try done.
  - left. split; [done|]. exists x. split; [done|congruence].
  - by rewrite H3.
  - by rewrite H4.
Qed.

Lemma admin_verbs role verb : role ∈ BuiltinRoles → role_name role = RoleAdmin → verb ∈ verbs → verb ∈ role_verbs role.
Proof.
  intros Hin Hn Hv. assert (Forall (λ r, role_name r = RoleAdmin → role_verbs r = AllVerbs) BuiltinRoles) as HF.
  { apply (bool_decide_unpack (Forall (λ r, role_name r = RoleAdmin → role_verbs r = AllVerbs) BuiltinRoles)). vm_compute. exact I. }
  rewrite Forall_forall in HF. rewrite (HF _ Hin Hn). unfold AllVerbs. by apply sort_strings_elem.
Qed.

Lemma admin_role_builtin : ∃ role, role ∈ BuiltinRoles ∧ role_name role = RoleAdmin.
Proof. eexists (Roles.mkRole RoleAdmin true AllVerbs). split; [|done].
  apply list_elem_of_lookup. exists 0%nat. vm_compute. reflexivity.
Qed.

(** The random source can serve the password and the salt. *)
Definition enough_random (params : Params) (w : world) : Prop :=
  (24 + Z.to_nat (pa_saltLength params) <= length (w_random w))%nat.

Lemma run_create_admin params w :
  widths params → Params_Validate params = Ok tt → enough_random params w → bootable (w_ids w) → seeded (w_ids w) →
  ∃ password w', run (create_admin params) w = Some (Ok (mkBootstrapResult true password), w') ∧
    bootable (w_ids w') ∧ kept (w_ids w) (w_ids w') ∧ usable (w_ids w') password.
Proof.
  intros Hw Hv Hr Hb Hseed. unfold create_admin, generatePassword. rewrite run_bindE, run_then, run_call. cbn [handle].
  unfold ReadFull at 1. unfold enough_random in Hr. destruct (Nat.leb_spec 24 (length (w_random w))) as [_|]; [|lia].
  rewrite run_done. set (password := EncodeToString RawURLEncoding (take 24 (w_random w))).
  assert (password ≠ "") as Hpw.
  { intros He%EncodeToString_nil. apply (f_equal length) in He. rewrite length_take in He. cbn [length] in He. lia. }
  rewrite run_then, run_call. cbn [handle set_random w_random].
  destruct (Hash params (drop 24 (w_random w)) password) as [[hash rest]|e] eqn:Hh.
  2: { exfalso. unfold Hash in Hh. destruct (String.eqb_spec password "") as [|_]; [done|]. rewrite Hv in Hh.
       unfold ReadFull in Hh. rewrite length_drop in Hh.
       destruct (Nat.leb_spec (Z.to_nat (pa_saltLength params)) (length (w_random w) - 24)); [done|lia]. }
  destruct (Hash_verifies _ _ _ _ _ Hw Hh) as [Hver Hne].
  rewrite run_then, run_call. cbn [handle]. rewrite run_bindE.
  match goal with |- context [run (unless_done (call (CreateSubjectOp (mkSubject _ _ _ _ ?t)))) ?w0] =>
    destruct (run_subject t w0) as (s1 & -> & Hb1 & Hk1 & [x1 Hx1]); [done|] end.
  rewrite run_then, run_call. cbn [handle]. rewrite run_then, run_call. cbn [handle]. rewrite run_bindE.
  assert (∀ role, role_name role = RoleAdmin → role ∈ BuiltinRoles → is_Some (roles s1 !! RoleAdmin)) as Hra.
  { intros role Hn Hin. rewrite (kept_roles _ _ Hk1). destruct (Hseed role Hin) as (r & Hr' & _). rewrite <- Hn. by eexists. }
  destruct admin_role_builtin as (admin & Hin & Hname).
  match goal with |- context [run (unless_done (call (CreateBindingOp (admin_binding _ _ ?t)))) ?w0] =>
    destruct (run_binding adminSystemBindingID "system" t w0) as (s2 & -> & Hb2 & Hk2 & Hsys); [by eexists; left|done|done|done|by eexists|by eapply Hra|by apply bo_system|] end.
  rewrite run_bindE.
  match goal with |- context [run (unless_done (call (CreateBindingOp (admin_binding _ _ ?t)))) ?w0] =>
    destruct (run_binding adminAllBindingID "*" t w0) as (s3 & -> & Hb3 & Hk3 & Hall); [by eexists; right|done|done|done|..] end.
  { eexists. by apply (kept_subjects _ _ Hk2). } { cbn. rewrite (kept_roles _ _ Hk2). by eapply Hra. } { by apply bo_all. }
  cbn [w_ids set_ids] in Hk2, Hk3. pose proof (kept_subjects _ _ Hk3 _ _ (kept_subjects _ _ Hk2 _ _ Hx1)) as Hx3.
  rewrite run_bindE, run_stored, run_call. cbn [handle w_ids set_ids]. unfold PutUserCredential, id_enter. rewrite (bo_open _ Hb3).
  cbn [result_bind uc_hash uc_subject]. destruct (String.eqb_spec hash "") as [|_]; [done|]. rewrite Hx3. cbn [update result_map_err].
  set (cred := mkUserCredential AdminName hash true 0).
  eexists password, _. split; [reflexivity|]. cbn [w_ids set_ids].
  set (s4 := set_userCredentials (<[AdminName := cred]> (userCredentials s3)) s3).
  assert (kept s3 s4) as Hk4 by (split; try done; intros n Hn; unfold s4; cbn [userCredentials set_userCredentials]; by rewrite lookup_insert_ne).
  assert (kept (w_ids w) s4) as Hkept by (eapply boot_kept_trans; [exact Hk1|]; eapply boot_kept_trans; [exact Hk2|]; eapply boot_kept_trans; [exact Hk3|exact Hk4]).
  split; [|split; [done|]].
  - destruct Hb3. split; try done. apply (PutUserCredential_wf false cred s3 s4); [done|]. unfold PutUserCredential, id_enter.
    rewrite bo_open0. cbn [result_bind uc_hash uc_subject cred]. destruct (String.eqb_spec hash "") as [|_]; [done|].
    by rewrite Hx3.
  - destruct (bo_admin _ Hb3 _ Hx3) as (Hkind & Hid & Hena). exists x1, cred. split_and!; try done; [by apply lookup_insert_eq|..].
    all: destruct (Hseed admin Hin) as (role & Hrole & _ & Hperm); rewrite Hname in Hrole.
    + intros verb Hverb. apply (admin_permitted s4 "system" verb System x1 role); try done.
      * destruct Hsys as (k & b & Hk & Hg). exists k, b. split; [by apply (kept_bindings _ _ Hk3)|done].
      * by rewrite (kept_roles _ _ Hkept).
      * rewrite Hperm. by eapply admin_verbs.
    + intros verb name Hverb. apply (admin_permitted s4 "*" verb _ x1 role); try done.
      * by rewrite (kept_roles _ _ Hkept).
      * rewrite Hperm. by eapply admin_verbs.
Qed.

(** ** A boot *)

(** What a boot leaves alone: everybody else, and every custom role. *)
Record spared (s s' : IdStore) : Prop := {
  sp_subjects : ∀ n x, subjects s !! n = Some x → subjects s' !! n = Some x;
  sp_others : ∀ n, n ≠ AdminName → subjects s' !! n = subjects s !! n;
  sp_bindings : ∀ n b, bindings s !! n = Some b → bindings s' !! n = Some b;
  sp_grants : ∀ n, n ≠ adminSystemBindingID → n ≠ adminAllBindingID → bindings s' !! n = bindings s !! n;
  sp_users : ∀ n, n ≠ AdminName → userCredentials s' !! n = userCredentials s !! n;
  sp_rest : untouched s' = untouched s;
  sp_roles : ∀ n, n ∉ role_name <$> BuiltinRoles → roles s' !! n = roles s !! n;
}.

Lemma needs_admin_roles m s : needs_admin (set_roles m s) = needs_admin s.
Proof. done. Qed.

Lemma usable_not_needed s password : usable s password → needs_admin s = false.
Proof.
  intros (x & cred & Hx & Hk & _ & Hc & _). unfold needs_admin.
  assert (has_user s = true) as ->; [|rewrite Hc; cbn [negb orb]; by rewrite andb_false_r].
  apply any_true. exists AdminName, x. by rewrite Hk.
Qed.

Lemma run_Bootstrap fuel params w :
  widths params → Params_Validate params = Ok tt → enough_random params w → bootable (w_ids w) → (size (subjects (w_ids w)) < fuel)%nat →
  ∃ res w', run (Bootstrap fuel params) w = Some (Ok res, w') ∧
    seeded (w_ids w') ∧ spared (w_ids w) (w_ids w') ∧ bootable (w_ids w') ∧ needs_admin (w_ids w') = false ∧
    br_adminCreated res = needs_admin (w_ids w) ∧
    (if needs_admin (w_ids w) then usable (w_ids w') (br_password res)
     else br_password res = "" ∧ (∃ m, w_ids w' = set_roles m (w_ids w)) ∧ (seeded (w_ids w) → w' = w)).
Proof.
  intros Hw Hv Hr Hb Hf. unfold Bootstrap, SeedBuiltinRoles. rewrite run_bindE.
  destruct (run_seed BuiltinRoles w) as (m & -> & Hb1 & Hs & Ho & Hsame); [done|apply builtin_facts|done|].
  rewrite run_bindE, run_adminNeeded by done. cbn [w_ids set_ids]. rewrite needs_admin_roles.
  destruct (needs_admin (w_ids w)) eqn:Hn; cbn [negb].
  - destruct (run_create_admin params (set_ids (set_roles m (w_ids w)) w)) as (password & w' & Hrun & Hb' & Hk & Hu); try done.
    eexists _, w'. split; [exact Hrun|]. cbn [w_ids set_ids br_adminCreated br_password] in *. split_and!; try done.
    + intros role Hrole. rewrite (kept_roles _ _ Hk). by apply Hs.
    + split; [apply Hk..|]. intros n Hnn. rewrite (kept_roles _ _ Hk). by apply Ho.
    + by eapply usable_not_needed.
  - eexists _, _. split; [reflexivity|]. cbn [w_ids set_ids br_adminCreated br_password]. split_and!; try done.
    + by eexists.
    + intros Hseed. rewrite (Hsame Hseed). apply set_same_roles.
Qed.

(** A store as boots that were cut off anywhere left it: each ran in a process of
    its own, with the clock and the random source it had. *)
Inductive torn (params : Params) : IdStore → IdStore → Prop :=
| torn_never s : torn params s s
| torn_boot fuel w n s' : torn params (w_ids (steps n (Bootstrap fuel params) w).2) s' → torn params (w_ids w) s'.

Lemma torn_bootable params s s' : torn params s s' → bootable s → bootable s'.
Proof. induction 1 as [|fuel w n s' _ IH]; [done|]. intros Hb. apply IH. eapply steps_obey; [apply Bootstrap_boots|done]. Qed.

(** C25: The first boot completes. On a store in which the names and identifiers of
    the first administrator mean nothing else and its account is not disabled,
    whatever number of boots were cut off after any of their calls, the next one
    that runs to its end succeeds: the built-in roles are exactly their definitions,
    and, exactly when there is no user at all or the administrator's account has no
    password, that account exists, enabled, with a password that passes its
    verifier and must be changed, and holds every verb on the system and on every
    repository. No other account, grant, credential, group, token, session, event
    or custom role is added, changed or removed. The boot after that changes
    nothing at all. *)
Theorem first_boot_completes params s w fuel :
  bootable s → torn params s (w_ids w) →
  widths params → Params_Validate params = Ok tt → enough_random params w → (size (subjects (w_ids w)) < fuel)%nat →
  ∃ res w', run (Bootstrap fuel params) w = Some (Ok res, w') ∧
    seeded (w_ids w') ∧ spared (w_ids w) (w_ids w') ∧
    br_adminCreated res = needs_admin (w_ids w) ∧
    (if needs_admin (w_ids w) then usable (w_ids w') (br_password res)
     else br_password res = "" ∧ ∃ m, w_ids w' = set_roles m (w_ids w)) ∧
    ∀ fuel' w2, w_ids w2 = w_ids w' → (size (subjects (w_ids w2)) < fuel')%nat → enough_random params w2 →
      run (Bootstrap fuel' params) w2 = Some (Ok (mkBootstrapResult false ""), w2).
Proof.
  intros Hb Htorn Hw Hv Hr Hf. pose proof (torn_bootable _ _ _ Htorn Hb) as Hb0.
  destruct (run_Bootstrap fuel params w Hw Hv Hr Hb0 Hf) as (res & w' & Hrun & Hs & Hsp & Hb' & Hn & Hc & Hu).
  exists res, w'. split; [exact Hrun|]. split; [exact Hs|]. split; [exact Hsp|]. split; [exact Hc|].
  split; [destruct (needs_admin (w_ids w)); [exact Hu|]; destruct Hu as (Hp & Hm & _); by split|].
  intros fuel' w2 Hi Hf' Hr'. destruct (run_Bootstrap fuel' params w2 Hw Hv Hr') as (res2 & w3 & Hrun2 & _ & _ & _ & _ & Hc2 & Hu2);
    [by rewrite Hi|done|]. rewrite Hi, Hn in Hc2, Hu2. destruct Hu2 as (Hp & _ & Hsame).
  rewrite (Hsame Hs) in Hrun2. rewrite Hrun2. destruct res2 as [created password]. cbn in Hc2, Hp. by subst.
Qed.
End boot.

(** ** Witnesses *)
Lemma New_bootable : bootable New.
Proof.
  split; [apply id_New_wf|done|..].
  - intros x. cbn. rewrite lookup_insert_ne by done. by rewrite lookup_empty.
  - intros n x. cbn. rewrite lookup_insert_Some, lookup_empty. naive_solver.
  - intros b. cbn. by rewrite lookup_empty.
  - intros b. cbn. by rewrite lookup_empty.
  - intros role x _. cbn. by rewrite lookup_empty.
Qed.

(** Cut off after the administrator's first grant, before its password is stored. *)
Definition fresh_world : world := mkWorld New demo_limiter demo_bytes (λ _, 1000) 0 [].
Definition cut_world : world := (steps 20 (Bootstrap 3 DefaultParams) fresh_world).2.
Definition next_world : world := mkWorld (w_ids cut_world) demo_limiter demo_bytes (λ _, 2000) 0 [].

Lemma cut_is_torn :
  is_Some (bindings (w_ids cut_world) !! adminSystemBindingID) ∧ bindings (w_ids cut_world) !! adminAllBindingID = None ∧
  userCredentials (w_ids cut_world) !! AdminName = None ∧ needs_admin (w_ids cut_world) = true.
Proof.
  split; [eexists; vm_compute; reflexivity|]. split; [vm_compute; reflexivity|]. split; vm_compute; reflexivity.
Qed.

Lemma first_boot_completes_witness :
  ∃ res w', run (Bootstrap 3 DefaultParams) next_world = Some (Ok res, w') ∧ br_adminCreated res = true ∧
    usable (w_ids w') (br_password res).
Proof.
  destruct (first_boot_completes DefaultParams New next_world 3 New_bootable) as (res & w' & Hr & _ & _ & Hc & Hu & _).
  - change (w_ids next_world) with (w_ids cut_world).
    exact (torn_boot DefaultParams 3 fresh_world 20 (w_ids cut_world) (torn_never DefaultParams (w_ids cut_world))).
  - apply default_widths.
  - vm_compute. reflexivity.
  - apply Nat.leb_le. vm_compute. reflexivity.
  - apply Nat.ltb_lt. vm_compute. reflexivity.
  - assert (needs_admin (w_ids next_world) = true) as Hn by (vm_compute; reflexivity).
    rewrite Hn in Hc, Hu. exists res, w'. split; [exact Hr|]. split; [exact Hc|exact Hu].
Defined.

(** ** A credential that was taken away comes back *)

(** An operator who has an account of their own and removed the password of the
    first administrator finds a new one made at the next start. *)
Definition booted : world :=
  match run (Bootstrap 9 DefaultParams) fresh_world with Some (_, w) => w | None => fresh_world end.
Definition revoked_ids : IdStore :=
  history [OpCreateSubject false (mkSubject "u1" User "alice" false 1);
           OpPutUserCredential false (mkUserCredential "alice" (verifier DefaultParams "hunter2") false 0);
           OpDeleteUserCredential false AdminName] (w_ids booted).
Definition restarted : world := mkWorld revoked_ids demo_limiter demo_bytes (λ _, 3000) 0 [].

Lemma revoked_admin_comes_back :
  is_Some (userCredentials revoked_ids !! "alice") ∧ userCredentials revoked_ids !! AdminName = None ∧
  ∃ res w', run (Bootstrap 9 DefaultParams) restarted = Some (Ok res, w') ∧ br_adminCreated res = true ∧
    is_Some (userCredentials (w_ids w') !! AdminName).
Proof.
  split; [eexists; vm_compute; reflexivity|]. split; [vm_compute; reflexivity|].
  eexists _, _. split; [vm_compute; reflexivity|]. split; [reflexivity|]. eexists. vm_compute. reflexivity.
Qed.
