(* ===== verification/Tokens.v ===== *)
(** * Tokens (src/internal/authn/token: scope.go, jwt.go, key.go)

    The distribution token scheme: the scopes a client asks for, what of them its
    bindings grant, and the signed token that carries the grant. The JWT library
    and Ed25519 are parameters, with what their documentation promises. *)
From S2P Require Import Prelude RepoName Authz Meta Memory Identity Digest Sha2 Verify GoStrings Base64 Crypto Secretbox Effects Files Keyfile.
Local Open Scope Z_scope.

(** ** Scopes (scope.go) *)

(** [strings.Fields]: around runs of white space. *)
Fixpoint fields_from (fuel : nat) (current s : string) : list string :=
  let emit rest := if String.eqb current "" then rest else current :: rest in
  match fuel with
  | O => emit []
  | S fuel =>
      match s with
      | EmptyString => emit []
      | String c rest =>
          match trim_one_left s with
          | Some rest => emit (fields_from fuel "" rest)
          | None => fields_from fuel (current +:+ String c "") rest
          end
      end
  end.

Definition Fields (s : string) : list string := fields_from (S (String.length s)) "" s.

(** [strings.SplitN(s, sep, 3)]. *)
Definition SplitN3 (s : string) (sep : ascii) : list string :=
  match Cut s sep with
  | (_, _, false) => [s]
  | (a, rest, true) =>
      match Cut rest sep with
      | (_, _, false) => [a; rest]
      | (b, c, true) => [a; b; c]
      end
  end.

Record ResourceActions : Type := mkResourceActions { ra_type : string; ra_name : string; ra_actions : list string }.

Definition actionVerbs : gmap string string :=
  {["pull" := RepoRead; "push" := RepoWrite; "delete" := ManifestDelete]}.

Definition seen_action (seen : gset string) (action : string) : gset string :=
  if String.eqb action "*" then dom actionVerbs ∪ seen
  else match actionVerbs !! action with Some _ => {[action]} ∪ seen | None => seen end.

Definition parseScope (scope : string) : option ResourceActions :=
  match SplitN3 scope ":" with
  | [kind; name; actions] =>
      if negb (String.eqb kind "repository") then None
      else match Authz.Repository name with
      | Err _ => None
      | Ok _ =>
          let seen := foldl seen_action ∅ (SplitByte actions ",") in
          if (size seen =? 0)%nat then None
          else Some (mkResourceActions "repository" name (sort_strings (elements seen)))
      end
  | _ => None
  end.

Definition ParseScopes (values : list string) : list ResourceActions :=
  foldl (λ out value, foldl (λ out scope, match parseScope scope with Some r => out ++ [r] | None => out end) out (Fields value)) [] values.

(** One request of [Grant]'s loop; [actionVerbs[action]] of an unknown action is
    the empty verb. *)
Definition grant_one (bindings : list Authz.Binding) (out : list ResourceActions) (request : ResourceActions) : list ResourceActions :=
  match Authz.Repository (ra_name request) with
  | Err _ => out
  | Ok resource =>
      let granted := filter (λ action, Allows bindings (default "" (actionVerbs !! action)) resource = true) (ra_actions request) in
      match granted with
      | [] => out
      | _ => out ++ [mkResourceActions (ra_type request) (ra_name request) granted]
      end
  end.

Definition Grant (bindings : list Authz.Binding) (requests : list ResourceActions) : list ResourceActions :=
  foldl (grant_one bindings) [] requests.

(** ** Signed tokens (jwt.go) *)
Definition Issuer : string := "trove".
Definition Audience : string := "trove".
Definition DefaultTTL : Z := 5 * 60 * 1000000000.
Definition MinTTL : Z := 60 * 1000000000.
Definition MaxTTL : Z := 3600 * 1000000000.

(** The claims as the library encodes them; dates are whole seconds. *)
Record tokenClaims : Type := mkTokenClaims {
  tc_issuer : string; tc_audience : list string; tc_subject : string;
  tc_issuedAt : option Z; tc_notBefore : option Z; tc_expiresAt : option Z;
  tc_id : string; tc_access : list ResourceActions;
}.

(** [jwtlib.NewNumericDate]: truncated to seconds. *)
Definition NewNumericDate (t : Z) : Z := t / 1000000000.

(** What [ParseWithClaims] is asked to enforce. *)
Record ParserOptions : Type := mkParserOptions {
  po_methods : list string; po_issuer : string; po_audience : string; po_expirationRequired : bool; po_now : Z;
}.

(** The claims pass the options: issuer and audience as asked, an expiry that is
    required and ahead, and a start that is not. *)
Definition claims_valid (o : ParserOptions) (c : tokenClaims) : bool :=
  String.eqb (tc_issuer c) (po_issuer o) && existsb (String.eqb (po_audience o)) (tc_audience c) &&
  match tc_expiresAt c with None => negb (po_expirationRequired o) | Some e => po_now o <? e * 1000000000 end &&
  match tc_notBefore c with None => true | Some n => negb (po_now o <? n * 1000000000) end.

(** The library: [ed25519.NewKeyFromSeed] and its public half, signing with a
    method, and parsing. A token signed with a key parses under its public half
    exactly when its claims pass the options, and yields those claims (the claims
    are whole seconds and strings, which JSON carries unchanged as long as the
    strings are UTF-8, as names and scopes are); whatever
    parses carries a signature of an allowed method that verifies under the key,
    and claims that pass. *)
Class JWT : Type := {
  PrivateKey : Type;
  PublicKey : Type;
  NewKeyFromSeed : list ascii → PrivateKey;
  Public : PrivateKey → PublicKey;
  SignedString : string → tokenClaims → PrivateKey → option string;
  signature_of : string → string → PublicKey → Prop;      (* a method's signature of this text verifies *)
  ParseWithClaims : string → PublicKey → ParserOptions → option tokenClaims;
  Parse_Signed : ∀ alg c key raw o, SignedString alg c key = Some raw → alg ∈ po_methods o →
    ParseWithClaims raw (Public key) o = if claims_valid o c then Some c else None;
  Parse_authentic : ∀ raw pub o c, ParseWithClaims raw pub o = Some c →
    claims_valid o c = true ∧ ∃ alg, alg ∈ po_methods o ∧ signature_of alg raw pub;
}.

Definition EdDSA : string := "EdDSA".

Section signer.
Context {jwt : JWT}.

Record Signer : Type := mkSigner { sg_key : PrivateKey; sg_ttl : Z }.

(** A [PrivateKey] has the right size by its type, which the source checks. *)
Definition NewSigner (key : PrivateKey) (ttl : Z) : Signer :=
  mkSigner key (if ttl =? 0 then DefaultTTL else if ttl <? MinTTL then MinTTL else if MaxTTL <? ttl then MaxTTL else ttl).

Record Minted : Type := mkMinted { mi_jwt : string; mi_expiresIn : Z; mi_issuedAt : Z }.

Inductive TokenError : Type := TokenID | TokenSign | TokenVerify.

(** The identifier is read off the random source. *)
Definition Signer_Mint (s : Signer) (now : Z) (random : Random) (subject : string) (access : list ResourceActions)
    : result TokenError (Minted * Random) :=
  match ReadFull random 16 with
  | None => Err TokenID
  | Some (id, random) =>
      let claims := mkTokenClaims Issuer [Audience] subject (Some (NewNumericDate now)) (Some (NewNumericDate now))
                      (Some (NewNumericDate (now + sg_ttl s))) (hex_bytes id) access in
      match SignedString EdDSA claims (sg_key s) with
      | None => Err TokenSign
      | Some signed => Ok (mkMinted signed (Z.quot (sg_ttl s) 1000000000) now, random)
      end
  end.

Record Claims : Type := mkClaims { cl_subject : string; cl_access : list ResourceActions }.

Definition Signer_Verify (s : Signer) (now : Z) (raw : string) : result TokenError Claims :=
  match ParseWithClaims raw (Public (sg_key s)) (mkParserOptions [EdDSA] Issuer Audience true now) with
  | None => Err TokenVerify
  | Some c => Ok (mkClaims (tc_subject c) (tc_access c))
  end.

(** ** The signing key's file (key.go) *)
Inductive SigningKeyError : Type :=
| SigningKeyIO (e : errno)
| SigningKeyRandom
| SigningKeyInsecure (mode : Z)
| SigningKeyBase64
| SigningKeySize (n : nat).

Definition SeedSize : nat := 32.

(** [os.Stat] by path after the bytes were read. *)
Definition parseKey (p : path) (raw : bytes) : prog fsop (result SigningKeyError PrivateKey) :=
  fx! info := call (StatPath p) in
  Done (match info with
        | Err e => Err (SigningKeyIO e)
        | Ok (mode, _) =>
            if insecureMode mode then Err (SigningKeyInsecure mode)
            else match DecodeString StdEncoding (TrimSpace (String.string_of_list_ascii raw)) with
            | None => Err SigningKeyBase64
            | Some seed =>
                if negb (length seed =? SeedSize)%nat then Err (SigningKeySize (length seed))
                else Ok (NewKeyFromSeed seed)
            end
        end).

(** [os.ReadFile]. *)
Definition ReadFile (p : path) : prog fsop (result errno bytes) :=
  fx! opened := call (OpenRead p) in
  match opened with
  | Err e => Done (Err e)
  | Ok fd =>
      fx! data := call (ReadToEnd fd) in
      fx! _ := call (FileClose fd) in
      Done data
  end.

(** The file's mode is the keyring's; the seed comes off the random source. *)
Definition LoadOrCreateKey (p : path) (random : Random) : prog fsop (result SigningKeyError PrivateKey) :=
  fx! raw := ReadFile p in
  match raw with
  | Ok raw => parseKey p raw
  | Err ENOENT =>
      fx! made := call (MkdirAll (Dir p)) in
      match made with
      | Err e => Done (Err (SigningKeyIO e))
      | Ok _ =>
          match ReadFull random SeedSize with
          | None => Done (Err SigningKeyRandom)
          | Some (seed, _) =>
              fx! file := call (OpenExcl p keyfileMode) in
              match file with
              | Err e => Done (Err (SigningKeyIO e))
              | Ok fd =>
                  let newline := String (ascii_of_nat 10) "" in
                  fx! written := call (FileWrite fd (String.list_ascii_of_string (EncodeToString StdEncoding seed +:+ newline))) in
                  match written with
                  | (_, Some e) => fx! _ := call (FileClose fd) in Done (Err (SigningKeyIO e))
                  | (_, None) =>
                      fx! synced := call (FileSync fd) in
                      match synced with
                      | Err e => fx! _ := call (FileClose fd) in Done (Err (SigningKeyIO e))
                      | Ok _ =>
                          fx! closed := call (FileClose fd) in
                          Done (match closed with Err e => Err (SigningKeyIO e) | Ok _ => Ok (NewKeyFromSeed seed) end)
                      end
                  end
              end
          end
      end
  | Err e => Done (Err (SigningKeyIO e))
  end.
End signer.

(** ** What a scope asks for *)
Lemma SplitN3_spec s sep a b c :
  SplitN3 s sep = [a; b; c] ↔ s = a +:+ String sep (b +:+ String sep c) ∧ ContainsByte a sep = false ∧ ContainsByte b sep = false.
Proof.
  unfold SplitN3. pose proof (Cut_spec s sep) as Hs. destruct (Cut s sep) as [[a' rest] [|]].
  - destruct Hs as [-> Ha]. pose proof (Cut_spec rest sep) as Hr. destruct (Cut rest sep) as [[b' c'] [|]].
    + destruct Hr as [-> Hb]. split; [by intros [= <- <- <-]|]. intros (Heq & Ha' & Hb').
      assert (Cut (a' +:+ String sep (b' +:+ String sep c')) sep = Cut (a +:+ String sep (b +:+ String sep c)) sep) as H1 by by rewrite Heq.
      rewrite !Cut_app in H1 by done. injection H1 as -> H1.
      assert (Cut (b' +:+ String sep c') sep = Cut (b +:+ String sep c) sep) as H2 by by rewrite H1.
      rewrite !Cut_app in H2 by done. by injection H2 as -> ->.
    + split; [done|]. intros (Heq & Ha' & Hb').
      assert (Cut (a' +:+ String sep rest) sep = Cut (a +:+ String sep (b +:+ String sep c)) sep) as H1 by by rewrite Heq.
      rewrite !Cut_app in H1 by done. injection H1 as _ ->. destruct Hr as (_ & _ & Hr). 
      rewrite ContainsByte_app in Hr. cbn in Hr. by rewrite Ascii.eqb_refl, orb_true_r in Hr.
  - split; [done|]. intros (-> & Ha' & _). destruct Hs as (_ & _ & Hs). rewrite ContainsByte_app in Hs. cbn in Hs. by rewrite Ascii.eqb_refl, orb_true_r in Hs.
Qed.

(** The scopes of a request ask for an action on a name: some scope of some value
    spells [repository:<name>:<actions>] with a legal name, and lists an action the
    registry knows, or all of them. *)
Definition asks (values : list string) (name action : string) : Prop :=
  ∃ value scope actions, value ∈ values ∧ scope ∈ Fields value ∧
    scope = "repository:" +:+ name +:+ ":" +:+ actions ∧ is_ok (Validate name) = true ∧
    is_Some (actionVerbs !! action) ∧ (action ∈ SplitByte actions "," ∨ "*" ∈ SplitByte actions ",").

Definition access_has (access : list ResourceActions) (name action : string) : Prop :=
  ∃ r, r ∈ access ∧ ra_name r = name ∧ action ∈ ra_actions r.

Lemma actionVerbs_star : actionVerbs !! "*" = None.
Proof. vm_compute. reflexivity. Qed.

Lemma seen_actions actions seen action :
  action ∈ foldl seen_action seen actions ↔
  action ∈ seen ∨ is_Some (actionVerbs !! action) ∧ (action ∈ actions ∨ "*" ∈ actions).
Proof.
  revert seen. induction actions as [|a actions IH]; intros seen; cbn [foldl].
  - split; [by left|]. intros [?|(_ & [?%not_elem_of_nil|?%not_elem_of_nil])]; done.
  - rewrite IH. unfold seen_action. destruct (String.eqb_spec a "*") as [->|Hne].
    + rewrite elem_of_union, elem_of_dom, !elem_of_cons. naive_solver.
    + rewrite !elem_of_cons. destruct (actionVerbs !! a) as [v|] eqn:Ha.
      * rewrite elem_of_union, elem_of_singleton. split; [|naive_solver].
        intros [[->|?]|?]; [|naive_solver..]. right. split; [by eexists|naive_solver].
      * split; [naive_solver|]. intros [?|(Hs & [[->|?]|[?|?]])]; [by left|by destruct Hs; congruence|naive_solver..].
Qed.

Lemma repository_ok name : is_ok (Authz.Repository name) = is_ok (Validate name).
Proof. unfold Authz.Repository. by destruct (Validate name). Qed.

Lemma legal_no_colon name : is_ok (Validate name) = true → ContainsByte name ":" = false.
Proof.
  destruct (Validate name) as [[]|] eqn:Hv; [|done]. intros _. eapply re_in_no_byte; [|by apply Valid_pattern, Validate_ok].
  vm_compute. reflexivity.
Qed.

Lemma parseScope_spec scope r :
  parseScope scope = Some r → ∃ name actions, scope = "repository:" +:+ name +:+ ":" +:+ actions ∧
    is_ok (Validate name) = true ∧ ra_type r = "repository" ∧ ra_name r = name ∧
    ∀ action, action ∈ ra_actions r ↔
      is_Some (actionVerbs !! action) ∧ (action ∈ SplitByte actions "," ∨ "*" ∈ SplitByte actions ",").
Proof.
  unfold parseScope. destruct (SplitN3 scope ":") as [|kind [|name [|actions [|? ?]]]] eqn:Hs; try done.
  apply SplitN3_spec in Hs as (-> & _ & _). destruct (String.eqb_spec kind "repository") as [->|]; [|done]. cbn [negb].
  destruct (Authz.Repository name) as [res|] eqn:Hr; [|done]. destruct (Nat.eqb_spec (size (foldl seen_action ∅ (SplitByte actions ","))) 0); [done|].
  intros [= <-]. exists name, actions. split_and!; try done.
  - by rewrite <- repository_ok, Hr.
  - intros action. cbn [ra_actions]. rewrite sort_strings_elem, elem_of_elements, seen_actions, elem_of_empty. naive_solver.
Qed.

Lemma parseScope_total name actions action :
  is_ok (Validate name) = true → is_Some (actionVerbs !! action) →
  action ∈ SplitByte actions "," ∨ "*" ∈ SplitByte actions "," →
  ∃ r, parseScope ("repository:" +:+ name +:+ ":" +:+ actions) = Some r.
Proof.
  intros Hv Ha Hin. unfold parseScope.
  rewrite (proj2 (SplitN3_spec ("repository:" +:+ name +:+ ":" +:+ actions) ":" "repository" name actions)); cycle 1.
  { split_and!; [done|done|by apply legal_no_colon]. }
  cbn [negb String.eqb]. change (String.eqb "repository" "repository") with true. cbn [negb].
  rewrite <- repository_ok in Hv. destruct (Authz.Repository name); [|done].
  destruct (Nat.eqb_spec (size (foldl seen_action ∅ (SplitByte actions ","))) 0) as [Hz|]; [|by eexists].
  exfalso. apply size_empty_inv in Hz. assert (action ∈ foldl seen_action ∅ (SplitByte actions ",")) as Hf by (apply seen_actions; by right).
  rewrite Hz in Hf. by apply elem_of_empty in Hf.
Qed.

Lemma elem_of_ParseScopes values r :
  r ∈ ParseScopes values ↔ ∃ value scope, value ∈ values ∧ scope ∈ Fields value ∧ parseScope scope = Some r.
Proof.
  unfold ParseScopes.
  assert (∀ scopes (out : list ResourceActions),
    foldl (λ out scope, match parseScope scope with Some r => out ++ [r] | None => out end) out scopes = out ++ omap parseScope scopes) as Hin.
  { induction scopes as [|x scopes IH]; intros out; cbn [foldl omap list_omap]; [by rewrite app_nil_r|]. rewrite IH.
    destruct (parseScope x); [by rewrite <- app_assoc|done]. }
  assert (∀ vs (out : list ResourceActions),
    foldl (λ out value, foldl (λ out scope, match parseScope scope with Some r => out ++ [r] | None => out end) out (Fields value)) out vs =
    out ++ (vs ≫= λ v, omap parseScope (Fields v))) as Hout.
  { induction vs as [|v vs IH]; intros out; cbn [foldl]; [by rewrite app_nil_r|]. rewrite Hin, IH, <- app_assoc. done. }
  rewrite Hout, app_nil_l, list_elem_of_bind. setoid_rewrite list_elem_of_omap. naive_solver.
Qed.

Lemma asked values name action : access_has (ParseScopes values) name action ↔ asks values name action.
Proof.
  split.
  - intros (r & (value & scope & Hv & Hs & Hp)%elem_of_ParseScopes & <- & Ha).
    destruct (parseScope_spec _ _ Hp) as (name & actions & -> & Hn & _ & -> & Hact). apply Hact in Ha as [? ?].
    by exists value, ("repository:" +:+ name +:+ ":" +:+ actions), actions.
  - intros (value & scope & actions & Hv & Hs & -> & Hn & Ha & Hin).
    destruct (parseScope_total name actions action Hn Ha Hin) as [r Hr]. exists r.
    destruct (parseScope_spec _ _ Hr) as (name' & actions' & Heq & Hn' & _ & Hrn & Hact).
    apply (f_equal (λ x, SplitN3 x ":")) in Heq.
    rewrite (proj2 (SplitN3_spec _ ":" "repository" name actions)) in Heq by (split_and!; [done|done|by apply legal_no_colon]).
    rewrite (proj2 (SplitN3_spec _ ":" "repository" name' actions')) in Heq by (split_and!; [done|done|by apply legal_no_colon]).
    injection Heq as <- <-. split_and!; [apply elem_of_ParseScopes; eauto|done|by apply Hact].
Qed.

Lemma access_has_cons r access name action :
  access_has (r :: access) name action ↔ (ra_name r = name ∧ action ∈ ra_actions r) ∨ access_has access name action.
Proof. unfold access_has. setoid_rewrite elem_of_cons. naive_solver. Qed.

Lemma access_has_snoc r access name action :
  access_has (access ++ [r]) name action ↔ access_has access name action ∨ (ra_name r = name ∧ action ∈ ra_actions r).
Proof. unfold access_has. setoid_rewrite elem_of_app. setoid_rewrite list_elem_of_singleton. naive_solver. Qed.

Lemma access_has_nil name action : ¬ access_has [] name action.
Proof. by intros (? & ?%not_elem_of_nil & _). Qed.

Definition grantable (bindings : list Authz.Binding) (name action : string) : Prop :=
  is_ok (Validate name) = true ∧ Allows bindings (default "" (actionVerbs !! action)) (mkResource resourceRepository name) = true.

Lemma grant_one_has bindings out r name action :
  access_has (grant_one bindings out r) name action ↔
  access_has out name action ∨ (ra_name r = name ∧ action ∈ ra_actions r) ∧ grantable bindings name action.
Proof.
  unfold grant_one, Authz.Repository, grantable. destruct (Validate (ra_name r)) as [[]|] eqn:Hv; cbn [result_bind].
  - set (granted := filter _ _).
    assert (∀ a, a ∈ granted ↔ a ∈ ra_actions r ∧ Allows bindings (default "" (actionVerbs !! a)) (mkResource resourceRepository (ra_name r)) = true) as Hg
      by (intros a; unfold granted; rewrite list_elem_of_filter; tauto).
    assert (access_has (match granted with [] => out | _ => out ++ [mkResourceActions (ra_type r) (ra_name r) granted] end) name action ↔
      access_has out name action ∨ (ra_name r = name ∧ action ∈ granted)) as ->.
    { destruct granted as [|g gs]; [|apply access_has_snoc]. split; [by left|]. by intros [?|[_ ?%not_elem_of_nil]]. }
    f_equiv. split.
    + intros [<- [? ?]%Hg]. by rewrite Hv.
    + intros [[<- ?] [_ ?]]. split; [done|]. by apply Hg.
  - split; [by left|]. intros [?|[[<- _] [Hok _]]]; [done|]. by rewrite Hv in Hok.
Qed.

(** The grant is the intersection. *)
Lemma Grant_exact bindings requests name action :
  access_has (Grant bindings requests) name action ↔ access_has requests name action ∧ grantable bindings name action.
Proof.
  unfold Grant.
  assert (∀ out, access_has (foldl (grant_one bindings) out requests) name action ↔
    access_has out name action ∨ access_has requests name action ∧ grantable bindings name action) as ->.
  - induction requests as [|r requests IH]; intros out; cbn [foldl].
    + pose proof (access_has_nil name action). tauto.
    + rewrite IH, grant_one_has, access_has_cons. tauto.
  - pose proof (access_has_nil name action). tauto.
Qed.

(** ** The lifetime of a token *)
Section lifetime.
Context {jwt : JWT}.

Lemma NewSigner_ttl key ttl : MinTTL ≤ sg_ttl (NewSigner key ttl) ≤ MaxTTL.
Proof.
  unfold NewSigner. cbn [sg_ttl]. destruct (Z.eqb_spec ttl 0); [by vm_compute|].
  destruct (Z.ltb_spec ttl MinTTL); [by vm_compute|]. destruct (Z.ltb_spec MaxTTL ttl); [by vm_compute|]. lia.
Qed.

Lemma Verify_Minted s now random subject access minted rest now' :
  Signer_Mint s now random subject access = Ok (minted, rest) →
  Signer_Verify s now' (mi_jwt minted) =
  if (NewNumericDate now * 1000000000 <=? now') && (now' <? NewNumericDate (now + sg_ttl s) * 1000000000)
  then Ok (mkClaims subject access) else Err TokenVerify.
Proof.
  unfold Signer_Mint, Signer_Verify. destruct (ReadFull random 16) as [[id random']|]; [|done].
  set (claims := mkTokenClaims _ _ _ _ _ _ _ _). destruct (SignedString EdDSA claims (sg_key s)) as [raw|] eqn:Hs; [|done].
  intros [= <- _]. cbn [mi_jwt]. rewrite (Parse_Signed EdDSA claims (sg_key s) raw) by (done || by left).
  unfold claims_valid, claims. cbn [tc_issuer tc_audience tc_expiresAt tc_notBefore po_issuer po_audience po_now existsb].
  change (String.eqb Issuer Issuer) with true. change (String.eqb Audience Audience) with true. cbn [orb andb].
  replace (negb (now' <? NewNumericDate now * 1000000000)) with (NewNumericDate now * 1000000000 <=? now') by apply Z.leb_antisym.
  rewrite andb_comm. by destruct (_ && _).
Qed.

Lemma Verify_sound s now raw claims :
  Signer_Verify s now raw = Ok claims →
  signature_of EdDSA raw (Public (sg_key s)) ∧
  ∃ c, ParseWithClaims raw (Public (sg_key s)) (mkParserOptions [EdDSA] Issuer Audience true now) = Some c ∧
    claims = mkClaims (tc_subject c) (tc_access c) ∧ tc_issuer c = Issuer ∧ Audience ∈ tc_audience c ∧
    ∃ e, tc_expiresAt c = Some e ∧ now < e * 1000000000.
Proof.
  unfold Signer_Verify. destruct (ParseWithClaims _ _ _) as [c|] eqn:Hp; [|done]. intros [= <-].
  destruct (Parse_authentic _ _ _ _ Hp) as [Hv (alg & Ha & Hsig)]. cbn [po_methods] in Ha. apply list_elem_of_singleton in Ha as ->.
  split; [done|]. exists c. split; [done|]. split; [done|]. unfold claims_valid in Hv. cbn [po_issuer po_audience po_expirationRequired po_now] in Hv.
  rewrite !andb_true_iff in Hv. destruct Hv as [[[Hi%String.eqb_eq Ha] He] _]. split; [done|]. split.
  - apply existsb_elem in Ha as (a & Hin & ->%String.eqb_eq). done.
  - destruct (tc_expiresAt c) as [e|]; [|done]. exists e. split; [done|]. by apply Z.ltb_lt.
Qed.
End lifetime.
