(* ===== verification/AuthApi.v ===== *)
(** * Who is asking, over HTTP
    (src/internal/server: basic_auth.go, api_token.go, api_v2.go, api_auth_password.go,
    api_auth_explain.go)

    The credential functions in front of the guard, and the handlers that answer
    who a caller is, what a token may carry, what is permitted and why, and that
    change a password. Each is a program of store, limiter, clock and random calls
    that answers a refusal of the guard's vocabulary or its own content. Decoding
    of JSON bodies and of the query string is the library's: the request carries
    the outcome. *)
From S2P Require Import Prelude RepoName Authz Meta Memory Identity Guard Limiter Sha2 Digest GoStrings HostPattern Base64 Crypto Secretbox.
From S2P Require Import Password Effects Files Login Tokens.
Local Open Scope Z_scope.

(** ** The request *)
Record AuthRequest : Type := mkAuthRequest {
  rq_authorization : string;                       (* the Authorization header *)
  rq_remoteAddr : string;
  rq_query : list (string * string);
}.

(** [Query().Get(key)] and [Query()[key]]. *)
Definition query_all (rq : AuthRequest) (key : string) : list string := (filter (λ kv, kv.1 = key) (rq_query rq)).*2.
Definition query (rq : AuthRequest) (key : string) : string := default "" (head (query_all rq key)).

Definition drop_bytes (n : nat) (s : string) : string := String.substring n (String.length s - n) s.

(** [r.BasicAuth()]. *)
Definition r_BasicAuth (rq : AuthRequest) : option (string * string) :=
  let header := rq_authorization rq in
  if (String.length header <? 6)%nat || negb (String.eqb (ToLower (String.substring 0 6 header)) "basic ") then None
  else match DecodeString StdEncoding (drop_bytes 6 header) with
  | None => None
  | Some decoded =>
      match Cut (String.string_of_list_ascii decoded) ":" with
      | (username, password, true) => Some (username, password)
      | _ => None
      end
  end.

(** [net.SplitHostPort], the host. *)
Definition SplitHostPort (hostport : string) : option string :=
  match CutLast hostport ":" with
  | None => None
  | Some (before, port) =>
      if HasPrefix hostport "[" then
        match Cut (drop_bytes 1 hostport) "]" with
        | (host, rest, true) =>
            if negb (String.eqb rest (String ":" port)) then None
            else if ContainsByte host "[" || ContainsByte port "[" || ContainsByte port "]" then None
            else Some host
        | _ => None
        end
      else if ContainsByte before ":" || ContainsByte hostport "[" || ContainsByte hostport "]" then None
      else Some before
  end.

Definition remoteHost (rq : AuthRequest) : string := default (rq_remoteAddr rq) (SplitHostPort (rq_remoteAddr rq)).

(** ** Basic authentication (basic_auth.go) *)
Definition BasicAuth (login : PasswordLogin) (robots : option RobotSecrets) (rq : AuthRequest) : auth (result LoginError string) :=
  match r_BasicAuth rq with
  | None => Done (Ok "")
  | Some (username, password) =>
      let by_password :=
        fxE! _ := Authenticate login username password (remoteHost rq) in
        Done (Ok username) in
      match robots with
      | Some robots =>
          if HasPrefix username RobotNamePrefix then
            fxE! _ := RobotSecrets_Verify robots username password (remoteHost rq) in
            Done (Ok username)
          else by_password
      | None => by_password
      end
  end.

(** ** Bearer tokens (api_token.go) *)
Definition bearerToken (rq : AuthRequest) : option string :=
  let value := rq_authorization rq in
  if (String.length value <=? 7)%nat || negb (String.eqb (String.substring 0 7 value) "Bearer ") then None
  else Some (drop_bytes 7 value).

(** A refusal, or what the handler answers. *)
Notation answer := (result Response).

Section api.
Context {jwt : JWT}.

Definition Bearer (signer : Signer) (next : AuthRequest → auth (result LoginError string)) (rq : AuthRequest)
    : auth (result LoginError string) :=
  match bearerToken rq with
  | None => next rq
  | Some raw =>
      fx! now := call Now in
      Done (match Signer_Verify signer now raw with
            | Ok claims => if String.eqb (cl_subject claims) "" then Err BadCredentials else Ok (cl_subject claims)
            | Err _ => Err BadCredentials
            end)
  end.

(** ** The guard's reads as calls *)
Definition resolve (name : string) : auth (result AuthError AuthnSubject) :=
  let anonymous := String.eqb name "" in
  let name := if anonymous then AnonymousSubjectName else name in
  fx! found := call (GetSubjectOp name) in
  Done (match found with
        | Err (NotFound _ _) => if anonymous then Err ErrNoAnonymousSubject else Err (ErrUnknownSubject name)
        | Err e => Err (OtherAuthError e)
        | Ok held =>
            let subject := fromStored held in
            if as_disabled subject then Err (ErrDisabled (as_name subject)) else Ok subject
        end).

Fixpoint fetch_roles (known : gmap string (option (list string))) (out : list Authz.Binding) (l : list EffectiveBinding)
    : auth (result MetaError (list Authz.Binding)) :=
  match l with
  | [] => Done (Ok (SortBindings out))
  | e :: l =>
      let role := bd_role (eb_binding e) in
      match known !! role with
      | Some None => fetch_roles known out l
      | Some (Some verbs) => fetch_roles known (out ++ [to_authz e verbs]) l
      | None =>
          fx! r := call (GetRoleOp role) in
          match r with
          | Err (NotFound _ _) => fetch_roles (<[role := None]> known) out l
          | Err err => Done (Err err)
          | Ok r => fetch_roles (<[role := Some (rl_verbs r)]> known) (out ++ [to_authz e (rl_verbs r)]) l
          end
      end
  end.

Definition fetch_bindings (subject : string) : auth (result MetaError (list Authz.Binding)) :=
  fxE! effective := call (ListEffectiveBindingsOp subject) in
  fetch_roles ∅ [] effective.

Context (challenge : AuthRequest → string).

Definition refuse_credentials (rq : AuthRequest) (e : LoginError) : Response :=
  match e with
  | TooManyAttempts wait => TooManyRequests wait
  | BadCredentials => Unauthorized (challenge rq)
  | _ => Internal
  end.

Definition refuse_subject (rq : AuthRequest) (e : AuthError) : Response :=
  match e with
  | ErrUnknownSubject _ | ErrDisabled _ => Unauthorized (challenge rq)
  | _ => Internal
  end.

(** ** GET /token *)

(** [tr_issuedAt] is the instant; its text on the wire has whole seconds. *)
Record tokenResponse : Type := mkTokenResponse { tr_token : string; tr_accessToken : string; tr_expiresIn : Z; tr_issuedAt : Z }.

Definition TokenEndpoint_serve (signer : Signer) (credentials : AuthRequest → auth (result LoginError string)) (rq : AuthRequest)
    : auth (answer tokenResponse) :=
  let service := query rq "service" in
  if negb (String.eqb service "") && negb (String.eqb service Audience)
  then Done (Err (BadRequest ("unknown service " +:+ service)))
  else
    fx! name := credentials rq in
    match name with
    | Err e => Done (Err (refuse_credentials rq e))
    | Ok name =>
        fx! subject := resolve name in
        match subject with
        | Err e => Done (Err (refuse_subject rq e))
        | Ok subject =>
            fx! bindings := fetch_bindings (as_name subject) in
            match bindings with
            | Err _ => Done (Err Internal)
            | Ok bindings =>
                let granted := Grant bindings (ParseScopes (query_all rq "scope")) in
                fx! id := call (ReadRandom 16) in
                match id with
                | None => Done (Err Internal)
                | Some id =>
                    fx! now := call Now in
                    Done (match Signer_Mint signer now id (as_name subject) granted with
                          | Err _ => Err Internal
                          | Ok (minted, _) =>
                              Ok (mkTokenResponse (mi_jwt minted) (mi_jwt minted) (mi_expiresIn minted) (mi_issuedAt minted))
                          end)
                end
            end
        end
    end.

(** ** GET /v2/ (api_v2.go) *)
Definition V2Root_serve (credentials : option (AuthRequest → auth (result LoginError string))) (rq : AuthRequest) : auth (answer unit) :=
  fx! name := match credentials with None => Done (Ok "") | Some f => f rq end in
  match name with
  | Err e => Done (Err (refuse_credentials rq e))
  | Ok name =>
      fx! subject := resolve name in
      Done (match subject with
            | Err e => Err (refuse_subject rq e)
            | Ok subject => if IsAnonymous subject then Err (Unauthorized (challenge rq)) else Ok tt
            end)
  end.

(** ** POST /api/v1/auth/password (api_auth_password.go) *)
Definition MinPasswordLength : nat := 8.

(** [caller] is the subject the guard put in the context, [change] the body. *)
Definition AuthPassword_serve (login : PasswordLogin) (params : Params) (caller : option AuthnSubject)
    (change : option (string * string)) (rq : AuthRequest) : auth (answer unit) :=
  match caller with
  | None => Done (Err Internal)
  | Some caller =>
      if negb (String.eqb (as_kind caller) User) then Done (Err Forbidden)
      else match change with
      | None => Done (Err (BadRequest "the body must be JSON with current_password and new_password"))
      | Some (current, new) =>
          if (String.length new <? MinPasswordLength)%nat then Done (Err (BadRequest "the new password must be at least 8 characters"))
          else if String.eqb new current then Done (Err (BadRequest "the new password must differ from the current one"))
          else
            fx! known := Authenticate login (as_name caller) current (remoteHost rq) in
            match known with
            | Err (TooManyAttempts wait) => Done (Err (TooManyRequests wait))
            | Err BadCredentials => Done (Err (BadRequest "the current password is incorrect"))
            | Err _ => Done (Err Internal)
            | Ok _ =>
                fx! hash := call (HashOp params new) in
                match hash with
                | Err _ => Done (Err Internal)
                | Ok hash =>
                    fx! now := call Now in
                    fx! put := call (PutUserCredentialOp (mkUserCredential (as_name caller) hash false now)) in
                    match put with
                    | Err _ => Done (Err Internal)
                    | Ok _ =>
                        fx! _ := call (DeleteSubjectSessionsOp (as_name caller)) in
                        Done (Ok tt)
                    end
                end
            end
      end
  end.

(** ** GET /api/v1/auth/explain (api_auth_explain.go) *)
Record explainBinding : Type := mkExplainBinding { xb_binding : string; xb_role : string; xb_scope : string; xb_viaGroup : string }.
Record explainSubject : Type := mkExplainSubject { xs_name : string; xs_kind : string; xs_disabled : bool }.
Record explainResponse : Type := mkExplainResponse {
  xr_subject : explainSubject; xr_verb : string; xr_resource : string; xr_allowed : bool; xr_matched : list explainBinding;
}.

Definition explanation (subject : explainSubject) (verb resourceName : string) (resource : Resource) (bindings : list Authz.Binding)
    : explainResponse :=
  let decision := Decide bindings verb resource in
  mkExplainResponse subject (d_verb decision) resourceName (d_allowed decision)
    ((λ b, mkExplainBinding (b_id b) (b_role b) (b_scope b) (b_viaGroup b)) <$> d_matched decision).

Definition explain_subject (caller : AuthnSubject) (target : string) : auth (answer explainSubject) :=
  if String.eqb target (as_name caller)
  then Done (Ok (mkExplainSubject (as_name caller) (as_kind caller) (as_disabled caller)))
  else
    fx! held := call (GetSubjectOp target) in
    Done (match held with
          | Err (NotFound _ _) => Err NotFoundResponse
          | Err _ => Err Internal
          | Ok held => Ok (mkExplainSubject (sj_name held) (sj_kind held) (sj_disabled held))
          end).

(** The texts of the two bad requests are the library's error texts. *)
Definition AuthExplain_serve (caller : option AuthnSubject) (rq : AuthRequest) : auth (answer explainResponse) :=
  match ParseVerb (query rq "verb") with
  | Err _ => Done (Err (BadRequest "verb"))
  | Ok verb =>
      let name := query rq "resource" in
      match (if String.eqb name "" then Ok System else Authz.Repository name) with
      | Err _ => Done (Err (BadRequest "resource"))
      | Ok resource =>
          match caller with
          | None => Done (Err Internal)
          | Some caller =>
              let target := if String.eqb (query rq "subject") "" then as_name caller else query rq "subject" in
              fxE! subject := explain_subject caller target in
              fx! bindings := fetch_bindings target in
              Done (match bindings with
                    | Err _ => Err Internal
                    | Ok bindings => Ok (explanation subject verb (if String.eqb name "" then "system" else name) resource bindings)
                    end)
          end
      end
  end.
End api.
