(* ===== verification/AuthApiSpec.v ===== *)
(** * Who is asking, over HTTP: what the handlers promise

    A request is taken for somebody only on proof, a token carries exactly what
    was asked and is permitted, the explainer gives the decision of the guard, and
    a changed password takes effect at once. *)
From S2P Require Import Prelude RepoName Authz Meta Memory MemoryInv MemorySpec Identity IdentityInv IdentitySpec Guard GuardSpec Limiter.
From S2P Require Import Sha2 Digest GoStrings HostPattern Base64 Crypto Secretbox SecretboxSpec Password Effects Files Login LoginSpec Tokens AuthApi.
Local Open Scope Z_scope.

Section api.
Context {argon : Argon2} {jwt : JWT}.

(** ** The guard's reads, run on the store *)
Lemma run_resolve name w : run (resolve name) w = Some (Resolve false (w_ids w) name, w).
Proof. unfold resolve. rewrite run_then, run_call. done. Qed.

Lemma run_fetch_roles l st w :
  run (fetch_roles (ft_verbs st) (ft_out st) l) w =
  Some (let! st' := foldM (fetch_one false (λ _ : nat, w_ids w)) st l in Ok (SortBindings (ft_out st')), w).
Proof.
  revert st. induction l as [|e l IH]; intros st; cbn [fetch_roles foldM]; [done|].
  unfold fetch_one at 1. destruct (ft_verbs st !! bd_role (eb_binding e)) as [[verbs|]|] eqn:Hv.
  - cbn [result_bind]. by rewrite <- IH.
  - cbn [result_bind]. by rewrite <- IH.
  - rewrite run_then, run_call. cbn [handle]. cbn [bs_GetRole IdStore_BindingStore].
    destruct (GetRole false (bd_role (eb_binding e)) (w_ids w)) as [r|err] eqn:Hr; [cbn [result_bind]; by rewrite <- IH|].
    destruct err; try done. cbn [result_bind]. by rewrite <- IH.
Qed.

Lemma run_fetch subject w : run (fetch_bindings subject) w = Some (FetchBindings false (λ _ : nat, w_ids w) subject, w).
Proof.
  unfold fetch_bindings, FetchBindings. rewrite run_bindE, run_call. cbn [handle].
  change (bs_ListEffectiveBindings false subject (w_ids w)) with (ListEffectiveBindings false subject (w_ids w)).
  destruct (ListEffectiveBindings false subject (w_ids w)) as [effective|]; [|done]. cbn [result_bind].
  apply (run_fetch_roles effective (mkFetch 1 ∅ [])).
Qed.

(** ** Credentials *)

(** What a successful password login may do to the store: replace the verifier of
    that account by another that the same password passes. *)
Definition refreshed (l : PasswordLogin) (username password : string) (s s' : IdStore) : Prop :=
  ∃ cred cred', userCredentials s !! username = Some cred ∧ Verify (uc_hash cred) password = Ok tt ∧
    row_after l cred password cred' ∧ s' = set_userCredentials (<[username := cred']> (userCredentials s)) s.

(** How a name can have been proved. *)
Inductive proved (signer : Signer) (robots : option RobotSecrets) (rq : AuthRequest) (w : world) : string → Prop :=
| by_nothing : bearerToken rq = None → r_BasicAuth rq = None → proved signer robots rq w ""
| by_token raw claims : bearerToken rq = Some raw → Signer_Verify signer (readings w 0) raw = Ok claims →
    signature_of EdDSA raw (Public (sg_key signer)) → cl_subject claims ≠ "" → proved signer robots rq w (cl_subject claims)
| by_password username password cred : bearerToken rq = None → r_BasicAuth rq = Some (username, password) →
    username ≠ "" → password ≠ "" → userCredentials (w_ids w) !! username = Some cred →
    Verify (uc_hash cred) password = Ok tt → proved signer robots rq w username
| by_secret rs username secret x row : bearerToken rq = None → r_BasicAuth rq = Some (username, secret) → robots = Some rs →
    HasPrefix username RobotNamePrefix = true → subjects (w_ids w) !! username = Some x → sj_kind x = Robot →
    robotCredentials (w_ids w) !! username = Some row →
    readings (attempted (rs_limiter rs) (mkAttempt username (remoteHost rq)) w).2 0 < rc_expiresAt row →
    VerifyMAC (rs_ring rs) (String.list_ascii_of_string secret) (RobotSecret (sj_id x)) (String.list_ascii_of_string (rc_secretHash row)) = true →
    proved signer robots rq w username.

Lemma run_robot_ids rs name presented source w r w' :
  run (RobotSecrets_Verify rs name presented source) w = Some (r, w') → w_ids w' = w_ids w.
Proof.
  unfold RobotSecrets_Verify. rewrite run_bindE, run_limited. pose proof (attempted_ids (rs_limiter rs) (mkAttempt name source) w) as Hids.
  destruct (attempted (rs_limiter rs) (mkAttempt name source) w) as [[[] wait] w0]; cbn [fst snd] in *; [|by intros [= _ <-]].
  destruct (negb _); [by intros [= _ <-]|]. rewrite run_then, run_call. cbn [handle].
  destruct (GetSubject _ _ _) as [x|[]]; try (by intros [= _ <-]). destruct (negb _); [by intros [= _ <-]|].
  rewrite run_then, run_call. cbn [handle]. rewrite run_then, run_call. cbn [handle].
  destruct (GetRobotCredential _ _ _ _) as [row|[]]; intros [= _ <-]; exact Hids.
Qed.

Lemma run_robot_verify rs name presented source w w' :
  run (RobotSecrets_Verify rs name presented source) w = Some (Ok tt, w') →
  w_ids w' = w_ids w ∧ ∃ x row, subjects (w_ids w) !! name = Some x ∧ sj_kind x = Robot ∧ robotCredentials (w_ids w) !! name = Some row ∧
    readings (attempted (rs_limiter rs) (mkAttempt name source) w).2 0 < rc_expiresAt row ∧
    VerifyMAC (rs_ring rs) (String.list_ascii_of_string presented) (RobotSecret (sj_id x)) (String.list_ascii_of_string (rc_secretHash row)) = true.
Proof.
  unfold RobotSecrets_Verify. rewrite run_bindE, run_limited. pose proof (attempted_ids (rs_limiter rs) (mkAttempt name source) w) as Hids.
  destruct (attempted (rs_limiter rs) (mkAttempt name source) w) as [[[] wait] w0]; cbn [fst snd] in *; [|done].
  destruct (HasPrefix presented robotSecretPrefix); [|done]. cbn [negb]. rewrite run_then, run_call. cbn [handle]. rewrite Hids.
  unfold GetSubject, id_enter. destruct (id_closed (w_ids w)) eqn:Hopen; [done|]. cbn [result_bind].
  destruct (subjects (w_ids w) !! name) as [x|]; [|done]. destruct (String.eqb_spec (sj_kind x) Robot) as [Hk|]; [|done]. cbn [negb].
  rewrite run_then, run_call. cbn [handle]. rewrite run_then, run_call. cbn [handle tick w_ids]. rewrite Hids.
  unfold GetRobotCredential, id_enter. rewrite Hopen. cbn [result_bind].
  destruct (robotCredentials (w_ids w) !! name) as [row|]; [|done].
  destruct (Z.ltb_spec (readings w0 0) (rc_expiresAt row)) as [Hlt|]; [cbn [negb]|done].
  destruct (VerifyMAC _ _ _ _) eqn:Hv; [|done]. intros [= <-]. split; [done|]. by exists x, row.
Qed.

Lemma run_credentials signer login robots rq w :
  made login → wf (w_ids w) →
  ∃ r w', run (Bearer signer (BasicAuth login robots) rq) w = Some (r, w') ∧ wf (w_ids w') ∧
    (w_ids w' = w_ids w ∨ ∃ username password, bearerToken rq = None ∧ r_BasicAuth rq = Some (username, password) ∧ r = Ok username ∧
       refreshed login username password (w_ids w) (w_ids w')) ∧
    ∀ name, r = Ok name → proved signer robots rq w name.
Proof.
  intros Hmade Hwf. unfold Bearer. destruct (bearerToken rq) as [raw|] eqn:Hb.
  - rewrite run_then, run_call. cbn [handle]. eexists _, _. split; [reflexivity|]. cbn [w_ids tick].
    split; [done|]. split; [by left|]. intros name. destruct (Signer_Verify signer (readings w 0) raw) as [claims|] eqn:Hv; [|done].
    destruct (String.eqb_spec (cl_subject claims) "") as [|Hne]; [done|]. intros [= <-].
    eapply by_token; try done. by destruct (Verify_sound _ _ _ _ Hv).
  - unfold BasicAuth. destruct (r_BasicAuth rq) as [[username password]|] eqn:Hba.
    2: { eexists _, _. split; [reflexivity|]. split; [done|]. split; [by left|]. intros name [= <-]. by apply by_nothing. }
    assert (∃ r w', run (fxE! _ := Authenticate login username password (remoteHost rq) in Done (Ok username)) w = Some (r, w') ∧ wf (w_ids w') ∧
      (w_ids w' = w_ids w ∨ r = Ok username ∧ refreshed login username password (w_ids w) (w_ids w')) ∧
      ∀ name, r = Ok name → proved signer robots rq w name) as (r & w' & Hr & Hwf' & Hids & Hp).
    { rewrite run_bindE. destruct (run_Authenticate login w username password (remoteHost rq) Hmade Hwf) as (r & w' & -> & Hok & _ & _ & _ & Hno & Hdone).
      destruct r as [[]|e].
      - destruct (proj1 Hok eq_refl) as (_ & Hu & Hp & Hopen & cred & Hc & Hv). destruct (Hdone eq_refl) as (_ & cred0 & cred' & Hc0 & Hafter & Hids).
        unfold verifier_of in Hc, Hc0. rewrite Hc in Hc0. injection Hc0 as <-.
        eexists _, w'. split; [reflexivity|]. rewrite Hids. split; [by eapply wf_row_after|].
        split; [right; split; [done|]; by exists cred, cred'|].
        intros name [= <-]. exact (by_password _ _ _ _ username password cred Hb Hba Hu Hp Hc Hv).
      - destruct (Hno ltac:(done)) as [Hids _]. eexists _, w'. split; [reflexivity|]. rewrite Hids. split; [done|]. split; [by left|done]. }
    assert (∃ r w', run (fxE! _ := Authenticate login username password (remoteHost rq) in Done (Ok username)) w = Some (r, w') ∧ wf (w_ids w') ∧
      (w_ids w' = w_ids w ∨ ∃ username0 password0, (None : option string) = None ∧ Some (username, password) = Some (username0, password0) ∧ r = Ok username0 ∧
         refreshed login username0 password0 (w_ids w) (w_ids w')) ∧
      ∀ name, r = Ok name → proved signer robots rq w name) as Hpw.
    { exists r, w'. split; [exact Hr|]. split; [exact Hwf'|]. split; [|exact Hp]. destruct Hids as [?|[? ?]]; [by left|right]. by exists username, password. }
    destruct robots as [rs|]; [|exact Hpw]. destruct (HasPrefix username RobotNamePrefix) eqn:Hpre; [|exact Hpw]. clear dependent r w'.
    rewrite run_bindE. destruct (run_total (RobotSecrets_Verify rs username password (remoteHost rq)) w) as (r & w' & Hr). rewrite Hr.
    assert (w_ids w' = w_ids w) as Hids by by eapply run_robot_ids.
    destruct r as [[]|e]; (eexists _, w'; split; [reflexivity|]; rewrite Hids; split; [done|]; split; [by left|]); [|done].
    intros name [= <-]. destruct (run_robot_verify _ _ _ _ _ _ Hr) as (_ & x & row & Hx & Hk & Hrow & Hlt & Hv). by eapply by_secret.
Qed.

(** C5: A request acts as somebody only on proof. Through the bearer and basic
    credentials together, a request passes as anonymous exactly when its
    Authorization header is neither a bearer token nor well-formed basic
    credentials, whatever else it says, and under a name only when a token signed
    with this registry's key, for it and unexpired, names it, or the store's
    verifier of that name passes the password, or the secret of that robot is
    presented before its expiry. The only thing a presentation changes in the
    store is the row of the password that just passed, to a verifier the same
    password passes. *)
Theorem identities_are_proved signer login robots rq w :
  made login → wf (w_ids w) →
  ∃ r w', run (Bearer signer (BasicAuth login robots) rq) w = Some (r, w') ∧
    (w_ids w' = w_ids w ∨ ∃ username password, bearerToken rq = None ∧ r_BasicAuth rq = Some (username, password) ∧ r = Ok username ∧
       refreshed login username password (w_ids w) (w_ids w')) ∧
    (∀ name, r = Ok name → proved signer robots rq w name) ∧
    (r = Ok "" ↔ bearerToken rq = None ∧ r_BasicAuth rq = None).
Proof.
  intros Hmade Hwf. destruct (run_credentials signer login robots rq w Hmade Hwf) as (r & w' & Hr & _ & Hu & Hp).
  exists r, w'. split_and!; try done. split.
  - intros ->. specialize (Hp "" eq_refl). inversion Hp as [| | |rs username secret x row H1 H2 H3 Hpre]; subst; try done.
  - intros [Hb Hba]. unfold Bearer in Hr. rewrite Hb in Hr. unfold BasicAuth in Hr. rewrite Hba in Hr. by injection Hr as <- _.
Qed.

(** ** Tokens *)
Definition verb_of (action : string) : string := default "" (actionVerbs !! action).

(** The name a response is about, and the token's window. *)
Definition carries (signer : Signer) (resp : tokenResponse) (subject : string) (access : list ResourceActions) : Prop :=
  tr_accessToken resp = tr_token resp ∧
  ∀ now, Signer_Verify signer now (tr_token resp) =
    if (NewNumericDate (tr_issuedAt resp) * 1000000000 <=? now) &&
       (now <? NewNumericDate (tr_issuedAt resp + sg_ttl signer) * 1000000000)
    then Ok (mkClaims subject access) else Err TokenVerify.

Lemma Mint_carries signer now id subject access :
  length id = 16%nat → is_Some (SignedString EdDSA
    (mkTokenClaims Issuer [Audience] subject (Some (NewNumericDate now)) (Some (NewNumericDate now))
       (Some (NewNumericDate (now + sg_ttl signer))) (hex_bytes id) access) (sg_key signer)) →
  ∃ minted, Signer_Mint signer now id subject access = Ok (minted, []) ∧ mi_issuedAt minted = now ∧
    mi_expiresIn minted = Z.quot (sg_ttl signer) 1000000000.
Proof.
  intros Hl [raw Hraw]. unfold Signer_Mint, ReadFull. rewrite Hl. cbn [Nat.leb].
  rewrite take_ge, drop_ge by lia. rewrite Hraw. by eexists.
Qed.

(** C6: A token carries exactly what was asked and is permitted. Whatever checks the
    credentials, the token endpoint answers a token exactly for an enabled subject
    (the anonymous one when none were presented) and a known service; the token
    names that subject, lives at most an hour, and lists an action on a repository
    exactly when a scope of the request asks for it and the guard would permit it
    to that subject now. Minting changes no account. *)
Theorem token_grants_exactly challenge signer key ttl (credentials : AuthRequest → auth (result LoginError string)) rq w name w1 :
  signer = NewSigner key ttl → (∀ c, is_Some (SignedString EdDSA c key)) →
  run (credentials rq) w = Some (Ok name, w1) → wf (w_ids w1) → id_closed (w_ids w1) = false → (16 <= length (w_random w1))%nat →
  ∃ r w', run (TokenEndpoint_serve challenge signer credentials rq) w = Some (r, w') ∧
    let service := query rq "service" in
    (is_ok r = true ↔ (service = "" ∨ service = Audience) ∧
       ∃ x, subjects (w_ids w1) !! asking name = Some x ∧ sj_disabled x = false) ∧
    (∀ resp, r = Ok resp → w_ids w' = w_ids w1 ∧ 60 ≤ tr_expiresIn resp ≤ 3600 ∧
       ∃ access, carries signer resp (asking name) access ∧
         ∀ repo action, access_has access repo action ↔
           asks (query_all rq "scope") repo action ∧
           permitted (w_ids w1) (asking name) (verb_of action) (mkResource resourceRepository repo)).
Proof.
  intros -> Hsign Hc Hwf Hopen Hrand. unfold TokenEndpoint_serve. cbv zeta.
  destruct (negb (String.eqb (query rq "service") "") && negb (String.eqb (query rq "service") Audience)) eqn:Hs.
  { eexists _, _. split; [reflexivity|]. split; [|done]. split; [done|]. apply andb_true_iff in Hs as [H1 H2].
    rewrite negb_true_iff, String.eqb_neq in H1, H2. tauto. }
  assert (query rq "service" = "" ∨ query rq "service" = Audience) as Hservice.
  { apply andb_false_iff in Hs as [H%negb_false_iff%String.eqb_eq|H%negb_false_iff%String.eqb_eq]; auto. }
  rewrite run_then, Hc, run_then, run_resolve, (Resolve_open _ _ Hwf Hopen).
  destruct (subjects (w_ids w1) !! asking name) as [x|] eqn:Hx.
  2: { eexists _, _. split; [reflexivity|]. split; [|done]. split; [done|]. by intros (_ & ? & ? & _). }
  destruct (sj_disabled x) eqn:Hd.
  { eexists _, _. split; [reflexivity|]. split; [|done]. split; [done|]. intros (_ & x' & [= <-] & ?). congruence. }
  destruct (wf_subjects _ Hwf _ _ Hx) as (Hn & _). cbn [fromStored as_name]. rewrite Hn.
  destruct (fetch_frozen (w_ids w1) (asking name) x Hwf Hopen Hx Hd) as (bs & Hbs & Hal).
  rewrite run_then, run_fetch, Hbs, run_then, run_call. cbn [handle]. unfold ReadFull.
  destruct (Nat.leb_spec 16 (length (w_random w1))) as [_|]; [|lia]. rewrite run_then, run_call. cbn [handle].
  set (access := Grant bs (ParseScopes (query_all rq "scope"))). set (w2 := set_random _ _).
  destruct (Mint_carries (NewSigner key ttl) (readings w2 0) (take 16 (w_random w1)) (asking name) access) as (minted & Hm & Hi & He);
    [rewrite length_take; lia|apply Hsign|]. rewrite Hm.
  eexists _, _. split; [reflexivity|]. cbn [is_ok]. split; [split; [eauto|done]|]. intros resp [= <-]. cbn [tr_expiresIn w_ids tick].
  split; [done|]. split.
  { rewrite He. pose proof (NewSigner_ttl key ttl) as Httl. unfold MinTTL, MaxTTL in Httl. rewrite Z.quot_div_nonneg by lia.
    split; [apply Z.div_le_lower_bound; lia|]. apply Z.div_le_upper_bound; lia. }
  exists access. split.
  - split; [done|]. intros now. cbn [tr_token tr_issuedAt]. rewrite Hi. eapply Verify_Minted. exact Hm.
  - intros repo action. unfold access. rewrite Grant_exact, asked. unfold grantable. rewrite Hal. split; [tauto|].
    intros [Ha Hp]. split; [done|]. split; [|done]. by destruct Ha as (? & ? & ? & _ & _ & _ & ? & _).
Qed.

(** ** The explainer *)
Lemma fetch_disabled s who x : id_closed s = false → subjects s !! who = Some x → sj_disabled x = true →
  FetchBindings false (λ _ : nat, s) who = Ok [].
Proof.
  intros Hopen Hx Hd. unfold FetchBindings. cbn [bs_ListEffectiveBindings IdStore_BindingStore].
  unfold ListEffectiveBindings, id_enter. rewrite Hopen. cbn [result_bind]. rewrite Hx, Hd. reflexivity.
Qed.

Lemma fetch_unknown s who : id_closed s = false → subjects s !! who = None →
  is_ok (FetchBindings false (λ _ : nat, s) who) = false.
Proof.
  intros Hopen Hx. unfold FetchBindings. cbn [bs_ListEffectiveBindings IdStore_BindingStore].
  unfold ListEffectiveBindings, id_enter. rewrite Hopen. cbn [result_bind]. by rewrite Hx.
Qed.

Lemma Decide_matched_nil bs verb resource :
  d_matched (Decide bs verb resource) = [] ↔ d_allowed (Decide bs verb resource) = false.
Proof.
  destruct (Decide_union bs verb resource) as (Hal & _ & _ & Hm & _). unfold Binding_Allows in Hm. split.
  - intros Hnil. apply not_true_iff_false. intros (Hv & b & Hb & Hin & Hs)%Hal.
    assert (b ∈ d_matched (Decide bs verb resource)) as Hb'; [|rewrite Hnil in Hb'; by apply not_elem_of_nil in Hb'].
    apply Hm. split_and!; [done..|]. apply andb_true_iff. by rewrite Binding_Grants_iff.
  - intros Hf. destruct (d_matched _) as [|b bs'] eqn:Heq; [done|]. exfalso.
    destruct (proj1 (Hm b) ltac:(by left)) as (Hv & Hb & [Hg%Binding_Grants_iff Hs]%andb_true_iff).
    assert (d_allowed (Decide bs verb resource) = true); [|congruence]. apply Hal. eauto.
Qed.

(** The bindings a subject is judged by, whether or not it is enabled. *)
Lemma fetch_subject s who : wf s → id_closed s = false →
  match FetchBindings false (λ _ : nat, s) who with
  | Ok bs => is_Some (subjects s !! who) ∧ ∀ verb resource, Allows bs verb resource = true ↔
      (∃ x, subjects s !! who = Some x ∧ sj_disabled x = false) ∧ permitted s who verb resource
  | Err _ => subjects s !! who = None
  end.
Proof.
  intros Hwf Hopen. destruct (subjects s !! who) as [x|] eqn:Hx.
  - destruct (sj_disabled x) eqn:Hd.
    + rewrite (fetch_disabled s who x) by done. split; [by eexists|]. intros verb resource. rewrite Allows_iff. split.
      * by intros (_ & b & ?%not_elem_of_nil & _).
      * intros ((x' & [= <-] & ?) & _). congruence.
    + destruct (fetch_frozen s who x Hwf Hopen Hx Hd) as (bs & -> & Hal). split; [by eexists|].
      intros verb resource. rewrite Hal. naive_solver.
  - pose proof (fetch_unknown s who Hopen Hx). by destruct (FetchBindings _ _ _).
Qed.

Lemma run_explain_subject caller target w : id_closed (w_ids w) = false →
  ∃ r, run (explain_subject caller target) w = Some (r, w) ∧ (is_ok r = false → subjects (w_ids w) !! target = None).
Proof.
  intros Hopen. unfold explain_subject. destruct (String.eqb target (as_name caller)); [by eexists|].
  rewrite run_then, run_call. cbn [handle]. unfold GetSubject, id_enter. rewrite Hopen. cbn [result_bind].
  destruct (subjects (w_ids w) !! target); by eexists.
Qed.

(** C27: The explainer gives the decision the guard would take. For a verb of the
    vocabulary, the system or a legal name, and a subject that exists, it answers
    [allowed] exactly when that subject is enabled and holds, directly or through a
    group, a grant of the verb that covers the resource, and otherwise lists no
    binding; it answers nothing for anything else, and reads only. *)
Theorem explain_is_the_decision caller rq w :
  wf (w_ids w) → id_closed (w_ids w) = false →
  let target := if String.eqb (query rq "subject") "" then as_name caller else query rq "subject" in
  let resource := query rq "resource" in
  let about := if String.eqb resource "" then System else mkResource resourceRepository resource in
  ∃ r, run (AuthExplain_serve (Some caller) rq) w = Some (r, w) ∧
    (is_ok r = true ↔ query rq "verb" ∈ verbs ∧ (resource = "" ∨ is_ok (Validate resource) = true) ∧ is_Some (subjects (w_ids w) !! target)) ∧
    ∀ resp, r = Ok resp →
      (xr_allowed resp = true ↔ (∃ x, subjects (w_ids w) !! target = Some x ∧ sj_disabled x = false) ∧
         permitted (w_ids w) target (query rq "verb") about) ∧
      (xr_matched resp = [] ↔ xr_allowed resp = false).
Proof.
  intros Hwf Hopen target resource about. unfold AuthExplain_serve, ParseVerb. pose proof (Verb_Valid_iff (query rq "verb")) as Hverb.
  destruct (Verb_Valid (query rq "verb")); [|eexists; split; [reflexivity|]; split; [|done]; split; [done|]; intros (? & _); by apply Hverb].
  cbv beta iota zeta. fold resource target.
  destruct (if String.eqb resource "" then Ok System else Authz.Repository resource) as [res|e] eqn:Hres.
  2: { eexists. split; [reflexivity|]. split; [|done]. split; [done|]. intros (_ & Hl & _).
       destruct (String.eqb_spec resource "") as [|Hne]; [done|]. pose proof (repository_ok resource) as Hro. rewrite Hres in Hro.
       destruct Hl; [done|]. cbn in Hro. congruence. }
  assert (res = about ∧ (resource = "" ∨ is_ok (Validate resource) = true)) as [-> Hlegal].
  { unfold about. destruct (String.eqb_spec resource ""); [injection Hres as <-; by split; [|left]|].
    pose proof (repository_ok resource) as Hro. rewrite Hres in Hro. unfold Authz.Repository in Hres.
    destruct (Validate resource); [|done]. injection Hres as <-. by split; [|right]. }
  cbv beta iota. destruct (run_explain_subject caller target w Hopen) as ([sub|e] & Hsub & Hnone); rewrite run_bindE, Hsub.
  2: { eexists. split; [reflexivity|]. split; [|done]. split; [done|]. intros (_ & _ & [x Hx]). by rewrite Hnone in Hx. }
  rewrite run_then, run_fetch. pose proof (fetch_subject (w_ids w) target Hwf Hopen) as Hf.
  destruct (FetchBindings false (λ _ : nat, w_ids w) target) as [bs|e].
  - destruct Hf as [Hsome Hal]. eexists. split; [reflexivity|]. split; [split; [|done]; intros _; split_and!; [by apply Hverb|done..]|].
    intros resp [= <-]. cbn [explanation xr_allowed xr_matched]. split; [apply Hal|]. 
    rewrite <- Decide_matched_nil. split; [apply fmap_nil_inv|by intros ->].
  - eexists. split; [reflexivity|]. split; [|done]. split; [done|]. intros (_ & _ & [x Hx]). congruence.
Qed.

(** ** Changing a password *)

(** What authorizes the change. *)
Definition may_change (login : PasswordLogin) (w : world) (who : string) (source current new : string) : Prop :=
  (MinPasswordLength <= String.length new)%nat ∧ new ≠ current ∧ current ≠ "" ∧
  (attempted (pl_limiter login) (mkAttempt who source) w).1.1 = true ∧
  ∃ cred, userCredentials (w_ids w) !! who = Some cred ∧ Verify (uc_hash cred) current = Ok tt.

(** The state after: the account has one verifier, which a password passes exactly
    when it derives the key of the new one, no rotation is due, no session of it is left, and no other account changed. *)
Definition changed (params : Params) (s s' : IdStore) (who new : string) : Prop :=
  (∃ row salt, userCredentials s' !! who = Some row ∧ uc_mustRotate row = false ∧ Verify (uc_hash row) new = Ok tt ∧
     ∀ other, Verify (uc_hash row) other = Ok tt ↔ derive other salt params = derive new salt params) ∧
  (∀ k x, sessions s' !! k = Some x → ss_subject x ≠ who) ∧
  (∀ k x, sessions s !! k = Some x → ss_subject x ≠ who → sessions s' !! k = Some x) ∧
  (∀ n, n ≠ who → userCredentials s' !! n = userCredentials s !! n) ∧
  subjects s' = subjects s ∧ bindings s' = bindings s ∧ roles s' = roles s.

Lemma run_new_verifier params who new w :
  widths params → wf (w_ids w) → id_closed (w_ids w) = false → is_Some (subjects (w_ids w) !! who) →
  let change :=
    fx! hash := call (HashOp params new) in
    match hash with
    | Err _ => Done (Err Internal)
    | Ok hash =>
        fx! now := call Now in
        fx! put := call (PutUserCredentialOp (mkUserCredential who hash false now)) in
        match put with
        | Err _ => Done (Err Internal)
        | Ok _ =>
            fx! _ := call (DeleteSubjectSessionsOp who) in
            Done (Ok tt)
        end
    end in
  ∃ r w', run change w = Some (r, w') ∧ (r = Ok tt ↔ is_ok (Hash params (w_random w) new) = true) ∧
    (r ≠ Ok tt → w_ids w' = w_ids w) ∧ (r = Ok tt → changed params (w_ids w) (w_ids w') who new).
Proof.
  intros Hw Hwf Hopen [x Hx]. cbv zeta. rewrite run_then, run_call. cbn [handle].
  destruct (Hash params (w_random w) new) as [[hash rest]|e] eqn:Hh; [|eexists _, _; split; [reflexivity|]; done].
  destruct (Hash_verifies _ _ _ _ _ Hw Hh) as [Hv Hne]. destruct (Hash_ok _ _ _ _ _ Hw Hh) as (_ & _ & salt & _ & _ & Hdec).
  assert (∀ other, Verify hash other = Ok tt ↔ derive other salt params = derive new salt params) as Hexact.
  { intros other. unfold Verify. rewrite Hdec. cbn [result_bind]. case_decide; naive_solver. }
  rewrite run_then, run_call. cbn [handle]. rewrite run_then, run_call. cbn [handle].
  unfold PutUserCredential, id_enter. cbn [log_work set_random tick w_ids]. rewrite Hopen. cbn [result_bind uc_hash uc_subject].
  destruct (String.eqb_spec hash "") as [|_]; [done|]. rewrite Hx. cbn [update]. rewrite run_then, run_call. cbn [handle set_ids w_ids].
  unfold DeleteSubjectSessions, id_enter. cbn [id_closed set_userCredentials]. rewrite Hopen. cbn [result_bind fst update].
  eexists _, _. split; [reflexivity|]. split; [done|]. split; [done|]. intros _. unfold changed. cbn [w_ids set_ids].
  cbn [userCredentials set_sessions set_userCredentials sessions subjects bindings roles]. split_and!; try done.
  - eexists _, salt. split; [apply lookup_insert_eq|]. done.
  - intros k s' [_ H]%lookup_drop_where. by apply String.eqb_neq.
  - intros k s' Hk Hs. apply lookup_drop_where. split; [done|]. by apply String.eqb_neq.
  - intros n Hn. by apply lookup_insert_ne.
Qed.

Lemma Hash_possible params random password : Params_Validate params = Ok tt → password ≠ "" →
  (Z.to_nat (pa_saltLength params) <= length random)%nat → is_ok (Hash params random password) = true.
Proof.
  intros Hv Hne Hl. unfold Hash, ReadFull. destruct (String.eqb_spec password "") as [|_]; [done|]. rewrite Hv.
  by destruct (Nat.leb_spec (Z.to_nat (pa_saltLength params)) (length random)); [|lia].
Qed.

(** A login takes at most one salt off the random source. *)
Lemma update_random r w b w' : update r w = (b, w') → w_random w' = w_random w.
Proof. destruct r; cbn; by intros [= _ <-]. Qed.

Lemma attempted_random limiter a w : w_random (attempted limiter a w).2 = w_random w.
Proof. unfold attempted. destruct limiter; [|done]. by destruct (AttemptLimiter_Allow _ _ _). Qed.

Lemma upgrade_random l cred password w w' :
  run (upgrade l cred password) w = Some (tt, w') → (length (w_random w) <= Z.to_nat (pa_saltLength (pl_params l)) + length (w_random w'))%nat.
Proof.
  unfold upgrade. destruct (NeedsRehash _ _) as [[]|]; try (intros [= <-]; lia). rewrite run_then, run_call. cbn [handle].
  destruct (Hash _ _ _) as [[hash rest]|e] eqn:Hh; [|intros [= <-]; lia]. rewrite run_then, run_call. cbn [handle].
  assert (∃ salt, w_random w = salt ++ rest ∧ (length salt <= Z.to_nat (pa_saltLength (pl_params l)))%nat) as (salt & Heq & Hs).
  { unfold Hash, ReadFull in Hh. destruct (String.eqb password ""); [done|]. destruct (Params_Validate _); [|done].
    destruct (Nat.leb _ _); [|done]. injection Hh as _ <-. eexists. split; [symmetry; apply take_drop|]. rewrite length_take. lia. }
  destruct (update _ _) as [b w2] eqn:Hu. cbn. intros [= <-]. rewrite (update_random _ _ _ _ Hu). cbn [log_work set_random w_random].
  rewrite Heq, length_app. lia.
Qed.

Lemma Authenticate_random l username password source w r w' :
  run (Authenticate l username password source) w = Some (r, w') →
  (length (w_random w) <= Z.to_nat (pa_saltLength (pl_params l)) + length (w_random w'))%nat.
Proof.
  unfold Authenticate. rewrite run_bindE, run_limited. pose proof (attempted_random (pl_limiter l) (mkAttempt username source) w) as Hr.
  destruct (attempted _ _ w) as [[[] wait] w0]; cbn [fst snd] in *; [|intros [= _ <-]; rewrite Hr; lia].
  destruct (_ || _); [intros [= _ <-]; rewrite Hr; lia|]. rewrite run_then, run_call. cbn [handle].
  destruct (GetUserCredential _ _ _) as [cred|[]]; try (intros [= _ <-]; cbn; rewrite Hr; lia).
  rewrite run_then, run_call. cbn [handle]. destruct (Verify _ _) as [[]|[]]; try (intros [= _ <-]; cbn; rewrite Hr; lia).
  rewrite run_then.
  assert (∃ w2, run (if pl_limiter l then call (SucceedOp (mkAttempt username source)) else Done tt) (log_work (Verified (costs_of (uc_hash cred))) w0) = Some (tt, w2)
    ∧ w_random w2 = w_random w) as (w2 & -> & Hr2) by (destruct (pl_limiter l); by eexists).
  rewrite run_then. destruct (run_total (upgrade l cred password) w2) as ([] & w3 & Hw3). rewrite Hw3. cbn. intros [= _ <-].
  rewrite <- Hr2. by eapply upgrade_random.
Qed.

(** C26: A changed password takes effect at once. A change is made exactly when the
    caller is a user, the limiter lets the attempt through, the new password is long
    enough and another, and the current one passes the stored verifier; then a
    password passes the account's verifier exactly when it derives the key of the
    new one, no rotation is due, every session of the account is gone, and no other
    account, session, grant or role has changed. A refusal changes nothing in the
    store. *)
Theorem password_change_is_exact login params caller change rq w :
  made login → widths params → Params_Validate params = Ok tt → wf (w_ids w) → id_closed (w_ids w) = false → as_name caller ≠ "" →
  (Z.to_nat (pa_saltLength (pl_params login)) + Z.to_nat (pa_saltLength params) <= length (w_random w))%nat →
  ∃ r w', run (AuthPassword_serve login params (Some caller) change rq) w = Some (r, w') ∧
    (r = Ok tt ↔ as_kind caller = User ∧ ∃ current new, change = Some (current, new) ∧
       may_change login w (as_name caller) (remoteHost rq) current new) ∧
    (∀ new, r = Ok tt → snd <$> change = Some new → changed params (w_ids w) (w_ids w') (as_name caller) new) ∧
    (r ≠ Ok tt → w_ids w' = w_ids w).
Proof.
  intros Hmade Hpw Hvalid Hwf Hopen Hname Hrand. unfold AuthPassword_serve.
  destruct (String.eqb_spec (as_kind caller) User) as [Hk|Hk]; cbn [negb].
  2: { eexists _, w. split; [reflexivity|]. split; [split; [done|]; naive_solver|]. done. }
  destruct change as [[current new]|].
  2: { eexists _, w. split; [reflexivity|]. split; [split; [done|]; naive_solver|]. done. }
  destruct (Nat.ltb_spec (String.length new) MinPasswordLength) as [Hl|Hl].
  { eexists _, w. split; [reflexivity|]. split; [|done]. split; [done|]. intros (_ & ? & ? & [= <- <-] & (? & _)). lia. }
  destruct (String.eqb_spec new current) as [->|Hne].
  { eexists _, w. split; [reflexivity|]. split; [|done]. split; [done|]. intros (_ & ? & ? & [= <- <-] & (_ & ? & _)). done. }
  rewrite run_then. destruct (run_Authenticate login w (as_name caller) current (remoteHost rq) Hmade Hwf) as (r & w1 & Hauth & Hok & _ & _ & _ & Hno & Hdone).
  pose proof (Authenticate_random _ _ _ _ _ _ _ Hauth) as Hleft. rewrite Hauth.
  destruct r as [[]|e].
  - destruct (proj1 Hok eq_refl) as (Hallow & _ & Hc & _ & cred & Hcred & Hver).
    destruct (Hdone eq_refl) as (_ & cred0 & cred' & Hc0 & Hafter & Hids). destruct (wf_users _ Hwf _ _ Hcred) as (_ & _ & Hlive).
    destruct (run_new_verifier params (as_name caller) new w1) as (r & w' & Hr & Hiff & _ & Hch);
      [done|rewrite Hids; by eapply wf_row_after|by rewrite Hids|by rewrite Hids|].
    assert (r = Ok tt) as ->.
    { apply Hiff, Hash_possible; [done| |lia]. intros ->. cbn in Hl. unfold MinPasswordLength in Hl. lia. }
    exists (Ok tt), w'. split; [exact Hr|]. split_and!; [|intros new' _ [= <-]|done].
    + split; [|done]. intros _. split; [done|]. exists current, new. split; [done|]. split_and!; [lia|done|done|done|]. by exists cred.
    + destruct (Hch eq_refl) as (H1 & H2 & H3 & H4 & H5 & H6 & H7). rewrite Hids in H3, H4, H5, H6, H7.
      split_and!; [exact H1|exact H2|exact H3| |exact H5|exact H6|exact H7].
      intros n Hn. rewrite H4 by done. cbn [userCredentials set_userCredentials]. by rewrite lookup_insert_ne.
  - destruct (Hno ltac:(done)) as [Hids _].
    assert (¬ ∃ cred, userCredentials (w_ids w) !! as_name caller = Some cred ∧ Verify (uc_hash cred) current = Ok tt ∧
      (attempted (pl_limiter login) (mkAttempt (as_name caller) (remoteHost rq)) w).1.1 = true ∧ current ≠ "") as Hnot.
    { intros (cred & Hcred & Hver & Hallow & Hc). assert (Err e = Ok tt) as [=]. apply Hok. split_and!; [done..|]. by exists cred. }
    destruct e; (eexists _, w1; split; [reflexivity|]; split; [|done]);
      (split; [done|]; intros (_ & ? & ? & [= <- <-] & (_ & _ & Hc & Hal & cred & H1 & H2)); exfalso; apply Hnot; by exists cred).
Qed.
End api.

(** ** A deployment to try them on *)
Fixpoint bits (p : positive) : string :=
  match p with xH => "" | xO p => String "0" (bits p) | xI p => String "1" (bits p) end.
Fixpoint of_bits (s : string) : positive :=
  match s with EmptyString => 1 | String c s => if Ascii.eqb c "1" then xI (of_bits s) else xO (of_bits s) end.

Lemma of_bits_bits p : of_bits (bits p) = p.
Proof. induction p as [p IH|p IH|]; cbn; by rewrite ?IH. Qed.

(** A library whose tokens spell out method, claims and key. *)
Definition flat_access (r : ResourceActions) := (ra_type r, ra_name r, ra_actions r).
Definition flat_claims (c : tokenClaims) :=
  (tc_issuer c, tc_audience c, tc_subject c, tc_issuedAt c, tc_notBefore c, tc_expiresAt c, tc_id c, flat_access <$> tc_access c).
Definition build_access (r : string * string * list string) : ResourceActions := mkResourceActions r.1.1 r.1.2 r.2.
Definition build_claims (x : string * list string * string * option Z * option Z * option Z * string * list (string * string * list string)) : tokenClaims :=
  let '(issuer, audience, subject, iat, nbf, exp, id, access) := x in
  mkTokenClaims issuer audience subject iat nbf exp id (build_access <$> access).

Lemma build_flat c : build_claims (flat_claims c) = c.
Proof.
  destruct c as [i a s t1 t2 t3 id acc]. cbn. f_equal. rewrite <- list_fmap_compose.
  rewrite <- (list_fmap_id acc) at 2. apply list_fmap_ext. by intros ? [].
Qed.

Definition toy_sign (alg : string) (c : tokenClaims) (key : string) : option string := Some (bits (countable.encode (alg, key, flat_claims c))).
Definition toy_read (raw : string) : option (string * string * tokenClaims) := (prod_map id build_claims) <$> countable.decode (of_bits raw).
Definition toy_parse (raw : string) (pub : string) (o : ParserOptions) : option tokenClaims :=
  '(alg, key, c) ← toy_read raw;
  if bool_decide (alg ∈ po_methods o) && String.eqb key pub && claims_valid o c then Some c else None.

Lemma toy_read_sign alg c key raw : toy_sign alg c key = Some raw → toy_read raw = Some (alg, key, c).
Proof. intros [= <-]. unfold toy_read. rewrite of_bits_bits, countable.decode_encode. cbn [fmap option_fmap option_map]. unfold prod_map. cbn [fst snd]. by rewrite build_flat. Qed.

Lemma toy_Parse_Signed alg c key raw o : toy_sign alg c key = Some raw → alg ∈ po_methods o →
  toy_parse raw key o = if claims_valid o c then Some c else None.
Proof.
  intros Hs Hin. unfold toy_parse. rewrite (toy_read_sign _ _ _ _ Hs). cbn. rewrite bool_decide_true by done. by rewrite String.eqb_refl.
Qed.

Lemma toy_Parse_authentic raw pub o c : toy_parse raw pub o = Some c →
  claims_valid o c = true ∧ ∃ alg, alg ∈ po_methods o ∧ ∃ c', toy_read raw = Some (alg, pub, c').
Proof.
  unfold toy_parse. destruct (toy_read raw) as [[[alg key] c']|]; [|done]. cbn.
  destruct (bool_decide_reflect (alg ∈ po_methods o)); [|done]. destruct (String.eqb_spec key pub) as [->|]; [|done].
  destruct (claims_valid o c') eqn:Hv; [|done]. intros [= <-]. split; [done|]. exists alg. split; [done|]. by exists c'.
Qed.

#[export] Instance toy_jwt : JWT := {|
  NewKeyFromSeed := String.string_of_list_ascii; Public := id; SignedString := toy_sign;
  signature_of := λ alg raw pub, ∃ c, toy_read raw = Some (alg, pub, c); ParseWithClaims := toy_parse;
  Parse_Signed := toy_Parse_Signed; Parse_authentic := toy_Parse_authentic |}.

Definition demo_signer : Signer := NewSigner (NewKeyFromSeed (take 32 demo_bytes)) 0.
Definition demo_basic : AuthRequest := mkAuthRequest ("Basic " +:+ EncodeToString StdEncoding (String.list_ascii_of_string "alice:hunter2")) "10.0.0.7:4711"
  [("service", "trove"); ("scope", "repository:team/app:pull,push repository:other:pull"); ("verb", RepoRead); ("resource", "team/app"); ("subject", "alice")].

Lemma identities_are_proved_witness :
  ∃ w', run (Bearer demo_signer (BasicAuth demo_login None) demo_basic) demo_world = Some (Ok "alice", w') ∧
    (w_ids w' = w_ids demo_world ∨ refreshed demo_login "alice" "hunter2" (w_ids demo_world) (w_ids w')) ∧ proved demo_signer None demo_basic demo_world "alice".
Proof.
  destruct (identities_are_proved demo_signer demo_login None demo_basic demo_world demo_made demo_wf) as (r & w' & Hr & Hu & Hp & _).
  assert (r = Ok "alice") as ->.
  { assert (fst <$> run (Bearer demo_signer (BasicAuth demo_login None) demo_basic) demo_world = Some (Ok "alice")) as H by (vm_compute; reflexivity).
    rewrite Hr in H. injection H as H. exact H. }
  exists w'. split; [exact Hr|]. split; [|apply Hp; reflexivity]. destruct Hu as [Hu|(username & password & _ & Hb & Hn & Hu)]; [left; exact Hu|right].
  assert (r_BasicAuth demo_basic = Some ("alice", "hunter2")) as Hb' by (vm_compute; reflexivity). rewrite Hb' in Hb. injection Hb as <- <-. exact Hu.
Defined.

(** The same password in the deployment the guard is tried on. *)
Definition granted_ids : IdStore :=
  history (demo_ops ++ [OpPutUserCredential false (mkUserCredential "alice" (verifier weak_params "hunter2") true 0)]) New.
Definition granted_world : world := mkWorld granted_ids demo_limiter demo_bytes (λ _, 1000) 0 [].

Lemma granted_wf : wf (w_ids granted_world).
Proof. apply id_history_wf, id_New_wf. Qed.

Definition asking_for (name : string) : AuthRequest := mkAuthRequest (rq_authorization demo_basic) (rq_remoteAddr demo_basic)
  [("service", "trove"); ("scope", "repository:" +:+ name +:+ ":pull,push"); ("verb", RepoRead); ("resource", name)].

Lemma token_grants_exactly_witness :
  ∃ resp w', run (TokenEndpoint_serve (λ _, "Bearer") demo_signer (BasicAuth demo_login None) (asking_for "team-a/api")) granted_world = Some (Ok resp, w') ∧
    60 ≤ tr_expiresIn resp ≤ 3600 ∧ ∃ access, carries demo_signer resp "alice" access ∧ access_has access "team-a/api" "pull".
Proof.
  destruct (run (BasicAuth demo_login None (asking_for "team-a/api")) granted_world) as [[[name|] w1]|] eqn:Hc; [|vm_compute in Hc; discriminate Hc..].
  assert (fst <$> run (BasicAuth demo_login None (asking_for "team-a/api")) granted_world = Some (Ok "alice")) as Hname by (vm_compute; reflexivity).
  rewrite Hc in Hname. injection Hname as ->.
  assert (w1 = default granted_world (snd <$> run (BasicAuth demo_login None (asking_for "team-a/api")) granted_world)) as Hw1 by (rewrite Hc; reflexivity).
  assert (wf (w_ids w1)) as Hwf.
  { destruct (run_credentials demo_signer demo_login None (asking_for "team-a/api") granted_world demo_made granted_wf) as (r & w' & Hr & H & _ & _).
    assert (run (Bearer demo_signer (BasicAuth demo_login None) (asking_for "team-a/api")) granted_world = Some (Ok "alice", w1)) as Hr'
      by (rewrite <- Hc; reflexivity).
    rewrite Hr in Hr'. injection Hr' as _ <-. exact H. }
  destruct (token_grants_exactly (λ _, "Bearer") demo_signer (NewKeyFromSeed (take 32 demo_bytes)) 0 (BasicAuth demo_login None)
    (asking_for "team-a/api") granted_world "alice" w1) as (r & w' & Hr & Hok & Hresp);
    [reflexivity|intros c; eexists; reflexivity|exact Hc|exact Hwf|rewrite Hw1; vm_compute; reflexivity|rewrite Hw1; vm_compute; lia|].
  assert (is_ok r = true) as Hr1.
  { apply Hok. split; [right; reflexivity|]. rewrite Hw1. eexists. split; vm_compute; reflexivity. }
  destruct r as [resp|]; [|discriminate Hr1]. exists resp, w'. split; [exact Hr|]. destruct (Hresp resp eq_refl) as (_ & Hexp & access & Hcar & Hhas).
  split; [exact Hexp|]. exists access. split; [exact Hcar|]. apply Hhas. split.
  - exists "repository:team-a/api:pull,push", "repository:team-a/api:pull,push", "pull,push".
    split; [apply list_elem_of_In; left; reflexivity|]. split; [apply list_elem_of_In; left; reflexivity|].
    split; [reflexivity|]. split; [vm_compute; reflexivity|]. split; [eexists; vm_compute; reflexivity|].
    left. apply list_elem_of_In. left. reflexivity.
  - assert (id_closed (w_ids w1) = false) as Hopen by (rewrite Hw1; vm_compute; reflexivity).
    assert (match FetchBindings false (λ _ : nat, w_ids w1) "alice" with
            | Ok bs => Allows bs RepoRead (mkResource resourceRepository "team-a/api") | Err _ => false end = true) as Hal
      by (rewrite Hw1; vm_compute; reflexivity).
    pose proof (fetch_subject (w_ids w1) "alice" Hwf Hopen) as Hf. destruct (FetchBindings false (λ _ : nat, w_ids w1) "alice"); [|discriminate Hal].
    destruct Hf as [_ Hf]. apply Hf in Hal. exact (proj2 Hal).
Defined.

Definition demo_caller : AuthnSubject := mkAuthnSubject "u1" User "alice" false.

Lemma explain_is_the_decision_witness :
  ∃ resp, run (AuthExplain_serve (Some demo_caller) (asking_for "team-b/api")) granted_world = Some (Ok resp, granted_world) ∧
    xr_allowed resp = true ∧ permitted (w_ids granted_world) "alice" RepoRead (mkResource resourceRepository "team-b/api").
Proof.
  assert (id_closed (w_ids granted_world) = false) as Hopen by (vm_compute; reflexivity).
  destruct (explain_is_the_decision demo_caller (asking_for "team-b/api") granted_world granted_wf Hopen) as (r & Hr & Hok & Hresp).
  assert (fst <$> run (AuthExplain_serve (Some demo_caller) (asking_for "team-b/api")) granted_world = Some r) as Hrun by (rewrite Hr; reflexivity).
  destruct r as [resp|]; [|vm_compute in Hrun; discriminate Hrun].
  assert (xr_allowed resp = true) as Hal by (vm_compute in Hrun; injection Hrun as <-; reflexivity).
  exists resp. split; [exact Hr|]. split; [exact Hal|]. destruct (Hresp resp eq_refl) as [H _]. destruct (proj1 H Hal) as [_ Hp].
  assert (query (asking_for "team-b/api") "verb" = RepoRead) as Hv by reflexivity.
  assert (query (asking_for "team-b/api") "resource" = "team-b/api") as Hrs by reflexivity.
  assert (query (asking_for "team-b/api") "subject" = "") as Hs by reflexivity.
  rewrite Hv, Hrs, Hs in Hp. exact Hp.
Defined.

Lemma password_change_is_exact_witness :
  ∃ w', run (AuthPassword_serve demo_login DefaultParams (Some demo_caller) (Some ("hunter2", "correct horse")) demo_basic) granted_world = Some (Ok tt, w') ∧
    changed DefaultParams (w_ids granted_world) (w_ids w') "alice" "correct horse".
Proof.
  destruct (password_change_is_exact demo_login DefaultParams demo_caller (Some ("hunter2", "correct horse")) demo_basic granted_world)
    as (r & w' & Hr & Hok & Hch & _);
    [exact demo_made|exact default_widths|vm_compute; reflexivity|exact granted_wf|vm_compute; reflexivity|discriminate|vm_compute; lia|].
  assert (r = Ok tt) as ->.
  { apply Hok. split; [reflexivity|]. exists "hunter2", "correct horse". split; [reflexivity|].
    split; [vm_compute; lia|]. split; [discriminate|]. split; [discriminate|]. split; [vm_compute; reflexivity|].
    exists (mkUserCredential "alice" (verifier weak_params "hunter2") true 0). split; vm_compute; reflexivity. }
  exists w'. split; [exact Hr|]. exact (Hch "correct horse" eq_refl eq_refl).
Defined.

(** A token under a scheme in lower case (schemes are compared without case) and a
    basic header that does not decode are taken for no credentials at all. *)
Lemma malformed_credentials_are_anonymous :
  fst <$> run (Bearer demo_signer (BasicAuth demo_login None) (mkAuthRequest "bearer abc" "10.0.0.7:4711" [])) demo_world = Some (Ok "") ∧
  fst <$> run (Bearer demo_signer (BasicAuth demo_login None) (mkAuthRequest "Basic ???" "10.0.0.7:4711" [])) demo_world = Some (Ok "") ∧
  fst <$> run (Bearer demo_signer (BasicAuth demo_login None) (mkAuthRequest "Bearer abc" "10.0.0.7:4711" [])) demo_world = Some (Err BadCredentials).
Proof. split; [|split]; vm_compute; reflexivity. Qed.

(** The deployment hands the token endpoint the credentials of the guard, tokens
    included (cli/serve.go): a token buys its successor, so whoever holds one
    stays in, past its hour, without presenting a password again. *)
Definition at_time (t : Z) : world := mkWorld granted_ids demo_limiter demo_bytes (λ _, t) 0 [].
Definition token_at (t : Z) (authorization : string) : option string :=
  match run (TokenEndpoint_serve (λ _, "Bearer") demo_signer (Bearer demo_signer (BasicAuth demo_login None))
               (mkAuthRequest authorization "10.0.0.7:4711" [("scope", "repository:team-a/api:pull")])) (at_time t) with
  | Some (Ok resp, _) => Some (tr_token resp)
  | _ => None
  end.

Definition first_token : string := default "" (token_at 0 (rq_authorization demo_basic)).
Definition second_token : string := default "" (token_at (240 * 1000000000) ("Bearer " +:+ first_token)).

Lemma a_token_buys_its_successor :
  is_ok (Signer_Verify demo_signer 0 first_token) = true ∧
  is_ok (Signer_Verify demo_signer (480 * 1000000000) first_token) = false ∧
  Signer_Verify demo_signer (480 * 1000000000) second_token = Ok (mkClaims "alice" [mkResourceActions "repository" "team-a/api" ["pull"]]).
Proof. split; [|split]; vm_compute; reflexivity. Qed.
