(* ===== verification/Routes.v ===== *)
(** * The route table
    (src/internal/server: router.go, oci_routes.go, routes_guard.go; the
    registrations of src/internal/server, src/internal/registry and buildRouter of
    src/internal/cli/serve.go)

    Registration behind the guard, the check of the assembled table, the matcher
    of the distribution paths, and dispatch. The multiplexer of net/http is
    modelled as far as its patterns are used here: literal segments, wildcards of
    one segment, of the rest, and the end of the path. *)
From S2P Require Import Prelude RepoName Authz Meta Memory Identity Guard HostPattern GoStrings.

(** ** Requests *)
Record ociMatch : Type := mkOciMatch { om_name : string; om_values : gmap string string }.

Record HttpRequest : Type := mkHttpRequest {
  hr_method : string;
  hr_path : string;                               (* URL.Path *)
  hr_escapedPath : string;                        (* URL.EscapedPath() *)
  hr_authorization : string;
  hr_query : list (string * string);
  hr_oci : option ociMatch;                       (* the context's ociKey *)
  hr_pathValues : list (string * string);
}.

Definition with_oci (r : HttpRequest) (m : ociMatch) : HttpRequest :=
  mkHttpRequest (hr_method r) (hr_path r) (hr_escapedPath r) (hr_authorization r) (hr_query r) (Some m) (hr_pathValues r).
Definition with_values (r : HttpRequest) (vs : list (string * string)) : HttpRequest :=
  mkHttpRequest (hr_method r) (hr_path r) (hr_escapedPath r) (hr_authorization r) (hr_query r) (hr_oci r) vs.

Definition OCIName (r : HttpRequest) : string := match hr_oci r with None => "" | Some m => om_name m end.
Definition OCIValue (r : HttpRequest) (key : string) : string :=
  match hr_oci r with None => "" | Some m => default "" (om_values m !! key) end.
Definition PathValue (r : HttpRequest) (key : string) : string :=
  default "" (snd <$> find (λ kv, String.eqb kv.1 key) (hr_pathValues r)).
Definition QueryGet (r : HttpRequest) (key : string) : string :=
  default "" (snd <$> find (λ kv, String.eqb kv.1 key) (hr_query r)).

(** ** The multiplexer (net/http) *)
Inductive mux_segment : Type := MuxLiteral (s : string) | MuxWild (name : string) | MuxRest (name : string).

Definition parse_segment (last : bool) (s : string) : mux_segment :=
  if last && String.eqb s "" then MuxRest ""
  else if last && String.eqb s "{$}" then MuxLiteral "/"
  else if HasPrefix s "{" && HasSuffix s "}" then
    let inner := String.substring 1 (String.length s - 2) s in
    match CutSuffix inner "..." with
    | (name, true) => if last then MuxRest name else MuxLiteral s
    | (name, false) => MuxWild name
    end
  else MuxLiteral s.

Fixpoint parse_segments (l : list string) : list mux_segment :=
  match l with
  | [] => []
  | [s] => [parse_segment true s]
  | s :: l => parse_segment false s :: parse_segments l
  end.

(** A pattern without its leading slash, by segments. *)
Definition parse_pattern (pattern : string) : list mux_segment :=
  parse_segments (SplitByte (String.substring 1 (String.length pattern - 1) pattern) "/").

Definition hex_value (c : ascii) : option nat :=
  let n := nat_of_ascii c in
  if (48 <=? n) && (n <=? 57) then Some (n - 48)
  else if (97 <=? n) && (n <=? 102) then Some (n - 87)
  else if (65 <=? n) && (n <=? 70) then Some (n - 55)
  else None.

(** [url.PathUnescape]; the multiplexer keeps the text when it fails. *)
Fixpoint PathUnescape (s : string) : option string :=
  match s with
  | EmptyString => Some ""
  | String "%" (String a (String b rest)) =>
      match hex_value a, hex_value b, PathUnescape rest with
      | Some x, Some y, Some t => Some (String (ascii_of_nat (16 * x + y)) t)
      | _, _, _ => None
      end
  | String "%" _ => None
  | String c rest => String c <$> PathUnescape rest
  end.
Definition pathUnescape (s : string) : string := default s (PathUnescape s).

(** The segments a path is matched by: one final slash is the segment slash. *)
Definition path_segments (path : string) : list string :=
  let parts := SplitByte (String.substring 1 (String.length path - 1) path) "/" in
  match List.last parts "" with
  | "" => removelast parts ++ ["/"]
  | _ => parts
  end.

(** [cleanPath] would not change the path. *)
Definition clean_path (path : string) : bool :=
  HasPrefix path "/" &&
  let parts := SplitByte (String.substring 1 (String.length path - 1) path) "/" in
  forallb (λ s, negb (String.eqb s "")) (removelast parts) &&
  forallb (λ s, negb (String.eqb s ".") && negb (String.eqb s "..")) parts.

Section mux.
Context {H : Type}.

Definition strip (f : mux_segment → option (list (string * string))) (entries : list (list mux_segment * list (string * string) * H))
    : list (list mux_segment * list (string * string) * H) :=
  omap (λ '(segs, vs, h), match segs with s :: segs => (λ new, (segs, vs ++ new, h)) <$> f s | [] => None end) entries.

Definition as_literal (seg : string) (s : mux_segment) : option (list (string * string)) :=
  match s with MuxLiteral l => if String.eqb l seg then Some [] else None | _ => None end.
Definition as_wild (seg : string) (s : mux_segment) : option (list (string * string)) :=
  match s with MuxWild name => if String.eqb seg "/" then None else Some [(name, seg)] | _ => None end.
Definition as_rest (path : list string) (s : mux_segment) : option (list (string * string)) :=
  match s with
  | MuxRest "" => Some []
  | MuxRest name => Some [(name, pathUnescape (strings_Join path "/"))]
  | _ => None
  end.

(** The routing tree: at every segment the literal child first, then the wildcard,
    then the rest. *)
Fixpoint mux_match (path : list string) (entries : list (list mux_segment * list (string * string) * H))
    : option (list (string * string) * H) :=
  match path with
  | [] => head (omap (λ '(segs, vs, h), match segs with [] => Some (vs, h) | _ => None end) entries)
  | seg :: rest =>
      let seg' := pathUnescape seg in
      match mux_match rest (strip (as_literal seg') entries) with
      | Some found => Some found
      | None =>
          match mux_match rest (strip (as_wild seg') entries) with
          | Some found => Some found
          | None => head (omap (λ '(segs, vs, h), match segs with s :: _ => (λ new, (vs ++ new, h)) <$> as_rest path s | [] => None end) entries)
          end
      end
  end.
End mux.

(** ** The router (router.go) *)
Inductive RouterPanic : Type :=
| NoVerb | BadVerb | BothExtractors | ListingExtractor | NoReason | RegisteredTwice
| BadSuffix | OCIListing | EmptySegment | UnknownConstraint (kind : string).

Section router.
Context {H : Type}.

Notation perm := (Permission HttpRequest).

Record Route : Type := mkRoute { rt_method : string; rt_pattern : string; rt_permission : option perm; rt_publicReason : string }.

Definition Route_Public (r : Route) : bool := negb (String.eqb (rt_publicReason r) "").

(** The handler a route was registered with, behind the guard or bare. *)
Inductive handler : Type := Guarded (p : perm) (h : H) | Bare (h : H).

Record ociRoute : Type := mkOciRoute { or_method : string; or_segments : list string; or_trailingSlash : bool; or_handler : handler }.
Record muxRoute : Type := mkMuxRoute { mr_method : string; mr_pattern : string; mr_handler : handler }.

(** [verified] holds the verdict of the first request. *)
Record Router : Type := mkRouter {
  ro_mux : list muxRoute; ro_routes : list Route; ro_oci : list ociRoute; ro_verified : option (list (Route * string));
}.

Definition NewRouter : Router := mkRouter [] [] [] None.

Definition record_route (r : Router) (route : Route) : result RouterPanic Router :=
  if existsb (λ e, String.eqb (rt_method e) (rt_method route) && String.eqb (rt_pattern e) (rt_pattern route)) (ro_routes r)
  then Err RegisteredTwice
  else Ok (mkRouter (ro_mux r) (ro_routes r ++ [route]) (ro_oci r) (ro_verified r)).

Definition some_ {A} (o : option A) : bool := bool_decide (is_Some o).

Definition Handle (r : Router) (method pattern : string) (p : perm) (h : H) : result RouterPanic Router :=
  if String.eqb (pm_verb p) "" then Err NoVerb
  else if negb (Verb_Valid (pm_verb p)) then Err BadVerb
  else if some_ (pm_resource p) && some_ (pm_self p) then Err BothExtractors
  else if pm_listing p && (some_ (pm_resource p) || some_ (pm_self p)) then Err ListingExtractor
  else
    let! r := record_route r (mkRoute method pattern (Some p) "") in
    Ok (mkRouter (ro_mux r ++ [mkMuxRoute method pattern (Guarded p h)]) (ro_routes r) (ro_oci r) (ro_verified r)).

Definition HandlePublic (r : Router) (method pattern reason : string) (h : H) : result RouterPanic Router :=
  if String.eqb reason "" then Err NoReason
  else
    let! r := record_route r (mkRoute method pattern None reason) in
    Ok (mkRouter (ro_mux r ++ [mkMuxRoute method pattern (Bare h)]) (ro_routes r) (ro_oci r) (ro_verified r)).

(** ** Distribution routes (oci_routes.go) *)
Inductive ociConstraint : Type := anySegment | digestSegment | tagSegment.
Definition constraint_ok (c : ociConstraint) (segment : string) : bool :=
  match c with anySegment => true | digestSegment => ContainsByte segment ":" | tagSegment => negb (ContainsByte segment ":") end.
Definition ociConstraints : gmap string ociConstraint := {["digest" := digestSegment; "tag" := tagSegment]}.

Definition cutPlaceholder (segment : string) : result RouterPanic (option (string * ociConstraint)) :=
  if negb (HasPrefix segment "{") || negb (HasSuffix segment "}") then Ok None
  else
    let inner := String.substring 1 (String.length segment - 2) segment in
    match Cut inner ":" with
    | (_, _, false) => Ok (Some (inner, anySegment))
    | (name, kind, true) =>
        match ociConstraints !! kind with
        | None => Err (UnknownConstraint kind)
        | Some check => Ok (Some (name, check))
        end
    end.

Definition check_segment (u : unit) (segment : string) : result RouterPanic unit :=
  if String.eqb segment "" then Err EmptySegment else let! _ := cutPlaceholder segment in Ok tt.

(** [sort.SliceStable] by the number of segments: longer suffixes first,
    registration order among equals. *)
Fixpoint stable_insert (route : ociRoute) (l : list ociRoute) : list ociRoute :=
  match l with
  | [] => [route]
  | x :: l => if length (or_segments x) <? length (or_segments route) then route :: x :: l else x :: stable_insert route l
  end.
Definition longest_first (l : list ociRoute) : list ociRoute := foldl (λ sorted route, stable_insert route sorted) [] l.

Definition HandleOCI (r : Router) (method suffix : string) (p : perm) (h : H) : result RouterPanic Router :=
  if String.eqb (pm_verb p) "" then Err NoVerb
  else if negb (Verb_Valid (pm_verb p)) then Err BadVerb
  else if negb (HasPrefix suffix "/") || (String.length suffix <? 2) then Err BadSuffix
  else if pm_listing p then Err OCIListing
  else
    let '(trimmed, trailingSlash) := CutSuffix suffix "/" in
    let segments := SplitByte (default trimmed (CutPrefix trimmed "/")) "/" in
    let! _ := foldM check_segment tt segments in
    let! r := record_route r (mkRoute method ("/v2/{name}" +:+ suffix) (Some p) "") in
    let route := mkOciRoute method segments trailingSlash (Guarded p h) in
    Ok (mkRouter (ro_mux r) (ro_routes r) (longest_first (ro_oci r ++ [route])) (ro_verified r)).

Fixpoint match_segments (patterns tail : list string) (values : gmap string string) : result RouterPanic (option (gmap string string)) :=
  match patterns, tail with
  | pattern :: patterns, seg :: tail =>
      let! placeholder := cutPlaceholder pattern in
      match placeholder with
      | Some (name, constraint) =>
          if String.eqb seg "" || negb (constraint_ok constraint seg) then Ok None
          else match_segments patterns tail (<[name := seg]> values)
      | None => if negb (String.eqb pattern seg) then Ok None else match_segments patterns tail values
      end
  | _, _ => Ok (Some values)
  end.

Fixpoint match_routes (req : HttpRequest) (parts : list string) (trailingSlash : bool) (l : list ociRoute)
    : result RouterPanic (option (handler * HttpRequest)) :=
  match l with
  | [] => Ok None
  | route :: l =>
      if negb (String.eqb (or_method route) (hr_method req)) || negb (Bool.eqb (or_trailingSlash route) trailingSlash)
      then match_routes req parts trailingSlash l
      else
        let k := length (or_segments route) in
        if length parts <=? k then match_routes req parts trailingSlash l
        else
          let! matched := match_segments (or_segments route) (drop (length parts - k) parts) ∅ in
          match matched with
          | None => match_routes req parts trailingSlash l
          | Some values =>
              Ok (Some (or_handler route, with_oci req (mkOciMatch (strings_Join (take (length parts - k) parts) "/") values)))
          end
  end.

Definition matchOCI (r : Router) (req : HttpRequest) : result RouterPanic (option (handler * HttpRequest)) :=
  match CutPrefix (hr_path req) "/v2/" with
  | None => Ok None
  | Some "" => Ok None
  | Some path =>
      let '(path, trailingSlash) := CutSuffix path "/" in
      match_routes req (SplitByte path "/") trailingSlash (ro_oci r)
  end.

(** ** The check of the table (routes_guard.go) *)
Record PublicRoute : Type := mkPublicRoute { pr_method : string; pr_pattern : string; pr_reason : string; pr_task : string }.

Definition publicRoutes : list PublicRoute := [
  mkPublicRoute "GET" "/healthz" "liveness must answer before anything is configured" "E-007";
  mkPublicRoute "GET" "/readyz" "readiness is a probe, not a client, and reports the dependencies a client would need" "E-007";
  mkPublicRoute "GET" "/token" "the token endpoint issues credentials, so it cannot require them" "Z-004";
  mkPublicRoute "GET" "/v2/{$}" "the OCI base endpoint answers only whether the client is authenticated (ADR 0004): 401 with the challenge, or 200 disclosing nothing" "Z-004";
  mkPublicRoute "GET" "/{$}" "the UI shell is a static bundle; everything it renders is fetched through the guarded API" "U-001";
  mkPublicRoute "GET" "/assets/{path...}" "built UI assets, embedded and static" "U-001" ].

Definition route_key (r : Route) : string * string := (rt_pattern r, rt_method r).
Definition key_le (a b : string * string) : Prop := String.ltb a.1 b.1 = true ∨ a.1 = b.1 ∧ String.le a.2 b.2.
#[export] Instance key_le_dec : RelDecision key_le.
Proof. intros a b. unfold key_le. solve_decision. Defined.

Definition Routes (r : Router) : list Route := sort_on key_le route_key (ro_routes r).

Definition approved (method pattern : string) : option PublicRoute :=
  find (λ p, String.eqb (pr_method p +:+ " " +:+ pr_pattern p) (method +:+ " " +:+ pattern)) (rev publicRoutes).

(** What is wrong with a route, by the name of the error. *)
Definition problem (route : Route) : option string :=
  if Route_Public route then
    match approved (rt_method route) (rt_pattern route) with
    | None => Some "ErrUnapprovedPublicRoute"
    | Some match_ => if negb (String.eqb (pr_reason match_) (rt_publicReason route)) then Some "ErrPublicReasonMismatch" else None
    end
  else
    let verb := match rt_permission route with None => "" | Some p => pm_verb p end in
    if String.eqb verb "" then Some "ErrUnguardedRoute"
    else if negb (Verb_Valid verb) then Some "ErrUnknownRouteVerb"
    else None.

Definition Router_Verify (r : Router) : list (Route * string) :=
  omap (λ route, (λ e, (route, e)) <$> problem route) (Routes r).

(** ** Dispatch *)
Definition served_by : Type := AuthnSubject * option Decision_t * option Visibility.

(** A handler that ran, with the request it was given and what the guard put in
    its context; a refusal; or an answer of the multiplexer itself (not found,
    method not allowed, redirect). *)
Inductive outcome : Type :=
| Handled (h : H) (req : HttpRequest) (by_ : option served_by)
| Refused (resp : Response)
| MuxAnswer.

Section serve.
Context {S : Type} `{!BindingStore S, !SubjectStore S, !RotationStore S}.
Context (g : Guard HttpRequest) (ctx : bool) (sn : Snapshot S).

Definition handler_serve (h : handler) (req : HttpRequest) : outcome :=
  match h with
  | Bare h => Handled h req None
  | Guarded p h =>
      match (Require g ctx sn p req).1 with
      | Served subject d v => Handled h req (Some (subject, d, v))
      | resp => Refused resp
      end
  end.

Definition mux_find (method : string) (path : list string) (r : Router) : option (list (string * string) * muxRoute) :=
  let under m := mux_match path
    (omap (λ e, if String.eqb (mr_method e) m then Some (parse_pattern (mr_pattern e), [], e) else None) (ro_mux r)) in
  match under method with
  | Some found => Some found
  | None => if String.eqb method "HEAD" then under "GET" else None
  end.

(** A path that only gains a final slash by [exactMatch] is redirected. *)
Definition ends_in_rest (pattern : string) : bool :=
  match List.last (parse_pattern pattern) (MuxLiteral "") with MuxRest _ => true | _ => false end.

Definition mux_redirects (method path : string) (found : option (list (string * string) * muxRoute)) (r : Router) : bool :=
  negb (HasSuffix path "/") &&
  match found with None => true | Some (_, e) => ends_in_rest (mr_pattern e) end &&
  match mux_find method (path_segments (path +:+ "/")) r with
  | None => false
  | Some (_, e) => length (parse_pattern (mr_pattern e)) =? length (path_segments (path +:+ "/"))
  end.

Definition mux_serve (r : Router) (req : HttpRequest) : outcome :=
  if negb (clean_path (hr_escapedPath req)) then MuxAnswer
  else
    let found := mux_find (hr_method req) (path_segments (hr_escapedPath req)) r in
    if mux_redirects (hr_method req) (hr_escapedPath req) found r then MuxAnswer
    else match found with
    | None => MuxAnswer
    | Some (values, e) => handler_serve (mr_handler e) (with_values req values)
    end.

Definition ServeHTTP (r : Router) (req : HttpRequest) : result RouterPanic (outcome * Router) :=
  let verdict := default (Router_Verify r) (ro_verified r) in
  let r := mkRouter (ro_mux r) (ro_routes r) (ro_oci r) (Some verdict) in
  match verdict with
  | _ :: _ => Ok (Refused Internal, r)
  | [] =>
      let! matched := matchOCI r req in
      Ok (match matched with
          | Some (h, req) => handler_serve h req
          | None => mux_serve r req
          end, r)
  end.
End serve.
End router.
Arguments Route : clear implicits.
Arguments handler : clear implicits.
Arguments ociRoute : clear implicits.
Arguments muxRoute : clear implicits.
Arguments Router : clear implicits.
Arguments outcome : clear implicits.

(** ** The table of the deployment *)
Inductive endpoint : Type :=
| AuthExplainServe | AuthPasswordServe | TokenServe | V2RootServe
| RepositoriesCreate | RepositoriesList | RepositoriesGet | RepositoriesUpdateConfig | RepositoriesDelete
| RepositoriesSetCredential | RepositoriesDeleteCredential
| BlobStat | BlobGet | BlobRefuseDelete | BlobStart | BlobPatch | BlobCommit | BlobStatus | BlobCancel
| ManifestHead | ManifestGet | ManifestPut | ManifestDelete_ | ManifestDeleteTag
| TagsList | CatalogServe | ReferrersList.

Definition system_verb (verb : string) : Permission HttpRequest := mkPermission verb None None false false.
Definition listing_verb (verb : string) : Permission HttpRequest := mkPermission verb None None true false.

Definition no_text (r : result InvalidError Resource) : result string Resource :=
  match r with Ok x => Ok x | Err _ => Err "resource" end.
Definition repositoryPathResource (r : HttpRequest) : result string Resource := no_text (Authz.Repository (PathValue r "name")).
Definition path_verb (verb : string) : Permission HttpRequest := mkPermission verb (Some repositoryPathResource) None false false.
Definition oci_resource (r : HttpRequest) : result string Resource := no_text (Authz.Repository (OCIName r)).
Definition oci_verb (verb : string) : Permission HttpRequest := mkPermission verb (Some oci_resource) None false false.

Definition AuthExplain_Register (r : Router endpoint) : result RouterPanic (Router endpoint) :=
  Handle r "GET" "/api/v1/auth/explain" (mkPermission UserRead None (Some (λ req, Ok (QueryGet req "subject"))) false false) AuthExplainServe.
Definition AuthPassword_Register (r : Router endpoint) : result RouterPanic (Router endpoint) :=
  Handle r "POST" "/api/v1/auth/password" (mkPermission UserWrite None (Some (λ _, Ok "")) false true) AuthPasswordServe.
Definition TokenEndpoint_Register (r : Router endpoint) : result RouterPanic (Router endpoint) :=
  HandlePublic r "GET" "/token" "the token endpoint issues credentials, so it cannot require them" TokenServe.
Definition V2Root_Register (r : Router endpoint) : result RouterPanic (Router endpoint) :=
  HandlePublic r "GET" "/v2/{$}" "the OCI base endpoint answers only whether the client is authenticated (ADR 0004): 401 with the challenge, or 200 disclosing nothing" V2RootServe.
Definition Repositories_Register (r : Router endpoint) : result RouterPanic (Router endpoint) :=
  let! r := Handle r "POST" "/api/v1/repositories" (system_verb RepoCreate) RepositoriesCreate in
  let! r := Handle r "GET" "/api/v1/repositories" (listing_verb RepoList) RepositoriesList in
  let! r := Handle r "GET" "/api/v1/repositories/{name}" (path_verb RepoList) RepositoriesGet in
  let! r := Handle r "PUT" "/api/v1/repositories/{name}/config" (path_verb RepoConfigure) RepositoriesUpdateConfig in
  let! r := Handle r "DELETE" "/api/v1/repositories/{name}" (path_verb RepoDelete) RepositoriesDelete in
  let! r := Handle r "PUT" "/api/v1/repositories/{name}/credentials" (path_verb ProxyCredentials) RepositoriesSetCredential in
  Handle r "DELETE" "/api/v1/repositories/{name}/credentials" (path_verb ProxyCredentials) RepositoriesDeleteCredential.
Definition Blobs_Register (r : Router endpoint) : result RouterPanic (Router endpoint) :=
  let! r := HandleOCI r "HEAD" "/blobs/{digest}" (oci_verb RepoRead) BlobStat in
  let! r := HandleOCI r "GET" "/blobs/{digest}" (oci_verb RepoRead) BlobGet in
  let! r := HandleOCI r "DELETE" "/blobs/{digest}" (oci_verb ManifestDelete) BlobRefuseDelete in
  let! r := HandleOCI r "POST" "/blobs/uploads/" (oci_verb RepoWrite) BlobStart in
  let! r := HandleOCI r "PATCH" "/blobs/uploads/{id}" (oci_verb RepoWrite) BlobPatch in
  let! r := HandleOCI r "PUT" "/blobs/uploads/{id}" (oci_verb RepoWrite) BlobCommit in
  let! r := HandleOCI r "GET" "/blobs/uploads/{id}" (oci_verb RepoWrite) BlobStatus in
  HandleOCI r "DELETE" "/blobs/uploads/{id}" (oci_verb RepoWrite) BlobCancel.
Definition Manifests_Register (r : Router endpoint) : result RouterPanic (Router endpoint) :=
  let! r := HandleOCI r "HEAD" "/manifests/{reference}" (oci_verb RepoRead) ManifestHead in
  let! r := HandleOCI r "GET" "/manifests/{reference}" (oci_verb RepoRead) ManifestGet in
  let! r := HandleOCI r "PUT" "/manifests/{reference}" (oci_verb RepoWrite) ManifestPut in
  let! r := HandleOCI r "DELETE" "/manifests/{reference:digest}" (oci_verb ManifestDelete) ManifestDelete_ in
  HandleOCI r "DELETE" "/manifests/{reference:tag}" (oci_verb TagDelete) ManifestDeleteTag.
Definition Tags_Register (r : Router endpoint) : result RouterPanic (Router endpoint) :=
  HandleOCI r "GET" "/tags/list" (oci_verb RepoRead) TagsList.
Definition Catalog_Register (r : Router endpoint) : result RouterPanic (Router endpoint) :=
  Handle r "GET" "/v2/_catalog" (listing_verb RepoList) CatalogServe.
Definition Referrers_Register (r : Router endpoint) : result RouterPanic (Router endpoint) :=
  HandleOCI r "GET" "/referrers/{digest}" (oci_verb ReferrerRead) ReferrersList.

Definition buildRouter : result RouterPanic (Router endpoint) :=
  let! r := AuthExplain_Register NewRouter in
  let! r := AuthPassword_Register r in
  let! r := TokenEndpoint_Register r in
  let! r := V2Root_Register r in
  let! r := Repositories_Register r in
  let! r := Blobs_Register r in
  let! r := Manifests_Register r in
  let! r := Tags_Register r in
  let! r := Catalog_Register r in
  Referrers_Register r.

Example deployment_assembles :
  match buildRouter with Ok r => (length (ro_mux r), length (ro_oci r), length (Router_Verify r)) = (12, 15, 0) | Err _ => False end.
Proof. vm_compute. reflexivity. Qed.
