(* ===== verification/RoutesSpec.v ===== *)
(** * The route table: what it promises

    Whatever is registered and whatever is asked, a handler runs only behind the
    guard or on the approved list; and on the deployment's table the distribution
    paths name one handler, one repository and one permission each. *)
From S2P Require Import Prelude RepoName Authz Meta Memory Identity Guard HostPattern GoStrings Routes.

Section table.
Context {H : Type}.

(** ** Registration *)
Inductive registration : Type :=
| RegHandle (method pattern : string) (p : Permission HttpRequest) (h : H)
| RegPublic (method pattern reason : string) (h : H)
| RegOCI (method suffix : string) (p : Permission HttpRequest) (h : H).

Definition register (r : Router H) (reg : registration) : result RouterPanic (Router H) :=
  match reg with
  | RegHandle method pattern p h => Handle r method pattern p h
  | RegPublic method pattern reason h => HandlePublic r method pattern reason h
  | RegOCI method suffix p h => HandleOCI r method suffix p h
  end.

Definition mux_sound (regs : list registration) (routes : list Route) (e : muxRoute H) : Prop :=
  match mr_handler e with
  | Guarded p h => RegHandle (mr_method e) (mr_pattern e) p h ∈ regs ∧ Verb_Valid (pm_verb p) = true
  | Bare h => ∃ reason, reason ≠ "" ∧ RegPublic (mr_method e) (mr_pattern e) reason h ∈ regs ∧
      mkRoute (mr_method e) (mr_pattern e) None reason ∈ routes
  end.

Definition oci_sound (regs : list registration) (e : ociRoute H) : Prop :=
  or_segments e ≠ [] ∧ Forall (λ s, s ≠ "" ∧ is_ok (cutPlaceholder s) = true) (or_segments e) ∧
  ∃ suffix p h, or_handler e = Guarded p h ∧ RegOCI (or_method e) suffix p h ∈ regs ∧ Verb_Valid (pm_verb p) = true.

Record sound (regs : list registration) (r : Router H) : Prop := mkSound {
  sound_mux : ∀ e, e ∈ ro_mux r → mux_sound regs (ro_routes r) e;
  sound_oci : ∀ e, e ∈ ro_oci r → oci_sound regs e;
  sound_public : ∀ method pattern reason h, RegPublic method pattern reason h ∈ regs →
    reason ≠ "" ∧ mkRoute method pattern None reason ∈ ro_routes r;
  sound_fresh : ro_verified r = None;
}.

Lemma sub_snoc {A} (l : list A) x : l ⊆ l ++ [x].
Proof. intros y Hy. apply elem_of_app. by left. Qed.
Lemma in_snoc {A} (l : list A) x : x ∈ l ++ [x].
Proof. apply elem_of_app. right. by left. Qed.

Lemma mux_sound_mono regs regs' routes routes' e : regs ⊆ regs' → routes ⊆ routes' → mux_sound regs routes e → mux_sound regs' routes' e.
Proof. intros Hr Hs. unfold mux_sound. destruct (mr_handler e); [intros []; split; auto|]. intros (reason & ? & ? & ?). exists reason. auto. Qed.

Lemma oci_sound_mono regs regs' e : regs ⊆ regs' → oci_sound regs e → oci_sound regs' e.
Proof. intros Hr (? & ? & suffix & p & h & ? & ? & ?). split_and!; [done..|]. exists suffix, p, h. auto. Qed.

Lemma stable_insert_perm (route : ociRoute H) l : stable_insert route l ≡ₚ route :: l.
Proof. induction l as [|x l IH]; [done|]. cbn [stable_insert]. destruct (_ <? _); [done|]. rewrite IH. apply Permutation_swap. Qed.

Lemma longest_first_perm (l : list (ociRoute H)) : longest_first l ≡ₚ l.
Proof.
  unfold longest_first. assert (∀ acc, foldl (λ sorted route, stable_insert route sorted) acc l ≡ₚ acc ++ l) as Hl; [|apply Hl].
  induction l as [|x l IH]; intros acc; cbn [foldl]; [by rewrite app_nil_r|]. rewrite IH, stable_insert_perm. apply Permutation_middle.
Qed.

Lemma foldM_check l : foldM check_segment tt l = Ok tt → Forall (λ s, s ≠ "" ∧ is_ok (cutPlaceholder s) = true) l.
Proof.
  induction l as [|s l IH]; [constructor|]. cbn [foldM]. unfold check_segment at 1. destruct (String.eqb_spec s ""); [done|].
  destruct (cutPlaceholder s) eqn:Hc; [|done]. cbn [result_bind]. intros Hl. constructor; [by rewrite Hc|]. by apply IH.
Qed.

Lemma record_route_spec (r r' : Router H) route :
  record_route r route = Ok r' → r' = mkRouter (ro_mux r) (ro_routes r ++ [route]) (ro_oci r) (ro_verified r).
Proof. unfold record_route. destruct (existsb _ _); [done|]. by intros [= <-]. Qed.

Lemma public_step (regs : list registration) reg (routes : list Route) route :
  (∀ method pattern reason h, RegPublic method pattern reason h ∈ regs → reason ≠ "" ∧ mkRoute method pattern None reason ∈ routes) →
  (∀ method pattern reason h, reg ≠ RegPublic method pattern reason h) →
  ∀ method pattern reason h, RegPublic method pattern reason h ∈ regs ++ [reg] → reason ≠ "" ∧ mkRoute method pattern None reason ∈ routes ++ [route].
Proof.
  intros Hp Hn method pattern reason h [Hin|Heq%list_elem_of_singleton]%elem_of_app; [|by edestruct Hn].
  destruct (Hp _ _ _ _ Hin). split; [done|by apply sub_snoc].
Qed.

Lemma sound_step regs r reg r' : sound regs r → register r reg = Ok r' → sound (regs ++ [reg]) r'.
Proof.
  intros [Hm Ho Hp Hf] Hr. assert (regs ⊆ regs ++ [reg]) as Hsub by apply sub_snoc. destruct reg as [method pattern p h|method pattern reason h|method suffix p h]; cbn [register] in Hr.
  - unfold Handle in Hr. destruct (String.eqb _ _); [done|]. destruct (Verb_Valid _) eqn:Hv; [|done]. cbn [negb] in Hr.
    do 2 (destruct (_ && _); [done|]). destruct (record_route r _) as [r1|] eqn:Hrec; [|done]. injection Hr as <-.
    apply record_route_spec in Hrec as ->. cbn [ro_mux ro_routes ro_oci ro_verified].
    split; cbn [ro_mux ro_routes ro_oci ro_verified]; [|intros e He; by eapply oci_sound_mono, Ho|by eapply public_step|done].
    intros e [He| ->%list_elem_of_singleton]%elem_of_app; [eapply mux_sound_mono; [done|apply sub_snoc|by apply Hm]|].
    unfold mux_sound. cbn. split; [apply in_snoc|done].
  - unfold HandlePublic in Hr. destruct (String.eqb_spec reason ""); [done|].
    destruct (record_route r _) as [r1|] eqn:Hrec; [|done]. injection Hr as <-.
    apply record_route_spec in Hrec as ->.
    split; cbn [ro_mux ro_routes ro_oci ro_verified]; [|intros e He; by eapply oci_sound_mono, Ho| |done].
    2: { intros m pat rs h' [Hin|[= -> -> -> ->]%list_elem_of_singleton]%elem_of_app; [destruct (Hp _ _ _ _ Hin); split; [done|by apply sub_snoc]|]. split; [done|apply in_snoc]. }
    intros e [He| ->%list_elem_of_singleton]%elem_of_app; [eapply mux_sound_mono; [done|apply sub_snoc|by apply Hm]|].
    unfold mux_sound. cbn. exists reason. split_and!; [done|apply in_snoc|apply in_snoc].
  - unfold HandleOCI in Hr. destruct (String.eqb _ _); [done|]. destruct (Verb_Valid _) eqn:Hv; [|done]. cbn [negb] in Hr.
    destruct (_ || _); [done|]. destruct (pm_listing p); [done|]. destruct (CutSuffix suffix "/") as [trimmed slash].
    destruct (foldM check_segment _ _) as [[]|] eqn:Hck; [|done]. cbn [result_bind] in Hr.
    destruct (record_route r _) as [r1|] eqn:Hrec; [|done]. cbn [result_bind] in Hr. injection Hr as <-.
    apply record_route_spec in Hrec as ->. split; cbn [ro_mux ro_routes ro_oci ro_verified].
    + intros e He. eapply mux_sound_mono; [done|apply sub_snoc|by apply Hm].
    + intros e. rewrite longest_first_perm, elem_of_app, list_elem_of_singleton. intros [He| ->]; [by eapply oci_sound_mono, Ho|].
      split; [apply SplitByte_nonempty|]. split; [by apply foldM_check|]. exists suffix, p, h. cbn. split_and!; [done|apply in_snoc|done].
    + by eapply public_step.
    + done.
Qed.

Lemma foldM_app_one {E A S} (f : S → A → result E S) s l x : foldM f s (l ++ [x]) = let! s' := foldM f s l in f s' x.
Proof.
  revert s. induction l as [|a l IH]; intros s; cbn [foldM app result_bind].
  - by destruct (f s x).
  - destruct (f s a); cbn [result_bind]; [apply IH|done].
Qed.

Lemma registered_sound regs r : foldM register NewRouter regs = Ok r → sound regs r.
Proof.
  revert r. induction regs as [|reg regs IH] using rev_ind; intros r Hr.
  { injection Hr as <-. split; [set_solver..|done]. }
  rewrite foldM_app_one in Hr. destruct (foldM register NewRouter regs) as [r0|]; [|done]. cbn [result_bind] in Hr.
  eapply sound_step; [by apply IH|done].
Qed.

(** ** The check of the table *)
Definition on_the_list (method pattern reason : string) : Prop :=
  ∃ p, p ∈ publicRoutes ∧ pr_method p +:+ " " +:+ pr_pattern p = method +:+ " " +:+ pattern ∧ pr_reason p = reason.

Lemma Verify_nil (r : Router H) : Router_Verify r = [] → ∀ route, route ∈ ro_routes r → problem route = None.
Proof.
  unfold Router_Verify, Routes. intros Hn route Hin. rewrite <- (sort_on_elem key_le route_key) in Hin.
  destruct (problem route) as [e|] eqn:Hp; [|done]. exfalso.
  assert ((route, e) ∈ omap (λ route, (λ e, (route, e)) <$> problem route) (sort_on key_le route_key (ro_routes r))) as Hin'.
  { apply list_elem_of_omap. exists route. by rewrite Hp. }
  rewrite Hn in Hin'. by apply not_elem_of_nil in Hin'.
Qed.

Lemma public_problem method pattern reason :
  reason ≠ "" → problem (mkRoute method pattern None reason) = None ↔
  match approved method pattern with Some p => pr_reason p = reason | None => False end.
Proof.
  intros Hr. unfold problem, Route_Public. cbn [rt_publicReason rt_method rt_pattern]. destruct (String.eqb_spec reason ""); [done|]. cbn [negb].
  destruct (approved method pattern) as [p|]; [|done]. destruct (String.eqb_spec (pr_reason p) reason); done.
Qed.

Lemma approved_listed method pattern p : approved method pattern = Some p →
  p ∈ publicRoutes ∧ pr_method p +:+ " " +:+ pr_pattern p = method +:+ " " +:+ pattern.
Proof. unfold approved. intros [Hin Heq]%find_some. apply String.eqb_eq in Heq. by apply list_elem_of_In, elem_of_reverse in Hin. Qed.

(** ** The multiplexer runs only what was registered *)
Lemma strip_from {A} f (entries : list (list mux_segment * list (string * string) * A)) x :
  x ∈ strip f entries → ∃ y, y ∈ entries ∧ y.2 = x.2.
Proof.
  unfold strip. rewrite list_elem_of_omap. intros ([[segs vs] h] & Hin & Hx). destruct segs as [|s segs]; [done|].
  destruct (f s); [|done]. injection Hx as <-. by exists (s :: segs, vs, h).
Qed.

Lemma mux_match_from {A} path (entries : list (list mux_segment * list (string * string) * A)) vs h :
  mux_match path entries = Some (vs, h) → ∃ y, y ∈ entries ∧ y.2 = h.
Proof.
  revert entries. induction path as [|seg path IH]; intros entries; cbn [mux_match].
  - intros Hh%head_Some_elem_of. apply list_elem_of_omap in Hh as ([[segs vs'] h'] & Hin & Hx).
    destruct segs; [|done]. injection Hx as <- <-. by exists ([], vs', h').
  - destruct (mux_match path (strip _ entries)) as [[vs' h']|] eqn:H1.
    { intros [= <- <-]. destruct (IH _ H1) as (y & Hy & Hyh). destruct (strip_from _ _ _ Hy) as (z & Hz & Hzy). exists z. split; [done|congruence]. }
    destruct (mux_match path (strip (as_wild _) entries)) as [[vs' h']|] eqn:H2.
    { intros [= <- <-]. destruct (IH _ H2) as (y & Hy & Hyh). destruct (strip_from _ _ _ Hy) as (z & Hz & Hzy). exists z. split; [done|congruence]. }
    intros Hh%head_Some_elem_of. apply list_elem_of_omap in Hh as ([[segs vs'] h'] & Hin & Hx).
    destruct segs as [|s segs]; [done|]. destruct (as_rest _ _); [|done]. injection Hx as _ <-. by exists (s :: segs, vs', h').
Qed.

Lemma mux_find_from method path (r : Router H) vs e : mux_find method path r = Some (vs, e) → e ∈ ro_mux r.
Proof.
  assert (∀ m, mux_match path (omap (λ e, if String.eqb (mr_method e) m then Some (parse_pattern (mr_pattern e), [], e) else None) (ro_mux r)) = Some (vs, e) →
    e ∈ ro_mux r) as Hu.
  { intros m Hm. destruct (mux_match_from _ _ _ _ Hm) as ([[s v] e'] & Hin & Heq). cbn in Heq. subst e'.
    apply list_elem_of_omap in Hin as (x & Hx & Hs). destruct (String.eqb _ _); [|done]. by injection Hs as _ _ <-. }
  unfold mux_find. cbv zeta. destruct (mux_match path _) as [f|] eqn:H1; [intros [= ->]; by eapply Hu|].
  destruct (String.eqb method "HEAD"); [apply Hu|done].
Qed.

(** ** The matcher of distribution paths *)
Definition seg_fits (pattern seg : string) : bool :=
  match cutPlaceholder pattern with
  | Ok (Some (_, c)) => negb (String.eqb seg "") && constraint_ok c seg
  | Ok None => String.eqb pattern seg
  | Err _ => false
  end.

Fixpoint seg_values (patterns tail : list string) (values : gmap string string) : gmap string string :=
  match patterns, tail with
  | pattern :: patterns, seg :: tail =>
      seg_values patterns tail (match cutPlaceholder pattern with Ok (Some (name, _)) => <[name := seg]> values | _ => values end)
  | _, _ => values
  end.

Lemma match_segments_spec patterns tail values :
  Forall (λ s, is_ok (cutPlaceholder s) = true) patterns → length tail = length patterns →
  match_segments patterns tail values =
  Ok (if decide (Forall2 (λ p s, seg_fits p s = true) patterns tail) then Some (seg_values patterns tail values) else None).
Proof.
  revert tail values. induction patterns as [|p patterns IH]; intros [|seg tail] values Hok Hl; try done.
  apply Forall_cons in Hok as [Hp Hok]. injection Hl as Hl. cbn [match_segments seg_values].
  destruct (seg_fits p seg) eqn:Hf.
  - assert (match_segments (p :: patterns) (seg :: tail) values =
      match_segments patterns tail (match cutPlaceholder p with Ok (Some (name, _)) => <[name := seg]> values | _ => values end)) as Hstep.
    { cbn [match_segments]. unfold seg_fits in Hf. destruct (cutPlaceholder p) as [[[name c]|]|]; cbn [result_bind]; [| |done].
      - apply andb_true_iff in Hf as [Hne Hc]. apply negb_true_iff in Hne. by rewrite Hne, Hc.
      - by rewrite Hf. }
    cbn [match_segments] in Hstep. rewrite Hstep, IH by done. f_equal.
    destruct (decide (Forall2 _ patterns tail)) as [Ht|Hn], (decide (Forall2 _ (p :: patterns) (seg :: tail))) as [Ht'|Hn']; try done.
    + exfalso. apply Hn'. by constructor.
    + exfalso. apply Hn. by inv Ht'.
  - destruct (decide (Forall2 _ (p :: patterns) (seg :: tail))) as [Ht'|_]; [inv Ht'; congruence|].
    unfold seg_fits in Hf. destruct (cutPlaceholder p) as [[[name c]|]|]; cbn [result_bind]; [| |done].
    + apply andb_false_iff in Hf as [->%negb_false_iff| ->]; [done|]. by rewrite orb_true_r.
    + by rewrite Hf.
Qed.

(** A path is the one of a route: the name, then segments the suffix fits. *)
Definition denotes (route : ociRoute H) (path name : string) (tail : list string) : Prop :=
  Forall2 (λ p s, seg_fits p s = true) (or_segments route) tail ∧ Forall (λ s, ContainsByte s "/" = false) tail ∧
  path = "/v2/" +:+ name +:+ slashed tail +:+ (if or_trailingSlash route then "/" else "").

Lemma fits_nonempty p s : p ≠ "" → seg_fits p s = true → s ≠ "".
Proof.
  unfold seg_fits. destruct (cutPlaceholder p) as [[[name c]|]|]; [| |done].
  - intros _ [Hs%negb_true_iff%String.eqb_neq _]%andb_true_iff. done.
  - intros Hp ->%String.eqb_eq. done.
Qed.

Lemma SplitByte_name_tail name tail : Forall (λ s, ContainsByte s "/" = false) tail →
  SplitByte (name +:+ slashed tail) "/" = SplitByte name "/" ++ tail.
Proof.
  destruct tail as [|t ts]; intros Ht; [by rewrite str_app_nil_r, app_nil_r|].
  cbn [slashed foldr]. rewrite SplitByte_app. f_equal. by apply SplitByte_slashed.
Qed.

Lemma Join_cons w ws : ws ≠ [] → strings_Join (w :: ws) "/" = w +:+ String "/" (strings_Join ws "/").
Proof. by destruct ws. Qed.

Lemma Join_name_tail parts tail : parts ≠ [] → strings_Join (parts ++ tail) "/" = strings_Join parts "/" +:+ slashed tail.
Proof.
  intros Hp. destruct parts as [|w ws]; [done|]. clear Hp. revert w. induction ws as [|w' ws IH]; intros w; cbn [app].
  - revert w. induction tail as [|t ts IHt]; intros w; [by cbn; rewrite str_app_nil_r|].
    rewrite Join_cons by done. by rewrite IHt.
  - rewrite Join_cons by done. cbn [app] in IH. rewrite IH, (Join_cons w (w' :: ws)) by done. by rewrite str_app_assoc.
Qed.

Lemma CutSuffix_slash s : CutSuffix (s +:+ "/") "/" = (s, true).
Proof.
  unfold CutSuffix, HasSuffix. rewrite str_length_app. cbn [String.length]. replace (String.length s + 1 - 1) with (String.length s) by lia.
  pose proof (substring_app_r s "/") as Hr. cbn [String.length] in Hr. rewrite Hr, (substring_app_l s "/"). destruct (Nat.leb_spec 1 (String.length s + 1)); [|lia]. done.
Qed.

Lemma CutSuffix_inv s : match CutSuffix s "/" with (t, true) => s = t +:+ "/" | (t, false) => t = s end.
Proof.
  unfold CutSuffix, HasSuffix. destruct (Nat.leb_spec (String.length "/") (String.length s)); [|done]. cbn [andb].
  destruct (String.eqb_spec (String.substring (String.length s - String.length "/") (String.length "/") s) "/") as [He|]; [|done].
  rewrite (substring_split (String.length s - String.length "/") s) at 1 by lia.
  replace (String.length s - (String.length s - String.length "/")) with (String.length "/") by lia. by rewrite He.
Qed.

Lemma no_final_slash s t u : ContainsByte t "/" = false → t ≠ "" → s +:+ t ≠ u +:+ "/".
Proof.
  intros Hc Hne. revert u. induction s as [|c s IH]; intros u.
  - intros Ht. change ("" +:+ t) with t in Ht. subst t. rewrite ContainsByte_app in Hc. cbn in Hc. by rewrite orb_true_r in Hc.
  - destruct u as [|c' u]; rewrite ?str_app_cons; [|intros [= _ Hu]; by apply (IH u)].
    intros [= _ Hu]. destruct s; [done|discriminate Hu].
Qed.

Lemma slash_free_end s t : ContainsByte t "/" = false → t ≠ "" → CutSuffix (s +:+ t) "/" = (s +:+ t, false).
Proof.
  intros Hc Hne. pose proof (CutSuffix_inv (s +:+ t)) as Hi. destruct (CutSuffix (s +:+ t) "/") as [u []]; [|by rewrite Hi].
  by apply no_final_slash in Hi.
Qed.

(** The one step of the loop. *)
Definition route_found (route : ociRoute H) (req : HttpRequest) (path : string) (slash : bool) (found : handler H * HttpRequest) : Prop :=
  or_method route = hr_method req ∧ or_trailingSlash route = slash ∧
  ∃ name tail, path = name +:+ slashed tail ∧ Forall2 (λ p s, seg_fits p s = true) (or_segments route) tail ∧
    Forall (λ s, ContainsByte s "/" = false) tail ∧
    found = (or_handler route, with_oci req (mkOciMatch name (seg_values (or_segments route) tail ∅))).

Lemma match_routes_cons route l req path slash :
  Forall (λ s, s ≠ "" ∧ is_ok (cutPlaceholder s) = true) (or_segments route) →
  (∃ found, match_routes req (SplitByte path "/") slash (route :: l) = Ok (Some found) ∧ route_found route req path slash found) ∨
  (match_routes req (SplitByte path "/") slash (route :: l) = match_routes req (SplitByte path "/") slash l ∧
   ∀ found, ¬ route_found route req path slash found).
Proof.
  intros Hok. set (parts := SplitByte path "/"). cbn [match_routes].
  destruct (String.eqb_spec (or_method route) (hr_method req)) as [Hm|Hm]; cbn [negb orb]; [|right; split; [done|]; by intros ? (? & _)].
  destruct (Bool.eqb (or_trailingSlash route) slash) eqn:Hs; cbn [negb].
  2: { right. split; [done|]. intros ? (_ & Hs' & _). rewrite Hs', eqb_reflx in Hs. done. }
  apply Bool.eqb_prop in Hs. set (k := length (or_segments route)).
  assert (∀ name tail, path = name +:+ slashed tail → length tail = k → Forall (λ s, ContainsByte s "/" = false) tail →
    k < length parts ∧ drop (length parts - k) parts = tail ∧ strings_Join (take (length parts - k) parts) "/" = name) as Hsplit.
  { intros name tail Hp Hl Hc. assert (parts = SplitByte name "/" ++ tail) as Hparts by (unfold parts; rewrite Hp; by apply SplitByte_name_tail).
    pose proof (SplitByte_nonempty name "/") as Hne. rewrite Hparts, length_app, Hl.
    assert (0 < length (SplitByte name "/")) by (destruct (SplitByte name "/"); [done|cbn; lia]).
    replace (length (SplitByte name "/") + k - k) with (length (SplitByte name "/")) by lia.
    rewrite drop_app_length, take_app_length. split; [lia|]. split; [done|]. apply Join_SplitByte. }
  assert (∀ found, route_found route req path slash found → ∃ name tail, k < length parts ∧ drop (length parts - k) parts = tail ∧
    strings_Join (take (length parts - k) parts) "/" = name ∧ Forall2 (λ p s, seg_fits p s = true) (or_segments route) tail ∧
    found = (or_handler route, with_oci req (mkOciMatch name (seg_values (or_segments route) tail ∅)))) as Hinv.
  { intros found (_ & _ & name & tail & Hp & Hf & Hc & Hfound). exists name, tail.
    destruct (Hsplit name tail Hp) as (? & ? & ?); [symmetry; by eapply Forall2_length|done|]. done. }
  destruct (Nat.leb_spec (length parts) k) as [Hle|Hlt].
  { right. split; [done|]. intros found (? & ? & ? & _)%Hinv. lia. }
  rewrite match_segments_spec; [|by eapply Forall_impl; [done|]; intros ? []|rewrite length_drop; lia]. cbn [result_bind].
  destruct (decide _) as [Hf|Hn].
  - left. eexists. split; [reflexivity|]. split; [done|]. split; [done|].
    exists (strings_Join (take (length parts - k) parts) "/"), (drop (length parts - k) parts). split_and!; [|done| |done].
    + rewrite <- Join_name_tail; [by rewrite take_drop; unfold parts; rewrite Join_SplitByte|].
      intros Hnil. apply (f_equal length) in Hnil. rewrite length_take in Hnil. cbn in Hnil. lia.
    + apply Forall_drop. apply SplitByte_clean.
  - right. split; [done|]. intros found (name & tail & _ & <- & _ & Hf & _)%Hinv. done.
Qed.

Lemma name_tail_parts name1 tail1 name2 tail2 :
  Forall (λ s, ContainsByte s "/" = false) tail1 → Forall (λ s, ContainsByte s "/" = false) tail2 →
  name1 +:+ slashed tail1 = name2 +:+ slashed tail2 → SplitByte name1 "/" ++ tail1 = SplitByte name2 "/" ++ tail2.
Proof. intros H1 H2 He. rewrite <- !SplitByte_name_tail by done. by rewrite He. Qed.

Lemma route_found_fun route req path slash found found' :
  route_found route req path slash found → route_found route req path slash found' → found = found'.
Proof.
  intros (_ & _ & n1 & t1 & Hp & Hf1 & Hc1 & ->) (_ & _ & n2 & t2 & Hp' & Hf2 & Hc2 & ->). rewrite Hp in Hp'.
  apply name_tail_parts in Hp' as He; [|done..]. apply app_inj_2 in He as [Hn ->].
  - by rewrite <- (Join_SplitByte n1 "/"), Hn, Join_SplitByte.
  - apply Forall2_length in Hf1, Hf2. congruence.
Qed.

(** No segment fits both. *)
Definition disjoint_seg (p q : string) : bool :=
  match cutPlaceholder p, cutPlaceholder q with
  | Ok None, Ok None => negb (String.eqb p q)
  | Ok (Some _), Ok None => negb (seg_fits p q)
  | Ok None, Ok (Some _) => negb (seg_fits q p)
  | Ok (Some (_, digestSegment)), Ok (Some (_, tagSegment)) => true
  | Ok (Some (_, tagSegment)), Ok (Some (_, digestSegment)) => true
  | _, _ => false
  end.

Lemma seg_fits_literal p s : cutPlaceholder p = Ok None → seg_fits p s = true → s = p.
Proof. unfold seg_fits. intros ->. by intros ->%String.eqb_eq. Qed.

Lemma disjoint_seg_spec p q s : disjoint_seg p q = true → seg_fits p s = true → seg_fits q s = true → False.
Proof.
  intros Hd Hp Hq. unfold disjoint_seg in Hd.
  destruct (cutPlaceholder p) as [[[n c]|]|] eqn:Hcp, (cutPlaceholder q) as [[[n' c']|]|] eqn:Hcq; try (by destruct c).
  - unfold seg_fits in Hp, Hq. rewrite Hcp in Hp. rewrite Hcq in Hq. apply andb_true_iff in Hp as [_ H1], Hq as [_ H2].
    destruct c, c'; cbn [constraint_ok] in *; first [done|by rewrite H1 in H2|by rewrite H2 in H1].
  - apply seg_fits_literal in Hq as ->; [|done]. destruct c; by rewrite Hp in Hd.
  - apply seg_fits_literal in Hp as ->; [|done]. by rewrite Hq in Hd.
  - apply seg_fits_literal in Hp as ->; [|done]. apply seg_fits_literal in Hq as ->; [|done]. by rewrite String.eqb_refl in Hd.
  - done.
  - done.
  - done.
  - done.
Qed.

(** No path is of both routes. *)
Definition clash (a b : ociRoute H) : bool :=
  negb (String.eqb (or_method a) (or_method b)) || negb (Bool.eqb (or_trailingSlash a) (or_trailingSlash b)) ||
  existsb (λ pq, disjoint_seg pq.1 pq.2) (zip (reverse (or_segments a)) (reverse (or_segments b))).

Fixpoint unambiguous (l : list (ociRoute H)) : bool :=
  match l with [] => true | r :: l => forallb (clash r) l && unambiguous l end.

Lemma app_tails_agree {A} (n1 t1 n2 t2 : list A) i x y :
  n1 ++ t1 = n2 ++ t2 → reverse t1 !! i = Some x → reverse t2 !! i = Some y → x = y.
Proof.
  intros He Hx Hy. apply (f_equal reverse) in He. rewrite !reverse_app in He.
  assert ((reverse t1 ++ reverse n1) !! i = Some x) as H1 by by apply lookup_app_l_Some.
  assert ((reverse t2 ++ reverse n2) !! i = Some y) as H2 by by apply lookup_app_l_Some.
  rewrite He in H1. congruence.
Qed.

Lemma clash_spec a b req path slash fa fb :
  clash a b = true → route_found a req path slash fa → route_found b req path slash fb → False.
Proof.
  intros Hc (Hm1 & Hs1 & n1 & t1 & Hp1 & Hf1 & Hn1 & _) (Hm2 & Hs2 & n2 & t2 & Hp2 & Hf2 & Hn2 & _).
  unfold clash in Hc. rewrite Hm1, Hm2, Hs1, Hs2, String.eqb_refl, eqb_reflx in Hc. cbn [negb orb] in Hc.
  apply existsb_exists in Hc as ([p q] & Hin & Hd). apply list_elem_of_In, list_elem_of_lookup in Hin as [i Hi].
  apply lookup_zip_with_Some in Hi as (p' & q' & [= <- <-] & Hp & Hq). rewrite Hp1 in Hp2. apply name_tail_parts in Hp2; [|done..].
  assert (∀ ps ts (x : string), Forall2 (λ p s, seg_fits p s = true) ps ts → reverse ps !! i = Some x → ∃ s, reverse ts !! i = Some s ∧ seg_fits x s = true) as Hrev.
  { intros ps ts x Hf Hx. eapply (Forall2_lookup_l (λ p s, seg_fits p s = true) (reverse ps) (reverse ts)) in Hx; [done|].
    by apply Forall2_reverse. }
  destruct (Hrev _ _ _ Hf1 Hp) as (s & Hs & Hps). destruct (Hrev _ _ _ Hf2 Hq) as (s' & Hs' & Hqs).
  assert (s = s') as <- by by eapply app_tails_agree. by eapply disjoint_seg_spec.
Qed.

Lemma match_routes_total l req path slash :
  Forall (λ e, Forall (λ s, s ≠ "" ∧ is_ok (cutPlaceholder s) = true) (or_segments e)) l →
  ∃ o, match_routes req (SplitByte path "/") slash l = Ok o ∧
    match o with
    | Some found => ∃ route, route ∈ l ∧ route_found route req path slash found
    | None => ∀ route found, route ∈ l → ¬ route_found route req path slash found
    end.
Proof.
  induction l as [|r l IH]; intros Hok; [exists None; split; [done|]; by intros ? ? ?%not_elem_of_nil|].
  apply Forall_cons in Hok as [Hr Hok]. destruct (match_routes_cons r l req path slash Hr) as [(found & -> & Hf)|[-> Hn]].
  - exists (Some found). split; [done|]. exists r. split; [left|done].
  - destruct (IH Hok) as (o & -> & Ho). exists o. split; [done|]. destruct o as [found|].
    + destruct Ho as (route & Hin & Hf). exists route. split; [by right|done].
    + intros route found [->|Hin]%elem_of_cons; [apply Hn|by apply Ho].
Qed.

Lemma match_routes_complete l req path slash route found :
  Forall (λ e, Forall (λ s, s ≠ "" ∧ is_ok (cutPlaceholder s) = true) (or_segments e)) l → unambiguous l = true →
  route ∈ l → route_found route req path slash found → match_routes req (SplitByte path "/") slash l = Ok (Some found).
Proof.
  induction l as [|r l IH]; intros Hok Hu; [by intros ?%not_elem_of_nil|]. apply Forall_cons in Hok as [Hr Hok].
  apply andb_true_iff in Hu as [Hc Hu]. intros Hin Hf. destruct (match_routes_cons r l req path slash Hr) as [(found' & -> & Hf')|[-> Hn]].
  - apply elem_of_cons in Hin as [->|Hin]; [by rewrite (route_found_fun _ _ _ _ _ _ Hf Hf')|]. exfalso.
    eapply clash_spec; [|exact Hf'|exact Hf]. eapply forallb_forall in Hc; [done|]. by apply list_elem_of_In.
  - apply elem_of_cons in Hin as [->|Hin]; [by apply Hn in Hf|]. by apply IH.
Qed.

Definition table_ok (l : list (ociRoute H)) : Prop :=
  Forall (λ e, or_segments e ≠ [] ∧ Forall (λ s, s ≠ "" ∧ is_ok (cutPlaceholder s) = true) (or_segments e)) l.

Lemma denotes_cut route path name tail :
  or_segments route ≠ [] → Forall (λ s, s ≠ "" ∧ is_ok (cutPlaceholder s) = true) (or_segments route) → denotes route path name tail →
  ∃ rest, CutPrefix path "/v2/" = Some rest ∧ rest ≠ "" ∧ CutSuffix rest "/" = (name +:+ slashed tail, or_trailingSlash route).
Proof.
  intros Hne Hok (Hf & Hc & ->). exists (name +:+ slashed tail +:+ (if or_trailingSlash route then "/" else "")).
  split; [apply CutPrefix_app|]. destruct tail as [|t0 tail0] eqn:Ht; [apply Forall2_nil_inv_r in Hf; done|]. rewrite <- Ht in *.
  split.
  { rewrite Ht. destruct name; [|done]. cbn [slashed foldr]. done. }
  destruct (or_trailingSlash route).
  - rewrite <- str_app_assoc. apply CutSuffix_slash.
  - rewrite str_app_nil_r. destruct (exists_last (l := tail)) as (init & t & Htail); [by rewrite Ht|].
    assert (t ≠ "" ∧ ContainsByte t "/" = false) as [Htn Htc].
    { rewrite Htail in Hf, Hc. apply Forall_app in Hc as [_ [Hc _]%Forall_cons]. split; [|done].
      apply Forall2_app_inv_r in Hf as (ps & ps' & _ & Hf & Hps). inv Hf as [|p ? ? ? Hfit _]. rewrite Hps in Hok.
      apply Forall_app in Hok as [_ [[Hp _] _]%Forall_cons]. by eapply fits_nonempty. }
    rewrite Htail, slashed_app. cbn [slashed foldr]. rewrite str_app_nil_r.
    replace (name +:+ slashed init +:+ String "/" t) with ((name +:+ slashed init +:+ "/") +:+ t).
    + by apply slash_free_end.
    + by rewrite !str_app_assoc.
Qed.

Lemma found_denotes route req rest path slash found :
  CutPrefix (hr_path req) "/v2/" = Some rest → CutSuffix rest "/" = (path, slash) → route_found route req path slash found →
  ∃ name tail, or_method route = hr_method req ∧ denotes route (hr_path req) name tail ∧
    found = (or_handler route, with_oci req (mkOciMatch name (seg_values (or_segments route) tail ∅))).
Proof.
  intros Hp Hs (Hm & Hsl & name & tail & Hpath & Hf & Hc & ->). exists name, tail. split; [done|]. split; [|done]. split; [done|]. split; [done|].
  pose proof (CutPrefix_spec (hr_path req) "/v2/") as H1. rewrite Hp in H1. rewrite H1, Hsl. f_equal.
  pose proof (CutSuffix_inv rest) as H2. rewrite Hs in H2. destruct slash; rewrite <- ?H2, Hpath in *; [by rewrite H2, str_app_assoc|].
  by rewrite str_app_nil_r.
Qed.

Definition found_for (route : ociRoute H) (req : HttpRequest) (name : string) (tail : list string) : handler H * HttpRequest :=
  (or_handler route, with_oci req (mkOciMatch name (seg_values (or_segments route) tail ∅))).

Lemma matchOCI_total r req : table_ok (ro_oci r) →
  ∃ o, matchOCI r req = Ok o ∧
    match o with
    | Some found => ∃ route name tail, route ∈ ro_oci r ∧ or_method route = hr_method req ∧ denotes route (hr_path req) name tail ∧
        found = found_for route req name tail
    | None => ∀ route name tail, route ∈ ro_oci r → or_method route = hr_method req → ¬ denotes route (hr_path req) name tail
    end.
Proof.
  intros Hok. unfold matchOCI.
  assert (∀ route name tail, route ∈ ro_oci r → denotes route (hr_path req) name tail →
    ∃ rest, CutPrefix (hr_path req) "/v2/" = Some rest ∧ rest ≠ "" ∧ CutSuffix rest "/" = (name +:+ slashed tail, or_trailingSlash route)) as Hcut.
  { intros route name tail Hin. eapply Forall_forall in Hok as [? ?]; [|exact Hin]. by apply denotes_cut. }
  destruct (CutPrefix (hr_path req) "/v2/") as [rest|] eqn:Hp.
  2: { exists None. split; [done|]. intros route name tail Hin _ Hd. by destruct (Hcut _ _ _ Hin Hd) as (? & ? & _). }
  destruct (decide (rest = "")) as [->|Hne].
  { exists None. split; [done|]. intros route name tail Hin _ Hd. by destruct (Hcut _ _ _ Hin Hd) as (? & [= <-] & ? & _). }
  destruct (CutSuffix rest "/") as [path slash] eqn:Hs. destruct (match_routes_total (ro_oci r) req path slash) as (o & Ho & Hspec).
  { eapply Forall_impl; [done|]. by intros ? []. }
  exists o. split; [by destruct rest|]. destruct o as [found|].
  - destruct Hspec as (route & Hin & Hf). destruct (found_denotes _ _ _ _ _ _ Hp Hs Hf) as (name & tail & ? & ? & ?). by exists route, name, tail.
  - intros route name tail Hin Hm Hd. destruct (Hcut _ _ _ Hin Hd) as (? & [= <-] & _ & Hs'). rewrite Hs in Hs'. injection Hs' as -> ->.
    destruct Hd as (Hf & Hc & _). apply (Hspec route (found_for route req name tail) Hin). split; [done|]. split; [done|]. by exists name, tail.
Qed.

Lemma matchOCI_complete r req route name tail : table_ok (ro_oci r) → unambiguous (ro_oci r) = true →
  route ∈ ro_oci r → or_method route = hr_method req → denotes route (hr_path req) name tail →
  matchOCI r req = Ok (Some (found_for route req name tail)).
Proof.
  intros Hok Hu Hin Hm Hd. pose proof Hok as Hok'. eapply Forall_forall in Hok' as [Hne Hsegs]; [|exact Hin].
  destruct (denotes_cut _ _ _ _ Hne Hsegs Hd) as (rest & Hp & Hr & Hs). unfold matchOCI. rewrite Hp. destruct rest as [|c rest]; [done|]. rewrite Hs.
  eapply match_routes_complete; [|done|exact Hin|].
  - eapply Forall_impl; [done|]. by intros ? [].
  - destruct Hd as (Hf & Hc & _). split; [done|]. split; [done|]. by exists name, tail.
Qed.
End table.
Arguments registration : clear implicits.

(** ** What is served *)
Section served.
Context {H S : Type} `{!BindingStore S, !SubjectStore S, !RotationStore S}.

(** One request after another, whoever asks. *)
Definition serves (r r' : Router H) : Prop :=
  ∃ (g : Guard HttpRequest) ctx (sn : Snapshot S) req o, ServeHTTP g ctx sn r req = Ok (o, r').

Definition same_table (r r' : Router H) : Prop :=
  ro_mux r' = ro_mux r ∧ ro_routes r' = ro_routes r ∧ ro_oci r' = ro_oci r ∧ default (Router_Verify r) (ro_verified r') = Router_Verify r.

Lemma ServeHTTP_table g ctx (sn : Snapshot S) (r r' : Router H) req o :
  ServeHTTP g ctx sn r req = Ok (o, r') → r' = mkRouter (ro_mux r) (ro_routes r) (ro_oci r) (Some (default (Router_Verify r) (ro_verified r))).
Proof.
  unfold ServeHTTP. cbv zeta. destruct (default _ _) eqn:Hd; [|by intros [= _ <-]].
  destruct (matchOCI _ _); [|done]. by intros [= _ <-].
Qed.

Lemma Verify_routes (r r' : Router H) : ro_routes r' = ro_routes r → Router_Verify r' = Router_Verify r.
Proof. unfold Router_Verify, Routes. by intros ->. Qed.

Lemma serves_table r r' : ro_verified r = None → rtc serves r r' → same_table r r'.
Proof.
  intros Hn. apply (rtc_ind_r (same_table r)); [split_and!; [done..|]; by rewrite Hn|].
  intros y z _ (g & ctx & sn & req & o & Hs) (H1 & H2 & H3 & H4). apply ServeHTTP_table in Hs as ->.
  split_and!; [done..|]. cbn [ro_verified default]. rewrite <- H4. by rewrite (Verify_routes r y H2).
Qed.

Lemma handler_serve_inv g ctx (sn : Snapshot S) (h : handler H) req k req' by_ :
  handler_serve g ctx sn h req = Handled k req' by_ → req' = req ∧
  match h with
  | Bare h => k = h ∧ by_ = None
  | Guarded p h => k = h ∧ ∃ subject d v, by_ = Some (subject, d, v) ∧ (Require g ctx sn p req).1 = Served subject d v
  end.
Proof.
  unfold handler_serve. destruct h as [p h|h]; [|by intros [= <- <- <-]].
  destruct (Require g ctx sn p req).1; try done. intros [= <- <- <-]. split; [done|]. split; [done|]. eauto.
Qed.

(** The same request, but for what matching put in its context. *)
Definition same_request (req req' : HttpRequest) : Prop :=
  hr_method req' = hr_method req ∧ hr_path req' = hr_path req ∧ hr_authorization req' = hr_authorization req ∧ hr_query req' = hr_query req.

(** How a handler may have come to run. *)
Inductive admitted (regs : list (registration H)) (g : Guard HttpRequest) (ctx : bool) (sn : Snapshot S) (h : H) (req : HttpRequest)
    : option served_by → Prop :=
| behind_the_guard p subject d v :
    (∃ method pattern, RegHandle method pattern p h ∈ regs) ∨ (∃ method suffix, RegOCI method suffix p h ∈ regs) →
    Verb_Valid (pm_verb p) = true → (Require g ctx sn p req).1 = Served subject d v → admitted regs g ctx sn h req (Some (subject, d, v))
| on_approval method pattern reason :
    RegPublic method pattern reason h ∈ regs → on_the_list method pattern reason → admitted regs g ctx sn h req None.

(** C39: Nothing is served unguarded. For every way of registering routes that does
    not panic, after any requests, and for every request: the router answers; a
    handler that runs was registered with a verb of the vocabulary and the guard
    admitted this request for that permission, or it was registered as public and
    that method, pattern and reason are on the frozen list; and a table with a
    public route that is not on the list serves nobody. *)
Theorem nothing_is_served_unguarded (regs : list (registration H)) r0 r g ctx (sn : Snapshot S) req :
  foldM register NewRouter regs = Ok r0 → rtc serves r0 r →
  ∃ o r', ServeHTTP g ctx sn r req = Ok (o, r') ∧
    (∀ h req' by_, o = Handled h req' by_ → same_request req req' ∧ admitted regs g ctx sn h req' by_) ∧
    ((∃ method pattern reason h, RegPublic method pattern reason h ∈ regs ∧ ¬ on_the_list method pattern reason) → o = Refused Internal).
Proof.
  intros Hr Hrtc. destruct (registered_sound _ _ Hr) as [Hm Ho Hp Hf]. destruct (serves_table _ _ Hf Hrtc) as (H1 & H2 & H3 & H4).
  unfold ServeHTTP. cbv zeta. rewrite (Verify_routes r0 r H2), H4.
  destruct (Router_Verify r0) as [|pb pbs] eqn:Hv; [|eexists _, _; split; [reflexivity|]; done].
  assert (∀ method pattern reason h, RegPublic method pattern reason h ∈ regs → on_the_list method pattern reason) as Hlist.
  { intros method pattern reason h Hin. destruct (Hp _ _ _ _ Hin) as [Hne Hroute]. pose proof (Verify_nil _ Hv _ Hroute) as Hprob.
    apply public_problem in Hprob; [|done]. destruct (approved method pattern) as [p|] eqn:Ha; [|done]. exists p.
    destruct (approved_listed _ _ _ Ha). done. }
  assert (table_ok (ro_oci r)) as Hok.
  { apply Forall_forall. rewrite H3. intros e He. by destruct (Ho e He) as (? & ? & _). }
  set (r1 := mkRouter _ _ _ _). destruct (matchOCI_total r1 req Hok) as (o & -> & Hspec). cbn [result_bind].
  eexists _, _. split; [reflexivity|]. split; [|intros (m & pat & rs & h & Hin & []); by eapply Hlist].
  intros h req' by_. destruct o as [[k rq]|].
  - destruct Hspec as (route & name & tail & Hin & _ & _ & [= -> ->]). intros [-> Hh]%handler_serve_inv. split; [done|].
    cbn [r1 ro_oci] in Hin. rewrite H3 in Hin. destruct (Ho _ Hin) as (_ & _ & suffix & p & h' & Heq & Hreg & Hverb). rewrite Heq in Hh.
    destruct Hh as (-> & subject & d & v & -> & Hreq). eapply behind_the_guard; [|done|done]. right. eauto.
  - unfold mux_serve. destruct (negb _); [done|]. cbv zeta.
    destruct (mux_find (hr_method req) (path_segments (hr_escapedPath req)) r1) as [[vs e]|] eqn:Hfind; [|by destruct (mux_redirects _ _ _ _)].
    destruct (mux_redirects _ _ _ _); [done|]. intros [-> Hh]%handler_serve_inv. split; [done|].
    apply mux_find_from in Hfind. cbn [r1 ro_mux] in Hfind. rewrite H1 in Hfind. specialize (Hm _ Hfind). unfold mux_sound in Hm.
    destruct (mr_handler e) as [p k|k].
    + destruct Hh as (-> & subject & d & v & -> & Hreq). destruct Hm as [Hreg Hverb]. eapply behind_the_guard; [|done|done]. left. eauto.
    + destruct Hh as [-> ->]. destruct Hm as (reason & _ & Hreg & _). eapply on_approval; [done|]. by eapply Hlist.
Qed.
End served.

(** ** The distribution API of the deployment *)

(** One operation of the protocol: [/v2/<name>] is followed by a fixed text and,
    for most, one more segment. *)
Record wire : Type := mkWire {
  wi_method : string; wi_before : string; wi_segment : option (string * (string → bool)); wi_verb : string; wi_endpoint : endpoint;
}.

Definition any_text (s : string) : bool := true.
Definition digest_text (s : string) : bool := ContainsByte s ":".
Definition tag_text (s : string) : bool := negb (ContainsByte s ":").

Definition distribution_api : list wire := [
  mkWire "PATCH" "/blobs/uploads/" (Some ("id", any_text)) RepoWrite BlobPatch;
  mkWire "PUT" "/blobs/uploads/" (Some ("id", any_text)) RepoWrite BlobCommit;
  mkWire "GET" "/blobs/uploads/" (Some ("id", any_text)) RepoWrite BlobStatus;
  mkWire "DELETE" "/blobs/uploads/" (Some ("id", any_text)) RepoWrite BlobCancel;
  mkWire "HEAD" "/blobs/" (Some ("digest", any_text)) RepoRead BlobStat;
  mkWire "GET" "/blobs/" (Some ("digest", any_text)) RepoRead BlobGet;
  mkWire "DELETE" "/blobs/" (Some ("digest", any_text)) ManifestDelete BlobRefuseDelete;
  mkWire "POST" "/blobs/uploads/" None RepoWrite BlobStart;
  mkWire "HEAD" "/manifests/" (Some ("reference", any_text)) RepoRead ManifestHead;
  mkWire "GET" "/manifests/" (Some ("reference", any_text)) RepoRead ManifestGet;
  mkWire "PUT" "/manifests/" (Some ("reference", any_text)) RepoWrite ManifestPut;
  mkWire "DELETE" "/manifests/" (Some ("reference", digest_text)) ManifestDelete ManifestDelete_;
  mkWire "DELETE" "/manifests/" (Some ("reference", tag_text)) TagDelete ManifestDeleteTag;
  mkWire "GET" "/tags/list" None RepoRead TagsList;
  mkWire "GET" "/referrers/" (Some ("digest", any_text)) ReferrerRead ReferrersList ].

Definition wi_fits (row : wire) (seg : string) : Prop :=
  match wi_segment row with
  | None => seg = ""
  | Some (_, f) => seg ≠ "" ∧ ContainsByte seg "/" = false ∧ f seg = true
  end.

Definition wi_values (row : wire) (seg : string) : gmap string string :=
  match wi_segment row with None => ∅ | Some (key, _) => {[key := seg]} end.

(** A route of the table is an operation of the protocol. *)
Definition agrees (route : ociRoute endpoint) (row : wire) : Prop :=
  or_method route = wi_method row ∧ or_handler route = Guarded (oci_verb (wi_verb row)) (wi_endpoint row) ∧
  (∀ path name tail, denotes route path name tail → ∃ seg, wi_fits row seg ∧ path = "/v2/" +:+ name +:+ wi_before row +:+ seg) ∧
  (∀ path name seg, wi_fits row seg → path = "/v2/" +:+ name +:+ wi_before row +:+ seg →
     ∃ tail, denotes route path name tail ∧ seg_values (or_segments route) tail ∅ = wi_values row seg).

Lemma fits_literals lits tail :
  Forall (λ p, cutPlaceholder p = Ok None) lits → Forall2 (λ p s, seg_fits p s = true) lits tail ↔ tail = lits.
Proof.
  intros Hl. split.
  - intros Hf. induction Hf as [|p s lits tail Hp Hf IH]; [done|]. apply Forall_cons in Hl as [Hc Hl]. f_equal; [by apply seg_fits_literal|auto].
  - intros ->. induction Hl as [|p lits Hc Hl IH]; constructor; [|done]. unfold seg_fits. by rewrite Hc, String.eqb_refl.
Qed.

Lemma values_literals lits patterns tail values :
  Forall (λ p, cutPlaceholder p = Ok None) lits → seg_values (lits ++ patterns) (lits ++ tail) values = seg_values patterns tail values.
Proof. intros Hl. induction Hl as [|p lits Hc Hl IH]; [done|]. cbn [app seg_values]. by rewrite Hc. Qed.

Lemma agrees_literal method lits slash verb e :
  Forall (λ p, cutPlaceholder p = Ok None ∧ ContainsByte p "/" = false) lits →
  agrees (mkOciRoute method lits slash (Guarded (oci_verb verb) e)) (mkWire method (slashed lits +:+ (if slash then "/" else "")) None verb e).
Proof.
  intros Hl. assert (Forall (λ p, cutPlaceholder p = Ok None) lits) as Hc by (eapply Forall_impl; [exact Hl|]; by intros ? []).
  split; [done|]. split; [done|]. split.
  - intros path name tail (Hf & _ & ->). cbn [or_segments] in Hf. apply fits_literals in Hf as ->; [|done]. exists "". split; [done|].
    by rewrite str_app_nil_r.
  - intros path name seg Hs ->. cbn in Hs. subst seg. exists lits. split.
    + split; [by apply fits_literals|]. split; [eapply Forall_impl; [exact Hl|]; by intros ? []|]. cbn [wi_before or_trailingSlash]. by rewrite str_app_nil_r.
    + cbn [or_segments wi_values wi_segment]. pose proof (values_literals lits [] [] ∅ Hc) as Hv. by rewrite !app_nil_r in Hv.
Qed.

Lemma agrees_segment method lits ph key c f verb e :
  Forall (λ p, cutPlaceholder p = Ok None ∧ ContainsByte p "/" = false) lits → cutPlaceholder ph = Ok (Some (key, c)) → (∀ s, constraint_ok c s = f s) →
  agrees (mkOciRoute method (lits ++ [ph]) false (Guarded (oci_verb verb) e)) (mkWire method (slashed lits +:+ "/") (Some (key, f)) verb e).
Proof.
  intros Hl Hph Hcf. assert (Forall (λ p, cutPlaceholder p = Ok None) lits) as Hc by (eapply Forall_impl; [exact Hl|]; by intros ? []).
  assert (∀ s, seg_fits ph s = negb (String.eqb s "") && f s) as Hfit by (intros s; unfold seg_fits; by rewrite Hph, Hcf).
  split; [done|]. split; [done|]. split.
  - intros path name tail (Hf & Hn & ->). cbn [or_segments] in Hf. apply Forall2_app_inv_l in Hf as (t1 & t2 & Hf1 & Hf2 & ->).
    apply fits_literals in Hf1 as ->; [|done]. inv Hf2 as [|? seg ? ? Hs Hnil]. inv Hnil. exists seg.
    rewrite Hfit in Hs. apply andb_true_iff in Hs as [Hne%negb_true_iff%String.eqb_neq Hs]. apply Forall_app in Hn as [_ [Hn _]%Forall_cons].
    split; [done|]. cbn [or_trailingSlash wi_before]. rewrite slashed_app. cbn [slashed foldr]. by rewrite !str_app_nil_r, !str_app_assoc.
  - intros path name seg (Hne & Hn & Hs) ->. exists (lits ++ [seg]). split.
    + split; [apply Forall2_app; [by apply fits_literals|]; constructor; [|constructor]; rewrite Hfit; apply andb_true_iff; split; [by apply negb_true_iff, String.eqb_neq|done]|].
      split; [apply Forall_app; split; [eapply Forall_impl; [exact Hl|]; by intros ? []|by constructor]|].
      cbn [or_trailingSlash wi_before]. rewrite slashed_app. cbn [slashed foldr]. by rewrite !str_app_nil_r, !str_app_assoc.
    + cbn [or_segments]. rewrite values_literals by done. cbn [seg_values]. rewrite Hph. cbn [wi_values wi_segment]. by rewrite insert_empty.
Qed.

Definition deployed : Router endpoint := match buildRouter with Ok r => r | Err _ => NewRouter end.

(** The table as the registrations leave it. *)
Definition by_segment (method : string) (lits : list string) (ph verb : string) (e : endpoint) : ociRoute endpoint :=
  mkOciRoute method (lits ++ [ph]) false (Guarded (oci_verb verb) e).
Definition by_literals (method : string) (lits : list string) (slash : bool) (verb : string) (e : endpoint) : ociRoute endpoint :=
  mkOciRoute method lits slash (Guarded (oci_verb verb) e).

Definition deployed_oci : list (ociRoute endpoint) := [
  by_segment "PATCH" ["blobs"; "uploads"] "{id}" RepoWrite BlobPatch;
  by_segment "PUT" ["blobs"; "uploads"] "{id}" RepoWrite BlobCommit;
  by_segment "GET" ["blobs"; "uploads"] "{id}" RepoWrite BlobStatus;
  by_segment "DELETE" ["blobs"; "uploads"] "{id}" RepoWrite BlobCancel;
  by_segment "HEAD" ["blobs"] "{digest}" RepoRead BlobStat;
  by_segment "GET" ["blobs"] "{digest}" RepoRead BlobGet;
  by_segment "DELETE" ["blobs"] "{digest}" ManifestDelete BlobRefuseDelete;
  by_literals "POST" ["blobs"; "uploads"] true RepoWrite BlobStart;
  by_segment "HEAD" ["manifests"] "{reference}" RepoRead ManifestHead;
  by_segment "GET" ["manifests"] "{reference}" RepoRead ManifestGet;
  by_segment "PUT" ["manifests"] "{reference}" RepoWrite ManifestPut;
  by_segment "DELETE" ["manifests"] "{reference:digest}" ManifestDelete ManifestDelete_;
  by_segment "DELETE" ["manifests"] "{reference:tag}" TagDelete ManifestDeleteTag;
  by_literals "GET" ["tags"; "list"] false RepoRead TagsList;
  by_segment "GET" ["referrers"] "{digest}" ReferrerRead ReferrersList ].

Lemma deployed_table : ro_oci deployed = deployed_oci.
Proof.
  unfold deployed, buildRouter, Blobs_Register, Manifests_Register, Tags_Register, Catalog_Register, Referrers_Register, Repositories_Register,
    AuthExplain_Register, AuthPassword_Register, TokenEndpoint_Register, V2Root_Register, deployed_oci, by_segment, by_literals, path_verb, oci_verb.
  generalize oci_resource, repositoryPathResource, QueryGet. intros a b c. vm_compute. reflexivity.
Qed.

Lemma literal_segments lits : forallb (λ p, match cutPlaceholder p with Ok None => negb (ContainsByte p "/") | _ => false end) lits = true →
  Forall (λ p, cutPlaceholder p = Ok None ∧ ContainsByte p "/" = false) lits.
Proof.
  intros Hl. apply Forall_forall. intros p Hp%list_elem_of_In. eapply forallb_forall in Hl; [|exact Hp].
  destruct (cutPlaceholder p) as [[|]|]; try done. by apply negb_true_iff in Hl.
Qed.

Ltac agree_segment c :=
  apply Forall2_cons; split;
  [match goal with
   | |- agrees (by_segment ?m ?l ?ph ?v ?e) (mkWire _ _ (Some (?k, ?f)) _ _) =>
       exact (agrees_segment m l ph k c f v e (literal_segments l eq_refl) eq_refl (λ s, eq_refl))
   end|].
Ltac agree_literals :=
  apply Forall2_cons; split;
  [match goal with
   | |- agrees (by_literals ?m ?l ?b ?v ?e) _ => exact (agrees_literal m l b v e (literal_segments l eq_refl))
   end|].

Lemma deployed_agrees : Forall2 agrees deployed_oci distribution_api.
Proof.
  unfold deployed_oci, distribution_api. do 7 agree_segment anySegment. agree_literals. do 3 agree_segment anySegment.
  agree_segment digestSegment. agree_segment tagSegment. agree_literals. agree_segment anySegment. constructor.
Qed.

Lemma deployed_ok : table_ok deployed_oci ∧ unambiguous deployed_oci = true.
Proof.
  split; [|vm_compute; reflexivity]. unfold table_ok. apply Forall_forall. intros e He%list_elem_of_In.
  assert (forallb (λ e, match or_segments e with [] => false | l => forallb (λ s, negb (String.eqb s "") && is_ok (cutPlaceholder s)) l end) deployed_oci = true)
    as Hall by (vm_compute; reflexivity).
  eapply forallb_forall in Hall; [|exact He]. destruct (or_segments e) as [|s l]; [done|]. split; [done|].
  apply Forall_forall. intros t Ht%list_elem_of_In. eapply forallb_forall in Hall; [|exact Ht].
  apply andb_true_iff in Hall as [Hn%negb_true_iff%String.eqb_neq ?]. done.
Qed.

(** The distribution paths of the deployment. A request for an operation of the
    protocol on a name, whatever slashes the name has, goes to the handler of that
    operation behind its verb, with that name and the last segment; and whatever is
    dispatched there is one of those requests. *)
Theorem distribution_paths_dispatch_exactly req :
  (∀ row name seg, row ∈ distribution_api → hr_method req = wi_method row → wi_fits row seg →
     hr_path req = "/v2/" +:+ name +:+ wi_before row +:+ seg →
     matchOCI deployed req = Ok (Some (Guarded (oci_verb (wi_verb row)) (wi_endpoint row), with_oci req (mkOciMatch name (wi_values row seg))))) ∧
  ∃ o, matchOCI deployed req = Ok o ∧
    (∀ found, o = Some found → ∃ row name seg, row ∈ distribution_api ∧ hr_method req = wi_method row ∧ wi_fits row seg ∧
       hr_path req = "/v2/" +:+ name +:+ wi_before row +:+ seg).
Proof.
  destruct deployed_ok as [Hok Hu]. pose proof deployed_agrees as Hall.
  assert (table_ok (ro_oci deployed)) as Hok' by by rewrite deployed_table. split.
  - intros row name seg Hin Hm Hfit Hpath. apply list_elem_of_lookup in Hin as [i Hi].
    destruct (Forall2_lookup_r _ _ _ _ _ Hall Hi) as (route & Hr & Hmeth & Hh & _ & Hback).
    destruct (Hback _ _ _ Hfit Hpath) as (tail & Hd & Hv).
    rewrite (matchOCI_complete deployed req route name tail Hok'); [by unfold found_for; rewrite Hh, Hv|by rewrite deployed_table| |congruence|done].
    rewrite deployed_table. by eapply list_elem_of_lookup_2.
  - destruct (matchOCI_total deployed req Hok') as (o & Ho & Hspec). exists o. split; [done|]. intros found ->.
    destruct Hspec as (route & name & tail & Hin & Hm & Hd & _). rewrite deployed_table in Hin. apply list_elem_of_lookup in Hin as [i Hi].
    destruct (Forall2_lookup_l _ _ _ _ _ Hall Hi) as (row & Hr & Hmeth & _ & Hfwd & _).
    destruct (Hfwd _ _ _ Hd) as (seg & Hfit & Hpath). exists row, name, seg. split_and!; [by eapply list_elem_of_lookup_2|congruence|done|done].
Qed.

(** ** The registrations of the deployment, in order *)
Definition deployment : list (registration endpoint) := [
  RegHandle "GET" "/api/v1/auth/explain" (mkPermission UserRead None (Some (λ req, Ok (QueryGet req "subject"))) false false) AuthExplainServe;
  RegHandle "POST" "/api/v1/auth/password" (mkPermission UserWrite None (Some (λ _, Ok "")) false true) AuthPasswordServe;
  RegPublic "GET" "/token" "the token endpoint issues credentials, so it cannot require them" TokenServe;
  RegPublic "GET" "/v2/{$}" "the OCI base endpoint answers only whether the client is authenticated (ADR 0004): 401 with the challenge, or 200 disclosing nothing" V2RootServe;
  RegHandle "POST" "/api/v1/repositories" (system_verb RepoCreate) RepositoriesCreate;
  RegHandle "GET" "/api/v1/repositories" (listing_verb RepoList) RepositoriesList;
  RegHandle "GET" "/api/v1/repositories/{name}" (path_verb RepoList) RepositoriesGet;
  RegHandle "PUT" "/api/v1/repositories/{name}/config" (path_verb RepoConfigure) RepositoriesUpdateConfig;
  RegHandle "DELETE" "/api/v1/repositories/{name}" (path_verb RepoDelete) RepositoriesDelete;
  RegHandle "PUT" "/api/v1/repositories/{name}/credentials" (path_verb ProxyCredentials) RepositoriesSetCredential;
  RegHandle "DELETE" "/api/v1/repositories/{name}/credentials" (path_verb ProxyCredentials) RepositoriesDeleteCredential;
  RegOCI "HEAD" "/blobs/{digest}" (oci_verb RepoRead) BlobStat;
  RegOCI "GET" "/blobs/{digest}" (oci_verb RepoRead) BlobGet;
  RegOCI "DELETE" "/blobs/{digest}" (oci_verb ManifestDelete) BlobRefuseDelete;
  RegOCI "POST" "/blobs/uploads/" (oci_verb RepoWrite) BlobStart;
  RegOCI "PATCH" "/blobs/uploads/{id}" (oci_verb RepoWrite) BlobPatch;
  RegOCI "PUT" "/blobs/uploads/{id}" (oci_verb RepoWrite) BlobCommit;
  RegOCI "GET" "/blobs/uploads/{id}" (oci_verb RepoWrite) BlobStatus;
  RegOCI "DELETE" "/blobs/uploads/{id}" (oci_verb RepoWrite) BlobCancel;
  RegOCI "HEAD" "/manifests/{reference}" (oci_verb RepoRead) ManifestHead;
  RegOCI "GET" "/manifests/{reference}" (oci_verb RepoRead) ManifestGet;
  RegOCI "PUT" "/manifests/{reference}" (oci_verb RepoWrite) ManifestPut;
  RegOCI "DELETE" "/manifests/{reference:digest}" (oci_verb ManifestDelete) ManifestDelete_;
  RegOCI "DELETE" "/manifests/{reference:tag}" (oci_verb TagDelete) ManifestDeleteTag;
  RegOCI "GET" "/tags/list" (oci_verb RepoRead) TagsList;
  RegHandle "GET" "/v2/_catalog" (listing_verb RepoList) CatalogServe;
  RegOCI "GET" "/referrers/{digest}" (oci_verb ReferrerRead) ReferrersList ].

Lemma deployment_builds : foldM register NewRouter deployment = Ok deployed.
Proof.
  unfold deployed, buildRouter, Blobs_Register, Manifests_Register, Tags_Register, Catalog_Register, Referrers_Register, Repositories_Register,
    AuthExplain_Register, AuthPassword_Register, TokenEndpoint_Register, V2Root_Register, deployment, path_verb, oci_verb.
  generalize oci_resource, repositoryPathResource, QueryGet. intros a b c. vm_compute. reflexivity.
Qed.

(** A caller without credentials, on a fresh store. *)
Definition demo_guard : Guard HttpRequest := mkGuard None None false.
Definition demo_snapshot : Snapshot IdStore := mkSnapshot New New (λ _, New).

Definition demo_request (path : string) : HttpRequest := mkHttpRequest "GET" path path "" [] None [].

Lemma nothing_is_served_unguarded_witness :
  ∃ o r', ServeHTTP demo_guard false demo_snapshot deployed (demo_request "/token") = Ok (o, r') ∧
    ∀ h req' by_, o = Handled h req' by_ → same_request (demo_request "/token") req' ∧ admitted deployment demo_guard false demo_snapshot h req' by_.
Proof.
  destruct (nothing_is_served_unguarded deployment deployed deployed demo_guard false demo_snapshot (demo_request "/token") deployment_builds (rtc_refl _ _))
    as (o & r' & Hs & Hh & _).
  exists o, r'. split; [exact Hs|exact Hh].
Defined.

(** The token endpoint answers without credentials; listing tags asks for them. *)
Definition answers (path : string) : option (option endpoint * option Response) :=
  match ServeHTTP demo_guard false demo_snapshot deployed (demo_request path) with
  | Ok (Handled h _ None, _) => Some (Some h, None)
  | Ok (Refused r, _) => Some (None, Some r)
  | _ => None
  end.

Example demo_answers :
  answers "/token" = Some (Some TokenServe, None) ∧ answers "/v2/" = Some (Some V2RootServe, None) ∧
  (∃ c, answers "/v2/team/app/tags/list" = Some (None, Some (Unauthorized c))) ∧ answers "/v2/team/app/tags" = None.
Proof. split_and!; [vm_compute; reflexivity..|eexists; vm_compute; reflexivity|vm_compute; reflexivity]. Qed.
